(* ===== verification/_CoqProject ===== *)
-Q . S2P
Prelude.v
StringFacts.v
FreeText.v
Domain.v
Rule.v
Containment.v
Resolver.v
RuleStore.v
Tables.v
Registry.v
OperationTable.v
RegistryFacts.v
Evaluate.v
Delegation.v
Authorizer.v
AuthorizerAudit.v
AuthorizerSound.v
Demo.v
AuthorizerProps.v
AuthorizerConjuncts.v
ProofBoundary.v
AuthorizerAffordances.v
KeyDefinition.v
Tx.v
TxFacts.v
RuleProps.v
Sweep.v
AdmissionWindow.v
Coordination.v
McpAdmission.v
Leadership.v
AdmissionAccounts.v
Admission.v
Bytes.v
Dotenv.v
Parameters.v
StateErr.v
Adapter.v
AdapterJournal.v
ForgejoSync.v
SyncRules.v
SyncFacts.v
SyncRows.v
SyncProps.v
Outbox.v
ManagedBlock.v
Generation.v
GenerationFacts.v
GenerationProps.v
Digest.v
Bearer.v
JsonStrings.v
AuthnTables.v
Authentication.v
AuthenticationProps.v
AuthenticationHistory.v
AuthenticationCharges.v
Presence.v
Definitions.v
Catalogue.v
DefinitionsApply.v
DefinitionsMatch.v
DefinitionsState.v
DefinitionsRealize.v
DefinitionsExec.v
DefinitionsKeys.v
DefinitionsTopology.v
DefinitionsConverge.v
DefinitionsParse.v
DefinitionsExport.v
EnvironmentDelete.v
DefinitionsProps.v
EntityNames.v
GroupIndex.v
KeyServices.v
KeyServicesFacts.v
KeyServicesMethods.v
KeyServicesGroups.v
KeyServicesApply.v
KeyServicesProps.v
