(* ===== verification/Prelude.v ===== *)
(** * Hikyo: a verification development of the control plane's core

    Hikyo is a self-hosted secrets control plane written in Go. Every request
    runs a service closure inside one database transaction; the closure asks the
    authorization chokepoint for a proof, and every store method refuses to run
    without one. Around that core, replicas elect a leader through the database,
    a limiter admits requests, an outbox worker pushes published values to
    deployment targets through a journal, and a project's key catalogue is kept
    in step with a definitions bundle. This development models these parts
    and proves what makes them correct: who obtains a proof, what a proof
    licenses, what a refusal records, how an attempt is settled, that at most one
    replica leads, that admission stays within its bounds, that delivery never
    takes over or loses track of content at a destination, and that applying a
    bundle converges.

    ** The program's parts and the files that model them

    - [src/internal/domain]: tenant identifiers, capabilities with their scope
      levels, scopes, grants, role templates and machine allowlists are in
      [Domain.v]; member access rules (validation, reach) in [Rule.v]; selector
      containment in [Containment.v].
    - [src/internal/authz/registry.go]: the operation table is translated row by
      row in [OperationTable.v], its types, lookups and startup validation in
      [Registry.v], the read-only store operations and the audit event catalogue
      in [Tables.v]; [RegistryFacts.v] evaluates the validation of the shipped
      table once, and the other files use its lemmas.
    - [evaluate], [evaluateWithRules], the navigation projection, machine
      reachability and session assurance ([authorize.go], [rules.go],
      [rule_navigation.go], [machine.go], [session.go]) are in [Evaluate.v]; the
      grantor bound of [rule_delegation.go] in [Delegation.v].
    - [src/internal/store/authn]: [Resolver.v] states the resolution surface as a
      record of reads ([Resolver]) with the laws a client may use
      ([ResolverLaws]), and implements it over table records ([db_resolver],
      with the instance [db_resolver_laws]); [RuleStore.v] relates stored item
      rows to rules up to item order.
    - [TxAuthorizer] ([authorize.go], [rules.go], [self_config.go],
      [approval_rules.go], [denial.go]): [Authorizer.v] models every minting
      entry point and affordance question in a state-and-error monad whose state
      holds the captured denials, the capture failures and the trace of
      resolution queries. [AuthorizerAudit.v] proves the recording of refusals,
      [AuthorizerSound.v] the certificate of a minted tenant proof,
      [AuthorizerProps.v] certification, isolation and indistinguishability,
      [AuthorizerConjuncts.v] the conjuncts beyond the formula, and
      [AuthorizerAffordances.v] the agreement of the questions with the minting
      doors, [KeyDefinition.v] the create affordance of
      [key_definition_affordance.go]. [Demo.v] is the concrete database the witnesses evaluate on.
    - [proof.go], [verify.go] and the system mint sites: [ProofBoundary.v] models
      verification and the life of tokens and proofs as a step relation over
      attempts, with an invariant by induction on histories.
    - [src/internal/store/tx/tx.go]: [Tx.v] models the retry loop, one attempt and
      the settlement of denials; [TxFacts.v] proves their guarantees.
    - [src/internal/freetext], [src/internal/audit/sanitize.go]: [FreeText.v]
      models free-text hygiene on byte sequences.
    - [RuleProps.v] collects the claims about policy data (selectors, rules,
      effective policy, templates, allowlists, the shipped registry).
    - [src/internal/admission]: [Sweep.v] is the bounded eviction all its maps
      share, [AdmissionWindow.v] the sliding windows, [AdmissionAccounts.v] the
      account backoff of both backends and the live sessions, [Admission.v] the
      limiter as a whole: the verification gate as a step relation, the shared
      windows against the laws of [SharedStore], the handoff of counters.
    - [src/internal/store/coordination*.go]: [Coordination.v] has leases, fences,
      nodes, counters and MCP claims as functions on tables; [McpAdmission.v]
      proves the bounds of MCP admission, [Leadership.v] composes the lease
      operations with the loop of [src/internal/app/scheduler.go] into a cluster
      of replicas with lost answers, pauses and restarts.
    - [src/internal/dotenv], [src/internal/parameters]: [Dotenv.v] and
      [Parameters.v], on the byte-sequence operations of [Bytes.v].
    - [src/internal/adapter]: [Adapter.v] holds the vocabulary, the ownership
      ledger and the manifest check; [AdapterJournal.v] the journal methods of
      [src/internal/store/adapter_runtime.go] as transactions; [ForgejoSync.v]
      the reference module's [Sync] against a destination; [Outbox.v] the worker's
      attempt, its retry schedule and the derived status. [StateErr.v] is the
      state-and-error monad they share, with its weakest preconditions;
      [SyncRules.v], [SyncFacts.v] and [SyncRows.v] build the proof of one row of
      [Sync] from rules for the journal methods, [SyncProps.v] states the claims.
    - [src/internal/compose/generation.go]: [ManagedBlock.v] models the stamp file
      on bytes, [Generation.v] the verbs of the render lock on a filesystem whose
      calls may fail part-way; [GenerationFacts.v] has their rules,
      [GenerationProps.v] the claims.
    - [src/internal/crypto/bearer.go]: [Digest.v] has the CRC-32 and SHA-256 of
      the standard library, [Bearer.v] the bearer grammar with its base62 codec.
    - Authentication ([session.go], [machine.go], [developer.go],
      [artifact_admission.go], [activity.go], [src/internal/operation] and the
      credential half of [src/internal/store/authn]): [AuthnTables.v] holds the
      rows, reads and statements, [JsonStrings.v] the factor list's decoding,
      [Authentication.v] the legs, doors and receipts as state passing over the
      chokepoint's state, with the memory of live sessions as the class
      [LiveSessions], which the limiter implements. [AuthenticationProps.v]
      relates them to a specification, [AuthenticationHistory.v] and
      [AuthenticationCharges.v] treat sequences of statements and of calls.
    - Definitions bundles: [Presence.v] has the presence rules of
      [src/internal/schema/presence.go] and their stored form; [Definitions.v]
      the pure engine of [src/internal/definitions] ([match.go], [state.go],
      [resolve.go], [drift.go]) and [DefinitionsParse.v] its canonical form
      ([parse.go]); [Catalogue.v] one project's tables with the statements of
      the repositories and the constraints of the schema; [DefinitionsApply.v]
      the executor of [src/internal/service/definitions_apply_exec.go], the
      state it reads and the export of [definitions.go]. [DefinitionsMatch.v]
      characterises matching, [DefinitionsState.v] states the catalogue's
      invariant and what is read off it, [DefinitionsRealize.v] what it means
      that a catalogue realizes a bundle. The executor's proof follows its
      phases: [DefinitionsExec.v] the rules of the statements,
      [DefinitionsTopology.v] deletes, parking, creations and final names,
      [DefinitionsKeys.v] the updates of keys, [DefinitionsConverge.v] the whole.
      [DefinitionsExport.v] treats exports, [EnvironmentDelete.v] the delete of
      [src/internal/service/hierarchy.go] with the presence cascade of
      [keys.go]; [DefinitionsProps.v] states the claims.
    - The definition services ([src/internal/service/keys.go], the environments
      of [hierarchy.go], [definitions_apply.go] and [definitions_apply_exec.go]):
      [EntityNames.v] has the grammars and limits, [GroupIndex.v] the index of
      [group_index.go] with the static check of groups and the validation before
      publication, [KeyServices.v] one definition per method, over the tables of
      [Catalogue.v] and, for what the methods call of other components, the class
      [Surroundings]; the apply of a plan includes the re-check of its pins and
      its guards on deletions and secrets. [KeyServicesFacts.v] holds the invariant
      and the rules of the steps, [KeyServicesMethods.v],
      [KeyServicesGroups.v] and [KeyServicesApply.v] show method by method that it
      is kept, [KeyServicesProps.v] composes the methods into the life of a
      project and states the claims.
    - This file and [StringFacts.v] hold the shared result type, its notation,
      the decision tactics, and the lemmas on lists, options, maps and strings.

    ** What the theorems show

    Soundness of authorization: a minted proof certifies the caller's policy in
    the attempt's snapshot, callers of other organisations obtain none, and the
    conjuncts on machines, developers, sessions, empty cells and the instance's
    own configuration hold of every minted proof. Indistinguishability: a missing
    object and one the caller's policy does not reach give the same answer after
    the same queries; developer credentials, rule targets and the refusals of the
    later conjuncts are outside that statement.
    Authentication: an identity is returned exactly for a live row of the value's
    class, every outcome of a leg but SCIM's costs the same reads, the account door
    admits only human sessions, a request pays once and before it looks a
    presented value up (a session re-read by its id is free), a superseded
    session and a restored credential never authenticate again; a bearer value
    parses if and only if it can be minted, and a mistyped one does not.
    Recording: every refusal of [Authorize] captures one denial, and a uniform
    refusal leaves the transaction boundary only after its denials are durable.
    The boundary: an accepted store call is covered by an authorization of the
    same live attempt. Policy data: selector containment is decided exactly,
    delegation escalates no environment and key reach, stored rules survive the
    round trip, policy is additive, the shipped registry validates.
    Coordination: leadership is exclusive in every reachable cluster state,
    guarded writes commit in fence order, and a lapsed lease is taken over.
    Admission: while the limiter tracks every subject (4096 of them), none exceeds
    its allowance in any sliding minute and the two backoff backends agree until
    a prune, an advertised wait is exact, memory stays bounded, the verification gate drains. Delivery: whatever a run of [Sync]
    meets, content it does not hold is kept, content it wrote stays in custody,
    no request precedes its durable intent, and a run without error has
    converged; a claimed job is settled once, given up only for the errors that
    refuse its kind at that stage, and its next due time follows the schedule. Rendering: at every crash point the stamp file selects whole
    generations, a collection keeps what it must, and a removal cut short is
    shown to block later ones. Definitions: executing a canonical bundle is
    refused only from outside the definitions or for a contradiction in the
    bundle itself (a key required and forbidden in one environment, a secret made
    config), and otherwise leaves exactly what the bundle declares, a second
    resolution being empty; a plan is applied only while its pins hold, deletes
    only with leave and only empty environments, and never makes a secret
    config; an additive bundle only
    adds, an export is in sync with the state it was taken from, the presence
    check of a group is exact, and deleting an environment keeps the catalogue's
    invariant, while an apply cannot delete a pinned one. From a new project,
    requests and applied plans in any order keep that invariant, the grammar of
    names and the limits, the project's key limit included; requests alone keep every group satisfiable, and the validation
    before publication accepts exactly what the declarations allow. Documents: an
    encoded dotenv document parses back, references resolve as the grammar says. Theorems also state where the code departs from
    its own documentation.

    ** Conventions, bounds and parameters

    Go functions with an error result return [result error A]; [Loud] stands for
    every error that wraps no domain sentinel, with its text shortened. Go maps
    are [gmap], sets of constants [gset], slices lists. The two unbounded witness
    searches of the containment check run with fuel one more than the number of
    names they must avoid, which [fresh_env_total] and [fresh_child_total] prove
    to be enough; the retry loop is structural on its four attempts. The
    substitution pass of [Parameters.v] runs with fuel equal to the length of its
    input, each round consuming a byte; a worker's attempt with fuel above the
    nanoseconds of its lease, each wait advancing the clock, which
    [run_settles_once] proves to be enough. The clock,
    the event-id generator, the wire attribution and the artifact view of the
    embedded API contract are fields of a context record and universally
    quantified; driver faults are a stream, under the contract (a named
    hypothesis) that a commit refused with a retryable error was rolled back.
    Concurrent writers appear as an arbitrary change of the database between
    two attempts. A call of the adapter journal or of a destination is answered
    by a fault, an arbitrary function of the call's position: an error with or
    without the effect having happened, so a statement about every fault function
    covers every crash point and every refused lock, lease, route or authority
    check; an answer of the 4xx range means the request was not performed, and
    [truthful], a named hypothesis, that 404 is answered for absent names only. Case
    folding of names is the class [CaseTable] with the laws its clients use, the
    regular expression engine a parameter. The declaration language of the
    catalogue (compilation, canonical text, value-dependent change) is the class
    [SchemaLang] with its [SchemaLaws], and what the executor asks of grants and
    rules the class [AccessAdmin]; both have a concrete instance in
    [DefinitionsProps.v], and [Surroundings] one in [KeyServicesProps.v]. Identifiers come from a generator that mints none
    twice, a named hypothesis; the search for a temporary name runs over one
    candidate more than the names in use, which the convergence proof shows to be
    enough. Times are integers in nanoseconds.

    ** Not modelled

    Minting of credentials, establishment authorities and federation bindings,
    grant and rule administration, the services beyond the definition services
    (organisations, projects, folders, values, delivery), reads and response
    views, the
    store repositories and generated SQL beyond the reads and tables named above,
    value schemas, and around the definition services the JSON form of bundles
    (of which the encoded length and the digest are parameters), the secret
    scanner, the reveal gate, the confirmation of moves, the published revisions
    and the publication fan-out, which are parameters; the deployment providers other than the reference one, the job queue behind the
    worker (enqueueing, claiming, route activation), SCIM, federation,
    the key hierarchy, and the HTTP, CLI and web surfaces. A destination changed by a
    third party while a run lasts is outside the model of [Sync]. The parts that
    would extend the development next are value schemas, whose compiler rests on
    a JSON Schema library, rule and grant administration, the job queue and the
    SCIM filters. *)

From stdpp Require Import prelude gmap strings pretty list sorting.

(** ** Results

    Go functions that return [(value, error)] become functions into
    [result E A]: [Ok a] is the [nil]-error return, [Err e] carries the error.
    A Go caller that propagates an error with [return ..., err] is the bind of
    this type. *)

Inductive result (E A : Type) : Type :=
| Ok (a : A)
| Err (e : E).
Arguments Ok {E A} a.
Arguments Err {E A} e.

#[export] Instance result_eq_dec {E A} `{EqDecision E, EqDecision A} :
  EqDecision (result E A).
Proof. solve_decision. Defined.

Definition rbind {E A B} (m : result E A) (f : A → result E B) : result E B :=
  match m with Ok a => f a | Err e => Err e end.

Definition is_ok {E A} (m : result E A) : bool :=
  match m with Ok _ => true | Err _ => false end.

Declare Scope hikyo_scope.
Delimit Scope hikyo_scope with hikyo.

Notation "'let!' x := m 'in' k" := (rbind m (λ x, k))
  (at level 10, x pattern, m at level 100, k at level 200) : hikyo_scope.
Open Scope hikyo_scope.
Open Scope stdpp_scope.

Lemma rbind_Ok {E A B} (m : result E A) (f : A → result E B) b :
  rbind m f = Ok b ↔ ∃ a, m = Ok a ∧ f a = Ok b.
Proof. destruct m; naive_solver. Qed.

Lemma rbind_Err {E A B} (m : result E A) (f : A → result E B) e :
  rbind m f = Err e ↔ m = Err e ∨ ∃ a, m = Ok a ∧ f a = Err e.
Proof. destruct m; naive_solver. Qed.

Lemma is_ok_true {E A} (m : result E A) : is_ok m = true ↔ ∃ a, m = Ok a.
Proof. destruct m; naive_solver. Qed.

(** ** Slices

    [slices.Contains] and [slices.ContainsFunc] of the Go standard library. *)

Definition Contains {A} `{EqDecision A} (l : list A) (x : A) : bool :=
  bool_decide (x ∈ l).

Definition ContainsFunc {A} (l : list A) (f : A → bool) : bool := existsb f l.

Lemma Contains_true {A} `{EqDecision A} (l : list A) x :
  Contains l x = true ↔ x ∈ l.
Proof. apply bool_decide_eq_true. Qed.

Lemma Contains_false {A} `{EqDecision A} (l : list A) x :
  Contains l x = false ↔ x ∉ l.
Proof. apply bool_decide_eq_false. Qed.

Lemma existsb_true {A} (l : list A) (f : A → bool) :
  existsb f l = true ↔ ∃ x, x ∈ l ∧ f x = true.
Proof.
  rewrite existsb_exists. by setoid_rewrite list_elem_of_In.
Qed.

Lemma existsb_false {A} (l : list A) (f : A → bool) :
  existsb f l = false ↔ ∀ x, x ∈ l → f x = false.
Proof.
  rewrite <-not_true_iff_false, existsb_true. split.
  - intros H x Hx. apply not_true_iff_false. eauto.
  - intros H (x & Hx & E). by rewrite H in E.
Qed.

Lemma forallb_true {A} (l : list A) (f : A → bool) :
  forallb f l = true ↔ ∀ x, x ∈ l → f x = true.
Proof. rewrite forallb_forall. by setoid_rewrite list_elem_of_In. Qed.

Lemma forallb_false {A} (l : list A) (f : A → bool) :
  forallb f l = false ↔ ∃ x, x ∈ l ∧ f x = false.
Proof.
  induction l as [|a l IH]; simpl.
  - split; [done|]. intros (x & Hx & _). by apply elem_of_nil in Hx.
  - rewrite andb_false_iff, IH. setoid_rewrite elem_of_cons. naive_solver.
Qed.

Lemma forallb_ext {A} (f g : A → bool) l : (∀ x, f x = g x) → forallb f l = forallb g l.
Proof. intros H. induction l as [|a l IH]; simpl; [done|]. by rewrite H, IH. Qed.

Lemma ContainsFunc_true {A} (l : list A) (f : A → bool) :
  ContainsFunc l f = true ↔ ∃ x, x ∈ l ∧ f x = true.
Proof. apply existsb_true. Qed.

Lemma ContainsFunc_false {A} (l : list A) (f : A → bool) :
  ContainsFunc l f = false ↔ ∀ x, x ∈ l → f x = false.
Proof. apply existsb_false. Qed.

Lemma omap_all_None {A B} (f : A → option B) (l : list A) :
  (∀ x, x ∈ l → f x = None) → omap f l = [].
Proof.
  induction l as [|a l IH]; intros H; [done|]. simpl. rewrite (H a) by set_solver.
  apply IH. set_solver.
Qed.

(** Existential membership, one element at a time. *)
Lemma ex_elem_nil {A} (P : A → Prop) : (∃ x, x ∈ [] ∧ P x) ↔ False.
Proof. setoid_rewrite elem_of_nil. naive_solver. Qed.

Lemma ex_elem_cons {A} (P : A → Prop) a l :
  (∃ x, x ∈ a :: l ∧ P x) ↔ P a ∨ ∃ x, x ∈ l ∧ P x.
Proof.
  split.
  - intros (x & [->|Hx]%elem_of_cons & HP); eauto.
  - intros [HP|(x & Hx & HP)]; [exists a|exists x]; rewrite elem_of_cons; auto.
Qed.

(** Indexing a Go map of slices: a missing key is the [nil] slice. *)
Definition mget {K A} `{Countable K} (m : gmap K (list A)) (k : K) : list A :=
  default [] (m !! k).

(** Membership test of a Go [map[string]bool] whose entries are all [true]. *)
Definition set_mem (X : gset string) (x : string) : bool := bool_decide (x ∈ X).

(** Two's-complement wrap-around of Go's [int64]. *)
Definition int64 (z : Z) : Z := ((z + 2^63) `mod` 2^64 - 2^63)%Z.

(** ** Automation

    [bsimp] turns boolean tests of the Go conditions into propositions,
    [bcase] splits on the innermost test of the goal. *)

Create HintDb hikyo.
Create Rewrite HintDb hikyo.

#[export] Hint Rewrite andb_true_iff orb_true_iff negb_true_iff negb_false_iff
  andb_false_iff orb_false_iff @Contains_true @Contains_false
  @ContainsFunc_true @ContainsFunc_false : hikyo.

Ltac bsimp :=
  repeat match goal with
  | H : context [bool_decide _ = true] |- _ => rewrite bool_decide_eq_true in H
  | H : context [bool_decide _ = false] |- _ => rewrite bool_decide_eq_false in H
  | |- context [bool_decide _ = true] => rewrite bool_decide_eq_true
  | |- context [bool_decide _ = false] => rewrite bool_decide_eq_false
  | _ => progress autorewrite with hikyo in *
  end.

Ltac bcase :=
  match goal with
  | |- context [if ?b then _ else _] =>
      lazymatch b with
      | context [if _ then _ else _] => fail
      | _ => let E := fresh "E" in destruct b eqn:E
      end
  | H : context [if ?b then _ else _] |- _ =>
      lazymatch b with
      | context [if _ then _ else _] => fail
      | _ => let E := fresh "E" in destruct b eqn:E
      end
  end.

(** Decide a closed decidable proposition by evaluating its decision. *)
Ltac by_compute :=
  refine (bool_decide_eq_true_1 _ _); vm_compute; reflexivity.

(** ** Unbounded counting loops

    [for i := 0; ; i++ { if P(i) { ... break } }] as a search with fuel. A
    client picks the fuel from the data and proves that the search succeeds
    ([search_total]), so the fuel never shows in a result. *)

Fixpoint search (P : nat → bool) (fuel i : nat) : option nat :=
  match fuel with
  | 0 => None
  | S fuel => if P i then Some i else search P fuel (S i)
  end.

Lemma search_Some P fuel i j : search P fuel i = Some j → P j = true ∧ i ≤ j.
Proof.
  revert i. induction fuel as [|fuel IH]; intros i; simpl; [done|].
  destruct (P i) eqn:E; [intros; by simplify_eq|]. intros [? ?]%IH. split; [done|lia].
Qed.

Lemma search_None P fuel i :
  search P fuel i = None → ∀ j, i ≤ j < i + fuel → P j = false.
Proof.
  revert i. induction fuel as [|fuel IH]; intros i; simpl; [lia|].
  destruct (P i) eqn:E; [done|]. intros H j Hj.
  destruct (decide (j = i)) as [->|]; [done|]. apply (IH (S i)); [done|lia].
Qed.

(** Pigeonhole: a relation that sends each index below [n] into [l] and never
    two indices to one element needs [n <= length l]. *)
Lemma pigeonhole_rel {A} (R : nat → A → Prop) (l : list A) n :
  (∀ i, i < n → ∃ x, x ∈ l ∧ R i x) →
  (∀ i j x, R i x → R j x → i = j) → n ≤ length l.
Proof.
  intros Hex Hinj.
  assert (∃ xs, length xs = n ∧ NoDup xs ∧ (∀ x, x ∈ xs → x ∈ l ∧ ∃ i, i < n ∧ R i x))
    as (xs & <- & Hnd & Hall).
  { induction n as [|n IH].
    - exists []. split_and!; [done|constructor|]. intros x Hx. by apply elem_of_nil in Hx.
    - destruct IH as (xs & Hlen & Hnd & Hall); [intros i Hi; apply Hex; lia|].
      destruct (Hex n) as (x & Hx & HR); [lia|].
      exists (x :: xs). split_and!; [simpl; lia| |].
      + apply NoDup_cons. split; [|done]. intros Hin.
        destruct (Hall x Hin) as (_ & i & Hi & HRi).
        pose proof (Hinj _ _ _ HR HRi). lia.
      + intros y [->|Hy]%elem_of_cons; [eauto|].
        destruct (Hall y Hy) as (? & i & ? & ?). eauto 6 with lia. }
  apply submseteq_length, NoDup_submseteq; [done|]. intros x Hx. by apply Hall.
Qed.

Lemma search_total {A} (P : nat → bool) (l : list A) (R : nat → A → Prop) i :
  (∀ j, P j = false → ∃ x, x ∈ l ∧ R j x) →
  (∀ j k x, R j x → R k x → j = k) → is_Some (search P (S (length l)) i).
Proof.
  intros Hex Hinj. destruct (search P (S (length l)) i) eqn:E; [by eexists|].
  assert (S (length l) ≤ length l); [|lia].
  apply (pigeonhole_rel (λ j x, R (i + j) x)).
  - intros j Hj. apply Hex. eapply search_None; [done|lia].
  - intros j k x Hj Hk. pose proof (Hinj _ _ _ Hj Hk). lia.
Qed.

(** ** Sorting *)

(** [slices.SortFunc] and [slices.SortStableFunc] on a comparison. *)
Definition sort_by {A} (le : A → A → bool) : list A → list A :=
  @merge_sort A (λ a b, le a b = true) (λ a b, bool_eq_dec (le a b) true).

Lemma sort_by_Permutation {A} (le : A → A → bool) l : sort_by le l ≡ₚ l.
Proof. apply merge_sort_Permutation. Qed.

Lemma elem_of_sort_by {A} (le : A → A → bool) l x : x ∈ sort_by le l ↔ x ∈ l.
Proof. by rewrite sort_by_Permutation. Qed.

Lemma sort_by_sorted {A} (le : A → A → bool) l :
  (∀ x y z, le x y = true → le y z = true → le x z = true) → (∀ x y, le x y = true ∨ le y x = true) →
  StronglySorted (λ a b, le a b = true) (sort_by le l).
Proof. intros Htr Htot. apply StronglySorted_merge_sort; [exact Htr|exact Htot]. Qed.
