(* ===== verification/StringFacts.v ===== *)
(** * Byte strings

    Go strings are byte sequences; the development represents them by Rocq's
    [string]. This file holds the parts of Go's [strings] and [fmt] packages
    the sources use and the facts the components share: prefixes, appending,
    separator-free strings, decimal printing. *)

From stdpp Require Import prelude strings pretty list.
From Stdlib Require Import Ascii.
From S2P Require Import Prelude.

(** [strings.HasPrefix s pre] *)
Definition HasPrefix (s pre : string) : bool := String.prefix pre s.

(** ** Appending *)

Lemma append_cons c (a b : string) : String c a +:+ b = String c (a +:+ b).
Proof. done. Qed.

Lemma append_nil_r (s : string) : s +:+ "" = s.
Proof. induction s as [|c s IH]; [done|]. by rewrite ?append_cons; cbn; rewrite IH. Qed.

Lemma append_assoc (a b c : string) : (a +:+ b) +:+ c = a +:+ (b +:+ c).
Proof. induction a as [|x a IH]; [done|]. by rewrite ?append_cons; cbn; rewrite IH. Qed.

Lemma append_length (a b : string) :
  String.length (a +:+ b) = String.length a + String.length b.
Proof. induction a as [|x a IH]; [done|]. by rewrite ?append_cons; cbn; rewrite IH. Qed.

Lemma append_cancel_l (a b c : string) : a +:+ b = a +:+ c → b = c.
Proof. by intros ?%(inj (String.append a)). Qed.

(** Two decompositions of one string: the shorter head is a prefix of the
    longer one. *)
Lemma append_split (a x b y : string) :
  a +:+ x = b +:+ y → String.length a ≤ String.length b → ∃ c, b = a +:+ c ∧ x = c +:+ y.
Proof.
  revert b. induction a as [|c a IH]; intros b H Hlen; [by exists b|].
  destruct b as [|d b]; [cbn in Hlen; lia|]. cbn in H. simplify_eq.
  destruct (IH b) as (e & -> & ->); [done|cbn in Hlen; lia|]. by exists e.
Qed.

Lemma append_eq_length (a x b y : string) :
  a +:+ x = b +:+ y → String.length a = String.length b → a = b ∧ x = y.
Proof.
  intros H Hlen. destruct (append_split a x b y) as (c & -> & ->); [done|lia|].
  rewrite append_length in Hlen. destruct c; [|cbn in Hlen; lia].
  by rewrite append_nil_r.
Qed.

Lemma append_empty (a b : string) : a +:+ b = "" → a = "" ∧ b = "".
Proof. by destruct a, b. Qed.

(** ** Prefixes *)

Lemma HasPrefix_true s pre : HasPrefix s pre = true ↔ ∃ t, s = pre +:+ t.
Proof.
  unfold HasPrefix. revert s. induction pre as [|c pre IH]; intros s.
  { split; [by exists s|]. by destruct s. }
  destruct s as [|d s].
  { split; [done|]. by intros [t ?]. }
  cbn [String.prefix]. setoid_rewrite append_cons.
  destruct (ascii_dec c d) as [->|Hne]; [|naive_solver].
  rewrite IH. naive_solver.
Qed.

(** ** Occurrence of one byte *)

Definition slash : ascii := "/"%char.

Fixpoint has_char (c : ascii) (s : string) : bool :=
  match s with
  | "" => false
  | String d s => bool_decide (c = d) || has_char c s
  end.

Lemma has_char_append c a b : has_char c (a +:+ b) = has_char c a || has_char c b.
Proof. induction a as [|x a IH]; [done|].
  rewrite append_cons. cbn [has_char]. by rewrite IH, orb_assoc.
Qed.

(** The part before the first separator is determined. *)
Lemma first_sep_eq c a b x y :
  has_char c a = false → has_char c b = false →
  a +:+ String c x = b +:+ String c y → a = b.
Proof.
  intros Ha Hb H.
  assert (∀ u v p q, has_char c v = false → u +:+ String c p = v +:+ String c q →
    ¬ String.length u < String.length v) as Hlt.
  { intros u v p q Hv Heq Hlen.
    destruct (append_split u (String c p) v (String c q)) as (d & -> & Hd);
      [done|lia|].
    rewrite append_length in Hlen. destruct d as [|e d]; [cbn in Hlen; lia|].
    rewrite append_cons in Hd. injection Hd as <- _. rewrite has_char_append in Hv. cbn [has_char] in Hv.
    rewrite bool_decide_true in Hv by done. simpl in Hv.
    by rewrite orb_true_r in Hv. }
  destruct (append_eq_length a (String c x) b (String c y)) as [-> _]; [done| |done].
  pose proof (Hlt _ _ _ _ Hb H). symmetry in H. pose proof (Hlt _ _ _ _ Ha H). lia.
Qed.

(** ** Decimal printing, [%d] of a non-negative integer *)

Lemma pretty_N_go_digits c n s :
  (∀ d, pretty_N_char d ≠ c) → has_char c (pretty_N_go n s) = has_char c s.
Proof.
  intros Hc. revert s. induction (N.lt_wf_0 n) as [n _ IH]; intros s.
  assert (n = 0 ∨ 0 < n)%N as [->|Hn] by lia; [by rewrite pretty_N_go_0|].
  rewrite pretty_N_go_step by done. rewrite IH by (by apply N.div_lt). cbn [has_char].
  rewrite bool_decide_false; [done|]. intros E. by apply (Hc (n `mod` 10)%N).
Qed.

Lemma pretty_nat_no_slash (n : nat) : has_char slash (pretty n) = false.
Proof.
  unfold pretty, pretty_nat, pretty, pretty_N. case_decide; [done|].
  rewrite pretty_N_go_digits; [done|]. intros d. unfold pretty_N_char.
  by repeat case_match.
Qed.
