(* ===== verification/FreeText.v ===== *)
(** * Free-text hygiene: [internal/freetext/sanitize.go]

    Every caller-originated string of an audit record passes through
    [SanitizeFreeText]: invalid UTF-8 is replaced, control characters are
    dropped, substrings of the bearer-token grammar are redacted and the result
    is cut to [FreeTextBound] bytes on a rune boundary. Strings are byte lists
    here, as Go strings are; [checkSanitized] ([internal/audit/sanitize.go]) is
    the write boundary's re-check. *)

From stdpp Require Import prelude strings list.
From Stdlib Require Import Ascii NArith.
From S2P Require Import Prelude.

Abbreviation bytes := (list ascii) (only parsing).

(** ** UTF-8 decoding

    [rune_width s] is the width of the rune at the head of [s] when it is well
    formed, [None] where [utf8.DecodeRuneInString] answers [(RuneError, 1)]. *)

Definition in_range (lo hi : N) (c : ascii) : bool :=
  (lo <=? N_of_ascii c)%N && (N_of_ascii c <=? hi)%N.

Definition ascii7 (c : ascii) : bool := (N_of_ascii c <? 128)%N.
Definition cont_byte (c : ascii) : bool := in_range 128 191 c.

(** The accepted second bytes of a three-byte and of a four-byte rune. *)
Definition second3 (c0 c1 : ascii) : bool :=
  if (N_of_ascii c0 =? 224)%N then in_range 160 191 c1
  else if (N_of_ascii c0 =? 237)%N then in_range 128 159 c1
  else cont_byte c1.

Definition second4 (c0 c1 : ascii) : bool :=
  if (N_of_ascii c0 =? 240)%N then in_range 144 191 c1
  else if (N_of_ascii c0 =? 244)%N then in_range 128 143 c1
  else cont_byte c1.

Definition rune_width (s : bytes) : option nat :=
  match s with
  | [] => None
  | c0 :: t =>
      if ascii7 c0 then Some 1
      else if in_range 194 223 c0 then
        match t with c1 :: _ => if cont_byte c1 then Some 2 else None | _ => None end
      else if in_range 224 239 c0 then
        match t with
        | c1 :: c2 :: _ => if second3 c0 c1 && cont_byte c2 then Some 3 else None
        | _ => None
        end
      else if in_range 240 244 c0 then
        match t with
        | c1 :: c2 :: c3 :: _ =>
            if second4 c0 c1 && cont_byte c2 && cont_byte c3 then Some 4 else None
        | _ => None
        end
      else None
  end.

#[global] Arguments rune_width : simpl never.

(** The loop [for i, r := range s]: a rune with its bytes, or one bad byte. *)
Inductive chunk := Rune (r : bytes) | Bad.

Fixpoint decode (fuel : nat) (s : bytes) : list chunk :=
  match fuel, s with
  | S fuel, _ :: t =>
      match rune_width s with
      | Some n => Rune (take n s) :: decode fuel (drop n s)
      | None => Bad :: decode fuel t
      end
  | _, _ => []
  end.

(** U+FFFD in UTF-8. *)
Definition replacement : bytes := ascii_of_N <$> [239; 191; 189]%N.

(** A run of bad bytes becomes one replacement. *)
Fixpoint replace_bad (invalid : bool) (l : list chunk) : list bytes :=
  match l with
  | [] => []
  | Rune r :: l => r :: replace_bad false l
  | Bad :: l => if invalid then replace_bad true l else replacement :: replace_bad true l
  end.

Definition ToValidUTF8 (s : bytes) : bytes := concat (replace_bad false (decode (length s) s)).

(** ** Control characters *)

Definition control (c : ascii) : bool := (N_of_ascii c <? 32)%N || (N_of_ascii c =? 127)%N.

Definition control_rune (r : bytes) : bool :=
  match r with [c] => control c | _ => false end.

(** [strings.Map] with the dropping function: every other rune is written back. *)
Definition drop_control (s : bytes) : bytes :=
  concat (filter (λ r, control_rune r = false)
    ((λ c, match c with Rune r => r | Bad => replacement end) <$> decode (length s) s)).

(** ** Token redaction *)

Definition lower (c : ascii) : bool := in_range 97 122 c.
Definition base62 (c : ascii) : bool := in_range 48 57 c || in_range 65 90 c || lower c.

Fixpoint span (f : ascii → bool) (s : bytes) : bytes * bytes :=
  match s with
  | [] => ([], [])
  | c :: t => if f c then let '(run, rest) := span f t in (c :: run, rest) else ([], s)
  end.

(** One repeated class closed by an underscore. The class never contains the
    underscore, so the run is the longest one and its length is checked. *)
Definition field (f : ascii → bool) (lo hi : nat) (s : bytes) : option bytes :=
  let '(run, rest) := span f s in
  match rest with
  | "_"%char :: rest =>
      if Nat.leb lo (length run) && Nat.leb (length run) hi then Some rest else None
  | _ => None
  end.

Definition token_prefix (s : bytes) : option bytes :=
  match s with
  | "h"%char :: "i"%char :: "k"%char :: "_"%char :: t => Some t
  | "e"%char :: "w"%char :: "_"%char :: t => Some t
  | _ => None
  end.

Definition long_body (body : bytes) : bool := Nat.leb 16 (length body).
#[global] Arguments long_body : simpl never.

(** [tokenGrammarRe] anchored at the head of [s]; the result is what follows
    the leftmost-first (greedy) match. *)
Definition token_match (s : bytes) : option bytes :=
  s ← token_prefix s;
  s ← field base62 1 8 s;
  s ← field lower 2 8 s;
  let '(body, rest) := span base62 s in
  if long_body body then Some rest else None.

Definition RedactionMarker : bytes := String.list_ascii_of_string "[REDACTED:hikyo-token]".

(** [ReplaceAllString]: leftmost matches first, never overlapping. *)
Fixpoint redact (fuel : nat) (s : bytes) : bytes :=
  match fuel, s with
  | S fuel, c :: t =>
      match token_match s with
      | Some rest => RedactionMarker ++ redact fuel rest
      | None => c :: redact fuel t
      end
  | _, _ => []
  end.

Definition RedactTokens (s : bytes) : bytes := redact (length s) s.

(** ** The bound *)

Definition FreeTextBound : nat := 1024.

(** [utf8.RuneStart]. *)
Definition RuneStart (c : ascii) : bool := negb (N.land (N_of_ascii c) 192 =? 128)%N.

(** [for cut > 0 && !utf8.RuneStart(s[cut]) { cut-- }]. *)
Fixpoint rune_cut (s : bytes) (cut : nat) : nat :=
  match cut with
  | 0 => 0
  | S cut' =>
      match s !! cut with
      | Some c => if RuneStart c then cut else rune_cut s cut'
      | None => cut
      end
  end.

Definition truncate_bytes (s : bytes) : bytes :=
  if Nat.ltb FreeTextBound (length s) then take (rune_cut s FreeTextBound) s else s.

Definition sanitize (s : bytes) : bytes :=
  truncate_bytes (RedactTokens (drop_control (ToValidUTF8 s))).

Definition SanitizeFreeText (s : string) : string :=
  String.string_of_list_ascii (sanitize (String.list_ascii_of_string s)).

Definition checkSanitized (s : string) : bool := bool_decide (s = SanitizeFreeText s).

(** ** Well-formed text

    [valid s]: [s] is a sequence of well-formed runes. *)

Inductive valid : bytes → Prop :=
| valid_nil : valid []
| valid_rune r t : rune_width (r ++ t) = Some (length r) → valid t → valid (r ++ t).

Lemma rune_width_bounds s n : rune_width s = Some n → 1 ≤ n ≤ length s.
Proof.
  unfold rune_width. destruct s as [|c0 [|c1 [|c2 [|c3 t]]]]; simpl; repeat case_match;
    intros; simplify_eq; simpl; lia.
Qed.

(** Whether a rune is well formed depends on its own bytes only. *)
Lemma rune_width_app r t t' :
  rune_width (r ++ t) = Some (length r) → rune_width (r ++ t') = Some (length r).
Proof.
  intros H. pose proof (rune_width_bounds _ _ H) as [Hn _]. revert H.
  destruct r as [|c0 [|c1 [|c2 [|c3 [|c4 r]]]]]; simpl in *; [lia|..];
    unfold rune_width; simpl; repeat case_match; intros; simplify_eq/=; try done; lia.
Qed.

Lemma rune_width_nonascii c t n :
  rune_width (c :: t) = Some n → ascii7 c = true → n = 1.
Proof. unfold rune_width. intros H Hc. rewrite Hc in H. by simplify_eq. Qed.

Lemma in_range_true lo hi c :
  in_range lo hi c = true ↔ (lo ≤ N_of_ascii c ≤ hi)%N.
Proof. unfold in_range. rewrite andb_true_iff, !N.leb_le. done. Qed.

Lemma cont_facts c : cont_byte c = true → ascii7 c = false ∧ RuneStart c = false.
Proof. by destruct c as [[] [] [] [] [] [] [] []]; vm_compute. Qed.

Lemma lead_facts c : in_range 194 244 c = true → ascii7 c = false ∧ RuneStart c = true.
Proof. by destruct c as [[] [] [] [] [] [] [] []]; vm_compute. Qed.

Lemma ascii_RuneStart c : ascii7 c = true → RuneStart c = true.
Proof. by destruct c as [[] [] [] [] [] [] [] []]; vm_compute. Qed.

Lemma second3_cont c0 c1 : second3 c0 c1 = true → cont_byte c1 = true.
Proof.
  unfold second3, cont_byte. repeat case_match; rewrite ?in_range_true; lia.
Qed.

Lemma second4_cont c0 c1 : second4 c0 c1 = true → cont_byte c1 = true.
Proof.
  unfold second4, cont_byte. repeat case_match; rewrite ?in_range_true; lia.
Qed.

Lemma lead_range lo hi c :
  in_range lo hi c = true → (194 ≤ lo)%N → (hi ≤ 244)%N → in_range 194 244 c = true.
Proof. rewrite !in_range_true. lia. Qed.

(** The bytes of a well-formed rune: one ASCII byte, or a leading byte and
    continuation bytes, none of them ASCII. *)
Lemma rune_bytes r t :
  rune_width (r ++ t) = Some (length r) →
  (∃ c, r = [c] ∧ ascii7 c = true) ∨
  (∃ c rest, r = c :: rest ∧ ascii7 c = false ∧ RuneStart c = true ∧
     Forall (λ d, ascii7 d = false ∧ RuneStart d = false) rest).
Proof.
  intros H. pose proof (rune_width_bounds _ _ H) as [Hn _]. revert H.
  destruct r as [|c0 r]; [simpl in *; lia|]. unfold rune_width. simpl.
  destruct (ascii7 c0) eqn:E0.
  { intros [= H]. left. exists c0. destruct r; [done|simpl in H; lia]. }
  intros H. right. exists c0, r. split; [done|]. split; [done|].
  destruct (in_range 194 223 c0) eqn:R2; [|destruct (in_range 224 239 c0) eqn:R3;
    [|destruct (in_range 240 244 c0) eqn:R4; [|done]]];
  (split; [apply lead_facts; eapply lead_range; [eassumption|done|done]|]);
  destruct r as [|c1 [|c2 [|c3 [|c4 r]]]]; simpl in H; simplify_eq/=;
    repeat case_match; simplify_eq/=; rewrite ?andb_true_iff in *; destruct_and?;
    repeat constructor; try apply cont_facts;
    eauto using second3_cont, second4_cont; lia.
Qed.

Lemma decode_cons fuel c t :
  decode (S fuel) (c :: t) =
  match rune_width (c :: t) with
  | Some n => Rune (take n (c :: t)) :: decode fuel (drop n (c :: t))
  | None => Bad :: decode fuel t
  end.
Proof. done. Qed.

Lemma decode_app r t fuel :
  rune_width (r ++ t) = Some (length r) →
  decode (S fuel) (r ++ t) = Rune r :: decode fuel t.
Proof.
  intros H. pose proof (rune_width_bounds _ _ H) as [Hn _].
  destruct r as [|c r]; [simpl in *; lia|].
  rewrite <-app_comm_cons, decode_cons, app_comm_cons, H.
  by rewrite take_app_length, drop_app_length.
Qed.

(** Decoding with enough fuel yields runes that are each well formed. *)
Definition rune_ok (r : bytes) : Prop := rune_width r = Some (length r).

Lemma rune_ok_app r t : rune_ok r → rune_width (r ++ t) = Some (length r).
Proof. intros H. apply (rune_width_app r []). by rewrite app_nil_r. Qed.

Lemma rune_ok_head r t : rune_width (r ++ t) = Some (length r) → rune_ok r.
Proof. intros H%(rune_width_app r t []). by rewrite app_nil_r in H. Qed.

Lemma valid_concat rs : Forall rune_ok rs → valid (concat rs).
Proof.
  induction 1 as [|r rs Hr _ IH]; simpl; [constructor|]. constructor; [|done].
  by apply rune_ok_app.
Qed.

Lemma valid_runes s : valid s → ∃ rs, s = concat rs ∧ Forall rune_ok rs.
Proof.
  induction 1 as [|r t Hr _ (rs & -> & Hrs)]; [by exists []|].
  exists (r :: rs). split; [done|]. constructor; [by eapply rune_ok_head|done].
Qed.

Lemma decode_concat rs fuel :
  Forall rune_ok rs → length (concat rs) ≤ fuel → decode fuel (concat rs) = Rune <$> rs.
Proof.
  intros H. revert fuel. induction H as [|r rs Hr _ IH]; intros fuel Hf; simpl.
  { by destruct fuel. }
  pose proof (rune_ok_app _ (concat rs) Hr) as Hw.
  pose proof (rune_width_bounds _ _ Hw) as [Hn _].
  simpl in Hf. rewrite length_app in Hf. destruct fuel as [|fuel]; [lia|].
  rewrite decode_app by done. rewrite IH by lia. done.
Qed.

Lemma decode_runes_ok fuel s r : Rune r ∈ decode fuel s → rune_ok r.
Proof.
  revert s. induction fuel as [|fuel IH]; intros s; [by intros ?%elem_of_nil|].
  destruct s as [|c t]; [by intros ?%elem_of_nil|].
  rewrite decode_cons.
  destruct (rune_width (c :: t)) as [n|] eqn:E.
  - intros [Heq|?]%elem_of_cons; [|by eapply IH]. injection Heq as ->.
    pose proof (rune_width_bounds _ _ E) as [_ Hn].
    assert (length (take n (c :: t)) = n) as Hl by (rewrite length_take; lia).
    apply (rune_ok_head _ (drop n (c :: t))). by rewrite take_drop, Hl.
  - intros [?|?]%elem_of_cons; [done|]. by eapply IH.
Qed.

(** Every step of the pipeline but the decoding works on runes. *)

Lemma replacement_ok : rune_ok replacement.
Proof. reflexivity. Qed.

Lemma replace_bad_ok invalid l :
  (∀ r, Rune r ∈ l → rune_ok r) → Forall rune_ok (replace_bad invalid l).
Proof.
  revert invalid. induction l as [|[r|] l IH]; intros invalid H; simpl; [constructor|..].
  - constructor; [apply H; set_solver|]. apply IH. set_solver.
  - assert (Forall rune_ok (replace_bad true l)) by (apply IH; set_solver).
    destruct invalid; [done|]. constructor; [apply replacement_ok|done].
Qed.

Lemma replace_bad_runes invalid rs : replace_bad invalid (Rune <$> rs) = rs.
Proof. revert invalid. induction rs as [|r rs IH]; intros; simpl; [done|]. by rewrite IH. Qed.

Lemma ToValidUTF8_valid s : valid (ToValidUTF8 s).
Proof.
  apply valid_concat, replace_bad_ok. intros r. apply decode_runes_ok.
Qed.

Lemma ToValidUTF8_id s : valid s → ToValidUTF8 s = s.
Proof.
  intros (rs & -> & Hrs)%valid_runes. unfold ToValidUTF8.
  by rewrite decode_concat, replace_bad_runes by done.
Qed.

Lemma drop_control_concat rs :
  Forall rune_ok rs →
  drop_control (concat rs) = concat (filter (λ r, control_rune r = false) rs).
Proof.
  intros Hrs. unfold drop_control. rewrite decode_concat by done.
  rewrite <-list_fmap_compose. unfold compose. by rewrite list_fmap_id.
Qed.

(** [clean s]: no control byte. *)
Definition clean (s : bytes) : Prop := Forall (λ c, control c = false) s.

Lemma control_ascii7 c : control c = true → ascii7 c = true.
Proof. by destruct c as [[] [] [] [] [] [] [] []]; vm_compute. Qed.

Lemma rune_clean r : rune_ok r → control_rune r = false ↔ clean r.
Proof.
  intros H. apply (rune_ok_app r []), rune_bytes in H
    as [(c & -> & _)|(c & rest & -> & Hc & _ & Hrest)].
  - simpl. split; [by repeat constructor|]. intros Hcl. by inversion Hcl.
  - assert (clean (c :: rest)) as Hcl.
    { assert (∀ d, ascii7 d = false → control d = false) as Hd.
      { intros d. destruct (control d) eqn:E; [|done].
        apply control_ascii7 in E. by rewrite E. }
      constructor; [by apply Hd|]. eapply Forall_impl; [done|].
      intros d [? _]. by apply Hd. }
    split; [done|]. intros _. destruct rest; [|done]. simpl. by inversion Hcl.
Qed.

Lemma drop_control_spec s :
  valid s → valid (drop_control s) ∧ clean (drop_control s).
Proof.
  intros (rs & -> & Hrs)%valid_runes. rewrite drop_control_concat by done.
  assert (Forall rune_ok (filter (λ r, control_rune r = false) rs)) as Hf
    by (rewrite Forall_forall in *; intros r [_ Hr]%list_elem_of_filter; auto).
  split; [by apply valid_concat|].
  apply Forall_concat, Forall_forall. intros r Hr.
  rewrite Forall_forall in Hf. apply list_elem_of_filter in Hr as Hr'. destruct Hr'.
  by apply rune_clean; [apply Hf|].
Qed.

Lemma drop_control_id s : valid s → clean s → drop_control s = s.
Proof.
  intros (rs & -> & Hrs)%valid_runes Hcl. rewrite drop_control_concat by done.
  f_equal. induction Hrs as [|r rs Hr Hrs IH]; [done|].
  unfold clean in Hcl. simpl in Hcl. apply Forall_app in Hcl as [Hc Hcl].
  rewrite filter_cons_True by (by apply rune_clean). by rewrite IH.
Qed.

(** ** Redaction *)

Lemma span_app f s : let '(run, rest) := span f s in s = run ++ rest ∧
  Forall (λ c, f c = true) run ∧ (∀ c t, rest = c :: t → f c = false).
Proof.
  induction s as [|c s IH]; simpl; [done|].
  destruct (f c) eqn:E; [|naive_solver]. destruct (span f s) as [run rest].
  destruct IH as (-> & ? & ?). by repeat constructor.
Qed.

(** Extending a text whose run is already closed, and cutting a text at a
    byte outside the class. *)
Definition stops (f : ascii → bool) (x : bytes) : Prop := ∀ c t, x = c :: t → f c = false.

Lemma span_stop f u x :
  stops f x → span f (u ++ x) = ((span f u).1, (span f u).2 ++ x).
Proof.
  intros Hx. induction u as [|c u IH]; simpl.
  - destruct x as [|c x]; [done|]. simpl. by rewrite (Hx c x).
  - destruct (f c); [|done]. rewrite IH. by destruct (span f u).
Qed.

Lemma span_closed f u y :
  (span f u).2 ≠ [] → span f (u ++ y) = ((span f u).1, (span f u).2 ++ y).
Proof.
  induction u as [|c u IH]; simpl; [done|]. destruct (f c); [|done].
  intros H. rewrite IH; by destruct (span f u).
Qed.

Lemma span_longer f u y : length (span f u).1 ≤ length (span f (u ++ y)).1.
Proof.
  induction u as [|c u IH]; simpl; [lia|]. destruct (f c); simpl; [|lia].
  destruct (span f u), (span f (u ++ y)). simpl in *. lia.
Qed.

(** Bytes the grammar can consume. *)
Definition token_byte (c : ascii) : bool := base62 c || bool_decide (c = "_"%char).

Lemma stops_base62 x : stops token_byte x → stops base62 x.
Proof. intros H c t E. specialize (H c t E). unfold token_byte in H. by bsimp; tauto. Qed.

Lemma stops_lower x : stops token_byte x → stops lower x.
Proof.
  intros H%stops_base62 c t E. specialize (H c t E). unfold base62 in H.
  apply orb_false_iff in H. tauto.
Qed.

Lemma field_local f lo hi u x r :
  stops token_byte x → stops f x → field f lo hi (u ++ x) = Some r →
  ∃ v, r = v ++ x ∧ ∀ y, field f lo hi (u ++ y) = Some (v ++ y).
Proof.
  intros Hx Hf. unfold field. rewrite span_stop by done.
  destruct (span f u) as [run rest] eqn:E. simpl.
  destruct rest as [|c v]; simpl.
  { destruct x as [|c x]; [done|]. specialize (Hx c x eq_refl).
    intros H. exfalso. clear -H Hx. destruct c as [[] [] [] [] [] [] [] []]; done. }
  intros H. exists v.
  assert (∀ y, span f (u ++ y) = (run, c :: v ++ y)) as Hs.
  { intros y. rewrite span_closed; rewrite E; done. }
  destruct c as [[] [] [] [] [] [] [] []]; try done.
  destruct (_ && _) eqn:Hl; [|done]. simplify_eq. split; [done|].
  intros y. rewrite Hs, Hl. done.
Qed.

Lemma token_prefix_Some s r :
  token_prefix s = Some r ↔
  s = String.list_ascii_of_string "hik_" ++ r ∨ s = String.list_ascii_of_string "ew_" ++ r.
Proof.
  split; [|by intros [->| ->]].
  destruct s as [|a s]; [done|].
  destruct a as [[] [] [] [] [] [] [] []]; try done; destruct s as [|b s]; try done;
    destruct b as [[] [] [] [] [] [] [] []]; try done; destruct s as [|c s]; try done;
    destruct c as [[] [] [] [] [] [] [] []]; try done; [by intros [= ->]; right|].
  destruct s as [|d s]; try done.
  destruct d as [[] [] [] [] [] [] [] []]; try done. intros [= ->]. by left.
Qed.

Lemma app_stops a r u x :
  Forall (λ c, token_byte c = true) a → stops token_byte x → a ++ r = u ++ x →
  ∃ v, u = a ++ v ∧ r = v ++ x.
Proof.
  intros Ha Hx H. apply app_eq_app in H as (k & [[-> ->]|[-> ->]]); [|by exists k].
  destruct k as [|c k]; [exists []; by rewrite !app_nil_r|].
  apply Forall_app in Ha as [_ Ha]. inversion Ha as [|?? Hc]; subst.
  by rewrite (Hx c (k ++ r)) in Hc.
Qed.

Lemma token_prefix_local u x r :
  stops token_byte x → token_prefix (u ++ x) = Some r →
  ∃ v, r = v ++ x ∧ ∀ y, token_prefix (u ++ y) = Some (v ++ y).
Proof.
  intros Hx H. apply token_prefix_Some in H as [H|H]; symmetry in H;
    (apply app_stops in H as (v & -> & ->); [|by repeat constructor|done]);
    exists v; (split; [done|]); intros y; apply token_prefix_Some; rewrite <-app_assoc; auto.
Qed.

(** A match is decided by the bytes before the first one outside the grammar. *)
Lemma token_match_local u x y :
  stops token_byte x → is_Some (token_match (u ++ x)) → is_Some (token_match (u ++ y)).
Proof.
  intros Hx [r H]. unfold token_match in *.
  apply bind_Some in H as (s1 & H1 & H).
  apply token_prefix_local in H1 as (v1 & -> & H1); [|done].
  apply bind_Some in H as (s2 & H2 & H).
  apply field_local in H2 as (v2 & -> & H2); [|by auto using stops_base62..].
  apply bind_Some in H as (s3 & H3 & H).
  apply field_local in H3 as (v3 & -> & H3); [|by auto using stops_lower..].
  rewrite H1. simpl. rewrite H2. simpl. rewrite H3. simpl.
  rewrite span_stop in H by auto using stops_base62.
  pose proof (span_longer base62 v3 y).
  destruct (span base62 (v3 ++ y)) as [body rest]. simpl in *.
  destruct (long_body (span base62 v3).1) eqn:E; [|done].
  unfold long_body in *. apply Nat.leb_le in E.
  rewrite (proj2 (Nat.leb_le 16 (length body))) by lia. by eexists.
Qed.

(** The match consumes bytes of the grammar only, at least one of them. *)
Lemma span_rest f s : ∃ run, s = run ++ (span f s).2 ∧ Forall (λ c, f c = true) run ∧
  length run = length (span f s).1.
Proof.
  pose proof (span_app f s) as H. destruct (span f s) as [run rest].
  destruct H as (-> & Hr & _). by exists run.
Qed.

Lemma base62_token c : base62 c = true → token_byte c = true.
Proof. unfold token_byte. by intros ->. Qed.

Lemma field_consumes f lo hi s r :
  (∀ c, f c = true → base62 c = true) → field f lo hi s = Some r →
  ∃ a, s = a ++ r ∧ Forall (λ c, token_byte c = true) a.
Proof.
  intros Hf. unfold field. pose proof (span_rest f s) as (run & Hs & Hrun & _).
  destruct (span f s) as [run' rest]. simpl in *.
  destruct rest as [|c rest]; [done|]. intros H.
  assert (c = "_"%char ∧ r = rest) as [-> ->].
  { destruct c as [[] [] [] [] [] [] [] []]; try done. by destruct (_ && _); simplify_eq. }
  exists (run ++ ["_"%char]). rewrite <-app_assoc. split; [done|].
  apply Forall_app. split; [|by repeat constructor].
  eapply Forall_impl; [done|]. intros d Hd. by apply base62_token, Hf.
Qed.

Lemma token_match_consumes s r :
  token_match s = Some r →
  ∃ a, s = a ++ r ∧ Forall (λ c, token_byte c = true) a ∧ a ≠ [].
Proof.
  unfold token_match. intros H.
  apply bind_Some in H as (s1 & H1 & H). apply bind_Some in H as (s2 & H2 & H).
  apply bind_Some in H as (s3 & H3 & H).
  apply field_consumes in H2 as (a2 & -> & Ha2); [|done].
  apply field_consumes in H3 as (a3 & -> & Ha3);
    [|intros c Hc; unfold base62; by rewrite Hc, !orb_true_r].
  pose proof (span_rest base62 s3) as (a4 & Hs & Ha4 & _).
  destruct (span base62 s3) as [body rest]. simpl in *.
  destruct (long_body body); simplify_eq.
  assert (Forall (λ c, token_byte c = true) a4) by (eapply Forall_impl; eauto using base62_token).
  apply token_prefix_Some in H1 as [->| ->].
  - exists (String.list_ascii_of_string "hik_" ++ a2 ++ a3 ++ a4).
    rewrite <-!app_assoc. split; [done|]. split; [|done].
    rewrite !Forall_app. split_and!; by repeat constructor.
  - exists (String.list_ascii_of_string "ew_" ++ a2 ++ a3 ++ a4).
    rewrite <-!app_assoc. split; [done|]. split; [|done].
    rewrite !Forall_app. split_and!; by repeat constructor.
Qed.

(** [token_free s]: the grammar matches nowhere in [s]. *)
Definition token_free (s : bytes) : Prop := ∀ p q, s = p ++ q → token_match q = None.

Lemma token_free_cons c s : token_free (c :: s) ↔ token_match (c :: s) = None ∧ token_free s.
Proof.
  split.
  - intros H. split; [by apply (H [])|]. intros p q ->. by apply (H (c :: p)).
  - intros [Hm Hf] [|d p] q; simpl; [by intros <-|]. intros [= -> ->]. by eapply Hf.
Qed.

Lemma token_free_nil : token_free [].
Proof. intros p q H. symmetry in H. apply app_eq_nil in H as [-> ->]. done. Qed.

Lemma token_free_prefix s t : token_free (s ++ t) → token_free s.
Proof.
  intros H p q ->. destruct (token_match q) eqn:E; [|done].
  assert (is_Some (token_match (q ++ t))) as [? Hm].
  { apply (token_match_local q []); [done|]. rewrite app_nil_r. by eexists. }
  rewrite (H p (q ++ t)) in Hm; [done|]. by rewrite app_assoc.
Qed.

(** The marker neither contains nor starts a token. *)
Lemma marker_free t : token_free t → token_free (RedactionMarker ++ t).
Proof.
  intros Ht. unfold RedactionMarker. simpl. rewrite !token_free_cons.
  by repeat split.
Qed.

Lemma redact_cons fuel c t :
  redact (S fuel) (c :: t) =
  match token_match (c :: t) with
  | Some rest => RedactionMarker ++ redact fuel rest
  | None => c :: redact fuel t
  end.
Proof. done. Qed.

(** Redaction leaves a text alone, or alters it first at a marker. *)
Lemma redact_first fuel s :
  length s ≤ fuel →
  redact fuel s = s ∨ ∃ u x y, redact fuel s = u ++ "["%char :: x ∧ s = u ++ y.
Proof.
  revert s. induction fuel as [|fuel IH]; intros [|c t] Hf; simpl in Hf; try lia; [by left..|].
  rewrite redact_cons. destruct (token_match (c :: t)) as [rest|] eqn:E.
  - right. exists [], (tail RedactionMarker ++ redact fuel rest), (c :: t). done.
  - destruct (IH t) as [->|(u & x & y & -> & ->)]; [lia|by left|].
    right. by exists (c :: u), x, y.
Qed.

Lemma redact_free fuel s : length s ≤ fuel → token_free (redact fuel s).
Proof.
  revert s. induction fuel as [|fuel IH]; intros [|c t] Hf; simpl in Hf; try lia;
    try apply token_free_nil.
  rewrite redact_cons. destruct (token_match (c :: t)) as [rest|] eqn:E.
  - apply token_match_consumes in E as ([|d a] & Heq & _ & ?); [done|].
    apply marker_free, IH. injection Heq as -> ->. rewrite length_app in Hf. lia.
  - apply token_free_cons. split; [|apply IH; lia].
    destruct (token_match (c :: redact fuel t)) eqn:E'; [|done].
    destruct (redact_first fuel t) as [Hid|(u & x & y & Hu & ->)]; [lia|by congruence|].
    rewrite Hu in E'.
    assert (is_Some (token_match (c :: u ++ y))) as [? Hm]; [|by rewrite Hm in E].
    apply (token_match_local (c :: u) ("["%char :: x)); [|by eexists].
    intros d t [= <- <-]. done.
Qed.

Lemma redact_id fuel s : length s ≤ fuel → token_free s → redact fuel s = s.
Proof.
  revert s. induction fuel as [|fuel IH]; intros [|c t] Hf; simpl in Hf; try lia; try done.
  intros [Hm Ht]%token_free_cons. rewrite redact_cons. rewrite Hm, IH; [done|lia|done].
Qed.

(** Redaction keeps a text well formed and clean. *)

Lemma valid_ascii c t : valid (c :: t) → ascii7 c = true → valid t.
Proof.
  intros H Hc. inversion H as [|r t' Hr Ht Heq]. destruct r as [|d r]; simplify_eq/=.
  - by apply rune_width_bounds in Hr as [? _]; simpl in *; lia.
  - apply rune_width_nonascii in Hr; [|done]. by destruct r.
Qed.

Lemma token_byte_ascii c : token_byte c = true → ascii7 c = true ∧ control c = false.
Proof. by destruct c as [[] [] [] [] [] [] [] []]; vm_compute. Qed.

Lemma valid_ascii_app a t :
  Forall (λ c, token_byte c = true) a → valid (a ++ t) → valid t.
Proof.
  induction 1 as [|c a Hc _ IH]; simpl; [done|]. intros H. apply IH.
  eapply valid_ascii; [done|]. by apply token_byte_ascii.
Qed.

Lemma valid_app s t : valid s → valid t → valid (s ++ t).
Proof.
  induction 1 as [|r s Hr _ IH]; simpl; [done|]. intros Ht. rewrite <-app_assoc.
  constructor; [|by apply IH]. by eapply rune_width_app.
Qed.

Lemma marker_valid : valid RedactionMarker ∧ clean RedactionMarker.
Proof.
  split; [|by repeat constructor].
  change RedactionMarker with (concat ((λ c, [c]) <$> RedactionMarker)).
  apply valid_concat. by repeat constructor.
Qed.

(** A byte outside ASCII starts no token, so redaction walks over it. *)
Lemma redact_skip fuel r t :
  Forall (λ c, ascii7 c = false) r → length (r ++ t) ≤ fuel →
  redact fuel (r ++ t) = r ++ redact (fuel - length r) t.
Proof.
  intros H. revert fuel. induction H as [|c r Hc _ IH]; intros fuel Hf; simpl in *.
  { by rewrite Nat.sub_0_r. }
  destruct fuel as [|fuel]; [lia|]. rewrite redact_cons.
  destruct (token_match (c :: r ++ t)) eqn:E.
  - apply token_match_consumes in E as ([|d a] & Heq & Ha & ?); [done|].
    injection Heq as <- _. inversion Ha as [|?? Hd]; subst.
    apply token_byte_ascii in Hd as [Hd _]. by rewrite Hd in Hc.
  - rewrite IH by lia. done.
Qed.

Lemma redact_clean fuel s : clean s → clean (redact fuel s).
Proof.
  revert s. induction fuel as [|fuel IH]; intros [|c t] H; try constructor.
  rewrite redact_cons. destruct (token_match (c :: t)) as [rest|] eqn:E.
  - apply Forall_app. split; [apply marker_valid|]. apply IH.
    apply token_match_consumes in E as (a & Heq & _ & _). rewrite Heq in H.
    by apply Forall_app in H as [_ ?].
  - inversion H; subst. constructor; [done|]. by apply IH.
Qed.

Lemma redact_valid fuel s : length s ≤ fuel → valid s → valid (redact fuel s).
Proof.
  revert s. induction fuel as [fuel IH] using lt_wf_ind. intros s Hf H.
  inversion H as [|r t Hr Ht Heq]; subst; [by destruct fuel; constructor|].
  pose proof (rune_width_bounds _ _ Hr) as [Hn _].
  apply rune_bytes in Hr as Hb. destruct Hb as [(c & -> & Hc)|(c & rest & -> & Hc & _ & Hrest)].
  - destruct fuel as [|fuel]; [simpl in Hf; lia|]. simpl in Hf. simpl app. rewrite redact_cons.
    destruct (token_match (c :: t)) as [rest|] eqn:E.
    + apply token_match_consumes in E as ([|d a] & Heq & Ha & ?); [done|].
      apply valid_app; [apply marker_valid|]. injection Heq as -> ->.
      rewrite length_app in Hf. apply IH; [lia..|]. inversion Ha; subst.
      by eapply valid_ascii_app.
    + change (c :: redact fuel t) with ([c] ++ redact fuel t). constructor.
      * by eapply rune_width_app.
      * apply IH; [lia..|done].
  - rewrite redact_skip; [|constructor; [done|]; eapply Forall_impl; [exact Hrest|by intros ? []]|done].
    rewrite length_app in Hf. constructor; [by eapply rune_width_app|].
    apply IH; [simpl in *; lia..|done].
Qed.

(** ** Truncation *)

(** Cutting a well-formed text at an index whose byte starts a rune. *)
Lemma valid_cut s n :
  valid s → (∀ c, s !! n = Some c → RuneStart c = true) → valid (take n s).
Proof.
  intros H. revert n. induction H as [|r t Hr Ht IH]; intros n Hn; [by rewrite take_nil; constructor|].
  destruct (decide (n < length r)) as [Hlt|Hge].
  - destruct n as [|n]; [constructor|]. exfalso.
    apply rune_bytes in Hr as [(c & -> & _)|(c & rest & -> & _ & _ & Hrest)]; simpl in Hlt; [lia|].
    destruct (rest !! n) as [d|] eqn:E; [|apply lookup_ge_None in E; lia].
    rewrite Forall_lookup in Hrest. destruct (Hrest n d E) as [_ Hd].
    rewrite (Hn d) in Hd; [done|]. simpl. by rewrite lookup_app_l by lia.
  - rewrite take_app_ge by lia. constructor; [by eapply rune_width_app|].
    apply IH. intros c Hc. apply Hn. rewrite lookup_app_r by lia. done.
Qed.

Lemma rune_cut_start s n c :
  valid s → s !! rune_cut s n = Some c → RuneStart c = true.
Proof.
  intros Hv. induction n as [|n IH].
  - simpl. intros Hc. inversion Hv as [|r t Hr Ht]; subst; [done|].
    pose proof (rune_width_bounds _ _ Hr) as [? _].
    apply rune_bytes in Hr as [(d & -> & Hd)|(d & rest & -> & _ & Hd & _)]; simpl in Hc;
      simplify_eq; auto using ascii_RuneStart.
  - change (rune_cut s (S n)) with
      (match s !! S n with Some c => if RuneStart c then S n else rune_cut s n | None => S n end).
    destruct (s !! S n) as [d|] eqn:E; [|by rewrite E].
    destruct (RuneStart d) eqn:Hd; [|done]. rewrite E. by intros [= <-].
Qed.

Lemma rune_cut_le s n : rune_cut s n ≤ n.
Proof.
  induction n as [|n IH]; [done|].
  change (match s !! S n with Some c => if RuneStart c then S n else rune_cut s n
          | None => S n end ≤ S n). repeat case_match; lia.
Qed.

(** ** The pipeline *)

(** What the durable trail may rely on. *)
Record hygienic (s : bytes) : Prop := {
  hy_valid : valid s;
  hy_clean : clean s;
  hy_free : token_free s;
  hy_bound : length s ≤ FreeTextBound }.

Lemma truncate_hygienic s :
  valid s → clean s → token_free s → hygienic (truncate_bytes s).
Proof.
  intros Hv Hc Hf. unfold truncate_bytes.
  destruct (Nat.ltb_spec FreeTextBound (length s)); [|by constructor].
  rewrite <-(take_drop (rune_cut s FreeTextBound) s) in Hc, Hf.
  constructor.
  - apply valid_cut; [done|]. intros c. by apply rune_cut_start.
  - by apply Forall_app in Hc as [? _].
  - by apply token_free_prefix in Hf.
  - rewrite length_take. pose proof (rune_cut_le s FreeTextBound). lia.
Qed.

Lemma sanitize_hygienic s : hygienic (sanitize s).
Proof.
  pose proof (drop_control_spec _ (ToValidUTF8_valid s)) as [Hv Hc].
  apply truncate_hygienic.
  - by apply redact_valid.
  - by apply redact_clean.
  - by apply redact_free.
Qed.

Lemma sanitize_id s : hygienic s → sanitize s = s.
Proof.
  intros [Hv Hc Hf Hb]. unfold sanitize, RedactTokens.
  rewrite ToValidUTF8_id, drop_control_id, redact_id by done.
  unfold truncate_bytes. by rewrite (proj2 (Nat.ltb_ge FreeTextBound (length s))).
Qed.

(** C36 Free-text hygiene. Whatever bytes a caller sends, the sanitized text is
    well-formed UTF-8 without control characters, no substring of it matches
    the bearer-token grammar (also none that the truncation or the redaction
    itself could have formed), and it fits the free-text bound. *)
Theorem SanitizeFreeText_hygienic (s : string) :
  hygienic (String.list_ascii_of_string (SanitizeFreeText s)).
Proof.
  unfold SanitizeFreeText. rewrite String.list_ascii_of_string_of_list_ascii.
  apply sanitize_hygienic.
Qed.

(** The write boundary accepts exactly what the emitter's sanitizer
    produces: [checkSanitized] passes on every sanitized text (sanitizing is
    idempotent), and a text it passes is hygienic. *)
Theorem checkSanitized_spec (s : string) :
  checkSanitized (SanitizeFreeText s) = true ∧
  (checkSanitized s = true ↔ hygienic (String.list_ascii_of_string s)).
Proof.
  assert (∀ t, hygienic (String.list_ascii_of_string t) → SanitizeFreeText t = t) as Hid.
  { intros t Ht. unfold SanitizeFreeText. rewrite sanitize_id by done.
    apply String.string_of_list_ascii_of_string. }
  assert (∀ t, hygienic (String.list_ascii_of_string (SanitizeFreeText t))) as Hh.
  { intros t. unfold SanitizeFreeText. rewrite String.list_ascii_of_string_of_list_ascii.
    apply sanitize_hygienic. }
  unfold checkSanitized. rewrite !bool_decide_eq_true. split; [symmetry; apply Hid, Hh|].
  split; [intros E; rewrite E; apply Hh|]. intros H. symmetry. by apply Hid.
Qed.
