(* ===== verification/Domain.v ===== *)
(** * The leaf vocabulary: [internal/domain]

    Tenant identifiers, the closed capability set and its scope levels, scopes,
    grants, the canonical error sentinels ([domain.go]) and the three closed
    tables around the grant triple: role templates, machine classes and grant
    origins ([permission.go]).

    Identifiers, capabilities, classes and templates are Go [string] types: an
    arbitrary stored string may reach these functions, so they stay strings
    here too and the closed sets are finite maps keyed by the source's
    constants. *)

From stdpp Require Import prelude gmap strings list sorting.
From S2P Require Import Prelude.

(** ** Identifiers (domain.go) *)

Abbreviation OrgID := string (only parsing).
Abbreviation ProjectID := string (only parsing).
Abbreviation EnvID := string (only parsing).
Abbreviation PrincipalID := string (only parsing).
Abbreviation Capability := string (only parsing).

(** ** Error sentinels

    [Loud] is every error that wraps none of the sentinels: registry and
    addressing bugs, datastore faults. *)
Inductive error : Type :=
| ErrNotFound
| ErrUnauthorized
| ErrUnauthenticated
| ErrInvalid
| ErrConflict
| ErrLimitExceeded
| Loud (msg : string).

#[export] Instance error_eq_dec : EqDecision error.
Proof. solve_decision. Defined.

(** ** Scope levels *)

Inductive Level : Type := LevelNone | LevelOrg | LevelProject | LevelEnv.

#[export] Instance Level_eq_dec : EqDecision Level.
Proof. solve_decision. Defined.

(** The [iota] value of a level; Go compares levels as integers. *)
Definition level_index (l : Level) : nat :=
  match l with LevelNone => 0 | LevelOrg => 1 | LevelProject => 2 | LevelEnv => 3 end.

Definition level_gt (a b : Level) : bool := Nat.ltb (level_index b) (level_index a).

(** ** The closed capability set *)

Definition CapRead : Capability := "read".
Definition CapReveal : Capability := "reveal".
Definition CapRevealHistory : Capability := "reveal-history".
Definition CapEdit : Capability := "edit".
Definition CapPublish : Capability := "publish".
Definition CapPin : Capability := "pin".
Definition CapDefinitionsEdit : Capability := "definitions-edit".
Definition CapProjectSettings : Capability := "project-settings".
Definition CapManageIdentities : Capability := "manage-identities".
Definition CapManageAdapters : Capability := "manage-adapters".
Definition CapManageMembers : Capability := "manage-members".
Definition CapManageProjects : Capability := "manage-projects".
Definition CapBackupExport : Capability := "backup-export".
Definition CapRestore : Capability := "restore".
Definition CapRotateRootKey : Capability := "rotate-root-key".
Definition CapRotateMasterKey : Capability := "rotate-master-key".
Definition CapRotateDEK : Capability := "rotate-dek".
Definition CapReencrypt : Capability := "reencrypt".
Definition CapInstanceConfig : Capability := "instance-config".
Definition CapInstanceDirector : Capability := "instance-directory".
Definition CapSCIMProvision : Capability := "scim-provision".
Definition CapAuditRead : Capability := "audit-read".
Definition CapCredentialReset : Capability := "credential-reset".
Definition CapReportDeliveryStatus : Capability := "report-delivery-status".
Definition CapCryptoUse : Capability := "crypto-use".
Definition CapCryptoManage : Capability := "crypto-manage".
Definition CapIssueCertificate : Capability := "issue-certificate".

(** Each atom with the deepest level it may be granted at. *)
Definition capabilityLevels : gmap Capability Level := list_to_map
  [ (CapRead, LevelEnv); (CapReveal, LevelEnv); (CapRevealHistory, LevelEnv);
    (CapEdit, LevelEnv); (CapPublish, LevelEnv); (CapPin, LevelEnv);
    (CapReportDeliveryStatus, LevelEnv); (CapCryptoUse, LevelEnv);
    (CapIssueCertificate, LevelEnv);
    (CapDefinitionsEdit, LevelProject); (CapProjectSettings, LevelProject);
    (CapManageIdentities, LevelProject); (CapManageAdapters, LevelProject);
    (CapCryptoManage, LevelProject); (CapManageMembers, LevelProject);
    (CapManageProjects, LevelOrg); (CapAuditRead, LevelEnv);
    (CapCredentialReset, LevelOrg); (CapSCIMProvision, LevelOrg);
    (CapBackupExport, LevelNone); (CapRestore, LevelNone);
    (CapRotateRootKey, LevelNone); (CapRotateMasterKey, LevelNone);
    (CapRotateDEK, LevelNone); (CapReencrypt, LevelNone);
    (CapInstanceConfig, LevelNone); (CapInstanceDirector, LevelNone) ].

(** [slices.Sort] over the keys of a Go map of strings. *)
Definition sorted_keys {V} (m : gmap string V) : list string :=
  merge_sort String.le (map_to_list m).*1.

Definition Capabilities : list Capability := sorted_keys capabilityLevels.

Definition DeepestLevel (c : Capability) : option Level := capabilityLevels !! c.

Definition IsCapability (c : Capability) : bool :=
  match capabilityLevels !! c with Some _ => true | None => false end.

Definition OperatorSet : list Capability :=
  [ CapBackupExport; CapRestore; CapRotateRootKey; CapRotateMasterKey;
    CapRotateDEK; CapReencrypt; CapInstanceConfig ].

(** ** Scopes and grants *)

Record Scope := mkScope { Org : OrgID; Project : ProjectID; Env : EnvID }.

#[export] Instance Scope_eq_dec : EqDecision Scope.
Proof. solve_decision. Defined.

Definition zeroScope : Scope := mkScope "" "" "".

Definition ErrScopeGap : error := Loud "domain: scope has a gap in its chain".

(** [Scope.Level] *)
Definition ScopeLevel (s : Scope) : result error Level :=
  let o := bool_decide (Org s = "") in
  let p := bool_decide (Project s = "") in
  let e := bool_decide (Env s = "") in
  if o && p && e then Ok LevelNone
  else if negb o && p && e then Ok LevelOrg
  else if negb o && negb p && e then Ok LevelProject
  else if negb o && negb p && negb e then Ok LevelEnv
  else Err ErrScopeGap.

Record Grant := mkGrant { Grant_Capability : Capability; Grant_Scope : Scope }.

#[export] Instance Grant_eq_dec : EqDecision Grant.
Proof. solve_decision. Defined.

(** ** Role templates (permission.go) *)

Abbreviation Template := string (only parsing).
Definition TemplateViewer : Template := "viewer".
Definition TemplateEditor : Template := "editor".
Definition TemplatePublisher : Template := "publisher".
Definition TemplateRevealer : Template := "revealer".
Definition TemplateHistorian : Template := "historian".
Definition TemplateMaintainer : Template := "maintainer".
Definition TemplateAdmin : Template := "admin".
Definition TemplateOperator : Template := "operator".

Record templateSpec := mkTemplateSpec {
  applicable : Level → bool;
  creates : list Capability;
  orgOnly : list Capability }.

Definition tenantLevels (l : Level) : bool :=
  match l with LevelOrg | LevelProject | LevelEnv => true | LevelNone => false end.
Definition orgProject (l : Level) : bool :=
  match l with LevelOrg | LevelProject => true | _ => false end.
Definition instanceOnly (l : Level) : bool :=
  match l with LevelNone => true | _ => false end.

Definition templates : gmap Template templateSpec := list_to_map
  [ (TemplateViewer, mkTemplateSpec tenantLevels [CapRead] []);
    (TemplateEditor, mkTemplateSpec tenantLevels [CapRead; CapEdit] []);
    (TemplatePublisher, mkTemplateSpec tenantLevels
       [CapRead; CapEdit; CapPublish; CapPin] []);
    (TemplateRevealer, mkTemplateSpec tenantLevels [CapReveal] []);
    (TemplateHistorian, mkTemplateSpec tenantLevels [CapRevealHistory] []);
    (TemplateMaintainer, mkTemplateSpec orgProject
       [CapRead; CapEdit; CapPublish; CapPin;
        CapDefinitionsEdit; CapManageIdentities; CapManageAdapters] []);
    (TemplateAdmin, mkTemplateSpec orgProject
       [CapRead; CapEdit; CapPublish; CapPin;
        CapDefinitionsEdit; CapManageIdentities; CapManageAdapters;
        CapProjectSettings; CapManageMembers; CapReveal; CapRevealHistory]
       [CapManageProjects]);
    (TemplateOperator, mkTemplateSpec instanceOnly
       (OperatorSet ++ [CapManageMembers]) []) ].

Definition Templates : list Template := sorted_keys templates.

Inductive template_error := ErrNoSuchTemplate | ErrTemplateScope.

Definition ExpandTemplate (t : Template) (at_ : Level)
  : result template_error (list Capability) :=
  match templates !! t with
  | None => Err ErrNoSuchTemplate
  | Some spec =>
      if negb (applicable spec at_) then Err ErrTemplateScope
      else Ok (creates spec ++ if decide (at_ = LevelOrg) then orgOnly spec else [])
  end.

(** ** Principal classes and machine allowlists *)

Abbreviation PrincipalClass := string (only parsing).
Definition ClassHuman : PrincipalClass := "human".
Definition ClassDeveloper : PrincipalClass := "developer".
Definition ClassWorkload : PrincipalClass := "workload".
Definition ClassAutomation : PrincipalClass := "automation".
Definition ClassProvisioning : PrincipalClass := "provisioning-connection".
Definition ClassInstanceConn : PrincipalClass := "instance-connection".

Definition IsServiceAccountKind (c : PrincipalClass) : bool :=
  bool_decide (c = ClassWorkload) || bool_decide (c = ClassAutomation).

Abbreviation IssuerType := string (only parsing).
Definition IssuerKubernetes : IssuerType := "kubernetes".
Definition IssuerForgejo : IssuerType := "forgejo".
Definition IssuerGitHubActions : IssuerType := "github-actions".

Definition IsIssuerType (t : IssuerType) : bool :=
  bool_decide (t = IssuerKubernetes) || bool_decide (t = IssuerForgejo)
  || bool_decide (t = IssuerGitHubActions).

Definition IsCIIssuerType (t : IssuerType) : bool :=
  bool_decide (t = IssuerForgejo) || bool_decide (t = IssuerGitHubActions).

Definition machineAllowlists : gmap PrincipalClass (gset Capability) := list_to_map
  [ (ClassWorkload, list_to_set
       [CapRead; CapReportDeliveryStatus; CapIssueCertificate; CapCryptoUse]);
    (ClassAutomation, list_to_set
       [CapRead; CapEdit; CapPublish; CapDefinitionsEdit;
        CapIssueCertificate; CapCryptoUse; CapAuditRead]);
    (ClassProvisioning, list_to_set [CapSCIMProvision]);
    (ClassInstanceConn, list_to_set [CapInstanceDirector]) ].

Definition machineRevealByOptIn : gset PrincipalClass :=
  list_to_set [ClassWorkload; ClassAutomation].

Definition MachineMayHoldRevealByOptIn (c : PrincipalClass) : bool :=
  bool_decide (c ∈ machineRevealByOptIn).

Definition MachineMayHoldRevealHistoryByPin (c : PrincipalClass) : bool :=
  bool_decide (c = ClassWorkload).

Definition MachineClasses : list PrincipalClass := sorted_keys machineAllowlists.

Definition IsMachineClass (c : PrincipalClass) : bool :=
  match machineAllowlists !! c with Some _ => true | None => false end.

Definition MachineMayHold (c : PrincipalClass) (cap : Capability) : bool :=
  match machineAllowlists !! c with
  | Some allowed => bool_decide (cap ∈ allowed)
  | None => false
  end.

Definition machineDepths : gmap PrincipalClass Level := list_to_map
  [ (ClassWorkload, LevelEnv); (ClassAutomation, LevelProject);
    (ClassProvisioning, LevelOrg); (ClassInstanceConn, LevelNone) ].

Definition MachineScopeDepth (c : PrincipalClass) : option Level := machineDepths !! c.

Abbreviation OriginKind := string (only parsing).
Definition OriginManual : OriginKind := "manual".
Definition OriginBreakGlass : OriginKind := "break-glass".
Definition OriginSCIM : OriginKind := "scim".
Definition OriginStructural : OriginKind := "structural".
Definition OriginLockoutRetention : OriginKind := "lockout-retention".
Definition OriginRegistration : OriginKind := "registration".

Definition mintableOrigins : gset OriginKind :=
  list_to_set [OriginManual; OriginBreakGlass; OriginRegistration].

Definition IsMintableOrigin (k : OriginKind) : bool :=
  bool_decide (k ∈ mintableOrigins).

(** ** Lemmas *)

Lemma ScopeLevel_cases s :
  ScopeLevel s =
    (if decide (Org s = "")
     then if decide (Project s = "" ∧ Env s = "") then Ok LevelNone else Err ErrScopeGap
     else if decide (Project s = "")
     then if decide (Env s = "") then Ok LevelOrg else Err ErrScopeGap
     else if decide (Env s = "") then Ok LevelProject else Ok LevelEnv).
Proof.
  unfold ScopeLevel. repeat case_bool_decide; repeat case_decide; naive_solver.
Qed.

(** A resolved level names exactly the components that are present. *)
Lemma ScopeLevel_present s l :
  ScopeLevel s = Ok l →
  (1 ≤ level_index l ↔ Org s ≠ "") ∧ (2 ≤ level_index l ↔ Project s ≠ "") ∧
  (3 ≤ level_index l ↔ Env s ≠ "").
Proof.
  rewrite ScopeLevel_cases. intros H.
  repeat case_decide; simplify_eq/=; destruct_and?; repeat split; intros;
    try lia; congruence.
Qed.

(** A machine class's allowlist is closed: membership is exactly one of the
    listed capabilities. *)
Lemma MachineMayHold_closed c cap :
  MachineMayHold c cap = true → IsMachineClass c = true ∧ IsCapability cap = true.
Proof.
  unfold MachineMayHold, IsMachineClass.
  destruct (machineAllowlists !! c) as [s|] eqn:Hc; [|done]. intros Hin. split; [done|].
  bsimp.
  assert (map_Forall (λ _ (s : gset Capability), set_Forall (λ x, IsCapability x = true) s)
            machineAllowlists) as Hall.
  { by_compute. }
  exact (Hall c s Hc cap Hin).
Qed.
