(* ===== verification/Rule.v ===== *)
(** * Member access rules: [internal/domain/rule.go]

    One rule is one capability for one human principal inside one organisation,
    with a [Where] of projects, environments and keys. This file models the
    data, the shape authority [Validate] and the reach predicate [Reaches], and
    proves the declarative reading of both. *)

From stdpp Require Import prelude gmap strings list.
From S2P Require Import Prelude StringFacts Domain.

(** ** Data *)

Abbreviation AxisMode := string (only parsing).
Definition AxisAll : AxisMode := "all".
Definition AxisOnly : AxisMode := "only".

Record RuleKeyItem := mkItem {
  Item_Folder : string;
  Item_KeyID : string;
  Item_IsFolder : bool }.

#[export] Instance RuleKeyItem_eq_dec : EqDecision RuleKeyItem.
Proof. solve_decision. Defined.

(** A missing project in [Envs] or [Keys] reads as the [nil] slice ([mget]). *)
Record Where := mkWhere {
  Projects : list ProjectID;
  EnvMode : AxisMode;
  Envs : gmap ProjectID (list EnvID);
  KeyMode : AxisMode;
  Keys : gmap ProjectID (list RuleKeyItem) }.

Record Rule := mkRule {
  Rule_ID : string;
  Rule_Principal : PrincipalID;
  Rule_Capability : Capability;
  Rule_Org : OrgID;
  Rule_Where : Where }.

Record RuleKey := mkRuleKey { Key_ID : string; Key_Folder : string }.

#[export] Instance RuleKey_eq_dec : EqDecision RuleKey.
Proof. solve_decision. Defined.

Definition MaxRuleItems : nat := 500.

Inductive RuleShape := ShapeKey | ShapeEnv | ShapeProject.

Definition ruleShapes : gmap Capability RuleShape := list_to_map
  [ (CapRead, ShapeEnv); (CapEdit, ShapeKey); (CapPublish, ShapeKey);
    (CapPin, ShapeEnv); (CapReveal, ShapeKey); (CapRevealHistory, ShapeKey);
    (CapDefinitionsEdit, ShapeKey); (CapManageMembers, ShapeKey);
    (CapManageIdentities, ShapeProject); (CapManageAdapters, ShapeProject);
    (CapProjectSettings, ShapeProject) ].

Definition RuleShapeOf (c : Capability) : option RuleShape := ruleShapes !! c.

(** ** Narrowing *)

(** Some project of a per-project item map has at least one item. *)
Definition any_items {A} (m : gmap ProjectID (list A)) : bool :=
  existsb (λ kv, Nat.ltb 0 (length kv.2)) (map_to_list m).

Definition EnvNarrowed (w : Where) : bool :=
  if bool_decide (EnvMode w ≠ AxisAll) then true else any_items (Envs w).

Definition KeyNarrowed (w : Where) : bool :=
  if bool_decide (KeyMode w ≠ AxisAll) then true else any_items (Keys w).

(** ** Validate *)

(** One loop of [Validate]: no element is [bad] and none repeats an earlier
    one ([walked] is the part already walked, Go's [items[:i]]). *)
Fixpoint distinct_ok {A} `{EqDecision A} (bad : A → bool) (walked items : list A) : bool :=
  match items with
  | [] => true
  | x :: rest =>
      if bad x || Contains walked x then false
      else distinct_ok bad (walked ++ [x]) rest
  end.

Definition bad_id (s : string) : bool := bool_decide (s = "").

Definition bad_item (k : RuleKeyItem) : bool :=
  negb (Item_IsFolder k) && bool_decide (Item_KeyID k = "")
  || Item_IsFolder k && bool_decide (Item_KeyID k ≠ "").

(** The loop over a per-project item map. Go visits the map in an unspecified
    order and every failure in it is the same sentinel, so the outcome is the
    conjunction over the entries. *)
Definition items_ok {A} `{EqDecision A} (bad : A → bool) (seen : list ProjectID)
    (m : gmap ProjectID (list A)) : bool :=
  forallb (λ kv, Contains seen kv.1 && distinct_ok bad [] kv.2) (map_to_list m).

Definition items_total {A} (m : gmap ProjectID (list A)) : nat :=
  sum_list ((λ kv, length kv.2) <$> map_to_list m).

Definition valid_mode (m : AxisMode) : bool :=
  bool_decide (m = AxisAll) || bool_decide (m = AxisOnly).

Definition Validate (r : Rule) : result error unit :=
  if bool_decide (Rule_Org r = "") then Err ErrInvalid else
  match ruleShapes !! Rule_Capability r with
  | None => Err ErrInvalid
  | Some shape =>
    let w := Rule_Where r in
    if Nat.eqb (length (Projects w)) 0 then Err ErrInvalid else
    if negb (distinct_ok bad_id [] (Projects w)) then Err ErrInvalid else
    if negb (valid_mode (EnvMode w)) then Err ErrInvalid else
    if negb (valid_mode (KeyMode w)) then Err ErrInvalid else
    if negb (items_ok bad_id (Projects w) (Envs w)) then Err ErrInvalid else
    let envTotal := items_total (Envs w) in
    if bool_decide (EnvMode w = AxisOnly) && Nat.eqb envTotal 0 then Err ErrInvalid else
    if negb (items_ok bad_item (Projects w) (Keys w)) then Err ErrInvalid else
    let keyTotal := items_total (Keys w) in
    if bool_decide (KeyMode w = AxisOnly) && Nat.eqb keyTotal 0 then Err ErrInvalid else
    if Nat.ltb MaxRuleItems (length (Projects w) + envTotal + keyTotal)
    then Err ErrLimitExceeded else
    match shape with
    | ShapeEnv =>
        if KeyNarrowed w && bool_decide (Rule_Capability r ≠ CapRead)
        then Err ErrInvalid else Ok tt
    | ShapeProject =>
        if KeyNarrowed w || EnvNarrowed w then Err ErrInvalid else Ok tt
    | ShapeKey => Ok tt
    end
  end.

(** ** Reaches *)

(** The key-item test of [Reaches]. *)
Definition reaches_item (mode : AxisMode) (key : RuleKey) (it : RuleKeyItem) : bool :=
  if negb (Item_IsFolder it)
  then bool_decide (Key_ID key ≠ "") && bool_decide (Item_KeyID it = Key_ID key)
  else if bool_decide (Item_Folder it = Key_Folder key) then true
  else bool_decide (mode = AxisAll) && bool_decide (Item_Folder it ≠ "")
       && HasPrefix (Key_Folder key) (Item_Folder it +:+ "/").

(** The level switch of [Reaches]: [true] when the environment axis admits the
    atom. *)
Definition reaches_level (w : Where) (c : Capability) (at_ : Level) (s : Scope)
    (key : option RuleKey) : bool :=
  let envs := mget (Envs w) (Project s) in
  match at_ with
  | LevelProject =>
      if bool_decide (c = CapDefinitionsEdit) && bool_decide (is_Some key)
      then negb (bool_decide (EnvMode w = AxisOnly) && Nat.eqb (length envs) 0)
      else negb (bool_decide (EnvMode w ≠ AxisAll) || Nat.ltb 0 (length envs))
  | LevelEnv =>
      if bool_decide (Env s = "") then false
      else let listed := Contains envs (Env s) in
           negb (bool_decide (EnvMode w = AxisOnly) && negb listed
                 || bool_decide (EnvMode w = AxisAll) && listed)
  | _ => false
  end.

Definition Reaches (r : Rule) (c : Capability) (at_ : Level) (s : Scope)
    (key : option RuleKey) : bool :=
  if bool_decide (c ≠ Rule_Capability r) || bool_decide (c = CapManageMembers)
     || bool_decide (Org s ≠ Rule_Org r) then false else
  let w := Rule_Where r in
  if negb (Contains (Projects w) (Project s)) then false else
  if negb (reaches_level w c at_ s key) then false else
  if bool_decide (c = CapRead) then true else
  let items := mget (Keys w) (Project s) in
  if bool_decide (KeyMode w = AxisAll) && Nat.eqb (length items) 0 then true else
  match key with
  | None => false
  | Some key =>
      let matched := ContainsFunc items (reaches_item (KeyMode w) key) in
      if bool_decide (KeyMode w = AxisOnly) then matched else negb matched
  end.

(** ** The declarative reading of [Validate] *)

Lemma distinct_ok_spec {A} `{EqDecision A} (bad : A → bool) walked items :
  distinct_ok bad walked items = true ↔
  NoDup items ∧ (∀ x, x ∈ items → (x ∉ walked) ∧ bad x = false).
Proof.
  revert walked. induction items as [|x items IH]; intros walked; simpl.
  { split; [|done]. intros _. split; [constructor|]. intros y Hy.
    by apply elem_of_nil in Hy. }
  rewrite NoDup_cons. destruct (bad x || Contains walked x) eqn:E.
  - split; [done|]. intros [_ H]. destruct (H x) as [H1 H2]; [set_solver|].
    bsimp. destruct E; congruence.
  - bsimp. rewrite IH. destruct E as [Hbad Hpre]. split.
    + intros [Hnd Hall]. split; [split; [|done]|].
      * intros Hx. destruct (Hall x Hx) as [Hn _]. set_solver.
      * intros y [->|Hy]%elem_of_cons; [done|].
        destruct (Hall y Hy). set_solver.
    + intros [[Hx Hnd] Hall]. split; [done|]. intros y Hy.
      destruct (Hall y) as [Hn Hb]; [set_solver|]. split; [|done].
      rewrite elem_of_app, list_elem_of_singleton. intros [?| ->]; contradiction.
Qed.

Lemma distinct_ok_nil {A} `{EqDecision A} (bad : A → bool) items :
  distinct_ok bad [] items = true ↔ NoDup items ∧ (∀ x, x ∈ items → bad x = false).
Proof.
  rewrite distinct_ok_spec. split; intros [? H']; (split; [done|]); intros x Hx;
    specialize (H' x Hx); [naive_solver|]. split; [apply not_elem_of_nil|done].
Qed.

Lemma items_ok_spec {A} `{EqDecision A} (bad : A → bool) seen m :
  items_ok bad seen m = true ↔
  ∀ p items, m !! p = Some items →
    p ∈ seen ∧ NoDup items ∧ ∀ x, x ∈ items → bad x = false.
Proof.
  unfold items_ok. rewrite forallb_true. split.
  - intros H p items Hp. specialize (H (p, items)).
    rewrite elem_of_map_to_list in H. specialize (H Hp). simpl in H. bsimp.
    rewrite distinct_ok_nil in H. naive_solver.
  - intros H [p items] Hp%elem_of_map_to_list. simpl. bsimp.
    rewrite distinct_ok_nil. naive_solver.
Qed.

Lemma any_items_true {A} (m : gmap ProjectID (list A)) :
  any_items m = true ↔ ∃ p x, x ∈ mget m p.
Proof.
  unfold any_items, mget. rewrite existsb_true. split.
  - intros ([p [|x l]] & Hin%elem_of_map_to_list & Hlen); simpl in *; [done|].
    exists p, x. rewrite Hin. set_solver.
  - intros (p & x & Hx). destruct (m !! p) as [l|] eqn:Hp; simpl in Hx;
      [|by apply elem_of_nil in Hx].
    exists (p, l). split; [by apply elem_of_map_to_list|]. simpl.
    destruct l; [by apply elem_of_nil in Hx|done].
Qed.

Lemma any_items_false {A} (m : gmap ProjectID (list A)) :
  any_items m = false ↔ ∀ p, mget m p = [].
Proof.
  rewrite <-not_true_iff_false, any_items_true. split.
  - intros H p. destruct (mget m p) as [|x l] eqn:E; [done|].
    destruct H. exists p, x. rewrite E. set_solver.
  - intros H (p & x & Hx). rewrite H in Hx. by apply elem_of_nil in Hx.
Qed.

Lemma sum_list_zero (l : list nat) : sum_list l = 0 ↔ ∀ n, n ∈ l → n = 0.
Proof.
  induction l as [|a l IH]; simpl.
  - split; [|done]. intros _ n Hn. by apply elem_of_nil in Hn.
  - setoid_rewrite elem_of_cons. split.
    + intros H n [->|Hn]; [lia|]. apply IH; [lia|done].
    + intros H. rewrite (H a) by auto. apply IH. auto.
Qed.

Lemma items_total_zero {A} (m : gmap ProjectID (list A)) :
  items_total m = 0 ↔ any_items m = false.
Proof.
  unfold items_total, any_items. rewrite sum_list_zero, existsb_false.
  setoid_rewrite list_elem_of_fmap. split.
  - intros H kv Hkv. apply Nat.ltb_ge.
    rewrite (H (length kv.2)); [done|]. eauto.
  - intros H n (kv & -> & Hkv). specialize (H kv Hkv). apply Nat.ltb_ge in H. lia.
Qed.

(** What a stored rule row must satisfy to reach anything. *)
Record rule_wf (r : Rule) : Prop := {
  wf_org : Rule_Org r ≠ "";
  wf_shape : is_Some (ruleShapes !! Rule_Capability r);
  wf_projects : Projects (Rule_Where r) ≠ [];
  wf_projects_distinct : NoDup (Projects (Rule_Where r)) ∧ "" ∉ Projects (Rule_Where r);
  wf_envmode : EnvMode (Rule_Where r) = AxisAll ∨ EnvMode (Rule_Where r) = AxisOnly;
  wf_keymode : KeyMode (Rule_Where r) = AxisAll ∨ KeyMode (Rule_Where r) = AxisOnly;
  wf_envs : ∀ p items, Envs (Rule_Where r) !! p = Some items →
    p ∈ Projects (Rule_Where r) ∧ NoDup items ∧ "" ∉ items;
  wf_only_envs : EnvMode (Rule_Where r) = AxisOnly → ∃ p e, e ∈ mget (Envs (Rule_Where r)) p;
  wf_keys : ∀ p items, Keys (Rule_Where r) !! p = Some items →
    p ∈ Projects (Rule_Where r) ∧ NoDup items ∧ ∀ k, k ∈ items → bad_item k = false;
  wf_only_keys : KeyMode (Rule_Where r) = AxisOnly → ∃ p k, k ∈ mget (Keys (Rule_Where r)) p;
  wf_bound : length (Projects (Rule_Where r)) + items_total (Envs (Rule_Where r))
             + items_total (Keys (Rule_Where r)) ≤ MaxRuleItems;
  wf_env_shape : ruleShapes !! Rule_Capability r = Some ShapeEnv →
    KeyNarrowed (Rule_Where r) = true → Rule_Capability r = CapRead;
  wf_project_shape : ruleShapes !! Rule_Capability r = Some ShapeProject →
    KeyNarrowed (Rule_Where r) = false ∧ EnvNarrowed (Rule_Where r) = false }.

Lemma valid_mode_true m : valid_mode m = true ↔ m = AxisAll ∨ m = AxisOnly.
Proof. unfold valid_mode. bsimp. done. Qed.

Lemma bad_id_elem (l : list string) : (∀ x, x ∈ l → bad_id x = false) ↔ "" ∉ l.
Proof.
  unfold bad_id. setoid_rewrite bool_decide_eq_false. naive_solver.
Qed.

Lemma only_guard {A} (m : AxisMode) (items : gmap ProjectID (list A)) :
  bool_decide (m = AxisOnly) && Nat.eqb (items_total items) 0 = false ↔
  (m = AxisOnly → ∃ p x, x ∈ mget items p).
Proof.
  rewrite andb_false_iff, bool_decide_eq_false, Nat.eqb_neq, items_total_zero,
    not_false_iff_true, any_items_true.
  destruct (decide (m = AxisOnly)); naive_solver.
Qed.

(** Proof step for [Validate]: discharge or record the next guard. *)
Ltac validate_guard :=
  match goal with
  | |- (if ?b then Err _ else _) = Ok _ ↔ _ =>
      let E := fresh "G" in destruct b eqn:E;
      [split; [done|intros Hwf; exfalso]|]
  end.

Lemma Validate_shape r shape :
  ruleShapes !! Rule_Capability r = Some shape →
  match shape with
  | ShapeEnv => if KeyNarrowed (Rule_Where r) && bool_decide (Rule_Capability r ≠ CapRead)
                then Err ErrInvalid else Ok tt
  | ShapeProject => if KeyNarrowed (Rule_Where r) || EnvNarrowed (Rule_Where r)
                    then Err ErrInvalid else Ok tt
  | ShapeKey => Ok tt
  end = @Ok error unit tt ↔
  (ruleShapes !! Rule_Capability r = Some ShapeEnv →
    KeyNarrowed (Rule_Where r) = true → Rule_Capability r = CapRead) ∧
  (ruleShapes !! Rule_Capability r = Some ShapeProject →
    KeyNarrowed (Rule_Where r) = false ∧ EnvNarrowed (Rule_Where r) = false).
Proof.
  intros ->. destruct shape; [naive_solver| |].
  - destruct (KeyNarrowed (Rule_Where r)); simpl; [|naive_solver].
    case_bool_decide; naive_solver.
  - destruct (KeyNarrowed (Rule_Where r)), (EnvNarrowed (Rule_Where r));
      naive_solver.
Qed.

Lemma Validate_wf r : Validate r = Ok tt ↔ rule_wf r.
Proof.
  unfold Validate. validate_guard.
  { bsimp. by apply (wf_org r). }
  destruct (ruleShapes !! Rule_Capability r) as [shape|] eqn:Hshape; [|split; [done|]].
  2:{ intros Hwf. destruct (wf_shape r Hwf). congruence. }
  cbv zeta. validate_guard.
  { apply Nat.eqb_eq, nil_length_inv in G0. by apply (wf_projects r). }
  validate_guard.
  { bsimp. apply not_true_iff_false in G1. apply G1, distinct_ok_nil.
    rewrite bad_id_elem. by apply wf_projects_distinct. }
  validate_guard.
  { bsimp. apply not_true_iff_false in G2. apply G2, valid_mode_true.
    by apply wf_envmode. }
  validate_guard.
  { bsimp. apply not_true_iff_false in G3. apply G3, valid_mode_true.
    by apply wf_keymode. }
  validate_guard.
  { bsimp. apply not_true_iff_false in G4. apply G4, items_ok_spec.
    intros p items Hp. rewrite bad_id_elem. by apply (wf_envs r). }
  validate_guard.
  { apply not_false_iff_true in G5. apply G5, only_guard. by apply wf_only_envs. }
  validate_guard.
  { bsimp. apply not_true_iff_false in G6. apply G6, items_ok_spec. by apply wf_keys. }
  validate_guard.
  { apply not_false_iff_true in G7. apply G7, only_guard. by apply wf_only_keys. }
  validate_guard.
  { apply Nat.ltb_lt in G8. pose proof (wf_bound r Hwf). lia. }
  rewrite (Validate_shape r shape Hshape). rewrite Nat.ltb_ge in G8.
  rewrite only_guard in G5. rewrite only_guard in G7. apply negb_false_iff in G1, G2, G3, G4, G6.
  rewrite distinct_ok_nil, bad_id_elem in G1. rewrite valid_mode_true in G2, G3.
  rewrite items_ok_spec in G4. rewrite items_ok_spec in G6. setoid_rewrite bad_id_elem in G4.
  apply Nat.eqb_neq in G0. bsimp. split; [|by intros []].
  intros [? ?]. constructor; try done.
  intros Heq. by rewrite Heq in G0.
Qed.

(** A rule that validates has one of the two axis modes on each axis. *)
Lemma Validate_modes r :
  Validate r = Ok tt →
  (EnvMode (Rule_Where r) = AxisAll ∨ EnvMode (Rule_Where r) = AxisOnly) ∧
  (KeyMode (Rule_Where r) = AxisAll ∨ KeyMode (Rule_Where r) = AxisOnly).
Proof. rewrite Validate_wf. intros H. split; [by apply wf_envmode|by apply wf_keymode]. Qed.

(** ** Basic facts of [Reaches] *)

Lemma Reaches_scope r c at_ s key :
  Reaches r c at_ s key = true →
  c = Rule_Capability r ∧ c ≠ CapManageMembers ∧ Org s = Rule_Org r ∧
  Project s ∈ Projects (Rule_Where r) ∧
  reaches_level (Rule_Where r) c at_ s key = true.
Proof.
  unfold Reaches. intros H. do 3 (bcase; [done|]). bsimp.
  destruct E as [[Hc Hm] Ho]. apply dec_stable in Hc, Ho. done.
Qed.

Lemma Reaches_level r c at_ s key :
  Reaches r c at_ s key = true → at_ = LevelProject ∨ at_ = LevelEnv.
Proof. intros (_ & _ & _ & _ & H)%Reaches_scope. destruct at_; naive_solver. Qed.
