(* ===== verification/Containment.v ===== *)
(** * Selector containment: [internal/domain/rule_containment.go]

    A delegated rule may not reach beyond the delegator. The code decides this
    symbolically, over every present and future environment and key, with two
    procedures: [ContainsWhereInProject] compares one outer selector with one
    inner selector, and [WhereUnionContainsInProject] compares the additive
    union of several outer selectors with an inner one by testing finitely many
    witnesses. This file models both and proves

    - that the witness searches terminate ([WhereUnion_total]);
    - that the finite test decides containment over ALL environments and keys
      ([WhereUnion_iff]): the witnesses really partition the selector space;
    - that the pairwise comparison is sound ([ContainsWhere_sound]);
    - that the selectors used here are the ones [Reaches] evaluates
      ([Reaches_selector]). *)

From stdpp Require Import prelude gmap strings pretty list.
From S2P Require Import Prelude StringFacts Domain Rule.

(** ** Operations *)

Definition folderWithin (folder ancestor : string) : bool :=
  bool_decide (folder = ancestor)
  || bool_decide (ancestor ≠ "") && HasPrefix folder (ancestor +:+ "/").

Definition selectorEnvMatches (w : Where) (project : ProjectID) (env : EnvID) : bool :=
  let matched := Contains (mget (Envs w) project) env in
  bool_decide (EnvMode w = AxisOnly) && matched
  || bool_decide (EnvMode w = AxisAll) && negb matched.

(** The item predicate inside [selectorKeyMatches]. *)
Definition selector_item (mode : AxisMode) (key : RuleKey) (item : RuleKeyItem) : bool :=
  if negb (Item_IsFolder item)
  then bool_decide (Key_ID key ≠ "") && bool_decide (Key_ID key = Item_KeyID item)
  else if bool_decide (mode = AxisAll)
  then folderWithin (Key_Folder key) (Item_Folder item)
  else bool_decide (Key_Folder key = Item_Folder item).

Definition selectorKeyMatches (w : Where) (project : ProjectID) (key : RuleKey) : bool :=
  let matched := ContainsFunc (mget (Keys w) project) (selector_item (KeyMode w) key) in
  bool_decide (KeyMode w = AxisOnly) && matched
  || bool_decide (KeyMode w = AxisAll) && negb matched.

(** [if !slices.Contains(l, x) { l = append(l, x) }] *)
Definition add_new {A} `{EqDecision A} (l : list A) (x : A) : list A :=
  if Contains l x then l else l ++ [x].

Definition collect_envs (wheres : list Where) (init : list EnvID) (project : ProjectID)
  : list EnvID :=
  foldl (λ envs w, foldl add_new envs (mget (Envs w) project)) init wheres.

Definition collect_item (acc : list string * list string) (item : RuleKeyItem)
  : list string * list string :=
  if Item_IsFolder item then (add_new acc.1 (Item_Folder item), acc.2)
  else (acc.1, add_new acc.2 (Item_KeyID item)).

(** The folders and key ids the selectors name; the catalogue root is always
    named. *)
Definition collect_keys (wheres : list Where) (project : ProjectID)
  : list string * list string :=
  foldl (λ acc w, foldl collect_item acc (mget (Keys w) project)) ([""], []) wheres.

(** [fmt.Sprintf("selector-witness-%d", i)] *)
Definition witness_name (i : nat) : string := "selector-witness-" +:+ pretty i.

Definition fresh_env (envs : list EnvID) : option EnvID :=
  witness_name <$> search (λ i, negb (Contains envs (witness_name i))) (S (length envs)) 0.

Definition child_name (folder : string) (i : nat) : string :=
  if bool_decide (folder ≠ "") then folder +:+ "/" +:+ witness_name i else witness_name i.

Definition fresh_child (folders : list string) (folder : string) : option string :=
  child_name folder <$>
    search (λ i, negb (ContainsFunc folders (λ named, folderWithin named (child_name folder i))))
      (S (length folders)) 0.

Definition selects (w : Where) (project : ProjectID) (env : EnvID) (key : RuleKey) : bool :=
  Contains (Projects w) project && selectorEnvMatches w project env
  && selectorKeyMatches w project key.

(** The final double loop over the environment and key witnesses. *)
Definition witnesses_covered (outers : list Where) (inner : Where) (project : ProjectID)
    (envs : list EnvID) (keys : list RuleKey) : bool :=
  forallb (λ env,
    if negb (selectorEnvMatches inner project env) then true
    else forallb (λ key,
      if negb (selectorKeyMatches inner project key) then true
      else ContainsFunc outers (λ outer, selects outer project env key)) keys) envs.

(** [None] would be a witness loop that runs out of fuel; [WhereUnion_total]
    shows it does not happen. *)
Definition WhereUnionContainsInProject (outers : list Where) (inner : Where)
    (project : ProjectID) (keyFolders : gmap string string) : option bool :=
  let wheres := outers ++ [inner] in
  let envs := collect_envs wheres (mget (Envs inner) project) project in
  let '(folders, ids) := collect_keys wheres project in
  env_witness ← fresh_env envs;
  let envs := envs ++ [env_witness] in
  children ← mapM (fresh_child folders) folders;
  let regions := folders ++ children in
  match mapM (λ id, mkRuleKey id <$> keyFolders !! id) ids with
  | None => Some false
  | Some named_keys =>
      let keys := (mkRuleKey "" <$> regions) ++ named_keys in
      Some (witnesses_covered outers inner project envs keys)
  end.

Definition axisContains {A} `{EqDecision A} (outerMode : AxisMode) (outer : list A)
    (innerMode : AxisMode) (inner : list A) : bool :=
  if bool_decide (innerMode = AxisOnly) then
    forallb (λ value,
      negb (bool_decide (outerMode = AxisOnly) && negb (Contains outer value)
            || bool_decide (outerMode = AxisAll) && Contains outer value)) inner
    && (bool_decide (outerMode = AxisOnly) || bool_decide (outerMode = AxisAll))
  else if bool_decide (innerMode ≠ AxisAll) || bool_decide (outerMode ≠ AxisAll) then false
  else forallb (λ excluded, Contains inner excluded) outer.

Definition keySelectionContains (outer inner : RuleKeyItem) (folders : gmap string string)
  : bool :=
  if Item_IsFolder inner then
    Item_IsFolder outer && bool_decide (Item_Folder outer = Item_Folder inner)
  else if negb (Item_IsFolder outer) then bool_decide (Item_KeyID outer = Item_KeyID inner)
  else match folders !! Item_KeyID inner with
       | Some folder => bool_decide (folder = Item_Folder outer)
       | None => false
       end.

Definition keySelectionOverlapsExclusion (selected excluded : RuleKeyItem)
    (folders : gmap string string) : bool :=
  if Item_IsFolder selected then
    if Item_IsFolder excluded
    then folderWithin (Item_Folder selected) (Item_Folder excluded)
    else match folders !! Item_KeyID excluded with
         | Some folder => bool_decide (folder = Item_Folder selected)
         | None => true
         end
  else if negb (Item_IsFolder excluded)
  then bool_decide (Item_KeyID selected = Item_KeyID excluded)
  else match folders !! Item_KeyID selected with
       | Some folder => folderWithin folder (Item_Folder excluded)
       | None => true
       end.

Definition exclusionContains (outer inner : RuleKeyItem) (folders : gmap string string)
  : bool :=
  if Item_IsFolder inner then
    Item_IsFolder outer && folderWithin (Item_Folder inner) (Item_Folder outer)
  else if negb (Item_IsFolder outer) then bool_decide (Item_KeyID outer = Item_KeyID inner)
  else match folders !! Item_KeyID inner with
       | Some folder => folderWithin folder (Item_Folder outer)
       | None => false
       end.

Definition ContainsWhereInProject (outer inner : Where) (project : ProjectID)
    (keyFolders : gmap string string) : bool :=
  if negb (Contains (Projects outer) project) || negb (Contains (Projects inner) project)
  then false else
  if negb (axisContains (EnvMode outer) (mget (Envs outer) project)
             (EnvMode inner) (mget (Envs inner) project)) then false else
  let o := mget (Keys outer) project in
  let i := mget (Keys inner) project in
  if bool_decide (KeyMode inner = AxisOnly) then
    forallb (λ selected,
      if bool_decide (KeyMode outer = AxisOnly) then
        ContainsFunc o (λ item, keySelectionContains item selected keyFolders)
      else if bool_decide (KeyMode outer = AxisAll) then
        negb (ContainsFunc o (λ excluded,
                keySelectionOverlapsExclusion selected excluded keyFolders))
      else false) i
  else if bool_decide (KeyMode inner ≠ AxisAll) || bool_decide (KeyMode outer ≠ AxisAll)
  then false
  else forallb (λ excluded,
         ContainsFunc i (λ item, exclusionContains item excluded keyFolders)) o.

(** ** Folder paths *)

Lemma folderWithin_true f a :
  folderWithin f a = true ↔ f = a ∨ a ≠ "" ∧ ∃ t, f = a +:+ "/" +:+ t.
Proof.
  unfold folderWithin. bsimp. rewrite HasPrefix_true.
  by setoid_rewrite append_assoc.
Qed.

Lemma folderWithin_refl f : folderWithin f f = true.
Proof. apply folderWithin_true. by left. Qed.

Lemma folderWithin_root f : folderWithin f "" = true ↔ f = "".
Proof. rewrite folderWithin_true. naive_solver. Qed.

Lemma folderWithin_trans f g h :
  folderWithin f g = true → folderWithin g h = true → folderWithin f h = true.
Proof.
  rewrite !folderWithin_true. intros [->|[Hg [t ->]]]; [done|].
  intros [->|[Hh [u ->]]]; [by eauto|]. right. split; [done|].
  exists (u +:+ "/" +:+ t). by rewrite !append_assoc.
Qed.

Lemma witness_no_slash i : has_char slash (witness_name i) = false.
Proof.
  unfold witness_name. rewrite has_char_append, pretty_nat_no_slash. reflexivity.
Qed.

#[export] Instance witness_name_inj : Inj (=) (=) witness_name.
Proof. intros i j H%append_cancel_l. by apply (inj pretty) in H. Qed.

Lemma no_slash_within f a :
  has_char slash f = false → folderWithin f a = true → f = a.
Proof.
  intros Hf [|[_ [t ->]]]%folderWithin_true; [done|].
  rewrite !has_char_append in Hf. change (has_char slash "/") with true in Hf.
  by rewrite orb_true_r in Hf.
Qed.

Lemma child_within F i a :
  folderWithin (child_name F i) a = true ↔
  a = child_name F i ∨ F ≠ "" ∧ folderWithin F a = true.
Proof.
  unfold child_name. case_bool_decide as HF.
  2:{ split; [|by intros [->|[? _]]; [apply folderWithin_refl|]].
      intros H%no_slash_within; [by left|apply witness_no_slash]. }
  assert (folderWithin (F +:+ "/" +:+ witness_name i) F = true) as Hself.
  { apply folderWithin_true. eauto. }
  split; [|intros [->|[_ H]]; [apply folderWithin_refl|by eapply folderWithin_trans]].
  intros [->|[Ha [t Ht]]]%folderWithin_true; [by left|]. right. split; [done|].
  apply folderWithin_true.
  destruct (decide (String.length a ≤ String.length F)) as [Hle|Hgt].
  - symmetry in Ht. destruct (append_split _ _ _ _ Ht Hle) as (c & -> & Hc).
    destruct c as [|d c]; [left; apply append_nil_r|]. right. split; [done|].
    rewrite append_cons in Hc. injection Hc as <- _. by exists c.
  - destruct (append_split _ _ _ _ Ht) as (c & -> & Hc); [lia|].
    destruct c as [|d c]; [rewrite append_nil_r in Hgt; lia|].
    rewrite append_cons in Hc. injection Hc as <- Hw.
    pose proof (witness_no_slash i) as Hns. change (witness_name i = c +:+ "/" +:+ t) in Hw.
    rewrite Hw, !has_char_append in Hns. change (has_char slash "/") with true in Hns.
    by rewrite orb_true_r in Hns.
Qed.

(** Distinct children of one folder have disjoint subtrees. *)
Lemma child_disjoint F i j f :
  folderWithin f (child_name F i) = true → folderWithin f (child_name F j) = true → i = j.
Proof.
  assert (∀ k, folderWithin f (child_name F k) = true → ∃ t,
    f +:+ "/" = (if bool_decide (F ≠ "") then F +:+ "/" else "") +:+
                  witness_name k +:+ String slash t) as Hform.
  { intros k [->|[_ [t ->]]]%folderWithin_true.
    - exists "". unfold child_name. case_bool_decide; [|done].
      by rewrite !append_assoc.
    - exists (t +:+ "/"). unfold child_name. case_bool_decide; by rewrite !append_assoc. }
  intros (t & Ht)%Hform (u & Hu)%Hform. rewrite Ht in Hu. apply append_cancel_l in Hu.
  apply first_sep_eq in Hu; [by apply (inj witness_name)|apply witness_no_slash..].
Qed.

(** ** The witness searches terminate *)

Lemma fresh_env_total envs : is_Some (fresh_env envs).
Proof.
  apply fmap_is_Some. apply (search_total _ envs (λ i x, x = witness_name i)).
  - intros j H. bsimp. eauto.
  - intros j k x -> H. by apply (inj witness_name).
Qed.

Lemma fresh_env_spec envs e : fresh_env envs = Some e → e ∉ envs.
Proof. intros (i & [H _]%search_Some & ->)%fmap_Some. by bsimp. Qed.

Lemma fresh_child_total folders F : is_Some (fresh_child folders F).
Proof.
  apply fmap_is_Some.
  apply (search_total _ folders (λ i x, folderWithin x (child_name F i) = true)).
  - intros j H. by bsimp.
  - intros j k x. apply child_disjoint.
Qed.

Lemma fresh_child_spec folders F c :
  fresh_child folders F = Some c →
  ∃ i, c = child_name F i ∧ ∀ named, named ∈ folders → folderWithin named c = false.
Proof.
  intros (i & [H _]%search_Some & ->)%fmap_Some. exists i. split; [done|]. by bsimp.
Qed.

Lemma children_total folders : is_Some (mapM (fresh_child folders) folders).
Proof. apply mapM_is_Some, Forall_true. intros F. apply fresh_child_total. Qed.

(** ** What the selectors name *)

Lemma elem_of_add_new {A} `{EqDecision A} (l : list A) x y :
  x ∈ add_new l y ↔ x ∈ l ∨ x = y.
Proof.
  unfold add_new. destruct (Contains l y) eqn:E; bsimp.
  - naive_solver.
  - by rewrite elem_of_app, list_elem_of_singleton.
Qed.

Lemma elem_of_add_all {A} `{EqDecision A} (xs l : list A) x :
  x ∈ foldl add_new l xs ↔ x ∈ l ∨ x ∈ xs.
Proof.
  revert l. induction xs as [|y xs IH]; intros l; simpl.
  - rewrite elem_of_nil. tauto.
  - rewrite IH, elem_of_add_new, elem_of_cons. tauto.
Qed.

Lemma elem_of_collect_envs wheres init project e :
  e ∈ collect_envs wheres init project ↔
  e ∈ init ∨ ∃ w, w ∈ wheres ∧ e ∈ mget (Envs w) project.
Proof.
  unfold collect_envs. revert init.
  induction wheres as [|w wheres IH]; intros init; simpl.
  - rewrite ex_elem_nil. tauto.
  - rewrite IH, elem_of_add_all, ex_elem_cons. tauto.
Qed.

Lemma elem_of_collect_items items acc f :
  (f ∈ (foldl collect_item acc items).1 ↔
    f ∈ acc.1 ∨ ∃ it, it ∈ items ∧ Item_IsFolder it = true ∧ Item_Folder it = f) ∧
  (f ∈ (foldl collect_item acc items).2 ↔
    f ∈ acc.2 ∨ ∃ it, it ∈ items ∧ Item_IsFolder it = false ∧ Item_KeyID it = f).
Proof.
  revert acc. induction items as [|it items IH]; intros acc; simpl.
  - rewrite !ex_elem_nil. tauto.
  - destruct (IH (collect_item acc it)) as [-> ->].
    rewrite !ex_elem_cons. unfold collect_item.
    destruct (Item_IsFolder it) eqn:E; simpl; rewrite elem_of_add_new;
      intuition congruence.
Qed.

Lemma elem_of_collect_fold wheres project acc f :
  (f ∈ (foldl (λ acc w, foldl collect_item acc (mget (Keys w) project)) acc wheres).1 ↔
    f ∈ acc.1 ∨ ∃ w, w ∈ wheres ∧ ∃ it, it ∈ mget (Keys w) project ∧
      Item_IsFolder it = true ∧ Item_Folder it = f) ∧
  (f ∈ (foldl (λ acc w, foldl collect_item acc (mget (Keys w) project)) acc wheres).2 ↔
    f ∈ acc.2 ∨ ∃ w, w ∈ wheres ∧ ∃ it, it ∈ mget (Keys w) project ∧
      Item_IsFolder it = false ∧ Item_KeyID it = f).
Proof.
  revert acc. induction wheres as [|w wheres IH]; intros acc; simpl.
  - rewrite !ex_elem_nil. tauto.
  - destruct (IH (foldl collect_item acc (mget (Keys w) project))) as [-> ->].
    destruct (elem_of_collect_items (mget (Keys w) project) acc f) as [-> ->].
    rewrite !ex_elem_cons. tauto.
Qed.

(** Every item of a collected selector is named. *)
Lemma collect_named wheres project w it :
  w ∈ wheres → it ∈ mget (Keys w) project →
  if Item_IsFolder it then Item_Folder it ∈ (collect_keys wheres project).1
  else Item_KeyID it ∈ (collect_keys wheres project).2.
Proof.
  intros Hw Hit. destruct (Item_IsFolder it) eqn:E;
    apply elem_of_collect_fold; right; exists w; eauto 6.
Qed.

Lemma collect_root wheres project : "" ∈ (collect_keys wheres project).1.
Proof. apply elem_of_collect_fold. left. set_solver. Qed.

(** ** Regions: finitely many folders represent all of them *)

Lemma longest_elem (P : string → Prop) `{!∀ x, Decision (P x)} (l : list string) :
  (∀ x, x ∈ l → ¬ P x) ∨
  ∃ x, x ∈ l ∧ P x ∧ ∀ y, y ∈ l → P y → String.length y ≤ String.length x.
Proof.
  induction l as [|a l IH]; [left; intros x Hx; by apply elem_of_nil in Hx|].
  setoid_rewrite elem_of_cons. destruct (decide (P a)) as [Ha|Ha].
  - right. destruct IH as [IH|(x & Hx & HPx & Hmax)]; [exists a; naive_solver lia|].
    destruct (decide (String.length x ≤ String.length a)) as [Hle|Hgt].
    + exists a. split_and!; [by left|done|]. intros y [->|Hy] HPy; [done|].
      specialize (Hmax y Hy HPy). lia.
    + exists x. split_and!; [by right|done|]. intros y [->|Hy] HPy; [lia|eauto].
  - destruct IH as [IH|(x & Hx & HPx & Hmax)]; [left; naive_solver|].
    right. exists x. naive_solver.
Qed.

Lemma child_elem folders children F :
  mapM (fresh_child folders) folders = Some children → F ∈ folders →
  ∃ c, c ∈ children ∧ fresh_child folders F = Some c.
Proof.
  intros Hm%mapM_Some_1 [i Hi]%list_elem_of_lookup.
  destruct (Forall2_lookup_l _ _ _ _ _ Hm Hi) as (c & Hc & Hf).
  exists c. split; [|done]. apply list_elem_of_lookup. eauto.
Qed.

(** Two folders the named folders cannot tell apart. *)
Definition same_region (folders : list string) (X R : string) : Prop :=
  ∀ F, F ∈ folders → (X = F ↔ R = F) ∧ (folderWithin X F = true ↔ folderWithin R F = true).

(** Named ancestors of one folder are nested. *)
Lemma within_longest X F G :
  folderWithin X F = true → folderWithin X G = true → G ≠ "" → F ≠ "" →
  String.length G ≤ String.length F → folderWithin F G = true.
Proof.
  assert (∀ a, a ≠ "" → folderWithin X a = true → ∃ t, X +:+ "/" = a +:+ "/" +:+ t) as Hp.
  { intros a Ha [->|[_ [t ->]]]%folderWithin_true; [by exists ""|].
    exists (t +:+ "/"). by rewrite !append_assoc. }
  intros HF HG HGne HFne Hlen.
  destruct (Hp G HGne HG) as [t Ht]. destruct (Hp F HFne HF) as [u Hu].
  rewrite Ht in Hu. destruct (append_split _ _ _ _ Hu Hlen) as (c & -> & Hc).
  apply folderWithin_true. destruct c as [|d c]; [left; apply append_nil_r|].
  right. split; [done|]. rewrite append_cons in Hc. injection Hc as <- _. by exists c.
Qed.

Lemma region_representative folders children X :
  "" ∈ folders → mapM (fresh_child folders) folders = Some children →
  ∃ R, R ∈ folders ++ children ∧ same_region folders X R.
Proof.
  intros Hroot Hm. destruct (decide (X ∈ folders)) as [HX|HX].
  { exists X. split; [set_solver|]. intros F HF. done. }
  destruct (longest_elem (λ F, F ≠ "" ∧ folderWithin X F = true) folders)
    as [Hnone|(F0 & HF0 & [HF0ne HF0in] & Hmax)].
  - destruct (child_elem _ _ _ Hm Hroot) as (c & Hc & (i & -> & Hfresh)%fresh_child_spec).
    exists (child_name "" i). split; [set_solver|]. intros F HF.
    rewrite child_within. specialize (Hfresh F HF). specialize (Hnone F HF).
    assert (F ≠ child_name "" i) by (intros ->; by rewrite folderWithin_refl in Hfresh).
    assert (X ≠ F) by congruence. rewrite (folderWithin_true X F). split; [naive_solver|].
    rewrite folderWithin_true in Hnone. naive_solver.
  - destruct (child_elem _ _ _ Hm HF0) as (c & Hc & (i & -> & Hfresh)%fresh_child_spec).
    exists (child_name F0 i). split; [set_solver|]. intros F HF.
    specialize (Hfresh F HF).
    assert (F ≠ child_name F0 i) by (intros ->; by rewrite folderWithin_refl in Hfresh).
    assert (X ≠ F) by congruence. split; [naive_solver|]. rewrite child_within. split.
    + intros HXF. right. split; [done|]. destruct (decide (F = "")) as [->|HFne].
      { apply folderWithin_root in HXF. congruence. }
      eapply within_longest; eauto.
    + intros [?|[_ HFF]]; [congruence|]. by eapply folderWithin_trans.
Qed.

(** ** Selectors see a key only through what they name *)

Lemma selectorEnvMatches_ext w project e e' :
  (e ∈ mget (Envs w) project ↔ e' ∈ mget (Envs w) project) →
  selectorEnvMatches w project e = selectorEnvMatches w project e'.
Proof.
  intros H. unfold selectorEnvMatches, Contains.
  by rewrite (bool_decide_ext _ _ H).
Qed.

Lemma selectorKeyMatches_ext w project k k' :
  (∀ it, it ∈ mget (Keys w) project →
    selector_item (KeyMode w) k it = selector_item (KeyMode w) k' it) →
  selectorKeyMatches w project k = selectorKeyMatches w project k'.
Proof.
  intros H. unfold selectorKeyMatches.
  assert (ContainsFunc (mget (Keys w) project) (selector_item (KeyMode w) k) =
          ContainsFunc (mget (Keys w) project) (selector_item (KeyMode w) k')) as ->; [|done].
  apply eq_true_iff_eq. rewrite !ContainsFunc_true.
  split; intros (it & Hit & E); exists it; (split; [done|]); [rewrite <-H|rewrite H]; done.
Qed.

(** A key the selectors do not name by id looks like the anonymous key of its
    folder region. *)
Lemma selector_item_region folders (ids : list string) mode k R it :
  same_region folders (Key_Folder k) R →
  (Key_ID k = "" ∨ Key_ID k ∉ ids) →
  (if Item_IsFolder it then Item_Folder it ∈ folders else Item_KeyID it ∈ ids) →
  selector_item mode k it = selector_item mode (mkRuleKey "" R) it.
Proof.
  intros HR Hid Hnamed. unfold selector_item. simpl.
  destruct (Item_IsFolder it); simpl.
  - destruct (HR _ Hnamed) as [Heq Hwithin].
    case_bool_decide; [by apply eq_true_iff_eq|by apply bool_decide_ext].
  - change (bool_decide (Key_ID k ≠ "") && bool_decide (Key_ID k = Item_KeyID it) = false).
    destruct Hid as [->|Hid]; [by rewrite bool_decide_false by auto|].
    rewrite (bool_decide_false (Key_ID k = _)) by congruence. apply andb_false_r.
Qed.

(** ** The semantic reading *)

(** A key as the current transaction knows it: a key id with resolved folder
    metadata sits in that folder. The key of a creation has no id yet. *)
Definition key_consistent (keyFolders : gmap string string) (key : RuleKey) : Prop :=
  Key_ID key ≠ "" →
  ∀ folder, keyFolders !! Key_ID key = Some folder → Key_Folder key = folder.

(** Every environment and key the inner selector admits, present or future, is
    admitted by some outer selector. *)
Definition union_contains (outers : list Where) (inner : Where) (project : ProjectID)
    (keyFolders : gmap string string) : Prop :=
  ∀ env key, key_consistent keyFolders key →
    selectorEnvMatches inner project env = true →
    selectorKeyMatches inner project key = true →
    ∃ outer, outer ∈ outers ∧ selects outer project env key = true.

(** Every key id the selectors name has resolved folder metadata. *)
Definition ids_resolved (wheres : list Where) (project : ProjectID)
    (keyFolders : gmap string string) : Prop :=
  ∀ w it, w ∈ wheres → it ∈ mget (Keys w) project → Item_IsFolder it = false →
    is_Some (keyFolders !! Item_KeyID it).

Lemma witnesses_covered_spec outers inner project envs keys :
  witnesses_covered outers inner project envs keys = true ↔
  ∀ env key, env ∈ envs → key ∈ keys →
    selectorEnvMatches inner project env = true →
    selectorKeyMatches inner project key = true →
    ∃ outer, outer ∈ outers ∧ selects outer project env key = true.
Proof.
  unfold witnesses_covered. rewrite forallb_true. split.
  - intros H env key Henv Hkey Hm1 Hm2. specialize (H env Henv).
    rewrite Hm1 in H. simpl in H. rewrite forallb_true in H.
    specialize (H key Hkey). rewrite Hm2 in H. simpl in H. by bsimp.
  - intros H env Henv. destruct (selectorEnvMatches inner project env) eqn:E1; [|done].
    simpl. apply forallb_true. intros key Hkey.
    destruct (selectorKeyMatches inner project key) eqn:E2; [|done].
    simpl. bsimp. eauto.
Qed.

Lemma WhereUnion_total outers inner project keyFolders :
  is_Some (WhereUnionContainsInProject outers inner project keyFolders).
Proof.
  unfold WhereUnionContainsInProject. destruct (collect_keys _ _) as [folders ids].
  destruct (fresh_env_total (collect_envs (outers ++ [inner])
    (mget (Envs inner) project) project)) as [e ->]. simpl.
  destruct (children_total folders) as [cs ->]. simpl.
  destruct (mapM _ ids); eauto.
Qed.

Lemma ids_resolved_mapM wheres project keyFolders :
  ids_resolved wheres project keyFolders ↔
  is_Some (mapM (λ id, mkRuleKey id <$> keyFolders !! id) (collect_keys wheres project).2).
Proof.
  rewrite mapM_is_Some, Forall_forall. setoid_rewrite fmap_is_Some.
  unfold ids_resolved. split.
  - intros H id Hid. apply elem_of_collect_fold in Hid as [Hid|(w & Hw & it & Hit & E & <-)].
    + by apply elem_of_nil in Hid.
    + by eapply H.
  - intros H w it Hw Hit E. apply H. pose proof (collect_named _ _ _ _ Hw Hit) as Hn.
    by rewrite E in Hn.
Qed.

(** Every key has a witness that no collected selector tells apart from it. *)
Lemma key_representative folders ids children named keyFolders k :
  "" ∈ folders → mapM (fresh_child folders) folders = Some children →
  mapM (λ id, mkRuleKey id <$> keyFolders !! id) ids = Some named →
  key_consistent keyFolders k →
  ∃ k', k' ∈ (mkRuleKey "" <$> folders ++ children) ++ named ∧
    ∀ mode it, (if Item_IsFolder it then Item_Folder it ∈ folders else Item_KeyID it ∈ ids) →
      selector_item mode k it = selector_item mode k' it.
Proof.
  intros Hroot Hch Hnamed Hcons.
  destruct (decide (Key_ID k ≠ "" ∧ Key_ID k ∈ ids)) as [[Hne Hin]|Hanon].
  - exists k. split; [|done]. apply elem_of_app. right.
    apply mapM_Some_1 in Hnamed. apply list_elem_of_lookup in Hin as [i Hi].
    destruct (Forall2_lookup_l _ _ _ _ _ Hnamed Hi) as (k' & Hk' & (f & Hf & ->)%fmap_Some).
    apply list_elem_of_lookup. exists i. rewrite Hk'. rewrite <-(Hcons Hne f Hf).
    by destruct k.
  - destruct (region_representative _ _ (Key_Folder k) Hroot Hch) as (R & HR & Hsame).
    exists (mkRuleKey "" R). split.
    + apply elem_of_app. left. by apply list_elem_of_fmap_2.
    + intros mode it Hit. eapply selector_item_region; [done| |done].
      destruct (decide (Key_ID k = "")); [by left|]. right. tauto.
Qed.

Lemma env_representative envs e0 e :
  fresh_env envs = Some e0 →
  ∃ e', e' ∈ envs ++ [e0] ∧ ∀ x, x ∈ envs → (x = e ↔ x = e').
Proof.
  intros Hfresh%fresh_env_spec. destruct (decide (e ∈ envs)).
  - exists e. split; [set_solver|done].
  - exists e0. split; [set_solver|]. intros x Hx. split; intros ->; contradiction.
Qed.

(** The named witnesses are keys the transaction knows. *)
Lemma witness_consistent keyFolders (ids : list string) named R k :
  mapM (λ id, mkRuleKey id <$> keyFolders !! id) ids = Some named →
  k ∈ (mkRuleKey "" <$> R) ++ named → key_consistent keyFolders k.
Proof.
  intros Hnamed [Hk|Hk]%elem_of_app Hne f Hf.
  - by apply list_elem_of_fmap in Hk as (r & -> & _).
  - apply mapM_Some_1 in Hnamed. apply list_elem_of_lookup in Hk as [i Hi].
    destruct (Forall2_lookup_r _ _ _ _ _ Hnamed Hi) as (id & _ & (g & Hg & ->)%fmap_Some).
    simpl in *. congruence.
Qed.

(** The finite witness test decides containment over the whole selector space. *)
Lemma WhereUnion_iff outers inner project keyFolders :
  WhereUnionContainsInProject outers inner project keyFolders = Some true ↔
  ids_resolved (outers ++ [inner]) project keyFolders ∧
  union_contains outers inner project keyFolders.
Proof.
  rewrite ids_resolved_mapM. unfold WhereUnionContainsInProject.
  pose proof (collect_root (outers ++ [inner]) project) as Hroot.
  pose proof (collect_named (outers ++ [inner]) project) as Hcoll.
  destruct (collect_keys (outers ++ [inner]) project) as [folders ids]. simpl in *.
  set (envs := collect_envs _ _ _).
  assert (∀ w, w ∈ outers ++ [inner] → ∀ e, e ∈ mget (Envs w) project → e ∈ envs) as Hcole.
  { intros w Hw e He. apply elem_of_collect_envs. eauto. }
  clearbody envs.
  destruct (fresh_env_total envs) as [e0 Hfe]. rewrite Hfe. simpl.
  destruct (children_total folders) as [children Hch]. rewrite Hch. simpl.
  destruct (mapM (λ id, mkRuleKey id <$> keyFolders !! id) ids) as [named|] eqn:Hnamed.
  2:{ split; [done|]. by intros [[? ?] _]. }
  rewrite (inj_iff Some), witnesses_covered_spec. split.
  - intros Hcov. split; [by eexists|]. intros env key Hcons Henv Hkey.
    destruct (key_representative _ _ _ _ _ _ Hroot Hch Hnamed Hcons) as (k' & Hk' & Hksame).
    destruct (env_representative envs e0 env Hfe) as (e' & He' & Hesame).
    assert (∀ w, w ∈ outers ++ [inner] →
      selectorEnvMatches w project env = selectorEnvMatches w project e' ∧
      selectorKeyMatches w project key = selectorKeyMatches w project k') as Hext.
    { intros w Hw. split.
      - apply selectorEnvMatches_ext. specialize (Hcole w Hw).
        split; intros H; [rewrite <-(proj1 (Hesame _ (Hcole _ H)) eq_refl)|
          rewrite <-(proj2 (Hesame _ (Hcole _ H)) eq_refl)]; done.
      - apply selectorKeyMatches_ext. intros it Hit. apply Hksame. by apply (Hcoll w). }
    destruct (Hext inner) as [He Hk]; [set_solver|]. rewrite He in Henv. rewrite Hk in Hkey.
    destruct (Hcov e' k' He' Hk' Henv Hkey) as (o & Ho & Hsel). exists o. split; [done|].
    destruct (Hext o) as [Heo Hko]; [set_solver|]. unfold selects in *.
    by rewrite Heo, Hko.
  - intros [_ Hcont] env key _ Hkey. apply Hcont. by eapply witness_consistent.
Qed.

(** ** The pairwise comparison is sound *)

Lemma axisContains_sound {A} `{EqDecision A} om (o : list A) im (i : list A) x :
  axisContains om o im i = true →
  bool_decide (im = AxisOnly) && Contains i x || bool_decide (im = AxisAll) && negb (Contains i x)
    = true →
  bool_decide (om = AxisOnly) && Contains o x || bool_decide (om = AxisAll) && negb (Contains o x)
    = true.
Proof.
  unfold axisContains. case_bool_decide as Him.
  - subst im. intros [Hall Hmode]%andb_true_iff Hx. rewrite forallb_true in Hall.
    change (bool_decide (AxisOnly = AxisAll)) with false in Hx. simpl in Hx.
    rewrite orb_false_r, Contains_true in Hx. specialize (Hall x Hx).
    destruct (bool_decide (om = AxisOnly)), (bool_decide (om = AxisAll)), (Contains o x); done.
  - case_bool_decide as H1; [done|]. case_bool_decide as H2; [done|].
    subst. simpl. rewrite forallb_true. intros Hall Hx.
    bsimp. intros Ho. by apply Hx, Contains_true, Hall.
Qed.

Lemma selector_item_only key it :
  selector_item AxisOnly key it = true ↔
  if Item_IsFolder it then Key_Folder key = Item_Folder it
  else Key_ID key ≠ "" ∧ Key_ID key = Item_KeyID it.
Proof.
  unfold selector_item. destruct (Item_IsFolder it); simpl.
  - by rewrite bool_decide_eq_true.
  - by rewrite andb_true_iff, !bool_decide_eq_true.
Qed.

Lemma selector_item_all key it :
  selector_item AxisAll key it = true ↔
  if Item_IsFolder it then folderWithin (Key_Folder key) (Item_Folder it) = true
  else Key_ID key ≠ "" ∧ Key_ID key = Item_KeyID it.
Proof.
  unfold selector_item. destruct (Item_IsFolder it); simpl; [done|].
  by rewrite andb_true_iff, !bool_decide_eq_true.
Qed.

Section items.
Context (kf : gmap string string) (key : RuleKey) (Hcons : key_consistent kf key).

Lemma keySelectionContains_sound o i :
  keySelectionContains o i kf = true → selector_item AxisOnly key i = true →
  selector_item AxisOnly key o = true.
Proof using Hcons.
  rewrite !selector_item_only. unfold keySelectionContains.
  destruct (Item_IsFolder i), (Item_IsFolder o); simpl; try done.
  - rewrite bool_decide_eq_true. congruence.
  - intros Hf [Hne Heq]. rewrite <-Heq in Hf.
    destruct (kf !! Key_ID key) as [f|] eqn:E; [|done].
    rewrite bool_decide_eq_true in Hf. rewrite (Hcons Hne f E). done.
  - rewrite bool_decide_eq_true. intros ? [? ?]. split; congruence.
Qed.

Lemma keySelectionOverlaps_sound s e :
  selector_item AxisOnly key s = true → selector_item AxisAll key e = true →
  keySelectionOverlapsExclusion s e kf = true.
Proof using Hcons.
  rewrite selector_item_only, selector_item_all. unfold keySelectionOverlapsExclusion.
  destruct (Item_IsFolder s), (Item_IsFolder e); simpl.
  - by intros <-.
  - intros <- [Hne <-]. destruct (kf !! Key_ID key) as [f|] eqn:E; [|done].
    rewrite bool_decide_eq_true. symmetry. by apply Hcons.
  - intros [Hne <-] Hin. destruct (kf !! Key_ID key) as [f|] eqn:E; [|done].
    by rewrite <-(Hcons Hne f E).
  - intros [_ <-] [_ <-]. by apply bool_decide_eq_true.
Qed.

Lemma exclusionContains_sound o i :
  exclusionContains o i kf = true → selector_item AxisAll key i = true →
  selector_item AxisAll key o = true.
Proof using Hcons.
  rewrite !selector_item_all. unfold exclusionContains.
  destruct (Item_IsFolder i), (Item_IsFolder o); simpl; try done.
  - intros. by eapply folderWithin_trans.
  - intros Hf [Hne Heq]. rewrite <-Heq in Hf.
    destruct (kf !! Key_ID key) as [f|] eqn:E; [|done]. by rewrite (Hcons Hne f E).
  - rewrite bool_decide_eq_true. intros ? [? ?]. split; congruence.
Qed.
End items.

Lemma selectorKeyMatches_only w project key :
  KeyMode w = AxisOnly →
  selectorKeyMatches w project key = true ↔
  ∃ it, it ∈ mget (Keys w) project ∧ selector_item AxisOnly key it = true.
Proof.
  intros E. unfold selectorKeyMatches. rewrite E.
  change (bool_decide (AxisOnly = AxisAll)) with false. simpl.
  by rewrite orb_false_r, ContainsFunc_true.
Qed.

Lemma selectorKeyMatches_all w project key :
  KeyMode w = AxisAll →
  selectorKeyMatches w project key = true ↔
  ∀ it, it ∈ mget (Keys w) project → selector_item AxisAll key it = false.
Proof.
  intros E. unfold selectorKeyMatches. rewrite E. simpl. by bsimp.
Qed.

Lemma ContainsWhere_sound outer inner project kf env key :
  ContainsWhereInProject outer inner project kf = true → key_consistent kf key →
  selectorEnvMatches inner project env = true →
  selectorKeyMatches inner project key = true →
  selects outer project env key = true.
Proof.
  unfold ContainsWhereInProject, selects. intros H Hcons Henv Hkey.
  bcase; [done|]. apply orb_false_iff in E as [Ho%negb_false_iff _]. rewrite Ho.
  bcase; [done|]. apply negb_false_iff in E.
  pose proof (axisContains_sound _ _ _ _ env E Henv) as Henv'.
  fold (selectorEnvMatches outer project env) in Henv'. rewrite Henv'. simpl.
  case_bool_decide as Him.
  - rewrite selectorKeyMatches_only in Hkey by done. destruct Hkey as (s & Hs & Hsel).
    rewrite forallb_true in H. specialize (H s Hs).
    case_bool_decide as Hom.
    + apply selectorKeyMatches_only; [done|].
      apply ContainsFunc_true in H as (o & Hin & Hc). exists o. split; [done|].
      by eapply keySelectionContains_sound.
    + case_bool_decide as Hom2; [|done]. apply selectorKeyMatches_all; [done|].
      intros o Hin. apply negb_true_iff in H. rewrite ContainsFunc_false in H.
      apply not_true_iff_false. intros Hex.
      specialize (H o Hin). simpl in H.
      by rewrite (keySelectionOverlaps_sound kf key Hcons s o Hsel Hex) in H.
  - case_bool_decide as H1; [done|]. case_bool_decide as H2; [done|].
    rewrite selectorKeyMatches_all in Hkey by done.
    apply selectorKeyMatches_all; [done|]. intros o Hin. simpl in H. rewrite forallb_true in H.
    specialize (H o Hin). apply ContainsFunc_true in H as (i & Hi & Hc).
    apply not_true_iff_false. intros Hex.
    specialize (Hkey i Hi). by rewrite (exclusionContains_sound kf key Hcons i o Hc Hex) in Hkey.
Qed.

(** ** [Reaches] evaluates these selectors *)

Lemma reaches_item_selector mode key it :
  mode = AxisAll ∨ mode = AxisOnly →
  reaches_item mode key it = selector_item mode key it.
Proof.
  intros Hmode. unfold reaches_item, selector_item, folderWithin.
  destruct (Item_IsFolder it); simpl.
  - rewrite (bool_decide_ext (Item_Folder it = Key_Folder key)
      (Key_Folder key = Item_Folder it)) by done.
    destruct Hmode as [->| ->]; simpl; by case_bool_decide.
  - f_equal. by apply bool_decide_ext.
Qed.

(** An environment atom for one key: the rule reaches it exactly when its
    selectors admit the environment and, except for See, the key. *)
Lemma Reaches_selector r c s key :
  Validate r = Ok tt → c = Rule_Capability r → c ≠ CapManageMembers →
  Org s = Rule_Org r → Env s ≠ "" →
  Reaches r c LevelEnv s (Some key) =
    Contains (Projects (Rule_Where r)) (Project s)
    && selectorEnvMatches (Rule_Where r) (Project s) (Env s)
    && (bool_decide (c = CapRead) || selectorKeyMatches (Rule_Where r) (Project s) key).
Proof.
  intros [Hem Hkm]%Validate_modes Hc Hmm Horg Henv. unfold Reaches.
  rewrite (bool_decide_false (c ≠ _)), (bool_decide_false (c = _)),
    (bool_decide_false (Org s ≠ _)) by auto. simpl.
  destruct (Contains _ _); simpl; [|done]. rewrite (bool_decide_false (Env s = "")) by done.
  assert (selectorEnvMatches (Rule_Where r) (Project s) (Env s) =
    negb (bool_decide (EnvMode (Rule_Where r) = AxisOnly)
            && negb (Contains (mget (Envs (Rule_Where r)) (Project s)) (Env s))
          || bool_decide (EnvMode (Rule_Where r) = AxisAll)
            && Contains (mget (Envs (Rule_Where r)) (Project s)) (Env s))) as <-.
  { unfold selectorEnvMatches.
    destruct (Contains (mget (Envs _) _) _), Hem as [->| ->]; done. }
  destruct (selectorEnvMatches _ _ _); simpl; [|done].
  case_bool_decide; simpl; [done|]. unfold selectorKeyMatches.
  assert (ContainsFunc (mget (Keys (Rule_Where r)) (Project s))
            (reaches_item (KeyMode (Rule_Where r)) key) =
          ContainsFunc (mget (Keys (Rule_Where r)) (Project s))
            (selector_item (KeyMode (Rule_Where r)) key)) as ->.
  { unfold ContainsFunc. induction (mget (Keys (Rule_Where r)) (Project s)); [done|].
    simpl. by rewrite reaches_item_selector, IHl. }
  destruct Hkm as [->| ->]; simpl; [|by rewrite orb_false_r].
  by destruct (mget (Keys (Rule_Where r)) (Project s)).
Qed.
