(* ===== verification/Resolver.v ===== *)
(** * The resolution surface: [internal/store/authn]

    The only statements that read the database before a proof exists. The
    chokepoint depends on the record [Resolver] of its read operations and on
    the laws of [ResolverLaws]; [db_resolver] implements the record over the
    tables those reads name, translated from [authn.go], [rules.go],
    [grants.go] and the queries under [internal/store/queries], and the
    instance at the end discharges the laws.

    The recovery variants (a resolver bound to a schema older than a table) are
    left out: every [historicalRecovery] flag is [false] here. *)

From stdpp Require Import prelude gmap strings list.
From S2P Require Import Prelude StringFacts Domain Rule.

(** ** The interface *)

Record EnvironmentSettings := mkEnvironmentSettings {
  Protected : bool; HasWindow : bool; Window : Z }.

Record MachineRevealState := mkMachineRevealState { Enabled : bool; Generation : Z }.

(** Every field is a read of the attempt's snapshot. [Grants] also returns the
    value it leaves in the resolver's [selfConfigOrgID] field. *)
Record Resolver := mkResolver {
  ResolveChain : Scope → result error Scope;
  Grants : PrincipalID → result error (list Grant) * OrgID;
  Rules : PrincipalID → result error (list Rule);
  ResolveRuleKey : OrgID → ProjectID → string → string → result error RuleKey;
  ResolveRulePendingKey : Scope → PrincipalID → string → result error RuleKey;
  ResolveRuleApprovalKey : Scope → string → result error RuleKey;
  RuleKeyHasValue : Scope → string → result error bool;
  RuleKeyHasConflictingDraft : Scope → string → PrincipalID → result error bool;
  EnvironmentReauthSettings : EnvID → result error EnvironmentSettings;
  ProjectMachineReveal : ProjectID → result error MachineRevealState }.

(** An error that wraps none of the uniform outcomes. *)
Definition loud (e : error) : Prop := ∃ msg, e = Loud msg.

(** What the chokepoint relies on. *)
Class ResolverLaws (R : Resolver) : Prop := {
  chain_exact : ∀ s c, ResolveChain R s = Ok c → c = s;
  chain_error : ∀ s e, ResolveChain R s = Err e → e = ErrNotFound ∨ loud e;
  grants_error : ∀ p e, (Grants R p).1 = Err e → loud e;
  rules_error : ∀ p e, Rules R p = Err e → loud e;
  rules_valid : ∀ p rs r, Rules R p = Ok rs → r ∈ rs → Validate r = Ok tt;
  key_error : ∀ o p id name e, ResolveRuleKey R o p id name = Err e → e = ErrNotFound ∨ loud e;
  key_exact : ∀ o p id k, ResolveRuleKey R o p id "" = Ok k → Key_ID k = id;
  pending_error : ∀ s p id e, ResolveRulePendingKey R s p id = Err e → e = ErrNotFound ∨ loud e;
  approval_error : ∀ s id e, ResolveRuleApprovalKey R s id = Err e → e = ErrNotFound ∨ loud e;
  value_error : ∀ s k e, RuleKeyHasValue R s k = Err e → loud e;
  draft_error : ∀ s k p e, RuleKeyHasConflictingDraft R s k p = Err e → loud e;
  settings_error : ∀ s c e, ResolveChain R s = Ok c → Env c ≠ "" →
    EnvironmentReauthSettings R (Env c) = Err e → loud e;
  reveal_error : ∀ p e, ProjectMachineReveal R p = Err e → e = ErrNotFound ∨ loud e }.

(** ** Stored rules *)

Definition ruleAxisProject : string := "project".
Definition ruleAxisEnv : string := "env".
Definition ruleAxisKey : string := "key".
Definition ruleAxisFolder : string := "folder".

Record StoredRuleItem := mkStoredRuleItem {
  SI_ID : string; Axis : string; SI_Project : ProjectID; SI_Env : EnvID;
  SI_KeyID : string; SI_Folder : string }.

Record StoredRule := mkStoredRule { SR_Rule : Rule; SR_Items : list StoredRuleItem }.

Record ruleRow := mkRuleRow {
  rr_id : string; rr_principal : string; rr_capability : string; rr_org : string;
  rr_envMode : string; rr_keyMode : string; rr_item : StoredRuleItem }.

(** [m[k] = append(m[k], x)] *)
Definition map_append {A} (m : gmap string (list A)) (k : string) (x : A)
  : gmap string (list A) := <[k := mget m k ++ [x]]> m.

(** The rule of a row's own columns, before any item. *)
Definition row_rule (row : ruleRow) : StoredRule :=
  mkStoredRule (mkRule (rr_id row) (rr_principal row) (rr_capability row) (rr_org row)
    (mkWhere [] (rr_envMode row) ∅ (rr_keyMode row) ∅)) [].

(** The [switch it.Axis] of one item; [None] is the unknown axis. *)
Definition add_item (w : Where) (it : StoredRuleItem) : option Where :=
  let p := SI_Project it in
  if bool_decide (Axis it = ruleAxisProject) then
    Some (mkWhere (Projects w ++ [p]) (EnvMode w) (Envs w) (KeyMode w) (Keys w))
  else if bool_decide (Axis it = ruleAxisEnv) then
    Some (mkWhere (Projects w) (EnvMode w) (map_append (Envs w) p (SI_Env it))
            (KeyMode w) (Keys w))
  else if bool_decide (Axis it = ruleAxisKey) then
    Some (mkWhere (Projects w) (EnvMode w) (Envs w) (KeyMode w)
            (map_append (Keys w) p (mkItem "" (SI_KeyID it) false)))
  else if bool_decide (Axis it = ruleAxisFolder) then
    Some (mkWhere (Projects w) (EnvMode w) (Envs w) (KeyMode w)
            (map_append (Keys w) p (mkItem (SI_Folder it) "" true)))
  else None.

Definition set_where (r : Rule) (w : Where) : Rule :=
  mkRule (Rule_ID r) (Rule_Principal r) (Rule_Capability r) (Rule_Org r) w.

(** One row joins the rule under construction; [bad] stays set. *)
Definition add_row (cur : StoredRule) (bad : bool) (row : ruleRow) : StoredRule * bool :=
  let items := SR_Items cur ++ [rr_item row] in
  match add_item (Rule_Where (SR_Rule cur)) (rr_item row) with
  | Some w => (mkStoredRule (set_where (SR_Rule cur) w) items, bad)
  | None => (mkStoredRule (SR_Rule cur) items, true)
  end.

Definition flush (cur : option StoredRule) (bad : bool) : list StoredRule :=
  match cur with
  | Some s => if negb bad && is_ok (Validate (SR_Rule s)) then [s] else []
  | None => []
  end.

(** The loop of [foldRules]: [out] is what the tail still appends. *)
Fixpoint foldRules_loop (cur : option StoredRule) (bad : bool) (rows : list ruleRow)
  : list StoredRule :=
  match rows with
  | [] => flush cur bad
  | row :: rest =>
      match cur with
      | Some s =>
          if bool_decide (Rule_ID (SR_Rule s) = rr_id row) then
            let '(s', bad') := add_row s bad row in foldRules_loop (Some s') bad' rest
          else
            flush cur bad ++
            let '(s', bad') := add_row (row_rule row) false row in
            foldRules_loop (Some s') bad' rest
      | None =>
          let '(s', bad') := add_row (row_rule row) false row in
          foldRules_loop (Some s') bad' rest
      end
  end.

Definition foldRules (rows : list ruleRow) : list StoredRule := foldRules_loop None false rows.

Definition rulesOf (stored : list StoredRule) : list Rule := SR_Rule <$> stored.

(** [itemsOf] flattens a selector, projects first. *)
Definition items_of_project (w : Where) (p : ProjectID) : list StoredRuleItem :=
  ((λ e, mkStoredRuleItem "" ruleAxisEnv p e "" "") <$> mget (Envs w) p) ++
  ((λ k, if Item_IsFolder k then mkStoredRuleItem "" ruleAxisFolder p "" "" (Item_Folder k)
         else mkStoredRuleItem "" ruleAxisKey p "" (Item_KeyID k) "") <$> mget (Keys w) p).

Definition itemsOf (w : Where) : list StoredRuleItem :=
  ((λ p, mkStoredRuleItem "" ruleAxisProject p "" "" "") <$> Projects w) ++
  (Projects w ≫= items_of_project w).

(** ** The tables

    One record per table the resolution queries read, with the columns they
    select; nullable text columns are [""] when null, as the queries' COALESCE
    and the [.String] fields read them. Each table is listed in primary-key
    order, which is the order [ORDER BY r.id, i.id] asks for. *)

Record ProjectRow := mkProjectRow {
  pj_org : OrgID; pj_id : ProjectID; pj_machine_reveal : bool; pj_generation : Z }.

Record EnvRow := mkEnvRow {
  ev_org : OrgID; ev_project : ProjectID; ev_id : EnvID;
  ev_protected : bool; ev_window : option Z }.

Record PrincipalRow := mkPrincipalRow {
  pr_id : PrincipalID; pr_kind : string; pr_privacy_state : string; pr_reconciled_epoch : Z }.

Record GrantRow := mkGrantRow {
  gr_principal : PrincipalID; gr_capability : string;
  gr_org : OrgID; gr_project : ProjectID; gr_env : EnvID }.

(** [access_grants]: a grant row with its absolute expiry. *)
Record AccessGrantRow := mkAccessGrantRow { ag_grant : GrantRow; ag_expires_at : Z }.

Record RuleRow := mkRule_Row {
  ru_id : string; ru_principal : PrincipalID; ru_capability : string; ru_org : OrgID;
  ru_env_mode : string; ru_key_mode : string }.

Record RuleItemRow := mkRuleItemRow { ri_rule : string; ri_item : StoredRuleItem }.

Record KeyRow := mkKeyRow {
  ke_org : OrgID; ke_project : ProjectID; ke_id : string; ke_name : string; ke_folder : string }.

Record PendingRow := mkPendingRow {
  pe_scope : Scope; pe_id : string; pe_key : string; pe_owner : PrincipalID;
  pe_staged_from_entry : string }.

(** [key_ids] is a JSON array of strings; [None] stands for text that does not
    parse as one. *)
Record ApprovalRow := mkApprovalRow {
  ap_scope : Scope; ap_id : string; ap_key_ids : option (list string) }.

Record ValueRow := mkValueRow { va_scope : Scope; va_key : string }.

Record DB := mkDB {
  orgs : list OrgID;
  projects : list ProjectRow;
  environments : list EnvRow;
  principals : list PrincipalRow;
  db_grants : list GrantRow;
  access_grants : list AccessGrantRow;
  db_rules : list RuleRow;
  rule_items : list RuleItemRow;
  db_keys : list KeyRow;
  pending_changes : list PendingRow;
  approval_requests : list ApprovalRow;
  value_entries : list ValueRow;
  restore_epoch : Z;
  self_config_org_id : OrgID }.

(** The first row of a [:one] query; no row is [ErrNotFound] ([notFoundOr]). *)
Definition query_one {A} (rows : list A) (where_ : A → bool) : result error A :=
  match filter (λ r, where_ r = true) rows with
  | r :: _ => Ok r
  | [] => Err ErrNotFound
  end.

(** ** Chains *)

Definition resolveOrg (db : DB) (s : Scope) : result error Scope :=
  let! id := query_one (orgs db) (λ o, bool_decide (o = Org s)) in Ok (mkScope id "" "").

Definition resolveProject (db : DB) (s : Scope) : result error Scope :=
  let! row := query_one (projects db)
    (λ r, bool_decide (pj_org r = Org s) && bool_decide (pj_id r = Project s)) in
  Ok (mkScope (pj_org row) (pj_id row) "").

Definition resolveEnv (db : DB) (s : Scope) : result error Scope :=
  let! row := query_one (environments db)
    (λ r, bool_decide (ev_org r = Org s) && bool_decide (ev_project r = Project s)
          && bool_decide (ev_id r = Env s)) in
  Ok (mkScope (ev_org row) (ev_project row) (ev_id row)).

Definition db_ResolveChain (db : DB) (s : Scope) : result error Scope :=
  let! level := ScopeLevel s in
  match level with
  | LevelOrg => resolveOrg db s
  | LevelProject => resolveProject db s
  | LevelEnv => resolveEnv db s
  | LevelNone => Err (Loud "authn: cannot resolve an empty scope")
  end.

(** ** Grants *)

(** The principal gates every policy lookup carries. *)
Definition live_principal (db : DB) (p : PrincipalID) (kinds : string → bool) : bool :=
  existsb (λ row, bool_decide (pr_id row = p) && kinds (pr_kind row)
    && bool_decide (pr_privacy_state row = "active")
    && (restore_epoch db <=? pr_reconciled_epoch row)%Z) (principals db).

Definition ListGrantsForPrincipal (db : DB) (now : Z) (p : PrincipalID) : list GrantRow :=
  if live_principal db p (λ _, true) then
    filter (λ g, gr_principal g = p) (db_grants db) ++
    (ag_grant <$> filter (λ a, gr_principal (ag_grant a) = p ∧ (now < ag_expires_at a)%Z)
       (access_grants db))
  else [].

Definition grantFrom (row : GrantRow) : result error Grant :=
  let s := mkScope (gr_org row) (gr_project row) (gr_env row) in
  match ScopeLevel s with
  | Ok _ => Ok (mkGrant (gr_capability row) s)
  | Err _ => Err (Loud "authn: grant row")
  end.

(** The conversion loop; every row carries the instance's binding, and the
    field keeps the last one read. *)
Fixpoint grants_loop (bound sc : OrgID) (rows : list GrantRow) (out : list Grant)
  : result error (list Grant) * OrgID :=
  match rows with
  | [] => (Ok out, sc)
  | row :: rest =>
      match grantFrom row with
      | Err e => (Err e, bound)
      | Ok g => grants_loop bound bound rest (out ++ [g])
      end
  end.

Definition db_Grants (db : DB) (now : Z) (p : PrincipalID) : result error (list Grant) * OrgID :=
  grants_loop (self_config_org_id db) "" (ListGrantsForPrincipal db now p) [].

(** ** Rules *)

Definition rule_rows (r : RuleRow) (items : list RuleItemRow) : list ruleRow :=
  (λ it, mkRuleRow (ru_id r) (ru_principal r) (ru_capability r) (ru_org r)
           (ru_env_mode r) (ru_key_mode r) (ri_item it)) <$>
  filter (λ it, ri_rule it = ru_id r) items.

(** One row per item; the two tables are kept in id order, the query's order. *)
Definition ListRulesForPrincipal (db : DB) (p : PrincipalID) : list ruleRow :=
  if live_principal db p (λ k, bool_decide (k = "human")) then
    filter (λ r, ru_principal r = p) (db_rules db) ≫= λ r, rule_rows r (rule_items db)
  else [].

Definition db_Rules (db : DB) (p : PrincipalID) : result error (list Rule) :=
  Ok (rulesOf (foldRules (ListRulesForPrincipal db p))).

(** ** Key metadata *)

Definition db_ResolveRuleKey (db : DB) (org : OrgID) (project : ProjectID) (id name : string)
  : result error RuleKey :=
  if Bool.eqb (bool_decide (id = "")) (bool_decide (name = "")) then
    Err (Loud "authn: a key is resolved by exactly one of id or name")
  else
    let! row := query_one (db_keys db) (λ k,
      bool_decide (ke_org k = org) && bool_decide (ke_project k = project)
      && if bool_decide (id ≠ "") then bool_decide (ke_id k = id)
         else bool_decide (ke_name k = name)) in
    Ok (mkRuleKey (ke_id row) (ke_folder row)).

Definition db_ResolveRulePendingKey (db : DB) (s : Scope) (owner : PrincipalID) (id : string)
  : result error RuleKey :=
  let! pk := query_one
    (pending_changes db ≫= λ p, (λ k, (p, k)) <$> filter (λ k,
       ke_org k = Org (pe_scope p) ∧ ke_project k = Project (pe_scope p) ∧ ke_id k = pe_key p)
       (db_keys db))
    (λ pk, bool_decide (pe_scope pk.1 = s) && bool_decide (pe_owner pk.1 = owner)
           && bool_decide (pe_id pk.1 = id)) in
  Ok (mkRuleKey (ke_id pk.2) (ke_folder pk.2)).

(** The refusal path still issues the key read. *)
Definition refuseRuleApprovalKey (db : DB) (s : Scope) : result error RuleKey :=
  match db_ResolveRuleKey db (Org s) (Project s) "approval-no-key" "" with
  | Err (Loud m) => Err (Loud m)
  | _ => Err ErrNotFound
  end.

Definition db_ResolveRuleApprovalKey (db : DB) (s : Scope) (id : string) : result error RuleKey :=
  match query_one (approval_requests db)
          (λ a, bool_decide (ap_scope a = s) && bool_decide (ap_id a = id)) with
  | Err _ => refuseRuleApprovalKey db s
  | Ok row =>
      match ap_key_ids row with
      | None | Some [] => refuseRuleApprovalKey db s
      | Some (first :: rest) =>
          if negb (distinct_ok bad_id [] (first :: rest)) then refuseRuleApprovalKey db s
          else db_ResolveRuleKey db (Org s) (Project s) first ""
      end
  end.

(** ** Cells and settings *)

Definition db_RuleKeyHasValue (db : DB) (s : Scope) (key : string) : result error bool :=
  Ok (Nat.ltb 0 (length (filter (λ v, va_scope v = s ∧ va_key v = key) (value_entries db)))).

Definition db_RuleKeyHasConflictingDraft (db : DB) (s : Scope) (key : string)
    (principal : PrincipalID) : result error bool :=
  Ok (Nat.ltb 0 (length (filter (λ p, pe_scope p = s ∧ pe_key p = key ∧
        (pe_owner p ≠ principal ∨ pe_staged_from_entry p ≠ "")) (pending_changes db)))).

Definition db_EnvironmentReauthSettings (db : DB) (env : EnvID)
  : result error EnvironmentSettings :=
  let! row := query_one (environments db) (λ r, bool_decide (ev_id r = env)) in
  Ok (mkEnvironmentSettings (ev_protected row) (bool_decide (is_Some (ev_window row)))
        (int64 (default 0 (ev_window row) * 1000000000))%Z).

Definition db_ProjectMachineReveal (db : DB) (project : ProjectID)
  : result error MachineRevealState :=
  let! row := query_one (projects db) (λ r, bool_decide (pj_id r = project)) in
  Ok (mkMachineRevealState (pj_machine_reveal row) (pj_generation row)).

(** The surface bound to one snapshot and one evaluation clock. *)
Definition db_resolver (db : DB) (now : Z) : Resolver :=
  mkResolver (db_ResolveChain db) (db_Grants db now) (db_Rules db) (db_ResolveRuleKey db)
    (db_ResolveRulePendingKey db) (db_ResolveRuleApprovalKey db) (db_RuleKeyHasValue db)
    (db_RuleKeyHasConflictingDraft db) (db_EnvironmentReauthSettings db)
    (db_ProjectMachineReveal db).

(** ** The laws hold *)

Lemma query_one_Ok {A} (rows : list A) where_ r :
  query_one rows where_ = Ok r → r ∈ rows ∧ where_ r = true.
Proof.
  unfold query_one. destruct (filter _ rows) as [|x l] eqn:E; [done|]. intros [= <-].
  assert (x ∈ filter (λ r, where_ r = true) rows) as H by (rewrite E; set_solver).
  apply list_elem_of_filter in H. tauto.
Qed.

Lemma query_one_Err {A} (rows : list A) where_ e :
  query_one rows where_ = Err e → e = ErrNotFound ∧ ∀ r, r ∈ rows → where_ r = false.
Proof.
  unfold query_one. destruct (filter _ rows) as [|x l] eqn:E; [|done]. intros [= <-].
  split; [done|]. intros r Hr. destruct (where_ r) eqn:Hw; [|done].
  assert (r ∈ filter (λ r, where_ r = true) rows) as H by (by apply list_elem_of_filter).
  rewrite E in H. by apply elem_of_nil in H.
Qed.

Lemma ScopeLevel_error s e : ScopeLevel s = Err e → loud e.
Proof.
  rewrite ScopeLevel_cases. repeat case_decide; intros; simplify_eq; unfold loud, ErrScopeGap; eauto.
Qed.

Lemma db_chain_exact db s c : db_ResolveChain db s = Ok c → c = s.
Proof.
  unfold db_ResolveChain. rewrite ScopeLevel_cases.
  destruct s as [o p e]. repeat case_decide; simpl in *; try done;
    unfold resolveOrg, resolveProject, resolveEnv; intros Hres;
    apply rbind_Ok in Hres as (row & Hrow & [= <-]); apply query_one_Ok in Hrow as [_ Hw];
    bsimp; naive_solver.
Qed.

Lemma query_bind_error {A B} (rows : list A) where_ (f : A → B) e :
  (let! row := query_one rows where_ in Ok (f row)) = Err e → e = ErrNotFound ∨ loud e.
Proof.
  intros [H|(? & _ & ?)]%rbind_Err; [|done]. apply query_one_Err in H as [-> _]. by left.
Qed.

Lemma db_chain_error db s e : db_ResolveChain db s = Err e → e = ErrNotFound ∨ loud e.
Proof.
  unfold db_ResolveChain. intros [H|(l & _ & H)]%rbind_Err.
  - right. by eapply ScopeLevel_error.
  - destruct l; [right; simplify_eq; by eexists|..];
      (eapply query_bind_error; exact H).
Qed.

Lemma grants_loop_error bound sc rows out e :
  (grants_loop bound sc rows out).1 = Err e → loud e.
Proof.
  revert sc out. induction rows as [|row rows IH]; intros sc out; simpl; [done|].
  unfold grantFrom. destruct (ScopeLevel _); simpl; [apply IH|].
  intros [= <-]. by eexists.
Qed.

Lemma foldRules_valid rows s : s ∈ foldRules rows → Validate (SR_Rule s) = Ok tt.
Proof.
  unfold foldRules. generalize (@None StoredRule) false.
  assert (∀ cur bad, s ∈ flush cur bad → Validate (SR_Rule s) = Ok tt) as Hflush.
  { intros [s'|] bad; simpl; [|by intros ?%elem_of_nil].
    destruct (negb bad && _) eqn:E; [|by intros ?%elem_of_nil].
    intros ->%list_elem_of_singleton. apply andb_true_iff in E as [_ E].
    by apply is_ok_true in E as [[] ?]. }
  induction rows as [|row rows IH]; intros cur bad; simpl; [apply Hflush|].
  destruct cur as [s'|]; [case_bool_decide|];
    repeat match goal with |- context [add_row ?a ?b ?c] => destruct (add_row a b c) end;
    try apply IH.
  intros [Hs|Hs]%elem_of_app; [by eapply Hflush|by eapply IH].
Qed.

Lemma db_key_error db o p id name e :
  db_ResolveRuleKey db o p id name = Err e → e = ErrNotFound ∨ loud e.
Proof.
  unfold db_ResolveRuleKey. bcase; [intros [= <-]; right; by eexists|].
  apply query_bind_error.
Qed.

Lemma db_key_exact db o p id k : db_ResolveRuleKey db o p id "" = Ok k → Key_ID k = id.
Proof.
  unfold db_ResolveRuleKey. rewrite (bool_decide_true ("" = "")) by done.
  case_bool_decide as Hid; [done|]. simpl. rewrite bool_decide_true by done.
  intros (row & Hrow & [= <-])%rbind_Ok. apply query_one_Ok in Hrow as [_ Hw]. bsimp. simpl. tauto.
Qed.

Lemma db_refuse_error db s e : refuseRuleApprovalKey db s = Err e → e = ErrNotFound ∨ loud e.
Proof. unfold refuseRuleApprovalKey, loud. repeat case_match; intros; simplify_eq; eauto. Qed.

Lemma db_settings_present db s c :
  db_ResolveChain db s = Ok c → Env c ≠ "" →
  ∃ st, db_EnvironmentReauthSettings db (Env c) = Ok st.
Proof.
  intros H Hc. pose proof (db_chain_exact _ _ _ H) as ->. revert H.
  unfold db_ResolveChain. destruct (ScopeLevel s) as [l|] eqn:Hl; [|done].
  rewrite ScopeLevel_cases in Hl. simpl.
  assert (l = LevelEnv) as -> by (repeat case_decide; naive_solver).
  intros (row & Hrow & _)%rbind_Ok. apply query_one_Ok in Hrow as [Hin Hw]. bsimp.
  unfold db_EnvironmentReauthSettings.
  destruct (query_one (environments db) _) as [r|e] eqn:E; [by eexists|].
  apply query_one_Err in E as [_ E]. specialize (E row Hin). bsimp. tauto.
Qed.

#[export] Instance db_resolver_laws db now : ResolverLaws (db_resolver db now).
Proof.
  split; simpl.
  - apply db_chain_exact.
  - apply db_chain_error.
  - intros p e. apply grants_loop_error.
  - done.
  - intros p rs r [= <-] (s & -> & Hs)%list_elem_of_fmap. by eapply foldRules_valid.
  - intros *. apply db_key_error.
  - apply db_key_exact.
  - intros *. apply query_bind_error.
  - intros s id e. unfold db_ResolveRuleApprovalKey.
    repeat case_match; eauto using db_refuse_error, db_key_error.
  - done.
  - done.
  - intros s c e Hc Hne He. destruct (db_settings_present db s c) as [st Hst]; congruence.
  - intros *. apply query_bind_error.
Qed.
