(* ===== verification/RuleStore.v ===== *)
(** * Storing and loading rules: [internal/store/authn/rules.go]

    [CreateRule] writes a rule as one row plus one row per selector item
    ([itemsOf]); [Rules] reads the joined rows back in item-id order and folds
    them ([foldRules]). Item ids are minted at random, so the read order of the
    items is arbitrary: selectors are compared up to the order of their lists,
    [where_equiv], under which validity and reach are invariant. *)

From stdpp Require Import prelude gmap strings list.
From S2P Require Import Prelude StringFacts Domain Rule Resolver.

(** ** Selectors up to item order *)

Record where_equiv (w w' : Where) : Prop := {
  we_projects : Projects w ≡ₚ Projects w';
  we_envmode : EnvMode w = EnvMode w';
  we_envs : ∀ p, mget (Envs w) p ≡ₚ mget (Envs w') p;
  we_keymode : KeyMode w = KeyMode w';
  we_keys : ∀ p, mget (Keys w) p ≡ₚ mget (Keys w') p }.

#[export] Instance where_equiv_equivalence : Equivalence where_equiv.
Proof.
  split.
  - intros w. by split.
  - intros w w' []. by split.
  - intros w1 w2 w3 [] []. split; intros; etrans; eauto.
Qed.

(** Two stored forms of one rule. *)
Record rule_equiv (r r' : Rule) : Prop := {
  re_id : Rule_ID r = Rule_ID r';
  re_principal : Rule_Principal r = Rule_Principal r';
  re_capability : Rule_Capability r = Rule_Capability r';
  re_org : Rule_Org r = Rule_Org r';
  re_where : where_equiv (Rule_Where r) (Rule_Where r') }.

#[export] Instance rule_equiv_equivalence : Equivalence rule_equiv.
Proof.
  split.
  - intros r. by split.
  - intros r r' []. by split.
  - intros r1 r2 r3 [] []. split; etrans; eauto.
Qed.

#[export] Instance Contains_Proper {A} `{EqDecision A} : Proper ((≡ₚ) ==> (=) ==> (=)) (@Contains A _).
Proof.
  intros l l' Hl x ? <-. unfold Contains. apply bool_decide_ext. by rewrite Hl.
Qed.

#[export] Instance existsb_Proper {A} (f : A → bool) : Proper ((≡ₚ) ==> (=)) (existsb f).
Proof.
  intros l l' Hl. apply eq_true_iff_eq. rewrite !existsb_true. by setoid_rewrite Hl.
Qed.

#[export] Instance reaches_level_Proper :
  Proper (where_equiv ==> (=) ==> (=) ==> (=) ==> (=) ==> (=)) reaches_level.
Proof.
  intros w w' [Hp Hm He Hk Hks] c ? <- l ? <- s ? <- key ? <-. unfold reaches_level.
  rewrite Hm. specialize (He (Project s)).
  by destruct l; rewrite ?He.
Qed.

#[export] Instance Reaches_Proper :
  Proper (rule_equiv ==> (=) ==> (=) ==> (=) ==> (=) ==> (=)) Reaches.
Proof.
  intros r r' [Hid Hpr Hc Ho Hw] c ? <- l ? <- s ? <- key ? <-. unfold Reaches, ContainsFunc.
  rewrite Hc, Ho.
  assert (reaches_level (Rule_Where r) c l s key = reaches_level (Rule_Where r') c l s key)
    as -> by (by rewrite Hw).
  destruct Hw as [Hp _ _ Hk Hks]. specialize (Hks (Project s)).
  rewrite Hp, Hk. destruct key as [k|]; by rewrite !Hks.
Qed.

(** ** Validity is invariant *)

Lemma items_total_insert {A} (m : gmap ProjectID (list A)) p l :
  m !! p = None → items_total (<[p:=l]> m) = length l + items_total m.
Proof. intros Hp. unfold items_total. by rewrite map_to_list_insert. Qed.

(** The item count of a map, summed over any duplicate-free list of keys that
    holds every key with items. *)
Lemma items_total_over {A} (m : gmap ProjectID (list A)) ps :
  NoDup ps → (∀ p, mget m p ≠ [] → p ∈ ps) →
  items_total m = sum_list ((λ p, length (mget m p)) <$> ps).
Proof.
  intros Hnd. induction m as [|p l m Hp IH] using map_ind; intros Hps.
  - change (0 = sum_list ((λ p, length (mget (∅ : gmap ProjectID (list A)) p)) <$> ps)).
    clear. induction ps as [|q ps IH]; simpl; [done|]. unfold mget at 1.
    by rewrite lookup_empty.
  - rewrite items_total_insert by done. rewrite IH.
    2:{ intros q Hq. apply Hps. unfold mget in *. destruct (decide (p = q)) as [->|].
        - by rewrite Hp in Hq.
        - by rewrite lookup_insert_ne. }
    assert (∀ qs : list ProjectID, p ∉ qs → (λ q, length (mget (<[p:=l]> m) q)) <$> qs =
                         (λ q, length (mget m q)) <$> qs) as Hout.
    { intros qs Hqs. apply list_fmap_ext. intros i q Hq. unfold mget.
      rewrite lookup_insert_ne; [done|]. intros ->. apply Hqs. by eapply list_elem_of_lookup_2. }
    assert (mget (<[p:=l]> m) p = l) as Hpl by (unfold mget; by rewrite lookup_insert_eq).
    assert (mget m p = []) as Hm0 by (unfold mget; by rewrite Hp).
    destruct (decide (p ∈ ps)) as [Hin|Hin].
    + apply list_elem_of_split in Hin as (l1 & l2 & ->).
      apply NoDup_app in Hnd as (_ & Hd & Hnd2). apply NoDup_cons in Hnd2 as [Hp2 _].
      assert (p ∉ l1) as Hp1 by (intros Hin; apply (Hd p Hin); set_solver).
      rewrite !fmap_app, !fmap_cons, !Hout, Hpl, Hm0, !sum_list_with_app by done. simpl. lia.
    + rewrite Hout by done. destruct l as [|x l]; [done|].
      exfalso. apply Hin, Hps. by rewrite Hpl.
Qed.

Lemma any_items_equiv {A} (m m' : gmap ProjectID (list A)) :
  (∀ p, mget m p ≡ₚ mget m' p) → any_items m = any_items m'.
Proof.
  intros H. apply eq_true_iff_eq. rewrite !any_items_true.
  split; intros (p & x & Hx); exists p, x; [by rewrite <-H|by rewrite H].
Qed.

Lemma items_total_equiv {A} (m m' : gmap ProjectID (list A)) ps :
  NoDup ps → (∀ p, mget m p ≠ [] → p ∈ ps) →
  (∀ p, mget m p ≡ₚ mget m' p) → items_total m = items_total m'.
Proof.
  intros Hnd Hps H. rewrite (items_total_over m ps), (items_total_over m' ps); try done.
  - f_equal. apply list_fmap_ext. intros i p _. by rewrite H.
  - intros p Hp. apply Hps. intros Hm. specialize (H p). rewrite Hm in H.
    by apply Permutation_nil_l in H.
Qed.

(** A map as [foldRules] builds it holds no empty list. *)
Definition no_empty {A} (m : gmap ProjectID (list A)) : Prop :=
  ∀ p items, m !! p = Some items → items ≠ [].

Lemma mget_elem {A} (m : gmap ProjectID (list A)) p :
  mget m p ≠ [] → m !! p = Some (mget m p).
Proof. unfold mget. by destruct (m !! p). Qed.

Lemma mget_empty {A} p : mget (∅ : gmap ProjectID (list A)) p = [].
Proof. unfold mget. by rewrite lookup_empty. Qed.

Lemma mget_lookup {A} (m : gmap ProjectID (list A)) p items :
  m !! p = Some items → mget m p = items.
Proof. unfold mget. by intros ->. Qed.

(** The items of one project satisfy what the rule's own list satisfied. *)
Lemma axis_wf_equiv {A} (m m' : gmap ProjectID (list A))
    (ps : list ProjectID) (P : A → Prop) :
  no_empty m' → (∀ p, mget m p ≡ₚ mget m' p) →
  (∀ p items, m !! p = Some items → p ∈ ps ∧ NoDup items ∧ ∀ x, x ∈ items → P x) →
  ∀ p items, m' !! p = Some items → p ∈ ps ∧ NoDup items ∧ ∀ x, x ∈ items → P x.
Proof.
  intros Hne H Hm p items Hp. specialize (H p). rewrite (mget_lookup m' p items) in H by done.
  specialize (Hm p (mget m p)). rewrite mget_elem in Hm.
  - destruct Hm as (Hin & Hnd & HP); [done|]. split; [done|].
    rewrite <-H. split; [done|]. intros x Hx. apply HP. by rewrite H.
  - intros Hm0. rewrite Hm0 in H. apply Permutation_nil_l in H. by apply (Hne p items).
Qed.

Lemma rule_wf_equiv r r' :
  rule_equiv r r' → no_empty (Envs (Rule_Where r')) → no_empty (Keys (Rule_Where r')) →
  rule_wf r → rule_wf r'.
Proof.
  intros [Hid Hpr Hc Ho [Hp Hem He Hkm Hk]] Hne Hnk [].
  assert (KeyNarrowed (Rule_Where r) = KeyNarrowed (Rule_Where r')) as HK.
  { unfold KeyNarrowed. by rewrite Hkm, (any_items_equiv _ _ Hk). }
  assert (EnvNarrowed (Rule_Where r) = EnvNarrowed (Rule_Where r')) as HE.
  { unfold EnvNarrowed. by rewrite Hem, (any_items_equiv _ _ He). }
  assert (items_total (Envs (Rule_Where r)) = items_total (Envs (Rule_Where r'))) as HtE.
  { apply (items_total_equiv _ _ (Projects (Rule_Where r))); [tauto| |done].
    intros p Hm%mget_elem. by eapply wf_envs. }
  assert (items_total (Keys (Rule_Where r)) = items_total (Keys (Rule_Where r'))) as HtK.
  { apply (items_total_equiv _ _ (Projects (Rule_Where r))); [tauto| |done].
    intros p Hm%mget_elem. by eapply wf_keys. }
  split; rewrite <-?Ho, <-?Hc, <-?Hem, <-?Hkm, <-?HK, <-?HE, <-?HtE, <-?HtK, <-?Hp; try done.
  - intros Hnil. rewrite Hnil in Hp. by apply Permutation_nil_r in Hp.
  - intros p items Hlk. rewrite <-Hp.
    destruct (axis_wf_equiv _ _ (Projects (Rule_Where r)) (λ e, e ≠ "") Hne He) with p items
      as (? & ? & Hx); [|done|].
    + intros q its Hq. destruct (wf_envs q its Hq) as (? & ? & Hn). split_and!; [done..|].
      intros x Hx ->. done.
    + split_and!; [done..|]. intros Hin. by apply (Hx "").
  - intros Hm. destruct (wf_only_envs Hm) as (p & e & Hin). exists p, e. by rewrite <-He.
  - intros p items Hlk. rewrite <-Hp.
    by apply (axis_wf_equiv _ _ (Projects (Rule_Where r)) (λ k, bad_item k = false) Hnk Hk).
  - intros Hm. destruct (wf_only_keys Hm) as (p & e & Hin). exists p, e. by rewrite <-Hk.
Qed.

(** ** What [foldRules] reads *)

Fixpoint load_where (w : Where) (its : list StoredRuleItem) : option Where :=
  match its with
  | [] => Some w
  | it :: rest => match add_item w it with Some w' => load_where w' rest | None => None end
  end.

Definition proj_of (it : StoredRuleItem) : option ProjectID :=
  if bool_decide (Axis it = ruleAxisProject) then Some (SI_Project it) else None.

Definition env_of (p : ProjectID) (it : StoredRuleItem) : option EnvID :=
  if bool_decide (Axis it = ruleAxisEnv) && bool_decide (SI_Project it = p)
  then Some (SI_Env it) else None.

Definition key_of (p : ProjectID) (it : StoredRuleItem) : option RuleKeyItem :=
  if negb (bool_decide (SI_Project it = p)) then None
  else if bool_decide (Axis it = ruleAxisKey) then Some (mkItem "" (SI_KeyID it) false)
  else if bool_decide (Axis it = ruleAxisFolder) then Some (mkItem (SI_Folder it) "" true)
  else None.

Definition known_axis (it : StoredRuleItem) : Prop :=
  Axis it = ruleAxisProject ∨ Axis it = ruleAxisEnv ∨
  Axis it = ruleAxisKey ∨ Axis it = ruleAxisFolder.

Lemma mget_map_append {A} (m : gmap ProjectID (list A)) k x p :
  mget (map_append m k x) p = mget m p ++ (if bool_decide (k = p) then [x] else []).
Proof.
  unfold map_append, mget at 1. case_bool_decide as E.
  - subst. by rewrite lookup_insert_eq.
  - rewrite lookup_insert_ne by done. by rewrite app_nil_r.
Qed.

Lemma no_empty_map_append {A} (m : gmap ProjectID (list A)) k x :
  no_empty m → no_empty (map_append m k x).
Proof.
  intros H p items. unfold map_append. destruct (decide (k = p)) as [->|].
  - rewrite lookup_insert_eq. intros [= <-]. by destruct (mget m p).
  - rewrite lookup_insert_ne by done. apply H.
Qed.

(** What one or more items add to a selector. *)
Record extends (w w' : Where) (its : list StoredRuleItem) : Prop := {
  ex_projects : Projects w' = Projects w ++ omap proj_of its;
  ex_envmode : EnvMode w' = EnvMode w;
  ex_envs : ∀ p, mget (Envs w') p = mget (Envs w) p ++ omap (env_of p) its;
  ex_keymode : KeyMode w' = KeyMode w;
  ex_keys : ∀ p, mget (Keys w') p = mget (Keys w) p ++ omap (key_of p) its;
  ex_no_empty : no_empty (Envs w) → no_empty (Keys w) → no_empty (Envs w') ∧ no_empty (Keys w') }.

Lemma add_item_extends w it :
  known_axis it → ∃ w', add_item w it = Some w' ∧ extends w w' [it].
Proof.
  unfold known_axis, add_item. destruct it as [id ax pr en ke fo]. simpl.
  intros Hax.
  destruct Hax as [->|[->|[->| ->]]]; simpl; (eexists; split; [reflexivity|]);
    split; simpl; unfold proj_of, env_of, key_of; simpl; rewrite ?app_nil_r; try done;
    intros; rewrite ?mget_map_append; try case_bool_decide; simpl; rewrite ?app_nil_r;
    eauto using no_empty_map_append.
Qed.

Lemma load_where_extends w its :
  Forall known_axis its → ∃ w', load_where w its = Some w' ∧ extends w w' its.
Proof.
  intros H. revert w. induction H as [|it its Hit _ IH]; intros w; simpl.
  { exists w. split; [done|]. split; simpl; try done; intros; by rewrite app_nil_r. }
  destruct (add_item_extends w it Hit) as (w1 & -> & H1).
  destruct (IH w1) as (w2 & -> & H2). exists w2. split; [done|].
  destruct H1 as [P1 M1 E1 N1 K1 Z1], H2 as [P2 M2 E2 N2 K2 Z2].
  split; [|congruence| |congruence| |intros; destruct Z1; auto].
  - rewrite P2, P1, <-app_assoc. f_equal. by rewrite <-omap_app.
  - intros p. rewrite E2, E1, <-app_assoc. f_equal. by rewrite <-omap_app.
  - intros p. rewrite K2, K1, <-app_assoc. f_equal. by rewrite <-omap_app.
Qed.

Lemma foldRules_loop_one s rows w :
  Forall (λ row, rr_id row = Rule_ID (SR_Rule s)) rows →
  load_where (Rule_Where (SR_Rule s)) (rr_item <$> rows) = Some w →
  foldRules_loop (Some s) false rows =
  flush (Some (mkStoredRule (set_where (SR_Rule s) w) (SR_Items s ++ (rr_item <$> rows)))) false.
Proof.
  intros H. revert s w H. induction rows as [|row rows IH]; intros s w H Hw; simpl in Hw.
  { injection Hw as <-. simpl. rewrite app_nil_r. by destruct s as [[] ?]. }
  inversion H as [|? ? Hid Hrest]; subst. simpl. rewrite bool_decide_true by done.
  unfold add_row. destruct (add_item _ _) as [w1|]; [|done].
  rewrite (IH _ w); [|done|done]. simpl. by rewrite <-app_assoc.
Qed.

(** ** What [itemsOf] writes *)

Lemma omap_bind {A B C} (f : B → option C) (g : A → list B) (l : list A) :
  omap f (l ≫= g) = l ≫= λ a, omap f (g a).
Proof. induction l as [|a l IH]; csimpl; [done|]. by rewrite omap_app, IH. Qed.

Lemma omap_fmap {A B C} (f : B → option C) (g : A → B) (l : list A) :
  omap f (g <$> l) = omap (f ∘ g) l.
Proof. induction l as [|a l IH]; csimpl; [done|]. unfold compose at 1. by rewrite IH. Qed.

Lemma omap_always {A B} (f : A → option B) (g : A → B) (l : list A) :
  (∀ a, a ∈ l → f a = Some (g a)) → omap f l = g <$> l.
Proof.
  induction l as [|a l IH]; intros H; csimpl; [done|]. rewrite (H a) by set_solver.
  rewrite IH; [done|]. set_solver.
Qed.

Lemma bind_single {A B} `{EqDecision A} (ps : list A) (p : A) (l : list B) :
  NoDup ps → p ∈ ps → (ps ≫= λ q, if bool_decide (q = p) then l else []) = l.
Proof.
  assert (∀ qs, p ∉ qs → (qs ≫= λ q, if bool_decide (q = p) then l else []) = []) as Hout.
  { induction qs as [|q qs IH]; intros Hq; csimpl; [done|].
    rewrite bool_decide_false by set_solver. apply IH. set_solver. }
  induction 1 as [|q qs Hq Hnd IH]; intros Hp; [by apply elem_of_nil in Hp|]. csimpl.
  apply elem_of_cons in Hp as [->|Hp].
  - rewrite bool_decide_true, Hout, app_nil_r by done. done.
  - rewrite bool_decide_false by (by intros ->). by apply IH.
Qed.

Lemma bind_nil {A B} (l : list A) : (l ≫= λ _, @nil B) = [].
Proof. by induction l. Qed.

Lemma itemsOf_projects w : omap proj_of (itemsOf w) = Projects w.
Proof.
  unfold itemsOf. rewrite omap_app, omap_fmap, omap_bind.
  rewrite (omap_always _ id) by done. rewrite list_fmap_id.
  rewrite (list_bind_ext _ (λ _, []) (Projects w) (Projects w)); [|intros p|done].
  - by rewrite bind_nil, app_nil_r.
  - apply omap_all_None. intros it [H|H]%elem_of_app;
      apply list_elem_of_fmap in H as (x & -> & _); [done|by destruct (Item_IsFolder x)].
Qed.

Lemma itemsOf_envs w p :
  NoDup (Projects w) → (mget (Envs w) p ≠ [] → p ∈ Projects w) →
  omap (env_of p) (itemsOf w) = mget (Envs w) p.
Proof.
  intros Hnd Hp. unfold itemsOf. rewrite omap_app, omap_fmap, omap_bind.
  rewrite omap_all_None by done. simpl.
  rewrite (list_bind_ext _ (λ q, if bool_decide (q = p) then mget (Envs w) p else [])
    (Projects w) (Projects w)); [|intros q|done].
  - destruct (decide (p ∈ Projects w)) as [Hin|Hin]; [by apply bind_single|].
    destruct (mget (Envs w) p); [|by destruct Hin; apply Hp].
    rewrite (list_bind_ext _ (λ _, []) (Projects w) (Projects w)); [apply bind_nil|
      intros q; by case_bool_decide|done].
  - unfold items_of_project. rewrite omap_app, !omap_fmap.
    rewrite (omap_all_None _ (mget (Keys w) q)), app_nil_r.
    2:{ intros k _. simpl. by destruct (Item_IsFolder k). }
    unfold compose, env_of. simpl. case_bool_decide as E.
    + subst. rewrite (omap_always _ id) by done. apply list_fmap_id.
    + by apply omap_all_None.
Qed.

(** Key items as the rule writer builds them: a single-key item names no
    folder. *)
Definition canonical (w : Where) : Prop :=
  ∀ p k, k ∈ mget (Keys w) p →
    if Item_IsFolder k then Item_KeyID k = "" else Item_Folder k = "".

Lemma itemsOf_keys w p :
  canonical w → NoDup (Projects w) → (mget (Keys w) p ≠ [] → p ∈ Projects w) →
  omap (key_of p) (itemsOf w) = mget (Keys w) p.
Proof.
  intros Hcan Hnd Hp. unfold itemsOf. rewrite omap_app, omap_fmap, omap_bind.
  rewrite omap_all_None.
  2:{ intros q _. unfold compose, key_of. simpl. by case_bool_decide. }
  simpl.
  rewrite (list_bind_ext _ (λ q, if bool_decide (q = p) then mget (Keys w) p else [])
    (Projects w) (Projects w)); [|intros q|done].
  - destruct (decide (p ∈ Projects w)) as [Hin|Hin]; [by apply bind_single|].
    destruct (mget (Keys w) p); [|by destruct Hin; apply Hp].
    rewrite (list_bind_ext _ (λ _, []) (Projects w) (Projects w)); [apply bind_nil|
      intros q; by case_bool_decide|done].
  - unfold items_of_project. rewrite omap_app, !omap_fmap.
    rewrite (omap_all_None _ (mget (Envs w) q)).
    2:{ intros k _. unfold compose, key_of. simpl. by case_bool_decide. }
    simpl. case_bool_decide as E.
    + subst. rewrite (omap_always _ id); [apply list_fmap_id|].
      intros k Hk. specialize (Hcan p k Hk). unfold compose, key_of.
      destruct k as [fo ke []]; simpl in *; rewrite bool_decide_true by done; by subst.
    + apply omap_all_None. intros k _. unfold compose, key_of.
      by destruct (Item_IsFolder k); simpl; rewrite bool_decide_false.
Qed.

Lemma itemsOf_known w : Forall known_axis (itemsOf w).
Proof.
  apply Forall_forall. intros it [H|H]%elem_of_app.
  - apply list_elem_of_fmap in H as (p & -> & _). by left.
  - apply list_elem_of_bind in H as (p & [H|H]%elem_of_app & _);
      apply list_elem_of_fmap in H as (x & -> & _); unfold known_axis; simpl; [tauto|].
    destruct (Item_IsFolder x); simpl; tauto.
Qed.

(** ** The round trip *)

(** One item row as stored, less the id it was stored under. *)
Definition strip_id (it : StoredRuleItem) : StoredRuleItem :=
  mkStoredRuleItem "" (Axis it) (SI_Project it) (SI_Env it) (SI_KeyID it) (SI_Folder it).

(** The joined row of a rule and one of its items. *)
Definition row_of (r : Rule) (it : StoredRuleItem) : ruleRow :=
  mkRuleRow (Rule_ID r) (Rule_Principal r) (Rule_Capability r) (Rule_Org r)
    (EnvMode (Rule_Where r)) (KeyMode (Rule_Where r)) it.

Lemma omap_strip {B} (f : StoredRuleItem → option B) its its' :
  (∀ it, f (strip_id it) = f it) → strip_id <$> its ≡ₚ its' → omap f its ≡ₚ omap f its'.
Proof.
  intros Hf <-. rewrite omap_fmap. apply reflexive_eq.
  induction its as [|it its IH]; csimpl; [done|]. unfold compose at 1. by rewrite Hf, IH.
Qed.

(** The selector of a rule's row before its items are read. *)
Definition empty_where (r : Rule) : Where :=
  mkWhere [] (EnvMode (Rule_Where r)) ∅ (KeyMode (Rule_Where r)) ∅.

Lemma loaded_equiv r its w :
  rule_wf r → canonical (Rule_Where r) → strip_id <$> its ≡ₚ itemsOf (Rule_Where r) →
  extends (empty_where r) w its → rule_equiv (set_where r w) r.
Proof.
  intros Hwf Hcan Hits [HP HM HE HN HK _].
  destruct (wf_projects_distinct r Hwf) as [Hnd _].
  split; simpl; try done. split; simpl; try done.
  - rewrite HP. simpl. rewrite (omap_strip proj_of its _) by done. by rewrite itemsOf_projects.
  - intros p. rewrite HE. simpl. rewrite mget_empty. simpl.
    rewrite (omap_strip (env_of p) its _) by done. rewrite itemsOf_envs; [done|done|].
    intros Hm%mget_elem. by eapply wf_envs.
  - intros p. rewrite HK. simpl. rewrite mget_empty. simpl.
    rewrite (omap_strip (key_of p) its _) by done. rewrite itemsOf_keys; [done|done|done|].
    intros Hm%mget_elem. by eapply wf_keys.
Qed.

Lemma foldRules_one r its w :
  its ≠ [] → load_where (empty_where r) its = Some w → Validate (set_where r w) = Ok tt →
  rulesOf (foldRules (row_of r <$> its)) = [set_where r w].
Proof.
  intros Hne Hload Hv. destruct its as [|it its]; [done|].
  unfold foldRules. simpl. unfold add_row at 1. simpl in Hload.
  destruct (add_item (empty_where r) it) as [w1|] eqn:Hadd; [|done].
  unfold row_rule. simpl. unfold empty_where in Hadd. rewrite Hadd.
  rewrite (foldRules_loop_one _ _ w).
  - simpl. unfold set_where in *. simpl. by rewrite Hv.
  - apply Forall_fmap, Forall_forall. done.
  - simpl. rewrite <-list_fmap_compose. unfold compose. simpl. by rewrite list_fmap_id.
Qed.

(** A stored rule survives the round trip. A valid rule written as item rows
    and read back in any order of those rows is one rule, with the same id,
    principal, capability, organisation and selector (up to item order), that
    reaches exactly the same atoms, chains and keys. *)
Theorem rule_store_round_trip r its :
  Validate r = Ok tt → canonical (Rule_Where r) →
  strip_id <$> its ≡ₚ itemsOf (Rule_Where r) →
  ∃ r', rulesOf (foldRules (row_of r <$> its)) = [r'] ∧ rule_equiv r' r ∧
    ∀ c l s key, Reaches r' c l s key = Reaches r c l s key.
Proof.
  intros Hv Hcan Hits. apply Validate_wf in Hv as Hwf.
  assert (Forall known_axis its) as Hknown.
  { pose proof (itemsOf_known (Rule_Where r)) as Hk. rewrite <-Hits in Hk.
    rewrite Forall_fmap in Hk. exact Hk. }
  destruct (load_where_extends (empty_where r) its Hknown) as (w & Hload & Hext).
  pose proof (loaded_equiv r its w Hwf Hcan Hits Hext) as Heq.
  assert (Validate (set_where r w) = Ok tt) as Hv'.
  { apply Validate_wf. destruct (ex_no_empty _ _ _ Hext);
      [by intros ??; simpl; intros ?%lookup_empty_Some..|].
    by apply (rule_wf_equiv r); [symmetry|..]. }
  exists (set_where r w). split; [|split; [done|intros; by rewrite Heq]].
  apply foldRules_one; [|done|done]. intros ->.
  pose proof (we_projects _ _ (re_where _ _ Heq)) as Hp. simpl in Hp.
  rewrite (ex_projects _ _ _ Hext) in Hp. simpl in Hp.
  apply Permutation_nil_l in Hp. by apply (wf_projects r Hwf).
Qed.

(** A rule with two projects, an environment exception and two key items, read
    back in reverse item order. *)
Definition demo_stored : Rule :=
  mkRule "rul_1" "alice" CapReveal "o1"
    (mkWhere ["p1"; "p2"] AxisAll {[ "p1" := ["e1"] ]} AxisOnly
       {[ "p1" := [mkItem "db/prod" "" true; mkItem "" "k7" false] ]}).

Lemma rule_store_round_trip_witness :
  ∃ r', rulesOf (foldRules (row_of demo_stored <$> reverse (itemsOf (Rule_Where demo_stored))))
    = [r'] ∧ rule_equiv r' demo_stored ∧
    ∀ c l s key, Reaches r' c l s key = Reaches demo_stored c l s key.
Proof.
  apply rule_store_round_trip.
  - vm_compute. reflexivity.
  - intros p k. unfold demo_stored. simpl. unfold mget.
    destruct (decide (p = "p1")) as [->|Hp].
    + rewrite lookup_singleton_eq. simpl. intros H.
      repeat apply elem_of_cons in H as [->|H]; [done|done|by apply elem_of_nil in H].
    + rewrite lookup_singleton_ne by done. simpl. intros H. by apply elem_of_nil in H.
  - vm_compute. apply Permutation_sym, Permutation_rev.
Defined.
