(* ===== verification/Tables.v ===== *)
(** * The closed name tables: audit event types and read-only store operations

    Two tables the operation registry is validated against: the key set of the
    closed audit catalogue ([audit.registry], [internal/audit/registry.go],
    read through [audit.Spec]) and [readOnlyStoreOps]
    ([internal/authz/registry.go]). The strings are the values of the Go
    constants. *)

From stdpp Require Import prelude gmap strings list.
From S2P Require Import Prelude.

Abbreviation Operation := string (only parsing).
Abbreviation StoreOp := string (only parsing).
Abbreviation EventType := string (only parsing).

(** The registered event types, in the order of the catalogue. *)
Definition audit_types : list EventType :=
  [
    "auth.request_refused"; "self_config.migrated"; "self_config.recovered";
    "self_config.status_read"; "self_config.adopted"; "self_config.target_committed";
    "self_config.resumed"; "self_config.deployment_restore_requested";
    "self_config.apply_requested"; "self_config.test_requested"; "self_config.test_completed";
    "self_config.project_prepared"; "self_config.applied"; "self_config.recovery_fenced";
    "auth.profile_updated"; "privacy.subject_corrected"; "privacy.subject_released";
    "privacy.subject_exported"; "privacy.subject_restricted"; "privacy.subject_erased";
    "grant.denied"; "audit.query"; "audit.export_started"; "audit.export_completed";
    "auth.login"; "auth.logout"; "auth.artifact_class_refused"; "auth.session_created";
    "auth.credential_authority_minted"; "auth.credential_established";
    "auth.credential_authority_refused"; "auth.throttle_crossed"; "auth.factor_enrolled";
    "auth.factor_removed"; "auth.recovery_codes_generated"; "auth.recovery_code_consumed";
    "auth.reauthenticated"; "auth.cli_reauth_handoff"; "auth.passkey_added";
    "auth.passkey_removed"; "auth.passkey_cloned"; "auth.password_changed";
    "auth.credential_establish"; "auth.oauth2_login"; "auth.oauth2_refused"; "auth.oidc_login";
    "auth.oidc_refused"; "auth.identity_linked"; "auth.identity_unlinked";
    "auth.provider_changed"; "auth.provider_read"; "auth.saml_login"; "auth.saml_reauth";
    "auth.saml_provider_configure"; "auth.saml_provider_refresh"; "auth.saml_provider_remove";
    "auth.saml_cert_change"; "auth.saml_nameid_email_optin"; "auth.saml_sp_key";
    "auth.saml_metadata_expiry_warning"; "auth.credential_reset_issued";
    "auth.effective_window_lowered"; "settings.org_read"; "settings.org_created";
    "settings.project_created"; "settings.environment_created";
    "settings.environment_note_changed"; "settings.org_renamed"; "settings.org_deleted";
    "settings.project_renamed"; "settings.project_deleted";
    "settings.environment_parameter_changed"; "settings.environment_renamed";
    "settings.environment_deleted"; "settings.environment_reordered";
    "settings.folder_created"; "settings.folder_renamed"; "settings.folder_deleted";
    "settings.key_created"; "settings.key_renamed"; "settings.key_deleted";
    "settings.key_declaration_changed"; "settings.key_metadata_changed";
    "settings.key_reclassified"; "settings.key_reveal_gate_attempt";
    "definitions.plan_created"; "definitions.applied"; "definitions.apply_rejected_stale";
    "definitions.deletion_refused"; "definitions.additive_modification_refused";
    "settings.definitions_source_changed"; "project.capacity_changed";
    "settings.machine_reveal_changed"; "value.set"; "value.cleared";
    "disclosure.value_revealed"; "disclosure.values_exported"; "value.staged";
    "value.change_validated"; "revision.published"; "revision.restore_staged"; "pin.created";
    "pin.reassigned"; "pin.renewed"; "pin.released"; "pin.expiry_refused";
    "crypto.token_key_rotated"; "crypto.scanning_key_rotated"; "scanning.finding_warned";
    "scanning.finding_dismissed"; "scanning.finding_blocked"; "scanning.finding_overridden";
    "crypto.dek_rotated"; "crypto.master_key_rotated"; "crypto.reencrypt_completed";
    "crypto.root_escrow_verified"; "crypto.root_key_rotation_prepared";
    "crypto.root_key_rotation_verified"; "crypto.root_key_rotation_finalized";
    "disclosure.value_copied"; "value.imported"; "settings.key_group_created";
    "settings.key_group_renamed"; "settings.key_group_deleted";
    "settings.key_group_membership_changed"; "grant.created"; "grant.modified";
    "grant.revoked"; "rule.created"; "rule.revoked"; "rule.move_widening_confirmed";
    "member.invited"; "registration.policy_created"; "registration.policy_updated";
    "registration.policy_deleted"; "registration.signup_expired";
    "registration.mail_status_read"; "registration.mail_intent"; "registration.mail_outcome";
    "registration.signup_admitted"; "registration.signup_refused";
    "registration.signup_completed"; "grant.template_applied";
    "settings.reauthentication_window_changed"; "settings.protected_flag_changed";
    "settings.org_retention_changed"; "settings.project_retention_changed";
    "retention.health_read"; "system.update_status_read"; "system.update_requested";
    "system.update_outcome"; "retention.payload_gc"; "retention.audit_policy_changed";
    "retention.audit_pruned"; "retention.prune_run"; "recovery.break_glass_grant";
    "approval.policy_changed"; "approval.policy_read"; "approval.requested"; "approval.voted";
    "approval.merged"; "approval.invalidated"; "approval.expired"; "approval.bypassed";
    "access.policy_changed"; "access.policy_read"; "access.requested"; "access.voted";
    "access.granted"; "access.cancelled"; "access.invalidated"; "access.revoked";
    "access.expired"; "access.bypassed"; "backup.exported"; "backup.export_skipped";
    "restore.completed"; "restore.principal_reconciled"; "backup.export_failed";
    "restore.drill_completed"; "grant.membership_read"; "identity.service_account_created";
    "identity.service_account_deleted"; "identity.developer_credential_mint_refused";
    "identity.developer_credential_minted"; "identity.developer_credential_revoked";
    "identity.developer_credentials_listed"; "identity.developer_credential_policy_read";
    "identity.developer_credential_policy_changed"; "identity.credential_minted";
    "identity.credential_revoked"; "identity.grant_widened";
    "identity.lifetime_policy_changed"; "identity.credentials_listed";
    "identity.lifetime_policy_read"; "identity.binding_created";
    "identity.binding_reactivated"; "identity.federation_issuer_changed";
    "identity.federation_issuer_read"; "identity.federation_refused";
    "identity.jwks_refresh_failed"; "remote.added"; "remote.removed"; "remote.renamed";
    "remote.fetch_failed"; "remote.directory_viewed"; "remote.pairing_prepared";
    "remote.pairing_invite_created"; "remote.pairing_invites_listed";
    "remote.pairing_invite_revoked"; "remote.pairing_started"; "remote.pairing_finished";
    "remote.pairing_failed"; "remote.credential_minted"; "remote.credential_revoked";
    "remote.credentials_listed"; "remote.directory_served"; "remote.origin_allowlist_changed";
    "remote.origin_allowlist_read"; "remote.workspace_handoff_read";
    "remote.workspace_session_issued"; "remote.workspace_session_revoked";
    "remote.handoff_failed"; "identity.delivery_target_created";
    "identity.delivery_target_tombstoned"; "identity.delivery_target_purged";
    "identity.delivery_target_refused"; "identity.delivery_fetched";
    "identity.offline_records_reconciled"; "identity.disclosure"; "scim.binding_created";
    "scim.binding_deleted"; "scim.mapping_created"; "scim.mapping_updated";
    "scim.mapping_deleted"; "scim.credential_minted"; "scim.credential_rotated";
    "scim.credential_revoked"; "scim.user_provisioned"; "scim.user_updated";
    "scim.user_deprovisioned"; "scim.user_deleted"; "scim.group_created"; "scim.group_updated";
    "scim.group_deleted"; "scim.group_membership_changed"; "scim.lockout_retention";
    "scim.lockout_retention_released"; "scim.attention_entered"; "scim.attention_cleared";
    "scim.directory_read"; "scim.credential_refused"; "scim.admin_read"; "adapter.push_intent";
    "adapter.push_outcome"; "adapter.configure"; "adapter.credential_replace";
    "adapter.credential_revoke"; "adapter.adopt"; "adapter.inspect"; "file_target.configured";
    "file_target.inspected"; "file_target.applied"; "dynamic.provider_configured";
    "dynamic.provider_credential_replace"; "dynamic.provider_credential_revoke";
    "dynamic.provider_deleted"; "dynamic.provider_inspected";
    "dynamic.lease_transition_intent"; "dynamic.lease_transition_outcome";
    "dynamic.lease_disclosed"; "dynamic.lease_settle_requested"; "ssh.ca_configured";
    "ssh.ca_rotated"; "ssh.ca_key_retired"; "ssh.ca_deleted"; "ssh.profile_configured";
    "ssh.profile_deleted"; "ssh.certificate_issued"; "ssh.certificate_revoked";
    "transit.key_created"; "transit.key_configured"; "transit.key_rotated";
    "transit.key_state_changed"; "transit.key_trimmed"; "transit.key_destroyed";
    "transit.operation"; "pki.inventory_read"; "pki.issuer"; "pki.profile";
    "pki.certificate_transition_intent"; "pki.certificate_transition_outcome";
    "pki.certificate_key_disclosed"; "pki.crl_published"; "adapter.plan"; "adapter.test";
    "adapter.sync_requested"; "adapter.key_delivered"; "adapter.abort"; "adapter.scrub";
    "adapter.superseded"
  ].

Definition audit_type_set : gset EventType := list_to_set audit_types.

(** The [ok] result of [audit.Spec]. *)
Definition audit_Spec (et : EventType) : bool := set_mem audit_type_set et.

(** The store operations that mutate nothing. *)
Definition readOnlyStoreOps : gset StoreOp := list_to_set
  [
    "orgs.Get"; "orgs.List"; "orgs.Count"; "dynamic.GetLease";
    "dynamic.ListLeasesForEnvironment"; "ssh.GetCA"; "ssh.ListCAs"; "ssh.RevokedSerials";
    "ssh.GetProfile"; "ssh.ListProfiles"; "ssh.GetCertificate"; "ssh.ListCertificates";
    "transit.ListKeys"; "transit.GetKey"; "transit.ListVersions"; "transit.ListCallers";
    "projects.Get"; "projects.GetCapacity"; "projects.List"; "projects.ListAll";
    "pki.ListIssuers"; "pki.GetIssuer"; "pki.IssuerPublic"; "pki.ActiveIssuerPublic";
    "pki.ListProfiles"; "pki.GetProfile"; "pki.BoundProfile"; "pki.BoundProfiles";
    "pki.ListBindings"; "pki.GetCertificate"; "pki.ListCertificates";
    "pki.CountLiveCertificates"; "pki.RevokedEntries"; "definitions.LatestAppliedPlan";
    "remotes.List"; "remotes.Get"; "remotes.GetByName"; "remotes.Count"; "remotes.Snapshots";
    "remotes.Snapshot"; "environments.Get"; "environments.Parameters"; "environments.List";
    "environments.ListPage"; "environments.Count"; "environments.NextOrder"; "folders.Get";
    "folders.List"; "environments.Settings"; "catalogue.Get"; "catalogue.List";
    "catalogue.ListPage"; "catalogue.GetInProject"; "catalogue.PresenceForKey";
    "catalogue.Count"; "adapters.Target"; "adapters.Get"; "adapters.Configuration";
    "adapters.List"; "adapters.ListTargets"; "adapters.TargetKeyIDs"; "adapters.TargetKeys";
    "adapters.HealthCounts"; "adapters.Mapping"; "adapters.PlanMaterial";
    "adapters.TargetEnvironments"; "adapters.Environments"; "adapters.Conflicts";
    "adapters.Move"; "catalogue.GetGroup"; "catalogue.ListGroups"; "catalogue.CountGroups";
    "catalogue.ListPresence"; "catalogue.SchemaRevision"; "keys.ActiveMasterWrappers";
    "keys.ActiveTier3"; "keys.ActiveTokenKeyForReceipt"; "keys.Tier3Versions";
    "keys.AllOpenableTier3"; "keys.AssertActiveDEKVersion"; "values.ListForReencrypt";
    "snapshots.ListForReencrypt"; "pending.ListForReencrypt";
    "adapters.ListAdaptersForReencrypt"; "adapters.ListRouteMovesForReencrypt";
    "reencrypt.ListPasswordCredsForReencrypt"; "reencrypt.ListTotpCredsForReencrypt";
    "reencrypt.ListRecoveryCodesForReencrypt"; "reencrypt.ListOidcProvidersForReencrypt";
    "reencrypt.ListOauth2ProvidersForReencrypt"; "reencrypt.ListSamlKeysForReencrypt";
    "reencrypt.ListPairingInvitesForReencrypt"; "reencrypt.ListPairingExchangesForReencrypt";
    "reencrypt.ListRemotesForReencrypt"; "reencrypt.ListPkiIssuersForReencrypt";
    "audit.PageTenant"; "audit.PageInstance"; "audit.MaxTenantSeq"; "audit.MaxInstanceSeq";
    "values.Get"; "values.List"; "values.EnvironmentsWithValue"; "pending.ListForOwner";
    "pending.ListForOwnerInEnvironment"; "pending.ListForOwnerInEnvironmentPage";
    "pending.ListMarkers"; "pending.CountForProjectExcludingCell";
    "values.PayloadBytesForProject"; "snapshots.PayloadBytesForProject";
    "values.InstancePayloadByProject"; "snapshots.InstancePayloadByProject";
    "values.SampleSecretEntry"; "backupstate.Get"; "snapshots.Latest"; "snapshots.AtRevision";
    "snapshots.List"; "snapshots.ListPage"; "snapshots.Entries"; "snapshots.ParameterContract";
    "snapshots.SecretValueOccurrenceIDsIn"; "snapshots.Changes"; "snapshots.ChangesInRange";
    "pins.GetForWorkload"; "pins.List"; "deliverytargets.Get"; "deliverytargets.List";
    "deliverytargets.QuotaNotices"; "deliverytargets.LastFetchAt";
    "deliverytargets.CountForPrincipal"; "filetargets.List"; "filetargets.Get";
    "filetargets.Keys"; "filetargets.KeysForTargets"; "filetargets.ForPrincipal";
    "approvals.GetPolicy"; "approvals.ListPolicies"; "approvals.CoveringPolicy";
    "approvals.ListApprovers"; "approvals.ListBypassers"; "approvals.IsBypasser";
    "approvals.GetRequest"; "approvals.ListRequests"; "approvals.ListVotes";
    "approvals.SelectExpired"; "approvals.OperationalCounts"; "scim.UserByAccount";
    "scim.MembershipsForUser"; "access.GetPolicy"; "access.ListPolicies";
    "access.CoveringPolicy"; "access.ListApprovers"; "access.ListBypassers";
    "access.IsBypasser"; "access.GetRequest"; "access.ListRequests"; "access.GetVote";
    "access.ListVotes"; "access.SelectDue"; "access.OperationalCounts"
  ].

(** The tables are data: tactics must not unfold them ([vm_compute] still does). *)
#[global] Opaque audit_types audit_type_set audit_Spec readOnlyStoreOps.
