(* ===== verification/Registry.v ===== *)
(** * The operation registry: [internal/authz/registry.go]

    Operations, formulas and registry rows, the validation every row passes at
    package initialisation ([validateSpec], [validateAuditDisposition],
    [newRegistry]) and the read paths the chokepoint uses. The shipped table is
    in [OperationTable.v]. *)

From stdpp Require Import prelude gmap strings list.
From S2P Require Import Prelude Domain Tables.

(** ** Operation names

    The constants the authorization logic names; the other operations appear
    only as keys of the table. *)

Definition OpSelfConfigPreview : Operation := "self-config.preview".
Definition OpSelfConfigStatus : Operation := "self-config.status".
Definition OpSelfConfigAdopt : Operation := "self-config.adopt".
Definition OpSelfConfigApply : Operation := "self-config.apply".
Definition OpSelfConfigTest : Operation := "self-config.test".
Definition OpOrgGet : Operation := "org.get".
Definition OpOrgRename : Operation := "org.rename".
Definition OpProjectGet : Operation := "project.get".
Definition OpProjectList : Operation := "project.list".
Definition OpProjectRename : Operation := "project.rename".
Definition OpEnvRead : Operation := "environment.read".
Definition OpEnvList : Operation := "environment.list".
Definition OpEnvRename : Operation := "environment.rename".
Definition OpEnvReorder : Operation := "environment.reorder".
Definition OpEnvDelete : Operation := "environment.delete".
Definition OpEnvUpdateNote : Operation := "environment.update-note".
Definition OpKeyGet : Operation := "key.get".
Definition OpKeyList : Operation := "key.list".
Definition OpKeySchemaPublishEmpty : Operation := "key.schema-publish-empty".
Definition OpKeySchemaPublishValues : Operation := "key.schema-publish-values".
Definition OpDefinitionsExport : Operation := "definitions.export".
Definition OpDefinitionsCheck : Operation := "definitions.check".
Definition OpDefinitionsPlanGet : Operation := "definitions.plan.get".
Definition OpDefinitionsSettingsGet : Operation := "definitions.settings.get".
Definition OpProjectCapacityRead : Operation := "project.capacity.read".
Definition OpProjectMachineRevealGet : Operation := "project.machine-reveal.get".
Definition OpValueRead : Operation := "value.read".
Definition OpValueList : Operation := "value.list".
Definition OpValueReveal : Operation := "value.reveal".
Definition OpRevealWindowRead : Operation := "reveal.window_read".
Definition OpValueStage : Operation := "value.stage".
Definition OpValuePendingList : Operation := "value.pending-list".
Definition OpValuePublish : Operation := "value.publish".
Definition OpValueInitialize : Operation := "value.initialize".
Definition OpValueExport : Operation := "value.export".
Definition OpValueExportReveal : Operation := "value.export-reveal".
Definition OpValueExportRevealHistory : Operation := "value.export-reveal-history".
Definition OpRevisionList : Operation := "revision.list".
Definition OpRevisionShow : Operation := "revision.show".
Definition OpRevisionSignals : Operation := "revision.signals".
Definition OpRevisionRestore : Operation := "revision.restore".
Definition OpRevisionRestoreHistory : Operation := "revision.restore-reveal-history".
Definition OpRevisionRestoreCurrent : Operation := "revision.restore-reveal-current".
Definition OpPinSet : Operation := "pin.set".
Definition OpPinSetHistory : Operation := "pin.set-reveal-history".
Definition OpPinList : Operation := "pin.list".
Definition OpPinRelease : Operation := "pin.release".
Definition OpApprovalPolicyRead : Operation := "approval.policy-read".
Definition OpApprovalRequestRead : Operation := "approval.request-read".
Definition OpApprovalVote : Operation := "approval.vote".
Definition OpApprovalBypass : Operation := "approval.bypass".
Definition OpRotateDEK : Operation := "crypto.rotate-dek".
Definition OpReencryptProject : Operation := "crypto.reencrypt-project".
Definition OpKeyGroupGet : Operation := "key-group.get".
Definition OpKeyGroupList : Operation := "key-group.list".
Definition OpFolderGet : Operation := "folder.get".
Definition OpFolderList : Operation := "folder.list".
Definition OpAuditQueryOrg : Operation := "audit.query-org".
Definition OpAuditQueryProject : Operation := "audit.query-project".
Definition OpAuditQueryEnv : Operation := "audit.query-env".
Definition OpAuditExportOrg : Operation := "audit.export-org".
Definition OpAuditExportProject : Operation := "audit.export-project".
Definition OpAuditExportEnv : Operation := "audit.export-env".
Definition OpGrantCreateOrg : Operation := "grant.create-org".
Definition OpGrantCreateProject : Operation := "grant.create-project".
Definition OpGrantCreateEnv : Operation := "grant.create-env".
Definition OpMemberInviteOrg : Operation := "member.invite-org".
Definition OpGrantRevokeOrg : Operation := "grant.revoke-org".
Definition OpGrantRevokeProject : Operation := "grant.revoke-project".
Definition OpRuleCreate : Operation := "rule.create".
Definition OpRuleRevoke : Operation := "rule.revoke".
Definition OpRuleListProject : Operation := "rule.list-project".
Definition OpGrantRevokeEnv : Operation := "grant.revoke-env".
Definition OpGrantListOrg : Operation := "grant.list-org".
Definition OpGrantListProject : Operation := "grant.list-project".
Definition OpTemplateApplyOrg : Operation := "grant.template-org".
Definition OpTemplateApplyProject : Operation := "grant.template-project".
Definition OpTemplateApplyEnv : Operation := "grant.template-env".
Definition OpEnvSettingsRead : Operation := "environment.settings-read".
Definition OpOrgRetentionRead : Operation := "retention.org-read".
Definition OpOrgRetentionUpdate : Operation := "retention.org-update".
Definition OpProjectRetentionRead : Operation := "retention.project-read".
Definition OpProjectRetentionUpdate : Operation := "retention.project-update".
Definition OpDeveloperCredentialMint : Operation := "developer-credential.mint".
Definition OpDeliveryFetch : Operation := "delivery.fetch".
Definition OpSCIMDiscovery : Operation := "scim-discovery.read".

(** ** Data *)

(** [ClassStub] is added by [classify.go]. *)
Inductive Class := ClassTenant | ClassInstance | ClassUnauthenticated | ClassSystem | ClassStub.

#[export] Instance Class_eq_dec : EqDecision Class.
Proof. solve_decision. Defined.

Record Atom := mkAtom { Cap : Capability; At : Level }.

#[export] Instance Atom_eq_dec : EqDecision Atom.
Proof. solve_decision. Defined.

Abbreviation Formula := (list Atom) (only parsing).

Record opSpec := mkOpSpec {
  class : Class;
  level : Level;
  formula : Formula;
  storeOps : gmap StoreOp bool;
  postGrantForbidden : bool;
  spec_events : list EventType;
  auditedNone : bool;
  reviewExempt : bool }.

(** The validated registry: [Registry.ops]. *)
Abbreviation Registry := (gmap Operation opSpec) (only parsing).

Record authorizationSpec := mkAuthorizationSpec {
  as_class : Class; as_level : Level; as_formula : Formula }.

(** ** Read paths *)

Definition lookupSpec (r : Registry) (op : Operation) : option authorizationSpec :=
  match r !! op with
  | None => None
  | Some spec => Some (mkAuthorizationSpec (class spec) (level spec) (formula spec))
  end.

Definition permitsStoreOp (r : Registry) (op : Operation) (so : StoreOp) : bool :=
  match r !! op with
  | Some spec => default false (storeOps spec !! so)
  | None => false
  end.

Definition permitsEvent (r : Registry) (op : Operation) (et : EventType) : bool :=
  match r !! op with
  | Some spec => Contains (spec_events spec) et
  | None => false
  end.

(** ** Validation *)

Definition registrableClasses (c : Class) : bool :=
  match c with ClassTenant | ClassInstance => true | _ => false end.

Definition tenantLevel (l : Level) : bool :=
  bool_decide (l = LevelOrg) || bool_decide (l = LevelProject) || bool_decide (l = LevelEnv).

Definition validLevel (l : Level) : bool := bool_decide (l = LevelNone) || tenantLevel l.

Definition allowsEnvironmentDefinitionsAtom (op : Operation) (atom : Atom) : bool :=
  bool_decide (Cap atom = CapDefinitionsEdit) && bool_decide (At atom = LevelEnv)
  && (bool_decide (op = OpKeySchemaPublishValues) || bool_decide (op = OpValueInitialize)).

(** The counter [n] of [validateAuditDisposition]. *)
Definition dispositions (spec : opSpec) : nat :=
  (if Nat.ltb 0 (length (spec_events spec)) then 1 else 0)
  + (if auditedNone spec then 1 else 0) + (if reviewExempt spec then 1 else 0).

(** [validateAuditDisposition]; the result says whether the row passes. *)
Definition validateAuditDisposition (op : Operation) (spec : opSpec) : bool :=
  if negb (Nat.eqb (dispositions spec) 1) then false else
  if reviewExempt spec && bool_decide (op ≠ OpDefinitionsPlanGet)
     && bool_decide (op ≠ OpSCIMDiscovery) && bool_decide (op ≠ OpProjectCapacityRead)
  then false else
  if negb (forallb (λ et, bool_decide (et ≠ "") && audit_Spec et) (spec_events spec)
           && bool_decide (NoDup (spec_events spec))) then false else
  if auditedNone spec then
    bool_decide (class spec = ClassTenant)
    && forallb (λ atom, bool_decide (Cap atom = CapRead)) (formula spec)
    && forallb (λ kv, set_mem readOnlyStoreOps kv.1) (map_to_list (storeOps spec))
  else true.

(** One atom of a row's formula. *)
Definition validateAtom (op : Operation) (spec : opSpec) (atom : Atom) : bool :=
  IsCapability (Cap atom) && validLevel (At atom)
  && negb (level_gt (At atom) (default LevelNone (DeepestLevel (Cap atom)))
           && negb (allowsEnvironmentDefinitionsAtom op atom))
  && negb (level_gt (At atom) (level spec)).

Definition validateSpec (op : Operation) (spec : opSpec) : bool :=
  registrableClasses (class spec)
  && match class spec with
     | ClassTenant => tenantLevel (level spec)
     | ClassInstance => bool_decide (level spec = LevelNone)
     | _ => true
     end
  && negb (Nat.eqb (length (formula spec)) 0)
  && forallb (validateAtom op spec) (formula spec)
  && forallb (λ kv, kv.2) (map_to_list (storeOps spec))
  && validateAuditDisposition op spec.

(** [newRegistry]: every row of the table passes, or initialisation panics.
    [cloneSpec] copies the row, which is the identity on values. *)
Definition newRegistry (table : gmap Operation opSpec) : option Registry :=
  if forallb (λ kv, bool_decide (kv.1 ≠ "") && validateSpec kv.1 kv.2) (map_to_list table)
  then Some table else None.

(** ** The invariant a validated registry gives its readers *)

Record spec_wf (op : Operation) (spec : opSpec) : Prop := {
  sw_class : class spec = ClassTenant ∧ level spec ≠ LevelNone ∨
             class spec = ClassInstance ∧ level spec = LevelNone;
  sw_formula : formula spec ≠ [];
  sw_atom : ∀ atom, atom ∈ formula spec →
    is_Some (DeepestLevel (Cap atom)) ∧ level_index (At atom) ≤ level_index (level spec) ∧
    (∀ d, DeepestLevel (Cap atom) = Some d → level_index (At atom) ≤ level_index d ∨
       Cap atom = CapDefinitionsEdit ∧ At atom = LevelEnv ∧
       (op = OpKeySchemaPublishValues ∨ op = OpValueInitialize));
  sw_store : ∀ so b, storeOps spec !! so = Some b → b = true;
  sw_silent : spec_events spec = [] →
    (auditedNone spec = true ∧ class spec = ClassTenant ∧
     (∀ atom, atom ∈ formula spec → Cap atom = CapRead) ∧
     (∀ so, is_Some (storeOps spec !! so) → so ∈ readOnlyStoreOps)) ∨
    (op = OpDefinitionsPlanGet ∨ op = OpSCIMDiscovery ∨ op = OpProjectCapacityRead);
  sw_events : NoDup (spec_events spec) ∧
    ∀ et, et ∈ spec_events spec → et ≠ "" ∧ audit_Spec et = true }.

Lemma level_gt_false a b : level_gt a b = false ↔ level_index a ≤ level_index b.
Proof. unfold level_gt. apply Nat.ltb_ge. Qed.

Lemma validateAtom_spec op spec atom :
  validateAtom op spec atom = true →
  is_Some (DeepestLevel (Cap atom)) ∧ level_index (At atom) ≤ level_index (level spec) ∧
  (∀ d, DeepestLevel (Cap atom) = Some d → level_index (At atom) ≤ level_index d ∨
     Cap atom = CapDefinitionsEdit ∧ At atom = LevelEnv ∧
     (op = OpKeySchemaPublishValues ∨ op = OpValueInitialize)).
Proof.
  unfold validateAtom, allowsEnvironmentDefinitionsAtom, IsCapability, DeepestLevel.
  destruct (capabilityLevels !! Cap atom) as [d|]; [|done]. simpl. intros H.
  bsimp. rewrite !level_gt_false in H. split_and!; [by eexists|tauto|].
  intros ? [= <-]. tauto.
Qed.

Lemma validateAuditDisposition_spec op spec :
  validateAuditDisposition op spec = true →
  (spec_events spec = [] →
    (auditedNone spec = true ∧ class spec = ClassTenant ∧
     (∀ atom, atom ∈ formula spec → Cap atom = CapRead) ∧
     (∀ so, is_Some (storeOps spec !! so) → so ∈ readOnlyStoreOps)) ∨
    (op = OpDefinitionsPlanGet ∨ op = OpSCIMDiscovery ∨ op = OpProjectCapacityRead)) ∧
  NoDup (spec_events spec) ∧
  (∀ et, et ∈ spec_events spec → et ≠ "" ∧ audit_Spec et = true).
Proof.
  unfold validateAuditDisposition. intros H.
  bcase; [done|]. rename E into Hn. bcase; [done|]. rename E into Hex.
  bcase; [done|]. rename E into Hev. unfold dispositions in Hn.
  apply negb_false_iff, andb_true_iff in Hev as [Hev Hnd].
  rewrite bool_decide_eq_true in Hnd. rewrite forallb_true in Hev.
  split; [|split; [done|]].
  2:{ intros et Het. specialize (Hev et Het).
      by rewrite andb_true_iff, bool_decide_eq_true in Hev. }
  intros Hnil. rewrite Hnil in Hn. simpl in Hn.
  destruct (auditedNone spec) eqn:Hnone.
  - left. rewrite !andb_true_iff, !forallb_true in H. destruct H as [[Hc Hf] Hs].
    split_and!; [done|by bsimp| |].
    + intros atom Ha. specialize (Hf atom Ha). by bsimp.
    + intros so [b Hb]. specialize (Hs (so, b)). rewrite elem_of_map_to_list in Hs.
      specialize (Hs Hb). unfold set_mem in Hs. by rewrite bool_decide_eq_true in Hs.
  - right. destruct (reviewExempt spec); [|done]. simpl in Hex.
    rewrite !andb_false_iff, !bool_decide_eq_false in Hex.
    destruct Hex as [[Hx|Hx]|Hx]; apply dec_stable in Hx; auto.
Qed.

Lemma validateSpec_wf op spec : validateSpec op spec = true → spec_wf op spec.
Proof.
  unfold validateSpec. rewrite !andb_true_iff.
  intros [[[[[Hc Hl] Hf] Ha] Hs] Hd].
  apply validateAuditDisposition_spec in Hd as (Hsil & Hnd & Hev).
  rewrite forallb_true in Ha. rewrite forallb_true in Hs. split; try done.
  - destruct (class spec); try done; [left|right]; (split; [done|]);
      by destruct (level spec).
  - intros Hnil. by rewrite Hnil in Hf.
  - intros atom Hin. by apply validateAtom_spec, Ha.
  - intros so b Hb. apply (Hs (so, b)). by apply elem_of_map_to_list.
Qed.

Lemma newRegistry_wf table r :
  newRegistry table = Some r →
  r = table ∧ ∀ op spec, r !! op = Some spec → op ≠ "" ∧ spec_wf op spec.
Proof.
  unfold newRegistry. bcase; [|done]. intros [= <-]. split; [done|].
  intros op spec Hop. rewrite forallb_true in E. specialize (E (op, spec)).
  rewrite elem_of_map_to_list in E. specialize (E Hop). simpl in E.
  rewrite andb_true_iff, bool_decide_eq_true in E. destruct E as [? ?].
  split; [done|]. by apply validateSpec_wf.
Qed.
