(* ===== verification/OperationTable.v ===== *)
(** * The shipped operation table: [operationTable] of [internal/authz/registry.go]

    A transcription of the policy table, row by row and in source order. Each
    chunk is one contiguous range of rows; [operationTable] is their map and
    [registry] what package initialisation makes of it. Strings are the values
    of the Go constants. *)

From stdpp Require Import prelude gmap strings list.
From S2P Require Import Prelude Domain Tables Registry.

(** A Go [map[StoreOp]bool] literal whose entries are all [true]. *)
Definition sops (ops : list StoreOp) : gmap StoreOp bool :=
  list_to_map ((λ so, (so, true)) <$> ops).

Definition pkiOperatorFormula : Formula := [mkAtom CapInstanceConfig LevelNone].

Definition pkiIssueFormula : Formula := [mkAtom CapIssueCertificate LevelEnv].

Definition scimAdminFormula : Formula := [mkAtom CapManageMembers LevelOrg].

Definition scimWireFormula : Formula := [mkAtom CapSCIMProvision LevelOrg].

Definition grantCureEvents : list EventType :=
  ["scim.lockout_retention_released"; "scim.attention_cleared"; "grant.revoked"].

Definition scimUserMutationEvents : list EventType :=
  [
   "scim.user_updated"; "scim.user_deprovisioned"; "grant.created"; "grant.modified";
   "grant.revoked"; "scim.lockout_retention"; "scim.attention_entered";
   "scim.attention_cleared"].

Definition scimGroupMutationEvents : list EventType :=
  [
   "scim.group_updated"; "scim.group_membership_changed"; "grant.created"; "grant.modified";
   "grant.revoked"; "scim.lockout_retention"; "scim.lockout_retention_released";
   "scim.attention_entered"; "scim.attention_cleared"].

Definition grantCureStoreOps : gmap StoreOp bool := sops
  ["scim.Attention"; "scim.ClearAttention"].

Definition scimCredentialOps : gmap StoreOp bool := sops
  [
   "scim.CreateCredential"; "scim.Credential"; "scim.Credentials"; "scim.RevokeCredential";
   "scim.RevokeCredentialsForBinding"; "scim.DeleteCredentialsForBinding"].

Definition scimBase : gmap StoreOp bool := sops
  [
   "scim.LockBinding"; "scim.Binding"; "scim.Attention"; "scim.EnterAttention";
   "scim.ClearAttention"].

Definition scimAttentionReadOps : gmap StoreOp bool := sops
  ["scim.Credentials"].

Definition scimWireBase : gmap StoreOp bool := sops
  ["scim.TouchBinding"].

Definition scimDirectoryOps : gmap StoreOp bool := sops
  [
   "projects.List"; "scim.User"; "scim.Users"; "scim.UserByUserName"; "scim.PageUsers";
   "scim.UserBySubject"; "scim.UserByAccount"; "scim.Group"; "scim.Groups"; "scim.PageGroups";
   "scim.GroupMembers"; "scim.MembershipsForUser"; "scim.Mappings"; "scim.MappingsForGroup";
   "scim.Mapping"].

Definition scimUserWriteOps : gmap StoreOp bool := sops
  ["scim.CreateUser"; "scim.UpdateUser"; "scim.DeleteUser"; "scim.RemoveMembershipsForUser"].

Definition scimGroupWriteOps : gmap StoreOp bool := sops
  [
   "scim.CreateGroup"; "scim.UpdateGroup"; "scim.DeleteGroup"; "scim.AddGroupMember";
   "scim.RemoveGroupMember"; "scim.ClearGroupMembers"].

Definition scimMappingWriteOps : gmap StoreOp bool := sops
  [
   "scim.CreateMapping"; "scim.UpdateMappingTemplate"; "scim.DeleteMapping";
   "scim.SetMappingInert"].

Definition scimTeardownOps : gmap StoreOp bool := sops
  [
   "scim.DeleteGroupMembersForBinding"; "scim.DeleteGroupsForBinding";
   "scim.DeleteUsersForBinding"; "scim.DeleteMappingsForBinding";
   "scim.DeleteAttentionForBinding"; "scim.DeleteBinding"; "scim.RetireConnectionPrincipal"].

Definition scimDiscoveryOps : gmap StoreOp bool :=
  sops ["scim.Binding"; "scim.TouchBinding"].

(** Every key of the base and of the cure set, licensed. *)
Definition withCure (base : gmap StoreOp bool) : gmap StoreOp bool :=
  (λ _, true) <$> (base ∪ grantCureStoreOps).

Definition scimOps (groups : list (gmap StoreOp bool)) : gmap StoreOp bool :=
  foldl (λ out g, ((λ _, true) <$> g) ∪ out) (sops ["audit.InsertTenant"]) groups.

(** Rows remote-pairing.prepare to oidc-provider.delete. *)
Definition operationTable_1 : list (Operation * opSpec) :=
  [
    ("remote-pairing.prepare", mkOpSpec ClassInstance LevelNone
       [mkAtom CapInstanceConfig LevelNone]
       (sops ["audit.InsertInstance"; "keys.AssertActiveDEKVersion"])
       false ["remote.pairing_prepared"] false false);
    ("remote-pairing.create", mkOpSpec ClassInstance LevelNone
       [mkAtom CapInstanceConfig LevelNone]
       (sops ["audit.InsertInstance"])
       false ["remote.pairing_invite_created"] false false);
    ("remote-pairing.list", mkOpSpec ClassInstance LevelNone
       [mkAtom CapInstanceConfig LevelNone]
       (sops ["audit.InsertInstance"])
       false ["remote.pairing_invites_listed"] false false);
    ("remote-pairing.revoke", mkOpSpec ClassInstance LevelNone
       [mkAtom CapInstanceConfig LevelNone]
       (sops ["audit.InsertInstance"])
       false ["remote.pairing_invite_revoked"] false false);
    ("remote-pairing.complete", mkOpSpec ClassInstance LevelNone
       [mkAtom CapInstanceConfig LevelNone]
       (sops [
               "remotes.Count"; "remotes.List"; "remotes.Snapshots"; "remotes.Create";
               "remotes.WriteSnapshot"; "keys.AssertActiveDEKVersion"; "audit.InsertInstance"])
       false ["remote.added"] false false);
    ("mail.get", mkOpSpec ClassInstance LevelNone
       [mkAtom CapInstanceConfig LevelNone]
       (sops ["audit.InsertInstance"])
       false ["registration.mail_status_read"] false false);
    ("mail.test", mkOpSpec ClassInstance LevelNone
       [mkAtom CapInstanceConfig LevelNone]
       (sops ["audit.InsertInstance"])
       false ["registration.mail_intent"; "registration.mail_outcome"] false false);
    ("self-config.preview", mkOpSpec ClassInstance LevelNone
       [mkAtom CapInstanceConfig LevelNone; mkAtom CapManageMembers LevelNone]
       (sops ["selfconfig.Binding"; "selfconfig.SeedInputs"; "audit.InsertInstance"])
       false ["self_config.status_read"] false false);
    ("self-config.status", mkOpSpec ClassInstance LevelNone
       [mkAtom CapInstanceConfig LevelNone]
       (sops [
               "selfconfig.Binding"; "selfconfig.Rollout"; "selfconfig.Jobs"; "selfconfig.Job";
               "selfconfig.Nodes"; "selfconfig.Retained"; "audit.InsertInstance"])
       false ["self_config.status_read"] false false);
    ("self-config.adopt", mkOpSpec ClassInstance LevelNone
       [mkAtom CapInstanceConfig LevelNone; mkAtom CapManageMembers LevelNone]
       (sops [
               "selfconfig.Binding"; "selfconfig.SeedInputs"; "selfconfig.CreateBinding";
               "audit.InsertInstance"])
       false ["self_config.adopted"] false false);
    ("self-config.apply", mkOpSpec ClassTenant LevelEnv
       [mkAtom CapInstanceConfig LevelNone; mkAtom CapRead LevelEnv; mkAtom CapPublish LevelEnv]
       (sops [
               "selfconfig.Binding"; "selfconfig.Rollout"; "selfconfig.PutRollout";
               "selfconfig.NextRolloutSequence"; "selfconfig.Jobs"; "selfconfig.Job";
               "selfconfig.JobByIdempotencyKey"; "selfconfig.Nodes"; "selfconfig.BeginJob";
               "selfconfig.CommitJob"; "selfconfig.FinishJob"; "snapshots.AtRevision";
               "audit.InsertTenant"])
       false [
               "self_config.deployment_restore_requested"; "self_config.apply_requested";
               "self_config.target_committed"; "self_config.resumed"] false false);
    ("self-config.test", mkOpSpec ClassTenant LevelEnv
       [mkAtom CapInstanceConfig LevelNone; mkAtom CapRead LevelEnv]
       (sops [
               "selfconfig.Binding"; "snapshots.AtRevision"; "snapshots.Entries";
               "snapshots.ParameterContract"; "catalogue.List"; "catalogue.SchemaRevision";
               "audit.InsertTenant"])
       false ["self_config.test_requested"; "self_config.test_completed"] false false);
    ("self-config.provision-project", mkOpSpec ClassTenant LevelProject
       [mkAtom CapInstanceConfig LevelNone; mkAtom CapDefinitionsEdit LevelProject]
       (sops ["keys.InsertInitialProjectDEK"; "audit.InsertTenant"])
       false ["self_config.project_prepared"] false false);
    ("org.create", mkOpSpec ClassInstance LevelNone
       [mkAtom CapInstanceConfig LevelNone; mkAtom CapManageMembers LevelNone]
       (sops ["orgs.Create"; "audit.InsertInstance"])
       false ["settings.org_created"] false false);
    ("org.list", mkOpSpec ClassInstance LevelNone
       [mkAtom CapInstanceConfig LevelNone]
       (sops ["orgs.List"; "orgs.Count"; "audit.InsertInstance"])
       false ["settings.org_read"] false false);
    ("org.get", mkOpSpec ClassTenant LevelOrg
       [mkAtom CapRead LevelOrg]
       (sops ["orgs.Get"])
       false [] true false);
    ("org.rename", mkOpSpec ClassTenant LevelOrg
       [mkAtom CapManageMembers LevelOrg]
       (sops ["orgs.Get"; "orgs.Rename"; "audit.InsertTenant"])
       false ["settings.org_renamed"] false false);
    ("org.delete", mkOpSpec ClassTenant LevelOrg
       [mkAtom CapInstanceConfig LevelNone]
       (sops ["orgs.Get"; "orgs.Delete"; "audit.InsertTenant"])
       false ["rule.revoked"; "settings.org_deleted"] false false);
    ("oauth2-provider.put", mkOpSpec ClassInstance LevelNone
       [mkAtom CapInstanceConfig LevelNone]
       (sops ["keys.AssertActiveDEKVersion"; "audit.InsertInstance"])
       false ["auth.provider_changed"] false false);
    ("oauth2-provider.get", mkOpSpec ClassInstance LevelNone
       [mkAtom CapInstanceConfig LevelNone]
       (sops ["audit.InsertInstance"])
       false ["auth.provider_read"] false false);
    ("oauth2-provider.list", mkOpSpec ClassInstance LevelNone
       [mkAtom CapInstanceConfig LevelNone]
       (sops ["audit.InsertInstance"])
       false ["auth.provider_read"] false false);
    ("oauth2-provider.delete", mkOpSpec ClassInstance LevelNone
       [mkAtom CapInstanceConfig LevelNone]
       (sops ["audit.InsertInstance"])
       false ["auth.provider_changed"] false false);
    ("oidc-provider.put", mkOpSpec ClassInstance LevelNone
       [mkAtom CapInstanceConfig LevelNone]
       (sops ["keys.AssertActiveDEKVersion"; "audit.InsertInstance"])
       false ["auth.provider_changed"] false false);
    ("oidc-provider.get", mkOpSpec ClassInstance LevelNone
       [mkAtom CapInstanceConfig LevelNone]
       (sops ["audit.InsertInstance"])
       false ["auth.provider_read"] false false);
    ("oidc-provider.list", mkOpSpec ClassInstance LevelNone
       [mkAtom CapInstanceConfig LevelNone]
       (sops ["audit.InsertInstance"])
       false ["auth.provider_read"] false false);
    ("oidc-provider.delete", mkOpSpec ClassInstance LevelNone
       [mkAtom CapInstanceConfig LevelNone]
       (sops ["audit.InsertInstance"])
       false ["auth.provider_changed"] false false)
  ].

(** Rows saml-provider.put to project.delete. *)
Definition operationTable_2 : list (Operation * opSpec) :=
  [
    ("saml-provider.put", mkOpSpec ClassInstance LevelNone
       [mkAtom CapInstanceConfig LevelNone]
       (sops ["keys.AssertActiveDEKVersion"; "audit.InsertInstance"])
       false [
               "auth.saml_provider_configure"; "auth.saml_cert_change";
               "auth.saml_nameid_email_optin"; "auth.saml_sp_key";
               "auth.saml_metadata_expiry_warning"] false false);
    ("saml-provider.patch", mkOpSpec ClassInstance LevelNone
       [mkAtom CapInstanceConfig LevelNone]
       (sops ["audit.InsertInstance"])
       false ["auth.saml_provider_configure"; "auth.saml_nameid_email_optin"] false false);
    ("saml-provider.get", mkOpSpec ClassInstance LevelNone
       [mkAtom CapInstanceConfig LevelNone]
       (sops ["audit.InsertInstance"])
       false ["auth.provider_read"; "auth.saml_metadata_expiry_warning"] false false);
    ("saml-provider.list", mkOpSpec ClassInstance LevelNone
       [mkAtom CapInstanceConfig LevelNone]
       (sops ["audit.InsertInstance"])
       false ["auth.provider_read"; "auth.saml_metadata_expiry_warning"] false false);
    ("saml-provider.delete", mkOpSpec ClassInstance LevelNone
       [mkAtom CapInstanceConfig LevelNone]
       (sops ["audit.InsertInstance"])
       false ["auth.saml_provider_remove"] false false);
    ("saml-provider.refresh-metadata", mkOpSpec ClassInstance LevelNone
       [mkAtom CapInstanceConfig LevelNone]
       (sops ["audit.InsertInstance"])
       false [
               "auth.saml_provider_refresh"; "auth.saml_cert_change";
               "auth.saml_metadata_expiry_warning"] false false);
    ("saml-sp-key.list", mkOpSpec ClassInstance LevelNone
       [mkAtom CapInstanceConfig LevelNone]
       (sops ["audit.InsertInstance"])
       false ["auth.provider_read"] false false);
    ("saml-sp-key.rotate", mkOpSpec ClassInstance LevelNone
       [mkAtom CapInstanceConfig LevelNone]
       (sops ["audit.InsertInstance"])
       false ["auth.saml_sp_key"] false false);
    ("saml-sp-key.retire", mkOpSpec ClassInstance LevelNone
       [mkAtom CapInstanceConfig LevelNone]
       (sops ["audit.InsertInstance"])
       false ["auth.saml_sp_key"] false false);
    ("saml-sp-key.compromise-retire", mkOpSpec ClassInstance LevelNone
       [mkAtom CapInstanceConfig LevelNone]
       (sops ["audit.InsertInstance"])
       false ["auth.saml_sp_key"] false false);
    ("credential-reset.org", mkOpSpec ClassTenant LevelOrg
       [mkAtom CapCredentialReset LevelOrg]
       ∅
       false ["auth.credential_reset_issued"] false false);
    ("credential-reset.instance", mkOpSpec ClassInstance LevelNone
       [mkAtom CapCredentialReset LevelNone]
       ∅
       false ["auth.credential_reset_issued"] false false);
    ("project.create", mkOpSpec ClassTenant LevelOrg
       [mkAtom CapManageProjects LevelOrg]
       (sops ["projects.Create"; "audit.InsertTenant"])
       false ["settings.project_created"] false false);
    ("project.get", mkOpSpec ClassTenant LevelProject
       [mkAtom CapRead LevelProject]
       (sops ["projects.Get"])
       false [] true false);
    ("project.list", mkOpSpec ClassTenant LevelOrg
       [mkAtom CapRead LevelOrg]
       (sops ["projects.List"])
       false [] true false);
    ("project.rename", mkOpSpec ClassTenant LevelProject
       [mkAtom CapManageProjects LevelOrg]
       (sops ["projects.Get"; "projects.Rename"; "audit.InsertTenant"])
       false ["settings.project_renamed"] false false);
    ("project.delete", mkOpSpec ClassTenant LevelProject
       [mkAtom CapManageProjects LevelOrg]
       (sops [
               "projects.Get"; "projects.Delete"; "audit.InsertTenant";
               "scanningdismissals.DeleteByProject"])
       false ["rule.revoked"; "settings.project_deleted"] false false)
  ].

(** Rows environment.create to key.create. *)
Definition operationTable_3 : list (Operation * opSpec) :=
  [
    ("environment.create", mkOpSpec ClassTenant LevelProject
       [mkAtom CapDefinitionsEdit LevelProject]
       (sops [
               "projects.Get"; "projects.Lock"; "environments.Count"; "catalogue.Count";
               "environments.NextOrder"; "environments.Create"; "catalogue.BumpSchemaRevision";
               "audit.InsertTenant"])
       false [
               "settings.environment_created"; "scanning.finding_blocked";
               "scanning.finding_overridden"] false false);
    ("environment.read", mkOpSpec ClassTenant LevelEnv
       [mkAtom CapRead LevelEnv]
       (sops ["environments.Get"; "environments.Parameters"])
       false [] true false);
    ("environment.list", mkOpSpec ClassTenant LevelProject
       [mkAtom CapRead LevelProject]
       (sops ["environments.List"; "environments.ListPage"])
       false [] true false);
    ("environment.parameter-set", mkOpSpec ClassTenant LevelEnv
       [mkAtom CapDefinitionsEdit LevelProject]
       (sops [
               "projects.Get"; "projects.Lock"; "environments.Parameters";
               "environments.SetParameters"; "catalogue.BumpSchemaRevision";
               "audit.InsertTenant"])
       false ["settings.environment_parameter_changed"] false false);
    ("environment.rename", mkOpSpec ClassTenant LevelEnv
       [mkAtom CapDefinitionsEdit LevelProject]
       (sops [
               "projects.Get"; "projects.Lock"; "environments.Get"; "environments.Rename";
               "catalogue.BumpSchemaRevision"; "audit.InsertTenant"])
       false [
               "settings.environment_renamed"; "scanning.finding_blocked";
               "scanning.finding_overridden"] false false);
    ("environment.reorder", mkOpSpec ClassTenant LevelProject
       [mkAtom CapDefinitionsEdit LevelProject]
       (sops [
               "projects.Get"; "projects.Lock"; "environments.List"; "environments.SetOrder";
               "audit.InsertTenant"])
       false ["settings.environment_reordered"] false false);
    ("environment.delete", mkOpSpec ClassTenant LevelEnv
       [mkAtom CapDefinitionsEdit LevelProject]
       (sops [
               "projects.Get"; "projects.Lock"; "environments.Get"; "catalogue.ListPresence";
               "catalogue.DeletePresenceForEnvironment"; "catalogue.List";
               "catalogue.UpdateDeclaration"; "catalogue.BumpSchemaRevision";
               "values.ClearEnvironment"; "pending.DiscardEnvironment";
               "snapshots.DeleteEnvironment"; "pins.DeleteEnvironment"; "ssh.PurgeEnvironment";
               "environments.Delete"; "audit.InsertTenant"])
       false ["rule.revoked"; "settings.environment_deleted"; "grant.revoked"] false false);
    ("environment.update-note", mkOpSpec ClassTenant LevelEnv
       [mkAtom CapEdit LevelEnv]
       (sops ["environments.UpdateNote"; "audit.InsertTenant"])
       false [
               "settings.environment_note_changed"; "scanning.finding_blocked";
               "scanning.finding_overridden"] false false);
    ("key.create", mkOpSpec ClassTenant LevelProject
       [mkAtom CapDefinitionsEdit LevelProject]
       (sops [
               "projects.GetCapacity"; "environments.List"; "environments.Count";
               "projects.Get"; "projects.Lock"; "catalogue.Count"; "catalogue.List";
               "catalogue.ListPresence"; "catalogue.GetGroup"; "catalogue.Create";
               "catalogue.ReplacePresence"; "catalogue.BumpSchemaRevision";
               "audit.InsertTenant"])
       false [
               "settings.key_created"; "scanning.finding_blocked";
               "scanning.finding_overridden"] false false)
  ].

(** Rows key.get to key.delete. *)
Definition operationTable_4 : list (Operation * opSpec) :=
  [
    ("key.get", mkOpSpec ClassTenant LevelProject
       [mkAtom CapRead LevelProject]
       (sops ["catalogue.Get"; "catalogue.ListPresence"])
       false [] true false);
    ("key.list", mkOpSpec ClassTenant LevelProject
       [mkAtom CapRead LevelProject]
       (sops [
               "catalogue.List"; "catalogue.ListPresence"; "catalogue.SchemaRevision";
               "catalogue.ListPage"; "catalogue.PresenceForKey"])
       false [] true false);
    ("key.rename", mkOpSpec ClassTenant LevelProject
       [mkAtom CapDefinitionsEdit LevelProject]
       (sops [
               "environments.List"; "projects.Get"; "projects.Lock"; "catalogue.Get";
               "catalogue.Rename"; "catalogue.AdapterPins"; "catalogue.BumpSchemaRevision";
               "catalogue.ListPresence"; "audit.InsertTenant"])
       false [
               "settings.key_renamed"; "scanning.finding_blocked";
               "scanning.finding_overridden"] false false);
    ("key.update-declaration", mkOpSpec ClassTenant LevelProject
       [mkAtom CapDefinitionsEdit LevelProject]
       (sops [
               "environments.List"; "projects.Get"; "projects.Lock"; "catalogue.Get";
               "catalogue.List"; "catalogue.ListPresence"; "catalogue.UpdateDeclaration";
               "catalogue.ReplacePresence"; "catalogue.BumpSchemaRevision";
               "catalogue.SchemaRevision"; "audit.InsertTenant"])
       false [
               "settings.key_declaration_changed"; "scanning.finding_blocked";
               "scanning.finding_overridden"] false false);
    ("key.update-metadata", mkOpSpec ClassTenant LevelProject
       [mkAtom CapDefinitionsEdit LevelProject]
       (sops [
               "projects.Get"; "projects.Lock"; "catalogue.Get"; "catalogue.UpdateMetadata";
               "catalogue.BumpSchemaRevision"; "catalogue.ListPresence"; "audit.InsertTenant";
               "environments.List"])
       false [
               "rule.move_widening_confirmed"; "settings.key_metadata_changed";
               "scanning.finding_blocked"; "scanning.finding_overridden"] false false);
    ("key.set-group", mkOpSpec ClassTenant LevelProject
       [mkAtom CapDefinitionsEdit LevelProject]
       (sops [
               "environments.List"; "projects.Get"; "projects.Lock"; "catalogue.Get";
               "catalogue.GetGroup"; "catalogue.List"; "catalogue.ListPresence";
               "catalogue.SetGroup"; "catalogue.BumpSchemaRevision"; "audit.InsertTenant"])
       false ["settings.key_group_membership_changed"] false false);
    ("key.delete", mkOpSpec ClassTenant LevelProject
       [mkAtom CapDefinitionsEdit LevelProject]
       (sops [
               "pending.DiscardKey"; "environments.List"; "projects.Get"; "projects.Lock";
               "catalogue.Get"; "catalogue.ReplacePresence"; "catalogue.Delete";
               "values.EnvironmentsWithValue"; "catalogue.BumpSchemaRevision";
               "audit.InsertTenant"; "scanningdismissals.DeleteByKey"])
       false ["rule.revoked"; "settings.key_deleted"] false false)
  ].

(** Rows key.reclassify to definitions.plan.get. *)
Definition operationTable_5 : list (Operation * opSpec) :=
  [
    ("key.reclassify", mkOpSpec ClassTenant LevelProject
       [mkAtom CapDefinitionsEdit LevelProject]
       (sops [
               "environments.List"; "projects.Get"; "projects.Lock"; "catalogue.Get";
               "catalogue.SetClassification"; "catalogue.BumpSchemaRevision";
               "catalogue.AdapterPins"; "catalogue.ListPresence"; "audit.InsertTenant";
               "scanningdismissals.DeleteByKey"; "values.EnvironmentsWithValue"])
       false ["settings.key_reclassified"; "scanning.finding_warned"] false false);
    ("key.secret-rule-change", mkOpSpec ClassTenant LevelProject
       [mkAtom CapReveal LevelProject]
       ∅
       false ["settings.key_reveal_gate_attempt"] false false);
    ("key.declassify", mkOpSpec ClassTenant LevelProject
       [mkAtom CapReveal LevelProject]
       ∅
       false ["settings.key_reveal_gate_attempt"] false false);
    ("definitions.export", mkOpSpec ClassTenant LevelProject
       [mkAtom CapRead LevelProject]
       (sops [
               "projects.Get"; "environments.List"; "catalogue.List"; "catalogue.ListPresence";
               "catalogue.ListGroups"; "catalogue.SchemaRevision"])
       false [] true false);
    ("definitions.check", mkOpSpec ClassTenant LevelProject
       [mkAtom CapRead LevelProject]
       (sops [
               "projects.Get"; "environments.List"; "catalogue.List"; "catalogue.ListPresence";
               "catalogue.ListGroups"; "catalogue.SchemaRevision"])
       false [] true false);
    ("definitions.plan", mkOpSpec ClassTenant LevelProject
       [mkAtom CapDefinitionsEdit LevelProject]
       (sops [
               "projects.GetCapacity"; "projects.Lock"; "projects.Get"; "environments.List";
               "environments.ListProtection"; "catalogue.List"; "catalogue.ListPresence";
               "catalogue.ListGroups"; "catalogue.SchemaRevision";
               "snapshots.ProjectRevisions"; "values.CountEnvironmentValues";
               "values.EnvironmentsWithValue"; "definitions.CountOpenPlans";
               "definitions.CreatePlan"; "audit.InsertTenant"])
       false [
               "definitions.plan_created"; "definitions.additive_modification_refused";
               "scanning.finding_blocked"; "scanning.finding_overridden"] false false);
    ("definitions.plan.get", mkOpSpec ClassTenant LevelProject
       [mkAtom CapDefinitionsEdit LevelProject]
       (sops ["definitions.GetPlan"])
       false [] false true)
  ].

(** Rows definitions.apply to value.read. *)
Definition operationTable_6 : list (Operation * opSpec) :=
  [
    ("definitions.apply", mkOpSpec ClassTenant LevelProject
       [mkAtom CapDefinitionsEdit LevelProject]
       (sops [
               "projects.GetCapacity"; "projects.Lock"; "projects.Get"; "environments.List";
               "environments.ListProtection"; "environments.Count"; "environments.NextOrder";
               "environments.Create"; "environments.Rename"; "environments.Delete";
               "catalogue.List"; "catalogue.Get"; "catalogue.Count"; "catalogue.ListPresence";
               "catalogue.ListGroups"; "catalogue.GetGroup"; "catalogue.SchemaRevision";
               "catalogue.BumpSchemaRevision"; "catalogue.Create"; "catalogue.Rename";
               "catalogue.UpdateMetadata"; "catalogue.UpdateDeclaration";
               "catalogue.SetClassification"; "catalogue.SetGroup"; "catalogue.Delete";
               "catalogue.AdapterPins"; "catalogue.ReplacePresence";
               "catalogue.DeletePresenceForEnvironment"; "catalogue.CreateGroup";
               "catalogue.RenameGroup"; "catalogue.DeleteGroup"; "catalogue.ClearGroupMembers";
               "values.CountEnvironmentValues"; "values.EnvironmentsWithValue";
               "values.ClearKey"; "pending.DiscardKey"; "scanningdismissals.DeleteByKey";
               "snapshots.ProjectRevisions"; "snapshots.DeleteEnvironment";
               "pins.DeleteEnvironment"; "ssh.PurgeEnvironment"; "definitions.GetPlan";
               "definitions.MarkPlanApplied"; "audit.InsertTenant"])
       false [
               "rule.move_widening_confirmed"; "rule.revoked"; "definitions.applied";
               "grant.revoked"; "definitions.apply_rejected_stale";
               "definitions.deletion_refused"; "settings.environment_created";
               "settings.environment_renamed"; "settings.environment_deleted";
               "settings.key_group_created"; "settings.key_group_renamed";
               "settings.key_group_deleted"; "settings.key_created"; "settings.key_renamed";
               "settings.key_deleted"; "settings.key_metadata_changed";
               "settings.key_declaration_changed"; "settings.key_reclassified";
               "settings.key_group_membership_changed"; "scanning.finding_blocked";
               "scanning.finding_overridden"] false false);
    ("definitions.settings.get", mkOpSpec ClassTenant LevelProject
       [mkAtom CapRead LevelProject]
       (sops ["projects.Get"; "definitions.LatestAppliedPlan"; "environments.List"])
       false [] true false);
    ("definitions.settings.set", mkOpSpec ClassTenant LevelProject
       [mkAtom CapProjectSettings LevelProject]
       (sops [
               "projects.Get"; "projects.SetDefinitionsSource";
               "definitions.LatestAppliedPlan"; "audit.InsertTenant"])
       false ["settings.definitions_source_changed"] false false);
    ("project.capacity.read", mkOpSpec ClassTenant LevelProject
       [mkAtom CapProjectSettings LevelProject]
       (sops ["projects.GetCapacity"; "catalogue.Count"; "environments.Count"])
       false [] false true);
    ("project.capacity.set", mkOpSpec ClassTenant LevelProject
       [mkAtom CapProjectSettings LevelProject]
       (sops [
               "projects.Lock"; "projects.GetCapacity"; "projects.SetCapacity";
               "catalogue.Count"; "environments.Count"; "audit.InsertTenant"])
       false ["project.capacity_changed"] false false);
    ("project.machine-reveal.get", mkOpSpec ClassTenant LevelProject
       [mkAtom CapRead LevelProject]
       (sops ["projects.Get"])
       false [] true false);
    ("project.machine-reveal.set", mkOpSpec ClassTenant LevelProject
       [mkAtom CapProjectSettings LevelProject; mkAtom CapReveal LevelProject]
       (sops ["projects.Get"; "projects.SetMachineReveal"; "audit.InsertTenant"])
       false ["settings.machine_reveal_changed"] false false);
    ("value.read", mkOpSpec ClassTenant LevelEnv
       [mkAtom CapRead LevelEnv]
       (sops ["catalogue.List"; "values.Get"])
       false [] true false)
  ].

(** Rows value.list to value.copy-destination. *)
Definition operationTable_7 : list (Operation * opSpec) :=
  [
    ("value.list", mkOpSpec ClassTenant LevelEnv
       [mkAtom CapRead LevelEnv]
       (sops [
               "environments.Parameters"; "catalogue.List"; "values.List"; "values.Get";
               "catalogue.ListPresence"; "catalogue.ListPage"])
       false [] true false);
    ("reveal.window_read", mkOpSpec ClassTenant LevelEnv
       [mkAtom CapRead LevelEnv]
       (sops [])
       false [] true false);
    ("value.reveal", mkOpSpec ClassTenant LevelEnv
       [mkAtom CapRead LevelEnv; mkAtom CapReveal LevelEnv]
       (sops ["catalogue.List"; "values.Get"; "values.List"; "audit.InsertTenant"])
       false ["disclosure.value_revealed"] false false);
    ("value.set", mkOpSpec ClassTenant LevelEnv
       [mkAtom CapEdit LevelEnv; mkAtom CapPublish LevelEnv]
       (sops [
               "environments.Parameters"; "projects.Lock"; "catalogue.List";
               "catalogue.ListPresence"; "values.Put"; "keys.AssertActiveDEKVersion";
               "audit.InsertTenant"])
       false ["value.set"; "scanning.finding_warned"] false false);
    ("value.initialize", mkOpSpec ClassTenant LevelEnv
       [mkAtom CapDefinitionsEdit LevelEnv; mkAtom CapPublish LevelEnv]
       (sops [
               "projects.Lock"; "catalogue.List"; "values.Get"; "snapshots.Latest";
               "pending.Stage"; "audit.InsertTenant"; "pending.CountForProjectExcludingCell";
               "scanningdismissals.Exists"; "scanningdismissals.Insert";
               "keys.AssertActiveDEKVersion"])
       false ["value.staged"; "scanning.finding_warned"; "scanning.finding_dismissed"] false false);
    ("value.clear", mkOpSpec ClassTenant LevelEnv
       [mkAtom CapEdit LevelEnv; mkAtom CapPublish LevelEnv]
       (sops [
               "projects.Lock"; "catalogue.List"; "catalogue.ListPresence"; "values.Clear";
               "audit.InsertTenant"])
       false ["value.cleared"] false false);
    ("value.copy-source", mkOpSpec ClassTenant LevelEnv
       [mkAtom CapReveal LevelEnv]
       (sops ["catalogue.List"; "values.Get"; "values.List"; "audit.InsertTenant"])
       false ["disclosure.value_revealed"] false false);
    ("value.copy-destination", mkOpSpec ClassTenant LevelEnv
       [mkAtom CapReveal LevelEnv; mkAtom CapPublish LevelEnv]
       (sops [
               "environments.Parameters"; "projects.Lock"; "catalogue.List";
               "catalogue.ListPresence"; "environments.Settings"; "approvals.CoveringPolicy";
               "values.Put"; "keys.AssertActiveDEKVersion"; "audit.InsertTenant"])
       false ["disclosure.value_copied"] false false)
  ].

(** Rows value.copy-destination-config to value.validate. *)
Definition operationTable_8 : list (Operation * opSpec) :=
  [
    ("value.copy-destination-config", mkOpSpec ClassTenant LevelEnv
       [mkAtom CapPublish LevelEnv]
       (sops [
               "environments.Parameters"; "projects.Lock"; "catalogue.List";
               "catalogue.ListPresence"; "environments.Settings"; "approvals.CoveringPolicy";
               "values.Put"; "keys.AssertActiveDEKVersion"; "audit.InsertTenant"])
       false ["disclosure.value_copied"; "scanning.finding_warned"] false false);
    ("import.presence", mkOpSpec ClassTenant LevelEnv
       [mkAtom CapRead LevelProject]
       (sops ["catalogue.List"; "values.List"; "catalogue.SchemaRevision"])
       false [] true false);
    ("value.import", mkOpSpec ClassTenant LevelEnv
       [mkAtom CapRead LevelProject; mkAtom CapEdit LevelEnv; mkAtom CapPublish LevelEnv]
       (sops [
               "environments.Parameters"; "projects.Lock"; "catalogue.List";
               "catalogue.ListPresence"; "catalogue.SchemaRevision"; "values.List";
               "values.Put"; "keys.AssertActiveDEKVersion"; "audit.InsertTenant"])
       false ["value.set"; "value.imported"; "scanning.finding_warned"] false false);
    ("value.stage", mkOpSpec ClassTenant LevelEnv
       [mkAtom CapEdit LevelEnv]
       (sops [
               "projects.Lock"; "catalogue.List"; "values.Get"; "snapshots.Latest";
               "pending.Stage"; "audit.InsertTenant"; "pending.CountForProjectExcludingCell";
               "scanningdismissals.Exists"; "scanningdismissals.Insert";
               "keys.AssertActiveDEKVersion"])
       false ["value.staged"; "scanning.finding_warned"; "scanning.finding_dismissed"] false false);
    ("value.validate", mkOpSpec ClassTenant LevelEnv
       [mkAtom CapEdit LevelEnv]
       (sops [
               "catalogue.List"; "catalogue.ListPresence"; "environments.Parameters";
               "audit.InsertTenant"])
       false ["value.change_validated"] false false)
  ].

(** Rows value.publish to approval.policy-read. *)
Definition operationTable_9 : list (Operation * opSpec) :=
  [
    ("value.publish", mkOpSpec ClassTenant LevelEnv
       [mkAtom CapPublish LevelEnv]
       (sops [
               "projects.Lock"; "catalogue.List"; "catalogue.ListPresence";
               "catalogue.SchemaRevision"; "values.List"; "values.Put"; "values.Clear";
               "pending.ListForOwner"; "pending.ListMarkers"; "pending.Discard";
               "snapshots.Latest"; "snapshots.Entries"; "snapshots.Insert";
               "snapshots.InsertEntry"; "environments.Parameters";
               "snapshots.RecordSecretValueOccurrence"; "snapshots.InsertChange";
               "adapters.EnqueuePublished"; "keys.AssertActiveDEKVersion";
               "audit.InsertTenant"; "values.PayloadBytesForProject";
               "snapshots.PayloadBytesForProject"; "approvals.CoveringPolicy";
               "approvals.GetPolicy"; "approvals.InsertRequest"; "approvals.GetRequest";
               "approvals.UpdateRequestState"; "approvals.ListVotes";
               "approvals.ListApprovers"; "approvals.IsBypasser"; "scim.UserByAccount";
               "scim.MembershipsForUser"])
       true [
               "revision.published"; "value.set"; "value.cleared"; "adapter.sync_requested";
               "adapter.superseded"; "scanning.finding_warned"; "approval.requested";
               "approval.merged"; "approval.invalidated"; "approval.bypassed"] false false);
    ("key.schema-publish-empty", mkOpSpec ClassTenant LevelEnv
       [mkAtom CapDefinitionsEdit LevelProject]
       (sops [
               "catalogue.List"; "catalogue.ListPresence"; "catalogue.SchemaRevision";
               "values.List"; "snapshots.Latest"; "snapshots.Entries"; "snapshots.Insert";
               "snapshots.InsertEntry"; "snapshots.RecordSecretValueOccurrence";
               "snapshots.InsertChange"; "environments.Parameters";
               "adapters.EnqueuePublished"; "keys.AssertActiveDEKVersion";
               "audit.InsertTenant"; "values.PayloadBytesForProject";
               "snapshots.PayloadBytesForProject"])
       false [
               "revision.published"; "value.set"; "value.cleared"; "adapter.sync_requested";
               "adapter.superseded"] false false);
    ("key.schema-publish-values", mkOpSpec ClassTenant LevelEnv
       [mkAtom CapDefinitionsEdit LevelEnv; mkAtom CapPublish LevelEnv]
       (sops [
               "catalogue.List"; "catalogue.ListPresence"; "catalogue.SchemaRevision";
               "values.List"; "snapshots.Latest"; "snapshots.Entries"; "snapshots.Insert";
               "snapshots.InsertEntry"; "snapshots.RecordSecretValueOccurrence";
               "snapshots.InsertChange"; "environments.Parameters";
               "adapters.EnqueuePublished"; "keys.AssertActiveDEKVersion";
               "audit.InsertTenant"; "values.PayloadBytesForProject";
               "snapshots.PayloadBytesForProject"])
       false [
               "revision.published"; "value.set"; "value.cleared"; "adapter.sync_requested";
               "adapter.superseded"] false false);
    ("approval.policy-write", mkOpSpec ClassTenant LevelProject
       [mkAtom CapProjectSettings LevelProject]
       (sops [
               "approvals.InsertPolicy"; "approvals.GetPolicy"; "approvals.ListPolicies";
               "approvals.UpdatePolicy"; "approvals.DeletePolicy"; "approvals.InsertApprover";
               "approvals.ListApprovers"; "approvals.ClearApprovers";
               "approvals.InsertBypasser"; "approvals.ListBypassers";
               "approvals.ClearBypassers"; "audit.InsertTenant"])
       false ["approval.policy_changed"] false false);
    ("approval.policy-read", mkOpSpec ClassTenant LevelProject
       [mkAtom CapProjectSettings LevelProject]
       (sops [
               "approvals.GetPolicy"; "approvals.ListPolicies"; "approvals.ListApprovers";
               "approvals.ListBypassers"; "audit.InsertTenant"])
       false ["approval.policy_read"] false false)
  ].

(** Rows approval.request-read to access.request-read. *)
Definition operationTable_10 : list (Operation * opSpec) :=
  [
    ("approval.request-read", mkOpSpec ClassTenant LevelEnv
       [mkAtom CapRead LevelEnv]
       (sops [
               "approvals.GetRequest"; "approvals.ListRequests"; "approvals.ListVotes";
               "approvals.GetPolicy"; "approvals.CoveringPolicy"; "approvals.ListApprovers";
               "approvals.ListBypassers"; "scim.UserByAccount"; "scim.MembershipsForUser"])
       false [] true false);
    ("approval.vote", mkOpSpec ClassTenant LevelEnv
       [mkAtom CapPublish LevelEnv]
       (sops [
               "approvals.GetRequest"; "approvals.UpdateRequestState"; "approvals.GetVote";
               "approvals.InsertVote"; "approvals.ListVotes"; "approvals.GetPolicy";
               "approvals.ListApprovers"; "pending.ListForOwner"; "pending.ListMarkers";
               "catalogue.List"; "catalogue.SchemaRevision"; "snapshots.Latest";
               "scim.UserByAccount"; "scim.MembershipsForUser"; "audit.InsertTenant"])
       true ["approval.voted"; "approval.invalidated"] false false);
    ("approval.bypass", mkOpSpec ClassTenant LevelEnv
       [mkAtom CapPublish LevelEnv]
       (sops [
               "approvals.IsBypasser"; "approvals.GetRequest"; "approvals.UpdateRequestState";
               "audit.InsertTenant"])
       false ["approval.bypassed"] false false);
    ("access.policy-write", mkOpSpec ClassTenant LevelProject
       [mkAtom CapManageMembers LevelProject]
       (sops [
               "access.InsertPolicy"; "access.GetPolicy"; "access.ListPolicies";
               "access.UpdatePolicy"; "access.DeletePolicy"; "access.CoveringPolicy";
               "access.InsertApprover"; "access.ListApprovers"; "access.ClearApprovers";
               "access.InsertBypasser"; "access.ListBypassers"; "access.ClearBypassers";
               "audit.InsertTenant"])
       false ["access.policy_changed"] false false);
    ("access.policy-read", mkOpSpec ClassTenant LevelProject
       [mkAtom CapManageMembers LevelProject]
       (sops [
               "access.GetPolicy"; "access.ListPolicies"; "access.ListApprovers";
               "access.ListBypassers"; "audit.InsertTenant"])
       false ["access.policy_read"] false false);
    ("access.request-create", mkOpSpec ClassTenant LevelEnv
       [mkAtom CapRead LevelEnv]
       (sops [
               "access.CoveringPolicy"; "access.InsertRequest"; "access.GetRequest";
               "access.ListVotes"; "access.GetPolicy"; "access.ListApprovers";
               "scim.UserByAccount"; "scim.MembershipsForUser"; "audit.InsertTenant"])
       true ["access.requested"] false false);
    ("access.request-read", mkOpSpec ClassTenant LevelEnv
       [mkAtom CapRead LevelEnv]
       (sops [
               "access.GetRequest"; "access.ListRequests"; "access.ListVotes";
               "access.GetPolicy"; "access.CoveringPolicy"; "access.ListApprovers";
               "access.IsBypasser"; "scim.UserByAccount"; "scim.MembershipsForUser"])
       false [] true false)
  ].

(** Rows access.vote to crypto.rotate-dek. *)
Definition operationTable_11 : list (Operation * opSpec) :=
  [
    ("access.vote", mkOpSpec ClassTenant LevelEnv
       [mkAtom CapRead LevelEnv]
       (sops [
               "access.GetRequest"; "access.GrantRequest"; "access.ResolveRequest";
               "access.GetVote"; "access.InsertVote"; "access.ListVotes"; "access.GetPolicy";
               "access.ListApprovers"; "scim.UserByAccount"; "scim.MembershipsForUser";
               "audit.InsertTenant"])
       true ["access.voted"; "access.granted"; "access.invalidated"] false false);
    ("access.cancel", mkOpSpec ClassTenant LevelEnv
       [mkAtom CapRead LevelEnv]
       (sops ["access.GetRequest"; "access.ResolveRequest"; "audit.InsertTenant"])
       true ["access.cancelled"] false false);
    ("access.revoke", mkOpSpec ClassTenant LevelEnv
       [mkAtom CapRead LevelEnv]
       (sops [
               "access.GetRequest"; "access.ResolveRequest"; "access.GetPolicy";
               "access.ListApprovers"; "scim.UserByAccount"; "scim.MembershipsForUser";
               "audit.InsertTenant"])
       true ["access.revoked"] false false);
    ("access.bypass", mkOpSpec ClassTenant LevelEnv
       [mkAtom CapRead LevelEnv]
       (sops [
               "access.CoveringPolicy"; "access.IsBypasser"; "access.InsertRequest";
               "access.GetRequest"; "catalogue.List"; "audit.InsertTenant"])
       true ["access.bypassed"] false false);
    ("value.export", mkOpSpec ClassTenant LevelEnv
       [mkAtom CapRead LevelEnv]
       (sops [
               "snapshots.Latest"; "snapshots.AtRevision"; "snapshots.Entries";
               "snapshots.ParameterContract"; "snapshots.SecretValueOccurrenceIDsIn";
               "catalogue.List"; "audit.InsertTenant"])
       false ["disclosure.values_exported"] false false);
    ("value.export-reveal", mkOpSpec ClassTenant LevelEnv
       [mkAtom CapRead LevelEnv; mkAtom CapReveal LevelEnv]
       (sops [
               "snapshots.Latest"; "snapshots.AtRevision"; "snapshots.Entries";
               "snapshots.ParameterContract"; "snapshots.SecretValueOccurrenceIDsIn";
               "catalogue.List"; "audit.InsertTenant"])
       false ["disclosure.value_revealed"; "disclosure.values_exported"] false false);
    ("value.export-reveal-history", mkOpSpec ClassTenant LevelEnv
       [mkAtom CapRead LevelEnv; mkAtom CapRevealHistory LevelEnv]
       (sops [
               "snapshots.Latest"; "snapshots.AtRevision"; "snapshots.Entries";
               "snapshots.ParameterContract"; "snapshots.SecretValueOccurrenceIDsIn";
               "catalogue.List"; "audit.InsertTenant"])
       false ["disclosure.value_revealed"; "disclosure.values_exported"] false false);
    ("crypto.rotate-token-key", mkOpSpec ClassInstance LevelNone
       [mkAtom CapRotateDEK LevelNone]
       (sops ["keys.RotateTokenKey"; "audit.InsertInstance"])
       false ["crypto.token_key_rotated"] false false);
    ("crypto.rotate-scanning-key", mkOpSpec ClassInstance LevelNone
       [mkAtom CapRotateDEK LevelNone]
       (sops [
               "keys.RotateScanningKey"; "scanningdismissals.DeleteAll"; "audit.InsertInstance"])
       false ["crypto.scanning_key_rotated"] false false);
    ("crypto.rotate-dek", mkOpSpec ClassInstance LevelNone
       [mkAtom CapRotateDEK LevelNone]
       (sops ["keys.RotateDEK"; "audit.InsertInstance"])
       false ["crypto.dek_rotated"] false false)
  ].

(** Rows crypto.reencrypt-project to revision.signals. *)
Definition operationTable_12 : list (Operation * opSpec) :=
  [
    ("crypto.reencrypt-project", mkOpSpec ClassTenant LevelProject
       [mkAtom CapReencrypt LevelNone]
       (sops [
               "values.ListForReencrypt"; "values.Reencrypt"; "snapshots.ListForReencrypt";
               "snapshots.Reencrypt"; "pending.ListForReencrypt"; "pending.Reencrypt";
               "adapters.ListAdaptersForReencrypt"; "adapters.ReencryptAdapter";
               "adapters.ListRouteMovesForReencrypt"; "adapters.ReencryptRouteMove";
               "dynamic.ListProvidersForReencrypt"; "dynamic.ReencryptProvider";
               "ssh.ListCAKeysForReencrypt"; "ssh.ReencryptCAKey";
               "transit.ListVersionsForReencrypt"; "transit.ReencryptVersion";
               "keys.AssertActiveDEKVersion"; "keys.RetireRetiringTier3";
               "retention.RecordReencryptSuccess"; "audit.InsertTenant"])
       false ["crypto.reencrypt_completed"] false false);
    ("crypto.reencrypt-instance", mkOpSpec ClassInstance LevelNone
       [mkAtom CapReencrypt LevelNone]
       (sops [
               "reencrypt.ListPasswordCredsForReencrypt"; "reencrypt.ReencryptPasswordCred";
               "reencrypt.ListTotpCredsForReencrypt"; "reencrypt.ReencryptTotpCred";
               "reencrypt.ListRecoveryCodesForReencrypt"; "reencrypt.ReencryptRecoveryCodes";
               "reencrypt.ListOidcProvidersForReencrypt"; "reencrypt.ReencryptOidcProvider";
               "reencrypt.ListOauth2ProvidersForReencrypt";
               "reencrypt.ReencryptOauth2Provider"; "reencrypt.ListSamlKeysForReencrypt";
               "reencrypt.ReencryptSamlKey"; "reencrypt.ListSelfConfigSeedInputsForReencrypt";
               "reencrypt.ReencryptSelfConfigSeedInput";
               "reencrypt.ListPairingInvitesForReencrypt"; "reencrypt.ReencryptPairingInvites";
               "reencrypt.ListPairingExchangesForReencrypt";
               "reencrypt.ReencryptPairingExchanges"; "reencrypt.ListRemotesForReencrypt";
               "reencrypt.ReencryptRemote"; "reencrypt.ListPkiIssuersForReencrypt";
               "reencrypt.ReencryptPkiIssuer"; "keys.AssertActiveDEKVersion";
               "keys.RetireRetiringTier3"; "retention.RecordReencryptSuccess";
               "audit.InsertInstance"])
       false ["crypto.reencrypt_completed"] false false);
    ("crypto.rotate-master-key", mkOpSpec ClassInstance LevelNone
       [mkAtom CapRotateMasterKey LevelNone]
       (sops ["keys.RotateMasterKey"; "audit.InsertInstance"])
       false ["crypto.master_key_rotated"] false false);
    ("crypto.rotate-root-key", mkOpSpec ClassInstance LevelNone
       [mkAtom CapRotateRootKey LevelNone]
       (sops [
               "keys.RootKeyRotatePrepare"; "keys.AssertRootKeyEpoch";
               "keys.RootKeyRotateFinalize"; "audit.InsertInstance"])
       false [
               "crypto.root_key_rotation_prepared"; "crypto.root_key_rotation_verified";
               "crypto.root_key_rotation_finalized"] false false);
    ("revision.list", mkOpSpec ClassTenant LevelEnv
       [mkAtom CapRead LevelEnv]
       (sops ["snapshots.ListPage"; "snapshots.ChangesInRange"])
       false [] true false);
    ("revision.show", mkOpSpec ClassTenant LevelEnv
       [mkAtom CapRead LevelEnv]
       (sops [
               "snapshots.Latest"; "snapshots.AtRevision"; "snapshots.Entries";
               "snapshots.Changes"; "snapshots.SecretValueOccurrenceIDsIn"])
       false [] true false);
    ("value.pending-list", mkOpSpec ClassTenant LevelEnv
       [mkAtom CapRead LevelEnv]
       (sops [
               "environments.Parameters"; "catalogue.List"; "catalogue.ListPresence";
               "pending.ListForOwnerInEnvironment"; "pending.ListForOwnerInEnvironmentPage";
               "catalogue.GetInProject"; "catalogue.PresenceForKey"])
       false [] true false);
    ("revision.signals", mkOpSpec ClassTenant LevelEnv
       [mkAtom CapRead LevelEnv]
       (sops [
               "catalogue.List"; "pending.ListMarkers"; "snapshots.Latest"; "snapshots.Changes"])
       false [] true false)
  ].

(** Rows revision.restore to key-group.list. *)
Definition operationTable_13 : list (Operation * opSpec) :=
  [
    ("revision.restore", mkOpSpec ClassTenant LevelEnv
       [mkAtom CapEdit LevelEnv]
       (sops [
               "projects.Lock"; "catalogue.List"; "catalogue.SchemaRevision"; "values.List";
               "snapshots.Latest"; "snapshots.AtRevision"; "snapshots.Entries";
               "snapshots.SecretValueOccurrenceIDsIn"; "pending.ListForOwner";
               "pending.ListMarkers"; "pending.Stage"; "keys.AssertActiveDEKVersion";
               "audit.InsertTenant"])
       false ["value.staged"; "revision.restore_staged"; "disclosure.value_revealed"] false false);
    ("revision.restore-reveal-history", mkOpSpec ClassTenant LevelEnv
       [mkAtom CapRead LevelEnv; mkAtom CapRevealHistory LevelEnv]
       (sops [])
       false ["value.staged"; "revision.restore_staged"] false false);
    ("revision.restore-reveal-current", mkOpSpec ClassTenant LevelEnv
       [mkAtom CapRead LevelEnv; mkAtom CapReveal LevelEnv]
       (sops [])
       false ["value.staged"; "revision.restore_staged"] false false);
    ("pin.set", mkOpSpec ClassTenant LevelEnv
       [mkAtom CapPin LevelEnv; mkAtom CapPublish LevelEnv]
       (sops [
               "snapshots.ParameterContract"; "orgs.Get"; "projects.Get"; "projects.Lock";
               "catalogue.List"; "catalogue.ListPresence"; "snapshots.Latest";
               "snapshots.AtRevision"; "snapshots.Entries"; "snapshots.List";
               "snapshots.SecretValueOccurrenceIDsIn"; "pins.GetForWorkload";
               "pins.CountProject"; "pins.Insert"; "pins.Delete"; "pins.List";
               "audit.InsertTenant"])
       false [
               "pin.created"; "pin.reassigned"; "pin.renewed"; "pin.expiry_refused";
               "disclosure.value_revealed"] false false);
    ("pin.set-reveal-history", mkOpSpec ClassTenant LevelEnv
       [mkAtom CapRevealHistory LevelEnv]
       (sops [])
       false ["pin.created"; "pin.reassigned"; "pin.renewed"] false false);
    ("pin.list", mkOpSpec ClassTenant LevelEnv
       [mkAtom CapRead LevelEnv]
       (sops ["orgs.Get"; "projects.Get"; "snapshots.List"; "pins.List"])
       false [] true false);
    ("pin.release", mkOpSpec ClassTenant LevelEnv
       [mkAtom CapPin LevelEnv]
       (sops [
               "orgs.Get"; "orgs.Lock"; "projects.Get"; "projects.Lock"; "snapshots.List";
               "pins.GetForWorkload"; "pins.List"; "pins.Delete"; "retention.LockSnapshot";
               "audit.InsertTenant"])
       false ["pin.released"] false false);
    ("advisory.watch", mkOpSpec ClassTenant LevelProject
       [mkAtom CapRead LevelProject]
       (sops [])
       false [] true false);
    ("advisory.event", mkOpSpec ClassTenant LevelEnv
       [mkAtom CapRead LevelEnv]
       (sops [])
       false [] true false);
    ("key-group.create", mkOpSpec ClassTenant LevelProject
       [mkAtom CapDefinitionsEdit LevelProject]
       (sops [
               "environments.List"; "projects.Get"; "projects.Lock"; "catalogue.CountGroups";
               "catalogue.CreateGroup"; "catalogue.BumpSchemaRevision"; "audit.InsertTenant"])
       false [
               "settings.key_group_created"; "scanning.finding_blocked";
               "scanning.finding_overridden"] false false);
    ("key-group.get", mkOpSpec ClassTenant LevelProject
       [mkAtom CapRead LevelProject]
       (sops ["catalogue.GetGroup"; "catalogue.List"])
       false [] true false);
    ("key-group.list", mkOpSpec ClassTenant LevelProject
       [mkAtom CapRead LevelProject]
       (sops ["catalogue.ListGroups"; "catalogue.List"])
       false [] true false)
  ].

(** Rows key-group.rename to audit.instance-export. *)
Definition operationTable_14 : list (Operation * opSpec) :=
  [
    ("key-group.rename", mkOpSpec ClassTenant LevelProject
       [mkAtom CapDefinitionsEdit LevelProject]
       (sops [
               "environments.List"; "projects.Get"; "projects.Lock"; "catalogue.GetGroup";
               "catalogue.RenameGroup"; "catalogue.List"; "catalogue.BumpSchemaRevision";
               "audit.InsertTenant"])
       false [
               "settings.key_group_renamed"; "scanning.finding_blocked";
               "scanning.finding_overridden"] false false);
    ("key-group.delete", mkOpSpec ClassTenant LevelProject
       [mkAtom CapDefinitionsEdit LevelProject]
       (sops [
               "environments.List"; "projects.Get"; "projects.Lock"; "catalogue.GetGroup";
               "catalogue.List"; "catalogue.ClearGroupMembers"; "catalogue.DeleteGroup";
               "catalogue.BumpSchemaRevision"; "audit.InsertTenant"])
       false ["settings.key_group_deleted"] false false);
    ("folder.create", mkOpSpec ClassTenant LevelProject
       [mkAtom CapDefinitionsEdit LevelProject]
       (sops ["projects.Get"; "folders.Create"; "audit.InsertTenant"])
       false [
               "settings.folder_created"; "scanning.finding_blocked";
               "scanning.finding_overridden"] false false);
    ("folder.get", mkOpSpec ClassTenant LevelProject
       [mkAtom CapRead LevelProject]
       (sops ["folders.Get"])
       false [] true false);
    ("folder.list", mkOpSpec ClassTenant LevelProject
       [mkAtom CapRead LevelProject]
       (sops ["folders.List"])
       false [] true false);
    ("folder.rename", mkOpSpec ClassTenant LevelProject
       [mkAtom CapDefinitionsEdit LevelProject]
       (sops ["projects.Get"; "folders.Get"; "folders.Rename"; "audit.InsertTenant"])
       false [
               "settings.folder_renamed"; "scanning.finding_blocked";
               "scanning.finding_overridden"] false false);
    ("folder.delete", mkOpSpec ClassTenant LevelProject
       [mkAtom CapDefinitionsEdit LevelProject]
       (sops ["projects.Get"; "folders.Get"; "folders.Delete"; "audit.InsertTenant"])
       false ["settings.folder_deleted"] false false);
    ("audit.query-org", mkOpSpec ClassTenant LevelOrg
       [mkAtom CapAuditRead LevelOrg]
       (sops ["audit.PageTenant"; "audit.MaxTenantSeq"; "audit.InsertTenant"])
       false ["audit.query"] false false);
    ("audit.query-project", mkOpSpec ClassTenant LevelProject
       [mkAtom CapAuditRead LevelProject]
       (sops ["audit.PageTenant"; "audit.MaxTenantSeq"; "audit.InsertTenant"])
       false ["audit.query"] false false);
    ("audit.query-env", mkOpSpec ClassTenant LevelEnv
       [mkAtom CapAuditRead LevelEnv]
       (sops ["audit.PageTenant"; "audit.MaxTenantSeq"; "audit.InsertTenant"])
       false ["audit.query"] false false);
    ("audit.export-org", mkOpSpec ClassTenant LevelOrg
       [mkAtom CapAuditRead LevelOrg]
       (sops ["audit.PageTenant"; "audit.InsertTenant"])
       false ["audit.export_started"; "audit.export_completed"] false false);
    ("audit.export-project", mkOpSpec ClassTenant LevelProject
       [mkAtom CapAuditRead LevelProject]
       (sops ["audit.PageTenant"; "audit.InsertTenant"])
       false ["audit.export_started"; "audit.export_completed"] false false);
    ("audit.export-env", mkOpSpec ClassTenant LevelEnv
       [mkAtom CapAuditRead LevelEnv]
       (sops ["audit.PageTenant"; "audit.InsertTenant"])
       false ["audit.export_started"; "audit.export_completed"] false false);
    ("audit.instance-query", mkOpSpec ClassInstance LevelNone
       [mkAtom CapAuditRead LevelNone]
       (sops ["audit.PageInstance"; "audit.MaxInstanceSeq"; "audit.InsertInstance"])
       false ["audit.query"] false false);
    ("audit.instance-export", mkOpSpec ClassInstance LevelNone
       [mkAtom CapAuditRead LevelNone]
       (sops ["audit.PageInstance"; "audit.InsertInstance"])
       false ["audit.export_started"; "audit.export_completed"] false false)
  ].

(** Rows grant.create-org to grant.list-instance. *)
Definition operationTable_15 : list (Operation * opSpec) :=
  [
    ("grant.create-org", mkOpSpec ClassTenant LevelOrg
       [mkAtom CapManageMembers LevelOrg]
       (withCure (sops ["audit.InsertTenant"]))
       false (["grant.created"; "grant.modified"] ++ grantCureEvents) false false);
    ("grant.create-project", mkOpSpec ClassTenant LevelProject
       [mkAtom CapManageMembers LevelProject]
       (sops ["audit.InsertTenant"])
       false ["grant.created"; "grant.modified"; "identity.grant_widened"] false false);
    ("grant.create-env", mkOpSpec ClassTenant LevelEnv
       [mkAtom CapManageMembers LevelProject]
       (sops ["audit.InsertTenant"])
       false ["grant.created"; "grant.modified"; "identity.grant_widened"] false false);
    ("grant.create-instance", mkOpSpec ClassInstance LevelNone
       [mkAtom CapManageMembers LevelNone]
       (sops ["audit.InsertInstance"])
       false (["grant.created"; "grant.modified"] ++ grantCureEvents) false false);
    ("grant.revoke-org", mkOpSpec ClassTenant LevelOrg
       [mkAtom CapManageMembers LevelOrg]
       (sops ["audit.InsertTenant"])
       false ["grant.revoked"; "grant.modified"] false false);
    ("rule.create", mkOpSpec ClassTenant LevelProject
       [mkAtom CapManageMembers LevelProject]
       (sops ["audit.InsertTenant"])
       false ["rule.created"] false false);
    ("rule.revoke", mkOpSpec ClassTenant LevelProject
       [mkAtom CapManageMembers LevelProject]
       (sops ["audit.InsertTenant"])
       false ["rule.revoked"] false false);
    ("rule.list-org", mkOpSpec ClassTenant LevelOrg
       [mkAtom CapManageMembers LevelOrg]
       (sops ["audit.InsertTenant"])
       false ["grant.membership_read"] false false);
    ("rule.list-project", mkOpSpec ClassTenant LevelProject
       [mkAtom CapManageMembers LevelProject]
       (sops ["audit.InsertTenant"])
       false ["grant.membership_read"] false false);
    ("grant.revoke-project", mkOpSpec ClassTenant LevelProject
       [mkAtom CapManageMembers LevelProject]
       (sops ["audit.InsertTenant"])
       false ["grant.revoked"; "grant.modified"] false false);
    ("grant.revoke-env", mkOpSpec ClassTenant LevelEnv
       [mkAtom CapManageMembers LevelProject]
       (sops ["audit.InsertTenant"])
       false ["grant.revoked"; "grant.modified"] false false);
    ("grant.revoke-instance", mkOpSpec ClassInstance LevelNone
       [mkAtom CapManageMembers LevelNone]
       (sops ["audit.InsertInstance"])
       false ["grant.revoked"; "grant.modified"] false false);
    ("grant.list-org", mkOpSpec ClassTenant LevelOrg
       [mkAtom CapManageMembers LevelOrg]
       (sops ["audit.InsertTenant"])
       false ["grant.membership_read"] false false);
    ("grant.list-project", mkOpSpec ClassTenant LevelProject
       [mkAtom CapManageMembers LevelProject]
       (sops ["audit.InsertTenant"])
       false ["grant.membership_read"] false false);
    ("grant.list-instance", mkOpSpec ClassInstance LevelNone
       [mkAtom CapManageMembers LevelNone]
       (sops ["audit.InsertInstance"])
       false ["grant.membership_read"] false false)
  ].

(** Rows grant.template-org to retention.org-read. *)
Definition operationTable_16 : list (Operation * opSpec) :=
  [
    ("grant.template-org", mkOpSpec ClassTenant LevelOrg
       [mkAtom CapManageMembers LevelOrg]
       (withCure (sops ["audit.InsertTenant"]))
       false (["grant.template_applied"; "grant.created"; "grant.modified"] ++ grantCureEvents) false false);
    ("grant.template-project", mkOpSpec ClassTenant LevelProject
       [mkAtom CapManageMembers LevelProject]
       (sops ["audit.InsertTenant"])
       false [
               "grant.template_applied"; "grant.created"; "grant.modified";
               "identity.grant_widened"] false false);
    ("grant.template-env", mkOpSpec ClassTenant LevelEnv
       [mkAtom CapManageMembers LevelProject]
       (sops ["audit.InsertTenant"])
       false [
               "grant.template_applied"; "grant.created"; "grant.modified";
               "identity.grant_widened"] false false);
    ("grant.template-instance", mkOpSpec ClassInstance LevelNone
       [mkAtom CapManageMembers LevelNone]
       (sops ["audit.InsertInstance"])
       false (["grant.template_applied"; "grant.created"; "grant.modified"] ++ grantCureEvents) false false);
    ("member.invite-org", mkOpSpec ClassTenant LevelOrg
       [mkAtom CapManageMembers LevelOrg]
       (withCure (sops ["audit.InsertTenant"]))
       false (["member.invited"; "grant.template_applied"; "grant.created"; "grant.modified"] ++ grantCureEvents) false false);
    ("member.invite-instance", mkOpSpec ClassInstance LevelNone
       [mkAtom CapManageMembers LevelNone]
       (sops ["audit.InsertInstance"])
       false (["member.invited"; "grant.template_applied"; "grant.created"; "grant.modified"] ++ grantCureEvents) false false);
    ("registration-policy.get-org", mkOpSpec ClassTenant LevelOrg
       [mkAtom CapManageMembers LevelOrg]
       (sops ["audit.InsertTenant"])
       false ["grant.membership_read"] false false);
    ("registration-policy.put-org", mkOpSpec ClassTenant LevelOrg
       [mkAtom CapManageMembers LevelOrg]
       (sops ["audit.InsertTenant"])
       false ["registration.policy_created"; "registration.policy_updated"] false false);
    ("registration-policy.delete-org", mkOpSpec ClassTenant LevelOrg
       [mkAtom CapManageMembers LevelOrg]
       (sops ["audit.InsertTenant"])
       false ["registration.policy_deleted"; "registration.signup_expired"] false false);
    ("registration-policy.get-instance", mkOpSpec ClassInstance LevelNone
       [mkAtom CapManageMembers LevelNone]
       (sops ["audit.InsertInstance"])
       false ["grant.membership_read"] false false);
    ("registration-policy.put-instance", mkOpSpec ClassInstance LevelNone
       [mkAtom CapManageMembers LevelNone]
       (sops ["audit.InsertInstance"])
       false ["registration.policy_created"; "registration.policy_updated"] false false);
    ("registration-policy.delete-instance", mkOpSpec ClassInstance LevelNone
       [mkAtom CapManageMembers LevelNone]
       (sops ["audit.InsertInstance"])
       false ["registration.policy_deleted"; "registration.signup_expired"] false false);
    ("environment.settings-read", mkOpSpec ClassTenant LevelEnv
       [mkAtom CapRead LevelEnv]
       (sops ["environments.Settings"])
       false [] true false);
    ("environment.settings-update", mkOpSpec ClassTenant LevelEnv
       [mkAtom CapProjectSettings LevelProject]
       (sops ["environments.Settings"; "environments.SetSettings"; "audit.InsertTenant"])
       false [
               "settings.reauthentication_window_changed"; "settings.protected_flag_changed";
               "auth.effective_window_lowered"] false false);
    ("retention.org-read", mkOpSpec ClassTenant LevelOrg
       [mkAtom CapRead LevelOrg]
       (sops ["orgs.Get"])
       false [] true false)
  ].

(** Rows retention.org-update to developer-credential.list-project. *)
Definition operationTable_17 : list (Operation * opSpec) :=
  [
    ("retention.org-update", mkOpSpec ClassTenant LevelOrg
       [mkAtom CapProjectSettings LevelOrg]
       (sops [
               "orgs.Get"; "orgs.Lock"; "orgs.SetRetention"; "projects.List";
               "audit.InsertTenant"])
       false ["settings.org_retention_changed"] false false);
    ("retention.project-read", mkOpSpec ClassTenant LevelProject
       [mkAtom CapRead LevelProject]
       (sops ["orgs.Get"; "projects.Get"])
       false [] true false);
    ("retention.project-update", mkOpSpec ClassTenant LevelProject
       [mkAtom CapProjectSettings LevelProject]
       (sops [
               "orgs.Get"; "orgs.Lock"; "projects.Get"; "projects.SetRetention";
               "audit.InsertTenant"])
       false ["settings.project_retention_changed"] false false);
    ("retention.health-read", mkOpSpec ClassInstance LevelNone
       [mkAtom CapInstanceConfig LevelNone]
       (sops [
               "retention.LastPruneSuccess"; "retention.Diagnostics"; "audit.InsertInstance";
               "adapters.HealthCounts"; "values.InstancePayloadByProject";
               "snapshots.InstancePayloadByProject"; "backupstate.Get"])
       false ["retention.health_read"] false false);
    ("update.status-read", mkOpSpec ClassInstance LevelNone
       [mkAtom CapInstanceConfig LevelNone]
       (sops ["audit.InsertInstance"])
       false ["system.update_status_read"] false false);
    ("update.request", mkOpSpec ClassInstance LevelNone
       [mkAtom CapInstanceConfig LevelNone]
       (sops ["audit.InsertInstance"])
       false ["system.update_requested"; "system.update_outcome"] false false);
    ("update.job-read", mkOpSpec ClassInstance LevelNone
       [mkAtom CapInstanceConfig LevelNone]
       (sops ["audit.InsertInstance"])
       false ["system.update_outcome"] false false);
    ("identity.service-account-create", mkOpSpec ClassTenant LevelProject
       [mkAtom CapManageIdentities LevelProject]
       (sops ["audit.InsertTenant"])
       false ["identity.service_account_created"] false false);
    ("identity.service-account-list", mkOpSpec ClassTenant LevelProject
       [mkAtom CapManageIdentities LevelProject]
       (sops ["audit.InsertTenant"])
       false ["identity.credentials_listed"] false false);
    ("identity.service-account-delete", mkOpSpec ClassTenant LevelProject
       [mkAtom CapManageIdentities LevelProject]
       (sops ["audit.InsertTenant"])
       false ["identity.service_account_deleted"; "identity.credential_revoked"] false false);
    ("identity.credential-mint", mkOpSpec ClassTenant LevelProject
       [mkAtom CapManageIdentities LevelProject]
       (sops ["audit.InsertTenant"])
       false ["identity.credential_minted"] false false);
    ("identity.credential-list", mkOpSpec ClassTenant LevelProject
       [mkAtom CapManageIdentities LevelProject]
       (sops ["audit.InsertTenant"])
       false ["identity.credentials_listed"] false false);
    ("identity.credential-revoke", mkOpSpec ClassTenant LevelProject
       [mkAtom CapManageIdentities LevelProject]
       (sops ["audit.InsertTenant"])
       false ["identity.credential_revoked"; "identity.binding_reactivated"] false false);
    ("developer-credential.mint", mkOpSpec ClassTenant LevelEnv
       [mkAtom CapRead LevelEnv; mkAtom CapReveal LevelEnv]
       (sops ["audit.InsertTenant"; "snapshots.Latest"; "snapshots.Entries"])
       false [
               "identity.developer_credential_minted";
               "identity.developer_credential_mint_refused"] false false);
    ("developer-credential.list-project", mkOpSpec ClassTenant LevelProject
       [mkAtom CapManageIdentities LevelProject]
       (sops ["audit.InsertTenant"])
       false ["identity.developer_credentials_listed"] false false)
  ].

(** Rows developer-credential.revoke-project to delivery-target.tombstone. *)
Definition operationTable_18 : list (Operation * opSpec) :=
  [
    ("developer-credential.revoke-project", mkOpSpec ClassTenant LevelProject
       [mkAtom CapManageIdentities LevelProject]
       (sops ["audit.InsertTenant"])
       false ["identity.developer_credential_revoked"] false false);
    ("developer-credential.policy-read", mkOpSpec ClassInstance LevelNone
       [mkAtom CapInstanceConfig LevelNone]
       (sops ["audit.InsertInstance"])
       false ["identity.developer_credential_policy_read"] false false);
    ("developer-credential.policy-update", mkOpSpec ClassInstance LevelNone
       [mkAtom CapInstanceConfig LevelNone]
       (sops ["audit.InsertInstance"])
       false ["identity.developer_credential_policy_changed"] false false);
    ("identity.credential-policy-read", mkOpSpec ClassInstance LevelNone
       [mkAtom CapInstanceConfig LevelNone]
       (sops ["audit.InsertInstance"])
       false ["identity.lifetime_policy_read"] false false);
    ("identity.credential-policy-update", mkOpSpec ClassInstance LevelNone
       [mkAtom CapInstanceConfig LevelNone]
       (sops ["audit.InsertInstance"])
       false ["identity.lifetime_policy_changed"; "identity.lifetime_policy_read"] false false);
    ("federation.issuer-create", mkOpSpec ClassInstance LevelNone
       [mkAtom CapInstanceConfig LevelNone]
       (sops ["audit.InsertInstance"])
       false ["identity.federation_issuer_changed"] false false);
    ("federation.issuer-update", mkOpSpec ClassInstance LevelNone
       [mkAtom CapInstanceConfig LevelNone]
       (sops ["audit.InsertInstance"])
       false ["identity.federation_issuer_changed"] false false);
    ("federation.issuer-delete", mkOpSpec ClassInstance LevelNone
       [mkAtom CapInstanceConfig LevelNone]
       (sops ["audit.InsertInstance"])
       false ["identity.federation_issuer_changed"] false false);
    ("federation.issuer-list", mkOpSpec ClassInstance LevelNone
       [mkAtom CapInstanceConfig LevelNone]
       (sops ["audit.InsertInstance"])
       false ["identity.federation_issuer_read"] false false);
    ("identity.binding-create", mkOpSpec ClassTenant LevelProject
       [mkAtom CapManageIdentities LevelProject]
       (sops ["audit.InsertTenant"])
       false ["identity.binding_created"; "identity.credential_revoked"] false false);
    ("delivery.fetch", mkOpSpec ClassTenant LevelEnv
       [mkAtom CapRead LevelEnv]
       (sops [
               "keys.ActiveTokenKeyForReceipt"; "snapshots.Latest"; "snapshots.Entries";
               "snapshots.ParameterContract"; "snapshots.AtRevision"; "pins.GetForWorkload";
               "filetargets.ForPrincipal"; "filetargets.Keys"; "catalogue.List";
               "catalogue.ListPresence"; "catalogue.SchemaRevision"; "audit.InsertTenant"])
       false ["identity.delivery_fetched"; "identity.disclosure"] false false);
    ("delivery.reconcile-offline", mkOpSpec ClassTenant LevelEnv
       [mkAtom CapRead LevelEnv]
       (sops [
               "keys.ActiveTokenKeyForReceipt"; "audit.ClaimOfflineRecord";
               "audit.InsertTenant"])
       false ["identity.offline_records_reconciled"; "disclosure.value_revealed"] false false);
    ("delivery-target.report", mkOpSpec ClassTenant LevelEnv
       [mkAtom CapReportDeliveryStatus LevelEnv]
       (sops [
               "deliverytargets.Get"; "deliverytargets.CountForPrincipal";
               "deliverytargets.Insert"; "deliverytargets.Update";
               "deliverytargets.RecordRefusal"; "deliverytargets.RecordQuotaRefusal";
               "audit.InsertTenant"])
       false ["identity.delivery_target_created"; "identity.delivery_target_refused"] false false);
    ("delivery-target.tombstone", mkOpSpec ClassTenant LevelEnv
       [mkAtom CapReportDeliveryStatus LevelEnv]
       (sops ["deliverytargets.Get"; "deliverytargets.Delete"; "audit.InsertTenant"])
       false ["identity.delivery_target_tombstoned"] false false)
  ].

(** Rows delivery-target.list to scim-directory.users. *)
Definition operationTable_19 : list (Operation * opSpec) :=
  [
    ("delivery-target.list", mkOpSpec ClassTenant LevelEnv
       [mkAtom CapRead LevelEnv]
       (sops [
               "deliverytargets.List"; "deliverytargets.QuotaNotices";
               "deliverytargets.LastFetchAt"])
       false [] true false);
    ("scim-binding.create", mkOpSpec ClassTenant LevelOrg
       scimAdminFormula
       (scimOps [scimBase; scimAttentionReadOps; (sops ["scim.CreateBinding"])])
       false ["scim.binding_created"; "grant.created"; "scim.attention_entered"] false false);
    ("scim-binding.get", mkOpSpec ClassTenant LevelOrg
       scimAdminFormula
       (scimOps [scimBase; scimAttentionReadOps])
       false ["scim.admin_read"; "scim.attention_entered"; "scim.attention_cleared"] false false);
    ("scim-binding.list", mkOpSpec ClassTenant LevelOrg
       scimAdminFormula
       (scimOps [scimBase; scimAttentionReadOps; (sops ["scim.Bindings"])])
       false ["scim.admin_read"; "scim.attention_entered"; "scim.attention_cleared"] false false);
    ("scim-binding.delete", mkOpSpec ClassTenant LevelOrg
       scimAdminFormula
       (scimOps [scimBase; scimDirectoryOps; scimTeardownOps; scimCredentialOps])
       false [
               "scim.binding_deleted"; "grant.revoked"; "grant.modified";
               "scim.lockout_retention"; "scim.attention_entered"; "scim.attention_cleared"] false false);
    ("scim-mapping.create", mkOpSpec ClassTenant LevelOrg
       scimAdminFormula
       (scimOps [scimBase; scimDirectoryOps; scimMappingWriteOps])
       false [
               "scim.mapping_created"; "grant.created"; "grant.modified";
               "scim.lockout_retention_released"; "scim.attention_cleared"] false false);
    ("scim-mapping.update", mkOpSpec ClassTenant LevelOrg
       scimAdminFormula
       (scimOps [scimBase; scimDirectoryOps; scimMappingWriteOps])
       false [
               "scim.mapping_updated"; "grant.created"; "grant.modified"; "grant.revoked";
               "scim.lockout_retention"; "scim.lockout_retention_released";
               "scim.attention_entered"; "scim.attention_cleared"] false false);
    ("scim-mapping.delete", mkOpSpec ClassTenant LevelOrg
       scimAdminFormula
       (scimOps [scimBase; scimDirectoryOps; scimMappingWriteOps])
       false [
               "scim.mapping_deleted"; "grant.revoked"; "grant.modified";
               "scim.lockout_retention"; "scim.attention_entered"; "scim.attention_cleared"] false false);
    ("scim-mapping.list", mkOpSpec ClassTenant LevelOrg
       scimAdminFormula
       (scimOps [scimBase; (sops ["scim.Mappings"])])
       false ["scim.admin_read"] false false);
    ("scim-credential.mint", mkOpSpec ClassTenant LevelOrg
       scimAdminFormula
       (scimOps [scimBase; scimCredentialOps])
       false ["scim.credential_minted"; "scim.credential_rotated"] false false);
    ("scim-credential.get", mkOpSpec ClassTenant LevelOrg
       scimAdminFormula
       (scimOps [scimBase; scimCredentialOps])
       false ["scim.admin_read"] false false);
    ("scim-credential.list", mkOpSpec ClassTenant LevelOrg
       scimAdminFormula
       (scimOps [scimBase; scimCredentialOps])
       false ["scim.admin_read"] false false);
    ("scim-credential.revoke", mkOpSpec ClassTenant LevelOrg
       scimAdminFormula
       (scimOps [scimBase; scimCredentialOps])
       false ["scim.credential_revoked"] false false);
    ("scim-directory.users", mkOpSpec ClassTenant LevelOrg
       scimAdminFormula
       (scimOps [scimBase; scimDirectoryOps])
       false ["scim.admin_read"] false false)
  ].

(** Rows scim-directory.groups to scim-discovery.read. *)
Definition operationTable_20 : list (Operation * opSpec) :=
  [
    ("scim-directory.groups", mkOpSpec ClassTenant LevelOrg
       scimAdminFormula
       (scimOps [scimBase; scimDirectoryOps])
       false ["scim.admin_read"] false false);
    ("scim-user.create", mkOpSpec ClassTenant LevelOrg
       scimWireFormula
       (scimOps [scimBase; scimWireBase; scimDirectoryOps; scimUserWriteOps])
       false [
               "scim.user_provisioned"; "grant.created"; "grant.modified";
               "scim.attention_cleared"] false false);
    ("scim-user.get", mkOpSpec ClassTenant LevelOrg
       scimWireFormula
       (scimOps [scimBase; scimWireBase; scimDirectoryOps])
       false ["scim.directory_read"; "scim.attention_cleared"] false false);
    ("scim-user.list", mkOpSpec ClassTenant LevelOrg
       scimWireFormula
       (scimOps [scimBase; scimWireBase; scimDirectoryOps])
       false ["scim.directory_read"; "scim.attention_cleared"] false false);
    ("scim-user.replace", mkOpSpec ClassTenant LevelOrg
       scimWireFormula
       (scimOps [scimBase; scimWireBase; scimDirectoryOps; scimUserWriteOps])
       false scimUserMutationEvents false false);
    ("scim-user.patch", mkOpSpec ClassTenant LevelOrg
       scimWireFormula
       (scimOps [scimBase; scimWireBase; scimDirectoryOps; scimUserWriteOps])
       false scimUserMutationEvents false false);
    ("scim-user.delete", mkOpSpec ClassTenant LevelOrg
       scimWireFormula
       (scimOps [scimBase; scimWireBase; scimDirectoryOps; scimUserWriteOps])
       false [
               "scim.user_deleted"; "grant.revoked"; "grant.modified";
               "scim.lockout_retention"; "scim.attention_entered"; "scim.attention_cleared"] false false);
    ("scim-group.create", mkOpSpec ClassTenant LevelOrg
       scimWireFormula
       (scimOps [scimBase; scimWireBase; scimDirectoryOps; scimGroupWriteOps])
       false [
               "scim.group_created"; "scim.group_membership_changed"; "grant.created";
               "grant.modified"; "scim.attention_cleared"] false false);
    ("scim-group.get", mkOpSpec ClassTenant LevelOrg
       scimWireFormula
       (scimOps [scimBase; scimWireBase; scimDirectoryOps])
       false ["scim.directory_read"; "scim.attention_cleared"] false false);
    ("scim-group.list", mkOpSpec ClassTenant LevelOrg
       scimWireFormula
       (scimOps [scimBase; scimWireBase; scimDirectoryOps])
       false ["scim.directory_read"; "scim.attention_cleared"] false false);
    ("scim-group.replace", mkOpSpec ClassTenant LevelOrg
       scimWireFormula
       (scimOps [scimBase; scimWireBase; scimDirectoryOps; scimGroupWriteOps])
       false scimGroupMutationEvents false false);
    ("scim-group.patch", mkOpSpec ClassTenant LevelOrg
       scimWireFormula
       (scimOps [scimBase; scimWireBase; scimDirectoryOps; scimGroupWriteOps])
       false scimGroupMutationEvents false false);
    ("scim-group.delete", mkOpSpec ClassTenant LevelOrg
       scimWireFormula
       (scimOps [scimBase; scimWireBase; scimDirectoryOps; scimGroupWriteOps; scimMappingWriteOps])
       false [
               "scim.group_deleted"; "scim.group_membership_changed"; "grant.revoked";
               "grant.modified"; "scim.lockout_retention"; "scim.attention_entered";
               "scim.attention_cleared"] false false);
    ("scim-unsupported.refuse", mkOpSpec ClassTenant LevelOrg
       scimWireFormula
       (scimOps [scimBase; scimWireBase])
       false ["scim.directory_read"; "scim.attention_cleared"] false false);
    ("scim-discovery.read", mkOpSpec ClassTenant LevelOrg
       scimWireFormula
       scimDiscoveryOps
       false [] false true)
  ].

(** Rows remote.directory-serve to workspace-origin.remove. *)
Definition operationTable_21 : list (Operation * opSpec) :=
  [
    ("remote.directory-serve", mkOpSpec ClassInstance LevelNone
       [mkAtom CapInstanceDirector LevelNone]
       (sops ["orgs.List"; "projects.ListAll"; "audit.InsertInstance"])
       false ["remote.directory_served"] false false);
    ("remote.add", mkOpSpec ClassInstance LevelNone
       [mkAtom CapInstanceConfig LevelNone]
       (sops [
               "remotes.Count"; "remotes.List"; "remotes.Snapshots"; "remotes.Create";
               "remotes.WriteSnapshot"; "keys.AssertActiveDEKVersion"; "audit.InsertInstance"])
       false ["remote.added"] false false);
    ("remote.list", mkOpSpec ClassInstance LevelNone
       [mkAtom CapInstanceDirector LevelNone]
       (sops [
               "remotes.List"; "remotes.SealedCredential"; "remotes.Snapshots";
               "remotes.WriteSnapshot"; "remotes.RecordFetchFailure"; "audit.InsertInstance"])
       false ["remote.directory_viewed"; "remote.fetch_failed"] false false);
    ("remote.show", mkOpSpec ClassInstance LevelNone
       [mkAtom CapInstanceDirector LevelNone]
       (sops [
               "remotes.Get"; "remotes.GetByName"; "remotes.SealedCredential";
               "remotes.Snapshot"; "remotes.WriteSnapshot"; "remotes.RecordFetchFailure";
               "audit.InsertInstance"])
       false ["remote.directory_viewed"; "remote.fetch_failed"] false false);
    ("remote.rename", mkOpSpec ClassInstance LevelNone
       [mkAtom CapInstanceConfig LevelNone]
       (sops [
               "remotes.Get"; "remotes.GetByName"; "remotes.Rename"; "remotes.Snapshot";
               "audit.InsertInstance"])
       false ["remote.renamed"] false false);
    ("remote.remove", mkOpSpec ClassInstance LevelNone
       [mkAtom CapInstanceConfig LevelNone]
       (sops ["remotes.Get"; "remotes.GetByName"; "remotes.Delete"; "audit.InsertInstance"])
       false ["remote.removed"] false false);
    ("remote-credential.create", mkOpSpec ClassInstance LevelNone
       [mkAtom CapInstanceConfig LevelNone]
       (sops ["audit.InsertInstance"])
       false ["remote.credential_minted"] false false);
    ("remote-credential.list", mkOpSpec ClassInstance LevelNone
       [mkAtom CapInstanceConfig LevelNone]
       (sops ["audit.InsertInstance"])
       false ["remote.credentials_listed"] false false);
    ("remote-credential.show", mkOpSpec ClassInstance LevelNone
       [mkAtom CapInstanceConfig LevelNone]
       (sops ["audit.InsertInstance"])
       false ["remote.credentials_listed"] false false);
    ("remote-credential.revoke", mkOpSpec ClassInstance LevelNone
       [mkAtom CapInstanceConfig LevelNone]
       (sops ["audit.InsertInstance"])
       false ["remote.credential_revoked"] false false);
    ("workspace-origin.list", mkOpSpec ClassInstance LevelNone
       [mkAtom CapInstanceConfig LevelNone]
       (sops ["audit.InsertInstance"])
       false ["remote.origin_allowlist_read"] false false);
    ("workspace-origin.add", mkOpSpec ClassInstance LevelNone
       [mkAtom CapInstanceConfig LevelNone]
       (sops ["audit.InsertInstance"])
       false ["remote.origin_allowlist_changed"] false false);
    ("workspace-origin.remove", mkOpSpec ClassInstance LevelNone
       [mkAtom CapInstanceConfig LevelNone]
       (sops ["audit.InsertInstance"])
       false ["remote.origin_allowlist_changed"; "remote.workspace_session_revoked"] false false)
  ].

(** Rows adapter.configure to dynamic-provider.credential-revoke. *)
Definition operationTable_22 : list (Operation * opSpec) :=
  [
    ("adapter.configure", mkOpSpec ClassTenant LevelProject
       [mkAtom CapManageAdapters LevelProject]
       (sops [
               "adapters.Create"; "adapters.AddTarget"; "adapters.BeginConfigureEffect";
               "adapters.FinishConfigureEffect"; "adapters.UpdateTarget";
               "adapters.MoveTarget"; "adapters.MoveOrigin"; "adapters.CancelMove";
               "adapters.ReplaceMoveTarget"; "adapters.ReplaceMoveOrigin"; "adapters.Move";
               "adapters.Configuration"; "adapters.ConfigurationForUpdate"; "adapters.Target";
               "adapters.TargetKeyIDs"; "adapters.TargetKeys"; "adapters.PauseTarget";
               "adapters.Environments"; "catalogue.List"; "keys.AssertActiveDEKVersion";
               "audit.InsertTenant"])
       true [
               "adapter.configure"; "adapter.sync_requested"; "adapter.superseded";
               "adapter.scrub"; "adapter.push_intent"; "adapter.push_outcome"] false false);
    ("adapter.credential-set", mkOpSpec ClassTenant LevelProject
       [mkAtom CapManageAdapters LevelProject]
       (sops [
               "adapters.Environments"; "adapters.ReplaceCredential";
               "keys.AssertActiveDEKVersion"; "audit.InsertTenant"])
       true ["adapter.credential_replace"] false false);
    ("adapter.credential-revoke", mkOpSpec ClassTenant LevelProject
       [mkAtom CapManageAdapters LevelProject]
       (sops ["adapters.RevokeCredential"; "audit.InsertTenant"])
       false ["adapter.credential_revoke"] false false);
    ("adapter.adopt", mkOpSpec ClassTenant LevelProject
       [mkAtom CapManageAdapters LevelProject]
       (sops [
               "adapters.Target"; "adapters.TargetEnvironments"; "adapters.Conflicts";
               "adapters.Adopt"; "audit.InsertTenant"])
       true ["adapter.adopt"; "adapter.superseded"] false false);
    ("adapter.inspect", mkOpSpec ClassTenant LevelProject
       [mkAtom CapManageAdapters LevelProject]
       (sops [
               "adapters.Get"; "adapters.List"; "adapters.ListTargets"; "adapters.Target";
               "adapters.TargetKeys"; "adapters.Mapping"; "adapters.TargetEnvironments";
               "adapters.Conflicts"; "adapters.Move"; "audit.InsertTenant"])
       false ["adapter.inspect"] false false);
    ("adapter.plan", mkOpSpec ClassTenant LevelProject
       [mkAtom CapManageAdapters LevelProject]
       (sops [
               "adapters.Target"; "adapters.PlanMaterial"; "adapters.Conflicts";
               "adapters.RecordPlan"; "audit.InsertTenant"])
       false ["adapter.plan"] false false);
    ("adapter.test", mkOpSpec ClassTenant LevelProject
       [mkAtom CapManageAdapters LevelProject]
       (sops [
               "adapters.PlanMaterial"; "adapters.Target"; "adapters.RecordCredentialExpiry";
               "audit.InsertTenant"])
       false ["adapter.test"] false false);
    ("adapter.sync", mkOpSpec ClassTenant LevelProject
       [mkAtom CapManageAdapters LevelProject]
       (sops [
               "adapters.Target"; "adapters.Environments"; "adapters.EnqueueManual";
               "adapters.ResumeTarget"; "audit.InsertTenant"])
       true [
               "adapter.sync_requested"; "adapter.push_intent"; "adapter.push_outcome";
               "adapter.key_delivered"; "adapter.abort"; "adapter.superseded"] false false);
    ("adapter.delete", mkOpSpec ClassTenant LevelProject
       [mkAtom CapManageAdapters LevelProject]
       (sops ["adapters.TeardownTarget"; "adapters.TeardownAdapter"; "audit.InsertTenant"])
       false [
               "adapter.configure"; "adapter.scrub"; "adapter.push_intent";
               "adapter.push_outcome"; "adapter.abort"; "adapter.superseded"] false false);
    ("adapter.push", mkOpSpec ClassTenant LevelEnv
       [mkAtom CapManageAdapters LevelProject; mkAtom CapReveal LevelEnv]
       (sops ["audit.InsertTenant"])
       false [
               "adapter.push_intent"; "adapter.push_outcome"; "adapter.key_delivered";
               "adapter.abort"; "adapter.scrub"; "adapter.superseded"] false false);
    ("file-target.create", mkOpSpec ClassTenant LevelProject
       [mkAtom CapManageAdapters LevelProject; mkAtom CapManageIdentities LevelProject]
       (sops [
               "filetargets.Create"; "filetargets.Get"; "filetargets.Keys"; "catalogue.List";
               "audit.InsertTenant"])
       false ["file_target.configured"] false false);
    ("file-target.update", mkOpSpec ClassTenant LevelProject
       [mkAtom CapManageAdapters LevelProject; mkAtom CapManageIdentities LevelProject]
       (sops [
               "filetargets.Get"; "filetargets.Keys"; "filetargets.ReplaceKeys";
               "catalogue.List"; "audit.InsertTenant"])
       false ["file_target.configured"] false false);
    ("file-target.delete", mkOpSpec ClassTenant LevelProject
       [mkAtom CapManageAdapters LevelProject; mkAtom CapManageIdentities LevelProject]
       (sops [
               "filetargets.Get"; "filetargets.Keys"; "filetargets.Delete";
               "audit.InsertTenant"])
       false ["file_target.configured"] false false);
    ("file-target.inspect", mkOpSpec ClassTenant LevelProject
       [mkAtom CapManageAdapters LevelProject]
       (sops [
               "filetargets.List"; "filetargets.Get"; "filetargets.Keys";
               "filetargets.KeysForTargets"; "audit.InsertTenant"])
       false ["file_target.inspected"] false false);
    ("file-target.report", mkOpSpec ClassTenant LevelEnv
       [mkAtom CapReportDeliveryStatus LevelEnv]
       (sops ["filetargets.Get"; "filetargets.RecordReport"; "audit.InsertTenant"])
       false ["file_target.applied"] false false);
    ("dynamic-provider.configure", mkOpSpec ClassTenant LevelProject
       [mkAtom CapManageIdentities LevelProject]
       (sops [
               "dynamic.CreateProvider"; "dynamic.GetProvider"; "keys.AssertActiveDEKVersion";
               "audit.InsertTenant"])
       false ["dynamic.provider_configured"] false false);
    ("dynamic-provider.inspect", mkOpSpec ClassTenant LevelProject
       [mkAtom CapManageIdentities LevelProject]
       (sops ["dynamic.GetProvider"; "dynamic.ListProviders"; "audit.InsertTenant"])
       false ["dynamic.provider_inspected"] false false);
    ("dynamic-provider.credential-set", mkOpSpec ClassTenant LevelProject
       [mkAtom CapManageIdentities LevelProject]
       (sops [
               "dynamic.GetProvider"; "dynamic.ReplaceProviderCredential";
               "keys.AssertActiveDEKVersion"; "audit.InsertTenant"])
       false ["dynamic.provider_credential_replace"] false false);
    ("dynamic-provider.credential-revoke", mkOpSpec ClassTenant LevelProject
       [mkAtom CapManageIdentities LevelProject]
       (sops ["dynamic.GetProvider"; "dynamic.RevokeProviderCredential"; "audit.InsertTenant"])
       false ["dynamic.provider_credential_revoke"] false false)
  ].

(** Rows dynamic-provider.delete to transit.use. *)
Definition operationTable_23 : list (Operation * opSpec) :=
  [
    ("dynamic-provider.delete", mkOpSpec ClassTenant LevelProject
       [mkAtom CapManageIdentities LevelProject]
       (sops [
               "dynamic.GetProvider"; "dynamic.DeleteProvider";
               "dynamic.ActiveLeaseIDsForProvider"; "dynamic.GetLease";
               "dynamic.EnqueueTransition"; "audit.InsertTenant"])
       false ["dynamic.provider_deleted"; "dynamic.lease_transition_intent"] false false);
    ("lease.mint", mkOpSpec ClassTenant LevelEnv
       [mkAtom CapRead LevelEnv]
       (sops [
               "dynamic.GetProvider"; "dynamic.ProviderCredentialCiphertext";
               "dynamic.CreateLease"; "dynamic.GetLease"; "dynamic.FinishMint";
               "audit.InsertTenant"])
       true [
               "dynamic.lease_transition_intent"; "dynamic.lease_transition_outcome";
               "dynamic.lease_disclosed"] false false);
    ("lease.inspect", mkOpSpec ClassTenant LevelEnv
       [mkAtom CapRead LevelEnv]
       (sops ["dynamic.GetLease"; "dynamic.ListLeasesForEnvironment"])
       false [] true false);
    ("lease.renew", mkOpSpec ClassTenant LevelEnv
       [mkAtom CapRead LevelEnv]
       (sops ["dynamic.GetLease"; "dynamic.EnqueueTransition"; "audit.InsertTenant"])
       false ["dynamic.lease_transition_intent"] false false);
    ("lease.revoke", mkOpSpec ClassTenant LevelEnv
       [mkAtom CapRead LevelEnv]
       (sops ["dynamic.GetLease"; "dynamic.EnqueueTransition"; "audit.InsertTenant"])
       false ["dynamic.lease_transition_intent"] false false);
    ("lease.settle", mkOpSpec ClassTenant LevelEnv
       [mkAtom CapRead LevelEnv]
       (sops ["dynamic.GetLease"; "dynamic.EnqueueTransition"; "audit.InsertTenant"])
       false ["dynamic.lease_settle_requested"] false false);
    ("ssh-ca.configure", mkOpSpec ClassTenant LevelEnv
       [mkAtom CapManageIdentities LevelProject]
       (sops [
               "ssh.CreateCA"; "ssh.InsertCAKey"; "ssh.GetCA"; "keys.AssertActiveDEKVersion";
               "audit.InsertTenant"])
       false ["ssh.ca_configured"] false false);
    ("ssh-ca.inspect", mkOpSpec ClassTenant LevelEnv
       [mkAtom CapRead LevelEnv]
       (sops ["ssh.GetCA"; "ssh.ListCAs"; "ssh.RevokedSerials"])
       false [] true false);
    ("ssh-ca.rotate", mkOpSpec ClassTenant LevelEnv
       [mkAtom CapManageIdentities LevelProject]
       (sops [
               "ssh.GetCA"; "ssh.ActiveKeyLastExpiry"; "ssh.RetireActiveCAKey";
               "ssh.InsertCAKey"; "keys.AssertActiveDEKVersion"; "audit.InsertTenant"])
       false ["ssh.ca_rotated"] false false);
    ("ssh-ca.retire-key", mkOpSpec ClassTenant LevelEnv
       [mkAtom CapManageIdentities LevelProject]
       (sops ["ssh.GetCA"; "ssh.RetireCAKey"; "audit.InsertTenant"])
       false ["ssh.ca_key_retired"] false false);
    ("ssh-ca.delete", mkOpSpec ClassTenant LevelEnv
       [mkAtom CapManageIdentities LevelProject]
       (sops ["ssh.GetCA"; "ssh.CountLiveProfilesForCA"; "ssh.DeleteCA"; "audit.InsertTenant"])
       false ["ssh.ca_deleted"] false false);
    ("ssh-profile.configure", mkOpSpec ClassTenant LevelEnv
       [mkAtom CapManageIdentities LevelProject]
       (sops [
               "ssh.GetCA"; "ssh.GetProfile"; "ssh.CreateProfile"; "ssh.UpdateProfile";
               "ssh.RevokeProfileCertificates"; "audit.InsertTenant"])
       false ["ssh.profile_configured"; "ssh.certificate_revoked"] false false);
    ("ssh-profile.inspect", mkOpSpec ClassTenant LevelEnv
       [mkAtom CapRead LevelEnv]
       (sops ["ssh.GetProfile"; "ssh.ListProfiles"])
       false [] true false);
    ("ssh-profile.delete", mkOpSpec ClassTenant LevelEnv
       [mkAtom CapManageIdentities LevelProject]
       (sops [
               "ssh.GetProfile"; "ssh.DeleteProfile"; "ssh.RevokeProfileCertificates";
               "audit.InsertTenant"])
       false ["ssh.profile_deleted"; "ssh.certificate_revoked"] false false);
    ("ssh-cert.issue", mkOpSpec ClassTenant LevelEnv
       [mkAtom CapRead LevelEnv]
       (sops [
               "ssh.GetProfile"; "ssh.IsRequester"; "ssh.ActiveCAKey"; "ssh.InsertCertificate";
               "ssh.GetCertificate"; "keys.AssertActiveDEKVersion"; "audit.InsertTenant"])
       true ["ssh.certificate_issued"] false false);
    ("ssh-cert.inspect", mkOpSpec ClassTenant LevelEnv
       [mkAtom CapRead LevelEnv]
       (sops ["ssh.GetCertificate"; "ssh.ListCertificates"])
       false [] true false);
    ("ssh-cert.revoke", mkOpSpec ClassTenant LevelEnv
       [mkAtom CapRead LevelEnv]
       (sops ["ssh.GetCertificate"; "ssh.RevokeCertificate"; "audit.InsertTenant"])
       false ["ssh.certificate_revoked"] false false);
    ("transit.key-create", mkOpSpec ClassTenant LevelEnv
       [mkAtom CapCryptoManage LevelProject]
       (sops [
               "transit.CountKeys"; "transit.CreateKey"; "keys.AssertActiveDEKVersion";
               "audit.InsertTenant"])
       false ["transit.key_created"] false false);
    ("transit.key-inspect", mkOpSpec ClassTenant LevelEnv
       [mkAtom CapRead LevelEnv]
       (sops [
               "transit.ListKeys"; "transit.GetKey"; "transit.ListVersions";
               "transit.ListCallers"])
       false [] true false);
    ("transit.key-configure", mkOpSpec ClassTenant LevelEnv
       [mkAtom CapCryptoManage LevelProject]
       (sops [
               "audit.InsertTenant"; "transit.ListCallers"; "transit.Configure";
               "transit.GetKey"; "transit.ListVersions"])
       false ["transit.key_configured"] false false);
    ("transit.key-rotate", mkOpSpec ClassTenant LevelEnv
       [mkAtom CapCryptoManage LevelProject]
       (sops [
               "audit.InsertTenant"; "keys.AssertActiveDEKVersion"; "transit.ListCallers";
               "transit.GetKey"; "transit.AppendVersion"; "transit.ListVersions"])
       false ["transit.key_rotated"] false false);
    ("transit.key-lifecycle", mkOpSpec ClassTenant LevelEnv
       [mkAtom CapCryptoManage LevelProject]
       (sops [
               "audit.InsertTenant"; "transit.ListCallers"; "transit.ChangeState";
               "transit.Compromise"; "transit.GetKey"; "transit.ListVersions"])
       false ["transit.key_state_changed"] false false);
    ("transit.key-trim", mkOpSpec ClassTenant LevelEnv
       [mkAtom CapCryptoManage LevelProject]
       (sops [
               "audit.InsertTenant"; "transit.ListCallers"; "transit.GetKey";
               "transit.VersionMaterial"; "transit.FenceTrim"; "transit.ListVersions";
               "transit.Trim"])
       false ["transit.key_trimmed"] false false);
    ("transit.use", mkOpSpec ClassTenant LevelEnv
       [mkAtom CapCryptoUse LevelEnv]
       (sops [
               "transit.GetKeyForUse"; "transit.VersionMaterial"; "transit.ListCallers";
               "audit.InsertTenant"])
       true ["transit.operation"] false false)
  ].

(** Rows pki-issuer.inspect to certificate.inspect. *)
Definition operationTable_24 : list (Operation * opSpec) :=
  [
    ("pki-issuer.inspect", mkOpSpec ClassInstance LevelNone
       pkiOperatorFormula
       (sops ["pki.ListIssuers"; "pki.GetIssuer"; "audit.InsertInstance"])
       false ["pki.inventory_read"] false false);
    ("pki-issuer.create", mkOpSpec ClassInstance LevelNone
       pkiOperatorFormula
       (sops [
               "pki.ListIssuers"; "pki.GetIssuer"; "pki.ActiveIssuerPublic"; "pki.IssuerKey";
               "pki.CreateIssuer"; "keys.AssertActiveDEKVersion"; "audit.InsertInstance"])
       false ["pki.issuer"] false false);
    ("pki-issuer.install", mkOpSpec ClassInstance LevelNone
       pkiOperatorFormula
       (sops [
               "pki.ListIssuers"; "pki.GetIssuer"; "pki.InstallIssuerCertificate";
               "pki.TransitionIssuer"; "audit.InsertInstance"])
       false ["pki.issuer"] false false);
    ("pki-issuer.rotate", mkOpSpec ClassInstance LevelNone
       pkiOperatorFormula
       (sops [
               "pki.ListIssuers"; "pki.GetIssuer"; "pki.ActiveIssuerPublic"; "pki.IssuerKey";
               "pki.CreateIssuer"; "pki.TransitionIssuer"; "keys.AssertActiveDEKVersion";
               "audit.InsertInstance"])
       false ["pki.issuer"] false false);
    ("pki-issuer.retire", mkOpSpec ClassInstance LevelNone
       pkiOperatorFormula
       (sops [
               "pki.ListIssuers"; "pki.GetIssuer"; "pki.CountLiveCertificates";
               "pki.DestroyIssuerKey"; "audit.InsertInstance"])
       false ["pki.issuer"] false false);
    ("pki-issuer.revoke", mkOpSpec ClassInstance LevelNone
       pkiOperatorFormula
       (sops [
               "pki.ListIssuers"; "pki.GetIssuer"; "pki.RevokeLiveCertificates";
               "pki.DestroyIssuerKey"; "audit.InsertInstance"])
       false ["pki.issuer"] false false);
    ("pki-issuer.release-hold", mkOpSpec ClassInstance LevelNone
       pkiOperatorFormula
       (sops ["pki.ListIssuers"; "pki.GetIssuer"; "pki.SetIssuerHold"; "audit.InsertInstance"])
       false ["pki.issuer"] false false);
    ("pki-issuer.publish-crl", mkOpSpec ClassInstance LevelNone
       pkiOperatorFormula
       (sops [
               "pki.ListIssuers"; "pki.GetIssuer"; "pki.IssuerKey"; "pki.RevokedEntries";
               "pki.PublishCRL"; "audit.InsertInstance"])
       false ["pki.crl_published"] false false);
    ("pki-profile.inspect", mkOpSpec ClassInstance LevelNone
       pkiOperatorFormula
       (sops [
               "pki.ListProfiles"; "pki.GetProfile"; "pki.ListBindings"; "audit.InsertInstance"])
       false ["pki.inventory_read"] false false);
    ("pki-profile.create", mkOpSpec ClassInstance LevelNone
       pkiOperatorFormula
       (sops [
               "pki.ListIssuers"; "pki.GetProfile"; "pki.CreateProfile"; "audit.InsertInstance"])
       false ["pki.profile"] false false);
    ("pki-profile.update", mkOpSpec ClassInstance LevelNone
       pkiOperatorFormula
       (sops [
               "pki.ListIssuers"; "pki.GetProfile"; "pki.UpdateProfile"; "audit.InsertInstance"])
       false ["pki.profile"] false false);
    ("pki-profile.delete", mkOpSpec ClassInstance LevelNone
       pkiOperatorFormula
       (sops ["pki.GetProfile"; "pki.DeleteProfile"; "audit.InsertInstance"])
       false ["pki.profile"] false false);
    ("pki-profile.bind", mkOpSpec ClassInstance LevelNone
       pkiOperatorFormula
       (sops [
               "pki.GetProfile"; "pki.ListBindings"; "pki.CreateBinding";
               "audit.InsertInstance"])
       false ["pki.profile"] false false);
    ("pki-profile.unbind", mkOpSpec ClassInstance LevelNone
       pkiOperatorFormula
       (sops [
               "pki.GetProfile"; "pki.ListBindings"; "pki.DeleteBinding";
               "audit.InsertInstance"])
       false ["pki.profile"] false false);
    ("certificate.issue", mkOpSpec ClassTenant LevelEnv
       pkiIssueFormula
       (sops [
               "pki.BoundProfile"; "pki.ActiveIssuerPublic"; "pki.IssuerForSigning";
               "pki.FenceIssuance"; "pki.CreateCertificate"; "pki.FinishCertificate";
               "pki.FailCertificate"; "pki.GetCertificate"; "audit.InsertTenant"])
       true [
               "pki.certificate_transition_intent"; "pki.certificate_transition_outcome";
               "pki.certificate_key_disclosed"] false false);
    ("certificate.renew", mkOpSpec ClassTenant LevelEnv
       pkiIssueFormula
       (sops [
               "pki.GetCertificate"; "pki.BoundProfile"; "pki.ActiveIssuerPublic";
               "pki.IssuerPublic"; "pki.IssuerForSigning"; "pki.FenceIssuance";
               "pki.CreateCertificate"; "pki.FinishCertificate"; "pki.FailCertificate";
               "pki.ClaimRenewal"; "pki.CompleteRenewal"; "pki.ReleaseRenewal";
               "audit.InsertTenant"])
       true ["pki.certificate_transition_intent"; "pki.certificate_transition_outcome"] false false);
    ("certificate.revoke", mkOpSpec ClassTenant LevelEnv
       pkiIssueFormula
       (sops [
               "pki.GetCertificate"; "pki.IssuerPublic"; "pki.RevokeCertificate";
               "audit.InsertTenant"])
       false ["pki.certificate_transition_outcome"] false false);
    ("certificate.inspect", mkOpSpec ClassTenant LevelEnv
       [mkAtom CapRead LevelEnv]
       (sops [
               "pki.GetCertificate"; "pki.ListCertificates"; "pki.BoundProfiles";
               "pki.IssuerPublic"; "pki.ActiveIssuerPublic"])
       false [] true false)
  ].

(** The rows of the table, in source order. *)
Definition operationRows : list (Operation * opSpec) :=
  operationTable_1 ++ operationTable_2 ++ operationTable_3 ++ operationTable_4 ++
  operationTable_5 ++ operationTable_6 ++ operationTable_7 ++ operationTable_8 ++
  operationTable_9 ++ operationTable_10 ++ operationTable_11 ++ operationTable_12 ++
  operationTable_13 ++ operationTable_14 ++ operationTable_15 ++ operationTable_16 ++
  operationTable_17 ++ operationTable_18 ++ operationTable_19 ++ operationTable_20 ++
  operationTable_21 ++ operationTable_22 ++ operationTable_23 ++ operationTable_24.

Definition operationTable : gmap Operation opSpec := list_to_map operationRows.

(** [mustNewRegistry(operationTable)]: it panics on a table that does not
    validate; [shipped_registry_valid] shows that this one does. *)
Definition mustNewRegistry : Registry := default ∅ (newRegistry operationTable).

(** The installed registry, sealed: proofs reach a row through
    [registry_operationTable], conversion never unfolds the table. *)
Definition registry_aux : seal mustNewRegistry.
Proof. by eexists. Qed.

Definition registry : Registry := registry_aux.(unseal).

Lemma registry_eq : registry = mustNewRegistry.
Proof. exact registry_aux.(seal_eq). Qed.
