(* ===== verification/RegistryFacts.v ===== *)
(** * The shipped registry *)

From stdpp Require Import prelude gmap strings list.
From S2P Require Import Prelude Domain Tables Registry OperationTable.

Lemma rows_valid :
  forallb (λ kv, bool_decide (kv.1 ≠ "") && validateSpec kv.1 kv.2) operationRows = true.
Proof. vm_compute. reflexivity. Qed.

(** The table passes the startup validation. *)
Lemma shipped_newRegistry : newRegistry operationTable = Some operationTable.
Proof.
  unfold newRegistry.
  assert (forallb (λ kv, bool_decide (kv.1 ≠ "") && validateSpec kv.1 kv.2)
            (map_to_list operationTable) = true) as ->; [|done].
  apply forallb_true. intros [op spec] H%elem_of_map_to_list%elem_of_list_to_map_2.
  pose proof rows_valid as Hv. rewrite forallb_true in Hv. by apply (Hv (op, spec)).
Qed.

Lemma registry_operationTable : registry = operationTable.
Proof. rewrite registry_eq. unfold mustNewRegistry. by rewrite shipped_newRegistry. Qed.


(** From here on the table is reached through lookups evaluated by the virtual
    machine, never by unfolding. *)
#[global] Opaque operationTable.

Lemma shipped_lookup op :
  lookupSpec registry op = lookupSpec operationTable op.
Proof. by rewrite registry_operationTable. Qed.

(** The operations that read an environment's settings before a refusal is
    decided address an environment. *)
Lemma shipped_env_ops op spec :
  op = OpDeliveryFetch ∨ op = OpEnvDelete →
  lookupSpec registry op = Some spec → as_level spec = LevelEnv.
Proof.
  rewrite shipped_lookup. intros [->| ->] H; vm_compute in H; by injection H as <-.
Qed.

(** Every registered operation satisfies the registry invariant. *)
Lemma shipped_spec_wf op spec : registry !! op = Some spec → op ≠ "" ∧ spec_wf op spec.
Proof.
  rewrite registry_operationTable.
  destruct (newRegistry_wf _ _ shipped_newRegistry) as [_ H]. apply H.
Qed.

Lemma lookupSpec_Some (r : Registry) op spec :
  lookupSpec r op = Some spec → ∃ full, r !! op = Some full ∧ as_class spec = class full ∧
    as_level spec = level full ∧ as_formula spec = formula full.
Proof.
  unfold lookupSpec. destruct (r !! op) as [full|]; [|done]. intros [= <-]. by exists full.
Qed.

Lemma shipped_formula op spec : lookupSpec registry op = Some spec → as_formula spec ≠ [].
Proof.
  intros (full & Hop & _ & _ & ->)%lookupSpec_Some.
  by destruct (shipped_spec_wf _ _ Hop) as [_ []].
Qed.

Lemma shipped_class op spec :
  lookupSpec registry op = Some spec →
  as_class spec = ClassTenant ∧ as_level spec ≠ LevelNone ∨
  as_class spec = ClassInstance ∧ as_level spec = LevelNone.
Proof.
  intros (full & Hop & -> & -> & _)%lookupSpec_Some.
  by destruct (shipped_spec_wf _ _ Hop) as [_ []].
Qed.

Lemma shipped_rule_ops op spec :
  op ∈ [OpRuleCreate; OpRuleRevoke; OpRuleListProject] →
  lookupSpec registry op = Some spec → as_class spec = ClassTenant.
Proof.
  rewrite shipped_lookup. intros Hop H.
  repeat (apply elem_of_cons in Hop as [->|Hop]; [vm_compute in H; by injection H as <-|]).
  apply elem_of_nil in Hop. destruct Hop.
Qed.
