(* ===== verification/Evaluate.v ===== *)
(** * Formula evaluation

    The pure core of the chokepoint: grant coverage and formula evaluation
    ([internal/authz/authorize.go]), rules joining it ([rules.go]), metadata
    navigation ([rule_navigation.go]), developer authority ([developer.go]),
    machine reachability ([machine.go]) and session assurance ([session.go]). *)

From stdpp Require Import prelude gmap strings list.
From S2P Require Import Prelude StringFacts Domain Rule Containment Tables Registry.
From S2P Require Import OperationTable.

(** ** Coverage *)

Definition truncate (s : Scope) (l : Level) : Scope :=
  match l with
  | LevelNone => zeroScope
  | LevelOrg => mkScope (Org s) "" ""
  | LevelProject => mkScope (Org s) (Project s) ""
  | LevelEnv => s
  end.

Definition covers (g target : Scope) : bool :=
  if bool_decide (Org g = "") then true else
  if bool_decide (Org g ≠ Org target) then false else
  if bool_decide (Project g = "") then true else
  if bool_decide (Project g ≠ Project target) then false else
  if bool_decide (Env g = "") then true else
  bool_decide (Env g = Env target).

Definition evaluate (f : Formula) (chain : Scope) (grants : list Grant) : bool :=
  forallb (λ atom,
    let target := truncate chain (At atom) in
    existsb (λ g, bool_decide (Grant_Capability g = Cap atom) && covers (Grant_Scope g) target)
      grants) f.

(** ** Rules join the evaluation *)

Definition ruleSatisfiable (f : Formula) : bool :=
  existsb (λ atom,
    match RuleShapeOf (Cap atom) with
    | None => false
    | Some _ =>
        negb (bool_decide (Cap atom = CapManageMembers))
        && (bool_decide (At atom = LevelProject) || bool_decide (At atom = LevelEnv))
    end) f.

(** A stored rule takes part only when it validates. *)
Definition rule_reaches (chain : Scope) (key : option RuleKey) (atom : Atom) (r : Rule) : bool :=
  is_ok (Validate r) && Reaches r (Cap atom) (At atom) chain key.

Definition evaluateWithRules (f : Formula) (chain : Scope) (grants : list Grant)
    (rules : list Rule) (key : option RuleKey) : bool :=
  forallb (λ atom,
    evaluate [atom] chain grants || existsb (rule_reaches chain key atom) rules) f.

Definition developerEnvironmentAuthority (scope : Scope) (grants : list Grant)
    (rules : list Rule) : bool :=
  evaluateWithRules [mkAtom CapRead LevelEnv; mkAtom CapReveal LevelEnv] scope grants rules None.

(** ** Metadata navigation *)

Definition ruleNavigationOperation (op : Operation) : bool :=
  Contains [OpOrgGet; OpProjectList; OpProjectGet; OpEnvList; OpKeyList; OpKeyGet;
            OpFolderList; OpFolderGet; OpKeyGroupList; OpKeyGroupGet;
            OpDefinitionsSettingsGet] op.

(** The synthetic See selector of a project or environment [read] grant. *)
Definition navigation_grant_rule (chain : Scope) (g : Grant) : option Rule :=
  let s := Grant_Scope g in
  if bool_decide (Grant_Capability g ≠ CapRead) || bool_decide (Org s ≠ Org chain)
     || bool_decide (Project s = "") then None
  else
    let w := if bool_decide (Env s ≠ "")
             then mkWhere [Project s] AxisOnly {[ Project s := [Env s] ]} AxisAll ∅
             else mkWhere [Project s] AxisAll ∅ AxisAll ∅ in
    Some (mkRule "" "" CapRead (Org chain) w).

Definition drop_keys (w : Where) : Where :=
  mkWhere (Projects w) (EnvMode w) (Envs w) AxisAll ∅.

(** Project metadata follows actual environment reach. *)
Definition navigation_where (w : Where) : Where :=
  let w := drop_keys w in
  if bool_decide (EnvMode w = AxisOnly) then
    let ps := filter (λ p, length (mget (Envs w) p) ≠ 0) (Projects w) in
    mkWhere ps (EnvMode w) (filter (λ kv, kv.1 ∈ ps) (Envs w)) (KeyMode w)
      (filter (λ kv, kv.1 ∈ ps) (Keys w))
  else w.

Definition navigation_rule (chain : Scope) (r : Rule) : option Rule :=
  if bool_decide (Rule_Org r ≠ Org chain) || bool_decide (Rule_Capability r ≠ CapRead)
     || negb (is_ok (Validate r)) then None
  else
    let w := navigation_where (Rule_Where r) in
    if Nat.eqb (length (Projects w)) 0
       || bool_decide (Project chain ≠ "") && negb (Contains (Projects w) (Project chain))
    then None
    else Some (mkRule (Rule_ID r) (Rule_Principal r) (Rule_Capability r) (Rule_Org r) w).

Definition ruleNavigationReach (op : Operation) (chain : Scope) (rules : list Rule)
    (grants : list Grant) : list Rule :=
  if negb (ruleNavigationOperation op) then []
  else omap (navigation_rule chain) (rules ++ omap (navigation_grant_rule chain) grants).

(** ** Machine reachability *)

Definition coveredBy (grants : list Grant) (cap : Capability) (at_ : Scope) : bool :=
  existsb (λ g, bool_decide (Grant_Capability g = cap) && covers (Grant_Scope g) at_) grants.

Record Reachable := mkReachable { Current : gset EnvID; Historical : gset EnvID }.

Definition ReachableFrom (scope : Scope) (envs : list EnvID) (grants : list Grant) : Reachable :=
  foldl (λ out env,
    let at_ := mkScope (Org scope) (Project scope) env in
    if negb (coveredBy grants CapRead at_) then out
    else mkReachable
      (if coveredBy grants CapReveal at_ then {[env]} ∪ Current out else Current out)
      (if coveredBy grants CapRevealHistory at_ then {[env]} ∪ Historical out
       else Historical out))
    (mkReachable ∅ ∅) envs.

(** ** Session assurance *)

Definition MFAMandatory : gset Capability := list_to_set
  [CapReveal; CapRevealHistory; CapManageMembers; CapCredentialReset; CapInstanceConfig;
   CapAuditRead; CapRotateDEK; CapReencrypt; CapInstanceDirector].

(** The factor classes of [Assurance.Factors]. *)
Definition AdequateAssurance (factors : list string) : bool :=
  existsb (λ f, bool_decide (f = "webauthn")) factors
  || Nat.leb 2 (size (list_to_set factors : gset string)).

Definition AssuranceRank (factors : list string) : nat :=
  if existsb (λ f, bool_decide (f = "webauthn")) factors then 2
  else if AdequateAssurance factors then 1 else 0.

Definition FormulaDemandsMFA (r : Registry) (op : Operation) : bool :=
  match lookupSpec r op with
  | None => false
  | Some spec => existsb (λ atom, set_mem MFAMandatory (Cap atom)) (as_formula spec)
  end.

(** ** Session assurance, declaratively *)

Lemma AdequateAssurance_true factors :
  AdequateAssurance factors = true ↔
  "webauthn" ∈ factors ∨ ∃ f g, f ∈ factors ∧ g ∈ factors ∧ f ≠ g.
Proof.
  unfold AdequateAssurance. rewrite orb_true_iff, existsb_true, Nat.leb_le. f_equiv.
  { setoid_rewrite bool_decide_eq_true. naive_solver. }
  split.
  - intros H. set (X := list_to_set factors : gset string) in *.
    destruct (elements X) as [|f [|g l]] eqn:E.
    + unfold size, set_size in H. simpl in H. rewrite E in H. simpl in H. lia.
    + unfold size, set_size in H. simpl in H. rewrite E in H. simpl in H. lia.
    + exists f, g. pose proof (NoDup_elements X) as Hnd. rewrite E in Hnd.
      assert (f ∈ X ∧ g ∈ X) as [Hf Hg].
      { split; apply elem_of_elements; rewrite E; set_solver. }
      split_and!; [set_solver|set_solver|]. inversion Hnd. set_solver.
  - intros (f & g & Hf & Hg & Hne).
    assert ({[f; g]} ⊆ (list_to_set factors : gset string)) as Hsub by set_solver.
    apply subseteq_size in Hsub. rewrite size_union in Hsub by set_solver.
    rewrite !size_singleton in Hsub. lia.
Qed.

(** ** Coverage lemmas *)

Lemma covers_true g t :
  covers g t = true ↔
  Org g = "" ∨ Org g = Org t ∧
  (Project g = "" ∨ Project g = Project t ∧ (Env g = "" ∨ Env g = Env t)).
Proof.
  unfold covers. repeat case_bool_decide; naive_solver.
Qed.

Lemma covers_instance t : covers zeroScope t = true.
Proof. by apply covers_true; left. Qed.

Lemma covers_refl s : covers s s = true.
Proof. apply covers_true. tauto. Qed.

(** A scope without gaps, as [Scope.Level] accepts it. *)
Definition gap_free (s : Scope) : Prop := is_ok (ScopeLevel s) = true.

Lemma gap_free_spec s :
  gap_free s ↔ (Org s = "" → Project s = "" ∧ Env s = "") ∧ (Project s = "" → Env s = "").
Proof.
  unfold gap_free. rewrite ScopeLevel_cases. repeat case_decide; simpl; naive_solver.
Qed.


Lemma evaluate_true f chain grants :
  evaluate f chain grants = true ↔
  ∀ atom, atom ∈ f → ∃ g, g ∈ grants ∧ Grant_Capability g = Cap atom ∧
    covers (Grant_Scope g) (truncate chain (At atom)) = true.
Proof.
  unfold evaluate. rewrite forallb_true. split; intros H atom Hin; specialize (H atom Hin).
  - apply existsb_true in H as (g & Hg & E). bsimp. naive_solver.
  - apply existsb_true. destruct H as (g & Hg & Hc & Hcov). exists g. split; [done|].
    rewrite Hcov, bool_decide_true by done. done.
Qed.

(** One atom at a time. *)
Lemma evaluate_single atom chain grants :
  evaluate [atom] chain grants = coveredBy grants (Cap atom) (truncate chain (At atom)).
Proof. unfold evaluate, coveredBy. simpl. apply andb_true_r. Qed.

Lemma evaluate_pair a b chain grants :
  evaluate [a; b] chain grants =
    coveredBy grants (Cap a) (truncate chain (At a))
    && coveredBy grants (Cap b) (truncate chain (At b)).
Proof. unfold evaluate, coveredBy. simpl. by rewrite andb_true_r. Qed.

Lemma evaluate_atoms f chain grants :
  evaluate f chain grants = forallb (λ atom, evaluate [atom] chain grants) f.
Proof.
  unfold evaluate at 1. apply forallb_ext. intros a. by rewrite evaluate_single.
Qed.

Lemma coveredBy_true grants cap s :
  coveredBy grants cap s = true ↔
  ∃ g, g ∈ grants ∧ Grant_Capability g = cap ∧ covers (Grant_Scope g) s = true.
Proof.
  unfold coveredBy. rewrite existsb_true. setoid_rewrite andb_true_iff.
  by setoid_rewrite bool_decide_eq_true.
Qed.

Lemma evaluate_mono f chain grants grants' :
  grants ⊆ grants' → evaluate f chain grants = true → evaluate f chain grants' = true.
Proof.
  rewrite !evaluate_true. intros Hsub H atom Hin. destruct (H atom Hin) as (g & Hg & ?).
  exists g. split; [by apply Hsub|done].
Qed.

Lemma evaluateWithRules_true f chain grants rules key :
  evaluateWithRules f chain grants rules key = true ↔
  ∀ atom, atom ∈ f → evaluate [atom] chain grants = true ∨
    ∃ r, r ∈ rules ∧ Validate r = Ok tt ∧ Reaches r (Cap atom) (At atom) chain key = true.
Proof.
  unfold evaluateWithRules. rewrite forallb_true.
  split; intros H atom Hin; specialize (H atom Hin).
  - apply orb_true_iff in H as [H|H]; [by left|right].
    apply existsb_true in H as (r & Hr & [Hv Hre]%andb_true_iff).
    apply is_ok_true in Hv as [[] Hv]. eauto.
  - apply orb_true_iff. destruct H as [H|(r & Hr & Hv & Hre)]; [by left|right].
    apply existsb_true. exists r. split; [done|]. unfold rule_reaches. by rewrite Hv, Hre.
Qed.

(** Grants alone are the rule-free case. *)
Lemma evaluateWithRules_grants f chain grants key :
  evaluateWithRules f chain grants [] key = evaluate f chain grants.
Proof.
  rewrite evaluate_atoms. unfold evaluateWithRules. simpl.
  apply forallb_ext. intros a. apply orb_false_r.
Qed.

Lemma evaluateWithRules_mono f chain grants grants' rules rules' key :
  grants ⊆ grants' → rules ⊆ rules' →
  evaluateWithRules f chain grants rules key = true →
  evaluateWithRules f chain grants' rules' key = true.
Proof.
  rewrite !evaluateWithRules_true. intros Hg Hr H atom Hin.
  destruct (H atom Hin) as [He|(r & Hin' & ?)].
  - left. by eapply evaluate_mono.
  - right. exists r. split; [by apply Hr|done].
Qed.

(** A rule that reaches an atom without a key reaches it with every key. *)
Lemma Reaches_keyless r c at_ s key :
  Reaches r c at_ s None = true → Reaches r c at_ s key = true.
Proof.
  unfold Reaches. intros H. bcase; [done|]. bcase; [done|].
  destruct (reaches_level (Rule_Where r) c at_ s None) eqn:E1; [|done].
  assert (reaches_level (Rule_Where r) c at_ s key = true) as ->.
  { destruct at_; try done. simpl in *. rewrite andb_false_r in E1.
    apply negb_true_iff, orb_false_iff in E1 as [Hm Hl].
    rewrite bool_decide_eq_false in Hm. apply dec_stable in Hm. rewrite Hm, Hl.
    by bcase. }
  simpl in *. bcase; [done|]. bcase; [done|]. done.
Qed.

Lemma evaluateWithRules_keyless f chain grants rules key :
  evaluateWithRules f chain grants rules None = true →
  evaluateWithRules f chain grants rules key = true.
Proof.
  rewrite !evaluateWithRules_true. intros H atom Hin.
  destruct (H atom Hin) as [?|(r & ? & ? & ?)]; [by left|right].
  exists r. eauto using Reaches_keyless.
Qed.

(** ** Tenant isolation of the evaluation *)

(** No authority in the organisation of the chain: every grant is a tenant
    grant of another organisation. *)
Definition foreign_grants (org : OrgID) (grants : list Grant) : Prop :=
  ∀ g, g ∈ grants → Org (Grant_Scope g) ≠ "" ∧ Org (Grant_Scope g) ≠ org.

Definition foreign_rules (org : OrgID) (rules : list Rule) : Prop :=
  ∀ r, r ∈ rules → Rule_Org r ≠ org.

Lemma truncate_org s l : Org (truncate s l) = "" ∨ Org (truncate s l) = Org s.
Proof. destruct l; simpl; auto. Qed.

Lemma evaluate_foreign f chain grants :
  f ≠ [] → foreign_grants (Org chain) grants → evaluate f chain grants = false.
Proof.
  intros Hne Hf. apply not_true_iff_false. rewrite evaluate_true. intros H.
  destruct f as [|a f]; [done|]. destruct (H a) as (g & Hg & _ & Hc%covers_true); [set_solver|].
  destruct (Hf g Hg) as [H1 H2]. pose proof (truncate_org chain (At a)).
  destruct Hc as [?|[Ho _]]; [done|]. rewrite Ho in *. naive_solver.
Qed.

Lemma evaluateWithRules_foreign f chain grants rules key :
  f ≠ [] → foreign_grants (Org chain) grants → foreign_rules (Org chain) rules →
  evaluateWithRules f chain grants rules key = false.
Proof.
  intros Hne Hg Hr. apply not_true_iff_false. rewrite evaluateWithRules_true. intros H.
  destruct f as [|a f]; [done|]. destruct (H a) as [He|(r & Hin & _ & Hre)]; [set_solver| |].
  - by rewrite (evaluate_foreign [a]) in He.
  - apply Reaches_scope in Hre as (_ & _ & Ho & _). by apply (Hr r Hin).
Qed.

(** ** Navigation stays inside the rules' and grants' own selectors *)

Lemma navigation_foreign op chain rules grants :
  foreign_grants (Org chain) grants → foreign_rules (Org chain) rules →
  ruleNavigationReach op chain rules grants = [].
Proof.
  intros Hg Hr. unfold ruleNavigationReach. bcase; [done|].
  assert (omap (navigation_grant_rule chain) grants = []) as ->.
  { apply omap_all_None. intros g Hin. unfold navigation_grant_rule.
    destruct (Hg g Hin). rewrite (bool_decide_true (Org _ ≠ _)) by done.
    by rewrite orb_true_r. }
  rewrite app_nil_r. apply omap_all_None. intros r Hin.
  unfold navigation_rule. by rewrite (bool_decide_true (Rule_Org r ≠ _)) by (by apply Hr).
Qed.

(** ** Machine reachability agrees with authorization *)

Lemma ReachableFrom_fold scope envs grants out env :
  let R := foldl (λ out env,
    let at_ := mkScope (Org scope) (Project scope) env in
    if negb (coveredBy grants CapRead at_) then out
    else mkReachable
      (if coveredBy grants CapReveal at_ then {[env]} ∪ Current out else Current out)
      (if coveredBy grants CapRevealHistory at_ then {[env]} ∪ Historical out
       else Historical out)) out envs in
  let at_ := mkScope (Org scope) (Project scope) env in
  (env ∈ Current R ↔ env ∈ Current out ∨ env ∈ envs ∧
    coveredBy grants CapRead at_ = true ∧ coveredBy grants CapReveal at_ = true) ∧
  (env ∈ Historical R ↔ env ∈ Historical out ∨ env ∈ envs ∧
    coveredBy grants CapRead at_ = true ∧ coveredBy grants CapRevealHistory at_ = true).
Proof.
  cbv zeta. revert out. induction envs as [|e envs IH]; intros out; simpl.
  - rewrite elem_of_nil. tauto.
  - destruct (IH (if negb (coveredBy grants CapRead (mkScope (Org scope) (Project scope) e))
      then out else mkReachable
      (if coveredBy grants CapReveal (mkScope (Org scope) (Project scope) e)
       then {[e]} ∪ Current out else Current out)
      (if coveredBy grants CapRevealHistory (mkScope (Org scope) (Project scope) e)
       then {[e]} ∪ Historical out else Historical out))) as [-> ->].
    rewrite elem_of_cons. destruct (decide (env = e)) as [->|Hne].
    + destruct (coveredBy grants CapRead _); simpl; [|split; intuition congruence].
      destruct (coveredBy grants CapReveal _), (coveredBy grants CapRevealHistory _); simpl;
        split; set_solver.
    + destruct (coveredBy grants CapRead (mkScope (Org scope) (Project scope) e)); simpl;
        [|split; tauto].
      destruct (coveredBy grants CapReveal (mkScope (Org scope) (Project scope) e)),
        (coveredBy grants CapRevealHistory (mkScope (Org scope) (Project scope) e)); simpl;
        split; set_solver.
Qed.

Lemma ReachableFrom_spec scope envs grants env :
  let at_ := mkScope (Org scope) (Project scope) env in
  (env ∈ Current (ReachableFrom scope envs grants) ↔ env ∈ envs ∧
    evaluate [mkAtom CapRead LevelEnv; mkAtom CapReveal LevelEnv] at_ grants = true) ∧
  (env ∈ Historical (ReachableFrom scope envs grants) ↔ env ∈ envs ∧
    evaluate [mkAtom CapRead LevelEnv; mkAtom CapRevealHistory LevelEnv] at_ grants = true).
Proof.
  intros at_. pose proof (ReachableFrom_fold scope envs grants (mkReachable ∅ ∅) env) as H.
  cbv zeta in H. fold (ReachableFrom scope envs grants) in H.
  destruct H as [-> ->]. rewrite !evaluate_pair, !andb_true_iff. simpl. fold at_.
  rewrite !elem_of_empty. tauto.
Qed.
