(* ===== verification/Delegation.v ===== *)
(** * Rule delegation: [internal/authz/rule_delegation.go]

    The grantor bound. [ruleSelectorHeldResolving] decides whether a caller
    holds a capability over a whole selector, from grants, single rules and
    the union of both; [ruleCapabilityHeld] is the bound a new rule must pass
    and [ruleDelegationHeld] the management proof. [selector_held_sound] is the
    no-escalation theorem: whatever the selector admits, environment by
    environment and key by key, present or future, the grantor already holds. *)

From stdpp Require Import prelude gmap strings list.
From S2P Require Import Prelude StringFacts Domain Rule Containment Tables Registry Evaluate.

(** ** Operations

    [resolve] is the transaction's key metadata lookup ([ResolveRuleKey]). *)

(** See always covers the whole environment catalogue (ADR D5). *)
Definition effective_where (c : Capability) (w : Where) : Where :=
  if bool_decide (c = CapRead) then drop_keys w else w.

Definition with_env (s : Scope) (e : EnvID) : Scope := mkScope (Org s) (Project s) e.

(** The selector of one environment grant. *)
Definition grant_selector (chain : Scope) (capability : Capability) (g : Grant) : option Where :=
  let e := Env (Grant_Scope g) in
  if bool_decide (e = "") then None
  else if evaluate [mkAtom capability LevelEnv] (with_env chain e) [g]
  then Some (mkWhere [Project chain] AxisOnly {[ Project chain := [e] ]} AxisAll ∅)
  else None.

(** Key metadata for every single-key item, failing on the first lookup error. *)
Fixpoint resolve_items (resolve : string → result error RuleKey) (items : list RuleKeyItem)
    (folders : gmap string string) : result error (gmap string string) :=
  match items with
  | [] => Ok folders
  | item :: rest =>
      if Item_IsFolder item then resolve_items resolve rest folders
      else let! key := resolve (Item_KeyID item) in
           resolve_items resolve rest (<[Item_KeyID item := Key_Folder key]> folders)
  end.

Definition ErrDiverged : error := Loud "selector witness search diverged".

(** The loop over the caller's rules, with the selectors and the key metadata
    accumulated so far, and the union test after it. *)
Fixpoint rules_loop (resolve : string → result error RuleKey) (chain : Scope)
    (capability : Capability) (target : Where) (selectors : list Where)
    (allFolders : gmap string string) (rules : list Rule) : result error bool :=
  match rules with
  | [] =>
      if Nat.ltb 0 (length selectors) then
        match WhereUnionContainsInProject selectors target (Project chain) allFolders with
        | Some b => Ok b
        | None => Err ErrDiverged
        end
      else Ok false
  | rule :: rest =>
      if bool_decide (Rule_Org rule ≠ Org chain) || bool_decide (Rule_Capability rule ≠ capability)
         || negb (is_ok (Validate rule))
         || negb (Contains (Projects (Rule_Where rule)) (Project chain))
      then rules_loop resolve chain capability target selectors allFolders rest
      else
        let outer := effective_where capability (Rule_Where rule) in
        let! folders := resolve_items resolve
          (mget (Keys outer) (Project chain) ++ mget (Keys target) (Project chain)) ∅ in
        if ContainsWhereInProject outer target (Project chain) folders then Ok true
        else rules_loop resolve chain capability target (selectors ++ [outer])
               (folders ∪ allFolders) rest
  end.

Definition ruleSelectorHeldResolving (resolve : string → result error RuleKey) (chain : Scope)
    (grants : list Grant) (rules : list Rule) (capability : Capability) (target : Where)
  : result error bool :=
  if evaluate [mkAtom capability LevelProject] chain grants then Ok true else
  let envs := mget (Envs target) (Project chain) in
  if bool_decide (EnvMode target = AxisOnly) && Nat.ltb 0 (length envs)
     && forallb (λ env, evaluate [mkAtom capability LevelEnv] (with_env chain env) grants) envs
  then Ok true else
  rules_loop resolve chain capability target (omap (grant_selector chain capability) grants) ∅
    rules.

Fixpoint ruleDelegationHeld_atoms (resolve : string → result error RuleKey) (f : Formula)
    (chain : Scope) (grants : list Grant) (rules : list Rule) (target : Where)
  : result error bool :=
  match f with
  | [] => Ok true
  | atom :: rest =>
      if evaluate [atom] chain grants then
        ruleDelegationHeld_atoms resolve rest chain grants rules target
      else if bool_decide (Cap atom ≠ CapManageMembers) then Ok false
      else
        let! held := ruleSelectorHeldResolving resolve chain grants rules CapManageMembers target in
        if held then ruleDelegationHeld_atoms resolve rest chain grants rules target else Ok false
  end.

Definition ruleDelegationHeld (resolve : string → result error RuleKey) (f : Formula)
    (chain : Scope) (grants : list Grant) (rules : list Rule) (target : Rule)
  : result error bool :=
  ruleDelegationHeld_atoms resolve f chain grants rules
    (effective_where (Rule_Capability target) (Rule_Where target)).

(** The decision of [RuleCapabilityHeld], after the caller's grants and rules
    have been read. *)
Definition ruleCapabilityHeld (resolve : string → result error RuleKey) (grants : list Grant)
    (rules : list Rule) (target : Rule) (project : ProjectID) : result error bool :=
  ruleSelectorHeldResolving resolve (mkScope (Rule_Org target) project "") grants rules
    (Rule_Capability target) (effective_where (Rule_Capability target) (Rule_Where target)).

(** ** The meaning of "held" *)

(** The caller holds the capability in one environment for one key: a grant
    covers the environment or a valid rule of the organisation selects both. *)
Definition holds (chain : Scope) (grants : list Grant) (rules : list Rule)
    (capability : Capability) (env : EnvID) (key : RuleKey) : Prop :=
  coveredBy grants capability (with_env chain env) = true ∨
  ∃ r, r ∈ rules ∧ Validate r = Ok tt ∧ Rule_Org r = Org chain ∧
    Rule_Capability r = capability ∧
    selects (effective_where capability (Rule_Where r)) (Project chain) env key = true.

(** The key as the transaction's metadata lookup knows it. *)
Definition resolve_consistent (resolve : string → result error RuleKey) (key : RuleKey) : Prop :=
  Key_ID key ≠ "" → ∀ k, resolve (Key_ID key) = Ok k → Key_Folder key = Key_Folder k.

Lemma covers_deeper g s e :
  covers g (mkScope (Org s) (Project s) "") = true → covers g (with_env s e) = true.
Proof. rewrite !covers_true. simpl. naive_solver. Qed.

Lemma grant_selector_sound chain capability grants env key w :
  w ∈ omap (grant_selector chain capability) grants →
  selects w (Project chain) env key = true →
  coveredBy grants capability (with_env chain env) = true.
Proof.
  rewrite list_elem_of_omap. intros (g & Hg & Hw). unfold grant_selector in Hw.
  bcase; [done|]. bcase; [|done]. simplify_eq. rewrite evaluate_single in E0.
  unfold selects, selectorEnvMatches. simpl. rewrite !andb_true_iff, orb_true_iff.
  intros [[_ Henv] _]. destruct Henv as [Henv|?]; [|done]. rewrite Contains_true in Henv.
  unfold mget in Henv. rewrite lookup_singleton_eq in Henv. simpl in Henv.
  apply list_elem_of_singleton in Henv as ->.
  apply coveredBy_true in E0 as (g' & Hg'%list_elem_of_singleton & ? & ?). subst g'.
  apply coveredBy_true. eauto.
Qed.

Lemma resolve_items_spec resolve items folders folders' :
  resolve_items resolve items folders = Ok folders' →
  ∀ id f, folders' !! id = Some f →
    folders !! id = Some f ∨ ∃ k, resolve id = Ok k ∧ Key_Folder k = f.
Proof.
  revert folders. induction items as [|it items IH]; intros folders; simpl.
  { intros [= ->] id f Hf. by left. }
  destruct (Item_IsFolder it); [apply IH|].
  intros (k & Hk & Hrest)%rbind_Ok id f Hf.
  destruct (IH _ Hrest id f Hf) as [Hin|?]; [|by right].
  apply lookup_insert_Some in Hin as [[<- <-]|[_ ?]]; [right; eauto|by left].
Qed.

(** Metadata that all comes from the lookup is consistent with the key. *)
Definition from_resolve (resolve : string → result error RuleKey) (m : gmap string string) : Prop :=
  ∀ id f, m !! id = Some f → ∃ k, resolve id = Ok k ∧ Key_Folder k = f.

Lemma from_resolve_consistent resolve m key :
  from_resolve resolve m → resolve_consistent resolve key → key_consistent m key.
Proof.
  intros Hm Hk Hne f Hf. destruct (Hm _ _ Hf) as (k & Hr & <-). by apply Hk.
Qed.

Section loop.
Context (resolve : string → result error RuleKey) (chain : Scope) (grants : list Grant)
  (all_rules : list Rule) (capability : Capability) (target : Where)
  (env : EnvID) (key : RuleKey).
Context (Hkey : resolve_consistent resolve key)
  (Henv : selectorEnvMatches target (Project chain) env = true)
  (Hsel : selectorKeyMatches target (Project chain) key = true).

(** Every accumulated selector stands for authority the caller holds. *)
Definition backed (selectors : list Where) : Prop :=
  ∀ w, w ∈ selectors → selects w (Project chain) env key = true →
    holds chain grants all_rules capability env key.

Lemma rules_loop_sound rules selectors allFolders :
  rules ⊆ all_rules → backed selectors → from_resolve resolve allFolders →
  rules_loop resolve chain capability target selectors allFolders rules = Ok true →
  holds chain grants all_rules capability env key.
Proof using All.
  revert selectors allFolders.
  induction rules as [|r rules IH]; intros selectors allFolders Hsub Hback Hfr; simpl.
  { bcase; [|done]. destruct (WhereUnionContainsInProject _ _ _ _) as [b|] eqn:Hu; [|done].
    intros [= ->]. apply WhereUnion_iff in Hu as [_ Hu].
    destruct (Hu env key) as (w & Hw & Hs); [by eapply from_resolve_consistent|done..|].
    by eapply Hback. }
  bcase; [apply IH; [set_solver|done..]|].
  apply orb_false_iff in E as [E Hp]. apply orb_false_iff in E as [E Hv].
  apply orb_false_iff in E as [Ho Hc]. apply negb_false_iff in Hp, Hv.
  rewrite bool_decide_eq_false in Ho, Hc. apply dec_stable in Ho, Hc.
  apply is_ok_true in Hv as [[] Hv].
  assert (selects (effective_where capability (Rule_Where r)) (Project chain) env key = true →
          holds chain grants all_rules capability env key) as Hr.
  { intros Hs. right. exists r. split_and!; try done. set_solver. }
  intros (folders & Hf & Hrest)%rbind_Ok.
  pose proof (resolve_items_spec _ _ _ _ Hf) as Hspec.
  assert (from_resolve resolve folders) as Hfr'.
  { intros id f Hid. destruct (Hspec id f Hid) as [H|?]; [|done].
    by rewrite lookup_empty in H. }
  destruct (ContainsWhereInProject _ _ _ _) eqn:Hc'.
  - apply Hr. eapply ContainsWhere_sound; [done| |done..].
    by eapply from_resolve_consistent.
  - eapply IH, Hrest; [set_solver| |].
    + intros w [Hw| ->%list_elem_of_singleton]%elem_of_app Hs; [by eapply Hback|by apply Hr].
    + intros id f [Hid|[_ Hid]]%lookup_union_Some_raw; [by apply Hfr'|by apply Hfr].
Qed.

Lemma selector_held_sound :
  ruleSelectorHeldResolving resolve chain grants all_rules capability target = Ok true →
  holds chain grants all_rules capability env key.
Proof using All.
  unfold ruleSelectorHeldResolving. bcase.
  { intros _. left. rewrite evaluate_single in E. simpl in E.
    apply coveredBy_true in E as (g & Hg & Hc & Hcov). apply coveredBy_true.
    exists g. eauto using covers_deeper. }
  bcase.
  { intros _. left. rewrite !andb_true_iff, bool_decide_eq_true in E0.
    destruct E0 as [[Honly _] Hall]. rewrite forallb_true in Hall.
    unfold selectorEnvMatches in Henv. rewrite Honly in Henv.
    change (bool_decide (AxisOnly = AxisAll)) with false in Henv. simpl in Henv.
    rewrite orb_false_r, Contains_true in Henv. specialize (Hall env Henv).
    by rewrite evaluate_single in Hall. }
  apply rules_loop_sound; [done| |].
  - intros w Hw Hs. left. by eapply grant_selector_sound.
  - intros id f Hid. by rewrite lookup_empty in Hid.
Qed.
End loop.

(** ** From selectors to formula evaluation *)

Lemma selects_effective_read w project env key :
  selects (effective_where CapRead w) project env key =
  Contains (Projects w) project && selectorEnvMatches w project env.
Proof.
  unfold selects, effective_where. simpl. unfold selectorKeyMatches. simpl.
  unfold mget. rewrite lookup_empty. simpl. apply andb_true_r.
Qed.

Lemma selects_effective c w project env key :
  selects (effective_where c w) project env key =
  Contains (Projects w) project && selectorEnvMatches w project env
  && (bool_decide (c = CapRead) || selectorKeyMatches w project key).
Proof.
  destruct (decide (c = CapRead)) as [->|Hc].
  - rewrite selects_effective_read. simpl. by rewrite andb_true_r.
  - unfold effective_where. by rewrite bool_decide_false.
Qed.

Lemma holds_evaluate chain grants rules c env key :
  c ≠ CapManageMembers → env ≠ "" → holds chain grants rules c env key →
  evaluateWithRules [mkAtom c LevelEnv] (with_env chain env) grants rules (Some key) = true.
Proof.
  intros Hc Henv Hholds. apply evaluateWithRules_true. intros a ->%list_elem_of_singleton.
  destruct Hholds as [Hcov|(r & Hr & Hv & Ho & Hcap & Hs)].
  - left. by rewrite evaluate_single.
  - right. exists r. split_and!; [done|done|]. rewrite Reaches_selector by done.
    by rewrite selects_effective in Hs.
Qed.

Lemma selects_target_env c w p env key :
  selects (effective_where c w) p env key = true →
  selectorEnvMatches (effective_where c w) p env = true ∧
  selectorKeyMatches (effective_where c w) p key = true.
Proof. unfold selects. rewrite !andb_true_iff. tauto. Qed.

(** C27 No privilege escalation through delegation. When the grantor bound
    [RuleCapabilityHeld] admits a valid rule for a project, every environment
    and key of that project the new rule reaches, including environments and
    keys that do not exist yet, is one the grantor's own grants and rules
    already satisfy. *)
Theorem delegation_no_escalation resolve grants rules target project env key :
  Validate target = Ok tt →
  Rule_Capability target ≠ CapManageMembers →
  ruleCapabilityHeld resolve grants rules target project = Ok true →
  resolve_consistent resolve key →
  Reaches target (Rule_Capability target) LevelEnv
    (mkScope (Rule_Org target) project env) (Some key) = true →
  evaluateWithRules [mkAtom (Rule_Capability target) LevelEnv]
    (mkScope (Rule_Org target) project env) grants rules (Some key) = true.
Proof.
  intros Hv Hc Hheld Hkey Hreach.
  assert (env ≠ "") as Henv.
  { intros ->. by apply Reaches_scope in Hreach as (_ & _ & _ & _ & ?). }
  rewrite Reaches_selector in Hreach by done. simpl in Hreach.
  rewrite <-selects_effective in Hreach.
  apply selects_target_env in Hreach as [He Hk].
  apply (holds_evaluate (mkScope (Rule_Org target) project "") grants rules _ env key Hc Henv).
  by eapply selector_held_sound.
Qed.

(** A grantor with See, edit and a key-scoped Reveal rule, delegating a narrower
    Reveal. *)
Definition demo_where (mode : AxisMode) (items : list RuleKeyItem) : Where :=
  mkWhere ["p1"] AxisAll ∅ mode (if decide (items = []) then ∅ else {[ "p1" := items ]}).

Definition demo_rule (cap : Capability) (w : Where) : Rule := mkRule "r" "alice" cap "o1" w.

Definition demo_resolve (id : string) : result error RuleKey :=
  if bool_decide (id = "k1") then Ok (mkRuleKey "k1" "db/prod") else Err ErrNotFound.

Lemma delegation_no_escalation_witness :
  evaluateWithRules [mkAtom CapReveal LevelEnv] (mkScope "o1" "p1" "e1") []
    [demo_rule CapReveal (demo_where AxisAll [mkItem "ops" "" true])]
    (Some (mkRuleKey "k1" "db/prod")) = true.
Proof.
  apply (delegation_no_escalation demo_resolve []
    [demo_rule CapReveal (demo_where AxisAll [mkItem "ops" "" true])]
    (demo_rule CapReveal (demo_where AxisOnly [mkItem "" "k1" false]))
    "p1" "e1" (mkRuleKey "k1" "db/prod")).
  - vm_compute. reflexivity.
  - intros H. vm_compute in H. discriminate H.
  - vm_compute. reflexivity.
  - intros _ k H. vm_compute in H. injection H as <-. reflexivity.
  - vm_compute. reflexivity.
Defined.

(** The bound is per environment and per key, not per atom. A grantor whose
    authority over a project is split between an all-except rule and an only
    rule may delegate the undivided rule, and that rule satisfies project-level
    and keyless atoms no rule of the grantor satisfies: here [definitions-edit]
    on the whole project. *)
Theorem delegation_project_atom_gap :
  let split := [demo_rule CapDefinitionsEdit
                  (mkWhere ["p1"] AxisAll {[ "p1" := ["e1"] ]} AxisAll ∅);
                demo_rule CapDefinitionsEdit
                  (mkWhere ["p1"] AxisOnly {[ "p1" := ["e1"] ]} AxisAll ∅)] in
  let whole := demo_rule CapDefinitionsEdit (mkWhere ["p1"] AxisAll ∅ AxisAll ∅) in
  let f := [mkAtom CapDefinitionsEdit LevelProject] in
  let s := mkScope "o1" "p1" "" in
  ruleCapabilityHeld demo_resolve [] split whole "p1" = Ok true ∧
  evaluateWithRules f s [] split None = false ∧
  evaluateWithRules f s [] [whole] None = true.
Proof. vm_compute. done. Qed.
