(* ===== verification/Authorizer.v ===== *)
(** * The chokepoint: [internal/authz/authorize.go], [denial.go], [rules.go],
    [self_config.go], [rule_delegation.go]

    [TxAuthorizer] is a state threaded through every call: the denials captured
    so far, a denial that could not be captured, the developer identity used to
    attribute denials and, from the bound resolver, [selfConfigOrgID]. The state
    also logs the reads an attempt issues, by query name, which is what the
    uniform-refusal contract is about. Key reads made inside a delegation test
    are logged as one [QDelegation].

    The operation registry, the request context, the resolver and the
    transaction token are parameters of the section. *)

From stdpp Require Import prelude gmap strings list.
From S2P Require Import Prelude StringFacts Domain Rule Containment FreeText Resolver Tables.
From S2P Require Import Registry OperationTable Evaluate Delegation.

(** ** Identities and addressed keys *)

(** The fields of [Identity] the chokepoint reads. *)
Record Identity := mkIdentity {
  Principal : PrincipalID;
  AuthorityPrincipal : PrincipalID;
  DeveloperScope : Scope;
  PClass : PrincipalClass;
  SessionID : string;
  CredentialID : string;
  Assurance : list string }.

Definition zeroIdentity : Identity := mkIdentity "" "" zeroScope "" "" "" [].

Inductive KeyTarget :=
| KeyZero
| KeyByID (id : string)
| KeyByName (name : string)
| KeyToCreate (folder : string)
| KeyMovedTo (id folder : string)
| KeyPendingVersion (id : string)
| KeyApprovalRequest (id : string).

(** ** Proofs *)

Inductive proofKind := kindTenant | kindInstance | kindSystem.

#[export] Instance proofKind_eq_dec : EqDecision proofKind.
Proof. solve_decision. Defined.

Abbreviation SystemSite := string (only parsing).

(** A transaction token is a pointer; [nil] is [None]. *)
Abbreviation TxToken := (option nat) (only parsing).

(** [navigation] and [publishKeys] keep Go's [nil]: [[]] and [None]. *)
Record proof := mkProof {
  pf_selfConfig : bool;
  pf_selfConfigAdmin : bool;
  pf_runtimeSnapshotID : string;
  pf_kind : proofKind;
  pf_op : Operation;
  pf_site : SystemSite;
  pf_chain : Scope;
  pf_tok : TxToken;
  pf_key : option RuleKey;
  pf_navigation : list Rule;
  pf_publishKeys : option (gset string) }.

(** ** Denials *)

Inductive Trail := TrailTenant | TrailInstance.

Record Actor := mkActor { Actor_ID : string; Actor_CredentialID : string }.

Record Object := mkObject { Obj_Type : string; Obj_ID : string }.

Record Event := mkEvent {
  Ev_ID : string; Ev_Type : EventType; Ev_SchemaVersion : nat; Ev_OccurredAt : Z;
  Ev_Actor : Actor; Ev_AuthorityID : string; Ev_Object : Object; Ev_Outcome : string;
  Ev_SourceIP : string; Ev_UserAgent : string; Ev_Origin : string;
  Ev_Payload : gmap string string }.

Record Denial := mkDenial { Den_Trail : Trail; Den_Scope : Scope; Den_Event : Event }.

Inductive resolution := resolutionResolvable | resolutionUnresolvable.

Definition resolution_name (r : resolution) : string :=
  match r with resolutionResolvable => "resolvable" | resolutionUnresolvable => "unresolvable" end.

Definition levelNames (l : Level) : string :=
  match l with
  | LevelNone => "instance" | LevelOrg => "org"
  | LevelProject => "project" | LevelEnv => "environment"
  end.

Definition formulaName (f : Formula) : string :=
  String.concat "+" ((λ atom, Cap atom +:+ "@" +:+ levelNames (At atom)) <$> f).

(** ** State *)

Inductive Query :=
| QChain | QGrants | QRules | QKey | QPending | QApproval | QHasValue | QDraft
| QSettings | QReveal | QDelegation.

#[export] Instance Query_eq_dec : EqDecision Query.
Proof. solve_decision. Defined.

Record AzState := mkAzState {
  denials : list Denial;
  captureErr : list error;
  az_object : Object;
  developerDenialIdentity : Identity;
  selfConfigOrgID : OrgID;
  minted : nat;
  trace : list Query }.

(** [NewTxAuthorizer] *)
Definition NewTxAuthorizer : AzState :=
  mkAzState [] [] (mkObject "" "") zeroIdentity "" 0 [].

(** What a call takes from its context and from the process: the admission
    mark, the wire attribution, the clock, the event-id generator (indexed by
    the draws so far) and the artifact view of the embedded contract. *)
Record Ctx := mkCtx {
  IsNetwork : bool;
  SourceIP : string; UserAgent : string; Origin : string;
  Now : Z;
  NewEventID : nat → result error string;
  AdmitsArtifact : Operation → string → bool * bool }.

(** ** The monad *)

Definition M (A : Type) : Type := AzState → result error A * AzState.

Definition ret {A} (a : A) : M A := λ s, (Ok a, s).
Definition fail {A} (e : error) : M A := λ s, (Err e, s).
Definition bind {A B} (m : M A) (k : A → M B) : M B :=
  λ s, match m s with
       | (Ok a, s') => k a s'
       | (Err e, s') => (Err e, s')
       end.
Definition lift {A} (r : result error A) : M A := λ s, (r, s).
Definition modify (f : AzState → AzState) : M unit := λ s, (Ok tt, f s).
Definition gets {A} (f : AzState → A) : M A := λ s, (Ok (f s), s).

(** The result of a call as a value, for a caller that inspects the error. *)
Definition attempt {A} (m : M A) : M (result error A) :=
  λ s, let '(r, s') := m s in (Ok r, s').

Notation "'do!' x := m 'in' k" := (bind m (λ x, k))
  (at level 10, x pattern, m at level 100, k at level 200) : hikyo_scope.

Definition log (q : Query) (s : AzState) : AzState :=
  mkAzState (denials s) (captureErr s) (az_object s) (developerDenialIdentity s)
    (selfConfigOrgID s) (minted s) (trace s ++ [q]).

Definition set_developer (i : Identity) (s : AzState) : AzState :=
  mkAzState (denials s) (captureErr s) (az_object s) i (selfConfigOrgID s) (minted s) (trace s).

Definition set_selfConfigOrgID (o : OrgID) (s : AzState) : AzState :=
  mkAzState (denials s) (captureErr s) (az_object s) (developerDenialIdentity s) o
    (minted s) (trace s).

Definition add_denial (d : Denial) (s : AzState) : AzState :=
  mkAzState (denials s ++ [d]) (captureErr s) (az_object s) (developerDenialIdentity s)
    (selfConfigOrgID s) (S (minted s)) (trace s).

Definition add_captureErr (e : error) (s : AzState) : AzState :=
  mkAzState (denials s) (captureErr s ++ [e]) (az_object s) (developerDenialIdentity s)
    (selfConfigOrgID s) (S (minted s)) (trace s).

(** [AttributeDenials] *)
Definition AttributeDenials (o : Object) (s : AzState) : AzState :=
  mkAzState (denials s) (captureErr s) o (developerDenialIdentity s)
    (selfConfigOrgID s) (minted s) (trace s).

(** A read of the attempt's snapshot. *)
Definition query {A} (q : Query) (r : result error A) : M A :=
  do! _ := modify (log q) in lift r.

(** ** The session floor and the protected profile, as predicates *)

Definition rulesApply (caller : Identity) : bool :=
  bool_decide (PClass caller = "") || bool_decide (PClass caller = ClassHuman).

Definition selfConfigSessionEligible (caller : Identity) : bool :=
  (bool_decide (PClass caller = "") || bool_decide (PClass caller = ClassHuman))
  && (bool_decide (SessionID caller = "") || AdequateAssurance (Assurance caller)).

Definition selfConfigOperations : list Operation := [
    OpOrgGet; OpOrgRename; OpProjectGet; OpProjectList; OpProjectRename; OpEnvRead; OpEnvList;
    OpEnvRename; OpEnvReorder; OpEnvUpdateNote; OpKeyGet; OpKeyList; OpKeyGroupGet;
    OpKeyGroupList; OpFolderGet; OpFolderList; OpValueRead; OpValueList; OpValueReveal;
    OpRevealWindowRead; OpValueStage; OpValuePendingList; OpValuePublish; OpValueExport;
    OpValueExportReveal; OpValueExportRevealHistory; OpRevisionList; OpRevisionShow;
    OpRevisionSignals; OpRevisionRestore; OpRevisionRestoreHistory; OpRevisionRestoreCurrent;
    OpPinSet; OpPinSetHistory; OpPinList; OpPinRelease; OpApprovalPolicyRead;
    OpApprovalRequestRead; OpApprovalVote; OpApprovalBypass; OpDefinitionsExport;
    OpDefinitionsCheck; OpDefinitionsSettingsGet; OpProjectMachineRevealGet;
    OpProjectCapacityRead; OpEnvSettingsRead; OpOrgRetentionRead; OpOrgRetentionUpdate;
    OpProjectRetentionRead; OpProjectRetentionUpdate; OpAuditQueryOrg; OpAuditQueryProject;
    OpAuditQueryEnv; OpAuditExportOrg; OpAuditExportProject; OpAuditExportEnv;
    OpGrantCreateOrg; OpGrantCreateProject; OpGrantCreateEnv; OpGrantRevokeOrg;
    OpGrantRevokeProject; OpGrantRevokeEnv; OpGrantListOrg; OpGrantListProject;
    OpTemplateApplyOrg; OpTemplateApplyProject; OpTemplateApplyEnv; OpMemberInviteOrg;
    OpSelfConfigApply; OpSelfConfigTest; OpReencryptProject ].

Definition selfConfigMemberOps : list Operation :=
  [OpGrantCreateOrg; OpGrantCreateProject; OpGrantCreateEnv; OpGrantRevokeOrg;
   OpGrantRevokeProject; OpGrantRevokeEnv; OpGrantListOrg; OpGrantListProject;
   OpTemplateApplyOrg; OpTemplateApplyProject; OpTemplateApplyEnv; OpMemberInviteOrg].

Definition demandsReveal (f : Formula) : bool :=
  existsb (λ atom, bool_decide (Cap atom = CapReveal)
                   || bool_decide (Cap atom = CapRevealHistory)) f.

Definition emptyCellOp (op : Operation) : bool :=
  bool_decide (op = OpKeySchemaPublishEmpty) || bool_decide (op = OpValueInitialize).

Definition ContractArtifactClass (caller : Identity) : string :=
  let c := PClass caller in
  if bool_decide (c = "") then "local"
  else if bool_decide (c = ClassHuman) then "human-session"
  else if bool_decide (c = ClassDeveloper) then "developer-credential"
  else if bool_decide (c = ClassInstanceConn) then "instance-credential"
  else if bool_decide (c = ClassProvisioning) then "scim-credential"
  else if IsServiceAccountKind c then "machine-credential"
  else "".

(** ** The operations *)

Section Authorizer.
Context (registry : Registry) (ctx : Ctx) (R : Resolver) (tok : TxToken).

(** *** Resolver calls *)

Definition rResolveChain (s : Scope) : M Scope := query QChain (ResolveChain R s).

Definition rGrants (p : PrincipalID) : M (list Grant) :=
  let '(r, org) := Grants R p in
  do! _ := modify (log QGrants) in
  do! _ := modify (set_selfConfigOrgID org) in lift r.

Definition rRules (p : PrincipalID) : M (list Rule) := query QRules (Rules R p).

(** [IsSelfConfigScope] issues no query: it reads the field the last grant
    lookup left. *)
Definition rIsSelfConfigScope (s : Scope) : M bool :=
  gets (λ st, bool_decide (selfConfigOrgID st ≠ "") && bool_decide (Org s = selfConfigOrgID st)).

Definition resolveKeyTarget (chain : Scope) (k : KeyTarget) (principal : PrincipalID)
  : M RuleKey :=
  match k with
  | KeyApprovalRequest id => query QApproval (ResolveRuleApprovalKey R chain id)
  | KeyPendingVersion id => query QPending (ResolveRulePendingKey R chain principal id)
  | KeyByID id => query QKey (ResolveRuleKey R (Org chain) (Project chain) id "")
  | KeyByName name => query QKey (ResolveRuleKey R (Org chain) (Project chain) "" name)
  | KeyToCreate folder => ret (mkRuleKey "" folder)
  | KeyMovedTo id folder =>
      do! got := query QKey (ResolveRuleKey R (Org chain) (Project chain) id "") in
      ret (mkRuleKey (Key_ID got) folder)
  | KeyZero => fail (Loud "authz: unknown key target")
  end.

(** *** Denial capture *)

Definition deniedActor (dev : Identity) (principal : PrincipalID) : Actor :=
  mkActor principal
    (if bool_decide (Principal dev = principal) && bool_decide (PClass dev = ClassDeveloper)
     then CredentialID dev else "").

Definition deniedAuthority (dev : Identity) (principal : PrincipalID) : string :=
  if bool_decide (Principal dev = principal) && bool_decide (PClass dev = ClassDeveloper)
  then AuthorityPrincipal dev else "".

(** One caller-asserted identifier of an unresolvable denial. *)
Definition claim (field value : string) (p : gmap string string) : gmap string string :=
  if bool_decide (value ≠ "") then <[field := SanitizeFreeText value]> p else p.

Definition denial_payload (op : Operation) (spec : authorizationSpec) (res : resolution)
    (claimed : Scope) : gmap string string :=
  let payload : gmap string string :=
    {[ "operation" := op; "formula" := formulaName (as_formula spec);
       "resolution" := resolution_name res ]} in
  match res with
  | resolutionUnresolvable =>
      claim "claimed_env" (Env claimed)
        (claim "claimed_project" (Project claimed) (claim "claimed_org" (Org claimed) payload))
  | resolutionResolvable => payload
  end.

Definition denial_home (res : resolution) (chain : Scope) : Trail * Scope :=
  match res with
  | resolutionUnresolvable => (TrailInstance, zeroScope)
  | resolutionResolvable =>
      if bool_decide (chain ≠ zeroScope) then (TrailTenant, chain) else (TrailInstance, zeroScope)
  end.

Definition denial_event (id : string) (principal : PrincipalID) (op : Operation)
    (spec : authorizationSpec) (res : resolution) (claimed : Scope) (s : AzState) : Event :=
  let dev := developerDenialIdentity s in
  mkEvent id "grant.denied" 1 (Now ctx) (deniedActor dev principal)
    (deniedAuthority dev principal) (az_object s) "denied"
    (SourceIP ctx) (UserAgent ctx) (Origin ctx) (denial_payload op spec res claimed).

Definition captureDenial (principal : PrincipalID) (op : Operation) (spec : authorizationSpec)
    (res : resolution) (resolvedChain claimed : Scope) : M unit := λ s,
  match NewEventID ctx (minted s) with
  | Err e => (Ok tt, add_captureErr e s)
  | Ok id =>
      let '(trail, scope) := denial_home res resolvedChain in
      (Ok tt, add_denial (mkDenial trail scope
                (denial_event id principal op spec res claimed s)) s)
  end.

(** Capture, then answer with the refusal. *)
Definition deny {A} (principal : PrincipalID) (op : Operation) (spec : authorizationSpec)
    (res : resolution) (chain claimed : Scope) (e : error) : M A :=
  do! _ := captureDenial principal op spec res chain claimed in fail e.

(** *** Conjuncts of the tenant path *)

Definition assuranceInadequate (caller : Identity) (op : Operation) : bool :=
  bool_decide (SessionID caller ≠ "") && FormulaDemandsMFA registry op
  && negb (AdequateAssurance (Assurance caller)).

(** [(protected, permitted)] *)
Definition selfConfigProfile (caller : Identity) (op : Operation) (chain : Scope)
    (grants : list Grant) : M (bool * bool) :=
  do! protected := rIsSelfConfigScope chain in
  if negb protected then
    ret (false, bool_decide (op ≠ OpSelfConfigApply) && bool_decide (op ≠ OpSelfConfigTest))
  else if bool_decide (PClass caller ≠ "") && bool_decide (PClass caller ≠ ClassHuman) then
    ret (true, false)
  else if negb (Contains selfConfigOperations op) then ret (true, false)
  else
    let f := mkAtom CapInstanceConfig LevelNone ::
             (if Contains selfConfigMemberOps op then [mkAtom CapManageMembers LevelNone]
              else []) in
    ret (true, evaluate f chain grants).

Definition machineRevealWithdrawn (caller : Identity) (f : Formula) (chain : Scope) : M bool :=
  if negb (IsServiceAccountKind (PClass caller)) || bool_decide (Project chain = "") then ret false
  else if negb (demandsReveal f) then ret false
  else
    do! st := attempt (query QReveal (ProjectMachineReveal R (Project chain))) in
    match st with
    | Err ErrNotFound => ret true
    | Err e => fail e
    | Ok st => ret (negb (Enabled st))
    end.

Definition MachineRevealOptIn (caller : Identity) (project : ProjectID) : M (bool * Z) :=
  if negb (IsServiceAccountKind (PClass caller)) then ret (true, 0%Z)
  else
    do! st := attempt (query QReveal (ProjectMachineReveal R project)) in
    match st with
    | Err ErrNotFound => ret (false, 0%Z)
    | Err e => fail e
    | Ok st => ret (Enabled st, Generation st)
    end.

(** The refusal work of a chain that does not resolve. *)
Definition missingScopeRefusalWork (caller : Identity) (op : Operation)
    (spec : authorizationSpec) (key : option KeyTarget) (targetRule : option Rule) : M unit :=
  do! _ := rGrants (Principal caller) in
  if negb (rulesApply caller)
     || negb (ruleSatisfiable (as_formula spec)) && bool_decide (targetRule = None)
        && negb (ruleNavigationOperation op)
  then ret tt
  else
    do! _ := rRules (Principal caller) in
    match key with
    | None => ret tt
    | Some k =>
        do! r := attempt (resolveKeyTarget zeroScope k (Principal caller)) in
        match r with
        | Err ErrNotFound | Ok _ => ret tt
        | Err e => fail e
        end
    end.

(** *** [authorizeTenant], stage by stage *)

(** The developer block: whose grants are read. *)
Definition developer_stage (caller : Identity) (op : Operation) (spec : authorizationSpec)
    (scope chain : Scope) : M PrincipalID :=
  if negb (bool_decide (PClass caller = ClassDeveloper)) then ret (Principal caller)
  else if bool_decide (op ≠ OpDeliveryFetch) || bool_decide (chain ≠ DeveloperScope caller) then
    fail ErrNotFound
  else
    do! settings := query QSettings (EnvironmentReauthSettings R (Env chain)) in
    if Protected settings then
      deny (Principal caller) op spec resolutionResolvable chain scope ErrNotFound
    else ret (AuthorityPrincipal caller).

(** Whether the grants alone hold, or the developer authority does. *)
Definition grant_stage (caller : Identity) (op : Operation) (spec : authorizationSpec)
    (chain : Scope) (grantPrincipal : PrincipalID) (grants : list Grant) : M bool :=
  if bool_decide (PClass caller = ClassDeveloper) || bool_decide (op = OpDeveloperCredentialMint)
  then do! rules := rRules grantPrincipal in
       ret (developerEnvironmentAuthority chain grants rules)
  else ret (evaluate (as_formula spec) chain grants).

(** Whether the member access rules are consulted. *)
Definition consults_rules (caller : Identity) (op : Operation) (spec : authorizationSpec)
    (targetRule : option Rule) (held : bool) : bool :=
  negb (bool_decide (op = OpDeveloperCredentialMint)) && rulesApply caller
  && (ruleSatisfiable (as_formula spec) || bool_decide (targetRule ≠ None)
      || ruleNavigationOperation op)
  && (negb held || bool_decide (targetRule ≠ None)).

(** A [NotFound] from a resolution inside the resolved chain is a denial. *)
Definition or_deny {A} (principal : PrincipalID) (op : Operation) (spec : authorizationSpec)
    (chain : Scope) (m : M A) : M A :=
  do! r := attempt m in
  match r with
  | Err ErrNotFound => deny principal op spec resolutionResolvable chain zeroScope ErrNotFound
  | _ => lift r
  end.

(** The rule block: [held], the bound key and the navigation projection. *)
Definition rule_stage (caller : Identity) (op : Operation) (spec : authorizationSpec)
    (chain : Scope) (grants : list Grant) (key : option KeyTarget) (targetRule : option Rule)
  : M (bool * option RuleKey * list Rule) :=
  do! rules := rRules (Principal caller) in
  do! target := match key with
                | None => ret None
                | Some k =>
                    do! resolved := or_deny (Principal caller) op spec chain
                      (resolveKeyTarget chain k (Principal caller)) in
                    ret (Some resolved)
                end in
  match targetRule with
  | Some rule =>
      do! held := or_deny (Principal caller) op spec chain (query QDelegation
        (ruleDelegationHeld (λ id, ResolveRuleKey R (Org chain) (Project chain) id "")
           (as_formula spec) chain grants rules rule)) in
      ret (held, target, [])
  | None =>
      if evaluateWithRules (as_formula spec) chain grants rules target
      then ret (true, target, [])
      else let navigation := ruleNavigationReach op chain rules grants in
           ret (Nat.ltb 0 (length navigation), target, navigation)
  end.

(** The empty-cell block: the addressed cell must hold neither a published
    value nor, for [value.initialize], someone else's draft. *)
Definition empty_cell_stage (caller : Identity) (op : Operation) (spec : authorizationSpec)
    (chain : Scope) (key : option KeyTarget) (bound : option RuleKey) : M (option RuleKey) :=
  if negb (emptyCellOp op) then ret bound else
  match key with
  | None => fail (Loud "authz: empty-cell operation requires a key target")
  | Some k =>
    do! bound := match bound with
                 | Some b => ret b
                 | None => or_deny (Principal caller) op spec chain
                             (resolveKeyTarget chain k (Principal caller))
                 end in
    do! present := query QHasValue (RuleKeyHasValue R chain (Key_ID bound)) in
    do! present :=
      if negb present && bool_decide (op = OpValueInitialize)
      then query QDraft (RuleKeyHasConflictingDraft R chain (Key_ID bound) (Principal caller))
      else ret present in
    if present
    then deny (Principal caller) op spec resolutionResolvable chain zeroScope ErrNotFound
    else ret (Some bound)
  end.

(** [op == OpKeySchemaPublishEmpty && key.kind != keyToCreate] *)
Definition publish_empty_refused (op : Operation) (key : option KeyTarget) : bool :=
  bool_decide (op = OpKeySchemaPublishEmpty)
  && match key with Some (KeyToCreate _) => false | _ => true end.

(** Machines never delete a protected environment. *)
Definition protected_delete_stage (caller : Identity) (op : Operation)
    (spec : authorizationSpec) (scope chain : Scope) : M unit :=
  if IsServiceAccountKind (PClass caller) && bool_decide (op = OpEnvDelete) then
    do! settings := query QSettings (EnvironmentReauthSettings R (Env chain)) in
    if Protected settings
    then deny (Principal caller) op spec resolutionResolvable chain scope ErrNotFound
    else ret tt
  else ret tt.

(** Everything after the formula is held. *)
Definition conjunct_stages (caller : Identity) (op : Operation) (spec : authorizationSpec)
    (scope chain : Scope) (grants : list Grant) (key : option KeyTarget)
    (bound : option RuleKey) (navigation : list Rule) : M proof :=
  let refuse := deny (Principal caller) op spec resolutionResolvable chain zeroScope in
  if publish_empty_refused op key then refuse ErrNotFound else
  do! bound := empty_cell_stage caller op spec chain key bound in
  do! _ := protected_delete_stage caller op spec scope chain in
  do! (protected, permitted) := selfConfigProfile caller op chain grants in
  if negb permitted then refuse ErrNotFound else
  do! withdrawn := machineRevealWithdrawn caller (as_formula spec) chain in
  if withdrawn then refuse ErrNotFound else
  if assuranceInadequate caller op
     || protected && bool_decide (SessionID caller ≠ "") && negb (AdequateAssurance (Assurance caller))
  then refuse ErrUnauthorized
  else ret (mkProof protected false "" kindTenant op "" chain tok bound navigation None).

(** The part after the chain resolved. *)
Definition resolved_stages (caller : Identity) (op : Operation) (spec : authorizationSpec)
    (scope chain : Scope) (key : option KeyTarget) (targetRule : option Rule) : M proof :=
  do! grantPrincipal := developer_stage caller op spec scope chain in
  do! grants := rGrants grantPrincipal in
  do! held := grant_stage caller op spec chain grantPrincipal grants in
  do! (held, bound, navigation) :=
    if consults_rules caller op spec targetRule held
    then rule_stage caller op spec chain grants key targetRule
    else ret (held, None, []) in
  if negb held
  then deny (Principal caller) op spec resolutionResolvable chain zeroScope ErrNotFound
  else conjunct_stages caller op spec scope chain grants key bound navigation.

Definition authorizeTenant (caller : Identity) (op : Operation) (spec : authorizationSpec)
    (scope : Scope) (key : option KeyTarget) (targetRule : option Rule) : M proof :=
  do! level := lift (ScopeLevel scope) in
  if bool_decide (level ≠ as_level spec) then fail (Loud "authz: scope depth mismatch") else
  if emptyCellOp op && bool_decide (key = None) then
    fail (Loud "authz: empty-cell operation requires a key target") else
  do! r := attempt (rResolveChain scope) in
  match r with
  | Err ErrNotFound =>
      do! _ := missingScopeRefusalWork caller op spec key targetRule in
      deny (Principal caller) op spec resolutionUnresolvable zeroScope scope ErrNotFound
  | Err e => fail e
  | Ok chain => resolved_stages caller op spec scope chain key targetRule
  end.

(** *** [authorizeInstance] *)

Definition selfConfigInstanceOp (op : Operation) : bool :=
  Contains [OpSelfConfigStatus; OpSelfConfigAdopt; OpSelfConfigPreview] op.

Definition authorizeInstance (caller : Identity) (op : Operation) (spec : authorizationSpec)
  : M proof :=
  let refuse := deny (Principal caller) op spec resolutionResolvable zeroScope zeroScope
                  ErrUnauthorized in
  if selfConfigInstanceOp op && bool_decide (PClass caller ≠ "")
     && bool_decide (PClass caller ≠ ClassHuman) then refuse else
  do! grants := rGrants (Principal caller) in
  if negb (evaluate (as_formula spec) zeroScope grants) then refuse else
  if assuranceInadequate caller op then refuse else
  ret (mkProof false
         (selfConfigSessionEligible caller
          && evaluate [mkAtom CapInstanceConfig LevelNone] zeroScope grants)
         "" kindInstance op "" zeroScope tok None [] None).

(** *** The entry points *)

Definition Authorize (caller : Identity) (op : Operation) (scope : Scope) : M proof :=
  match lookupSpec registry op with
  | None => fail (Loud "authz: operation is not in the operation registry")
  | Some spec =>
    let dev := bool_decide (PClass caller = ClassDeveloper) in
    do! _ := modify (set_developer (if dev then caller else zeroIdentity)) in
    if dev && (bool_decide (op ≠ OpDeliveryFetch) || bool_decide (scope ≠ DeveloperScope caller))
    then deny (Principal caller) op spec resolutionUnresolvable zeroScope scope ErrNotFound else
    if bool_decide (Principal caller = "") then fail (Loud "authz: empty principal") else
    if negb (IsNetwork ctx) && bool_decide (PClass caller = ClassInstanceConn)
       && (let '(admitted, described) := AdmitsArtifact ctx op "instance-credential" in
           negb described || negb admitted)
    then deny (Principal caller) op spec resolutionUnresolvable zeroScope scope
           (if bool_decide (as_class spec = ClassTenant) then ErrNotFound else ErrUnauthorized)
    else
      match as_class spec with
      | ClassTenant => authorizeTenant caller op spec scope None None
      | ClassInstance =>
          if bool_decide (scope ≠ zeroScope)
          then fail (Loud "authz: instance operation addressed with a tenant scope")
          else authorizeInstance caller op spec
      | _ => fail (Loud "authz: operation does not mint proofs via Authorize")
      end
  end.

Definition AuthorizeKey (caller : Identity) (op : Operation) (scope : Scope) (key : KeyTarget)
  : M proof :=
  match key with
  | KeyZero => fail (Loud "authz: zero key target")
  | _ =>
    match lookupSpec registry op with
    | None => fail (Loud "authz: operation is not in the operation registry")
    | Some spec =>
        if bool_decide (as_class spec ≠ ClassTenant) then
          fail (Loud "authz: key-aware operation must be tenant-scoped") else
        if bool_decide (Principal caller = "") then fail (Loud "authz: empty principal") else
        if bool_decide (PClass caller = ClassInstanceConn) then Authorize caller op scope else
        authorizeTenant caller op spec scope (Some key) None
    end
  end.

Definition AuthorizeRule (caller : Identity) (op : Operation) (scope : Scope) (target : Rule)
  : M proof :=
  if negb (Contains [OpRuleCreate; OpRuleRevoke; OpRuleListProject] op) then
    fail (Loud "authz: operation does not address a rule selector") else
  if bool_decide (Principal caller = "") || bool_decide (Rule_Org target ≠ Org scope)
     || negb (Contains (Projects (Rule_Where target)) (Project scope)) then
    fail (Loud "authz: invalid rule authorization target") else
  if bool_decide (PClass caller = ClassInstanceConn) then Authorize caller op scope else
  match lookupSpec registry op with
  | None => fail (Loud "authz: operation is not in the operation registry")
  | Some spec => authorizeTenant caller op spec scope None (Some target)
  end.

Definition AuthorizeRuleList (caller : Identity) (scope : Scope) : M proof :=
  do! grants := rGrants (Principal caller) in
  if evaluate [mkAtom CapManageMembers LevelProject] scope grants
  then Authorize caller OpRuleListProject scope
  else if negb (rulesApply caller) then Authorize caller OpRuleListProject scope
  else
    do! rules := rRules (Principal caller) in
    match filter (λ rule, Rule_Org rule = Org scope ∧ Rule_Capability rule = CapManageMembers ∧
                   is_ok (Validate rule) = true ∧ Project scope ∈ Projects (Rule_Where rule)) rules with
    | rule :: _ => AuthorizeRule caller OpRuleListProject scope rule
    | [] => Authorize caller OpRuleListProject scope
    end.

(** The caller's own policy, as the rule surface reads it. *)
Definition caller_policy (caller : Identity) : M (list Grant * list Rule) :=
  do! grants := rGrants (Principal caller) in
  do! rules := if rulesApply caller then rRules (Principal caller) else ret [] in
  ret (grants, rules).

Definition RuleCapabilityHeld (caller : Identity) (target : Rule) (project : ProjectID) : M bool :=
  do! (grants, rules) := caller_policy caller in
  query QDelegation (ruleCapabilityHeld
    (λ id, ResolveRuleKey R (Rule_Org target) project id "") grants rules target project).

(** The loop of [RulesManageable]; its key cache only saves repeated reads of
    one snapshot. *)
Fixpoint manageable_loop (grants : list Grant) (rules : list Rule) (project : ProjectID)
    (targets : list Rule) : result error (list bool) :=
  match targets with
  | [] => Ok []
  | target :: rest =>
      let! held := ruleSelectorHeldResolving
        (λ id, ResolveRuleKey R (Rule_Org target) project id "")
        (mkScope (Rule_Org target) project "") grants rules CapManageMembers
        (effective_where (Rule_Capability target) (Rule_Where target)) in
      let! out := manageable_loop grants rules project rest in
      Ok (held :: out)
  end.

Definition RulesManageable (caller : Identity) (targets : list Rule) (project : ProjectID)
  : M (list bool) :=
  do! (grants, rules) := caller_policy caller in
  query QDelegation (manageable_loop grants rules project targets).

Definition AuthorizeDEKRotation (caller : Identity) (scope : Scope) : M proof :=
  do! p := Authorize caller OpRotateDEK zeroScope in
  if bool_decide (scope = zeroScope) then ret p else
  do! level := lift (ScopeLevel scope) in
  if bool_decide (level ≠ LevelProject)
  then fail (Loud "authz: project DEK rotation requires a project scope")
  else do! _ := rResolveChain scope in ret p.

(** The loop of [AuthorizePublishKeys]; [first] is the first minted proof. *)
Fixpoint publish_loop (caller : Identity) (scope : Scope) (first : option proof)
    (keys : gset string) (ids : list string) : M (option proof * gset string) :=
  match ids with
  | [] => ret (first, keys)
  | id :: rest =>
      do! p := AuthorizeKey caller OpValuePublish scope (KeyByID id) in
      publish_loop caller scope (match first with None => Some p | Some _ => first end)
        ({[id]} ∪ keys) rest
  end.

Definition AuthorizePublishKeys (caller : Identity) (scope : Scope) (ids : list string) : M proof :=
  if Nat.eqb (length ids) 0 then fail (Loud "authz: empty publish key selection") else
  do! (first, keys) := publish_loop caller scope None ∅ ids in
  match first with
  | None => fail (Loud "unreachable")
  | Some p =>
      ret (mkProof (pf_selfConfig p) (pf_selfConfigAdmin p) (pf_runtimeSnapshotID p) (pf_kind p)
             (pf_op p) (pf_site p) (pf_chain p) (pf_tok p) None (pf_navigation p) (Some keys))
  end.

(** *** Affordance questions: no proof, no denial *)

Definition principalFormulaEvaluation (principal : PrincipalID) (op : Operation) (scope : Scope)
  : M (authorizationSpec * Scope * bool) :=
  match lookupSpec registry op with
  | None => fail (Loud "authz: operation is not in the operation registry")
  | Some spec =>
    do! r := attempt (rResolveChain scope) in
    match r with
    | Err ErrNotFound => ret (spec, zeroScope, false)
    | Err e => fail e
    | Ok chain =>
        do! grants := rGrants principal in
        do! (_, permitted) := selfConfigProfile
          (mkIdentity principal "" zeroScope "" "" "" []) op chain grants in
        ret (spec, chain, permitted && evaluate (as_formula spec) chain grants)
    end
  end.

Definition CallerHolds (caller : Identity) (op : Operation) (scope : Scope) : M bool :=
  if bool_decide (Principal caller = "") then fail (Loud "authz: empty principal") else
  do! (_, chain, holds) := principalFormulaEvaluation (Principal caller) op scope in
  if negb holds then ret false else
  do! protected := rIsSelfConfigScope chain in
  if protected && negb (selfConfigSessionEligible caller) then ret false
  else ret (negb (assuranceInadequate caller op)).

Definition HoldsInstanceCapability (caller : Identity) (op : Operation) : M bool :=
  if bool_decide (Principal caller = "") then fail (Loud "authz: empty principal") else
  match lookupSpec registry op with
  | None => fail (Loud "authz: operation is not in the operation registry")
  | Some spec =>
      if bool_decide (as_class spec ≠ ClassInstance)
      then fail (Loud "authz: operation is not instance-scoped")
      else if selfConfigInstanceOp op && negb (selfConfigSessionEligible caller) then ret false
      else
        do! grants := rGrants (Principal caller) in
        if negb (evaluate (as_formula spec) zeroScope grants) then ret false
        else ret (negb (assuranceInadequate caller op))
  end.

(** The last captured denial, re-attributed to the delegation it answers. *)
Definition attribute_last (credential authority : string) (s : AzState) : AzState :=
  match reverse (denials s) with
  | [] => s
  | d :: ds =>
      let e := Den_Event d in
      let e' := mkEvent (Ev_ID e) (Ev_Type e) (Ev_SchemaVersion e) (Ev_OccurredAt e)
        (mkActor (Actor_ID (Ev_Actor e)) credential) authority (Ev_Object e) (Ev_Outcome e)
        (Ev_SourceIP e) (Ev_UserAgent e) (Ev_Origin e) (Ev_Payload e) in
      mkAzState (reverse ds ++ [mkDenial (Den_Trail d) (Den_Scope d) e']) (captureErr s)
        (az_object s) (developerDenialIdentity s) (selfConfigOrgID s) (minted s) (trace s)
  end.

Definition RecordedPrincipalHolds (caller : Identity) (principal : PrincipalID) (op : Operation)
    (scope : Scope) : M bool :=
  if bool_decide (Principal caller = "") then fail (Loud "authz: empty caller principal") else
  if bool_decide (principal = "") then fail (Loud "authz: empty recorded authority principal") else
  do! (spec, chain, holds) := principalFormulaEvaluation principal op scope in
  if holds then ret true else
  do! before := gets (λ s, length (denials s)) in
  do! _ := if bool_decide (chain = zeroScope)
           then captureDenial (Principal caller) op spec resolutionUnresolvable zeroScope scope
           else captureDenial (Principal caller) op spec resolutionResolvable chain zeroScope in
  do! after := gets (λ s, length (denials s)) in
  do! _ := if Nat.ltb before after
           then modify (attribute_last (CredentialID caller) principal) else ret tt in
  ret false.

Fixpoint approval_loop (spec : authorizationSpec) (chain : Scope) (grants : list Grant)
    (rules : list Rule) (walked ids : list string) : M bool :=
  match ids with
  | [] => ret true
  | id :: rest =>
      if bool_decide (id = "") || Contains walked id then ret false else
      do! r := attempt (query QKey (ResolveRuleKey R (Org chain) (Project chain) id "")) in
      match r with
      | Err ErrNotFound => ret false
      | Err e => fail e
      | Ok key =>
          if negb (evaluateWithRules (as_formula spec) chain grants rules (Some key))
          then ret false
          else approval_loop spec chain grants rules (walked ++ [id]) rest
      end
  end.

Definition CallerHoldsApprovalKeys (caller : Identity) (scope : Scope) (ids : list string)
  : M bool :=
  if bool_decide (Principal caller = "") then fail (Loud "authz: empty principal") else
  if Nat.eqb (length ids) 0 then ret false else
  match lookupSpec registry OpApprovalVote with
  | None => fail (Loud "authz: approval vote is not in the operation registry")
  | Some spec =>
    match ScopeLevel scope with
    | Err _ => fail (Loud "authz: approval decision requires an environment scope")
    | Ok level =>
      if bool_decide (level ≠ as_level spec)
      then fail (Loud "authz: approval decision requires an environment scope") else
      do! r := attempt (rResolveChain scope) in
      match r with
      | Err ErrNotFound => ret false
      | Err e => fail e
      | Ok chain =>
          do! grants := rGrants (Principal caller) in
          do! (protected, permitted) := selfConfigProfile caller OpApprovalVote chain grants in
          if negb permitted then ret false else
          if assuranceInadequate caller OpApprovalVote
             || protected && negb (selfConfigSessionEligible caller) then ret false else
          do! rules := if rulesApply caller then rRules (Principal caller) else ret [] in
          approval_loop spec chain grants rules [] ids
      end
    end
  end.

(** *** Developer delivery *)

Definition DeveloperDeliveryGrants (caller : Identity) : M (list Grant) :=
  if bool_decide (PClass caller ≠ ClassDeveloper) || bool_decide (AuthorityPrincipal caller = "")
  then fail (Loud "authz: developer delivery grants require a resolved developer identity") else
  do! chain := rResolveChain (DeveloperScope caller) in
  do! grants := rGrants (AuthorityPrincipal caller) in
  do! rules := rRules (AuthorityPrincipal caller) in
  if negb (developerEnvironmentAuthority chain grants rules) then fail ErrNotFound
  else ret [mkGrant CapRead chain; mkGrant CapReveal chain].
End Authorizer.
