(* ===== verification/AuthorizerAudit.v ===== *)
(** * Every refusal leaves a record

    A uniform refusal ([ErrNotFound] or [ErrUnauthorized]) of the chokepoint is
    an operation outcome that must become durable. [audited m] says that a call
    captures exactly one denial when it refuses and none otherwise; it is closed
    under the monad's operations, so the entry points inherit it stage by
    stage. *)

From stdpp Require Import prelude gmap strings list.
From S2P Require Import Prelude StringFacts Domain Rule Containment FreeText Resolver Tables.
From S2P Require Import Registry OperationTable RegistryFacts Evaluate Delegation Authorizer.

(** ** Reasoning about the monad *)

Lemma bind_run {A B} (m : M A) (k : A → M B) s :
  bind m k s = match m s with (Ok a, s') => k a s' | (Err e, s') => (Err e, s') end.
Proof. done. Qed.

Lemma bind_Ok {A B} (m : M A) (k : A → M B) s b s' :
  bind m k s = (Ok b, s') ↔ ∃ a s1, m s = (Ok a, s1) ∧ k a s1 = (Ok b, s').
Proof. unfold bind. destruct (m s) as [[a|e] s1]; naive_solver. Qed.

Lemma query_run {A} q (r : result error A) s : query q r s = (r, log q s).
Proof. done. Qed.

Lemma rGrants_run R p s :
  rGrants R p s = ((Grants R p).1, set_selfConfigOrgID (Grants R p).2 (log QGrants s)).
Proof. unfold rGrants. by destruct (Grants R p). Qed.

Lemma attempt_run {A} (m : M A) s : attempt m s = (Ok (m s).1, (m s).2).
Proof. unfold attempt. by destruct (m s). Qed.

(** ** Recorded refusals *)

(** The two refusals the response layer renders without detail. *)
Definition uniform (e : error) : Prop := e = ErrNotFound ∨ e = ErrUnauthorized.

(** No denial was added. *)
Definition quiet (s s' : AzState) : Prop :=
  denials s' = denials s ∧ captureErr s' = captureErr s.

(** Exactly one denial was captured, or its capture failed and is held for the
    loud refusal at settlement. *)
Definition recorded (s s' : AzState) : Prop :=
  (∃ d, denials s' = denials s ++ [d] ∧ captureErr s' = captureErr s) ∨
  (∃ e, denials s' = denials s ∧ captureErr s' = captureErr s ++ [e]).

Definition audited {A} (m : M A) : Prop := ∀ s r s', m s = (r, s') →
  match r with
  | Ok _ => quiet s s'
  | Err e => (uniform e → recorded s s') ∧ (¬ uniform e → quiet s s')
  end.

(** A call that captures nothing, whatever it returns. *)
Definition silent {A} (m : M A) : Prop := ∀ s r s', m s = (r, s') → quiet s s'.

(** A call whose failures are never a uniform refusal. *)
Definition loud_only {A} (m : M A) : Prop := ∀ s e s', m s = (Err e, s') → ¬ uniform e.

Lemma loud_not_uniform e : loud e → ¬ uniform e.
Proof. intros [msg ->] [?|?]; done. Qed.

Lemma quiet_refl s : quiet s s.
Proof. done. Qed.

Lemma quiet_trans s1 s2 s3 : quiet s1 s2 → quiet s2 s3 → quiet s1 s3.
Proof. unfold quiet. intros [] []. split; congruence. Qed.

Lemma quiet_recorded s1 s2 s3 : quiet s1 s2 → recorded s2 s3 → recorded s1 s3.
Proof.
  intros [Hd Hc] [(d & H1 & H2)|(e & H1 & H2)]; [left; exists d|right; exists e];
    split; congruence.
Qed.

Create HintDb audit.
#[export] Hint Resolve quiet_refl : audit.

Lemma silent_audited {A} (m : M A) : silent m → loud_only m → audited m.
Proof.
  intros Hs Hl s r s' H. pose proof (Hs _ _ _ H) as Hq. destruct r as [a|e]; [done|].
  split; [|done]. intros Hu. by destruct (Hl _ _ _ H).
Qed.

Lemma audited_ret {A} (a : A) : audited (ret a).
Proof. intros s r s' [= <- <-]. done. Qed.

Lemma audited_fail {A} e : loud e → audited (@fail A e).
Proof.
  intros He s r s' [= <- <-]. split; [|done]. intros Hu. by apply loud_not_uniform in He.
Qed.

Lemma audited_bind {A B} (m : M A) (k : A → M B) :
  audited m → (∀ a, audited (k a)) → audited (bind m k).
Proof.
  intros Hm Hk s r s'. rewrite bind_run. destruct (m s) as [[a|e] s1] eqn:E.
  - intros H. pose proof (Hm _ _ _ E) as Hq. specialize (Hk _ _ _ _ H). simpl in Hq.
    destruct r; [by eapply quiet_trans|]. destruct Hk. split; intros.
    + eapply quiet_recorded; eauto.
    + eapply quiet_trans; eauto.
  - intros [= <- <-]. by apply (Hm _ _ _ E).
Qed.

Lemma silent_bind {A B} (m : M A) (k : A → M B) :
  silent m → (∀ a, silent (k a)) → silent (bind m k).
Proof.
  intros Hm Hk s r s'. rewrite bind_run. destruct (m s) as [[a|e] s1] eqn:E.
  - intros H. eapply quiet_trans; eauto. by eapply Hk.
  - intros [= <- <-]. by eapply Hm.
Qed.

Lemma silent_query {A} q (r : result error A) : silent (query q r).
Proof. intros s r' s'. rewrite query_run. intros [= <- <-]. done. Qed.

Lemma silent_attempt {A} (m : M A) : silent m → silent (attempt m).
Proof.
  intros Hm s r s'. rewrite attempt_run. intros [= <- <-].
  apply (Hm s (m s).1). by destruct (m s).
Qed.

Lemma silent_ret {A} (a : A) : silent (ret a).
Proof. by intros s r s' [= <- <-]. Qed.

Lemma silent_fail {A} e : silent (@fail A e).
Proof. by intros s r s' [= <- <-]. Qed.

Lemma loud_only_query {A} q (r : result error A) :
  (∀ e, r = Err e → loud e) → loud_only (query q r).
Proof. intros Hr s e s'. rewrite query_run. intros [= ? <-]. eapply loud_not_uniform; eauto. Qed.

Lemma audited_query {A} q (r : result error A) :
  (∀ e, r = Err e → loud e) → audited (query q r).
Proof. intros. apply silent_audited; [apply silent_query|by apply loud_only_query]. Qed.

Lemma audited_attempt {A} (m : M A) : silent m → audited (attempt m).
Proof.
  intros Hm. apply silent_audited; [by apply silent_attempt|].
  intros s e s'. rewrite attempt_run. done.
Qed.

Lemma audited_gets {A} (f : AzState → A) : audited (gets f).
Proof. by intros s r s' [= <- <-]. Qed.

Lemma audited_lift {A} (r : result error A) : (∀ e, r = Err e → loud e) → audited (lift r).
Proof.
  intros Hr s r' s' [= <- <-]. destruct r as [a|e]; [done|]. split; [|done].
  intros Hu. by destruct (loud_not_uniform e (Hr e eq_refl)).
Qed.

Lemma captureDenial_recorded ctx principal op spec res chain claimed s :
  ∃ s', captureDenial ctx principal op spec res chain claimed s = (Ok tt, s') ∧ recorded s s'.
Proof.
  unfold captureDenial. destruct (NewEventID ctx (minted s)) as [id|e].
  - destruct (denial_home res chain) as [trail scope]. eexists. split; [done|].
    left. eexists. done.
  - eexists. split; [done|]. right. by exists e.
Qed.

Lemma audited_deny {A} ctx principal op spec res chain claimed e :
  uniform e → audited (@deny ctx A principal op spec res chain claimed e).
Proof.
  intros Hu s r s'. unfold deny. rewrite bind_run.
  destruct (captureDenial_recorded ctx principal op spec res chain claimed s) as (s1 & -> & Hr).
  intros [= <- <-]. done.
Qed.

#[export] Hint Resolve audited_ret audited_bind audited_gets audited_query audited_attempt
  silent_bind silent_query silent_attempt silent_ret silent_fail : audit.

Lemma uniform_not_found : uniform ErrNotFound.
Proof. by left. Qed.
Lemma uniform_unauthorized : uniform ErrUnauthorized.
Proof. by right. Qed.
Lemma loud_Loud msg : loud (Loud msg).
Proof. by exists msg. Qed.
#[export] Hint Resolve uniform_not_found uniform_unauthorized loud_Loud audited_deny
  audited_fail : audit.

Lemma audited_or_deny {A} ctx principal op spec chain (m : M A) :
  silent m → (∀ s e s', m s = (Err e, s') → e = ErrNotFound ∨ loud e) →
  audited (or_deny ctx principal op spec chain m).
Proof.
  intros Hs He s r s'. unfold or_deny. rewrite bind_run, attempt_run.
  destruct (m s) as [r1 s1] eqn:E. simpl. pose proof (Hs _ _ _ E) as Hq.
  destruct r1 as [a|e].
  - intros [= <- <-]. done.
  - destruct (He _ _ _ E) as [->|[msg ->]].
    + intros H. pose proof (audited_deny ctx principal op spec resolutionResolvable chain
        zeroScope ErrNotFound uniform_not_found _ _ _ H) as Ha.
      destruct r as [a|e]; [by eapply quiet_trans|]. destruct Ha. split; intros.
      * eapply quiet_recorded; eauto.
      * eapply quiet_trans; eauto.
    + intros [= <- <-]. split; [|done]. intros [?|?]; done.
Qed.

Lemma audited_lift_bind {A B} (r : result error A) (k : A → M B) :
  (∀ e, r = Err e → loud e) → (∀ a, r = Ok a → audited (k a)) → audited (bind (lift r) k).
Proof.
  intros Hr Hk. destruct r as [a|e]; [by apply Hk|].
  intros s r' s' [= <- <-]. split; [|done]. intros Hu.
  by destruct (loud_not_uniform e (Hr e eq_refl)).
Qed.

Lemma audited_attempt_bind {A B} q (r : result error A) (k : result error A → M B) :
  audited (k r) → audited (bind (attempt (query q r)) k).
Proof.
  intros Hk s r' s'. rewrite bind_run, attempt_run, query_run. simpl. intros H.
  specialize (Hk _ _ _ H). destruct r' as [a|e]; [done|]. exact Hk.
Qed.

(** ** The stages *)

Section stages.
Context (registry : Registry) (ctx : Ctx) (R : Resolver) (tok : TxToken).
Context `{!ResolverLaws R}.

Lemma silent_rGrants p : silent (rGrants R p).
Proof. intros s r s'. rewrite rGrants_run. by intros [= <- <-]. Qed.

Lemma audited_rGrants p : audited (rGrants R p).
Proof.
  apply silent_audited; [apply silent_rGrants|]. intros s e s'. rewrite rGrants_run.
  intros [= H _]. by eapply loud_not_uniform, grants_error.
Qed.

Lemma audited_rRules p : audited (rRules R p).
Proof. apply audited_query. intros e. apply rules_error. Qed.

Lemma silent_resolveKeyTarget chain k p : silent (resolveKeyTarget R chain k p).
Proof. destruct k; simpl; eauto with audit. Qed.

Lemma resolveKeyTarget_error chain k p s e s' :
  resolveKeyTarget R chain k p s = (Err e, s') → e = ErrNotFound ∨ loud e.
Proof.
  destruct k; simpl; rewrite ?query_run.
  - intros [= <- _]. right. by eexists.
  - intros [= H _]. by eapply key_error.
  - intros [= H _]. by eapply key_error.
  - done.
  - rewrite bind_run, query_run. destruct (ResolveRuleKey _ _ _ _ _) as [k|e'] eqn:E; [done|].
    intros [= <- _]. by eapply key_error.
  - intros [= H _]. by eapply pending_error.
  - intros [= H _]. by eapply approval_error.
Qed.

(** Key lookups of the delegation test fail like any key lookup. *)
Lemma resolve_items_error chain items m e :
  resolve_items (λ id, ResolveRuleKey R (Org chain) (Project chain) id "") items m = Err e →
  e = ErrNotFound ∨ loud e.
Proof.
  revert m. induction items as [|it items IH]; intros m; simpl; [done|].
  destruct (Item_IsFolder it); [apply IH|].
  intros [H|(k & _ & H)]%rbind_Err; [by eapply key_error|by eapply IH].
Qed.

Lemma rules_loop_error chain c target selectors m rules e :
  rules_loop (λ id, ResolveRuleKey R (Org chain) (Project chain) id "") chain c target
    selectors m rules = Err e → e = ErrNotFound ∨ loud e.
Proof.
  revert selectors m. induction rules as [|r rules IH]; intros selectors m; simpl.
  - repeat case_match; intros; simplify_eq; right; by eexists.
  - destruct (_ || _); [apply IH|].
    intros [H|(k & _ & H)]%rbind_Err; [by eapply resolve_items_error|].
    destruct (ContainsWhereInProject _ _ _ _); [done|by eapply IH].
Qed.

Lemma ruleDelegationHeld_error chain f grants rules target e :
  ruleDelegationHeld (λ id, ResolveRuleKey R (Org chain) (Project chain) id "") f chain grants
    rules target = Err e → e = ErrNotFound ∨ loud e.
Proof.
  unfold ruleDelegationHeld. induction f as [|a f IH]; cbn [ruleDelegationHeld_atoms]; [done|].
  destruct (evaluate [a] chain grants); [apply IH|].
  destruct (bool_decide (Cap a ≠ CapManageMembers)); [done|].
  intros [H|(h & _ & H)]%rbind_Err; [|destruct h; [by apply IH|done]].
  unfold ruleSelectorHeldResolving in H. do 2 (bcase; [done|]). by eapply rules_loop_error.
Qed.

Lemma audited_missing caller op spec key targetRule :
  audited (missingScopeRefusalWork R caller op spec key targetRule).
Proof.
  unfold missingScopeRefusalWork. apply audited_bind; [apply audited_rGrants|]. intros _.
  destruct (_ || _); [apply audited_ret|].
  apply audited_bind; [apply audited_rRules|]. intros _.
  destruct key as [k|]; [|apply audited_ret].
  intros s r s'. rewrite bind_run, attempt_run.
  destruct (resolveKeyTarget R zeroScope k (Principal caller) s) as [r1 s1] eqn:E.
  pose proof (silent_resolveKeyTarget _ _ _ _ _ _ E) as Hq. simpl.
  destruct r1 as [a|e]; [by intros [= <- <-]|].
  destruct (resolveKeyTarget_error _ _ _ _ _ _ E) as [->|[msg ->]]; intros [= <- <-]; [done|].
  split; [|done]. intros [?|?]; done.
Qed.

Lemma audited_selfConfigProfile caller op chain grants :
  audited (selfConfigProfile caller op chain grants).
Proof.
  unfold selfConfigProfile. apply audited_bind; [apply audited_gets|]. intros protected.
  repeat (bcase; [apply audited_ret|]). apply audited_ret.
Qed.

Lemma audited_machineReveal caller f chain :
  audited (machineRevealWithdrawn R caller f chain).
Proof.
  unfold machineRevealWithdrawn. repeat (bcase; [apply audited_ret|]).
  intros s r s'. rewrite bind_run, attempt_run, query_run. simpl.
  destruct (ProjectMachineReveal R (Project chain)) as [st|e] eqn:Hr; [by intros [= <- <-]|].
  destruct (reveal_error _ _ Hr) as [->|[msg ->]]; intros [= <- <-]; [done|].
  split; [|done]. intros [?|?]; done.
Qed.

(** The developer block captures its refusals when the caller addresses its own
    scope, which [Authorize] checks first. *)
Lemma audited_developer_stage caller op spec scope chain :
  (PClass caller = ClassDeveloper → op = OpDeliveryFetch ∧ chain = DeveloperScope caller) →
  ResolveChain R scope = Ok chain → (op = OpDeliveryFetch → Env chain ≠ "") →
  audited (developer_stage ctx R caller op spec scope chain).
Proof.
  intros Hdev Hchain Henv. unfold developer_stage.
  case_bool_decide as Hc; simpl; [|apply audited_ret].
  destruct (Hdev Hc) as [-> Hscope].
  rewrite !bool_decide_false by tauto. simpl.
  apply audited_bind.
  - apply audited_query. intros e. apply (settings_error scope); auto.
  - intros settings. destruct (Protected settings); auto with audit.
Qed.

Lemma audited_grant_stage caller op spec chain gp grants :
  audited (grant_stage R caller op spec chain gp grants).
Proof.
  unfold grant_stage. destruct (_ || _); [|apply audited_ret].
  apply audited_bind; [apply audited_rRules|]. intros. apply audited_ret.
Qed.

Lemma audited_rule_stage caller op spec chain grants key targetRule :
  audited (rule_stage ctx R caller op spec chain grants key targetRule).
Proof.
  unfold rule_stage. apply audited_bind; [apply audited_rRules|]. intros rules.
  apply audited_bind.
  - destruct key as [k|]; [|apply audited_ret].
    apply audited_bind; [|intros; apply audited_ret].
    apply audited_or_deny; [apply silent_resolveKeyTarget|]. intros *. apply resolveKeyTarget_error.
  - intros target. destruct targetRule as [rule|].
    + apply audited_bind; [|intros; apply audited_ret].
      apply audited_or_deny; [apply silent_query|]. intros s e s'. rewrite query_run.
      intros [= H _]. by eapply ruleDelegationHeld_error.
    + destruct (evaluateWithRules _ _ _ _ _); apply audited_ret.
Qed.

Lemma audited_empty_cell caller op spec chain key bound :
  audited (empty_cell_stage ctx R caller op spec chain key bound).
Proof.
  unfold empty_cell_stage. destruct (negb (emptyCellOp op)); [apply audited_ret|].
  destruct key as [k|]; [|auto with audit].
  apply audited_bind.
  { destruct bound; [apply audited_ret|].
    apply audited_or_deny; [apply silent_resolveKeyTarget|]. intros *. apply resolveKeyTarget_error. }
  intros b. apply audited_bind; [apply audited_query; intros e; apply value_error|].
  intros present. apply audited_bind.
  { destruct (_ && _); [|apply audited_ret]. apply audited_query. intros e. apply draft_error. }
  intros p'. destruct p'; auto with audit.
Qed.

Lemma audited_protected_delete caller op spec scope chain :
  ResolveChain R scope = Ok chain → (op = OpEnvDelete → Env chain ≠ "") →
  audited (protected_delete_stage ctx R caller op spec scope chain).
Proof.
  intros Hchain Henv. unfold protected_delete_stage.
  destruct (IsServiceAccountKind _); simpl; [|apply audited_ret].
  case_bool_decide as Hop; [|apply audited_ret].
  apply audited_bind.
  - apply audited_query. intros e. apply (settings_error scope); auto.
  - intros settings. destruct (Protected settings); auto with audit.
Qed.

Lemma audited_conjuncts caller op spec scope chain grants key bound nav :
  ResolveChain R scope = Ok chain → (op = OpEnvDelete → Env chain ≠ "") →
  audited (conjunct_stages registry ctx R tok caller op spec scope chain grants key bound nav).
Proof.
  intros Hchain Henv. unfold conjunct_stages.
  destruct (publish_empty_refused op key); [auto with audit|].
  apply audited_bind; [apply audited_empty_cell|]. intros b.
  apply audited_bind; [by apply audited_protected_delete|]. intros _.
  apply audited_bind; [apply audited_selfConfigProfile|]. intros [protected permitted].
  destruct permitted; simpl; [|auto with audit].
  apply audited_bind; [apply audited_machineReveal|]. intros [|]; [auto with audit|].
  destruct (_ || _); auto with audit.
Qed.

(** The settings reads address an environment that resolved. *)
Definition env_addressed (op : Operation) (spec : authorizationSpec) : Prop :=
  op = OpDeliveryFetch ∨ op = OpEnvDelete → as_level spec = LevelEnv.

Lemma ScopeLevel_env s : ScopeLevel s = Ok LevelEnv → Env s ≠ "".
Proof. rewrite ScopeLevel_cases. repeat case_decide; naive_solver. Qed.

Lemma audited_authorizeTenant caller op spec scope key targetRule :
  env_addressed op spec →
  (PClass caller = ClassDeveloper → op = OpDeliveryFetch ∧ scope = DeveloperScope caller) →
  audited (authorizeTenant registry ctx R tok caller op spec scope key targetRule).
Proof.
  intros Henv Hdev. unfold authorizeTenant.
  apply audited_lift_bind; [intros e; apply ScopeLevel_error|]. intros l Hl.
  case_bool_decide as Hlevel; [auto with audit|].
  destruct (_ && _); [auto with audit|].
  apply audited_attempt_bind. destruct (ResolveChain R scope) as [chain|e] eqn:Hchain.
  - pose proof (chain_exact _ _ Hchain) as ->.
    assert (op = OpDeliveryFetch ∨ op = OpEnvDelete → Env scope ≠ "") as Hne.
    { intros Hop. apply ScopeLevel_env. rewrite <-(Henv Hop). by rewrite Hl, <-Hlevel. }
    unfold resolved_stages. apply audited_bind; [apply audited_developer_stage; auto|]. intros gp.
    apply audited_bind; [apply audited_rGrants|]. intros grants.
    apply audited_bind; [apply audited_grant_stage|]. intros held.
    apply audited_bind; [destruct (consults_rules _ _ _ _ _);
      [apply audited_rule_stage|apply audited_ret]|].
    intros [[held' bound] nav]. destruct held'; simpl; [|auto with audit].
    apply audited_conjuncts; auto.
  - destruct (chain_error _ _ Hchain) as [->|[msg ->]]; [|auto with audit].
    apply audited_bind; [apply audited_missing|]. auto with audit.
Qed.

Lemma audited_authorizeInstance caller op spec :
  audited (authorizeInstance registry ctx R tok caller op spec).
Proof.
  unfold authorizeInstance. destruct (_ && _); [auto with audit|].
  apply audited_bind; [apply audited_rGrants|]. intros grants.
  destruct (negb _); [auto with audit|]. destruct (assuranceInadequate _ _ _); auto with audit.
Qed.

Lemma audited_Authorize caller op scope :
  (∀ spec, lookupSpec registry op = Some spec → env_addressed op spec) →
  audited (Authorize registry ctx R tok caller op scope).
Proof.
  intros Henv. unfold Authorize. destruct (lookupSpec registry op) as [spec|]; [|auto with audit].
  apply audited_bind; [by intros s r s' [= <- <-]|]. intros _.
  destruct (_ && (_ || _)) eqn:Hd; [auto with audit|].
  destruct (bool_decide (Principal caller = "")); [auto with audit|].
  destruct (_ && _ && _); [apply audited_deny;
    destruct (bool_decide (as_class spec = ClassTenant)); auto with audit|].
  destruct (as_class spec); try by auto with audit.
  - apply audited_authorizeTenant; [by apply Henv|]. intros Hc.
    rewrite bool_decide_true in Hd by done. simpl in Hd.
    apply orb_false_iff in Hd as [H1 H2]. bsimp. split; by apply dec_stable.
  - destruct (bool_decide (scope ≠ zeroScope)); [auto with audit|].
    apply audited_authorizeInstance.
Qed.
End stages.

(** C24 Every refusal of the chokepoint leaves exactly one record. Over any
    resolver that keeps its contract and for the shipped registry, a call of
    [Authorize] that answers [ErrNotFound] or [ErrUnauthorized] has captured
    exactly one denial (or holds its capture failure for settlement), and a call
    that mints a proof or fails loudly has captured none. *)
Theorem Authorize_refusals_recorded (ctx : Ctx) (R : Resolver) (tok : TxToken)
    (laws : ResolverLaws R) caller op scope s r s' :
  Authorize registry ctx R tok caller op scope s = (r, s') →
  match r with
  | Ok _ => quiet s s'
  | Err e => (uniform e → recorded s s') ∧ (¬ uniform e → quiet s s')
  end.
Proof.
  refine (audited_Authorize registry ctx R tok caller op scope _ s r s').
  intros spec Hs Hop. by eapply shipped_env_ops.
Qed.
