(* ===== verification/AuthorizerSound.v ===== *)
(** * What a minted proof certifies

    [tenant_ok] collects, for the tenant path, everything that must have held
    in the attempt's snapshot for [authorizeTenant] to mint: the resolved chain,
    the authority that satisfied the formula, and every further conjunct. The
    isolation, assurance, developer, machine and self-configuration theorems
    are read off it. *)

From stdpp Require Import prelude gmap strings list.
From S2P Require Import Prelude StringFacts Domain Rule Containment FreeText Resolver Tables.
From S2P Require Import Registry OperationTable RegistryFacts Evaluate Delegation Authorizer.
From S2P Require Import AuthorizerAudit.

(** ** Inversion *)

Lemma query_Ok {A} q (r : result error A) s a s' :
  query q r s = (Ok a, s') ↔ r = Ok a ∧ s' = log q s.
Proof. rewrite query_run. naive_solver. Qed.

Lemma deny_not_Ok {A} ctx principal op spec res chain claimed e s (a : A) s' :
  deny ctx principal op spec res chain claimed e s ≠ (Ok a, s').
Proof.
  unfold deny. rewrite bind_run.
  destruct (captureDenial_recorded ctx principal op spec res chain claimed s) as (s1 & -> & _).
  done.
Qed.

Lemma or_deny_Ok {A} ctx principal op spec chain (m : M A) s a s' :
  or_deny ctx principal op spec chain m s = (Ok a, s') → m s = (Ok a, s').
Proof.
  unfold or_deny. rewrite bind_run, attempt_run.
  destruct (m s) as [[b|e] s1]; simpl; [by intros [= <- <-]|].
  destruct e; try done. by intros H%deny_not_Ok.
Qed.

(** A stage that leaves the resolver's self-configuration mark alone. *)
Definition keeps_mark {A} (m : M A) : Prop := ∀ s r s',
  m s = (r, s') → selfConfigOrgID s' = selfConfigOrgID s.

Lemma keeps_ret {A} (a : A) : keeps_mark (ret a).
Proof. by intros s r s' [= <- <-]. Qed.

Lemma keeps_fail {A} e : keeps_mark (@fail A e).
Proof. by intros s r s' [= <- <-]. Qed.

Lemma keeps_lift {A} (r : result error A) : keeps_mark (lift r).
Proof. by intros s r' s' [= <- <-]. Qed.

Lemma keeps_query {A} q (r : result error A) : keeps_mark (query q r).
Proof. intros s r' s'. rewrite query_run. by intros [= <- <-]. Qed.

Lemma keeps_bind {A B} (m : M A) (k : A → M B) :
  keeps_mark m → (∀ a, keeps_mark (k a)) → keeps_mark (bind m k).
Proof.
  intros Hm Hk s r s'. rewrite bind_run. destruct (m s) as [[a|e] s1] eqn:E.
  - intros H. rewrite (Hk _ _ _ _ H). by eapply Hm.
  - intros [= <- <-]. by eapply Hm.
Qed.

Lemma keeps_attempt {A} (m : M A) : keeps_mark m → keeps_mark (attempt m).
Proof.
  intros Hm s r s'. rewrite attempt_run. intros [= <- <-].
  apply (Hm s (m s).1). by destruct (m s).
Qed.

Lemma keeps_deny {A} ctx principal op spec res chain claimed e :
  keeps_mark (@deny ctx A principal op spec res chain claimed e).
Proof.
  apply keeps_bind; [|intros; apply keeps_fail]. intros s r s'. unfold captureDenial.
  destruct (NewEventID ctx (minted s)); [destruct (denial_home res chain)|]; by intros [= <- <-].
Qed.

Create HintDb mark.
#[export] Hint Resolve keeps_ret keeps_fail keeps_lift keeps_query keeps_bind keeps_attempt
  keeps_deny : mark.

Lemma keeps_or_deny {A} ctx principal op spec chain (m : M A) :
  keeps_mark m → keeps_mark (or_deny ctx principal op spec chain m).
Proof.
  intros Hm. unfold or_deny. apply keeps_bind; [by apply keeps_attempt|].
  intros [a|e]; [auto with mark|]. destruct e; auto with mark.
Qed.

Lemma keeps_resolveKeyTarget R chain k p : keeps_mark (resolveKeyTarget R chain k p).
Proof. destruct k; simpl; auto with mark. Qed.

#[export] Hint Resolve keeps_or_deny keeps_resolveKeyTarget : mark.

(** ** The conditions *)

Section sound.
Context (registry : Registry) (ctx : Ctx) (R : Resolver) (tok : TxToken).

(** Whose grants the tenant path evaluates. *)
Definition grant_principal (caller : Identity) : PrincipalID :=
  if bool_decide (PClass caller = ClassDeveloper) then AuthorityPrincipal caller
  else Principal caller.

(** Whether the grant lookup marks the chain as the instance's own
    configuration. *)
Definition self_config_marked (p : PrincipalID) (chain : Scope) : bool :=
  let org := (Grants R p).2 in bool_decide (org ≠ "") && bool_decide (Org chain = org).

(** The key a key-aware call is bound to: the one its target resolves to in the
    resolved chain. *)
Definition bound_of (chain : Scope) (key : option KeyTarget) (principal : PrincipalID)
    (bound : option RuleKey) : Prop :=
  match key with
  | None => bound = None
  | Some k => ∃ b s s', bound = Some b ∧ resolveKeyTarget R chain k principal s = (Ok b, s')
  end.

(** The authority that can satisfy a tenant formula. *)
Inductive tenant_authority (caller : Identity) (op : Operation) (spec : authorizationSpec)
    (chain : Scope) (key : option KeyTarget) (targetRule : option Rule)
    (grants : list Grant) : option RuleKey → list Rule → Prop :=
| by_grants :
    PClass caller ≠ ClassDeveloper → op ≠ OpDeveloperCredentialMint →
    evaluate (as_formula spec) chain grants = true →
    tenant_authority caller op spec chain key targetRule grants None []
| by_environment_authority rules :
    PClass caller = ClassDeveloper ∨ op = OpDeveloperCredentialMint →
    Rules R (grant_principal caller) = Ok rules →
    developerEnvironmentAuthority chain grants rules = true →
    tenant_authority caller op spec chain key targetRule grants None []
| by_rules rules bound :
    rulesApply caller = true → op ≠ OpDeveloperCredentialMint →
    Rules R (Principal caller) = Ok rules → bound_of chain key (Principal caller) bound →
    evaluateWithRules (as_formula spec) chain grants rules bound = true →
    tenant_authority caller op spec chain key targetRule grants bound []
| by_navigation rules bound :
    rulesApply caller = true → op ≠ OpDeveloperCredentialMint →
    Rules R (Principal caller) = Ok rules → bound_of chain key (Principal caller) bound →
    ruleNavigationReach op chain rules grants ≠ [] →
    tenant_authority caller op spec chain key targetRule grants bound
      (ruleNavigationReach op chain rules grants)
| by_delegation rules rule bound :
    rulesApply caller = true → targetRule = Some rule →
    Rules R (Principal caller) = Ok rules →
    ruleDelegationHeld (λ id, ResolveRuleKey R (Org chain) (Project chain) id "")
      (as_formula spec) chain grants rules rule = Ok true →
    tenant_authority caller op spec chain key targetRule grants bound [].

(** The extra formula of the protected profile. *)
Definition profile_formula (op : Operation) : Formula :=
  mkAtom CapInstanceConfig LevelNone ::
  (if Contains selfConfigMemberOps op then [mkAtom CapManageMembers LevelNone] else []).

Record tenant_ok (caller : Identity) (op : Operation) (spec : authorizationSpec)
    (scope : Scope) (key : option KeyTarget) (targetRule : option Rule) (p : proof)
    (grants : list Grant) (bound : option RuleKey) : Prop := {
  to_level : ScopeLevel scope = Ok (as_level spec);
  to_chain : ResolveChain R scope = Ok (pf_chain p);
  to_shape : pf_kind p = kindTenant ∧ pf_op p = op ∧ pf_tok p = tok ∧ pf_publishKeys p = None;
  to_grants : (Grants R (grant_principal caller)).1 = Ok grants;
  to_authority : tenant_authority caller op spec (pf_chain p) key targetRule grants bound
    (pf_navigation p);
  to_developer : PClass caller = ClassDeveloper →
    op = OpDeliveryFetch ∧ pf_chain p = DeveloperScope caller ∧
    ∃ st, EnvironmentReauthSettings R (Env (pf_chain p)) = Ok st ∧ Protected st = false;
  to_key : emptyCellOp op = false → pf_key p = bound;
  to_empty : emptyCellOp op = true → ∃ b, pf_key p = Some b ∧
    RuleKeyHasValue R (pf_chain p) (Key_ID b) = Ok false ∧
    (op = OpValueInitialize →
       RuleKeyHasConflictingDraft R (pf_chain p) (Key_ID b) (Principal caller) = Ok false);
  to_create : op = OpKeySchemaPublishEmpty → ∃ folder, key = Some (KeyToCreate folder);
  to_delete : IsServiceAccountKind (PClass caller) = true → op = OpEnvDelete →
    ∃ st, EnvironmentReauthSettings R (Env (pf_chain p)) = Ok st ∧ Protected st = false;
  to_mark : pf_selfConfig p = self_config_marked (grant_principal caller) (pf_chain p);
  to_profile : pf_selfConfig p = true →
    (PClass caller = "" ∨ PClass caller = ClassHuman) ∧ op ∈ selfConfigOperations ∧
    evaluate (profile_formula op) (pf_chain p) grants = true;
  to_reveal : IsServiceAccountKind (PClass caller) = true → Project (pf_chain p) ≠ "" →
    demandsReveal (as_formula spec) = true →
    ∃ st, ProjectMachineReveal R (Project (pf_chain p)) = Ok st ∧ Enabled st = true;
  to_assurance : SessionID caller ≠ "" →
    FormulaDemandsMFA registry op = true ∨ pf_selfConfig p = true →
    AdequateAssurance (Assurance caller) = true }.

(** ** Stage by stage *)

Lemma developer_stage_Ok caller op spec scope chain s gp s' :
  developer_stage ctx R caller op spec scope chain s = (Ok gp, s') →
  gp = grant_principal caller ∧
  (PClass caller = ClassDeveloper →
   op = OpDeliveryFetch ∧ chain = DeveloperScope caller ∧
   ∃ st, EnvironmentReauthSettings R (Env chain) = Ok st ∧ Protected st = false).
Proof.
  unfold developer_stage, grant_principal. case_bool_decide as Hc; simpl.
  2:{ intros [= <- <-]. done. }
  destruct (_ || _) eqn:Hop; [done|]. apply orb_false_iff in Hop as [H1 H2]. bsimp.
  apply dec_stable in H1, H2.
  intros (st & s1 & [Hst ->]%query_Ok & H)%bind_Ok.
  destruct (Protected st) eqn:Hp; [by apply deny_not_Ok in H|]. injection H as <- <-.
  split; [done|]. intros _. split_and!; [done..|]. by exists st.
Qed.

Lemma grant_stage_Ok caller op spec chain gp grants s held s' :
  grant_stage R caller op spec chain gp grants s = (Ok held, s') →
  if bool_decide (PClass caller = ClassDeveloper) || bool_decide (op = OpDeveloperCredentialMint)
  then ∃ rules, Rules R gp = Ok rules ∧ held = developerEnvironmentAuthority chain grants rules
  else held = evaluate (as_formula spec) chain grants.
Proof.
  unfold grant_stage. destruct (_ || _); [|by intros [= <- <-]].
  intros (rules & s1 & [Hr ->]%query_Ok & [= <- <-])%bind_Ok. by exists rules.
Qed.

Lemma rule_stage_Ok caller op spec chain grants key targetRule s held bound nav s' :
  rule_stage ctx R caller op spec chain grants key targetRule s = (Ok (held, bound, nav), s') →
  ∃ rules, Rules R (Principal caller) = Ok rules ∧ bound_of chain key (Principal caller) bound ∧
  match targetRule with
  | Some rule => nav = [] ∧
      ruleDelegationHeld (λ id, ResolveRuleKey R (Org chain) (Project chain) id "")
        (as_formula spec) chain grants rules rule = Ok held
  | None =>
      (held = true ∧ nav = [] ∧
       evaluateWithRules (as_formula spec) chain grants rules bound = true) ∨
      (nav = ruleNavigationReach op chain rules grants ∧ held = Nat.ltb 0 (length nav))
  end.
Proof.
  unfold rule_stage. intros (rules & s1 & [Hr ->]%query_Ok & H)%bind_Ok.
  apply bind_Ok in H as (target & s2 & Htarget & H). exists rules. split; [done|].
  assert (bound_of chain key (Principal caller) target) as Hkey.
  { destruct key as [k|]; simpl.
    - apply bind_Ok in Htarget as (k' & s3 & Hk%or_deny_Ok & [= <- <-]). eauto.
    - by injection Htarget as <- <-. }
  destruct targetRule as [rule|].
  - apply bind_Ok in H as (h & s3 & Hd%or_deny_Ok & [= <- <- <- <-]).
    apply query_Ok in Hd as [Hd _]. done.
  - destruct (evaluateWithRules _ _ _ _ _) eqn:He; injection H as <- <- <- <-; (split; [done|]).
    + by left.
    + by right.
Qed.

Lemma empty_cell_Ok caller op spec chain key bound s b s' :
  empty_cell_stage ctx R caller op spec chain key bound s = (Ok b, s') →
  if emptyCellOp op
  then ∃ k, b = Some k ∧ RuleKeyHasValue R chain (Key_ID k) = Ok false ∧
    (op = OpValueInitialize →
       RuleKeyHasConflictingDraft R chain (Key_ID k) (Principal caller) = Ok false)
  else b = bound.
Proof.
  unfold empty_cell_stage. destruct (emptyCellOp op); simpl; [|by intros [= <- <-]].
  destruct key as [kt|]; [|done].
  intros (k & s1 & _ & H)%bind_Ok. apply bind_Ok in H as (present & s2 & Hv & H).
  apply query_Ok in Hv as [Hv ->]. apply bind_Ok in H as (present' & s3 & Hd & H).
  destruct present' ; [by apply deny_not_Ok in H|]. injection H as <- <-.
  exists k. split; [done|]. destruct present; simpl in Hd; [done|]. split; [done|].
  intros ->. rewrite bool_decide_true in Hd by done. by apply query_Ok in Hd as [Hd _].
Qed.

Lemma protected_delete_Ok caller op spec scope chain s u s' :
  protected_delete_stage ctx R caller op spec scope chain s = (Ok u, s') →
  IsServiceAccountKind (PClass caller) = true → op = OpEnvDelete →
  ∃ st, EnvironmentReauthSettings R (Env chain) = Ok st ∧ Protected st = false.
Proof.
  unfold protected_delete_stage. intros H Hm ->. rewrite Hm, bool_decide_true in H by done.
  simpl in H. apply bind_Ok in H as (st & s1 & [Hst ->]%query_Ok & H).
  destruct (Protected st) eqn:Hp; [by apply deny_not_Ok in H|]. by exists st.
Qed.

Lemma selfConfigProfile_Ok caller op chain grants s protected permitted s' :
  selfConfigProfile caller op chain grants s = (Ok (protected, permitted), s') →
  s' = s ∧
  protected = bool_decide (selfConfigOrgID s ≠ "") && bool_decide (Org chain = selfConfigOrgID s) ∧
  (protected = true → permitted = true →
   (PClass caller = "" ∨ PClass caller = ClassHuman) ∧ op ∈ selfConfigOperations ∧
   evaluate (profile_formula op) chain grants = true) ∧
  (protected = false → permitted = bool_decide (op ≠ OpSelfConfigApply) &&
                                   bool_decide (op ≠ OpSelfConfigTest)).
Proof.
  unfold selfConfigProfile, rIsSelfConfigScope, gets. rewrite bind_run.
  destruct (bool_decide (selfConfigOrgID s ≠ "") && _) eqn:Hp; simpl.
  2:{ by intros [= <- <- <-]. }
  destruct (bool_decide (PClass caller ≠ "") && bool_decide (PClass caller ≠ ClassHuman)) eqn:Hc;
    [by intros [= <- <- <-]|].
  destruct (Contains selfConfigOperations op) eqn:Hop; simpl; [|by intros [= <- <- <-]].
  intros [= <- <- <-]. split_and!; [done..| |done]. intros _ He.
  apply andb_false_iff in Hc. bsimp. split; [|by split].
  destruct Hc as [Hc|Hc]; apply dec_stable in Hc; auto.
Qed.

Lemma machineReveal_Ok caller f chain s s' :
  machineRevealWithdrawn R caller f chain s = (Ok false, s') →
  IsServiceAccountKind (PClass caller) = true → Project chain ≠ "" → demandsReveal f = true →
  ∃ st, ProjectMachineReveal R (Project chain) = Ok st ∧ Enabled st = true.
Proof.
  unfold machineRevealWithdrawn. intros H Hm Hp Hd.
  rewrite Hm, Hd, bool_decide_false in H by done. simpl in H.
  rewrite bind_run, attempt_run, query_run in H. simpl in H.
  destruct (ProjectMachineReveal R (Project chain)) as [st|e]; [|by destruct e].
  injection H as H _. exists st. split; [done|]. by apply negb_false_iff in H.
Qed.

Lemma keeps_developer_stage caller op spec scope chain :
  keeps_mark (developer_stage ctx R caller op spec scope chain).
Proof.
  unfold developer_stage. repeat (bcase; [auto with mark|]). apply keeps_bind; [auto with mark|].
  intros st. destruct (Protected st); auto with mark.
Qed.

Lemma keeps_grant_stage caller op spec chain gp grants :
  keeps_mark (grant_stage R caller op spec chain gp grants).
Proof.
  unfold grant_stage. destruct (_ || _); [|auto with mark].
  apply keeps_bind; [apply keeps_query|]. auto with mark.
Qed.

Lemma keeps_rule_stage caller op spec chain grants key targetRule :
  keeps_mark (rule_stage ctx R caller op spec chain grants key targetRule).
Proof.
  unfold rule_stage. apply keeps_bind; [apply keeps_query|]. intros rules.
  apply keeps_bind; [destruct key; auto with mark|]. intros target.
  destruct targetRule; [auto with mark|]. destruct (evaluateWithRules _ _ _ _ _); auto with mark.
Qed.

Lemma keeps_empty_cell caller op spec chain key bound :
  keeps_mark (empty_cell_stage ctx R caller op spec chain key bound).
Proof.
  unfold empty_cell_stage. destruct (negb _); [auto with mark|]. destruct key; [|auto with mark].
  apply keeps_bind; [destruct bound; auto with mark|]. intros b.
  apply keeps_bind; [auto with mark|]. intros present.
  apply keeps_bind; [destruct (_ && _); auto with mark|]. intros []; auto with mark.
Qed.

Lemma keeps_protected_delete caller op spec scope chain :
  keeps_mark (protected_delete_stage ctx R caller op spec scope chain).
Proof.
  unfold protected_delete_stage. destruct (_ && _); [|auto with mark].
  apply keeps_bind; [auto with mark|]. intros st. destruct (Protected st); auto with mark.
Qed.

(** What the stages after the formula establish. *)
Lemma conjunct_stages_Ok caller op spec scope chain grants key bound nav s p s' :
  conjunct_stages registry ctx R tok caller op spec scope chain grants key bound nav s
    = (Ok p, s') →
  ∃ b protected,
  p = mkProof protected false "" kindTenant op "" chain tok b nav None ∧
  (if emptyCellOp op
   then ∃ k, b = Some k ∧ RuleKeyHasValue R chain (Key_ID k) = Ok false ∧
     (op = OpValueInitialize →
        RuleKeyHasConflictingDraft R chain (Key_ID k) (Principal caller) = Ok false)
   else b = bound) ∧
  (op = OpKeySchemaPublishEmpty → ∃ folder, key = Some (KeyToCreate folder)) ∧
  (IsServiceAccountKind (PClass caller) = true → op = OpEnvDelete →
   ∃ st, EnvironmentReauthSettings R (Env chain) = Ok st ∧ Protected st = false) ∧
  protected = bool_decide (selfConfigOrgID s ≠ "") && bool_decide (Org chain = selfConfigOrgID s) ∧
  (protected = true →
   (PClass caller = "" ∨ PClass caller = ClassHuman) ∧ op ∈ selfConfigOperations ∧
   evaluate (profile_formula op) chain grants = true) ∧
  (IsServiceAccountKind (PClass caller) = true → Project chain ≠ "" →
   demandsReveal (as_formula spec) = true →
   ∃ st, ProjectMachineReveal R (Project chain) = Ok st ∧ Enabled st = true) ∧
  (SessionID caller ≠ "" → FormulaDemandsMFA registry op = true ∨ protected = true →
   AdequateAssurance (Assurance caller) = true).
Proof.
  unfold conjunct_stages.
  destruct (publish_empty_refused op key) eqn:Hpub; [by intros H%deny_not_Ok|].
  intros (b & s1 & Hb & H)%bind_Ok. apply bind_Ok in H as (u & s2 & Hdel & H).
  apply bind_Ok in H as ([protected permitted] & s3 & Hprof & H).
  destruct permitted; simpl in H; [|by apply deny_not_Ok in H].
  apply bind_Ok in H as (withdrawn & s4 & Hrev & H).
  destruct withdrawn; [by apply deny_not_Ok in H|].
  destruct (_ || _) eqn:Hass; [by apply deny_not_Ok in H|]. injection H as <- <-.
  apply selfConfigProfile_Ok in Hprof as (-> & Hp & Hprof & _).
  rewrite (keeps_protected_delete _ _ _ _ _ _ _ _ Hdel) in Hp.
  rewrite (keeps_empty_cell _ _ _ _ _ _ _ _ _ Hb) in Hp.
  exists b, protected. split_and!; [done|by eapply empty_cell_Ok| |by eapply protected_delete_Ok|
    done|by auto|by eapply machineReveal_Ok|].
  - intros ->. unfold publish_empty_refused in Hpub. rewrite bool_decide_true in Hpub by done.
    destruct key as [[]|]; try done. by eexists.
  - intros Hs Hor. unfold assuranceInadequate in Hass. rewrite bool_decide_true in Hass by done.
    destruct (AdequateAssurance _); [done|].
    by destruct (FormulaDemandsMFA registry op), protected, Hor.
Qed.

Lemma authority_of_stages caller op spec chain key targetRule grants
    (held0 held : bool) bound nav s1 s2 s3 :
  grant_stage R caller op spec chain (grant_principal caller) grants s1 = (Ok held0, s2) →
  (if consults_rules caller op spec targetRule held0
   then rule_stage ctx R caller op spec chain grants key targetRule
   else ret (held0, None, [])) s2 = (Ok (held, bound, nav), s3) →
  held = true → tenant_authority caller op spec chain key targetRule grants bound nav.
Proof.
  intros Hg%grant_stage_Ok Hr Hheld. unfold consults_rules in Hr.
  destruct (negb _ && _ && _ && _) eqn:Hc.
  - rewrite !andb_true_iff in Hc. destruct Hc as [[[Hmint Hra] _] _]. bsimp.
    apply rule_stage_Ok in Hr as (rules & Hrules & Hkey & Hr).
    destruct targetRule as [rule|].
    + destruct Hr as [-> Hd]. subst held. by eapply by_delegation.
    + destruct Hr as [(_ & -> & He)|[-> Hlen]]; [by eapply by_rules|].
      apply by_navigation; try done. intros Hnil. by rewrite Hnil, Hheld in Hlen.
  - injection Hr as -> <- <- _. subst held.
    destruct (_ || _) eqn:Hor.
    + destruct Hg as (rules & Hrules & Hauth).
      apply by_environment_authority with rules; [|done|done]. by bsimp.
    + apply orb_false_iff in Hor as [H1 H2]. bsimp. by apply by_grants.
Qed.

Lemma authorizeTenant_sound caller op spec scope key targetRule s p s' :
  authorizeTenant registry ctx R tok caller op spec scope key targetRule s = (Ok p, s') →
  ∃ grants bound, tenant_ok caller op spec scope key targetRule p grants bound.
Proof.
  unfold authorizeTenant. intros (l & s0 & Hl & H)%bind_Ok. injection Hl as Hl <-.
  case_bool_decide as Hlevel; [done|]. destruct (emptyCellOp op && _); [done|].
  rewrite bind_run, attempt_run in H. unfold rResolveChain in H. rewrite query_run in H.
  simpl in H. destruct (ResolveChain R scope) as [chain|e] eqn:Hchain.
  2:{ destruct e; try done. by apply bind_Ok in H as (? & ? & _ & ?%deny_not_Ok). }
  unfold resolved_stages in H. apply bind_Ok in H as (gp & s1 & Hdev & H).
  apply developer_stage_Ok in Hdev as [-> Hdev].
  apply bind_Ok in H as (grants & s2 & Hgr & H). rewrite rGrants_run in Hgr.
  injection Hgr as Hgr <-. apply bind_Ok in H as (held0 & s3 & Hg & H).
  apply bind_Ok in H as ([[held bound] nav] & s4 & Hr & H).
  destruct held eqn:Hheld; simpl in H; [|by apply deny_not_Ok in H].
  pose proof (authority_of_stages _ _ _ _ _ _ _ _ _ _ _ _ _ _ Hg Hr eq_refl) as Hauth.
  assert (selfConfigOrgID s4 = (Grants R (grant_principal caller)).2) as Hmark.
  { transitivity (selfConfigOrgID s3).
    - destruct (consults_rules _ _ _ _ _); [by eapply keeps_rule_stage|by eapply keeps_ret].
    - by rewrite (keeps_grant_stage _ _ _ _ _ _ _ _ _ Hg). }
  apply conjunct_stages_Ok in H as (b & protected & -> & Hcell & Hpub & Hdel & Hp & Hprof & Hrev
    & Hass).
  exists grants, bound. rewrite Hmark in Hp.
  split; simpl; try done.
  - by rewrite Hl, <-Hlevel.
  - intros Hno. by rewrite Hno in Hcell.
  - intros Hyes. by rewrite Hyes in Hcell.
Qed.
End sound.
