(* ===== verification/Demo.v ===== *)
(** * A concrete instance

    One small database, request context and set of callers, used by the
    witnesses of the chokepoint theorems: two organisations, a protected
    environment, the instance's own configuration organisation [osc], humans
    with grants, with rules only and with foreign grants, and an automation
    account. *)

From stdpp Require Import prelude gmap strings pretty list.
From S2P Require Import Prelude StringFacts Domain Rule Resolver Tables Registry OperationTable.
From S2P Require Import RegistryFacts Authorizer.

Definition demo_item (id axis project env key folder : string) : RuleItemRow :=
  mkRuleItemRow id (mkStoredRuleItem (id +:+ axis) axis project env key folder).

Definition demo_db : DB := {|
  orgs := ["o1"; "o2"; "osc"];
  projects := [mkProjectRow "o1" "p1" true 4; mkProjectRow "o2" "p2" false 0;
               mkProjectRow "osc" "psc" false 0];
  environments := [mkEnvRow "o1" "p1" "e1" false None; mkEnvRow "o1" "p1" "prod" true (Some 300%Z);
                   mkEnvRow "o2" "p2" "e2" false None; mkEnvRow "osc" "psc" "esc" false None];
  principals := [mkPrincipalRow "alice" "human" "active" 0; mkPrincipalRow "bot" "machine" "active" 0;
                 mkPrincipalRow "dev" "machine" "active" 0;
                 mkPrincipalRow "mallory" "human" "active" 0;
                 mkPrincipalRow "rita" "human" "active" 0; mkPrincipalRow "root" "human" "active" 0];
  db_grants := [mkGrantRow "alice" "read" "o1" "p1" ""; mkGrantRow "alice" "reveal" "o1" "p1" "";
                mkGrantRow "alice" "publish" "o1" "p1" "";
                mkGrantRow "alice" "definitions-edit" "o1" "p1" "";
                mkGrantRow "bot" "read" "o1" "p1" ""; mkGrantRow "bot" "reveal" "o1" "p1" "";
                mkGrantRow "bot" "definitions-edit" "o1" "p1" "";
                mkGrantRow "mallory" "read" "o2" "" ""; mkGrantRow "mallory" "reveal" "o2" "" "";
                mkGrantRow "root" "read" "osc" "" ""; mkGrantRow "root" "reveal" "osc" "" "";
                mkGrantRow "root" "instance-config" "" "" "";
                mkGrantRow "root" "rotate-dek" "" "" ""];
  access_grants := [mkAccessGrantRow (mkGrantRow "rita" "read" "o1" "p1" "e1") 50];
  db_rules := [mkRule_Row "r1" "rita" "read" "o1" "all" "all";
               mkRule_Row "r2" "rita" "reveal" "o1" "all" "only";
               mkRule_Row "r3" "rita" "read" "osc" "all" "all";
               mkRule_Row "r4" "rita" "reveal" "osc" "all" "all"];
  rule_items := [demo_item "r1" "project" "p1" "" "" "";
                 demo_item "r2" "project" "p1" "" "" ""; demo_item "r2" "folder" "p1" "" "" "db";
                 demo_item "r3" "project" "psc" "" "" ""; demo_item "r4" "project" "psc" "" "" ""];
  db_keys := [mkKeyRow "o1" "p1" "k1" "URL" "db"; mkKeyRow "o1" "p1" "k2" "TOKEN" "ops"];
  pending_changes := []; approval_requests := []; value_entries := [];
  restore_epoch := 0; self_config_org_id := "osc" |}.

(** After the temporary grant has expired. *)
Definition demo_R : Resolver := db_resolver demo_db 100.

Definition demo_ctx : Ctx :=
  mkCtx true "192.0.2.7" "curl" "wire" 1000 (λ n, Ok ("evt_" +:+ pretty n)) (λ _ _, (false, false)).

Definition demo_tok : TxToken := Some 7.

(** A human session with two factor classes, and one with a password only. *)
Definition human (p : PrincipalID) : Identity :=
  mkIdentity p "" zeroScope ClassHuman "ses_1" "" ["password"; "totp"].

Definition password_only (p : PrincipalID) : Identity :=
  mkIdentity p "" zeroScope ClassHuman "ses_2" "" ["password"].

Definition automation (p : PrincipalID) : Identity :=
  mkIdentity p "" zeroScope ClassAutomation "" "cred_1" [].

(** A developer credential of alice, confined to one environment. *)
Definition developer : Identity :=
  mkIdentity "dev" "alice" (mkScope "o1" "p1" "e1") ClassDeveloper "" "cred_2" [].

Definition scope_e1 : Scope := mkScope "o1" "p1" "e1".

Definition demo_run (caller : Identity) (op : Operation) (scope : Scope) : result error proof * AzState :=
  Authorize registry demo_ctx demo_R demo_tok caller op scope NewTxAuthorizer.

Definition demo_run_key (caller : Identity) (op : Operation) (scope : Scope) (key : KeyTarget)
  : result error proof * AzState :=
  AuthorizeKey registry demo_ctx demo_R demo_tok caller op scope key NewTxAuthorizer.
