(* ===== verification/AuthorizerProps.v ===== *)
(** * The guarantees of the chokepoint

    The theorems the rest of the system relies on when it accepts a proof:
    what minting one requires (authority, isolation between tenants, the
    assurance floor, the machine, developer and self-configuration conjuncts)
    and what a refusal reveals. Each is stated over an arbitrary resolver (with
    [ResolverLaws] where the resolver's contract matters) and the shipped
    operation registry. *)

From stdpp Require Import prelude gmap strings list.
From S2P Require Import Prelude StringFacts Domain Rule Containment FreeText Resolver Tables.
From S2P Require Import Registry OperationTable RegistryFacts Evaluate Delegation Authorizer.
From S2P Require Import AuthorizerAudit AuthorizerSound Demo.

(** ** The three doors *)

Section doors.
Context (ctx : Ctx) (R : Resolver) (tok : TxToken).

(** Some entry point mints [p]: the plain one, the key-aware one or the
    rule-aware one. *)
Inductive mints (caller : Identity) (op : Operation) (scope : Scope) (p : proof) : Prop :=
| mint_plain s s' :
    Authorize registry ctx R tok caller op scope s = (Ok p, s') → mints caller op scope p
| mint_key key s s' :
    AuthorizeKey registry ctx R tok caller op scope key s = (Ok p, s') → mints caller op scope p
| mint_rule rule s s' :
    AuthorizeRule registry ctx R tok caller op scope rule s = (Ok p, s') → mints caller op scope p.

(** What the instance path establishes. *)
Record instance_ok (caller : Identity) (op : Operation) (spec : authorizationSpec)
    (p : proof) (grants : list Grant) : Prop := {
  io_shape : pf_kind p = kindInstance ∧ pf_op p = op ∧ pf_chain p = zeroScope ∧ pf_tok p = tok;
  io_grants : (Grants R (Principal caller)).1 = Ok grants;
  io_formula : evaluate (as_formula spec) zeroScope grants = true;
  io_human : selfConfigInstanceOp op = true → PClass caller = "" ∨ PClass caller = ClassHuman;
  io_assurance : SessionID caller ≠ "" → FormulaDemandsMFA registry op = true →
    AdequateAssurance (Assurance caller) = true }.

Lemma authorizeInstance_sound caller op spec s p s' :
  authorizeInstance registry ctx R tok caller op spec s = (Ok p, s') →
  ∃ grants, instance_ok caller op spec p grants.
Proof.
  unfold authorizeInstance.
  destruct (selfConfigInstanceOp op && _ && _) eqn:Hsc; [by intros ?%deny_not_Ok|].
  intros (grants & s1 & Hg & H)%bind_Ok. rewrite rGrants_run in Hg. injection Hg as Hg <-.
  destruct (negb _) eqn:Hf; [by apply deny_not_Ok in H|]. apply negb_false_iff in Hf.
  destruct (assuranceInadequate _ _ _) eqn:Ha; [by apply deny_not_Ok in H|].
  injection H as <- _. exists grants. split; simpl; try done.
  - intros Hop. rewrite Hop in Hsc. simpl in Hsc. apply andb_false_iff in Hsc. bsimp.
    destruct Hsc as [Hsc|Hsc]; apply dec_stable in Hsc; auto.
  - intros Hs Hm. unfold assuranceInadequate in Ha. rewrite bool_decide_true, Hm in Ha by done.
    by apply negb_false_iff in Ha.
Qed.

(** Every minted proof comes from one of the two paths, for a registered
    operation. *)
Definition mint_certified (caller : Identity) (op : Operation) (scope : Scope) (p : proof)
    : Prop :=
  ∃ spec, lookupSpec registry op = Some spec ∧
  ((as_class spec = ClassTenant ∧ ∃ key targetRule grants bound,
      tenant_ok registry R tok caller op spec scope key targetRule p grants bound) ∨
   (as_class spec = ClassInstance ∧ scope = zeroScope ∧
    (PClass caller = ClassDeveloper → op = OpDeliveryFetch) ∧ ∃ grants,
      instance_ok caller op spec p grants)).

Lemma Authorize_certified caller op scope s p s' :
  Authorize registry ctx R tok caller op scope s = (Ok p, s') → mint_certified caller op scope p.
Proof.
  unfold Authorize. destruct (lookupSpec registry op) as [spec|] eqn:Hop; [|done].
  intros (u & s1 & _ & H)%bind_Ok. exists spec. split; [done|]. revert H.
  destruct (bool_decide (PClass caller = ClassDeveloper) && _) eqn:Hd; [by intros ?%deny_not_Ok|].
  destruct (bool_decide (Principal caller = "")); [done|].
  destruct (_ && _ && _); [by intros ?%deny_not_Ok|].
  destruct (as_class spec) eqn:Hc; try done.
  - intros (grants & bound & H)%authorizeTenant_sound. left. eauto 10.
  - destruct (bool_decide_reflect (scope ≠ zeroScope)) as [?|Hz]; [done|]. apply dec_stable in Hz.
    intros (grants & H)%authorizeInstance_sound. right. split_and!; [done|done| |by eexists].
    intros Hdev. rewrite bool_decide_true in Hd by done. simpl in Hd.
    apply orb_false_iff in Hd as [Hd _]. bsimp. by apply dec_stable.
Qed.

Lemma mints_certified caller op scope p :
  mints caller op scope p → mint_certified caller op scope p.
Proof.
  intros [s s' H|key s s' H|rule s s' H]; [by eapply Authorize_certified|..]; revert H.
  - unfold AuthorizeKey. destruct key; try done;
    (destruct (lookupSpec registry op) as [spec|] eqn:Hop; [|done];
     case_bool_decide as Hc; [done|];
     destruct (bool_decide (Principal caller = "")); [done|];
     destruct (bool_decide (PClass caller = ClassInstanceConn)); [apply Authorize_certified|];
     intros (grants & bound & H)%authorizeTenant_sound; exists spec; split; [done|];
     left; eauto 10).
  - unfold AuthorizeRule. destruct (negb (Contains _ _)) eqn:Hops; [done|].
    destruct (_ || _ || _); [done|].
    destruct (bool_decide (PClass caller = ClassInstanceConn)); [apply Authorize_certified|].
    destruct (lookupSpec registry op) as [spec|] eqn:Hop; [|done].
    intros (grants & bound & H)%authorizeTenant_sound. exists spec. split; [done|].
    left. split; [|eauto 10]. apply negb_false_iff, Contains_true in Hops.
    by eapply shipped_rule_ops.
Qed.

(** A tenant operation's proof is certified by the tenant path. *)
Lemma mints_tenant caller op scope spec p :
  mints caller op scope p → lookupSpec registry op = Some spec → as_class spec = ClassTenant →
  ∃ key targetRule grants bound,
    tenant_ok registry R tok caller op spec scope key targetRule p grants bound.
Proof.
  intros (spec' & Hop & H)%mints_certified Hop' Hc. rewrite Hop' in Hop. injection Hop as <-.
  destruct H as [[_ H]|[Hc' _]]; [done|congruence].
Qed.
End doors.

(** ** Delegation and foreign authority *)

Lemma forallb_nonempty_false {A} (f : A → bool) l :
  (∀ x, x ∈ l → f x = false) → Nat.ltb 0 (length l) && forallb f l = false.
Proof.
  destruct l as [|x l]; intros H; [done|]. simpl. by rewrite (H x) by set_solver.
Qed.

Lemma rules_loop_foreign resolve chain c target rules :
  foreign_rules (Org chain) rules →
  rules_loop resolve chain c target [] ∅ rules = Ok false.
Proof.
  induction rules as [|r rules IH]; intros H; simpl; [done|].
  rewrite (bool_decide_true (Rule_Org r ≠ Org chain)) by (apply H; set_solver). simpl.
  apply IH. intros r' Hr'. apply H. set_solver.
Qed.

Lemma selector_held_foreign resolve chain grants rules c target :
  foreign_grants (Org chain) grants → foreign_rules (Org chain) rules →
  ruleSelectorHeldResolving resolve chain grants rules c target = Ok false.
Proof.
  intros Hg Hr. unfold ruleSelectorHeldResolving.
  rewrite (evaluate_foreign [_]) by done.
  rewrite <-andb_assoc, forallb_nonempty_false, andb_false_r.
  2:{ intros e _. by apply evaluate_foreign. }
  assert (omap (grant_selector chain c) grants = []) as ->; [|by apply rules_loop_foreign].
  apply omap_all_None. intros g Hin. unfold grant_selector. case_bool_decide; [done|].
  rewrite evaluate_foreign; [done|done|]. intros g' ->%list_elem_of_singleton. by apply Hg.
Qed.

Lemma delegation_foreign resolve f chain grants rules target :
  f ≠ [] → foreign_grants (Org chain) grants → foreign_rules (Org chain) rules →
  ruleDelegationHeld resolve f chain grants rules target = Ok false.
Proof.
  intros Hne Hg Hr. unfold ruleDelegationHeld. destruct f as [|a f]; [done|].
  cbn [ruleDelegationHeld_atoms]. rewrite evaluate_foreign by done.
  case_bool_decide; [done|]. by rewrite selector_held_foreign.
Qed.

(** ** Authority and isolation *)

(** C1 What a tenant proof certifies. When any entry point mints a proof for a
    tenant operation, the proof is bound to that operation, to the attempt's
    token and to the addressed chain, which exists in the snapshot at the depth
    the registry declares; and the caller's own policy in that snapshot
    satisfies the registered formula: its grants alone, its grants and rules,
    the rules' metadata projection on a navigation operation, the complete
    selector on a delegation, or the delegating human's whole-environment
    authority on a developer credential or its minting. *)
Theorem tenant_proof_certifies ctx R tok (laws : ResolverLaws R) caller op scope spec p :
  mints ctx R tok caller op scope p →
  lookupSpec registry op = Some spec → as_class spec = ClassTenant →
  pf_kind p = kindTenant ∧ pf_op p = op ∧ pf_tok p = tok ∧ pf_chain p = scope ∧
  ResolveChain R scope = Ok scope ∧ ScopeLevel scope = Ok (as_level spec) ∧
  ∃ key targetRule grants bound,
    (Grants R (grant_principal caller)).1 = Ok grants ∧
    tenant_authority R caller op spec scope key targetRule grants bound (pf_navigation p).
Proof.
  intros Hm Hop Hc. destruct (mints_tenant _ _ _ _ _ _ _ _ Hm Hop Hc)
    as (key & targetRule & grants & bound & H).
  pose proof (to_chain _ _ _ _ _ _ _ _ _ _ _ _ H) as Hchain.
  assert (pf_chain p = scope) as Heq by (by apply chain_exact in Hchain).
  pose proof (to_authority _ _ _ _ _ _ _ _ _ _ _ _ H) as Hauth. rewrite Heq in Hchain, Hauth.
  destruct (to_shape _ _ _ _ _ _ _ _ _ _ _ _ H) as (? & ? & ? & _).
  split_and!; try done; [by eapply to_level|].
  exists key, targetRule, grants, bound. split; [by eapply to_grants|done].
Qed.

Lemma tenant_proof_certifies_witness :
  (∃ p s', Authorize registry demo_ctx demo_R demo_tok (human "alice") OpValueReveal scope_e1
             NewTxAuthorizer = (Ok p, s') ∧ pf_chain p = scope_e1) ∧
  ∃ spec, lookupSpec registry OpValueReveal = Some spec.
Proof.
  assert (∃ p s', Authorize registry demo_ctx demo_R demo_tok (human "alice") OpValueReveal
    scope_e1 NewTxAuthorizer = (Ok p, s')) as (p & s' & H).
  { rewrite registry_operationTable. vm_compute. eauto. }
  assert (∃ spec, lookupSpec registry OpValueReveal = Some spec ∧ as_class spec = ClassTenant)
    as (spec & Hop & Hc).
  { rewrite registry_operationTable. vm_compute. eauto. }
  split; [|eauto]. exists p, s'. split; [done|].
  destruct (tenant_proof_certifies demo_ctx demo_R demo_tok _ (human "alice") OpValueReveal
    scope_e1 spec p) as (_ & _ & _ & Hchain & _); [by eapply mint_plain|done|done|done].
Defined.

(** C2 Tenant isolation. A caller whose grants are all tenant grants of other
    organisations and whose rules all belong to other organisations obtains no
    proof for any tenant operation of this organisation, through any entry
    point, whatever scope, key or rule it names. *)
Theorem tenant_isolation ctx R tok caller op scope spec p (laws : ResolverLaws R) :
  lookupSpec registry op = Some spec → as_class spec = ClassTenant →
  (∀ grants, (Grants R (grant_principal caller)).1 = Ok grants →
     foreign_grants (Org scope) grants) →
  (∀ rules, Rules R (Principal caller) = Ok rules → foreign_rules (Org scope) rules) →
  (∀ rules, Rules R (grant_principal caller) = Ok rules → foreign_rules (Org scope) rules) →
  ¬ mints ctx R tok caller op scope p.
Proof.
  intros Hop Hc Hfg Hfr Hfr' Hm. pose proof (shipped_formula _ _ Hop) as Hne.
  destruct (mints_tenant _ _ _ _ _ _ _ _ Hm Hop Hc) as (key & targetRule & grants & bound & H).
  pose proof (chain_exact _ _ (to_chain _ _ _ _ _ _ _ _ _ _ _ _ H)) as Heq.
  specialize (Hfg _ (to_grants _ _ _ _ _ _ _ _ _ _ _ _ H)).
  pose proof (to_authority _ _ _ _ _ _ _ _ _ _ _ _ H) as Hauth. rewrite Heq in Hauth.
  destruct Hauth as [_ _ He|rules _ Hr He|rules b _ _ Hr _ He|rules b _ _ Hr _ He
                    |rules rule b _ _ Hr He].
  - by rewrite evaluate_foreign in He.
  - unfold developerEnvironmentAuthority in He. by rewrite evaluateWithRules_foreign in He; auto.
  - by rewrite evaluateWithRules_foreign in He; auto.
  - by rewrite navigation_foreign in He; auto.
  - by rewrite delegation_foreign in He; auto.
Qed.

(** Walk a membership hypothesis in a closed list. *)
Ltac in_list H :=
  repeat (apply elem_of_cons in H as [->|H]; [vm_compute; try (split; discriminate); discriminate|]);
  by apply elem_of_nil in H.

Lemma tenant_isolation_witness :
  ¬ ∃ p, mints demo_ctx demo_R demo_tok (human "mallory") OpValueReveal scope_e1 p.
Proof.
  intros [p Hm].
  assert (∃ spec, lookupSpec registry OpValueReveal = Some spec ∧ as_class spec = ClassTenant)
    as (spec & Hop & Hc).
  { rewrite registry_operationTable. vm_compute. eauto. }
  refine (tenant_isolation demo_ctx demo_R demo_tok (human "mallory") OpValueReveal scope_e1
    spec p _ Hop Hc _ _ _ Hm).
  - intros grants H. vm_compute in H. injection H as <-. intros g Hg. in_list Hg.
  - intros rules H. vm_compute in H. injection H as <-. intros g Hg. in_list Hg.
  - intros rules H. vm_compute in H. injection H as <-. intros g Hg. in_list Hg.
Defined.

(** ** Unauthorized is nonexistent *)

(** The reads a key target costs, the same whether it resolves or not. *)
Definition key_queries (k : KeyTarget) : list Query :=
  match k with
  | KeyZero | KeyToCreate _ => []
  | KeyByID _ | KeyByName _ | KeyMovedTo _ _ => [QKey]
  | KeyPendingVersion _ => [QPending]
  | KeyApprovalRequest _ => [QApproval]
  end.

Lemma resolveKeyTarget_trace R chain k p s :
  trace (resolveKeyTarget R chain k p s).2 = trace s ++ key_queries k.
Proof.
  destruct k; simpl; rewrite ?app_nil_r; try done.
  rewrite bind_run, query_run. by destruct (ResolveRuleKey _ _ _ _ _).
Qed.

Lemma deny_run {A} ctx principal op spec res chain claimed e s :
  ∃ s', @deny ctx A principal op spec res chain claimed e s = (Err e, s') ∧ trace s' = trace s.
Proof.
  unfold deny, captureDenial. rewrite bind_run.
  destruct (NewEventID ctx (minted s)); [destruct (denial_home res chain)|]; by eexists.
Qed.

(** The reads of a refusal, as a function of the request alone. *)
Definition refusal_queries (caller : Identity) (op : Operation) (spec : authorizationSpec)
    (key : option KeyTarget) : list Query :=
  [QChain; QGrants] ++
  (if rulesApply caller && (ruleSatisfiable (as_formula spec) || ruleNavigationOperation op)
   then QRules :: match key with Some k => key_queries k | None => [] end
   else []).

(** The part of a snapshot's answer that is a fault rather than an outcome. *)
Definition answers {A} (r : result error A) : Prop := (∃ a, r = Ok a) ∨ r = Err ErrNotFound.

Lemma missing_refusal ctx R tok caller op spec scope key s :
  ScopeLevel scope = Ok (as_level spec) → (emptyCellOp op = true → is_Some key) →
  ResolveChain R scope = Err ErrNotFound →
  (∃ grants, (Grants R (Principal caller)).1 = Ok grants) →
  (∃ rules, Rules R (Principal caller) = Ok rules) →
  (∀ k s, key = Some k → answers (resolveKeyTarget R zeroScope k (Principal caller) s).1) →
  ∃ s', authorizeTenant registry ctx R tok caller op spec scope key None s = (Err ErrNotFound, s')
    ∧ trace s' = trace s ++ refusal_queries caller op spec key.
Proof.
  intros Hl Hk Hchain [grants Hg] [rules Hr] Hkey. unfold authorizeTenant.
  rewrite bind_run. unfold lift. rewrite Hl. rewrite bool_decide_false by tauto.
  assert (emptyCellOp op && bool_decide (key = None) = false) as ->.
  { destruct (emptyCellOp op); [|done]. destruct Hk as [k ->]; [done|]. done. }
  rewrite bind_run, attempt_run. unfold rResolveChain. rewrite query_run, Hchain. simpl.
  assert (∃ s1, missingScopeRefusalWork R caller op spec key None (log QChain s) = (Ok tt, s1) ∧
    trace s1 = trace s ++ refusal_queries caller op spec key) as (s1 & Hw & Ht).
  { unfold missingScopeRefusalWork, refusal_queries. rewrite bind_run, rGrants_run, Hg.
    rewrite (bool_decide_true (None = None)), andb_true_r by done.
    rewrite <-negb_orb, <-negb_andb.
    destruct (rulesApply caller && _); simpl.
    2:{ eexists. split; [done|]. simpl. by rewrite <-app_assoc. }
    rewrite bind_run. unfold rRules. rewrite query_run, Hr.
    destruct key as [k|]; [|eexists; split; [done|]; simpl; by rewrite <-!app_assoc].
    rewrite bind_run, attempt_run.
    match goal with |- context [resolveKeyTarget R zeroScope k _ ?st] => set (s0 := st) end.
    pose proof (resolveKeyTarget_trace R zeroScope k (Principal caller) s0) as Htr.
    destruct (Hkey k s0 eq_refl) as [[a Ha]|Ha]; rewrite Ha; simpl;
      (eexists; split; [done|]); rewrite Htr; subst s0; simpl; by rewrite <-!app_assoc. }
  rewrite bind_run, Hw.
  destruct (@deny_run proof ctx (Principal caller) op spec resolutionUnresolvable zeroScope scope
    ErrNotFound s1) as (s2 & -> & Ht2). exists s2. split; [done|congruence].
Qed.

(** A rule consultation that finds nothing, for any key target. *)
Lemma rule_stage_denied ctx R caller op spec chain key s grants rules :
  Rules R (Principal caller) = Ok rules →
  (∀ k s, key = Some k → answers (resolveKeyTarget R chain k (Principal caller) s).1) →
  (∀ bound, evaluateWithRules (as_formula spec) chain grants rules bound = false) →
  ruleNavigationReach op chain rules grants = [] →
  ∃ r s', rule_stage ctx R caller op spec chain grants key None s = (r, s') ∧
    (r = Err ErrNotFound ∨ ∃ bound, r = Ok (false, bound, [])) ∧
    trace s' = trace s ++ QRules :: match key with Some k => key_queries k | None => [] end.
Proof.
  intros Hr Hkey Her Hnav. unfold rule_stage. rewrite bind_run. unfold rRules.
  rewrite query_run, Hr. destruct key as [k|].
  2:{ rewrite bind_run. unfold ret at 1. rewrite Her, Hnav. eexists _, _. split; [done|].
      split; [eauto|done]. }
  rewrite !bind_run. unfold or_deny. rewrite bind_run, attempt_run.
  pose proof (resolveKeyTarget_trace R chain k (Principal caller) (log QRules s)) as Htr.
  destruct (resolveKeyTarget R chain k (Principal caller) (log QRules s)) as [r s1] eqn:Ek.
  specialize (Hkey k (log QRules s) eq_refl). rewrite Ek in Hkey. simpl in *.
  rewrite <-app_assoc in Htr. destruct Hkey as [[a ->]| ->].
  - unfold lift, ret at 1. rewrite Her, Hnav. eexists _, _. split; [done|]. split; [eauto|done].
  - destruct (@deny_run RuleKey ctx (Principal caller) op spec resolutionResolvable chain zeroScope
      ErrNotFound s1) as (s2 & -> & Ht). eexists _, _. split; [done|]. split; [eauto|].
    by rewrite Ht.
Qed.

Lemma denied_refusal ctx R tok caller op spec scope chain key s grants rules :
  PClass caller ≠ ClassDeveloper → op ≠ OpDeveloperCredentialMint →
  ScopeLevel scope = Ok (as_level spec) → (emptyCellOp op = true → is_Some key) →
  ResolveChain R scope = Ok chain →
  (Grants R (Principal caller)).1 = Ok grants → Rules R (Principal caller) = Ok rules →
  (∀ k s, key = Some k → answers (resolveKeyTarget R chain k (Principal caller) s).1) →
  evaluate (as_formula spec) chain grants = false →
  (∀ bound, evaluateWithRules (as_formula spec) chain grants rules bound = false) →
  ruleNavigationReach op chain rules grants = [] →
  ∃ s', authorizeTenant registry ctx R tok caller op spec scope key None s = (Err ErrNotFound, s')
    ∧ trace s' = trace s ++ refusal_queries caller op spec key.
Proof.
  intros Hd Hmint Hl Hk Hchain Hg Hr Hkey He Her Hnav. unfold authorizeTenant.
  rewrite bind_run. unfold lift. rewrite Hl. rewrite bool_decide_false by tauto.
  assert (emptyCellOp op && bool_decide (key = None) = false) as ->.
  { destruct (emptyCellOp op); [|done]. destruct Hk as [k ->]; [done|]. done. }
  rewrite bind_run, attempt_run. unfold rResolveChain. rewrite query_run, Hchain. simpl.
  unfold resolved_stages, developer_stage, grant_stage, consults_rules, refusal_queries.
  rewrite (bool_decide_false (PClass caller = ClassDeveloper)) by done.
  rewrite (bool_decide_false (op = OpDeveloperCredentialMint)) by done. simpl.
  rewrite bind_run. unfold ret at 1. rewrite bind_run, rGrants_run, Hg.
  set (s0 := set_selfConfigOrgID (Grants R (Principal caller)).2 (log QGrants (log QChain s))).
  rewrite bind_run. unfold ret at 1. rewrite He, orb_false_r. simpl. rewrite andb_true_r.
  destruct (rulesApply caller && _); simpl.
  - destruct (rule_stage_denied ctx R caller op spec chain key s0 grants rules)
      as (r & s1 & Hrs & Hcase & Ht); [done..|].
    rewrite bind_run, Hrs. replace (trace s ++ _) with (trace s1);
      [|rewrite Ht; subst s0; simpl; by rewrite <-!app_assoc].
    destruct Hcase as [->|[bound ->]]; [by eexists|]. simpl. apply deny_run.
  - rewrite bind_run. unfold ret at 1. simpl.
    replace (trace s ++ _) with (trace s0); [apply deny_run|].
    subst s0. simpl. by rewrite <-!app_assoc.
Qed.

(** C6 Unauthorized is nonexistent. Take one request, without a rule target and with
    a key where the operation needs one, of a caller that is not a developer
    credential for an operation other than minting one, and two snapshots whose
    lookups answer: one in which the addressed chain does not exist and one in
    which it exists but neither the caller's grants nor its rules (nor their
    navigation projection) satisfy the formula. Both attempts answer the same
    [ErrNotFound] and issue the same sequence of resolution queries. A request
    whose formula holds and that a later conjunct refuses (reveal, protected
    delete, assurance) is not covered. *)
Theorem unauthorized_is_nonexistent ctx R1 R2 tok caller op spec scope chain key s grants rules :
  PClass caller ≠ ClassDeveloper → op ≠ OpDeveloperCredentialMint →
  ScopeLevel scope = Ok (as_level spec) → (emptyCellOp op = true → is_Some key) →
  (* the chain is missing *)
  ResolveChain R1 scope = Err ErrNotFound →
  (∃ grants1, (Grants R1 (Principal caller)).1 = Ok grants1) →
  (∃ rules1, Rules R1 (Principal caller) = Ok rules1) →
  (∀ k s, key = Some k → answers (resolveKeyTarget R1 zeroScope k (Principal caller) s).1) →
  (* the chain exists and the caller may not *)
  ResolveChain R2 scope = Ok chain →
  (Grants R2 (Principal caller)).1 = Ok grants → Rules R2 (Principal caller) = Ok rules →
  (∀ k s, key = Some k → answers (resolveKeyTarget R2 chain k (Principal caller) s).1) →
  evaluate (as_formula spec) chain grants = false →
  (∀ bound, evaluateWithRules (as_formula spec) chain grants rules bound = false) →
  ruleNavigationReach op chain rules grants = [] →
  ∃ s1 s2,
    authorizeTenant registry ctx R1 tok caller op spec scope key None s = (Err ErrNotFound, s1) ∧
    authorizeTenant registry ctx R2 tok caller op spec scope key None s = (Err ErrNotFound, s2) ∧
    trace s1 = trace s2.
Proof.
  intros Hd Hm Hl Hk Hc1 Hg1 Hr1 Hk1 Hc2 Hg2 Hr2 Hk2 He Her Hnav.
  destruct (missing_refusal ctx R1 tok caller op spec scope key s) as (s1 & H1 & T1); [done..|].
  destruct (denied_refusal ctx R2 tok caller op spec scope chain key s grants rules)
    as (s2 & H2 & T2); [done..|]. exists s1, s2. split_and!; [done..|congruence].
Qed.

(** The same database before the environment was created. *)
Definition demo_db_missing : DB :=
  mkDB (orgs demo_db) (projects demo_db) [] (principals demo_db) (db_grants demo_db)
    (access_grants demo_db) (db_rules demo_db) (rule_items demo_db) (db_keys demo_db)
    (pending_changes demo_db) (approval_requests demo_db) (value_entries demo_db)
    (restore_epoch demo_db) (self_config_org_id demo_db).

Lemma unauthorized_is_nonexistent_witness :
  ∃ spec, lookupSpec registry OpValueReveal = Some spec ∧ ∃ s1 s2,
    authorizeTenant registry demo_ctx (db_resolver demo_db_missing 100) demo_tok (human "mallory")
      OpValueReveal spec scope_e1 (Some (KeyByID "k1")) None NewTxAuthorizer
      = (Err ErrNotFound, s1) ∧
    authorizeTenant registry demo_ctx demo_R demo_tok (human "mallory")
      OpValueReveal spec scope_e1 (Some (KeyByID "k1")) None NewTxAuthorizer
      = (Err ErrNotFound, s2) ∧ trace s1 = trace s2.
Proof.
  eexists. split; [rewrite registry_operationTable; vm_compute; reflexivity|].
  assert (∃ grants rules, (Grants demo_R "mallory").1 = Ok grants ∧ Rules demo_R "mallory" = Ok rules ∧
    foreign_grants "o1" grants ∧ foreign_rules "o1" rules) as (grants & rules & Hg & Hr & Fg & Fr).
  { eexists _, _. split; [vm_compute; reflexivity|]. split; [vm_compute; reflexivity|].
    split; intros g Hin; in_list Hin. }
  refine (unauthorized_is_nonexistent demo_ctx (db_resolver demo_db_missing 100) demo_R demo_tok
    (human "mallory") OpValueReveal _ scope_e1 scope_e1 (Some (KeyByID "k1")) NewTxAuthorizer
    grants rules _ _ _ _ _ _ _ _ _ Hg Hr _ _ _ _).
  - by vm_compute.
  - by vm_compute.
  - by vm_compute.
  - by eexists.
  - by vm_compute.
  - eexists. by vm_compute.
  - eexists. by vm_compute.
  - intros k s [= <-]. right. by vm_compute.
  - by vm_compute.
  - intros k s [= <-]. left. eexists. by vm_compute.
  - by apply evaluate_foreign.
  - intros bound. by apply evaluateWithRules_foreign.
  - by apply navigation_foreign.
Defined.

(** ** The record of a refusal *)

Lemma Authorize_refusals_recorded_witness :
  ∃ s', demo_run (human "mallory") OpValueReveal scope_e1 = (Err ErrNotFound, s') ∧
    recorded NewTxAuthorizer s'.
Proof.
  assert (∃ s', demo_run (human "mallory") OpValueReveal scope_e1 = (Err ErrNotFound, s'))
    as [s' H].
  { unfold demo_run. rewrite registry_operationTable. vm_compute. by eexists. }
  exists s'. split; [done|].
  destruct (Authorize_refusals_recorded demo_ctx demo_R demo_tok (db_resolver_laws _ _)
    (human "mallory") OpValueReveal scope_e1 NewTxAuthorizer _ s' H) as [Hr _].
  apply Hr. by left.
Defined.
