(* ===== verification/AuthorizerConjuncts.v ===== *)
(** * Conjuncts beyond the formula

    The session-assurance floor, the machine and developer confinements, the
    protected profile of the instance's own configuration and the empty-cell
    guard, each read off the certificate of a minted proof. *)

From stdpp Require Import prelude gmap strings list.
From S2P Require Import Prelude StringFacts Domain Rule Containment FreeText Resolver Tables.
From S2P Require Import Registry OperationTable RegistryFacts Evaluate Delegation Authorizer.
From S2P Require Import AuthorizerAudit AuthorizerSound Demo AuthorizerProps.

(** ** Session assurance *)

(** The MFA-mandatory floor. No entry point mints a proof for an operation
    whose formula names an MFA-mandatory capability to a session that did not
    present a WebAuthn assertion or two distinct factor classes; callers without
    a session (local host authority, machines) are outside the rule. *)
Theorem mfa_floor ctx R tok caller op scope p spec atom :
  mints ctx R tok caller op scope p →
  lookupSpec registry op = Some spec → atom ∈ as_formula spec → Cap atom ∈ MFAMandatory →
  SessionID caller ≠ "" →
  "webauthn" ∈ Assurance caller ∨
  ∃ f g, f ∈ Assurance caller ∧ g ∈ Assurance caller ∧ f ≠ g.
Proof.
  intros Hm Hop Hatom Hcap Hs. apply AdequateAssurance_true.
  assert (FormulaDemandsMFA registry op = true) as Hmfa.
  { unfold FormulaDemandsMFA. rewrite Hop. apply existsb_true. exists atom. split; [done|].
    by apply bool_decide_eq_true. }
  apply mints_certified in Hm as (spec' & _ & [(_ & key & rule & grants & bound & H)
                                              |(_ & _ & _ & grants & H)]).
  - eapply to_assurance; eauto.
  - eapply io_assurance; eauto.
Qed.

Lemma mfa_floor_witness :
  "webauthn" ∈ Assurance (human "alice") ∨
  ∃ f g, f ∈ Assurance (human "alice") ∧ g ∈ Assurance (human "alice") ∧ f ≠ g.
Proof.
  assert (∃ p s', Authorize registry demo_ctx demo_R demo_tok (human "alice") OpValueReveal
    scope_e1 NewTxAuthorizer = (Ok p, s')) as (p & s' & H).
  { rewrite registry_operationTable. vm_compute. eauto. }
  eapply (mfa_floor demo_ctx demo_R demo_tok (human "alice") OpValueReveal scope_e1 p
    (mkAuthorizationSpec ClassTenant LevelEnv [mkAtom CapRead LevelEnv; mkAtom CapReveal LevelEnv])
    (mkAtom CapReveal LevelEnv)).
  - by eapply mint_plain.
  - rewrite registry_operationTable. by vm_compute.
  - set_solver.
  - by_compute.
  - by vm_compute.
Defined.

(** ** Machines *)

Lemma grants_loop_mark bound sc rows out :
  rows ≠ [] → (grants_loop bound sc rows out).2 = bound.
Proof.
  revert sc out. induction rows as [|row rows IH]; intros sc out Hne; [done|]. simpl.
  destruct (grantFrom row); [|done]. destruct rows as [|row' rows]; [done|]. by apply IH.
Qed.

(** C31 Machine confinement. A proof of any operation but the minting of developer
    credentials, minted for a workload or automation account, rests on its grants
    alone (no rule and no navigation projection takes part); if the formula
    discloses plaintext, the project's machine-reveal opt-in is on in the same
    snapshot; it never deletes a protected environment; and over the tables its
    scope never lies in the organisation the instance's own configuration is
    bound to. *)
Theorem machine_confined ctx R tok (laws : ResolverLaws R) caller op scope spec p :
  mints ctx R tok caller op scope p →
  lookupSpec registry op = Some spec → as_class spec = ClassTenant →
  IsServiceAccountKind (PClass caller) = true → op ≠ OpDeveloperCredentialMint →
  (∃ grants, (Grants R (Principal caller)).1 = Ok grants ∧
     evaluate (as_formula spec) scope grants = true) ∧
  pf_navigation p = [] ∧ pf_selfConfig p = false ∧
  (∀ db now, R = db_resolver db now → self_config_org_id db ≠ "" → Org scope ≠ self_config_org_id db) ∧
  (Project scope ≠ "" → demandsReveal (as_formula spec) = true →
   ∃ st, ProjectMachineReveal R (Project scope) = Ok st ∧ Enabled st = true) ∧
  (op = OpEnvDelete →
   ∃ st, EnvironmentReauthSettings R (Env scope) = Ok st ∧ Protected st = false).
Proof.
  intros Hm Hop Hc Hk Hmint.
  destruct (mints_tenant _ _ _ _ _ _ _ _ Hm Hop Hc) as (key & rule & grants & bound & H).
  pose proof (chain_exact _ _ (to_chain _ _ _ _ _ _ _ _ _ _ _ _ H)) as Heq.
  assert (PClass caller ≠ ClassDeveloper ∧ rulesApply caller = false ∧
          ¬ (PClass caller = "" ∨ PClass caller = ClassHuman)) as (Hnd & Hra & Hnh).
  { unfold IsServiceAccountKind in Hk. unfold rulesApply. bsimp.
    destruct Hk as [->| ->]; split_and!; try done; by intros [?|?]. }
  assert (grant_principal caller = Principal caller) as Hgp.
  { unfold grant_principal. by rewrite bool_decide_false. }
  pose proof (to_grants _ _ _ _ _ _ _ _ _ _ _ _ H) as Hg. rewrite Hgp in Hg.
  pose proof (to_authority _ _ _ _ _ _ _ _ _ _ _ _ H) as Hauth.
  assert (evaluate (as_formula spec) scope grants = true ∧ pf_navigation p = []) as [He Hn].
  { rewrite <-Heq. by inversion Hauth; subst; [|naive_solver|congruence..]. }
  assert (pf_selfConfig p = false) as Hsc.
  { destruct (pf_selfConfig p) eqn:Hsc; [|done].
    destruct Hnh. by apply (to_profile _ _ _ _ _ _ _ _ _ _ _ _ H). }
  split_and!; [by exists grants|done|done| | |].
  - intros db now -> Hne Horg. rewrite (to_mark _ _ _ _ _ _ _ _ _ _ _ _ H), Hgp, Heq in Hsc.
    unfold self_config_marked in Hsc. cbn [Grants db_resolver] in Hsc, Hg. unfold db_Grants in Hsc, Hg.
    rewrite grants_loop_mark, !bool_decide_true in Hsc; [done|done|done|]. intros E. rewrite E in Hg.
    injection Hg as <-. destruct (as_formula spec) as [|atom formula] eqn:Ef; [by apply (shipped_formula op spec)|].
    rewrite evaluate_true in He. destruct (He atom) as (g & Hg & _); [by left|]. by apply elem_of_nil in Hg.
  - rewrite <-Heq. by apply (to_reveal _ _ _ _ _ _ _ _ _ _ _ _ H).
  - rewrite <-Heq. by apply (to_delete _ _ _ _ _ _ _ _ _ _ _ _ H).
Qed.

Lemma machine_confined_witness :
  ∃ p s', Authorize registry demo_ctx demo_R demo_tok (automation "bot") OpValueReveal scope_e1
    NewTxAuthorizer = (Ok p, s') ∧ pf_navigation p = [] ∧ pf_selfConfig p = false ∧
  ∃ st, ProjectMachineReveal demo_R "p1" = Ok st ∧ Enabled st = true.
Proof.
  assert (∃ p s', Authorize registry demo_ctx demo_R demo_tok (automation "bot") OpValueReveal
    scope_e1 NewTxAuthorizer = (Ok p, s')) as (p & s' & H).
  { rewrite registry_operationTable. vm_compute. eauto. }
  exists p, s'. split; [done|].
  destruct (machine_confined demo_ctx demo_R demo_tok _ (automation "bot") OpValueReveal scope_e1
    (mkAuthorizationSpec ClassTenant LevelEnv [mkAtom CapRead LevelEnv; mkAtom CapReveal LevelEnv])
    p) as (_ & Hn & Hs & _ & Hr & _).
  - by eapply mint_plain.
  - rewrite registry_operationTable. by vm_compute.
  - done.
  - by vm_compute.
  - by vm_compute.
  - split_and!; [done..|]. by apply Hr.
Defined.

(** ** Developer credentials *)

Lemma shipped_delivery_tenant spec :
  lookupSpec registry OpDeliveryFetch = Some spec → as_class spec = ClassTenant.
Proof. rewrite shipped_lookup. intros H. vm_compute in H. by injection H as <-. Qed.

(** Developer confinement. Through any entry point, a developer credential
    obtains a proof only for fetching delivery in the one environment it was
    minted for, while that environment is not protected, and only while the
    human who delegated it currently holds read and reveal over the whole
    environment; the proof carries no key binding and no navigation. *)
Theorem developer_confined ctx R tok (laws : ResolverLaws R) caller op scope p :
  mints ctx R tok caller op scope p → PClass caller = ClassDeveloper →
  op = OpDeliveryFetch ∧ scope = DeveloperScope caller ∧ pf_chain p = scope ∧
  pf_key p = None ∧ pf_navigation p = [] ∧
  (∃ st, EnvironmentReauthSettings R (Env scope) = Ok st ∧ Protected st = false) ∧
  ∃ grants rules, (Grants R (AuthorityPrincipal caller)).1 = Ok grants ∧
    Rules R (AuthorityPrincipal caller) = Ok rules ∧
    developerEnvironmentAuthority scope grants rules = true.
Proof.
  intros Hm Hdev. apply mints_certified in Hm as (spec & Hop & Hcase).
  destruct Hcase as [(_ & key & rule & grants & bound & H)|(Hc & _ & Hfetch & _)].
  2:{ rewrite (Hfetch Hdev) in Hop. apply shipped_delivery_tenant in Hop. congruence. }
  pose proof (chain_exact _ _ (to_chain _ _ _ _ _ _ _ _ _ _ _ _ H)) as Heq.
  destruct (to_developer _ _ _ _ _ _ _ _ _ _ _ _ H Hdev) as (Hfetch & Hscope & Hprot).
  rewrite Heq in Hscope, Hprot.
  pose proof (to_grants _ _ _ _ _ _ _ _ _ _ _ _ H) as Hg.
  unfold grant_principal in Hg. rewrite bool_decide_true in Hg by done.
  pose proof (to_key _ _ _ _ _ _ _ _ _ _ _ _ H) as Hkey. rewrite Hfetch in Hkey.
  specialize (Hkey eq_refl).
  assert (rulesApply caller = false) as Hra by (unfold rulesApply; by rewrite Hdev).
  pose proof (to_authority _ _ _ _ _ _ _ _ _ _ _ _ H) as Hauth. rewrite Heq in Hauth.
  inversion Hauth as [Hn|rules _ Hr He| | |]; subst; try congruence.
  unfold grant_principal in Hr. rewrite bool_decide_true in Hr by done.
  split_and!; try done. by exists grants, rules.
Qed.

Lemma developer_confined_witness :
  ∃ p s', Authorize registry demo_ctx demo_R demo_tok developer OpDeliveryFetch scope_e1
    NewTxAuthorizer = (Ok p, s') ∧ pf_key p = None ∧
  ∃ grants rules, (Grants demo_R "alice").1 = Ok grants ∧ Rules demo_R "alice" = Ok rules ∧
    developerEnvironmentAuthority scope_e1 grants rules = true.
Proof.
  assert (∃ p s', Authorize registry demo_ctx demo_R demo_tok developer OpDeliveryFetch
    scope_e1 NewTxAuthorizer = (Ok p, s')) as (p & s' & H).
  { rewrite registry_operationTable. vm_compute. eauto. }
  exists p, s'. split; [done|].
  destruct (developer_confined demo_ctx demo_R demo_tok _ developer OpDeliveryFetch scope_e1 p)
    as (_ & _ & _ & Hk & _ & _ & Ha); [by eapply mint_plain|done|]. done.
Defined.

(** A developer's refusal through the key-aware door is not recorded. Unlike
    [Authorize], [AuthorizeKey] does not test the developer confinement before
    the tenant path, whose own test answers [ErrNotFound] without capturing a
    denial: the refusal reaches the caller with nothing to flush. *)
Theorem developer_key_refusal_unrecorded :
  ∃ caller op scope key s',
    PClass caller = ClassDeveloper ∧
    AuthorizeKey registry demo_ctx demo_R demo_tok caller op scope key NewTxAuthorizer
      = (Err ErrNotFound, s') ∧ denials s' = [] ∧ captureErr s' = [].
Proof.
  exists developer, OpValueReveal, scope_e1, (KeyByID "k1"). rewrite registry_operationTable.
  vm_compute. by eexists.
Qed.

(** ** The instance's own configuration *)

(** The protected profile. When the addressed organisation is the one the
    instance is bound to and the caller has at least one live grant row, every
    minted proof is marked as self-configuration, and minting it required a
    human or local caller, an operation of the closed profile, a live
    [instance-config] grant at the instance scope and, for a session, adequate
    assurance whatever the operation's own formula demands. *)
Theorem self_config_protected ctx db now tok caller op scope spec p :
  mints ctx (db_resolver db now) tok caller op scope p →
  lookupSpec registry op = Some spec → as_class spec = ClassTenant →
  self_config_org_id db = Org scope → Org scope ≠ "" →
  ListGrantsForPrincipal db now (grant_principal caller) ≠ [] →
  pf_selfConfig p = true ∧ op ∈ selfConfigOperations ∧
  (PClass caller = "" ∨ PClass caller = ClassHuman) ∧
  (∃ grants g, (db_Grants db now (grant_principal caller)).1 = Ok grants ∧ g ∈ grants ∧
     Grant_Capability g = CapInstanceConfig ∧ Org (Grant_Scope g) = "") ∧
  (SessionID caller ≠ "" → AdequateAssurance (Assurance caller) = true).
Proof.
  intros Hm Hop Hc Hbind Hne Hrows.
  destruct (mints_tenant _ _ _ _ _ _ _ _ Hm Hop Hc) as (key & rule & grants & bound & H).
  pose proof (chain_exact _ _ (to_chain _ _ _ _ _ _ _ _ _ _ _ _ H)) as Heq.
  assert (pf_selfConfig p = true) as Hsc.
  { rewrite (to_mark _ _ _ _ _ _ _ _ _ _ _ _ H). unfold self_config_marked. simpl.
    unfold db_Grants. rewrite grants_loop_mark, Hbind, Heq by done.
    by rewrite !bool_decide_true. }
  destruct (to_profile _ _ _ _ _ _ _ _ _ _ _ _ H Hsc) as (Hhuman & Hin & He).
  split_and!; try done.
  - exists grants. rewrite evaluate_true in He.
    destruct (He (mkAtom CapInstanceConfig LevelNone)) as (g & Hg & Hcap & Hcov%covers_true);
      [by apply list_elem_of_here|].
    exists g. split_and!; try done; [by apply (to_grants _ _ _ _ _ _ _ _ _ _ _ _ H)|].
    simpl in Hcov. tauto.
  - intros Hs. eapply to_assurance; eauto.
Qed.

Definition scope_sc : Scope := mkScope "osc" "psc" "esc".

Lemma self_config_protected_witness :
  ∃ p s', Authorize registry demo_ctx demo_R demo_tok (human "root") OpValueReveal scope_sc
    NewTxAuthorizer = (Ok p, s') ∧ pf_selfConfig p = true.
Proof.
  assert (∃ p s', Authorize registry demo_ctx demo_R demo_tok (human "root") OpValueReveal
    scope_sc NewTxAuthorizer = (Ok p, s')) as (p & s' & H).
  { rewrite registry_operationTable. vm_compute. eauto. }
  exists p, s'. split; [done|].
  destruct (self_config_protected demo_ctx demo_db 100 demo_tok (human "root") OpValueReveal
    scope_sc (mkAuthorizationSpec ClassTenant LevelEnv
      [mkAtom CapRead LevelEnv; mkAtom CapReveal LevelEnv]) p) as (Hs & _).
  - by eapply mint_plain.
  - rewrite registry_operationTable. by vm_compute.
  - done.
  - done.
  - done.
  - by vm_compute.
  - done.
Defined.

(** The mark comes from grant rows, so a caller without any escapes it. A
    human whose only policy is member access rules in the bound organisation
    obtains an unmarked proof to reveal the instance's configuration values,
    although it holds no [instance-config] grant. *)
Theorem self_config_rules_only_gap :
  ∃ caller p s', PClass caller = ClassHuman ∧
    self_config_org_id demo_db = Org scope_sc ∧
    (Grants demo_R (Principal caller)).1 = Ok [] ∧
    Authorize registry demo_ctx demo_R demo_tok caller OpValueReveal scope_sc NewTxAuthorizer
      = (Ok p, s') ∧ pf_chain p = scope_sc ∧ pf_selfConfig p = false.
Proof.
  exists (human "rita"). rewrite registry_operationTable. vm_compute. eauto 10.
Qed.

(** ** Empty cells *)

(** Empty-cell authority never touches a value. A proof to initialise a cell
    or to publish an empty schema cell is bound to one key that, in the same
    snapshot, has no published value in the environment and, for
    initialisation, no draft of another owner or over an existing value. *)
Theorem empty_cell_bound ctx R tok (laws : ResolverLaws R) caller op scope spec p :
  mints ctx R tok caller op scope p →
  lookupSpec registry op = Some spec → as_class spec = ClassTenant → emptyCellOp op = true →
  ∃ key, pf_key p = Some key ∧ RuleKeyHasValue R scope (Key_ID key) = Ok false ∧
    (op = OpValueInitialize →
     RuleKeyHasConflictingDraft R scope (Key_ID key) (Principal caller) = Ok false).
Proof.
  intros Hm Hop Hc Hcell.
  destruct (mints_tenant _ _ _ _ _ _ _ _ Hm Hop Hc) as (key & rule & grants & bound & H).
  pose proof (chain_exact _ _ (to_chain _ _ _ _ _ _ _ _ _ _ _ _ H)) as Heq.
  destruct (to_empty _ _ _ _ _ _ _ _ _ _ _ _ H Hcell) as (k & Hk & Hv & Hd).
  rewrite Heq in Hv, Hd. eauto.
Qed.

Lemma empty_cell_bound_witness :
  ∃ p s', AuthorizeKey registry demo_ctx demo_R demo_tok (human "alice") OpValueInitialize scope_e1
    (KeyByID "k2") NewTxAuthorizer = (Ok p, s') ∧
  ∃ key, pf_key p = Some key ∧ RuleKeyHasValue demo_R scope_e1 (Key_ID key) = Ok false.
Proof.
  assert (∃ p s', AuthorizeKey registry demo_ctx demo_R demo_tok (human "alice")
    OpValueInitialize scope_e1 (KeyByID "k2") NewTxAuthorizer = (Ok p, s')) as (p & s' & H).
  { rewrite registry_operationTable. vm_compute. eauto. }
  exists p, s'. split; [done|].
  destruct (empty_cell_bound demo_ctx demo_R demo_tok _ (human "alice") OpValueInitialize scope_e1
    (mkAuthorizationSpec ClassTenant LevelEnv
       [mkAtom CapDefinitionsEdit LevelEnv; mkAtom CapPublish LevelEnv]) p)
    as (key & Hk & Hv & _).
  - by eapply mint_key.
  - rewrite registry_operationTable. by vm_compute.
  - done.
  - by vm_compute.
  - by exists key.
Defined.
