(* ===== verification/ProofBoundary.v ===== *)
(** * The store boundary: [internal/authz/verify.go], [proof.go] and the system
    mint sites

    Every store method first passes its proof to [Verify] with its own store
    operation and the token of the transaction it is bound to. This file models
    the boundary, the no-principal mint sites, and the life of tokens and proofs
    as a step relation over attempts, and proves that an accepted call is always
    covered by an authorization of the same live attempt. *)

From stdpp Require Import prelude gmap strings list.
From S2P Require Import Prelude StringFacts Domain Rule Containment FreeText Resolver Tables.
From S2P Require Import Registry OperationTable RegistryFacts Evaluate Delegation Authorizer.
From S2P Require Import AuthorizerAudit AuthorizerSound Demo AuthorizerProps.

(** ** System mint sites *)

Definition SiteSelfConfigSeed : SystemSite := "self-config-seed".
Definition SiteSelfConfigRecovery : SystemSite := "self-config-recovery".
Definition SiteSelfConfigRuntime : SystemSite := "self-config-runtime".

Definition bootKeyringOps : gmap StoreOp bool := sops
  ["keys.ActiveMasterWrappers"; "keys.ActiveTier3"; "keys.Tier3Versions"; "keys.AllOpenableTier3";
   "keys.AcquireHierarchyGeneration"; "keys.InsertMaster"; "keys.InsertTier3";
   "keys.InsertScopeGeneration"].

Definition systemSites : gmap SystemSite (gmap StoreOp bool) := list_to_map [
  ("self-config-seed", sops [
      "selfconfig.SeedInputs"; "selfconfig.HostSeedInputs"; "selfconfig.PutSeedInput"]);
  ("self-config-recovery", sops [
      "selfconfig.Binding"; "selfconfig.Jobs"; "selfconfig.Nodes"; "selfconfig.Retained";
      "selfconfig.RecoverTarget"; "snapshots.AtRevision"; "snapshots.Entries";
      "snapshots.ParameterContract"; "catalogue.List"; "catalogue.SchemaRevision";
      "audit.InsertTenant"]);
  ("self-config-runtime", sops [
      "selfconfig.Binding"; "selfconfig.PreviousRevision"; "selfconfig.Rollout";
      "selfconfig.PutRollout"; "selfconfig.NextRolloutSequence"; "selfconfig.Jobs";
      "selfconfig.Job"; "selfconfig.Nodes"; "selfconfig.Retained"; "selfconfig.PutNode";
      "selfconfig.FinishJob"; "selfconfig.FenceRestored"; "snapshots.AtRevision";
      "snapshots.Entries"; "snapshots.ParameterContract"; "catalogue.List";
      "catalogue.SchemaRevision"; "audit.InsertTenant"]);
  ("local-escrow-verification", sops [
      "keys.ActiveMasterWrappers"; "keys.AllOpenableTier3"; "keys.AcquireHierarchyGeneration";
      "retention.RecordEscrow"; "audit.InsertInstance"]);
  ("boot", bootKeyringOps);
  ("migration", sops []);
  ("recovery-mode-reconciliation", sops []);
  ("break-glass", sops []);
  ("scheduler", sops [
      "retention.Diagnostics"; "retention.Eligible"; "retention.MarkCollected";
      "retention.DeleteCollectedEntries"; "retention.LastPruneSuccess";
      "retention.SetLastPruneSuccess"; "audit.InsertTenant"; "retention.AuditPolicy";
      "retention.SetAuditPolicy"; "retention.PruneAudit"; "audit.InsertInstance";
      "definitions.PruneExpiredPlans"; "approvals.SelectExpired"; "approvals.MarkExpired";
      "approvals.OperationalCounts"; "access.SelectDue"; "access.MarkExpired";
      "access.OperationalCounts"; "values.InstancePayloadByProject";
      "snapshots.InstancePayloadByProject"; "backupstate.Get"; "backupstate.SetExportSuccess";
      "backupstate.SetExportFailure"; "backupstate.SetPruneResult"; "backupstate.SetDrill";
      "values.SampleSecretEntry"; "adapters.HealthCounts"; "deliverytargets.SelectExpired";
      "deliverytargets.Purge"; "transit.SelectDeletionDue"; "transit.SelectRotationDue";
      "transit.AppendVersion"; "transit.DestroyVersions"; "transit.Destroy";
      "keys.AssertActiveDEKVersion"]) ].

Definition systemSiteEvents : gmap SystemSite (list EventType) := list_to_map [
  ("migration", [
      "self_config.migrated"]);
  ("self-config-recovery", [
      "self_config.recovered"]);
  ("self-config-runtime", [
      "self_config.applied"; "self_config.recovery_fenced"; "self_config.test_completed"]);
  ("local-escrow-verification", [
      "crypto.root_escrow_verified"]);
  ("scheduler", [
      "retention.audit_policy_changed"; "retention.audit_pruned"; "retention.payload_gc";
      "retention.prune_run"; "system.update_outcome"; "approval.expired"; "access.expired";
      "backup.export_failed"; "identity.delivery_target_purged"; "transit.key_rotated";
      "transit.key_destroyed"]) ].

Definition selfConfigSite (site : SystemSite) : bool :=
  Contains [SiteSelfConfigRuntime; SiteSelfConfigRecovery; SiteSelfConfigSeed] site.

Definition system_proof (site : SystemSite) (chain : Scope) (tok : TxToken) : proof :=
  mkProof false false "" kindSystem ("system:" +:+ site) site chain tok None [] None.

Definition SystemAuthority (site : SystemSite) (tok : TxToken) : result error proof :=
  if selfConfigSite site
  then Err (Loud "authz: self-config runtime authority requires its bound resolver")
  else match systemSites !! site with
  | None => Err (Loud "authz: not a registered system mint site")
  | Some _ =>
      match tok with
      | None => Err (Loud "authz: system authority requires a live transaction")
      | Some _ => Ok (system_proof site zeroScope tok)
      end
  end.

Definition ScopedSystemAuthority (R : Resolver) (tok : TxToken) (site : SystemSite)
    (scope : Scope) : M proof :=
  if selfConfigSite site
  then fail (Loud "authz: self-config runtime authority requires its bound resolver")
  else match systemSites !! site with
  | None => fail (Loud "authz: not a registered system mint site")
  | Some _ =>
      match tok with
      | None => fail (Loud "authz: scoped system authority requires a live transaction")
      | Some _ =>
          if bool_decide (Org scope = "")
          then fail (Loud "authz: scoped system authority requires a tenant scope")
          else do! chain := rResolveChain R scope in ret (system_proof site chain tok)
      end
  end.

(** The boot worker's own exchange before adoption. *)
Definition SelfConfigSeedAuthority (ctx : Ctx) (tok : TxToken) : result error proof :=
  if IsNetwork ctx then Err (Loud "authz: seed authority is unavailable to network operations")
  else Ok (system_proof SiteSelfConfigSeed zeroScope tok).

(** The self-configuration reads of the resolution surface: the instance's
    binding, whether a snapshot is retained, and the snapshot of a revision. *)
Record SelfConfigBinding := mkSelfConfigBinding {
  SCB_Scope : Scope; DesiredSnapshotID : string; DesiredRevision : Z }.

Record SelfConfigReads := mkSelfConfigReads {
  sc_Binding : result error SelfConfigBinding;
  sc_Retained : string → result error bool;
  sc_RecoverySnapshot : SelfConfigBinding → Z → result error string }.

Definition self_config_proof (site : SystemSite) (b : SelfConfigBinding) (snapshotID : string)
    (tok : TxToken) : proof :=
  mkProof true false snapshotID kindSystem ("system:" +:+ site) site (SCB_Scope b) tok None [] None.

Definition SelfConfigRuntimeAuthority (ctx : Ctx) (sc : SelfConfigReads) (tok : TxToken)
    (snapshotID : string) : result error proof :=
  if IsNetwork ctx then Err (Loud "authz: runtime authority is unavailable to network operations")
  else
    let! b := sc_Binding sc in
    let snapshotID := if bool_decide (snapshotID = "") then DesiredSnapshotID b else snapshotID in
    let! retained := sc_Retained sc snapshotID in
    if negb retained then Err ErrNotFound
    else Ok (self_config_proof SiteSelfConfigRuntime b snapshotID tok).

Definition SelfConfigRecoveryAuthority (ctx : Ctx) (sc : SelfConfigReads) (tok : TxToken)
    (revision : Z) : result error proof :=
  if IsNetwork ctx then Err (Loud "authz: recovery authority is unavailable to network operations")
  else if bool_decide (revision < 1)%Z then Err ErrInvalid
  else
    let! b := sc_Binding sc in
    let! snapshotID := sc_RecoverySnapshot sc b revision in
    Ok (self_config_proof SiteSelfConfigRecovery b snapshotID tok).

(** ** Tokens *)

(** Tokens are allocated in order; [dead] holds the invalidated ones. *)
Definition alive (dead : gset nat) (t : nat) : bool := negb (bool_decide (t ∈ dead)).

Definition Invalidate (dead : gset nat) (t : nat) : gset nat := {[t]} ∪ dead.

(** ** Verification *)

(** A value of the [Proof] interface: [nil], the canonical type (possibly a nil
    pointer) or an outside type that embeds the interface. *)
Inductive ProofValue :=
| NilProof
| NilPointer
| Foreign
| Canonical (p : proof).

Definition permitted_store_op (p : proof) (so : StoreOp) : bool :=
  match pf_kind p with
  | kindSystem =>
      match systemSites !! pf_site p with
      | Some ops => default false (ops !! so)
      | None => false
      end
  | _ => permitsStoreOp registry (pf_op p) so
  end.

Definition verifyProof (dead : gset nat) (v : ProofValue) (so : StoreOp) (tok : TxToken)
  : result error proof :=
  match v with
  | NilProof => Err (Loud "authz: store call without a proof")
  | NilPointer | Foreign => Err (Loud "authz: non-canonical proof")
  | Canonical c =>
      match tok with
      | None => Err (Loud "authz: proof presented outside its transaction")
      | Some t =>
          if bool_decide (pf_tok c ≠ Some t)
          then Err (Loud "authz: proof presented outside its transaction")
          else if negb (alive dead t)
          then Err (Loud "authz: proof presented after its transaction ended")
          else if negb (permitted_store_op c so)
          then Err (Loud "authz: proof may not invoke this store operation")
          else Ok c
      end
  end.

Definition Verify (dead : gset nat) (v : ProofValue) (so : StoreOp) (tok : TxToken)
  : result error Scope :=
  let! c := verifyProof dead v so tok in Ok (pf_chain c).

Definition permitted_event (p : proof) (et : EventType) : bool :=
  match pf_kind p with
  | kindSystem => Contains (default [] (systemSiteEvents !! pf_site p)) et
  | _ => permitsEvent registry (pf_op p) et
  end.

Definition VerifyEvent (dead : gset nat) (v : ProofValue) (so : StoreOp) (tok : TxToken)
    (et : EventType) : result error Scope :=
  let! c := verifyProof dead v so tok in
  if permitted_event c et then Ok (pf_chain c)
  else Err (Loud "authz: proof may not emit this audit event").

(** ** Bindings a service reads off a proof *)

Definition BoundKey (v : ProofValue) : option RuleKey :=
  match v with Canonical p => pf_key p | _ => None end.

Definition PublishKeyAllowed (v : ProofValue) (id : string) : bool :=
  match v with
  | Canonical p =>
      match pf_publishKeys p with
      | Some keys => bool_decide (id ∈ keys)
      | None => match pf_key p with Some k => bool_decide (Key_ID k = id) | None => true end
      end
  | _ => false
  end.

Definition NavigationProjectAllowed (p : proof) (id : ProjectID) : bool :=
  if Nat.eqb (length (pf_navigation p)) 0 then true
  else existsb (λ rule, Contains (Projects (Rule_Where rule)) id) (pf_navigation p).

Definition NavigationEnvironmentAllowed (p : proof) (id : EnvID) : bool :=
  if Nat.eqb (length (pf_navigation p)) 0 then true
  else existsb (λ rule, Reaches rule CapRead LevelEnv
                 (mkScope (Org (pf_chain p)) (Project (pf_chain p)) id) None) (pf_navigation p).

Definition IsSystemProof (v : ProofValue) : bool :=
  match v with Canonical p => bool_decide (pf_kind p = kindSystem) | _ => false end.

Definition IsSelfConfig (dead : gset nat) (v : ProofValue) : bool :=
  match v with
  | Canonical p =>
      pf_selfConfig p && match pf_tok p with Some t => alive dead t | None => false end
  | _ => false
  end.

Definition IncludesSelfConfig (dead : gset nat) (v : ProofValue) : bool :=
  match v with
  | Canonical p =>
      pf_selfConfigAdmin p && match pf_tok p with Some t => alive dead t | None => false end
  | _ => false
  end.

Definition VerifySelfConfigSnapshot (v : ProofValue) (snapshotID : string) : result error unit :=
  match v with
  | Canonical p =>
      if (bool_decide (pf_site p = SiteSelfConfigRuntime)
          || bool_decide (pf_site p = SiteSelfConfigRecovery))
         && bool_decide (pf_runtimeSnapshotID p ≠ snapshotID)
      then Err (Loud "authz: runtime proof does not address this snapshot")
      else Ok tt
  | _ => Err (Loud "authz: non-canonical proof")
  end.

(** ** What an accepted call had to present *)

Lemma verifyProof_Ok dead v so tok c :
  verifyProof dead v so tok = Ok c ↔
  (v = Canonical c ∧ ∃ t, tok = Some t ∧ pf_tok c = Some t ∧ (t ∉ dead) ∧
    permitted_store_op c so = true).
Proof.
  unfold verifyProof, alive. split.
  - destruct v as [| | |c']; try done. destruct tok as [t|]; [|done].
    destruct (bool_decide_reflect (pf_tok c' ≠ Some t)) as [|Ht]; [done|].
    apply dec_stable in Ht. rewrite negb_involutive.
    destruct (bool_decide_reflect (t ∈ dead)) as [|Hd]; [done|].
    destruct (permitted_store_op c' so) eqn:Hp; [|done]. intros [= <-]. split; [done|].
    by exists t.
  - intros (-> & t & -> & Ht & Hd & Hp). rewrite (bool_decide_false (pf_tok c ≠ Some t)) by tauto.
    rewrite (bool_decide_false (t ∈ dead)) by done. by rewrite Hp.
Qed.

Lemma Verify_Ok dead v so tok s :
  Verify dead v so tok = Ok s ↔ (∃ c, verifyProof dead v so tok = Ok c ∧ pf_chain c = s).
Proof. unfold Verify. rewrite rbind_Ok. naive_solver. Qed.

(** ** Collections *)

Lemma publish_loop_Ok ctx R tok caller scope first keys ids s first' keys' s' :
  publish_loop registry ctx R tok caller scope first keys ids s = (Ok (first', keys'), s') →
  keys' = list_to_set ids ∪ keys ∧
  (∀ id, id ∈ ids → ∃ q s1 s2,
     AuthorizeKey registry ctx R tok caller OpValuePublish scope (KeyByID id) s1 = (Ok q, s2)) ∧
  (first = None → ids ≠ [] → ∃ q id s1 s2, first' = Some q ∧ id ∈ ids ∧
     AuthorizeKey registry ctx R tok caller OpValuePublish scope (KeyByID id) s1 = (Ok q, s2)) ∧
  (first ≠ None → first' = first).
Proof.
  revert first keys s. induction ids as [|id ids IH]; intros first keys s; simpl.
  { intros [= <- <- <-]. split_and!; [set_solver| |done|done]. intros id Hid.
    by apply elem_of_nil in Hid. }
  intros (q & s1 & Hq & H)%bind_Ok. apply IH in H as (-> & Hall & Hnone & Hsome).
  split_and!; [set_solver| | |].
  - intros id' [->|Hin]%elem_of_cons; [eauto|by apply Hall].
  - intros -> _. rewrite Hsome by done. exists q, id, s, s1. split_and!; [done|set_solver|done].
  - intros Hf. rewrite Hsome; by destruct first.
Qed.

Lemma AuthorizePublishKeys_Ok ctx R tok caller scope ids s p s' :
  AuthorizePublishKeys registry ctx R tok caller scope ids s = (Ok p, s') →
  pf_publishKeys p = Some (list_to_set ids) ∧ ids ≠ [] ∧
  (∀ id, id ∈ ids → ∃ q s1 s2,
     AuthorizeKey registry ctx R tok caller OpValuePublish scope (KeyByID id) s1 = (Ok q, s2)) ∧
  ∃ q id s1 s2, id ∈ ids ∧
    AuthorizeKey registry ctx R tok caller OpValuePublish scope (KeyByID id) s1 = (Ok q, s2) ∧
    pf_kind p = pf_kind q ∧ pf_op p = pf_op q ∧ pf_chain p = pf_chain q ∧ pf_tok p = pf_tok q.
Proof.
  unfold AuthorizePublishKeys. destruct ids as [|id0 ids']; [done|]. set (ids := id0 :: ids').
  simpl Nat.eqb. intros ([first keys] & s1 & Hl & H)%bind_Ok.
  apply publish_loop_Ok in Hl as (-> & Hall & Hnone & _).
  destruct Hnone as (q & id & s2 & s3 & -> & Hid & Hq); [done|done|]. injection H as <- _.
  split_and!; simpl; try done; [f_equal; set_solver|]. eauto 10.
Qed.

(** A collection publish proof covers exactly its selection. The proof of
    [AuthorizePublishKeys] is minted only for a non-empty selection, every
    selected key was authorized for publishing on its own, and the boundary
    check [PublishKeyAllowed] admits the selected keys and no other. *)
Theorem publish_collection_exact ctx R tok caller scope ids s p s' :
  AuthorizePublishKeys registry ctx R tok caller scope ids s = (Ok p, s') →
  ids ≠ [] ∧ (∀ id, PublishKeyAllowed (Canonical p) id = true ↔ id ∈ ids) ∧
  (∀ id, id ∈ ids → ∃ q, mints ctx R tok caller OpValuePublish scope q).
Proof.
  intros (Hkeys & Hne & Hall & _)%AuthorizePublishKeys_Ok. split_and!; [done| |].
  - intros id. simpl. rewrite Hkeys, bool_decide_eq_true. set_solver.
  - intros id (q & s1 & s2 & Hq)%Hall. exists q. by eapply mint_key.
Qed.

Lemma publish_collection_exact_witness :
  ∃ p s', AuthorizePublishKeys registry demo_ctx demo_R demo_tok (human "alice") scope_e1
    ["k1"; "k2"] NewTxAuthorizer = (Ok p, s') ∧
  ∀ id, PublishKeyAllowed (Canonical p) id = true ↔ id ∈ ["k1"; "k2"].
Proof.
  assert (∃ p s', AuthorizePublishKeys registry demo_ctx demo_R demo_tok (human "alice") scope_e1
    ["k1"; "k2"] NewTxAuthorizer = (Ok p, s')) as (p & s' & H).
  { rewrite registry_operationTable. vm_compute. eauto. }
  exists p, s'. split; [done|].
  by destruct (publish_collection_exact demo_ctx demo_R demo_tok (human "alice") scope_e1
    ["k1"; "k2"] NewTxAuthorizer p s' H) as (_ & Hk & _).
Defined.

(** A key-narrowed rule authorizes its key alone. When a publish of one key
    is authorized and the caller's grants alone do not satisfy the formula, the
    proof is bound to that key and the boundary check admits no other. *)
Theorem rule_publish_bound ctx R tok (laws : ResolverLaws R) caller scope id s p s' spec :
  AuthorizeKey registry ctx R tok caller OpValuePublish scope (KeyByID id) s = (Ok p, s') →
  lookupSpec registry OpValuePublish = Some spec →
  PClass caller = "" ∨ PClass caller = ClassHuman →
  (∀ grants, (Grants R (Principal caller)).1 = Ok grants →
     evaluate (as_formula spec) scope grants = false) →
  ∀ other, PublishKeyAllowed (Canonical p) other = true ↔ other = id.
Proof.
  unfold AuthorizeKey. intros H Hop Hclass Hdeny. rewrite Hop in H. revert H.
  case_bool_decide as Hc; [done|]. destruct (bool_decide (Principal caller = "")); [done|].
  rewrite bool_decide_false by (by destruct Hclass as [->| ->]).
  intros (grants & bound & H)%authorizeTenant_sound.
  pose proof (chain_exact _ _ (to_chain _ _ _ _ _ _ _ _ _ _ _ _ H)) as Heq.
  assert (grant_principal caller = Principal caller) as Hgp.
  { unfold grant_principal. by rewrite bool_decide_false by (by destruct Hclass as [->| ->]). }
  specialize (Hdeny grants). rewrite <-Hgp in Hdeny.
  specialize (Hdeny (to_grants _ _ _ _ _ _ _ _ _ _ _ _ H)).
  assert (pf_key p = bound) as Hkey by (by apply (to_key _ _ _ _ _ _ _ _ _ _ _ _ H)).
  destruct (to_shape _ _ _ _ _ _ _ _ _ _ _ _ H) as (_ & _ & _ & Hpk).
  assert (∃ b, bound = Some b ∧ Key_ID b = id) as (b & -> & Hid).
  { pose proof (to_authority _ _ _ _ _ _ _ _ _ _ _ _ H) as Hauth. rewrite Heq in Hauth.
    inversion Hauth as [? ? He|? [Hd|?] ?|? ? ? ? ? Hb|? ? ? ? ? Hb|? ? ? ? Ht]; subst.
    - by rewrite He in Hdeny.
    - destruct Hclass as [E|E]; by rewrite E in Hd.
    - done.
    - destruct Hb as (b & s1 & s2 & -> & Hr). simpl in Hr. apply query_Ok in Hr as [Hr _].
      eauto using key_exact.
    - destruct Hb as (b & s1 & s2 & -> & Hr). simpl in Hr. apply query_Ok in Hr as [Hr _].
      eauto using key_exact.
    - done. }
  intros other. simpl. rewrite Hpk, Hkey, bool_decide_eq_true, Hid. done.
Qed.

(** The demonstration database with one key-narrowed publish rule. *)
Definition rule_publisher_db : DB :=
  mkDB (orgs demo_db) (projects demo_db) (environments demo_db) (principals demo_db)
    (db_grants demo_db) (access_grants demo_db)
    (mkRule_Row "r0" "rita" "publish" "o1" "all" "only" :: db_rules demo_db)
    (demo_item "r0" "project" "p1" "" "" "" :: demo_item "r0" "key" "p1" "" "k1" "" ::
     rule_items demo_db)
    (db_keys demo_db) (pending_changes demo_db) (approval_requests demo_db)
    (value_entries demo_db) (restore_epoch demo_db) (self_config_org_id demo_db).

Lemma rule_publish_bound_witness :
  ∃ p s', AuthorizeKey registry demo_ctx (db_resolver rule_publisher_db 100) demo_tok
      (human "rita") OpValuePublish scope_e1 (KeyByID "k1") NewTxAuthorizer = (Ok p, s') ∧
    ∀ other, PublishKeyAllowed (Canonical p) other = true ↔ other = "k1".
Proof.
  assert (∃ p s', AuthorizeKey registry demo_ctx (db_resolver rule_publisher_db 100) demo_tok
    (human "rita") OpValuePublish scope_e1 (KeyByID "k1") NewTxAuthorizer = (Ok p, s'))
    as (p & s' & H).
  { rewrite registry_operationTable. vm_compute. eauto. }
  exists p, s'. split; [done|].
  refine (rule_publish_bound demo_ctx (db_resolver rule_publisher_db 100) demo_tok _ (human "rita")
    scope_e1 "k1" NewTxAuthorizer p s' (mkAuthorizationSpec ClassTenant LevelEnv
      [mkAtom CapPublish LevelEnv]) H _ _ _).
  - rewrite registry_operationTable. by vm_compute.
  - by right.
  - intros grants Hg. vm_compute in Hg. injection Hg as <-. by vm_compute.
Defined.

(** ** Shapes of issued proofs *)

Lemma mints_tok ctx R tok caller op scope p : mints ctx R tok caller op scope p → pf_tok p = tok.
Proof.
  intros (spec & _ & [(_ & key & rule & grants & bound & H)|(_ & _ & _ & grants & H)])%mints_certified.
  - by destruct (to_shape _ _ _ _ _ _ _ _ _ _ _ _ H) as (_ & _ & ? & _).
  - by destruct (io_shape _ _ _ _ _ _ _ H) as (_ & _ & _ & ?).
Qed.

Lemma SystemAuthority_Ok site tok p :
  SystemAuthority site tok = Ok p → p = system_proof site zeroScope tok.
Proof.
  unfold SystemAuthority. destruct (selfConfigSite site); [done|].
  destruct (systemSites !! site); [|done]. destruct tok; [|done]. by intros [= <-].
Qed.

Lemma ScopedSystemAuthority_Ok R tok site scope s p s' :
  ScopedSystemAuthority R tok site scope s = (Ok p, s') →
  ∃ chain, ResolveChain R scope = Ok chain ∧ p = system_proof site chain tok.
Proof.
  unfold ScopedSystemAuthority. destruct (selfConfigSite site); [done|].
  destruct (systemSites !! site); [|done]. destruct tok; [|done].
  destruct (bool_decide _); [done|]. intros (chain & s1 & [Hc _]%query_Ok & [= <- _])%bind_Ok.
  by exists chain.
Qed.

(** ** The instance's own snapshot readers *)

Lemma SelfConfigRuntimeAuthority_Ok ctx sc tok id p :
  SelfConfigRuntimeAuthority ctx sc tok id = Ok p →
  IsNetwork ctx = false ∧ ∃ b snap, sc_Binding sc = Ok b ∧ sc_Retained sc snap = Ok true ∧
    (id ≠ "" → snap = id) ∧ (id = "" → snap = DesiredSnapshotID b) ∧
    p = self_config_proof SiteSelfConfigRuntime b snap tok.
Proof.
  unfold SelfConfigRuntimeAuthority. destruct (IsNetwork ctx); [done|].
  intros (b & Hb & (ret & Hr & H)%rbind_Ok)%rbind_Ok. split; [done|].
  destruct ret; [|done]. injection H as <-. do 2 eexists. split_and!; [done|done| | |done];
    by case_bool_decide.
Qed.

Lemma SelfConfigRecoveryAuthority_Ok ctx sc tok rev p :
  SelfConfigRecoveryAuthority ctx sc tok rev = Ok p →
  IsNetwork ctx = false ∧ (1 ≤ rev)%Z ∧ ∃ b snap, sc_Binding sc = Ok b ∧
    sc_RecoverySnapshot sc b rev = Ok snap ∧
    p = self_config_proof SiteSelfConfigRecovery b snap tok.
Proof.
  unfold SelfConfigRecoveryAuthority. destruct (IsNetwork ctx); [done|].
  case_bool_decide as Hrev; [done|].
  intros (b & Hb & (snap & Hs & [= <-])%rbind_Ok)%rbind_Ok. split_and!; [done|lia|]. eauto.
Qed.

(** The instance's own snapshot readers are confined. A runtime or recovery
    proof is never minted for a network request; it is bound to the chain of the
    instance's binding, and the payload check admits exactly the one snapshot it
    was minted for: a retained one (the desired one by default), respectively
    the one that holds the requested revision. *)
Theorem self_config_reader_confined ctx sc tok p :
  (∃ id, SelfConfigRuntimeAuthority ctx sc tok id = Ok p) ∨
  (∃ rev, SelfConfigRecoveryAuthority ctx sc tok rev = Ok p) →
  IsNetwork ctx = false ∧ pf_kind p = kindSystem ∧
  ∃ b snap, sc_Binding sc = Ok b ∧ pf_chain p = SCB_Scope b ∧
    (sc_Retained sc snap = Ok true ∨ ∃ rev, (1 ≤ rev)%Z ∧ sc_RecoverySnapshot sc b rev = Ok snap) ∧
    ∀ s, is_ok (VerifySelfConfigSnapshot (Canonical p) s) = true ↔ s = snap.
Proof.
  assert (∀ site b snap s, site = SiteSelfConfigRuntime ∨ site = SiteSelfConfigRecovery →
    is_ok (VerifySelfConfigSnapshot (Canonical (self_config_proof site b snap tok)) s) = true
      ↔ s = snap) as Hv.
  { intros site b snap s Hs. cbn.
    assert (bool_decide (site = SiteSelfConfigRuntime) || bool_decide (site = SiteSelfConfigRecovery)
      = true) as -> by (by destruct Hs as [-> | ->]).
    cbn [andb]. case_bool_decide; naive_solver. }
  intros [[id (Hn & b & snap & Hb & Hr & _ & _ & ->)%SelfConfigRuntimeAuthority_Ok]
         |[rev (Hn & Hrev & b & snap & Hb & Hr & ->)%SelfConfigRecoveryAuthority_Ok]];
    (split_and!; [done|done|]); exists b, snap; split_and!; eauto.
Qed.

Lemma self_config_reader_confined_witness :
  let sc := mkSelfConfigReads (Ok (mkSelfConfigBinding (mkScope "osc" "psc" "esc") "snap2" 2))
              (λ s, Ok (bool_decide (s = "snap2"))) (λ _ _, Err ErrNotFound) in
  let ctx := mkCtx false "" "" "" 0 (λ _, Ok "evt") (λ _ _, (false, false)) in
  ∃ p, SelfConfigRuntimeAuthority ctx sc (Some 0) "" = Ok p ∧
    ∃ snap, ∀ s, is_ok (VerifySelfConfigSnapshot (Canonical p) s) = true ↔ s = snap.
Proof.
  intros sc ctx. eexists. split; [reflexivity|].
  destruct (self_config_reader_confined ctx sc (Some 0)
    (self_config_proof SiteSelfConfigRuntime
       (mkSelfConfigBinding (mkScope "osc" "psc" "esc") "snap2" 2) "snap2" (Some 0)))
    as (_ & _ & b & snap & _ & _ & _ & Hs).
  - left. exists "". reflexivity.
  - exists snap. exact Hs.
Defined.

(** ** The life of attempts *)

Record World := mkWorld {
  next_tok : nat;
  dead : gset nat;
  issued : list proof;
  accepted : list (proof * StoreOp * nat * Scope) }.

Definition initial : World := mkWorld 0 ∅ [] [].

Section Attempts.

(** The resolver states attempt [t] may observe: the database as its
    transaction sees it, its own earlier writes included. *)
Context (observes : nat → Resolver → Prop).
Context (observes_laws : ∀ t R, observes t R → ResolverLaws R).
Context (observes_binding : nat → SelfConfigReads → Prop).

(** How a proof comes into being under a token: through the chokepoint, on a
    database state the attempt observes, or at a system site. These are all the
    places of the package that build a proof value. *)
Inductive issues (t : nat) : proof → Prop :=
| issue_mint ctx R caller op scope p :
    observes t R → mints ctx R (Some t) caller op scope p → issues t p
| issue_publish ctx R caller scope ids s s' p :
    observes t R →
    AuthorizePublishKeys registry ctx R (Some t) caller scope ids s = (Ok p, s') → issues t p
| issue_system site p : SystemAuthority site (Some t) = Ok p → issues t p
| issue_scoped R site scope s s' p :
    observes t R → ScopedSystemAuthority R (Some t) site scope s = (Ok p, s') → issues t p
| issue_seed ctx p : SelfConfigSeedAuthority ctx (Some t) = Ok p → issues t p
| issue_runtime ctx sc id p :
    observes_binding t sc → SelfConfigRuntimeAuthority ctx sc (Some t) id = Ok p → issues t p
| issue_recovery ctx sc rev p :
    observes_binding t sc → SelfConfigRecoveryAuthority ctx sc (Some t) rev = Ok p → issues t p.

(** The transaction package begins and ends attempts, the closure of a live
    attempt obtains proofs, and anyone may present any proof value to any store
    method under any token: only [Verify] decides. Proof values outside the
    package are the issued ones and the forgeable ones. *)
Inductive step : World → World → Prop :=
| step_begin w :
    step w (mkWorld (S (next_tok w)) (dead w) (issued w) (accepted w))
| step_issue w t p :
    t < next_tok w → t ∉ dead w → issues t p →
    step w (mkWorld (next_tok w) (dead w) (p :: issued w) (accepted w))
| step_call w v so t s c :
    (∀ q, v = Canonical q → q ∈ issued w) →
    verifyProof (dead w) v so (Some t) = Ok c → Verify (dead w) v so (Some t) = Ok s →
    step w (mkWorld (next_tok w) (dead w) (issued w) ((c, so, t, s) :: accepted w))
| step_end w t :
    step w (mkWorld (next_tok w) (Invalidate (dead w) t) (issued w) (accepted w)).

Definition reachable (w : World) : Prop := rtc step initial w.

(** ** The invariant *)

Record world_ok (w : World) : Prop := {
  wo_issued : ∀ p, p ∈ issued w → ∃ t, t < next_tok w ∧ issues t p;
  wo_accepted : ∀ c so t s, (c, so, t, s) ∈ accepted w →
    c ∈ issued w ∧ pf_tok c = Some t ∧ s = pf_chain c ∧ permitted_store_op c so = true }.

Lemma world_ok_step w w' : world_ok w → step w w' → world_ok w'.
Proof.
  intros [Hi Ha] Hstep.
  inversion Hstep as [w1|w1 t p Ht Hd Hp|w1 v so t s c Hv Hver Hs|w1 t]; subst; simpl in *.
  - split; simpl; [|done]. intros p Hp. destruct (Hi p Hp) as (t & ? & ?). exists t. split; [simpl; lia|done].
  - split; simpl.
    + intros q [->|Hq]%elem_of_cons; [by exists t|by apply Hi].
    + intros c so t' s Hin. destruct (Ha _ _ _ _ Hin) as (? & ? & ? & ?).
      split; [by apply elem_of_cons; right|done].
  - split; simpl; [done|]. intros c' so' t' s' [[= -> -> -> ->]|Hin]%elem_of_cons; [|by apply Ha].
    apply verifyProof_Ok in Hver as Hc. destruct Hc as (-> & t1 & [= <-] & Htok & _ & Hperm).
    apply Verify_Ok in Hs as (c1 & Hc1 & <-). rewrite Hver in Hc1. injection Hc1 as <-.
    split_and!; [by apply Hv|done..].
  - by split.
Qed.

Lemma reachable_ok w : reachable w → world_ok w.
Proof.
  intros Hr. assert (world_ok initial) as H0.
  { split; simpl; intros * Hin; by apply elem_of_nil in Hin. }
  induction Hr as [w|w1 w2 w3 Hs _ IH]; [done|]. apply IH. by eapply world_ok_step.
Qed.

(** ** End to end *)

Lemma issues_tok t p : issues t p → pf_tok p = Some t.
Proof.
  intros [ctx R caller op scope p' _ H|ctx R caller scope ids s s' p' _ H|site p' H
         |R site scope s s' p' _ H|ctx p' H|ctx sc id p' _ H|ctx sc rev p' _ H].
  - by eapply mints_tok.
  - apply AuthorizePublishKeys_Ok in H as (_ & _ & _ & q & id & s1 & s2 & _ & Hq & _ & _ & _ & ->).
    eapply mints_tok. by eapply mint_key.
  - by apply SystemAuthority_Ok in H as ->.
  - by apply ScopedSystemAuthority_Ok in H as (? & _ & ->).
  - unfold SelfConfigSeedAuthority in H. destruct (IsNetwork ctx); [done|]. by injection H as <-.
  - by apply SelfConfigRuntimeAuthority_Ok in H as (_ & ? & ? & _ & _ & _ & _ & ->).
  - by apply SelfConfigRecoveryAuthority_Ok in H as (_ & _ & ? & ? & _ & _ & ->).
Qed.

(** C7 Every accepted store call is covered by an authorization of the same
    attempt. In every reachable history of attempts, a call the boundary
    accepted was made with a proof issued under the very token of its
    transaction, for an operation (or system site) that licenses the store
    operation, and the scope the store bound its query to is the chain that
    authorization resolved. *)
Theorem accepted_call_covered w c so t s :
  reachable w → (c, so, t, s) ∈ accepted w →
  issues t c ∧ s = pf_chain c ∧ permitted_store_op c so = true.
Proof.
  intros [Hi Ha]%reachable_ok Hin. destruct (Ha _ _ _ _ Hin) as (Hc & Htok & Hs & Hp).
  destruct (Hi _ Hc) as (t' & _ & Hiss). pose proof (issues_tok _ _ Hiss) as Htok'.
  rewrite Htok in Htok'. injection Htok' as <-. done.
Qed.

Lemma step_dead w w' t : step w w' → t ∈ dead w → t ∈ dead w'.
Proof.
  intros Hstep Ht. inversion Hstep; subst; simpl; try done.
  unfold Invalidate. apply elem_of_union. by right.
Qed.

Lemma step_dead_calls w w' c so t s :
  step w w' → t ∈ dead w → (c, so, t, s) ∈ accepted w' → (c, so, t, s) ∈ accepted w.
Proof.
  intros Hstep Ht. inversion Hstep as [|w1 t1 p ? ? ?|w1 v so1 t1 s1 c1 Hv Hver Hs|]; subst;
    simpl; try done.
  intros [[= -> -> -> ->]|?]%elem_of_cons; [|done].
  apply verifyProof_Ok in Hver as (_ & t' & [= <-] & _ & Hd & _). done.
Qed.

(** A proof dies with its transaction. Once a token has been invalidated, no
    continuation of the history accepts another call under it: a proof can be
    neither stored for later nor carried into a retry attempt. *)
Theorem dead_token_accepts_nothing w w' c so t s :
  rtc step w w' → t ∈ dead w → (c, so, t, s) ∈ accepted w' → (c, so, t, s) ∈ accepted w.
Proof.
  induction 1 as [|w1 w2 w3 Hs _ IH]; intros Hd Hin; [done|].
  eapply step_dead_calls; [done|done|]. apply IH; [by eapply step_dead|done].
Qed.

(** Tenant data is reached only with the caller's own authority. A tenant
    call the boundary accepted names a scope for which the chokepoint minted a
    proof of the same operation, under the same attempt's token and on a
    database state that attempt observed, and the registry licenses the store
    operation for it. *)
Theorem tenant_call_authorized w c so t s :
  reachable w → (c, so, t, s) ∈ accepted w → pf_kind c = kindTenant →
  ∃ ctx R caller q, observes t R ∧ mints ctx R (Some t) caller (pf_op c) s q ∧
    permitsStoreOp registry (pf_op c) so = true.
Proof.
  intros [Hi Ha]%reachable_ok Hin Hk. destruct (Ha _ _ _ _ Hin) as (Hc & Htok & -> & Hp).
  destruct (Hi _ Hc) as (t' & _ & Hiss). pose proof (issues_tok _ _ Hiss) as Htok'.
  rewrite Htok in Htok'. injection Htok' as <-. unfold permitted_store_op in Hp. rewrite Hk in Hp.
  assert (∀ ctx R caller op scope q, observes t R → mints ctx R (Some t) caller op scope q →
    pf_kind q = kindTenant → pf_chain q = scope ∧ pf_op q = op) as Hq.
  { intros * Hl%observes_laws (spec & Hop & [(Hct & key & rule & grants & bound & H)|(_ & _ & _ & grants & H)])
      %mints_certified Hkq.
    - destruct (to_shape _ _ _ _ _ _ _ _ _ _ _ _ H) as (_ & Ho & _ & _).
      by apply to_chain, chain_exact in H.
    - destruct (io_shape _ _ _ _ _ _ _ H) as (Hk' & _). by rewrite Hkq in Hk'. }
  destruct Hiss as [ctx R caller op scope p Hl H|ctx R caller scope ids s0 s' p Hl H|site p H
         |R site scope s0 s' p _ H|ctx p H|ctx sc id p _ H|ctx sc rev p _ H].
  - destruct (Hq _ _ _ _ _ _ Hl H Hk) as [-> Hop]. rewrite Hop in *.
    exists ctx, R, caller, p. done.
  - apply AuthorizePublishKeys_Ok in H
      as (_ & _ & _ & q & id & s1 & s2 & _ & Hm & Hkq & Hoq & Hcq & _).
    assert (mints ctx R (Some t) caller OpValuePublish scope q) as Hmq by (by eapply mint_key).
    rewrite Hkq in Hk. destruct (Hq _ _ _ _ _ _ Hl Hmq Hk) as [Hch Hop].
    exists ctx, R, caller, q. rewrite Hcq, Hch, Hoq, Hop. split_and!; try done.
    by rewrite <-Hop, <-Hoq.
  - by apply SystemAuthority_Ok in H as ->.
  - by apply ScopedSystemAuthority_Ok in H as (? & _ & ->).
  - unfold SelfConfigSeedAuthority in H. destruct (IsNetwork ctx); [done|]. by injection H as <-.
  - by apply SelfConfigRuntimeAuthority_Ok in H as (_ & ? & ? & _ & _ & _ & _ & ->).
  - by apply SelfConfigRecoveryAuthority_Ok in H as (_ & _ & ? & ? & _ & _ & ->).
Qed.

End Attempts.

(** A silent operation cannot change state. A proof for an operation whose
    success emits no audit event is accepted only by read-only store
    operations, three reviewed read operations apart, and no audit insert is
    accepted for it at all. *)
Theorem silent_operation_read_only dead p so tok spec :
  pf_kind p ≠ kindSystem → registry !! pf_op p = Some spec → spec_events spec = [] →
  pf_op p ≠ OpDefinitionsPlanGet → pf_op p ≠ OpSCIMDiscovery → pf_op p ≠ OpProjectCapacityRead →
  (is_ok (Verify dead (Canonical p) so tok) = true → so ∈ readOnlyStoreOps) ∧
  (∀ et, is_ok (VerifyEvent dead (Canonical p) so tok et) = false).
Proof.
  intros Hk Hop Hev H1 H2 H3. destruct (shipped_spec_wf _ _ Hop) as [_ Hwf]. split.
  - intros [s Hv]%is_ok_true. apply Verify_Ok in Hv as (c & Hc & _).
    apply verifyProof_Ok in Hc as ([= <-] & t & _ & _ & _ & Hp).
    destruct (sw_silent _ _ Hwf Hev) as [(_ & _ & _ & Hro)|[?|[?|?]]]; [|congruence..].
    apply Hro. unfold permitted_store_op, permitsStoreOp in Hp. rewrite Hop in Hp.
    destruct (pf_kind p); [..|done]; by destruct (storeOps spec !! so) as [b|]; [eexists|].
  - intros et. unfold VerifyEvent. destruct (verifyProof dead (Canonical p) so tok) as [c|] eqn:E;
      [|done]. simpl. apply verifyProof_Ok in E as ([= <-] & _).
    assert (permitted_event p et = false) as ->; [|done].
    unfold permitted_event, permitsEvent. rewrite Hop, Hev. by destruct (pf_kind p).
Qed.

(** A history on the demonstration database: one attempt authorizes a reveal
    for alice, reads the sealed values, and ends. *)
Definition demo_proof : proof :=
  mkProof false false "" kindTenant OpValueReveal "" scope_e1 (Some 0) None [] None.

Lemma demo_history :
  reachable (λ _ R, R = demo_R) (λ _ _, False)
    (mkWorld 1 (Invalidate ∅ 0) [demo_proof]
       [(demo_proof, "values.List", 0, scope_e1)]).
Proof.
  assert (∃ s', Authorize registry demo_ctx demo_R (Some 0) (human "alice") OpValueReveal
    scope_e1 NewTxAuthorizer = (Ok demo_proof, s')) as [s' H].
  { rewrite registry_operationTable. vm_compute. by eexists. }
  assert (verifyProof ∅ (Canonical demo_proof) "values.List" (Some 0) = Ok demo_proof) as Hv.
  { apply verifyProof_Ok. split; [done|]. exists 0. split_and!; [done|done|set_solver|].
    unfold permitted_store_op, permitsStoreOp. rewrite registry_operationTable. by vm_compute. }
  unfold reachable, initial.
  eapply rtc_l; [apply step_begin|]. simpl.
  eapply rtc_l; [apply (step_issue _ _ _ 0 demo_proof)|]; simpl; [lia|set_solver| |].
  { eapply issue_mint; [done|]. by eapply mint_plain. }
  eapply rtc_l; [eapply (step_call _ _ _ (Canonical demo_proof) "values.List" 0 scope_e1
    demo_proof)|]; simpl.
  - intros q [= <-]. set_solver.
  - done.
  - apply Verify_Ok. eauto.
  - eapply rtc_l; [apply (step_end _ _ _ 0)|]. simpl. apply rtc_refl.
Qed.

Definition demo_world : World :=
  mkWorld 1 (Invalidate ∅ 0) [demo_proof] [(demo_proof, "values.List", 0, scope_e1)].

Lemma accepted_call_covered_witness :
  issues (λ _ R, R = demo_R) (λ _ _, False) 0 demo_proof ∧ permitted_store_op demo_proof "values.List" = true.
Proof.
  destruct (accepted_call_covered (λ _ R, R = demo_R) (λ _ _, False) demo_world demo_proof "values.List" 0 scope_e1)
    as (? & _ & ?); [exact demo_history|set_solver|done].
Defined.

Lemma dead_token_accepts_nothing_witness :
  (demo_proof, "values.List", 0, scope_e1) ∈ accepted demo_world.
Proof.
  apply (dead_token_accepts_nothing (λ _ R, R = demo_R) (λ _ _, False) demo_world
    (mkWorld 2 (Invalidate ∅ 0) [demo_proof] [(demo_proof, "values.List", 0, scope_e1)])
    demo_proof "values.List" 0 scope_e1).
  - apply rtc_once. apply step_begin.
  - unfold demo_world, Invalidate. set_solver.
  - set_solver.
Defined.

Lemma tenant_call_authorized_witness :
  ∃ ctx R caller q, R = demo_R ∧ mints ctx R (Some 0) caller OpValueReveal scope_e1 q ∧
    permitsStoreOp registry OpValueReveal "values.List" = true.
Proof.
  refine (tenant_call_authorized (λ _ R, R = demo_R) _ (λ _ _, False) demo_world demo_proof "values.List" 0
    scope_e1 demo_history _ _).
  - intros _ R ->. apply db_resolver_laws.
  - set_solver.
  - done.
Defined.

Lemma silent_operation_read_only_witness :
  let p := mkProof false false "" kindTenant OpKeyList "" scope_e1 (Some 0) None [] None in
  is_ok (Verify ∅ (Canonical p) "catalogue.List" (Some 0)) = true ∧
  "catalogue.List" ∈ readOnlyStoreOps.
Proof.
  intros p. assert (is_ok (Verify ∅ (Canonical p) "catalogue.List" (Some 0)) = true) as H.
  { unfold Verify, verifyProof, permitted_store_op, permitsStoreOp.
    rewrite registry_operationTable. by vm_compute. }
  split; [done|].
  assert (∃ spec, registry !! pf_op p = Some spec ∧ spec_events spec = []) as (spec & Hs & He).
  { rewrite registry_operationTable. vm_compute. by eexists. }
  by apply (silent_operation_read_only ∅ p "catalogue.List" (Some 0) spec).
Defined.
