(* ===== verification/AuthorizerAffordances.v ===== *)
(** * Affordances agree with the chokepoint

    The questions of [internal/authz/authorize.go] and [approval_rules.go] that
    answer without minting ([CallerHolds], [HoldsInstanceCapability],
    [CallerHoldsApprovalKeys], [RecordedPrincipalHolds]), related to what the
    minting entry points would answer on the same snapshot. *)

From stdpp Require Import prelude gmap strings list.
From S2P Require Import Prelude StringFacts Domain Rule Containment FreeText Resolver Tables.
From S2P Require Import Registry OperationTable RegistryFacts Evaluate Delegation Authorizer.
From S2P Require Import AuthorizerAudit AuthorizerSound Demo AuthorizerProps.

(** ** Reading the runs *)

Lemma rResolveChain_run R scope s :
  attempt (rResolveChain R scope) s = (Ok (ResolveChain R scope), log QChain s).
Proof. done. Qed.

Lemma deny_uniform {A} ctx principal op spec res chain claimed e s :
  uniform e →
  ∃ e' s', deny (A := A) ctx principal op spec res chain claimed e s = (Err e', s') ∧ uniform e'.
Proof.
  intros He. unfold deny. rewrite bind_run. unfold captureDenial.
  destruct (NewEventID ctx (minted s)); [destruct (denial_home res chain)|];
    by eexists e, _.
Qed.

(** The two classes rules apply to are outside every machine conjunct. *)
Lemma person_not_machine caller :
  PClass caller = "" ∨ PClass caller = ClassHuman → IsServiceAccountKind (PClass caller) = false.
Proof. by intros [->| ->]. Qed.

Lemma person_not_developer caller :
  PClass caller = "" ∨ PClass caller = ClassHuman → PClass caller ≠ ClassDeveloper.
Proof. by intros [->| ->]. Qed.

Lemma person_not_instance caller :
  PClass caller = "" ∨ PClass caller = ClassHuman → PClass caller ≠ ClassInstanceConn.
Proof. by intros [->| ->]. Qed.

Lemma person_rulesApply caller :
  PClass caller = "" ∨ PClass caller = ClassHuman → rulesApply caller = true.
Proof. unfold rulesApply. by intros [->| ->]. Qed.

(** Whether the bound organisation [org] is the one [chain] addresses. *)
Definition marked (org : OrgID) (chain : Scope) : bool :=
  bool_decide (org ≠ "") && bool_decide (Org chain = org).

(** What the profile permits, as a function of the mark. *)
Definition profile_permits (caller : Identity) (op : Operation) (chain : Scope)
    (grants : list Grant) (protected : bool) : bool :=
  if negb protected then bool_decide (op ≠ OpSelfConfigApply) && bool_decide (op ≠ OpSelfConfigTest)
  else negb (bool_decide (PClass caller ≠ "") && bool_decide (PClass caller ≠ ClassHuman))
    && Contains selfConfigOperations op
    && evaluate (mkAtom CapInstanceConfig LevelNone ::
          (if Contains selfConfigMemberOps op then [mkAtom CapManageMembers LevelNone] else []))
         chain grants.

Lemma selfConfigProfile_run caller op chain grants s :
  selfConfigProfile caller op chain grants s =
    (Ok (marked (selfConfigOrgID s) chain,
         profile_permits caller op chain grants (marked (selfConfigOrgID s) chain)), s).
Proof.
  unfold selfConfigProfile, profile_permits. rewrite bind_run. unfold rIsSelfConfigScope, gets.
  fold (marked (selfConfigOrgID s) chain).
  destruct (marked (selfConfigOrgID s) chain); cbn [negb]; [|done].
  destruct (bool_decide (PClass caller ≠ "") && bool_decide (PClass caller ≠ ClassHuman)); [done|].
  by destruct (Contains selfConfigOperations op).
Qed.

Lemma profile_permits_person caller caller' op chain grants b :
  PClass caller = "" ∨ PClass caller = ClassHuman →
  PClass caller' = "" ∨ PClass caller' = ClassHuman →
  profile_permits caller op chain grants b = profile_permits caller' op chain grants b.
Proof. unfold profile_permits. by intros [->| ->] [->| ->]. Qed.

(** A person with live state reaches the tenant path. *)
Lemma Authorize_person registry ctx R tok caller op scope spec s :
  PClass caller = "" ∨ PClass caller = ClassHuman → Principal caller ≠ "" →
  lookupSpec registry op = Some spec → as_class spec = ClassTenant →
  Authorize registry ctx R tok caller op scope s =
    authorizeTenant registry ctx R tok caller op spec scope None None (set_developer zeroIdentity s).
Proof.
  intros Hp Hne Hop Hc. unfold Authorize. rewrite Hop, Hc.
  rewrite (bool_decide_false (PClass caller = ClassDeveloper)) by by apply person_not_developer.
  rewrite bind_run. cbn [modify andb]. rewrite (bool_decide_false (Principal caller = "")) by done.
  rewrite (bool_decide_false (PClass caller = ClassInstanceConn)) by by apply person_not_instance.
  by rewrite andb_false_r.
Qed.

(** ** The tenant path of a person *)

Section person.
Context (registry : Registry) (ctx : Ctx) (R : Resolver) (tok : TxToken).
Context (caller : Identity) (person : PClass caller = "" ∨ PClass caller = ClassHuman).
Context (op : Operation) (Hcell : emptyCellOp op = false) (Hmint : op ≠ OpDeveloperCredentialMint).
Context (spec : authorizationSpec).

(** Both session conjuncts. *)
Definition session_adequate (org : OrgID) (chain : Scope) : bool :=
  negb (assuranceInadequate registry caller op)
  && negb (marked org chain && negb (selfConfigSessionEligible caller)).

Lemma eligible_person :
  selfConfigSessionEligible caller
  = bool_decide (SessionID caller = "") || AdequateAssurance (Assurance caller).
Proof. unfold selfConfigSessionEligible. by destruct person as [->| ->]. Qed.

Lemma conjunct_stages_person scope chain grants key bound navigation s :
  conjunct_stages registry ctx R tok caller op spec scope chain grants key bound navigation s =
  let org := selfConfigOrgID s in
  let refuse := deny (A := proof) ctx (Principal caller) op spec resolutionResolvable chain zeroScope in
  if negb (profile_permits caller op chain grants (marked org chain)) then refuse ErrNotFound s
  else if negb (session_adequate org chain) then refuse ErrUnauthorized s
  else (Ok (mkProof (marked org chain) false "" kindTenant op "" chain tok bound navigation None), s).
Proof.
  unfold conjunct_stages, publish_empty_refused, empty_cell_stage, protected_delete_stage.
  pose proof Hcell as Hc. unfold emptyCellOp in Hc. apply orb_false_iff in Hc as [-> _].
  rewrite Hcell. cbn [andb negb]. rewrite bind_run. cbn [ret].
  rewrite person_not_machine by done. cbn [andb]. rewrite bind_run. cbn [ret].
  rewrite bind_run, selfConfigProfile_run. cbv beta iota zeta.
  destruct (profile_permits _ _ _ _ _); cbn [negb]; [|done].
  unfold machineRevealWithdrawn. rewrite person_not_machine by done. cbn [negb orb].
  rewrite bind_run. cbn [ret]. unfold session_adequate. rewrite eligible_person, <-negb_orb, negb_involutive.
  rewrite negb_orb, <-bool_decide_not, andb_assoc. by destruct (_ || _).
Qed.

Lemma authorizeTenant_person scope chain grants org key s :
  ScopeLevel scope = Ok (as_level spec) →
  ResolveChain R scope = Ok chain → Grants R (Principal caller) = (Ok grants, org) →
  authorizeTenant registry ctx R tok caller op spec scope key None s =
  let s0 := set_selfConfigOrgID org (log QGrants (log QChain s)) in
  let tail := λ held bound navigation,
    if negb held
    then deny ctx (Principal caller) op spec resolutionResolvable chain zeroScope ErrNotFound
    else conjunct_stages registry ctx R tok caller op spec scope chain grants key bound navigation in
  let held := evaluate (as_formula spec) chain grants in
  if consults_rules caller op spec None held
  then (do! (held, bound, navigation) := rule_stage ctx R caller op spec chain grants key None in
        tail held bound navigation) s0
  else tail held None [] s0.
Proof.
  intros Hl Hc Hg. unfold authorizeTenant.
  rewrite bind_run, Hl. cbn [lift]. rewrite bool_decide_false by tauto. rewrite Hcell. cbn [andb].
  rewrite bind_run, rResolveChain_run, Hc. unfold resolved_stages, developer_stage.
  rewrite (bool_decide_false (PClass caller = ClassDeveloper)) by by apply person_not_developer.
  cbn [negb]. rewrite bind_run. cbn [ret]. rewrite bind_run, rGrants_run, Hg. cbn [fst snd].
  unfold grant_stage.
  rewrite (bool_decide_false (PClass caller = ClassDeveloper)) by by apply person_not_developer.
  rewrite (bool_decide_false (op = OpDeveloperCredentialMint)) by done. cbn [orb].
  rewrite bind_run. cbn [ret]. cbv zeta.
  by destruct (consults_rules caller op spec None (evaluate (as_formula spec) chain grants)).
Qed.
End person.

(** ** What [CallerHolds] answers *)

Lemma CallerHolds_run registry R caller op scope spec s b s1 :
  PClass caller = "" ∨ PClass caller = ClassHuman →
  lookupSpec registry op = Some spec →
  CallerHolds registry R caller op scope s = (Ok b, s1) →
  Principal caller ≠ "" ∧
  ((ResolveChain R scope = Err ErrNotFound ∧ b = false) ∨
   ∃ chain grants org, ResolveChain R scope = Ok chain ∧
     Grants R (Principal caller) = (Ok grants, org) ∧
     b = profile_permits caller op chain grants (marked org chain)
         && evaluate (as_formula spec) chain grants
         && session_adequate registry caller op org chain).
Proof.
  intros Hp Hop. unfold CallerHolds, principalFormulaEvaluation. rewrite Hop.
  destruct (bool_decide_reflect (Principal caller = "")) as [|Hne]; [done|].
  intros ([[spec' chain] holds] & s2 & H & Hrest)%bind_Ok. split; [done|]. revert H.
  rewrite bind_run, rResolveChain_run. destruct (ResolveChain R scope) as [chain'|[]]; try done.
  2: { intros [= <- <- <- <-]. injection Hrest as <- _. by left. }
  rewrite bind_run, rGrants_run. destruct (Grants R (Principal caller)) as [[grants|e] org]; [|done].
  cbn [fst snd]. rewrite bind_run, selfConfigProfile_run. cbn [selfConfigOrgID set_selfConfigOrgID].
  intros [= <- <- <- <-]. right. exists chain', grants, org. split_and!; [done..|].
  revert Hrest.
  rewrite (profile_permits_person _ caller) by auto.
  set (pp := profile_permits caller op chain' grants (marked org chain')).
  destruct (pp && evaluate (as_formula spec) chain' grants); cbn [negb andb]; [|by intros [= <- _]].
  rewrite bind_run. unfold rIsSelfConfigScope, gets. cbn [selfConfigOrgID set_selfConfigOrgID].
  fold (marked org chain'). unfold session_adequate.
  destruct (marked org chain' && negb (selfConfigSessionEligible caller)); intros [= <- _];
    cbn [negb]; by rewrite ?andb_false_r, ?andb_true_r.
Qed.

(** The affordance agrees with the chokepoint. For a person and a tenant
    operation that needs no key target, whenever [CallerHolds] answers, its
    [true] means that [Authorize] on the same snapshot mints a proof; and when
    neither member rules nor the navigation projection can serve the operation,
    its [false] means that [Authorize] refuses uniformly. *)
Theorem CallerHolds_agrees ctx R tok caller op scope spec s b s1 :
  PClass caller = "" ∨ PClass caller = ClassHuman →
  lookupSpec registry op = Some spec → as_class spec = ClassTenant →
  ScopeLevel scope = Ok (as_level spec) →
  emptyCellOp op = false → op ≠ OpDeveloperCredentialMint →
  CallerHolds registry R caller op scope s = (Ok b, s1) →
  (b = true → ∃ p s2, Authorize registry ctx R tok caller op scope s = (Ok p, s2)) ∧
  (b = false → ruleSatisfiable (as_formula spec) = false → ruleNavigationOperation op = false →
   (∃ grants, (Grants R (Principal caller)).1 = Ok grants) →
   ∃ e s2, Authorize registry ctx R tok caller op scope s = (Err e, s2) ∧ uniform e).
Proof.
  intros Hp Hop Hc Hl Hcell Hm H.
  apply (CallerHolds_run _ _ _ _ _ spec) in H as (Hne & Hcase); [|done..].
  rewrite (Authorize_person _ _ _ _ _ _ _ spec) by done.
  destruct Hcase as [[Hnf ->]|(chain & grants & org & Hch & Hg & ->)].
  - split; [done|]. intros _ Hrs Hnav [grants Hg]. unfold authorizeTenant.
    rewrite bind_run, Hl. cbn [lift]. rewrite bool_decide_false by tauto. rewrite Hcell. cbn [andb].
    rewrite bind_run, rResolveChain_run, Hnf. unfold missingScopeRefusalWork.
    rewrite person_rulesApply, Hrs, Hnav by done. cbn [negb orb andb].
    rewrite bool_decide_true by done. rewrite bind_run, bind_run, rGrants_run, Hg.
    apply deny_uniform. by left.
  - rewrite (authorizeTenant_person _ _ _ _ _ Hp _ Hcell Hm _ _ _ _ _ _ _ Hl Hch Hg). cbv zeta.
    unfold consults_rules. rewrite (bool_decide_false (op = OpDeveloperCredentialMint)) by done.
    rewrite person_rulesApply, (bool_decide_false (None ≠ None)) by (done || tauto). cbn [negb andb].
    rewrite orb_false_r.
    split.
    + intros Hb. apply andb_true_iff in Hb as [[Hpp Hev]%andb_true_iff Hs]. rewrite Hev.
      cbn [negb]. rewrite andb_false_r.
      rewrite (conjunct_stages_person _ _ _ _ _ Hp _ Hcell). cbv zeta.
      cbn [selfConfigOrgID set_selfConfigOrgID]. rewrite Hpp, Hs. cbn [negb]. eauto.
    + intros Hb Hrs Hnav _. rewrite Hrs, Hnav. cbn [orb andb].
      destruct (evaluate (as_formula spec) chain grants); cbn [negb].
      2: { apply deny_uniform. by left. }
      rewrite (conjunct_stages_person _ _ _ _ _ Hp _ Hcell). cbv zeta.
      cbn [selfConfigOrgID set_selfConfigOrgID]. rewrite andb_true_r in Hb.
      apply andb_false_iff in Hb as [-> | Hs]; cbn [negb]; [apply deny_uniform; by left|].
      rewrite Hs. cbn [negb]. case_match; apply deny_uniform; [by left|by right].
Qed.

Lemma CallerHolds_agrees_witness :
  ∃ p s2, Authorize registry demo_ctx demo_R demo_tok (human "alice") OpValueReveal scope_e1
    NewTxAuthorizer = (Ok p, s2).
Proof.
  assert (∃ s1, CallerHolds registry demo_R (human "alice") OpValueReveal scope_e1 NewTxAuthorizer
    = (Ok true, s1)) as [s1 H].
  { rewrite registry_operationTable. vm_compute. by eexists. }
  assert (∃ spec, lookupSpec registry OpValueReveal = Some spec ∧ as_class spec = ClassTenant ∧
    as_level spec = LevelEnv) as (spec & Hop & Hc & Hl).
  { rewrite registry_operationTable. vm_compute. by eexists. }
  destruct (CallerHolds_agrees demo_ctx demo_R demo_tok (human "alice") OpValueReveal scope_e1 spec
    NewTxAuthorizer true s1) as [Ht _]; [by right|done|done|by rewrite Hl|done|done|done|].
  by apply Ht.
Defined.

(** ** Instance capabilities *)

(** The formulas of the three self-configuration instance operations demand
    MFA, so their session test is the floor every operation has. *)
Lemma selfConfigInstance_mfa op :
  selfConfigInstanceOp op = true → FormulaDemandsMFA registry op = true.
Proof.
  unfold selfConfigInstanceOp. intros H%Contains_true. rewrite registry_operationTable.
  repeat (apply elem_of_cons in H as [->|H]; [by vm_compute|]). by apply elem_of_nil in H.
Qed.

(** What both the question and the chokepoint come to. *)
Definition instance_permitted (caller : Identity) (op : Operation) (spec : authorizationSpec)
    (grants : list Grant) : bool :=
  negb (selfConfigInstanceOp op && bool_decide (PClass caller ≠ "")
        && bool_decide (PClass caller ≠ ClassHuman))
  && evaluate (as_formula spec) zeroScope grants && negb (assuranceInadequate registry caller op).

Lemma authorizeInstance_run ctx R tok caller op spec grants s :
  (Grants R (Principal caller)).1 = Ok grants →
  if instance_permitted caller op spec grants
  then ∃ p s2, authorizeInstance registry ctx R tok caller op spec s = (Ok p, s2)
  else ∃ s2, authorizeInstance registry ctx R tok caller op spec s = (Err ErrUnauthorized, s2).
Proof.
  intros Hg.
  assert (∀ s', ∃ s2, deny (A := proof) ctx (Principal caller) op spec resolutionResolvable zeroScope
    zeroScope ErrUnauthorized s' = (Err ErrUnauthorized, s2)) as Hdeny.
  { intros s'. unfold deny. rewrite bind_run. unfold captureDenial.
    destruct (NewEventID ctx _); [destruct (denial_home _ _)|]; by eexists. }
  unfold authorizeInstance, instance_permitted.
  destruct (selfConfigInstanceOp op && bool_decide (PClass caller ≠ "")
            && bool_decide (PClass caller ≠ ClassHuman)); cbn [negb andb]; [done|].
  rewrite bind_run, rGrants_run, Hg.
  destruct (evaluate (as_formula spec) zeroScope grants); cbn [negb andb]; [|done].
  destruct (assuranceInadequate registry caller op); cbn [negb]; [done|]. by do 2 eexists.
Qed.

Lemma HoldsInstanceCapability_run R caller op s b s1 :
  HoldsInstanceCapability registry R caller op s = (Ok b, s1) →
  ∃ spec, lookupSpec registry op = Some spec ∧ as_class spec = ClassInstance ∧
    Principal caller ≠ "" ∧
    ∀ grants, (Grants R (Principal caller)).1 = Ok grants →
      b = instance_permitted caller op spec grants.
Proof.
  unfold HoldsInstanceCapability. destruct (bool_decide_reflect (Principal caller = "")); [done|].
  destruct (lookupSpec registry op) as [spec|] eqn:Hop; [|done].
  destruct (bool_decide_reflect (as_class spec ≠ ClassInstance)) as [|Hc%dec_stable]; [done|].
  intros H. exists spec. split_and!; [done..|]. intros grants Hg. revert H.
  unfold instance_permitted.
  destruct (selfConfigInstanceOp op) eqn:Hsc; cbn [andb].
  - rewrite !bool_decide_not, <-negb_orb, negb_involutive. unfold selfConfigSessionEligible.
    unfold assuranceInadequate. rewrite selfConfigInstance_mfa, bool_decide_not by done.
    destruct (bool_decide (PClass caller = "") || bool_decide (PClass caller = ClassHuman));
      cbn [negb andb]; [|by intros [= <- _]].
    destruct (bool_decide (SessionID caller = "")), (AdequateAssurance (Assurance caller));
      cbn [negb andb orb]; rewrite ?bind_run, ?rGrants_run, ?Hg;
      destruct (evaluate (as_formula spec) zeroScope grants); by intros [= <- _].
  - rewrite bind_run, rGrants_run, Hg.
    destruct (evaluate (as_formula spec) zeroScope grants); cbn [negb andb]; by intros [= <- _].
Qed.

(** The instance affordance is exact. For every caller other than a developer
    or an instance connector, whenever [HoldsInstanceCapability] answers, its
    answer says whether [Authorize] mints the instance proof on the same
    snapshot, and the refusal it predicts is [ErrUnauthorized]. *)
Theorem HoldsInstanceCapability_exact ctx R tok caller op s b s1 :
  PClass caller ≠ ClassDeveloper → PClass caller ≠ ClassInstanceConn →
  HoldsInstanceCapability registry R caller op s = (Ok b, s1) →
  (∃ grants, (Grants R (Principal caller)).1 = Ok grants) →
  if b then ∃ p s2, Authorize registry ctx R tok caller op zeroScope s = (Ok p, s2)
  else ∃ s2, Authorize registry ctx R tok caller op zeroScope s = (Err ErrUnauthorized, s2).
Proof.
  intros Hd Hi (spec & Hop & Hc & Hne & Hb)%HoldsInstanceCapability_run [grants Hg].
  rewrite (Hb grants Hg). unfold Authorize. rewrite Hop, Hc.
  rewrite (bool_decide_false (PClass caller = ClassDeveloper)) by done.
  rewrite (bool_decide_false (PClass caller = ClassInstanceConn)) by done. rewrite andb_false_r.
  rewrite (bool_decide_false (Principal caller = "")) by done.
  rewrite (bool_decide_false (zeroScope ≠ zeroScope)) by tauto. cbn [andb].
  rewrite bind_run. by apply authorizeInstance_run.
Qed.

Lemma HoldsInstanceCapability_exact_witness :
  (∃ p s2, Authorize registry demo_ctx demo_R demo_tok (human "root") OpRotateDEK zeroScope
    NewTxAuthorizer = (Ok p, s2)) ∧
  ∃ s2, Authorize registry demo_ctx demo_R demo_tok (human "alice") OpRotateDEK zeroScope
    NewTxAuthorizer = (Err ErrUnauthorized, s2).
Proof.
  assert (∀ who b, (who = "root" ∧ b = true) ∨ (who = "alice" ∧ b = false) → ∃ s1,
    HoldsInstanceCapability registry demo_R (human who) OpRotateDEK NewTxAuthorizer = (Ok b, s1)) as H.
  { rewrite registry_operationTable. intros ? ? [[-> ->]|[-> ->]]; vm_compute; by eexists. }
  split.
  - destruct (H "root" true) as [s1 Hr]; [by left|].
    apply (HoldsInstanceCapability_exact demo_ctx demo_R demo_tok (human "root") OpRotateDEK
      NewTxAuthorizer true s1); [done|done|done|]. vm_compute. by eexists.
  - destruct (H "alice" false) as [s1 Hr]; [by right|].
    apply (HoldsInstanceCapability_exact demo_ctx demo_R demo_tok (human "alice") OpRotateDEK
      NewTxAuthorizer false s1); [done|done|done|]. vm_compute. by eexists.
Defined.

(** ** Approval votes over several keys *)

Lemma approval_loop_true R spec chain grants rules walked ids s s' :
  approval_loop R spec chain grants rules walked ids s = (Ok true, s') →
  NoDup ids ∧ ∀ id, id ∈ ids → id ≠ "" ∧ (id ∉ walked) ∧ ∃ key,
    ResolveRuleKey R (Org chain) (Project chain) id "" = Ok key ∧
    evaluateWithRules (as_formula spec) chain grants rules (Some key) = true.
Proof.
  revert walked s. induction ids as [|id ids IH]; intros walked s; cbn [approval_loop].
  { intros _. split; [constructor|]. by intros id ?%elem_of_nil. }
  destruct (bool_decide_reflect (id = "")) as [|Hne]; [done|]. cbn [orb].
  destruct (Contains walked id) eqn:Hw; [done|]. rewrite bind_run, attempt_run, query_run.
  cbn [fst snd]. destruct (ResolveRuleKey R (Org chain) (Project chain) id "") as [key|[]] eqn:Hk;
    try done.
  destruct (evaluateWithRules (as_formula spec) chain grants rules (Some key)) eqn:He;
    cbn [negb]; [|done].
  intros (Hnd & Hall)%IH. apply Contains_false in Hw. split.
  - constructor; [|done]. intros (_ & Hnot & _)%Hall. apply Hnot, elem_of_app. right. set_solver.
  - intros id' [->|Hin]%elem_of_cons; [eauto|]. destruct (Hall _ Hin) as (? & Hnot & ?).
    split_and!; [done| |done]. intros ?. apply Hnot, elem_of_app. by left.
Qed.

(** A person whose grants and rules satisfy a rule-satisfiable formula for the
    addressed key is served by the key-aware entry point. *)
Lemma AuthorizeKey_person ctx R tok caller op scope spec chain grants org rules id key s :
  PClass caller = "" ∨ PClass caller = ClassHuman → Principal caller ≠ "" →
  lookupSpec registry op = Some spec → as_class spec = ClassTenant →
  ScopeLevel scope = Ok (as_level spec) → emptyCellOp op = false →
  op ≠ OpDeveloperCredentialMint → ruleSatisfiable (as_formula spec) = true →
  ResolveChain R scope = Ok chain → Grants R (Principal caller) = (Ok grants, org) →
  Rules R (Principal caller) = Ok rules →
  ResolveRuleKey R (Org chain) (Project chain) id "" = Ok key →
  evaluateWithRules (as_formula spec) chain grants rules (Some key) = true →
  profile_permits caller op chain grants (marked org chain) = true →
  session_adequate registry caller op org chain = true →
  ∃ p s2, AuthorizeKey registry ctx R tok caller op scope (KeyByID id) s = (Ok p, s2).
Proof.
  intros Hp Hne Hop Hc Hl Hcell Hm Hrs Hch Hg Hr Hk He Hpp Hs. unfold AuthorizeKey.
  rewrite Hop, (bool_decide_false (as_class spec ≠ ClassTenant)) by tauto.
  rewrite (bool_decide_false (Principal caller = "")) by done.
  rewrite (bool_decide_false (PClass caller = ClassInstanceConn)) by by apply person_not_instance.
  rewrite (authorizeTenant_person _ _ _ _ _ Hp _ Hcell Hm _ _ _ _ _ _ _ Hl Hch Hg). cbv zeta.
  unfold consults_rules. rewrite (bool_decide_false (op = OpDeveloperCredentialMint)) by done.
  rewrite person_rulesApply, Hrs, (bool_decide_false (None ≠ None)) by (done || tauto).
  rewrite orb_false_r. cbn [negb andb orb].
  assert (∀ bound nav s', selfConfigOrgID s' = org → ∃ p s2,
    conjunct_stages registry ctx R tok caller op spec scope chain grants (Some (KeyByID id)) bound
      nav s' = (Ok p, s2)) as Hconj.
  { intros bound nav s' Ho. rewrite (conjunct_stages_person _ _ _ _ _ Hp _ Hcell). cbv zeta.
    rewrite Ho, Hpp, Hs. cbn [negb]. eauto. }
  destruct (evaluate (as_formula spec) chain grants); cbn [negb]; [by apply Hconj|].
  unfold rule_stage, rRules, or_deny, resolveKeyTarget.
  rewrite !bind_run, query_run, Hr. cbv iota beta. rewrite !bind_run, attempt_run, query_run, Hk.
  cbn [fst snd lift ret]. rewrite He. cbn [ret negb]. by apply Hconj.
Qed.

(** The quorum check counts only votes the voter could cast now. When
    [CallerHoldsApprovalKeys] answers [true] for a person, the pinned keys are
    distinct, named and at least one, and the key-aware chokepoint mints an
    approval-vote proof for each of them on the same snapshot. *)
Theorem approval_keys_votable ctx R tok caller scope ids s s1 :
  PClass caller = "" ∨ PClass caller = ClassHuman →
  CallerHoldsApprovalKeys registry R caller scope ids s = (Ok true, s1) →
  ids ≠ [] ∧ NoDup ids ∧ ∀ id, id ∈ ids → id ≠ "" ∧ ∃ p s2,
    AuthorizeKey registry ctx R tok caller OpApprovalVote scope (KeyByID id) s = (Ok p, s2).
Proof.
  intros Hp. unfold CallerHoldsApprovalKeys.
  destruct (bool_decide_reflect (Principal caller = "")) as [|Hne]; [done|].
  destruct (Nat.eqb_spec (length ids) 0) as [|Hids]; [done|].
  assert (∃ spec, lookupSpec registry OpApprovalVote = Some spec ∧ as_class spec = ClassTenant ∧
    ruleSatisfiable (as_formula spec) = true) as (spec & Hop & Hc & Hrs).
  { rewrite registry_operationTable. vm_compute. by eexists. }
  rewrite Hop. destruct (ScopeLevel scope) as [level|] eqn:Hl; [|done].
  destruct (bool_decide_reflect (level ≠ as_level spec)) as [|Hlv%dec_stable]; [done|].
  rewrite bind_run, rResolveChain_run. destruct (ResolveChain R scope) as [chain|[]] eqn:Hch; try done.
  rewrite bind_run, rGrants_run. destruct (Grants R (Principal caller)) as [[grants|] org] eqn:Hg;
    [|done]. cbn [fst snd].
  rewrite bind_run, selfConfigProfile_run. cbn [selfConfigOrgID set_selfConfigOrgID].
  destruct (profile_permits _ _ _ _ _) eqn:Hpp; cbn [negb]; [|done].
  destruct (_ || _) eqn:Hs; [done|]. rewrite person_rulesApply by done. unfold rRules.
  rewrite bind_run, query_run. destruct (Rules R (Principal caller)) as [rules|] eqn:Hr; [|done].
  intros [Hnd Hall]%approval_loop_true. split_and!; [by destruct ids|done|]. intros id Hid.
  destruct (Hall id Hid) as (Hnz & _ & key & Hk & He). split; [done|]. subst level.
  eapply AuthorizeKey_person; try done. unfold session_adequate. by rewrite <-negb_orb, Hs.
Qed.

Lemma approval_keys_votable_witness :
  ∃ p s2, AuthorizeKey registry demo_ctx demo_R demo_tok (human "alice") OpApprovalVote scope_e1
    (KeyByID "k2") NewTxAuthorizer = (Ok p, s2).
Proof.
  assert (∃ s1, CallerHoldsApprovalKeys registry demo_R (human "alice") scope_e1 ["k1"; "k2"]
    NewTxAuthorizer = (Ok true, s1)) as [s1 H].
  { rewrite registry_operationTable. vm_compute. by eexists. }
  destruct (approval_keys_votable demo_ctx demo_R demo_tok (human "alice") scope_e1 ["k1"; "k2"]
    NewTxAuthorizer s1) as (_ & _ & Hk); [by right|done|].
  apply (Hk "k2"). set_solver.
Defined.
