(* ===== verification/KeyDefinition.v ===== *)
(** * The key-definition affordance: [internal/authz/key_definition_affordance.go]

    [CallerCanDefineKeys] answers, without minting, whether the caller could
    create or edit some catalogue key of a project. It tries finitely many
    virtual folders; the theorem here shows that they decide the question the
    chokepoint would answer over all folders. *)

From stdpp Require Import prelude gmap strings pretty list.
From S2P Require Import Prelude StringFacts Domain Rule Containment FreeText Resolver Tables.
From S2P Require Import Registry OperationTable RegistryFacts Evaluate Delegation Authorizer.
From S2P Require Import AuthorizerAudit AuthorizerSound Demo AuthorizerProps.
From S2P Require Import AuthorizerAffordances.

Definition OpKeyCreate : Operation := "key.create".

(** The virtual creation targets: the root and numbered folders. *)
Definition affordance_folder (i : nat) : string :=
  if Nat.ltb 0 i then "definition-affordance-" +:+ pretty i else "".

Definition defines (chain : Scope) (rule : Rule) (key : RuleKey) : bool :=
  Reaches rule CapDefinitionsEdit LevelProject chain (Some key).

(** What one rule offers: [(creatable, editable)]. *)
Definition rule_affordance (chain : Scope) (rule : Rule) : bool * bool :=
  if bool_decide (Rule_Org rule ≠ Org chain) || bool_decide (Rule_Capability rule ≠ CapDefinitionsEdit)
     || negb (is_ok (Validate rule)) || negb (Contains (Projects (Rule_Where rule)) (Project chain))
  then (false, false) else
  let items := mget (Keys (Rule_Where rule)) (Project chain) in
  if bool_decide (KeyMode (Rule_Where rule) = AxisAll) then
    let hit := existsb (λ i, defines chain rule (mkRuleKey "" (affordance_folder i)))
                 (seq 0 (length items + 2)) in
    (hit, hit)
  else
    let hit item := defines chain rule (mkRuleKey (Item_KeyID item) (Item_Folder item)) in
    (existsb (λ item, hit item && Item_IsFolder item) items, existsb hit items).

(** The loop over the caller's rules. *)
Definition rules_affordance (chain : Scope) (rules : list Rule) : bool * bool :=
  foldl (λ acc rule, let '(c, e) := rule_affordance chain rule in (acc.1 || c, acc.2 || e))
    (false, false) rules.

Section affordance.
Context (registry : Registry) (R : Resolver).

Definition CallerCanDefineKeys (caller : Identity) (scope : Scope) : M (bool * bool) :=
  if bool_decide (Principal caller = "") then fail (Loud "authz: empty principal") else
  match ScopeLevel scope with
  | Ok LevelProject =>
      do! chain := rResolveChain R scope in
      do! grants := rGrants R (Principal caller) in
      do! (protected, permitted) := selfConfigProfile caller OpKeyCreate chain grants in
      if negb permitted || protected && negb (selfConfigSessionEligible caller)
         || assuranceInadequate registry caller OpKeyCreate
      then ret (false, false) else
      match lookupSpec registry OpKeyCreate with
      | None => fail (Loud "authz: key create is not registered")
      | Some spec =>
          if evaluate (as_formula spec) chain grants then ret (true, true) else
          if negb (rulesApply caller) then ret (false, false) else
          do! rules := rRules R (Principal caller) in
          ret (rules_affordance chain rules)
      end
  | _ => fail (Loud "authz: key definition affordance requires a project")
  end.
End affordance.

(** ** The virtual folders decide *)

Lemma affordance_no_slash i : has_char slash (affordance_folder i) = false.
Proof.
  unfold affordance_folder. destruct (Nat.ltb 0 i); [|done].
  by rewrite has_char_append, pretty_nat_no_slash.
Qed.

Lemma affordance_inj i j : 0 < i → affordance_folder i = affordance_folder j → i = j.
Proof.
  unfold affordance_folder. intros Hi. rewrite (proj2 (Nat.ltb_lt 0 i)) by lia.
  destruct (Nat.ltb_spec 0 j) as [Hj|Hj]; [|done]. intros H%append_cancel_l.
  by apply (inj pretty) in H.
Qed.

Lemma reaches_selector_items mode key items :
  mode = AxisAll ∨ mode = AxisOnly →
  ContainsFunc items (reaches_item mode key) = ContainsFunc items (selector_item mode key).
Proof.
  intros Hm. unfold ContainsFunc. induction items as [|it items IH]; [done|]. cbn.
  by rewrite reaches_item_selector, IH.
Qed.

(** The conditions of a definitions-edit project atom that no key changes. *)
Definition project_reach (chain : Scope) (rule : Rule) : Prop :=
  Rule_Capability rule = CapDefinitionsEdit ∧ Org chain = Rule_Org rule ∧
  Project chain ∈ Projects (Rule_Where rule) ∧
  ¬ (EnvMode (Rule_Where rule) = AxisOnly ∧ mget (Envs (Rule_Where rule)) (Project chain) = []).

Lemma defines_iff chain rule key :
  Validate rule = Ok tt →
  defines chain rule key = true ↔
  project_reach chain rule ∧ selectorKeyMatches (Rule_Where rule) (Project chain) key = true.
Proof.
  intros [_ Hkm]%Validate_modes. unfold defines, Reaches, project_reach.
  rewrite (bool_decide_false (CapDefinitionsEdit = CapManageMembers)) by done.
  rewrite (bool_decide_false (CapDefinitionsEdit = CapRead)) by done. rewrite orb_false_r.
  destruct (bool_decide_reflect (CapDefinitionsEdit ≠ Rule_Capability rule)) as [|Hc%dec_stable];
    [naive_solver|].
  destruct (bool_decide_reflect (Org chain ≠ Rule_Org rule)) as [|Ho%dec_stable]; [naive_solver|].
  cbn [orb]. destruct (Contains (Projects (Rule_Where rule)) (Project chain)) eqn:Hp; cbn [negb].
  2: { apply Contains_false in Hp. naive_solver. }
  apply Contains_true in Hp. cbn [reaches_level]. rewrite bool_decide_true by done.
  rewrite bool_decide_true by by eexists. cbn [andb].
  assert (negb (bool_decide (EnvMode (Rule_Where rule) = AxisOnly)
      && Nat.eqb (length (mget (Envs (Rule_Where rule)) (Project chain))) 0) = true ↔
    ¬ (EnvMode (Rule_Where rule) = AxisOnly ∧ mget (Envs (Rule_Where rule)) (Project chain) = []))
    as Henv.
  { rewrite negb_true_iff, <-not_true_iff_false, andb_true_iff, bool_decide_eq_true, Nat.eqb_eq.
    by rewrite length_zero_iff_nil. }
  destruct (negb (bool_decide _ && _)) eqn:He; cbn [negb]; [|naive_solver].
  assert (∀ b : bool, b = selectorKeyMatches (Rule_Where rule) (Project chain) key →
    (b = true ↔ (Rule_Capability rule = CapDefinitionsEdit ∧ Org chain = Rule_Org rule ∧
      Project chain ∈ Projects (Rule_Where rule) ∧
      ¬ (EnvMode (Rule_Where rule) = AxisOnly ∧
         mget (Envs (Rule_Where rule)) (Project chain) = [])) ∧
      selectorKeyMatches (Rule_Where rule) (Project chain) key = true)) as Hgoal by naive_solver.
  apply Hgoal. clear Hgoal. unfold selectorKeyMatches.
  rewrite <-(reaches_selector_items _ _ _ Hkm).
  destruct Hkm as [-> | ->]; cbn.
  - by destruct (mget (Keys (Rule_Where rule)) (Project chain)).
  - by rewrite orb_false_r.
Qed.

(** A folder exclusion covers at most one virtual folder. *)
Lemma affordance_excluded mode i it :
  selector_item mode (mkRuleKey "" (affordance_folder i)) it = true →
  Item_IsFolder it = true ∧ Item_Folder it = affordance_folder i.
Proof.
  unfold selector_item. cbn [Key_ID Key_Folder]. destruct (Item_IsFolder it); cbn [negb]; [|done].
  intros H. split; [done|]. case_bool_decide.
  - symmetry. apply no_slash_within; [apply affordance_no_slash|done].
  - by apply bool_decide_eq_true in H.
Qed.

(** Finite exclusions leave some virtual folder free. *)
Lemma affordance_free (items : list RuleKeyItem) :
  ∃ i, i < length items + 2 ∧
    ContainsFunc items (selector_item AxisAll (mkRuleKey "" (affordance_folder i))) = false.
Proof.
  destruct (existsb (λ i, negb (ContainsFunc items
    (selector_item AxisAll (mkRuleKey "" (affordance_folder i))))) (seq 0 (length items + 2))) eqn:Hex.
  { apply existsb_true in Hex as (i & Hi%elem_of_seq & H%negb_true_iff). exists i. split; [lia|done]. }
  rewrite existsb_false in Hex.
  exfalso. assert (S (length items) ≤ length items); [|lia].
  apply (pigeonhole_rel (λ j it, Item_Folder it = affordance_folder (S j))).
  - intros j Hj.
    destruct (ContainsFunc items (selector_item AxisAll (mkRuleKey "" (affordance_folder (S j)))))
      eqn:E.
    + apply ContainsFunc_true in E as (it & Hit & Hsel). exists it. split; [done|].
      by apply affordance_excluded in Hsel as [_ ?].
    + assert (S j ∈ seq 0 (length items + 2)) as Hin by (apply elem_of_seq; lia).
      apply Hex in Hin. by rewrite E in Hin.
  - intros j k it Hj Hk. rewrite Hj in Hk. apply affordance_inj in Hk; lia.
Qed.

(** A folder item of a valid rule names no key. *)
Lemma valid_folder_item rule project : Validate rule = Ok tt →
  ∀ it, it ∈ mget (Keys (Rule_Where rule)) project → Item_IsFolder it = true → Item_KeyID it = "".
Proof.
  intros Hwf%Validate_wf it Hit Hfo. unfold mget in Hit.
  destruct (Keys (Rule_Where rule) !! project) as [items|] eqn:Hk; [|by apply elem_of_nil in Hit].
  destruct (wf_keys _ Hwf _ _ Hk) as (_ & _ & Hbad). specialize (Hbad it Hit).
  unfold bad_item in Hbad. rewrite Hfo in Hbad. cbn in Hbad.
  apply bool_decide_eq_false in Hbad. by apply dec_stable in Hbad.
Qed.

Lemma rule_affordance_create chain rule :
  (rule_affordance chain rule).1 = true ↔
  Validate rule = Ok tt ∧ ∃ folder, defines chain rule (mkRuleKey "" folder) = true.
Proof.
  unfold rule_affordance. destruct (is_ok (Validate rule)) eqn:Hv.
  2: { rewrite orb_true_r. cbn. split; [done|]. intros [H _]. by rewrite H in Hv. }
  apply is_ok_true in Hv as [[] Hv]. pose proof (Validate_modes _ Hv) as [_ Hkm].
  destruct (_ || _ || _ || _) eqn:Hg.
  { cbn. split; [done|]. intros (_ & folder & ((Hc & Ho & Hp & _) & _)%defines_iff); [|done].
    exfalso. revert Hg. rewrite Hc, <-Ho. rewrite !bool_decide_false by tauto.
    by apply Contains_true in Hp as ->. }
  destruct Hkm as [Hm|Hm]; rewrite Hm; cbn [fst].
  - rewrite bool_decide_true by done. cbn [fst]. rewrite existsb_true. split.
    + intros (i & _ & Hd). eauto.
    + intros (_ & folder & (Hpr & _)%defines_iff); [|done].
      destruct (affordance_free (mget (Keys (Rule_Where rule)) (Project chain))) as (i & Hi & Hf).
      exists i. split; [apply elem_of_seq; lia|]. apply defines_iff; [done|]. split; [done|].
      unfold selectorKeyMatches. by rewrite Hm, Hf.
  - rewrite bool_decide_false by (by rewrite ?Hm). cbn [fst].
    pose proof (valid_folder_item rule (Project chain) Hv) as Hid.
    rewrite existsb_true. split.
    + intros (it & Hit & [Hd Hfo]%andb_true_iff). rewrite (Hid it Hit Hfo) in Hd. eauto.
    + intros (_ & folder & (Hpr & Hsel)%defines_iff); [|done].
      apply selectorKeyMatches_only in Hsel as (it & Hit & Hs); [|done].
      exists it. split; [done|]. apply andb_true_iff.
      assert (Item_IsFolder it = true ∧ Item_Folder it = folder) as [Hfo <-].
      { unfold selector_item in Hs. destruct (Item_IsFolder it); [|done]. cbn in Hs.
        by apply bool_decide_eq_true in Hs. }
      split; [|done]. rewrite (Hid it Hit Hfo). apply defines_iff; [done|]. split; [done|].
      apply selectorKeyMatches_only; [done|]. eauto.
Qed.

Lemma rule_affordance_edit chain rule :
  (rule_affordance chain rule).1 = true → (rule_affordance chain rule).2 = true.
Proof.
  unfold rule_affordance. destruct (_ || _ || _ || _); [done|]. case_bool_decide; [done|].
  cbn. rewrite !existsb_true. intros (it & Hit & [? _]%andb_true_iff). eauto.
Qed.

Lemma rules_affordance_spec chain rules :
  ((rules_affordance chain rules).1 = true ↔
     ∃ r, r ∈ rules ∧ (rule_affordance chain r).1 = true) ∧
  ((rules_affordance chain rules).2 = true ↔
     ∃ r, r ∈ rules ∧ (rule_affordance chain r).2 = true).
Proof.
  assert (∀ acc, let R := foldl (λ acc rule, let '(c, e) := rule_affordance chain rule in
      (acc.1 || c, acc.2 || e)) acc rules in
    (R.1 = true ↔ acc.1 = true ∨ ∃ r, r ∈ rules ∧ (rule_affordance chain r).1 = true) ∧
    (R.2 = true ↔ acc.2 = true ∨ ∃ r, r ∈ rules ∧ (rule_affordance chain r).2 = true)) as H.
  { induction rules as [|r rules IH]; intros acc; cbn [foldl].
    { rewrite !ex_elem_nil. tauto. }
    destruct (IH (let '(c, e) := rule_affordance chain r in (acc.1 || c, acc.2 || e))) as [-> ->].
    rewrite !ex_elem_cons. destruct (rule_affordance chain r) as [c e]. cbn.
    rewrite !orb_true_iff. tauto. }
  destruct (H (false, false)) as [H1 H2]. unfold rules_affordance. rewrite H1, H2. cbn.
  naive_solver.
Qed.

(** ** Agreement with the chokepoint *)

Lemma create_by_rules chain grants rules key :
  let f := [mkAtom CapDefinitionsEdit LevelProject] in
  evaluate f chain grants = false →
  evaluateWithRules f chain grants rules (Some key) = true ↔
  ∃ r, r ∈ rules ∧ Validate r = Ok tt ∧ defines chain r key = true.
Proof.
  intros f Hev. rewrite evaluateWithRules_true. split.
  - intros H. destruct (H (mkAtom CapDefinitionsEdit LevelProject)) as [He|?]; [set_solver| |done].
    unfold f in Hev. by rewrite Hev in He.
  - intros H atom ->%list_elem_of_singleton. by right.
Qed.

(** Creating a key in a folder, for a person whose other conjuncts hold. *)
Lemma AuthorizeKey_create ctx R tok caller scope spec chain grants org folder s :
  PClass caller = "" ∨ PClass caller = ClassHuman → Principal caller ≠ "" →
  lookupSpec registry OpKeyCreate = Some spec → as_class spec = ClassTenant →
  as_formula spec = [mkAtom CapDefinitionsEdit LevelProject] →
  ScopeLevel scope = Ok (as_level spec) →
  ResolveChain R scope = Ok chain → Grants R (Principal caller) = (Ok grants, org) →
  let permitted := profile_permits caller OpKeyCreate chain grants (marked org chain)
                   && session_adequate registry caller OpKeyCreate org chain in
  (∃ p s2, AuthorizeKey registry ctx R tok caller OpKeyCreate scope (KeyToCreate folder) s
     = (Ok p, s2)) ↔
  permitted = true ∧ (evaluate (as_formula spec) chain grants = true ∨
    ∃ rules, Rules R (Principal caller) = Ok rules ∧
      evaluateWithRules (as_formula spec) chain grants rules (Some (mkRuleKey "" folder)) = true).
Proof.
  intros Hp Hne Hop Hc Hf Hl Hch Hg permitted. unfold AuthorizeKey.
  rewrite Hop, (bool_decide_false (as_class spec ≠ ClassTenant)) by tauto.
  rewrite (bool_decide_false (Principal caller = "")) by done.
  rewrite (bool_decide_false (PClass caller = ClassInstanceConn)) by by apply person_not_instance.
  assert (emptyCellOp OpKeyCreate = false) as Hcell by done.
  assert (OpKeyCreate ≠ OpDeveloperCredentialMint) as Hmint by done.
  rewrite (authorizeTenant_person _ _ _ _ _ Hp _ Hcell Hmint _ _ _ _ _ _ _ Hl Hch Hg). cbv zeta.
  assert (∀ bound nav s', selfConfigOrgID s' = org →
    (∃ p s2, conjunct_stages registry ctx R tok caller OpKeyCreate spec scope chain grants
       (Some (KeyToCreate folder)) bound nav s' = (Ok p, s2)) ↔ permitted = true) as Hconj.
  { intros bound nav s' Ho. rewrite (conjunct_stages_person _ _ _ _ _ Hp _ Hcell). cbv zeta.
    rewrite Ho. unfold permitted.
    destruct (profile_permits _ _ _ _ _), (session_adequate _ _ _ _ _); cbn [negb andb];
      (split; [|done || eauto]); try done; intros (p & s2 & H); by apply deny_not_Ok in H. }
  assert (consults_rules caller OpKeyCreate spec None (evaluate (as_formula spec) chain grants)
    = negb (evaluate (as_formula spec) chain grants)) as ->.
  { unfold consults_rules. rewrite (bool_decide_false (OpKeyCreate = _)) by done.
    rewrite person_rulesApply, Hf, (bool_decide_false (None ≠ None)) by (done || tauto).
    assert (ruleSatisfiable [mkAtom CapDefinitionsEdit LevelProject] = true) as -> by by_compute.
    cbn [negb andb orb]. by rewrite orb_false_r. }
  destruct (evaluate (as_formula spec) chain grants) eqn:Hev; cbn [negb].
  { rewrite Hconj by done. split; [auto|by intros [? _]]. }
  rewrite bind_run. unfold rule_stage, rRules. rewrite bind_run, query_run.
  destruct (Rules R (Principal caller)) as [rules|e].
  2: { split; [by intros (? & ? & ?)|by intros [_ [?|(? & ? & _)]]]. } rewrite bind_run. unfold or_deny, resolveKeyTarget.
  rewrite !bind_run, attempt_run. cbn [ret fst snd lift].
  destruct (evaluateWithRules (as_formula spec) chain grants rules (Some (mkRuleKey "" folder)))
    eqn:Hew; cbn [ret].
  { cbn [negb]. rewrite Hconj by done. split; [|by intros [? _]]. intros ?. split; [done|]. eauto. }
  unfold ruleNavigationReach. assert (ruleNavigationOperation OpKeyCreate = false) as -> by done.
  cbn [negb ret length Nat.ltb Nat.leb]. split.
  - intros (p & s2 & H). by apply deny_not_Ok in H.
  - intros [_ [?|(rules' & [= <-] & H)]]; [done|]. by rewrite Hew in H.
Qed.

(** The create affordance is exact. For a person, whenever
    [CallerCanDefineKeys] answers, it offers creation if and only if the
    chokepoint would authorize creating a key in some folder of the project on
    the same snapshot (folders that do not exist yet included), and it never
    offers creation without editing. *)
Theorem definition_affordance_exact ctx R tok caller scope s creatable editable s1 :
  PClass caller = "" ∨ PClass caller = ClassHuman →
  CallerCanDefineKeys registry R caller scope s = (Ok (creatable, editable), s1) →
  (creatable = true ↔ ∃ folder p s2,
     AuthorizeKey registry ctx R tok caller OpKeyCreate scope (KeyToCreate folder) s = (Ok p, s2)) ∧
  (creatable = true → editable = true).
Proof.
  intros Hp. unfold CallerCanDefineKeys.
  destruct (bool_decide_reflect (Principal caller = "")) as [|Hne]; [done|].
  destruct (ScopeLevel scope) as [[]|] eqn:Hl; try done.
  assert (∃ spec, lookupSpec registry OpKeyCreate = Some spec ∧ as_class spec = ClassTenant ∧
    as_level spec = LevelProject ∧ as_formula spec = [mkAtom CapDefinitionsEdit LevelProject])
    as (spec & Hop & Hc & Hlv & Hf).
  { rewrite registry_operationTable. vm_compute. by eexists. }
  rewrite Hop. intros (chain & s2 & [Hch _]%query_Ok & H)%bind_Ok. revert H.
  rewrite bind_run, rGrants_run. destruct (Grants R (Principal caller)) as [[grants|] org] eqn:Hg; [|done].
  cbn [fst snd]. rewrite bind_run, selfConfigProfile_run. cbn [selfConfigOrgID set_selfConfigOrgID].
  assert (∀ folder, _) as Hiff by (intros folder; exact (AuthorizeKey_create ctx R tok caller scope
    spec chain grants org folder s Hp Hne Hop Hc Hf (eq_trans Hl (f_equal Ok (eq_sym Hlv))) Hch Hg)).
  cbv zeta in Hiff. setoid_rewrite Hiff. unfold session_adequate.
  destruct (profile_permits _ _ _ _ _); cbn [negb orb andb]; [|intros [= <- <- _]; naive_solver].
  rewrite orb_comm, <-negb_orb. destruct (_ || _); cbn [negb]; [intros [= <- <- _]; naive_solver|].
  rewrite person_rulesApply by done. cbn [negb].
  destruct (evaluate (as_formula spec) chain grants) eqn:Hev.
  { intros [= <- <- _]. split; [|done]. split; [|done]. intros _. exists "". naive_solver. }
  unfold rRules. rewrite bind_run, query_run. destruct (Rules R (Principal caller)) as [rules|] eqn:Hr; [|done].
  destruct (rules_affordance chain rules) as [c e] eqn:Ha. intros [= <- <- _].
  destruct (rules_affordance_spec chain rules) as [Hc1 He1]. rewrite Ha in Hc1, He1. cbn in Hc1, He1.
  split; [|].
  2: { rewrite Hc1, He1. intros (r & ? & ?%rule_affordance_edit). eauto. }
  rewrite Hc1. setoid_rewrite rule_affordance_create.
  rewrite Hf in *. pose proof (create_by_rules chain grants rules) as Hew.
  split.
  - intros (r & Hin & Hv & folder & Hd). exists folder. split; [done|]. right. exists rules.
    split; [done|]. apply Hew; eauto.
  - intros (folder & _ & [?|(rules' & [= <-] & H)]); [done|].
    apply Hew in H as (r & ? & ? & ?); eauto 6.
Qed.

(** A member whose definitions-edit rule excepts the root folder. *)
Definition definer_db : DB :=
  mkDB (orgs demo_db) (projects demo_db) (environments demo_db) (principals demo_db)
    (db_grants demo_db) (access_grants demo_db)
    (mkRule_Row "r0" "rita" "definitions-edit" "o1" "all" "all" :: db_rules demo_db)
    (demo_item "r0" "project" "p1" "" "" "" :: demo_item "r0" "folder" "p1" "" "" "" ::
     rule_items demo_db)
    (db_keys demo_db) (pending_changes demo_db) (approval_requests demo_db)
    (value_entries demo_db) (restore_epoch demo_db) (self_config_org_id demo_db).

Lemma definition_affordance_exact_witness :
  ∃ folder p s2, AuthorizeKey registry demo_ctx (db_resolver definer_db 100) demo_tok (human "rita")
    OpKeyCreate (mkScope "o1" "p1" "") (KeyToCreate folder) NewTxAuthorizer = (Ok p, s2).
Proof.
  assert (∃ s1, CallerCanDefineKeys registry (db_resolver definer_db 100) (human "rita")
    (mkScope "o1" "p1" "") NewTxAuthorizer = (Ok (true, true), s1)) as [s1 H].
  { rewrite registry_operationTable. vm_compute. by eexists. }
  destruct (definition_affordance_exact demo_ctx (db_resolver definer_db 100) demo_tok (human "rita")
    (mkScope "o1" "p1" "") NewTxAuthorizer true true s1) as [[Hc _] _]; [by right|done|].
  by apply Hc.
Defined.
