(* ===== verification/Tx.v ===== *)
(** * The transaction boundary: [internal/store/tx/tx.go]

    The bounded retry loop, one write or read attempt, and the settlement that
    makes captured denials durable before an attempt's outcome is answered.
    The database drivers are parameters: a stream of faults says which call
    fails and how, and other writers may commit between two attempts. *)

From stdpp Require Import prelude gmap strings list.
From S2P Require Import Prelude Domain Rule Tables Registry Authorizer AuthorizerAudit.

(** ** Errors *)

Inductive Engine := EnginePostgres | EngineSQLite.

(** A Go error value: sentinels, driver errors, and the three ways the code
    builds one error from others. [EWrapText] shows its second error as text
    ([%v]) and does not wrap it. *)
Inductive err :=
| EDomain (e : error)
| ErrRetrySerialization
| EPg (code : string)
| ESqlite (code : Z)
| EContext
| EWrap (msg : string) (e : err)
| EWrapText (msg : string) (e : err) (shown : err)
| EJoin (e1 e2 : err).

(** [errors.Is] and [errors.As] walk the wrapped errors depth first. *)
Fixpoint errors_Is (target : err → bool) (e : err) : bool :=
  target e ||
  match e with
  | EWrap _ e | EWrapText _ e _ => errors_Is target e
  | EJoin e1 e2 => errors_Is target e1 || errors_Is target e2
  | _ => false
  end.

Fixpoint errors_As {A} (target : err → option A) (e : err) : option A :=
  match target e with
  | Some a => Some a
  | None =>
      match e with
      | EWrap _ e | EWrapText _ e _ => errors_As target e
      | EJoin e1 e2 => match errors_As target e1 with Some a => Some a | None => errors_As target e2 end
      | _ => None
      end
  end.

Definition is_retry_sentinel (e : err) : bool :=
  match e with ErrRetrySerialization => true | _ => false end.

Definition as_pg (e : err) : option string := match e with EPg code => Some code | _ => None end.

Definition as_sqlite (e : err) : option Z := match e with ESqlite code => Some code | _ => None end.

Definition SQLITE_BUSY : Z := 5.
Definition SQLITE_LOCKED : Z := 6.

Definition retryable (engine : Engine) (e : err) : bool :=
  if errors_Is is_retry_sentinel e then true else
  match engine with
  | EnginePostgres =>
      match errors_As as_pg e with
      | Some code => bool_decide (code = "40001") || bool_decide (code = "40P01")
      | None => false
      end
  | EngineSQLite =>
      match errors_As as_sqlite e with
      | Some code =>
          let primary := Z.land code 255 in
          bool_decide (primary = SQLITE_BUSY) || bool_decide (primary = SQLITE_LOCKED)
      | None => false
      end
  end.

(** [errors.Is(err, domain.ErrNotFound) || errors.Is(err, domain.ErrUnauthorized)]:
    the refusals the response layer renders without detail. *)
Definition is_uniform (e : err) : bool :=
  errors_Is (λ e, match e with EDomain ErrNotFound | EDomain ErrUnauthorized => true | _ => false end) e.

(** ** The retry loop *)

(** The delay before each retry, in milliseconds. *)
Definition backoff : list Z := [10; 50; 250]%Z.

Definition attempts : nat := length backoff + 1.

Section retry.
Context {W : Type} (engine : Engine).

(** Whether the context ends during the wait before attempt [n]. *)
Context (cancelled : nat → W → bool).
Context (attemptFn : W → option err * W).

(** [errors.Join] drops a nil error. *)
Definition join_last (e : err) (last : option err) : err :=
  match last with Some l => EJoin e l | None => e end.

Fixpoint retry_from (remaining attempt : nat) (last : option err) (w : W) : option err * W :=
  match remaining with
  | O => (Some (EWrap "tx: retries exhausted" (default EContext last)), w)
  | S remaining =>
      if Nat.ltb 0 attempt && cancelled attempt w
      then (Some (EWrap "tx: deadline while retrying" (join_last EContext last)), w)
      else
        match attemptFn w with
        | (None, w') => (None, w')
        | (Some e, w') =>
            if negb (retryable engine e) then (Some e, w')
            else retry_from remaining (S attempt) (Some e) w'
        end
  end.

Definition retryLoop (w : W) : option err * W := retry_from attempts 0 None w.
End retry.

Section retryResult.
Context {W T : Type} (engine : Engine) (cancelled : nat → W → bool) (zero : T).
Context (attemptFn : W → T * option err * W).

(** The closure of [retryResult]: [committed] is assigned only by an attempt that
    succeeded as a whole. *)
Definition publish (st : T * W) : option err * (T * W) :=
  let '(committed, w) := st in
  match attemptFn w with
  | (_, Some e, w') => (Some e, (committed, w'))
  | (r, None, w') => (None, (r, w'))
  end.

Definition retryResult (w : W) : T * option err * W :=
  match retryLoop engine (λ n st, cancelled n st.2) publish (zero, w) with
  | (Some e, (_, w')) => (zero, Some e, w')
  | (None, (committed, w')) => (committed, None, w')
  end.
End retryResult.

(** ** One attempt *)

(** What the loop acts on: the committed database of the tenants, the durable
    denial records, the request's dedicated-refusal receipt, the number of
    driver calls so far and the number of transaction tokens minted. *)
Record TxWorld (D : Type) := mkTxWorld {
  data : D; trail : list Denial; receipt : bool; draws : nat; tokens : nat }.
Arguments mkTxWorld {D}.
Arguments data {D}.
Arguments trail {D}.
Arguments receipt {D}.
Arguments draws {D}.
Arguments tokens {D}.

(** What a closure leaves behind: its result and error, the database it would
    commit, its authorizer and whether it recorded a dedicated refusal. *)
Record Outcome (D T : Type) := mkOutcome {
  out_result : T; out_err : option err; out_data : D; out_az : AzState; dedicatedRefusal : bool }.
Arguments mkOutcome {D T}.
Arguments out_result {D T}.
Arguments out_err {D T}.
Arguments out_data {D T}.
Arguments out_az {D T}.
Arguments dedicatedRefusal {D T}.

Definition IsDedicatedRefusal (e : Event) : bool :=
  if Contains ["auth.artifact_class_refused"; "identity.federation_refused";
               "scim.credential_refused"] (Ev_Type e) then true
  else bool_decide (Ev_Type e ≠ "auth.request_refused") && bool_decide (Ev_Outcome e = "failure")
       && String.prefix "auth." (Ev_Type e).

(** [errors.Join] of the capture failures, in order. *)
Definition DenialCaptureError (s : AzState) : option err :=
  match captureErr s with
  | [] => None
  | e :: es => Some (foldl (λ acc e, EJoin acc (EDomain e)) (EDomain e) es)
  end.

(** Enrols an event in the settlement of denials. *)
Definition CaptureAudit (trail : Trail) (scope : Scope) (e : Event) (s : AzState) : AzState :=
  mkAzState (denials s ++ [mkDenial trail scope e]) (captureErr s) (az_object s)
    (developerDenialIdentity s) (selfConfigOrgID s) (minted s) (trace s).

Definition PendingDenials (s : AzState) : list Denial := denials s.

Section attempt.
Context {D T : Type} (engine : Engine).

(** The drivers: driver call [n] fails with [fault n]; a failing commit may
    still have been [applied]. [others t] is what concurrent writers committed
    before attempt [t] took its snapshot. *)
Context (fault : nat → option err) (applied : nat → bool).
Context (cancelled : nat → TxWorld D → bool) (others : nat → D → D).

Definition draw (w : TxWorld D) : option err * TxWorld D :=
  (fault (draws w), mkTxWorld (data w) (trail w) (receipt w) (S (draws w)) (tokens w)).

Definition set_data (d : D) (w : TxWorld D) : TxWorld D :=
  mkTxWorld d (trail w) (receipt w) (draws w) (tokens w).

Definition add_trail (ds : list Denial) (w : TxWorld D) : TxWorld D :=
  mkTxWorld (data w) (trail w ++ ds) (receipt w) (draws w) (tokens w).

Definition mark_receipt (w : TxWorld D) : TxWorld D :=
  mkTxWorld (data w) (trail w) true (draws w) (tokens w).

(** Commit of a transaction whose effect on the world is [eff]. *)
Definition commit (eff : TxWorld D → TxWorld D) (w : TxWorld D) : option err * TxWorld D :=
  let '(e, w') := draw w in
  match e with
  | None => (None, eff w')
  | Some e => (Some e, if applied (draws w) then eff w' else w')
  end.

(** One row write per denial inside the flush transaction; a refusal at the
    audit write boundary and a driver failure both end the loop. *)
Fixpoint write_denials (ds : list Denial) (w : TxWorld D) : option err * TxWorld D :=
  match ds with
  | [] => (None, w)
  | _ :: ds => match draw w with
               | (Some e, w') => (Some e, w')
               | (None, w') => write_denials ds w'
               end
  end.

Definition flushOnce (ds : list Denial) (w : TxWorld D) : option err * TxWorld D :=
  match draw w with
  | (Some e, w) => (Some e, w)
  | (None, w) =>
      match write_denials ds w with
      | (Some e, w) => (Some e, w)
      | (None, w) => commit (add_trail ds) w
      end
  end.

(** The loud refusal: the cause wrapped, the suppressed outcome as text. *)
Definition refuse_to_answer (msg : string) (cause : err) (suppressed : option err) : err :=
  match suppressed with
  | Some s => EWrapText msg cause s
  | None => EWrap msg cause
  end.

Definition settleDenialResult (az : AzState) (refusal : bool) (attemptErr : option err)
    (w : TxWorld D) : option err * TxWorld D :=
  let w := match attemptErr with
           | None => if refusal then mark_receipt w else w
           | Some _ => w
           end in
  if match attemptErr with Some e => retryable engine e | None => false end
  then (attemptErr, w) else
  match DenialCaptureError az with
  | Some cerr => (Some (refuse_to_answer "tx: denial audit record not durable (capture)" cerr attemptErr), w)
  | None =>
      let denials := PendingDenials az in
      if Nat.eqb (length denials) 0 then (attemptErr, w) else
      match retryLoop engine cancelled (flushOnce denials) w with
      | (Some flushErr, w) =>
          (Some (refuse_to_answer "tx: denial audit record not durable (flush)" flushErr attemptErr), w)
      | (None, w) =>
          (attemptErr, if existsb (λ d, IsDedicatedRefusal (Den_Event d)) denials
                       then mark_receipt w else w)
      end
  end.

(** The start of an attempt: a fresh token, on the database as concurrent
    writers left it. *)
Definition enter (w : TxWorld D) : TxWorld D :=
  mkTxWorld (others (tokens w) (data w)) (trail w) (receipt w) (draws w) (S (tokens w)).

Context (zero : T) (fn : nat → D → Outcome D T).

(** Run the closure under token [tok], commit or roll back, settle. *)
Definition run_closure (tok : nat) (write : bool) (w : TxWorld D) : T * option err * TxWorld D :=
  let o := fn tok (data w) in
  let '(e, w) := match out_err o with
                 | Some e => (Some e, w)
                 | None => commit (if write then set_data (out_data o) else id) w
                 end in
  let '(e, w) := settleDenialResult (out_az o) (dedicatedRefusal o) e w in
  (out_result o, e, w).

(** [writeOnce]: begin, the singleton-lease guard, the closure. *)
Definition writeOnce (w : TxWorld D) : T * option err * TxWorld D :=
  let tok := tokens w in
  let w := enter w in
  match draw w with
  | (Some e, w) => (zero, Some e, w)
  | (None, w) =>
      match draw w with
      | (Some e, w) => (zero, Some e, w)
      | (None, w) => run_closure tok true w
      end
  end.

(** [readOnce]: begin, the closure over read-only repositories. *)
Definition readOnce (w : TxWorld D) : T * option err * TxWorld D :=
  let tok := tokens w in
  let w := enter w in
  match draw w with
  | (Some e, w) => (zero, Some e, w)
  | (None, w) => run_closure tok false w
  end.

Definition WriteResult (w : TxWorld D) : T * option err * TxWorld D :=
  retryResult engine cancelled zero writeOnce w.

Definition Read (w : TxWorld D) : option err * TxWorld D :=
  retryLoop engine cancelled (λ w, let '(_, e, w') := readOnce w in (e, w')) w.
End attempt.
