(* ===== verification/TxFacts.v ===== *)
(** * What the transaction boundary guarantees

    The retry loop's full behaviour, the settlement of denials, exactly-once
    application of a write, and the durability of a refusal before its answer. *)

From stdpp Require Import prelude gmap strings list.
From S2P Require Import Prelude StringFacts Domain Rule Resolver Tables Registry OperationTable.
From S2P Require Import RegistryFacts Authorizer AuthorizerAudit Demo Tx.

(** ** The loop *)

Section retry.
Context {W : Type} (engine : Engine) (cancelled : nat → W → bool).
Context (attemptFn : W → option err * W).

(** A run of attempts that each failed with a retryable error. *)
Inductive failing : list err → W → W → Prop :=
| failing_nil w : failing [] w w
| failing_cons e errs w w1 w2 :
    attemptFn w = (Some e, w1) → retryable engine e = true → failing errs w1 w2 →
    failing (e :: errs) w w2.

(** The four ways the loop ends. *)
Inductive loop_end (bound attempt : nat) (prev : option err) (errs : list err) (w1 : W)
  : option err * W → Prop :=
| end_ok w' : length errs < bound → attemptFn w1 = (None, w') →
    loop_end bound attempt prev errs w1 (None, w')
| end_error e w' : length errs < bound → attemptFn w1 = (Some e, w') →
    retryable engine e = false → loop_end bound attempt prev errs w1 (Some e, w')
| end_cancelled : length errs < bound → 0 < attempt + length errs →
    cancelled (attempt + length errs) w1 = true →
    loop_end bound attempt prev errs w1
      (Some (EWrap "tx: deadline while retrying"
               (join_last EContext (match last errs with None => prev | l => l end))), w1)
| end_exhausted : length errs = bound →
    loop_end bound attempt prev errs w1
      (Some (EWrap "tx: retries exhausted"
               (default EContext (match last errs with None => prev | l => l end))), w1).

Lemma last_cons_some {A} (x : A) l (d : option A) :
  match last (x :: l) with None => d | r => r end = match last l with None => Some x | r => r end.
Proof. destruct l as [|y l]; [done|]. change (last (x :: y :: l)) with (last (y :: l)). 
  destruct (last (y :: l)) eqn:E; [done|]. by apply last_None in E. Qed.

Lemma retry_from_ends n attempt prev w : ∃ errs w1, failing errs w w1 ∧
  loop_end n attempt prev errs w1 (retry_from engine cancelled attemptFn n attempt prev w).
Proof.
  revert attempt prev w. induction n as [|n IH]; intros attempt prev w; cbn [retry_from].
  { exists [], w. split; [constructor|]. by apply (end_exhausted 0 attempt prev [] w). }
  destruct (Nat.ltb 0 attempt && cancelled attempt w) eqn:Hc.
  { apply andb_true_iff in Hc as [Ha%Nat.ltb_lt Hc]. exists [], w. split; [constructor|].
    apply (end_cancelled (S n) attempt prev [] w); cbn; rewrite ?Nat.add_0_r; (lia || done). }
  destruct (attemptFn w) as [[e|] w'] eqn:Hw.
  2: { exists [], w. split; [constructor|]. apply end_ok; [cbn; lia|done]. }
  destruct (retryable engine e) eqn:Hr; cbn [negb].
  2: { exists [], w. split; [constructor|]. apply end_error; [cbn; lia|done|done]. }
  destruct (IH (S attempt) (Some e) w') as (errs & w1 & Hf & Hend). exists (e :: errs), w1.
  split; [by econstructor|].
  inversion Hend as [w2 Hl Hok Heq|e2 w2 Hl He Hne Heq|Hl Hpos Hcan Heq|Hl Heq].
  - apply end_ok; [cbn; lia|done].
  - apply end_error; [cbn; lia|done|done].
  - rewrite <-(last_cons_some e errs prev).
    apply end_cancelled; cbn [length]; [lia|lia|by rewrite <-Nat.add_succ_comm].
  - rewrite <-(last_cons_some e errs prev). apply end_exhausted. cbn. lia.
Qed.

(** The loop ends with its last attempt's own outcome, or with the last
    retryable failure wrapped. *)
Lemma retryLoop_cases w r w' : retryLoop engine cancelled attemptFn w = (r, w') →
  ∃ errs w1, failing errs w w1 ∧
  ((length errs < 4 ∧ attemptFn w1 = (r, w') ∧ ∀ e, r = Some e → retryable engine e = false) ∨
   (w' = w1 ∧ ∃ l msg, last errs = Some l ∧
      (r = Some (EWrap msg l) ∨ r = Some (EWrap msg (EJoin EContext l))))).
Proof.
  intros Hrun. destruct (retry_from_ends attempts 0 None w) as (errs & w1 & Hf & Hend).
  fold (retryLoop engine cancelled attemptFn w) in Hend. rewrite Hrun in Hend. cbn in Hend.
  exists errs, w1. split; [done|].
  assert (errs ≠ [] → ∃ l, last errs = Some l) as Hlast.
  { intros Hne. destruct (last errs) eqn:E; [eauto|]. by apply last_None in E. }
  inversion Hend as [w2 Hl Hok Heq|e2 w2 Hl He Hne Heq|Hl Hpos Hcan Heq|Hl Heq]; subst.
  - left. by split_and!.
  - left. split_and!; [done..|]. by intros ? [= <-].
  - destruct Hlast as [l Hlast]; [by intros ->; cbn in Hpos; lia|]. rewrite Hlast. right. eauto 10.
  - destruct Hlast as [l Hlast]; [by intros ->|]. rewrite Hlast. right. eauto 10.
Qed.

(** What every failed attempt establishes holds along a failing run. *)
Lemma failing_rel (P : W → W → Prop) errs w w' :
  Reflexive P → Transitive P →
  (∀ e w w', attemptFn w = (Some e, w') → retryable engine e = true → P w w') →
  failing errs w w' → P w w'.
Proof. intros Hr Ht Hs. induction 1 as [|e errs w w1 w2 Hw He _ IH]; [done|]. by etrans; [eapply Hs|]. Qed.

Lemma failing_last errs w w' l : failing errs w w' → last errs = Some l →
  retryable engine l = true ∧ ∃ w1 w2, attemptFn w1 = (Some l, w2).
Proof.
  induction 1 as [|e errs w w1 w2 Hw He _ IH]; [done|]. intros Hl.
  destruct errs as [|e' errs]; [injection Hl as ->; eauto|]. by apply IH.
Qed.

(** The loop is bounded and retries only transient failures. Every run is a
    sequence of attempts that failed with a retryable error, at most four,
    followed by one of: a successful attempt, whose success is returned; an
    attempt with a non-retryable error, returned unchanged; the end of the
    context during a wait, or the exhaustion after exactly four failures, both
    answered with an error that wraps the last failure. *)
Theorem retryLoop_bounded w : ∃ errs w1, failing errs w w1 ∧ length errs ≤ 4 ∧
  ((length errs < 4 ∧ ∃ w', attemptFn w1 = (None, w') ∧
      retryLoop engine cancelled attemptFn w = (None, w')) ∨
   (length errs < 4 ∧ ∃ e w', attemptFn w1 = (Some e, w') ∧ retryable engine e = false ∧
      retryLoop engine cancelled attemptFn w = (Some e, w')) ∨
   (∃ l, last errs = Some l ∧ length errs < 4 ∧ cancelled (length errs) w1 = true ∧
      retryLoop engine cancelled attemptFn w =
        (Some (EWrap "tx: deadline while retrying" (EJoin EContext l)), w1)) ∨
   (∃ l, last errs = Some l ∧ length errs = 4 ∧
      retryLoop engine cancelled attemptFn w = (Some (EWrap "tx: retries exhausted" l), w1))).
Proof.
  destruct (retry_from_ends attempts 0 None w) as (errs & w1 & Hf & Hend). exists errs, w1.
  split; [done|]. fold (retryLoop engine cancelled attemptFn w) in Hend. unfold attempts in Hend.
  cbn in Hend. assert (errs ≠ [] → ∃ l, last errs = Some l) as Hlast.
  { intros Hne. destruct (last errs) eqn:E; [eauto|]. by apply last_None in E. }
  inversion Hend as [w2 Hl Hok Heq|e2 w2 Hl He Hne Heq|Hl Hpos Hcan Heq|Hl Heq].
  - split; [lia|]. left. eauto.
  - split; [lia|]. right; left. eauto 6.
  - destruct Hlast as [l Hlast]; [by intros ->; cbn in Hpos; lia|]. rewrite Hlast in *.
    split; [lia|]. right; right; left. eauto 6.
  - destruct Hlast as [l Hlast]; [by intros ->|]. rewrite Hlast in *.
    split; [lia|]. right; right; right. eauto 6.
Qed.
End retry.

Lemma retryable_wrap engine msg e : retryable engine (EWrap msg e) = retryable engine e.
Proof. done. Qed.

Lemma retryable_join engine e : retryable engine (EJoin EContext e) = retryable engine e.
Proof. done. Qed.

Lemma retryable_refuse engine msg e shown :
  retryable engine (refuse_to_answer msg e shown) = retryable engine e.
Proof. by destruct shown. Qed.

Lemma uniform_refuse msg e shown : is_uniform (refuse_to_answer msg e shown) = is_uniform e.
Proof. by destruct shown. Qed.

(** ** Flushing and settling *)

Section settle.
Context {D : Type} (engine : Engine) (fault : nat → option err) (applied : nat → bool).
Context (cancelled : nat → TxWorld D → bool).

(** The drivers' contract: a commit that fails with a retryable error was rolled
    back, and no driver error wraps a domain sentinel. *)
Context (rolled_back : ∀ n e, fault n = Some e → retryable engine e = true → applied n = false).
Context (driver_error : ∀ n e, fault n = Some e → is_uniform e = false).

(** The tenant database and the tokens are untouched. *)
Definition frame (w w' : TxWorld D) : Prop := data w' = data w ∧ tokens w' = tokens w.

#[local] Instance frame_preorder : PreOrder frame.
Proof. split; [done|]. intros w1 w2 w3 [] []. split; congruence. Qed.

Lemma write_denials_spec ds w r w' : write_denials fault ds w = (r, w') →
  frame w w' ∧ trail w' = trail w ∧ ∀ e, r = Some e → is_uniform e = false.
Proof.
  revert w. induction ds as [|d ds IH]; intros w; cbn [write_denials]; [by intros [= <- <-]|].
  unfold draw. destruct (fault (draws w)) as [e|] eqn:Hf.
  - intros [= <- <-]. split_and!; [done..|]. intros ? [= <-]. eauto.
  - by intros H%IH.
Qed.

Lemma flushOnce_spec ds w r w' : flushOnce fault applied ds w = (r, w') →
  frame w w' ∧ (r = None → trail w' = trail w ++ ds) ∧
  (∀ e, r = Some e → is_uniform e = false ∧ (retryable engine e = true → trail w' = trail w)).
Proof.
  unfold flushOnce. unfold draw at 1. destruct (fault (draws w)) as [e|] eqn:Hf.
  { intros [= <- <-]. split_and!; [done..|]. intros ? [= <-]. eauto. }
  destruct (write_denials fault ds _) as [[e|] w1] eqn:Hw; apply write_denials_spec in Hw as (Hfr & Ht & Hu).
  { intros [= <- <-]. split_and!; [done..|]. intros ? [= <-]. eauto. }
  unfold commit, draw. destruct (fault (draws w1)) as [e|] eqn:Hc.
  - intros [= <- <-]. split_and!; [by destruct (applied _)|done|]. intros ? [= <-].
    split; [eauto|]. intros Hr. by rewrite (rolled_back _ _ Hc Hr).
  - intros [= <- <-]. split_and!; [done| |done]. intros _. cbn. by rewrite Ht.
Qed.
Definition quiet_frame (w w' : TxWorld D) : Prop := frame w w' ∧ trail w' = trail w.

#[local] Instance quiet_frame_preorder : PreOrder quiet_frame.
Proof. split; [done|]. intros w1 w2 w3 [? ?] [? ?]. split; [by etrans|congruence]. Qed.

Lemma flush_loop_spec ds w r w' :
  retryLoop engine cancelled (flushOnce fault applied ds) w = (r, w') →
  frame w w' ∧ (r = None → trail w' = trail w ++ ds) ∧
  (∀ e, r = Some e → is_uniform e = false ∧ (retryable engine e = true → trail w' = trail w)).
Proof.
  intros (errs & w1 & Hf & Hend)%retryLoop_cases.
  assert (quiet_frame w w1) as [Hfr Ht].
  { eapply failing_rel; [apply _..| |exact Hf]. intros e w2 w3 (? & _ & He)%flushOnce_spec Hr.
    split; [done|]. by apply (He e eq_refl). }
  destruct Hend as [(_ & Hat & _)|(-> & l & msg & Hl & Hr)].
  - apply flushOnce_spec in Hat as (Hfr' & Hok & Herr). split; [by etrans|].
    rewrite Ht in *. auto.
  - destruct (failing_last _ _ _ _ _ _ Hf Hl) as (Hre & w2 & w3 & Hat).
    apply flushOnce_spec in Hat as (_ & _ & He). destruct (He l eq_refl) as [Hu _].
    split_and!; [done|by destruct Hr as [-> | ->]|].
    destruct Hr as [-> | ->]; intros ? [= <-]; by split.
Qed.

(** Capture failures are the event-id generator's, never a domain sentinel. *)
Lemma capture_error_spec s c :
  DenialCaptureError s = Some c → Forall loud (captureErr s) →
  is_uniform c = false ∧ retryable engine c = false.
Proof.
  unfold DenialCaptureError. destruct (captureErr s) as [|e es]; [done|]. intros [= <-].
  intros [He Hes]%Forall_cons_1.
  assert (∀ acc, is_uniform acc = false → errors_Is is_retry_sentinel acc = false →
    errors_As as_pg acc = None → errors_As as_sqlite acc = None →
    let c := foldl (λ acc e, EJoin acc (EDomain e)) acc es in
    is_uniform c = false ∧ errors_Is is_retry_sentinel c = false ∧
    errors_As as_pg c = None ∧ errors_As as_sqlite c = None) as Hall.
  { clear He. induction Hes as [|e' es [m ->] _ IH]; intros acc Hu Hr Hp Hq; [done|].
    apply IH; cbn; fold (is_uniform acc); by rewrite ?Hu, ?Hr, ?Hp, ?Hq. }
  destruct He as [m ->]. destruct (Hall (EDomain (Loud m))) as (Hu & Hr & Hp & Hq); [done..|].
  split; [done|]. unfold retryable. rewrite Hr, Hp, Hq. by destruct engine.
Qed.

(** Settlement never touches the tenant database. Either the attempt's outcome
    is passed on, with every captured denial durable unless the attempt is
    retried, or the answer is loud and the outcome suppressed. *)
Lemma settle_spec az refusal ae w r w' :
  Forall loud (captureErr az) →
  settleDenialResult engine fault applied cancelled az refusal ae w = (r, w') →
  frame w w' ∧
  ((r = ae ∧ (∃ e, ae = Some e ∧ retryable engine e = true) ∧ trail w' = trail w) ∨
   (r = ae ∧ (∀ e, ae = Some e → retryable engine e = false) ∧
      captureErr az = [] ∧ trail w' = trail w ++ denials az) ∨
   (∃ e, r = Some e ∧ is_uniform e = false ∧ (captureErr az ≠ [] ∨ denials az ≠ []) ∧
      (retryable engine e = true → trail w' = trail w))).
Proof.
  intros Hloud. unfold settleDenialResult.
  set (w0 := match ae with None => _ | Some _ => w end).
  assert (quiet_frame w w0) as [Hfr Ht] by (unfold w0; destruct ae, refusal; done).
  destruct (match ae with Some e => retryable engine e | None => false end) eqn:Hre.
  { intros [= <- <-]. split; [done|]. left. split_and!; [done| |done]. destruct ae; [eauto|done]. }
  assert (∀ e, ae = Some e → retryable engine e = false) as Hnr by (by intros e ->).
  destruct (DenialCaptureError az) as [c|] eqn:Hc.
  { intros [= <- <-]. split; [done|]. right; right. destruct (capture_error_spec _ _ Hc Hloud) as [Hu Hr].
    eexists. split_and!; [done|by rewrite uniform_refuse| |].
    - left. intros E. unfold DenialCaptureError in Hc. by rewrite E in Hc.
    - by rewrite retryable_refuse, Hr. }
  assert (captureErr az = []) as Hnil.
  { unfold DenialCaptureError in Hc. by destruct (captureErr az). }
  unfold PendingDenials. destruct (Nat.eqb_spec (length (denials az)) 0) as [Hd|Hd].
  { intros [= <- <-]. split; [done|]. right; left. split_and!; [done..|].
    by rewrite (nil_length_inv _ Hd), app_nil_r. }
  destruct (retryLoop _ _ _ w0) as [[fe|] w2] eqn:Hl; apply flush_loop_spec in Hl as (Hfr2 & Hok & Herr).
  - intros [= <- <-]. split; [by etrans|]. right; right. destruct (Herr fe eq_refl) as [Hu Hr].
    eexists. split_and!; [done|by rewrite uniform_refuse| |].
    + right. intros E. by rewrite E in Hd.
    + rewrite retryable_refuse. intros H. rewrite <-Ht. by apply Hr.
  - intros [= <- <-]. rewrite <-Ht. split.
    + etrans; [exact Hfr|]. etrans; [exact Hfr2|]. by destruct (existsb _ _).
    + right; left. split_and!; [done..|]. rewrite <-Hok by done. by destruct (existsb _ _).
Qed.
End settle.

(** ** A write *)

Section write.
Context {D T : Type} (engine : Engine) (fault : nat → option err) (applied : nat → bool).
Context (cancelled : nat → TxWorld D → bool) (others : nat → D → D).
Context (zero : T) (fn : nat → D → Outcome D T).
Context (rolled_back : ∀ n e, fault n = Some e → retryable engine e = true → applied n = false).
Context (driver_error : ∀ n e, fault n = Some e → is_uniform e = false).
Context (capture_loud : ∀ t d, Forall loud (captureErr (out_az (fn t d)))).

(** A closure that succeeds leaves nothing to settle. *)
Context (success_settled : ∀ t d, out_err (fn t d) = None →
  denials (out_az (fn t d)) = [] ∧ captureErr (out_az (fn t d)) = []).

Abbreviation once := (writeOnce engine fault applied cancelled others zero fn).
Abbreviation seen w := (others (tokens w) (data w)).
Abbreviation outcome w := (fn (tokens w) (seen w)).

(** The ways an attempt ends: nothing happened, the closure's failure is passed
    on with its denials durable, the outcome is suppressed, or it committed. *)
Inductive attempt_end (w : TxWorld D) : T → option err → TxWorld D → Prop :=
| attempt_failed r e w' : data w' = seen w → trail w' = trail w → tokens w' = S (tokens w) →
    (is_uniform e = true → out_err (outcome w) = Some e ∧ retryable engine e = true) →
    attempt_end w r (Some e) w'
| attempt_answered r e w' : data w' = seen w → tokens w' = S (tokens w) →
    out_err (outcome w) = Some e → captureErr (out_az (outcome w)) = [] →
    trail w' = trail w ++ denials (out_az (outcome w)) → retryable engine e = false →
    attempt_end w r (Some e) w'
| attempt_loud r e w' : tokens w' = S (tokens w) → is_uniform e = false →
    retryable engine e = false → attempt_end w r (Some e) w'
| attempt_committed w' : out_err (outcome w) = None → data w' = out_data (outcome w) →
    trail w' = trail w → tokens w' = S (tokens w) →
    attempt_end w (out_result (outcome w)) None w'.

Lemma run_closure_ends w w0 r e w' :
  data w0 = seen w → trail w0 = trail w → tokens w0 = S (tokens w) →
  run_closure engine fault applied cancelled fn (tokens w) true w0 = (r, e, w') →
  attempt_end w r e w'.
Proof.
  intros Hd Ht Hk. unfold run_closure. rewrite Hd.
  destruct (out_err (outcome w)) as [x|] eqn:Hx.
  - destruct (settleDenialResult _ _ _ _ _ _ _ w0) as [e1 w1] eqn:Hs. intros [= <- <- <-].
    apply settle_spec in Hs as ([Hda Hto] & Hcase); [|done..]. rewrite Hd, Hk, Ht in *.
    destruct Hcase as [(-> & (x' & [= <-] & Hr) & Htr)|[(-> & Hr & Hc & Htr)|(y & -> & Hu & _ & Htr)]].
    + by apply attempt_failed.
    + apply attempt_answered; auto.
    + destruct (retryable engine y) eqn:Hy; [|by apply attempt_loud].
      apply attempt_failed; auto. by rewrite Hu.
  - destruct (success_settled _ _ Hx) as [Hden Hcap]. unfold commit, draw.
    destruct (fault (draws w0)) as [f|] eqn:Hf.
    + set (wc := if applied (draws w0) then _ else _).
      assert (trail wc = trail w ∧ tokens wc = S (tokens w)) as [Htc Hkc]
        by (unfold wc; destruct (applied _); done).
      assert (retryable engine f = true → data wc = seen w) as Hdc.
      { intros Hr. unfold wc. by rewrite (rolled_back _ _ Hf Hr). }
      destruct (settleDenialResult _ _ _ _ _ _ _ wc) as [e1 w1] eqn:Hs. intros [= <- <- <-].
      apply settle_spec in Hs as ([Hda Hto] & Hcase); [|done..]. rewrite Hkc, Htc in *.
      destruct Hcase as [(-> & (x' & [= <-] & Hr) & Htr)|[(-> & Hr & Hc & Htr)|(y & -> & _ & [?|?] & _)]];
        [| |done..].
      * apply attempt_failed; auto; [by rewrite Hda, Hdc|].
        by rewrite (driver_error _ _ Hf).
      * apply attempt_loud; eauto.
    + destruct (settleDenialResult _ _ _ _ _ _ _ _) as [e1 w1] eqn:Hs. intros [= <- <- <-].
      apply settle_spec in Hs as ([Hda Hto] & Hcase); [|done..]. cbn in Hda, Hto, Hcase.
      rewrite Hk, Ht in *.
      destruct Hcase as [(_ & (x' & ? & _) & _)|[(-> & _ & _ & Htr)|(y & _ & _ & [?|?] & _)]]; try done.
      rewrite Hden, app_nil_r in Htr. by apply attempt_committed.
Qed.

Lemma writeOnce_ends w r e w' : once w = (r, e, w') → attempt_end w r e w'.
Proof.
  unfold writeOnce. unfold draw at 1.
  destruct (fault (draws (enter others w))) as [f|] eqn:Hf.
  { intros [= <- <- <-]. apply attempt_failed; auto. by rewrite (driver_error _ _ Hf). }
  unfold draw at 1. cbn [draws]. destruct (fault (S _)) as [f|] eqn:Hf2.
  { intros [= <- <- <-]. apply attempt_failed; auto. by rewrite (driver_error _ _ Hf2). }
  by apply run_closure_ends.
Qed.

(** The result slot of [retryResult] does not influence the attempts. *)
Lemma failing_publish errs c w c' w1 :
  failing engine (publish once) errs (c, w) (c', w1) →
  failing engine (λ w, let '(_, e, w') := once w in (e, w')) errs w w1.
Proof.
  intros H. remember (c, w) as st eqn:E1. remember (c', w1) as st1 eqn:E2.
  revert c w c' w1 E1 E2.
  induction H as [|e errs st st2 st3 Hp He _ IH]; intros c0 v c' w1 -> E.
  { injection E as -> ->. constructor. }
  unfold publish in Hp. destruct (once v) as [[r [x|]] w2] eqn:Hw; [|done].
  injection Hp as -> <-. eapply failing_cons; [by rewrite Hw|done|]. by eapply IH.
Qed.

(** The database a run of [k] attempts that changed nothing leaves behind: what
    the concurrent writers made of it. *)
Definition interfered (w : TxWorld D) (k : nat) : D :=
  foldl (λ d t, others t d) (data w) (seq (tokens w) k).

Lemma interfered_S w k : interfered w (S k) = others (tokens w + k) (interfered w k).
Proof. unfold interfered. by rewrite seq_S, foldl_app. Qed.

Definition untouched (k : nat) (w w1 : TxWorld D) : Prop :=
  data w1 = interfered w k ∧ trail w1 = trail w ∧ tokens w1 = tokens w + k.

Lemma failing_untouched errs w w1 :
  failing engine (λ w, let '(_, e, w') := once w in (e, w')) errs w w1 → untouched (length errs) w w1.
Proof.
  induction 1 as [w|e errs w w1 w2 Hw He _ (Hd & Ht & Hk)].
  { unfold untouched. by rewrite Nat.add_0_r. }
  destruct (once w) as [[r x] w'] eqn:Hon. injection Hw as -> ->.
  apply writeOnce_ends in Hon. inversion Hon as [? ? ? Hd1 Ht1 Hk1|? ? ? ? ? ? ? ? Hr|? ? ? ? ? Hr|]; subst;
    [|congruence..].
  unfold untouched in *. rewrite Ht, Ht1, Hk, Hk1. split_and!; [|done|cbn; lia].
  rewrite Hd. unfold interfered. by rewrite Hk1, Hd1.
Qed.

Lemma WriteResult_cases w r e w' :
  WriteResult engine fault applied cancelled others zero fn w = (r, e, w') →
  ∃ k w1, untouched k w w1 ∧
  ((k < 4 ∧ ∃ r', once w1 = (r', e, w') ∧ (e = None → r = r') ∧
      ∀ x, e = Some x → retryable engine x = false) ∨
   (∃ l msg w2 w3 r', once w2 = (r', Some l, w3) ∧ retryable engine l = true ∧
      (e = Some (EWrap msg l) ∨ e = Some (EWrap msg (EJoin EContext l))))).
Proof.
  unfold WriteResult, retryResult.
  destruct (retryLoop _ _ _ _) as [x [c w1]] eqn:Hl. intros H.
  assert (x = e ∧ w1 = w' ∧ (e = None → r = c)) as (-> & -> & Hrc)
    by (destruct x; injection H as <- <- <-; done). clear H.
  destruct (retryLoop_cases _ _ _ _ _ _ Hl) as (errs & [c1 w1] & Hf & Hend).
  apply failing_publish in Hf as Hf'. exists (length errs), w1.
  split; [by apply failing_untouched|]. destruct Hend as [(Hlt & Hat & Hne)|(_ & l & msg & Hla & He)].
  - left. split; [done|]. unfold publish in Hat. destruct (once w1) as [[r' [y|]] w2];
      injection Hat as <- ? <-; exists r'; (split_and!; [done| |done]); [done|].
    intros _. rewrite Hrc by done. congruence.
  - right. destruct (failing_last _ _ _ _ _ _ Hf' Hla) as (Hr & w2 & w3 & Hat).
    destruct (once w2) as [[r' y] w4] eqn:Hon. injection Hat as -> ->. exists l, msg, w2, w3, r'. done.
Qed.

(** C25 A write takes effect exactly once. Under the drivers' contract and for a
    closure that leaves nothing to settle when it succeeds, a [WriteResult] that
    returns no error ran at most four attempts; the database it leaves is the
    one its last attempt's closure produced from the database the concurrent
    writers left, every earlier attempt changed nothing and recorded nothing,
    and the returned value is that attempt's own. *)
Theorem write_exactly_once w r w' :
  WriteResult engine fault applied cancelled others zero fn w = (r, None, w') →
  ∃ k, k < 4 ∧ let o := fn (tokens w + k) (interfered w (S k)) in
    out_err o = None ∧ r = out_result o ∧ data w' = out_data o ∧ trail w' = trail w ∧
    tokens w' = tokens w + S k.
Proof.
  intros (k & w1 & (Hd & Ht & Hk) & [(Hlt & r' & Hon & Hr & _)|Hbad])%WriteResult_cases.
  2: { by destruct Hbad as (? & ? & ? & ? & ? & _ & _ & [?|?]). }
  rewrite (Hr eq_refl). apply writeOnce_ends in Hon.
  inversion Hon as [| | |? Ho Hdw Htw Hkw]; subst. rewrite Hk, Hd in *. rewrite <-interfered_S in *.
  exists k. rewrite Hdw, Htw, Ht, Hkw. split_and!; (done || lia).
Qed.

(** A refusal is durable before it is answered. Under the same contract, if
    [WriteResult] answers with a uniform refusal, that error is the one its last
    attempt's closure returned, every denial that attempt captured (and none of
    an earlier attempt) has been appended to the durable trail, and the closure's
    writes were rolled back. Whenever the record could not be made durable, the
    answer is not a uniform refusal. *)
Theorem uniform_refusal_durable w r e w' :
  (∀ t d x, out_err (fn t d) = Some x → is_uniform x = true → retryable engine x = false) →
  WriteResult engine fault applied cancelled others zero fn w = (r, Some e, w') →
  is_uniform e = true →
  ∃ k, k < 4 ∧ let o := fn (tokens w + k) (interfered w (S k)) in
    out_err o = Some e ∧ captureErr (out_az o) = [] ∧
    trail w' = trail w ++ denials (out_az o) ∧ data w' = interfered w (S k).
Proof.
  intros Hun (k & w1 & (Hd & Ht & Hk) & [(Hlt & r' & Hon & _ & Hnr)|Hbad])%WriteResult_cases Hu.
  - apply writeOnce_ends in Hon. exists k. split; [done|].
    rewrite interfered_S, <-Hk, <-Hd, <-Ht.
    inversion Hon as [? ? ? ? ? ? Hf|? ? ? Hda Hto Ho Hca Htr Hr|? ? ? ? Hn|]; subst.
    + destruct (Hf Hu) as [_ Hr]. by rewrite (Hnr e) in Hr.
    + done.
    + by rewrite Hn in Hu.
  - destruct Hbad as (l & msg & w2 & w3 & r' & Hon%writeOnce_ends & Hr & He).
    assert (is_uniform l = true) as Hl by (destruct He as [[= ->]|[= ->]]; exact Hu).
    exfalso. inversion Hon as [? ? ? ? ? ? Hf|? ? ? ? ? Ho ? ? Hr'|? ? ? ? Hn|]; subst; [|congruence..].
    destruct (Hf Hl) as [Ho _]. by rewrite (Hun _ _ _ Ho Hl) in Hr.
Qed.
End write.

(** ** Instances *)

Definition start : TxWorld nat := mkTxWorld 0 [] false 0 0.

(** A counter whose first attempt loses a serialization race. *)
Definition counter (t d : nat) : Outcome nat nat :=
  mkOutcome (S d) (if Nat.eqb t 0 then Some (EPg "40001") else None) (S d) NewTxAuthorizer false.

Lemma write_exactly_once_witness : ∃ r w',
  WriteResult EnginePostgres (λ _, None) (λ _, false) (λ _ _, false) (λ _ d, d) 0 counter start
    = (r, None, w') ∧ data w' = 1 ∧ r = 1.
Proof.
  assert (∃ r w', WriteResult EnginePostgres (λ _, None) (λ _, false) (λ _ _, false) (λ _ d, d) 0
    counter start = (r, None, w')) as (r & w' & H) by (vm_compute; by do 2 eexists).
  exists r, w'. split; [done|].
  destruct (write_exactly_once EnginePostgres (λ _, None) (λ _, false) (λ _ _, false) (λ _ d, d) 0
    counter ltac:(done) ltac:(done) ltac:(intros; constructor) ltac:(done) start r w' H)
    as (k & Hk & Ho & -> & -> & _).
  destruct k as [|[|[|[|k]]]]; [done|done|done|done|lia].
Defined.

(** A closure that asks the chokepoint for mallory and returns its refusal. *)
Definition refused (t : nat) (d : nat) : Outcome nat unit :=
  let '(r, s) := Authorize registry demo_ctx demo_R (Some t) (human "mallory") OpValueReveal scope_e1
                   NewTxAuthorizer in
  mkOutcome tt (match r with Err e => Some (EDomain e) | Ok _ => None end) (S d) s false.

Lemma refused_outcome t d :
  out_err (refused t d) = Some (EDomain ErrNotFound) ∧ captureErr (out_az (refused t d)) = [] ∧
  length (denials (out_az (refused t d))) = 1.
Proof. unfold refused. rewrite registry_operationTable. by vm_compute. Qed.

Lemma uniform_refusal_durable_witness : ∃ w',
  WriteResult EngineSQLite (λ n, if Nat.eqb n 2 then Some (ESqlite 517) else None) (λ _, false)
    (λ _ _, false) (λ _ d, d) tt refused start = (tt, Some (EDomain ErrNotFound), w') ∧
  length (trail w') = 1 ∧ data w' = 0.
Proof.
  assert (∃ w', WriteResult EngineSQLite (λ n, if Nat.eqb n 2 then Some (ESqlite 517) else None)
    (λ _, false) (λ _ _, false) (λ _ d, d) tt refused start
    = (tt, Some (EDomain ErrNotFound), w')) as [w' H].
  { unfold refused. rewrite registry_operationTable. vm_compute. by eexists. }
  exists w'. split; [done|].
  destruct (uniform_refusal_durable EngineSQLite (λ n, if Nat.eqb n 2 then Some (ESqlite 517) else None)
    (λ _, false) (λ _ _, false) (λ _ d, d) tt refused) with (w := start) (r := tt)
    (e := EDomain ErrNotFound) (w' := w') as (k & Hk & Ho & _ & Htr & Hd); try done.
  - intros n e. by destruct (Nat.eqb n 2); intros [= <-].
  - intros t d. destruct (refused_outcome t d) as (_ & -> & _). constructor.
  - intros t d. by destruct (refused_outcome t d) as (-> & _).
  - intros t d x. destruct (refused_outcome t d) as (-> & _). by intros [= <-].
  - rewrite Htr, Hd. split; [by destruct (refused_outcome (0 + k) (interfered (λ _ d, d) start (S k))) as (_ & _ & ?)|].
    unfold interfered. cbn. by destruct k as [|[|[|[|k]]]]; [..|lia].
Defined.

(** A committed write can run again. When a closure succeeds and has an audit
    event enrolled for settlement, a flush that exhausts its four attempts on a
    serialization failure is reported by an error that wraps that failure; the
    outer loop classifies it as retryable and runs the committed closure a second
    time, although no commit was ambiguous and the call returns without error. *)
Theorem settled_write_runs_twice :
  ∃ (fault : nat → option err) (fn : nat → nat → Outcome nat unit) w',
    (∀ t d, out_err (fn t d) = None ∧ out_data (fn t d) = S d) ∧
    WriteResult EnginePostgres fault (λ _, false) (λ _ _, false) (λ _ d, d) tt fn start
      = (tt, None, w') ∧ data w' = 2.
Proof.
  pose (e := mkEvent "evt" "key.reveal_gate_attempt" 1 0 (mkActor "alice" "") "" (mkObject "key" "k1")
    "success" "" "" "" ∅).
  exists (λ n, if Nat.leb 3 n && Nat.leb n 6 then Some (EPg "40001") else None),
    (λ t d, mkOutcome tt None (S d) (CaptureAudit TrailTenant scope_e1 e NewTxAuthorizer) false).
  vm_compute. by eexists.
Qed.
