(* ===== verification/RuleProps.v ===== *)
(** * What policy data means

    The claims about the policy vocabulary below the chokepoint: selectors and
    their containment, rule validation and reach, effective policy, machine
    reachability, templates, machine allowlists and the shipped registry. *)

From stdpp Require Import prelude gmap strings list.
From S2P Require Import Prelude StringFacts Domain Rule Containment Tables Registry.
From S2P Require Import OperationTable RegistryFacts Evaluate.

(** ** Selectors *)

(** C26 The finite witness test decides containment. For every list of outer
    selectors, inner selector, project and resolved folder metadata,
    [WhereUnionContainsInProject] terminates with an answer, and the answer is
    [true] exactly when all named key ids are resolved and every environment
    and key the inner selector admits (including ones that do not exist yet, in
    folders that do not exist yet) is admitted by some outer selector. *)
Theorem selector_containment_decided outers inner project keyFolders :
  ∃ b, WhereUnionContainsInProject outers inner project keyFolders = Some b ∧
    (b = true ↔ ids_resolved (outers ++ [inner]) project keyFolders ∧
                union_contains outers inner project keyFolders).
Proof.
  destruct (WhereUnion_total outers inner project keyFolders) as [b Hb]. exists b.
  split; [done|]. rewrite <-WhereUnion_iff, Hb. naive_solver.
Qed.

(** The pairwise containment check is a sound special case of the union
    check: when [ContainsWhereInProject] accepts a pair of selectors with
    resolved key ids, the union check accepts it too, so nothing the inner
    selector admits escapes the outer one. *)
Theorem pairwise_containment_refines outer inner project keyFolders :
  ids_resolved [outer; inner] project keyFolders →
  ContainsWhereInProject outer inner project keyFolders = true →
  WhereUnionContainsInProject [outer] inner project keyFolders = Some true.
Proof.
  intros Hids H. apply WhereUnion_iff. split; [done|]. intros env key Hc He Hk.
  exists outer. split; [set_solver|]. by eapply ContainsWhere_sound.
Qed.

Lemma pairwise_containment_refines_witness :
  let outer := mkWhere ["p1"] AxisAll {[ "p1" := ["prod"] ]} AxisOnly
                 {[ "p1" := [mkItem "db" "" true; mkItem "" "k9" false] ]} in
  let inner := mkWhere ["p1"] AxisOnly {[ "p1" := ["e1"] ]} AxisOnly
                 {[ "p1" := [mkItem "db" "" true] ]} in
  WhereUnionContainsInProject [outer] inner "p1" {[ "k9" := "ops" ]} = Some true.
Proof.
  intros outer inner. apply (pairwise_containment_refines outer inner "p1").
  - intros w it Hw Hit Hf. apply elem_of_cons in Hw as [->|Hw].
    + vm_compute in Hit. apply elem_of_cons in Hit as [->|Hit]; [done|].
      apply elem_of_cons in Hit as [->|Hit]; [vm_compute; by eexists|by apply elem_of_nil in Hit].
    + apply elem_of_cons in Hw as [->|Hw]; [|by apply elem_of_nil in Hw].
      vm_compute in Hit. apply elem_of_cons in Hit as [->|Hit]; [done|by apply elem_of_nil in Hit].
  - by vm_compute.
Defined.

(** ** Rules *)

(** Validation is exact. A rule passes [Validate] if and only if it names an
    organisation, a capability rules may confer, distinct projects, a known mode
    on each axis, distinct non-empty items filed under its own projects, at
    least one item on an only-axis, at most [MaxRuleItems] items in all, and
    narrows no axis its capability's shape does not have. *)
Theorem Validate_exact r : Validate r = Ok tt ↔ rule_wf r.
Proof. apply Validate_wf. Qed.

(** A rule reaches what its selectors admit. For a valid rule and an
    environment atom of its capability, addressed with a key in an environment
    of the rule's organisation, [Reaches] is the conjunction of the project,
    environment and key selectors; See ignores the key axis. *)
Theorem Reaches_is_selector r s key :
  Validate r = Ok tt → Rule_Capability r ≠ CapManageMembers →
  Org s = Rule_Org r → Env s ≠ "" →
  Reaches r (Rule_Capability r) LevelEnv s (Some key) = true ↔
    Project s ∈ Projects (Rule_Where r) ∧
    selectorEnvMatches (Rule_Where r) (Project s) (Env s) = true ∧
    (Rule_Capability r = CapRead ∨ selectorKeyMatches (Rule_Where r) (Project s) key = true).
Proof.
  intros Hv Hm Ho He. rewrite Reaches_selector by done.
  rewrite !andb_true_iff, orb_true_iff, bool_decide_eq_true, Contains_true. tauto.
Qed.

Lemma Reaches_is_selector_witness :
  let r := mkRule "r" "rita" CapReveal "o1"
    (mkWhere ["p1"] AxisAll ∅ AxisOnly {[ "p1" := [mkItem "db" "" true] ]}) in
  Reaches r CapReveal LevelEnv (mkScope "o1" "p1" "e1") (Some (mkRuleKey "k1" "db")) = true ∧
  Reaches r CapReveal LevelEnv (mkScope "o1" "p1" "e1") (Some (mkRuleKey "k2" "ops")) = false.
Proof.
  intros r. split.
  - apply (Reaches_is_selector r); [by vm_compute|done|done|done|].
    split_and!; [set_solver|by vm_compute|right; by vm_compute].
  - apply not_true_is_false. intros H.
    apply (Reaches_is_selector r) in H; [|by vm_compute|done|done|done].
    destruct H as (_ & _ & [H|H]); [done|by vm_compute in H].
Defined.

(** ** Effective policy *)

(** Effective policy is a conjunction of separately held atoms. A formula
    holds if and only if each of its atoms is satisfied by one grant of that
    capability whose scope covers the addressed chain cut to the atom's level,
    or by one valid rule that reaches it; different atoms may rest on different
    grants and rules. *)
Theorem effective_policy_spec f chain grants rules key :
  evaluateWithRules f chain grants rules key = true ↔
  ∀ atom, atom ∈ f →
    (∃ g, g ∈ grants ∧ Grant_Capability g = Cap atom ∧
       covers (Grant_Scope g) (truncate chain (At atom)) = true) ∨
    (∃ r, r ∈ rules ∧ rule_wf r ∧ Reaches r (Cap atom) (At atom) chain key = true).
Proof.
  rewrite evaluateWithRules_true. split; intros H atom Hin.
  - destruct (H atom Hin) as [He|(r & Hr & Hv & Hre)].
    + left. rewrite evaluate_true in He. apply He. set_solver.
    + right. exists r. by rewrite <-Validate_wf.
  - destruct (H atom Hin) as [Hg|(r & Hr & Hwf & Hre)].
    + left. apply evaluate_true. intros a Ha. apply list_elem_of_singleton in Ha as ->. done.
    + right. exists r. by rewrite Validate_wf.
Qed.

(** Machine reachability agrees with the registry. The environments
    [ReachableFrom] reports as current are those of the project whose
    [value.reveal] formula the same grants satisfy, and the historical ones are
    those where read and reveal-history both hold; neither class implies the
    other. *)
Theorem reachability_agrees scope envs grants :
  ∃ spec, lookupSpec registry OpValueReveal = Some spec ∧
  ∀ env, let at_ := mkScope (Org scope) (Project scope) env in
    (env ∈ Current (ReachableFrom scope envs grants) ↔
       env ∈ envs ∧ evaluate (as_formula spec) at_ grants = true) ∧
    (env ∈ Historical (ReachableFrom scope envs grants) ↔
       env ∈ envs ∧
       evaluate [mkAtom CapRead LevelEnv; mkAtom CapRevealHistory LevelEnv] at_ grants = true).
Proof.
  exists (mkAuthorizationSpec ClassTenant LevelEnv [mkAtom CapRead LevelEnv; mkAtom CapReveal LevelEnv]).
  split; [rewrite registry_operationTable; by vm_compute|]. intros env. apply ReachableFrom_spec.
Qed.

(** ** Closed tables *)

(** The check of one template at one level. *)
Definition expansion_legal (spec : templateSpec) (l : Level) : bool :=
  negb (applicable spec l) ||
  (let caps := creates spec ++ if decide (l = LevelOrg) then orgOnly spec else [] in
   bool_decide (caps ≠ []) && bool_decide (NoDup caps) &&
   forallb (λ c, match DeepestLevel c with
                 | Some d => Nat.leb (level_index l) (level_index d)
                 | None => false
                 end) caps).

Lemma templates_legal : map_Forall (λ _ spec, ∀ l, expansion_legal spec l = true) templates.
Proof.
  assert (map_Forall (λ _ spec, forallb (expansion_legal spec)
    [LevelNone; LevelOrg; LevelProject; LevelEnv] = true) templates) as H by by_compute.
  intros t spec Ht l. specialize (H t spec Ht). rewrite forallb_true in H. apply H.
  destruct l; set_solver.
Qed.

(** Template expansion is legal at its level. Expanding a template at a level
    answers with a non-empty set of distinct known capabilities, each of which
    may be granted at that level or deeper; an unknown template and a template
    that does not apply there are told apart. *)
Theorem ExpandTemplate_legal t l :
  match ExpandTemplate t l with
  | Ok caps => caps ≠ [] ∧ NoDup caps ∧
      ∀ c, c ∈ caps → ∃ d, DeepestLevel c = Some d ∧ level_index l ≤ level_index d
  | Err ErrNoSuchTemplate => templates !! t = None
  | Err ErrTemplateScope => ∃ spec, templates !! t = Some spec ∧ applicable spec l = false
  end.
Proof.
  unfold ExpandTemplate. destruct (templates !! t) as [spec|] eqn:Ht; [|done].
  destruct (applicable spec l) eqn:Ha; cbn [negb]; [|eauto].
  pose proof (templates_legal t spec Ht l) as H. unfold expansion_legal in H. rewrite Ha in H.
  cbn [negb orb] in H. rewrite !andb_true_iff, !bool_decide_eq_true, forallb_true in H.
  destruct H as [[Hne Hnd] Hall]. split_and!; [done|done|]. intros c Hc. specialize (Hall c Hc).
  destruct (DeepestLevel c) as [d|]; [|done]. exists d. split; [done|]. by apply Nat.leb_le.
Qed.

(** Machine allowlists are closed and disclose nothing. What a machine class
    may hold is a known capability that may be granted at the class's scope
    depth, and it is never one that reveals plaintext, administers members,
    configures the instance or rotates keys: plaintext reaches a machine only
    through the project opt-in. *)
Theorem machine_allowlist_closed c cap :
  MachineMayHold c cap = true →
  (∃ depth d, MachineScopeDepth c = Some depth ∧ DeepestLevel cap = Some d ∧
     level_index depth ≤ level_index d) ∧
  cap ∉ [CapReveal; CapRevealHistory; CapManageMembers; CapManageIdentities; CapInstanceConfig;
         CapCredentialReset; CapRotateRootKey; CapRotateMasterKey; CapRotateDEK; CapReencrypt].
Proof.
  unfold MachineMayHold. destruct (machineAllowlists !! c) as [s|] eqn:Hc; [|done].
  intros Hin%bool_decide_eq_true.
  assert (map_Forall (λ c (s : gset Capability), set_Forall (λ cap,
    match MachineScopeDepth c, DeepestLevel cap with
    | Some depth, Some d => Nat.leb (level_index depth) (level_index d)
    | _, _ => false
    end = true ∧ cap ∉ [CapReveal; CapRevealHistory; CapManageMembers; CapManageIdentities;
      CapInstanceConfig; CapCredentialReset; CapRotateRootKey; CapRotateMasterKey; CapRotateDEK;
      CapReencrypt]) s) machineAllowlists) as Hall by by_compute.
  destruct (Hall c s Hc cap Hin) as [Hd Hn]. split; [|done].
  destruct (MachineScopeDepth c) as [depth|], (DeepestLevel cap) as [d|]; try done.
  exists depth, d. by apply Nat.leb_le in Hd.
Qed.

Lemma machine_allowlist_closed_witness :
  CapReveal ≠ CapEdit ∧ MachineScopeDepth ClassAutomation = Some LevelProject.
Proof.
  destruct (machine_allowlist_closed ClassAutomation CapEdit) as [(depth & d & Hd & _) Hn];
    [by vm_compute|].
  split; [|done]. intros E. apply Hn. rewrite <-E. set_solver.
Defined.

(** The shipped registry is valid. The whole operation table passes the
    startup validation, so process initialisation does not panic, and every
    registered operation has a proof-minting class that matches its level, a
    non-empty formula of known capabilities at legal levels, a positive store
    allowlist and an audit disposition: its events are registered and distinct,
    or it is one of the reviewed silent reads. *)
Theorem shipped_registry_valid :
  newRegistry operationTable = Some registry ∧
  map_Forall (λ op spec, op ≠ "" ∧ spec_wf op spec) registry.
Proof.
  split; [by rewrite registry_operationTable, shipped_newRegistry|].
  intros op spec. apply shipped_spec_wf.
Qed.
