(* ===== verification/Sweep.v ===== *)
(** * Bounded maps: the eviction sweep of [internal/admission]

    [evictStale] and [evictAccounts] are the same loop over a Go map: delete
    every stale entry, remember the live entry of least rank as long as nothing
    was reclaimed, and forget that one if the map is still full. The order of the
    [range] is an argument. *)

From stdpp Require Import prelude gmap list.
From S2P Require Import Prelude.

Local Open Scope Z_scope.

Definition Before (t u : Z) : bool := bool_decide (t < u).

(** [order] lists the keys of [m], each once: what [range] guarantees. *)
Definition lists_keys {K V} `{Countable K} (order : list K) (m : gmap K V) : Prop :=
  order ≡ₚ (map_to_list m).*1.

Lemma lists_keys_elem {K V} `{Countable K} (order : list K) (m : gmap K V) k :
  lists_keys order m → k ∈ order ↔ k ∈ dom m.
Proof.
  intros Ho. rewrite Ho, list_elem_of_fmap, elem_of_dom. split.
  - intros ([k' v] & -> & Hin%elem_of_map_to_list). by exists v.
  - intros [v Hv]. exists (k, v). by rewrite elem_of_map_to_list.
Qed.

Section sweep.
Context {K V : Type} `{Countable K}.
Context (stale : V → bool) (rank : V → Z) (bound : nat).

Record sweep := Sweep {
  sw_map : gmap K V;
  sw_cand : option (K * Z);
  sw_reclaimed : bool
}.

(** One iteration of the loop. *)
Definition visit (s : sweep) (k : K) : sweep :=
  match sw_map s !! k with
  | None => s
  | Some v =>
      if stale v then Sweep (delete k (sw_map s)) (sw_cand s) true
      else if negb (sw_reclaimed s)
              && match sw_cand s with None => true | Some (_, r) => Before (rank v) r end
      then Sweep (sw_map s) (Some (k, rank v)) (sw_reclaimed s)
      else s
  end.

Definition sweep_all (order : list K) (m : gmap K V) : sweep :=
  foldl visit (Sweep m None false) order.

(** The whole sweep, with its fallback. *)
Definition evict (order : list K) (m : gmap K V) : gmap K V :=
  let s := sweep_all order m in
  match sw_cand s with
  | Some (k, _) =>
      if bool_decide (bound ≤ size (sw_map s))%nat then delete k (sw_map s) else sw_map s
  | None => sw_map s
  end.

Definition survives (v : V) : option V := if stale v then None else Some v.

Lemma visit_lookup s k k' :
  sw_map (visit s k) !! k' =
    if decide (k' = k) then sw_map s !! k' ≫= survives else sw_map s !! k'.
Proof.
  unfold visit, survives. destruct (sw_map s !! k) as [v|] eqn:E.
  - destruct (stale v) eqn:El; simpl.
    + case_decide; subst; [rewrite lookup_delete_eq, E; simpl; by rewrite El|].
      by rewrite lookup_delete_ne by done.
    + repeat case_match; simpl; subst; rewrite ?E; simpl; rewrite ?El; done.
  - case_decide; subst; rewrite ?E; done.
Qed.

Lemma survives_idemp o : (o ≫= survives) ≫= survives = o ≫= survives.
Proof.
  destruct o as [v|]; [simpl|done]. unfold survives at 2 3.
  destruct (stale v) eqn:E; simpl; [done|]. unfold survives. by rewrite E.
Qed.

Lemma fold_visit_lookup order s k :
  sw_map (foldl visit s order) !! k =
    if decide (k ∈ order) then sw_map s !! k ≫= survives else sw_map s !! k.
Proof.
  revert s. induction order as [|k' order IH]; intros s; cbn [foldl].
  { by rewrite decide_False by apply not_elem_of_nil. }
  rewrite IH, visit_lookup. destruct (decide (k = k')) as [->|Hne].
  - rewrite (decide_True (P := k' ∈ k' :: order)) by left.
    case_decide; [apply survives_idemp|done].
  - destruct (decide (k ∈ order)), (decide (k ∈ k' :: order)) as [Hin|Hni]; try done.
    + destruct Hni. by right.
    + apply elem_of_cons in Hin as [?|?]; done.
Qed.

Lemma sweep_all_lookup order m k :
  sw_map (sweep_all order m) !! k =
    if decide (k ∈ order) then m !! k ≫= survives else m !! k.
Proof. apply fold_visit_lookup. Qed.

Lemma sweep_all_sub order m : sw_map (sweep_all order m) ⊆ m.
Proof.
  apply map_subseteq_spec. intros k v. rewrite sweep_all_lookup.
  case_decide; [|done]. destruct (m !! k) as [v'|]; simpl; [|done].
  unfold survives. case_match; congruence.
Qed.

Lemma sweep_all_stale order m k v :
  lists_keys order m → m !! k = Some v → stale v = true →
  sw_map (sweep_all order m) !! k = None.
Proof.
  intros Ho Hk Hl. rewrite sweep_all_lookup, Hk. simpl.
  rewrite decide_True by (rewrite lists_keys_elem by done; by apply elem_of_dom_2 in Hk).
  unfold survives. by rewrite Hl.
Qed.

(** The candidate is a live entry of the map. *)
Definition cand_ok (s : sweep) : Prop :=
  match sw_cand s with
  | None => True
  | Some (k, _) => ∃ v, sw_map s !! k = Some v ∧ stale v = false
  end.

Lemma visit_cand_ok s k : cand_ok s → cand_ok (visit s k).
Proof.
  intros Hok. unfold visit. destruct (sw_map s !! k) as [v|] eqn:E; [|done].
  destruct (stale v) eqn:El; simpl.
  - unfold cand_ok in *. simpl. destruct (sw_cand s) as [[k' r]|]; [|done].
    destruct Hok as (v' & Hv' & Hs). exists v'. split; [|done].
    rewrite lookup_delete_ne; [done|congruence].
  - case_match; [|done]. exists v. done.
Qed.

Lemma sweep_all_cand_ok order m : cand_ok (sweep_all order m).
Proof.
  cut (∀ s, cand_ok s → cand_ok (foldl visit s order)); [intros Hc; by apply Hc|].
  induction order as [|k order IH]; intros s Hs; simpl; [done|].
  by apply IH, visit_cand_ok.
Qed.

(** With every entry live, visiting any entry leaves a candidate. *)
Lemma fold_visit_cand order s :
  (∀ k v, sw_map s !! k = Some v → stale v = false) →
  sw_reclaimed s = false →
  (is_Some (sw_cand s) ∨ ∃ k, k ∈ order ∧ is_Some (sw_map s !! k)) →
  is_Some (sw_cand (foldl visit s order)).
Proof.
  revert s. induction order as [|k order IH]; intros s Hall Hr Hex; simpl.
  { destruct Hex as [?|(k & Hk & _)]; [done|by apply elem_of_nil in Hk]. }
  assert (sw_map (visit s k) = sw_map s ∧ sw_reclaimed (visit s k) = false
    ∧ (is_Some (sw_cand s) ∨ is_Some (sw_map s !! k) → is_Some (sw_cand (visit s k))))
    as (Eb & Er & Ec).
  { unfold visit. destruct (sw_map s !! k) as [v|] eqn:E.
    2:{ split; [done|]. split; [done|]. intros [?|[? ?]]; done. }
    rewrite (Hall _ _ E), Hr. simpl. destruct (sw_cand s) as [[k' r]|] eqn:Ec; simpl;
      [case_match|]; simpl; (split; [done|split; [done|]]); intros _; rewrite ?Ec; by eexists. }
  apply IH; rewrite ?Eb; [done..|].
  destruct Hex as [Hs|(k' & [->|Hin]%elem_of_cons & Hs)]; [left; auto..|right; eauto].
Qed.

Lemma evict_sub order m k v : evict order m !! k = Some v → m !! k = Some v.
Proof.
  pose proof (sweep_all_sub order m) as Hs. unfold evict.
  repeat case_match; [intros [_ ?]%lookup_delete_Some|intros ?|intros ?]; by eapply lookup_weaken.
Qed.

(** A sweep of a full map frees at least one entry. *)
Lemma evict_size order m :
  lists_keys order m → (bound ≤ size m)%nat → m ≠ ∅ →
  (size (evict order m) < size m)%nat.
Proof.
  intros Ho Hfull Hnz.
  destruct (decide (map_Forall (λ _ v, stale v = false) m)) as [Hall|Hex].
  - assert (sw_map (sweep_all order m) = m) as Eb.
    { apply map_eq. intros k. rewrite sweep_all_lookup.
      case_decide; [|done]. destruct (m !! k) as [v|] eqn:E; simpl; [|done].
      unfold survives. by rewrite (Hall _ _ E). }
    assert (is_Some (sw_cand (sweep_all order m))) as [[k r] Ec].
    { apply fold_visit_cand; simpl; [done|done|right].
      apply map_choose in Hnz as (k & v & Hk). exists k.
      split; [rewrite lists_keys_elem by done; by apply elem_of_dom_2 in Hk|by eexists]. }
    pose proof (sweep_all_cand_ok order m) as Hok. unfold cand_ok in Hok.
    unfold evict. rewrite Ec in Hok |- *. rewrite Eb in Hok |- *. destruct Hok as (v & Hv & _).
    rewrite bool_decide_true by done. rewrite map_size_delete_Some by eauto.
    destruct (size m) eqn:Es; [|lia]. by apply map_size_empty_inv in Es.
  - apply map_not_Forall in Hex as (k & v & Hk & Hl); [|apply _].
    apply map_subset_size, map_subset_alt. split.
    + apply map_subseteq_spec. intros k' v'. apply evict_sub.
    + exists k. split; [|by eexists].
      destruct (evict order m !! k) as [v'|] eqn:E; [exfalso|done].
      pose proof (sweep_all_stale order m k v Ho Hk (not_false_is_true _ Hl)).
      unfold evict in E.
      repeat case_match; [apply lookup_delete_Some in E as [_ E]|..]; congruence.
Qed.

(** When a stale entry is there to reclaim and the map is at its bound, every
    live entry survives the sweep. *)
Lemma evict_live order m k0 v0 k v :
  lists_keys order m → (size m ≤ bound)%nat →
  m !! k0 = Some v0 → stale v0 = true → m !! k = Some v → stale v = false →
  evict order m !! k = Some v.
Proof.
  intros Ho Hsz Hk0 Hl0 Hk Hl.
  assert (sw_map (sweep_all order m) !! k = Some v) as Es.
  { rewrite sweep_all_lookup, Hk. simpl. unfold survives. rewrite Hl. by case_decide. }
  assert (size (sw_map (sweep_all order m)) < size m)%nat as Hlt.
  { apply map_subset_size, map_subset_alt. split; [apply sweep_all_sub|].
    exists k0. split; [by eapply sweep_all_stale|by eexists]. }
  unfold evict. repeat case_match; bsimp; [lia|done|done].
Qed.
End sweep.
