(* ===== verification/AdmissionWindow.v ===== *)
(** * Admission windows: the rate limiters of [internal/admission/admission.go]

    [allowIPIn] is the in-memory sliding one-minute window every per-source and
    per-issuer limiter uses, [evictStale] its bounded-memory sweep, and
    [allowShared] the fixed-window variant on the shared datastore.

    Instants are nanoseconds since Go's zero [time.Time] (1 January of year 1),
    so [IsZero] is [t = 0] and [Truncate(d)] is a subtraction of [t mod d]; the
    clock reading [l.now()] is an argument of each operation. A Go [range] over
    a map visits the keys in an unspecified order that differs from call to
    call: each sweep takes that order as an argument, and the theorems hold for
    every order that lists the map's keys. *)

From stdpp Require Import prelude gmap strings list sorting.
From S2P Require Import Prelude Sweep.

Local Open Scope Z_scope.

(** ** Instants and durations *)

Definition Second : Z := 1000000000.
Definition Minute : Z := 60 * Second.

(** [time.Time.Sub] saturates at the ends of [time.Duration]. *)
Definition maxDuration : Z := 9223372036854775807.
Definition minDuration : Z := -9223372036854775808.
Definition Sub (t u : Z) : Z := Z.max minDuration (Z.min maxDuration (t - u)).

Definition After (t u : Z) : bool := bool_decide (u < t).
Definition Truncate (t d : Z) : Z := t - t `mod` d.

Lemma Sub_exact t u : minDuration ≤ t - u ≤ maxDuration → Sub t u = t - u.
Proof. unfold Sub. lia. Qed.

Lemma Sub_minute t u : 0 ≤ t - u ≤ Minute → Sub t u = t - u.
Proof. intros. apply Sub_exact. unfold minDuration, maxDuration, Minute, Second in *. lia. Qed.

Lemma Truncate_window t : Truncate t Minute ≤ t < Truncate t Minute + Minute.
Proof.
  unfold Truncate. pose proof (Z.mod_pos_bound t Minute ltac:(done)). lia.
Qed.

(** ** Limits ([const] block of admission.go) *)

Definition QueueDepth : Z := 16.
Definition PerIPPerMinute : Z := 10.
Definition MetaPerIPPerMinute : Z := 60.
Definition IssuerRefreshPerMinute : Z := 5.
Definition RetryAfter : Z := 5 * Second.
Definition MaxTrackedSubjects : nat := 4096.

Lemma MaxTrackedSubjects_pos : (0 < MaxTrackedSubjects)%nat.
Proof. apply Nat.lt_0_succ. Qed.

#[global] Opaque MaxTrackedSubjects.

(** ** The sliding window *)

(** [map[string][]time.Time]. *)
Abbreviation windows := (gmap string (list Z)).

(** The hits still inside the window, in their order. *)
Definition kept (cutoff : Z) (hits : list Z) : list Z :=
  filter (λ t, cutoff < t) hits.

Definition live (cutoff : Z) (hits : list Z) : bool :=
  existsb (λ t, After t cutoff) hits.

(** [evictStale]: reclaim every bucket with no hit in the window; when none was
    reclaimed and the map is still full, forget the bucket whose first hit is the
    oldest. The source's [oldestKey == ""] is the sweep's "no candidate": the
    empty subject is never tracked ([allowIPIn_tracked]). A live bucket is
    non-empty, so [hits[0]] exists. *)
Definition evictStale (order : list string) (bucket : windows) (cutoff : Z) : windows :=
  evict (λ hits, negb (live cutoff hits)) (hd 0) MaxTrackedSubjects order bucket.

(** [allowIPIn]: the updated map and the wait, zero when the hit is admitted
    and charged. [order] is the order of [evictStale]'s [range]. *)
Definition allowIPIn (order : windows → list string) (bucket : windows)
    (ip : string) (allowance : nat) (now : Z) : windows * Z :=
  if bool_decide (ip = "") then (bucket, 0)
  else
    let cutoff := now - Minute in
    let k := kept cutoff (mget bucket ip) in
    if bool_decide (allowance ≤ length k)%nat then
      (<[ip := k]> bucket, Sub (nth (length k - allowance) k 0 + Minute) now)
    else
      let bucket :=
        if bool_decide (k = []) && bool_decide (MaxTrackedSubjects ≤ size bucket)%nat
        then evictStale (order bucket) bucket cutoff
        else bucket in
      (<[ip := k ++ [now]]> bucket, 0).

(** ** Lemmas on hits *)

Lemma map_size_insert_le `{Countable K} {A} (m : gmap K A) k v :
  (size (<[k := v]> m) ≤ S (size m))%nat.
Proof. rewrite map_size_insert. destruct (m !! k); simpl; unfold id; lia. Qed.

Lemma elem_of_kept t cutoff hits : t ∈ kept cutoff hits ↔ cutoff < t ∧ t ∈ hits.
Proof. apply list_elem_of_filter. Qed.

Lemma kept_kept c c' hits : c ≤ c' → kept c' (kept c hits) = kept c' hits.
Proof.
  intros Hc. unfold kept. rewrite list_filter_filter.
  apply list_filter_iff. intros t. lia.
Qed.

Lemma kept_app c h h' : kept c (h ++ h') = kept c h ++ kept c h'.
Proof. apply filter_app. Qed.

Lemma kept_snoc c h t : c < t → kept c (h ++ [t]) = kept c h ++ [t].
Proof.
  intros Ht. rewrite kept_app. f_equal. unfold kept.
  rewrite filter_cons_True by done. done.
Qed.

Lemma kept_nil c : kept c [] = [].
Proof. done. Qed.

Lemma live_kept c hits : live c hits = false ↔ kept c hits = [].
Proof.
  unfold live. rewrite existsb_false. split.
  - intros H. destruct (kept c hits) as [|t l] eqn:E; [done|].
    assert (t ∈ kept c hits) as [? Hin]%elem_of_kept by (rewrite E; left).
    specialize (H t Hin). unfold After in H. bsimp. lia.
  - intros E t Ht. unfold After. apply bool_decide_eq_false. intros Hc.
    assert (t ∈ kept c hits) as Hin by (by apply elem_of_kept).
    rewrite E in Hin. by apply elem_of_nil in Hin.
Qed.

Lemma kept_sublist c hits : kept c hits `sublist_of` hits.
Proof. apply sublist_filter. Qed.

Lemma kept_none c hits : Forall (λ t, t ≤ c) hits → kept c hits = [].
Proof.
  intros H. destruct (kept c hits) as [|t l] eqn:E; [done|].
  assert (t ∈ kept c hits) as [? Hin]%elem_of_kept by (rewrite E; left).
  rewrite Forall_forall in H. specialize (H t Hin). lia.
Qed.

Lemma kept_all c hits : Forall (λ t, c < t) hits → kept c hits = hits.
Proof.
  induction 1 as [|t hits Ht _ IH]; [done|]. unfold kept in *.
  rewrite filter_cons_True by done. by rewrite IH.
Qed.

(** [order] lists the keys of the map it is given ([Sweep.lists_keys]), for the
    traversal of any bucket map. *)
Definition range_order (order : windows → list string) : Prop :=
  ∀ b : windows, lists_keys (order b) b.

Lemma evictStale_sub order b c k hits :
  evictStale order b c !! k = Some hits → b !! k = Some hits.
Proof. apply evict_sub. Qed.

Lemma evictStale_size order b c :
  range_order order → (MaxTrackedSubjects ≤ size b)%nat → b ≠ ∅ →
  (size (evictStale (order b) b c) < size b)%nat.
Proof. intros Ho. by apply evict_size. Qed.

Lemma evictStale_live order b c k0 h0 k hits :
  range_order order → (size b ≤ MaxTrackedSubjects)%nat →
  b !! k0 = Some h0 → live c h0 = false →
  b !! k = Some hits → live c hits = true →
  evictStale (order b) b c !! k = Some hits.
Proof.
  intros Ho Hsz Hk0 Hl0 Hk Hl. eapply (evict_live _ _ _ _ b k0 h0); try done.
  - by rewrite Hl0.
  - by rewrite Hl.
Qed.

(** ** One attempt *)

Lemma allowIPIn_admitted order b ip allowance now :
  ip ≠ "" → (length (kept (now - Minute) (mget b ip)) < allowance)%nat →
  (allowIPIn order b ip allowance now).2 = 0 ∧
  mget (allowIPIn order b ip allowance now).1 ip =
    kept (now - Minute) (mget b ip) ++ [now].
Proof.
  intros Hip Hlt. unfold allowIPIn. rewrite !bool_decide_false by (done || lia).
  simpl. split; [done|]. unfold mget. by rewrite lookup_insert_eq.
Qed.

(** The hit whose expiry reopens a full window. *)
Definition reopening (allowance : nat) (k : list Z) : Z := nth (length k - allowance) k 0.

Lemma reopening_elem allowance k :
  (0 < allowance ≤ length k)%nat → reopening allowance k ∈ k.
Proof. intros. apply list_elem_of_In, nth_In. lia. Qed.

Lemma allowIPIn_refused order b ip allowance now :
  ip ≠ "" → (0 < allowance ≤ length (kept (now - Minute) (mget b ip)))%nat →
  allowIPIn order b ip allowance now =
    (<[ip := kept (now - Minute) (mget b ip)]> b,
     Sub (reopening allowance (kept (now - Minute) (mget b ip)) + Minute) now) ∧
  0 < (allowIPIn order b ip allowance now).2.
Proof.
  intros Hip Hle. unfold allowIPIn. rewrite bool_decide_false by done.
  rewrite bool_decide_true by lia. split; [done|]. simpl.
  apply reopening_elem, elem_of_kept in Hle as [Hlt _]. fold (reopening allowance
    (kept (now - Minute) (mget b ip))).
  unfold Sub, minDuration, maxDuration. lia.
Qed.

(** An attempt of another subject leaves this subject's hits as they are, or
    forgets them. *)
Lemma allowIPIn_other order b ip ip' allowance now :
  ip' ≠ ip →
  mget (allowIPIn order b ip' allowance now).1 ip = mget b ip ∨
  mget (allowIPIn order b ip' allowance now).1 ip = [].
Proof.
  intros Hne. unfold allowIPIn. case_match; [by left|].
  case_match; simpl; unfold mget; rewrite lookup_insert_ne by done; [by left|].
  case_match; [|by left].
  destruct (evictStale _ _ _ !! ip) as [h|] eqn:E; [left|by right].
  by rewrite (evictStale_sub _ _ _ _ _ E).
Qed.

(** ** Attempts over time *)

Record attempt := Attempt {
  at_ip : string;
  at_now : Z;
  at_order : windows → list string
}.

Fixpoint run_window (allowance : nat) (b : windows) (tr : list attempt) : windows :=
  match tr with
  | [] => b
  | a :: tr =>
      run_window allowance (allowIPIn (at_order a) b (at_ip a) allowance (at_now a)).1 tr
  end.

(** The instants at which [ip] was admitted. *)
Fixpoint admissions (allowance : nat) (b : windows) (tr : list attempt) (ip : string) : list Z :=
  match tr with
  | [] => []
  | a :: tr =>
      let '(b', wait) := allowIPIn (at_order a) b (at_ip a) allowance (at_now a) in
      (if bool_decide (at_ip a = ip) && bool_decide (wait = 0) then [at_now a] else [])
        ++ admissions allowance b' tr ip
  end.

(** The clock does not run backwards between attempts (Go's monotonic clock,
    read under the limiter's lock). *)
Fixpoint chronological (from : Z) (tr : list attempt) : Prop :=
  match tr with
  | [] => True
  | a :: tr => from ≤ at_now a ∧ chronological (at_now a) tr
  end.

Definition subjects (tr : list attempt) : gset string := list_to_set (map at_ip tr).

Definition in_window (T t : Z) : Prop := T - Minute < t ≤ T.
#[export] Instance in_window_dec T t : Decision (in_window T t).
Proof. unfold in_window. apply _. Defined.

(** *** The tracked subjects stay bounded *)

Lemma allowIPIn_tracked order b ip allowance now :
  range_order order → (0 < allowance)%nat → "" ∉ dom b →
  (size b ≤ MaxTrackedSubjects)%nat →
  let b' := (allowIPIn order b ip allowance now).1 in
  ("" ∉ dom b') ∧ (size b' ≤ MaxTrackedSubjects)%nat.
Proof.
  intros Ho Ha Hne Hsz. unfold allowIPIn. case_match; bsimp; [done|].
  set (k := kept _ _).
  assert (∀ b' : windows, (∀ k h, b' !! k = Some h → b !! k = Some h) →
    ∀ h, "" ∉ dom (<[ip:=h]> b')) as Hdom.
  { intros b' Hb' h. rewrite dom_insert_L, not_elem_of_union, not_elem_of_singleton.
    split; [congruence|]. intros [h' Hh']%elem_of_dom. apply Hne, elem_of_dom.
    by eexists; apply Hb'. }
  assert (k ≠ [] → is_Some (b !! ip)) as Htracked.
  { intros Hk. unfold k, mget in Hk. destruct (b !! ip); [by eexists|done]. }
  case_match; bsimp; simpl.
  { split; [by apply Hdom|]. rewrite map_size_insert_Some; [done|].
    apply Htracked. intros Hk. rewrite Hk in *. simpl in *. lia. }
  case_match eqn:E; bsimp.
  - split; [apply Hdom; intros *; apply evictStale_sub|].
    assert (b ≠ ∅) as Hnz.
    { intros ->. rewrite map_size_empty in E. pose proof MaxTrackedSubjects_pos. lia. }
    pose proof (evictStale_size order b (now - Minute) Ho (proj2 E) Hnz).
    pose proof (map_size_insert_le (evictStale (order b) b (now - Minute)) ip (k ++ [now])). lia.
  - split; [by apply Hdom|]. rewrite map_size_insert.
    destruct (b !! ip) eqn:Eip; [done|].
    destruct E as [E|E]; [|lia]. exfalso. apply Htracked in E as [? ?]. congruence.
Qed.

(** *** The window bounds the admissions *)

(** What a map knows of a subject, at instant [now], relative to the full log
    of its admissions: inside the window they agree. *)
Definition tracks (allowance : nat) (now : Z) (hits log : list Z) : Prop :=
  (∀ c, now - Minute ≤ c → kept c hits = kept c log) ∧
  Forall (λ t, t ≤ now) log ∧
  ∀ T, (length (filter (in_window T) log) ≤ allowance)%nat.

Lemma tracks_later allowance now now' hits log :
  now ≤ now' → tracks allowance now hits log → tracks allowance now' hits log.
Proof.
  intros Hle (Hk & Hl & Hb). split; [intros c ?; apply Hk; lia|].
  split; [|done]. eapply Forall_impl; [done|]. simpl. lia.
Qed.

Lemma tracks_kept allowance now hits log :
  tracks allowance now hits log →
  tracks allowance now (kept (now - Minute) hits) log.
Proof.
  intros (Hk & Hl & Hb). split; [|done]. intros c Hc. rewrite kept_kept by done. auto.
Qed.

Lemma filter_in_window_kept T now log :
  now ≤ T → filter (in_window T) log `sublist_of` kept (now - Minute) log.
Proof.
  intros HT. unfold kept. induction log as [|t log IH]; [done|].
  rewrite !filter_cons. repeat case_decide; unfold in_window in *;
    solve [by constructor | lia | done].
Qed.

Lemma tracks_admit allowance now hits log :
  tracks allowance now hits log →
  (length (kept (now - Minute) hits) < allowance)%nat →
  tracks allowance now (kept (now - Minute) hits ++ [now]) (log ++ [now]).
Proof.
  intros (Hk & Hl & Hb) Hlt. split; [|split].
  - intros c Hc. rewrite !kept_app, kept_kept by done. by rewrite Hk.
  - apply Forall_app; split; [done|]. by constructor.
  - intros T. rewrite filter_app, length_app.
    destruct (decide (now ≤ T)) as [HT|HT].
    + rewrite (Hk (now - Minute)) in Hlt by lia.
      pose proof (sublist_length _ _ (filter_in_window_kept T now log HT)).
      assert (length (filter (in_window T) [now]) ≤ 1)%nat.
      { rewrite filter_cons, filter_nil. case_match; simpl; lia. }
      lia.
    + rewrite filter_cons_False by (unfold in_window; lia). rewrite filter_nil. simpl.
      specialize (Hb T). lia.
Qed.

Lemma tracks_forget allowance now hits log :
  live (now - Minute) hits = false →
  tracks allowance now hits log → tracks allowance now [] log.
Proof.
  intros Hl (Hk & ?). split; [|done]. intros c Hc.
  rewrite <- Hk by done. apply live_kept in Hl.
  rewrite <- (kept_kept (now - Minute) c hits) by done. by rewrite Hl.
Qed.

(** An attempt of [ip'] seen from [ip]: with no more subjects than the map can
    hold, a sweep never forgets a live bucket. *)
Lemma allowIPIn_keeps_live order b ip ip' allowance now S :
  range_order order → ip' ≠ ip → ip' ∈ S → dom b ⊆ S →
  (size S ≤ MaxTrackedSubjects)%nat →
  live (now - Minute) (mget b ip) = true →
  mget (allowIPIn order b ip' allowance now).1 ip = mget b ip.
Proof.
  intros Ho Hne Hin Hsub HS Hlive. unfold allowIPIn. case_match; [done|].
  case_match; simpl; unfold mget; rewrite lookup_insert_ne by done; [done|].
  case_match eqn:E; bsimp; [|done]. destruct E as [Ek Efull].
  assert (size b ≤ size S)%nat as Hsz.
  { rewrite <- size_dom. by apply subseteq_size. }
  assert (dom b = S) as Edom.
  { apply set_subseteq_size_eq; [done|]. rewrite size_dom. lia. }
  assert (is_Some (b !! ip')) as [h0 Hh0] by (apply elem_of_dom; by rewrite Edom).
  destruct (b !! ip) as [hits|] eqn:Eip; [|unfold mget in Hlive; rewrite Eip in Hlive; done].
  erewrite evictStale_live; [done|done|lia|exact Hh0| |exact Eip|].
  - apply live_kept. unfold mget in Ek. by rewrite Hh0 in Ek.
  - unfold mget in Hlive. by rewrite Eip in Hlive.
Qed.

Lemma allowIPIn_dom order b ip allowance now :
  ip ≠ "" → dom (allowIPIn order b ip allowance now).1 ⊆ {[ip]} ∪ dom b.
Proof.
  intros Hip. unfold allowIPIn. rewrite bool_decide_false by done.
  case_match; simpl; rewrite dom_insert_L; [done|].
  case_match; [|done]. apply union_mono_l. intros k [h Hh]%elem_of_dom.
  apply elem_of_dom. eexists. by eapply evictStale_sub.
Qed.

Lemma tracks_step allowance order b ip ip' from now log S :
  range_order order → (0 < allowance)%nat → ip ≠ "" →
  ip' ∈ S → dom b ⊆ S → (size S ≤ MaxTrackedSubjects)%nat →
  from ≤ now → tracks allowance from (mget b ip) log →
  let r := allowIPIn order b ip' allowance now in
  tracks allowance now (mget r.1 ip)
    (log ++ if bool_decide (ip' = ip) && bool_decide (r.2 = 0) then [now] else []) ∧
  dom r.1 ⊆ S.
Proof.
  intros Ho Ha Hip HinS Hdom HS Hle Ht. apply (tracks_later _ _ now) in Ht; [|done].
  simpl. split.
  2:{ destruct (decide (ip' = "")) as [->|Hne]; [done|].
      pose proof (allowIPIn_dom order b ip' allowance now Hne). set_solver. }
  destruct (decide (ip' = ip)) as [->|Hne].
  - rewrite (bool_decide_true (ip = ip)) by done. simpl.
    destruct (decide (allowance ≤ length (kept (now - Minute) (mget b ip)))%nat).
    + destruct (allowIPIn_refused order b ip allowance now Hip) as [-> Hpos]; [lia|].
      simpl in Hpos |- *. rewrite bool_decide_false by lia. rewrite app_nil_r.
      unfold mget at 1. rewrite lookup_insert_eq. simpl. by apply tracks_kept.
    + destruct (allowIPIn_admitted order b ip allowance now Hip) as [-> ->]; [lia|].
      rewrite bool_decide_true by done. apply tracks_admit; [done|lia].
  - rewrite (bool_decide_false (ip' = ip)) by done. simpl. rewrite app_nil_r.
    destruct (live (now - Minute) (mget b ip)) eqn:El.
    + by erewrite allowIPIn_keeps_live.
    + destruct (allowIPIn_other order b ip ip' allowance now Hne) as [->| ->]; [done|].
      by eapply tracks_forget.
Qed.

Lemma tracks_run allowance ip S tr : ∀ from b log,
  Forall (λ a, range_order (at_order a)) tr → (0 < allowance)%nat → ip ≠ "" →
  subjects tr ⊆ S → dom b ⊆ S → (size S ≤ MaxTrackedSubjects)%nat →
  chronological from tr → tracks allowance from (mget b ip) log →
  ∀ T, (length (filter (in_window T) (log ++ admissions allowance b tr ip)) ≤ allowance)%nat.
Proof.
  induction tr as [|a tr IH]; intros from b log Ho Ha Hip HS Hdom Hsz Hc Ht T; simpl.
  { rewrite app_nil_r. apply Ht. }
  apply Forall_cons in Ho as [Hoa Ho]. destruct Hc as [Hle Hc].
  assert (at_ip a ∈ S ∧ subjects tr ⊆ S) as [HaS HtrS].
  { unfold subjects in *. simpl in HS. set_solver. }
  destruct (tracks_step allowance (at_order a) b ip (at_ip a) from (at_now a) log S
    Hoa Ha Hip HaS Hdom Hsz Hle Ht) as [Ht' Hdom'].
  destruct (allowIPIn _ _ _ _ _) as [b' w] eqn:Er. simpl in *.
  rewrite app_assoc. by eapply IH.
Qed.

(** *** The advertised wait *)

(** The subject's recorded hits are in clock order and none is in the future. *)
Definition hits_ordered (now : Z) (hits : list Z) : Prop :=
  StronglySorted Z.le hits ∧ Forall (λ t, t ≤ now) hits.

Lemma sublist_StronglySorted {A} (R : A → A → Prop) (l k : list A) :
  l `sublist_of` k → StronglySorted R k → StronglySorted R l.
Proof.
  induction 1 as [|x l k Hs IH|x l k Hs IH]; intros Hk; [done| |];
    apply StronglySorted_inv in Hk as [Hk Hx]; [|auto].
  constructor; [auto|]. rewrite Forall_forall in *. intros y Hy. apply Hx.
  by eapply elem_of_sublist.
Qed.

Lemma hits_ordered_sub now hits hits' :
  hits' `sublist_of` hits → hits_ordered now hits → hits_ordered now hits'.
Proof.
  intros Hs [H1 H2]. split; [by eapply sublist_StronglySorted|].
  rewrite Forall_forall in *. intros t Ht. apply H2. by eapply elem_of_sublist.
Qed.

Lemma reopening_split allowance k :
  (0 < allowance ≤ length k)%nat →
  ∃ a b, k = a ++ reopening allowance k :: b ∧ S (length b) = allowance.
Proof.
  intros Hle. exists (take (length k - allowance) k), (drop (S (length k - allowance)) k).
  split; [|rewrite length_drop; lia].
  rewrite take_drop_middle; [done|]. unfold reopening.
  by destruct (nth_lookup_or_length k (length k - allowance) 0); [|lia].
Qed.

Lemma kept_reopened allowance k c :
  StronglySorted Z.le k → (0 < allowance ≤ length k)%nat →
  (length (kept c k) < allowance)%nat ↔ reopening allowance k ≤ c.
Proof.
  intros Hs Hle. destruct (reopening_split allowance k Hle) as (a & b & Ek & Hlen).
  set (r := reopening allowance k) in *. rewrite Ek in Hs |- *.
  apply StronglySorted_app in Hs as (Hab & _ & [Hb Hr]%StronglySorted_inv).
  split; intros H.
  - apply Z.nlt_ge. intros Hlt. rewrite kept_app, length_app in H.
    assert (kept c (r :: b) = r :: b) as E.
    { apply kept_all. constructor; [done|]. eapply Forall_impl; [exact Hr|]. simpl. lia. }
    rewrite E in H. simpl in H. lia.
  - rewrite kept_app, (kept_none c a).
    2:{ apply Forall_forall. intros t Ht.
        specialize (Hab t r Ht (list_elem_of_here _ _)). lia. }
    simpl. unfold kept. rewrite filter_cons_False by lia.
    pose proof (sublist_length _ _ (kept_sublist c b)). unfold kept in *. lia.
Qed.

Lemma kept_others allowance ip tr : ∀ b,
  Forall (λ a, at_ip a ≠ ip) tr →
  mget (run_window allowance b tr) ip = mget b ip ∨ mget (run_window allowance b tr) ip = [].
Proof.
  induction tr as [|a tr IH]; intros b Hne; simpl; [by left|].
  apply Forall_cons in Hne as [Ha Hne].
  destruct (IH (allowIPIn (at_order a) b (at_ip a) allowance (at_now a)).1 Hne) as [->| ->];
    [|by right]. by apply allowIPIn_other.
Qed.

(** ** Entry points

    The limiter's three windowed maps; each operation reads and updates its own. *)

Record Limits := {
  perIP : nat;
  discoveryPerIP : nat
}.

Record Windows := {
  ipHits : windows;
  metaHits : windows;
  issuerRefreshes : windows
}.

Definition allowIP (cfg : Limits) (order : windows → list string) (w : Windows)
    (ip : string) (now : Z) : Windows * Z :=
  let '(b, wait) := allowIPIn order (ipHits w) ip (perIP cfg) now in
  ({| ipHits := b; metaHits := metaHits w; issuerRefreshes := issuerRefreshes w |}, wait).

(** [AdmitDiscovery]: [None] is the [nil] error, [Some wait] a
    [RateLimitedError] carrying the wait. *)
Definition AdmitDiscovery (cfg : Limits) (order : windows → list string) (w : Windows)
    (ip : string) (now : Z) : Windows * option Z :=
  let '(b, wait) := allowIPIn order (metaHits w) ip (discoveryPerIP cfg) now in
  ({| ipHits := ipHits w; metaHits := b; issuerRefreshes := issuerRefreshes w |},
   if bool_decide (0 < wait) then Some wait else None).

Definition AllowDiscovery (cfg : Limits) (order : windows → list string) (w : Windows)
    (ip : string) (now : Z) : Windows * bool :=
  let '(w', r) := AdmitDiscovery cfg order w ip now in
  (w', match r with None => true | Some _ => false end).

Definition AllowIssuerRefresh (order : windows → list string) (w : Windows)
    (issuer : string) (now : Z) : Windows * bool :=
  let '(b, wait) := allowIPIn order (issuerRefreshes w) issuer
                      (Z.to_nat IssuerRefreshPerMinute) now in
  ({| ipHits := ipHits w; metaHits := metaHits w; issuerRefreshes := b |},
   bool_decide (wait = 0)).

(** [RetryAfterSeconds]: whole seconds rounded up, never below one. The source
    goes through [float64] seconds, which are exact to the nanosecond on either
    side of a whole second for every wait a window produces (at most a minute). *)
Definition RetryAfterSeconds (wait : Z) : Z := Z.max 1 (- ((- wait) `div` Second)).

(** A traversal order for examples: the map's own enumeration. *)
Definition any_order (b : windows) : list string := (map_to_list b).*1.

Lemma any_order_range : range_order any_order.
Proof. intros b. unfold lists_keys. done. Qed.
#[export] Hint Resolve any_order_range : hikyo.

(** C29 Rate limiting holds over time: from an empty map, whatever the
    interleaving of chronological attempts by at most [MaxTrackedSubjects] (4096)
    distinct subjects and whatever order the sweeps visit the map in, no subject
    with a non-empty address is admitted more than [allowance] times inside any
    sliding minute. Beyond that many subjects a sweep may forget a live bucket. *)
Theorem sliding_window_bound (allowance : nat) (tr : list attempt) (ip : string) (T : Z) :
  (0 < allowance)%nat → ip ≠ "" →
  Forall (λ a, range_order (at_order a)) tr →
  (∃ from, chronological from tr) →
  (size (subjects tr) ≤ MaxTrackedSubjects)%nat →
  (length (filter (in_window T) (admissions allowance ∅ tr ip)) ≤ allowance)%nat.
Proof.
  intros Ha Hip Ho [from Hc] HS.
  apply (tracks_run allowance ip (subjects tr) tr from ∅ []); try done.
  split; [done|]. split; [done|]. intros T'. simpl. lia.
Qed.

Definition window_demo : list attempt :=
  [Attempt "10.0.0.1" 1000 any_order; Attempt "10.0.0.2" 2000 any_order;
   Attempt "10.0.0.1" 3000 any_order; Attempt "10.0.0.1" 4000 any_order;
   Attempt "10.0.0.1" (1000 + Minute) any_order].

Lemma window_demo_orders : Forall (λ a, range_order (at_order a)) window_demo.
Proof. repeat (apply Forall_cons; split; [apply any_order_range|]). apply Forall_nil. done. Qed.

Lemma sliding_window_bound_witness :
  admissions 2 ∅ window_demo "10.0.0.1" = [1000; 3000; 1000 + Minute] ∧
  (length (filter (in_window 4000) (admissions 2 ∅ window_demo "10.0.0.1")) ≤ 2)%nat.
Proof.
  split; [vm_compute; reflexivity|]. apply sliding_window_bound.
  - lia.
  - done.
  - apply window_demo_orders.
  - exists 0. vm_compute. repeat split; discriminate.
  - vm_compute. lia.
Defined.

(** The advertised wait is exact. A refusal waits a positive time of at
    most one minute; an attempt before it elapses is refused again, and an
    attempt at or after it is admitted, whatever other subjects did in between
    (their sweeps can only forget this subject's hits). *)
Theorem refusal_wait_exact (allowance : nat) (order : windows → list string)
    (b : windows) (ip : string) (now : Z) :
  (0 < allowance)%nat → ip ≠ "" → hits_ordered now (mget b ip) →
  let '(b', wait) := allowIPIn order b ip allowance now in
  wait ≠ 0 →
  0 < wait ≤ Minute ∧
  (∀ order' now', now ≤ now' < now + wait →
     0 < (allowIPIn order' b' ip allowance now').2) ∧
  (∀ order' tr now', now + wait ≤ now' → Forall (λ a, at_ip a ≠ ip) tr →
     (allowIPIn order' (run_window allowance b' tr) ip allowance now').2 = 0).
Proof.
  intros Ha Hip Ho.
  set (k := kept (now - Minute) (mget b ip)).
  destruct (decide (allowance ≤ length k)%nat) as [Hfull|Hroom].
  2:{ destruct (allowIPIn_admitted order b ip allowance now Hip) as [E _]; [unfold k in *; lia|].
      destruct (allowIPIn _ _ _ _ _). simpl in E. done. }
  destruct (allowIPIn_refused order b ip allowance now Hip) as [E Hpos]; [unfold k in *; lia|].
  rewrite E in Hpos |- *. simpl in Hpos. fold k in Hpos |- *. intros _.
  assert (hits_ordered now k) as [Hsort Hle] by (eapply hits_ordered_sub; [apply kept_sublist|done]).
  assert (reopening allowance k ∈ k) as [Hgt Hin]%elem_of_kept by (apply reopening_elem; lia).
  assert (reopening allowance k ≤ now).
  { destruct Ho as [_ Ho]. rewrite Forall_forall in Ho. by apply Ho. }
  rewrite (Sub_minute (reopening allowance k + Minute) now) in Hpos |- * by lia.
  assert (∀ c, (length (kept c k) < allowance)%nat ↔ reopening allowance k ≤ c) as Hopen
    by (intros c; apply kept_reopened; [done|lia]).
  assert (mget (<[ip:=k]> b) ip = k) as Emg by (unfold mget; by rewrite lookup_insert_eq).
  split; [lia|]. split.
  - intros order' now' Hbetween. apply allowIPIn_refused; [done|]. rewrite Emg.
    specialize (Hopen (now' - Minute)). lia.
  - intros order' tr now' Hlate Hothers. apply allowIPIn_admitted; [done|].
    destruct (kept_others allowance ip tr (<[ip:=k]> b) Hothers) as [->| ->]; [|simpl; lia].
    rewrite Emg. apply Hopen. lia.
Qed.

Lemma refusal_wait_exact_witness :
  let b : windows := {[ "10.0.0.1" := [1000; 3000] ]} in
  (allowIPIn any_order b "10.0.0.1" 2 4000).2 = Minute - 3000 ∧
  (allowIPIn any_order (allowIPIn any_order b "10.0.0.1" 2 4000).1 "10.0.0.1" 2 (1000 + Minute)).2 = 0.
Proof.
  assert (hits_ordered 4000 [1000; 3000]) as Ho.
  { split; repeat constructor; done. }
  pose proof (refusal_wait_exact 2 any_order {[ "10.0.0.1" := [1000; 3000] ]} "10.0.0.1" 4000
    ltac:(lia) ltac:(done) Ho) as H.
  change (allowIPIn any_order {["10.0.0.1" := [1000; 3000]]} "10.0.0.1" 2 4000) with
    ({["10.0.0.1" := [1000; 3000]]} : windows, Minute - 3000) in H.
  destruct H as (_ & _ & H); [done|]. split; [vm_compute; reflexivity|].
  apply (H any_order []); [done|constructor].
Defined.

(** Tracking is bounded: however many subjects present themselves, the map
    never holds more than [MaxTrackedSubjects] of them, at any point of a run
    from the empty map. *)
Theorem windows_stay_bounded (allowance : nat) (tr : list attempt) :
  (0 < allowance)%nat → Forall (λ a, range_order (at_order a)) tr →
  (size (run_window allowance ∅ tr) ≤ MaxTrackedSubjects)%nat.
Proof.
  intros Ha Ho.
  cut (∀ b : windows, ("" ∉ dom b) → (size b ≤ MaxTrackedSubjects)%nat →
    (size (run_window allowance b tr) ≤ MaxTrackedSubjects)%nat).
  { intros H. apply H; [set_solver|]. rewrite map_size_empty. lia. }
  induction Ho as [|a tr Hoa Ho IH]; intros b Hne Hsz; simpl; [done|].
  destruct (allowIPIn_tracked (at_order a) b (at_ip a) allowance (at_now a)); auto.
Qed.

Lemma windows_stay_bounded_witness :
  (size (run_window 2 ∅ window_demo) ≤ MaxTrackedSubjects)%nat.
Proof. apply windows_stay_bounded; [lia|apply window_demo_orders]. Defined.
