(* ===== verification/Coordination.v ===== *)
(** * Datastore coordination: [internal/store/coordination.go]

    The installation-wide rows replicas share: the fenced singleton lease, the
    node registry, the admission counters and the MCP claims. Each method is one
    committed statement sequence on the rows ([coordination_transactions.go]
    wraps it in one transaction), so it is a function on the tables; an error
    leaves them unchanged, because the transaction rolls back. The SQL texts are
    those of [pggen/coordination_runtime.sql.go] and its SQLite twin.

    Stored instants go through [CanonTime] (whole microseconds). A [fence_token]
    is kept as [Z]; the column's overflow at [2^63] is out of reach of a counter
    that moves once per leadership change. *)

From stdpp Require Import prelude gmap strings list.
From S2P Require Import Prelude Sweep AdmissionWindow.

Local Open Scope Z_scope.

Definition Microsecond : Z := 1000.

(** [CanonTime] ([repos.go]): UTC, truncated to the microsecond. *)
Definition CanonTime (t : Z) : Z := Truncate t Microsecond.

Lemma CanonTime_bounds t : t - Microsecond < CanonTime t ≤ t.
Proof.
  unfold CanonTime, Truncate. pose proof (Z.mod_pos_bound t Microsecond ltac:(done)). lia.
Qed.

Lemma CanonTime_mono t u : t ≤ u → CanonTime t ≤ CanonTime u.
Proof.
  intros Hle. unfold CanonTime, Truncate.
  pose proof (Z.div_mod t Microsecond ltac:(done)).
  pose proof (Z.div_mod u Microsecond ltac:(done)).
  pose proof (Z.div_le_mono t u Microsecond ltac:(done) Hle).
  unfold Microsecond in *. lia.
Qed.

Lemma CanonTime_add t n : CanonTime (t + n * Microsecond) = CanonTime t + n * Microsecond.
Proof. unfold CanonTime, Truncate. rewrite Z_mod_plus_full. lia. Qed.

Lemma CanonTime_idemp t : CanonTime (CanonTime t) = CanonTime t.
Proof.
  unfold CanonTime at 1, Truncate. unfold CanonTime, Truncate.
  rewrite Zminus_mod_idemp_r, Z.sub_diag. rewrite Zmod_0_l. lia.
Qed.

(** The sentinel window of the account rows, [time.Unix(0, 0)]. *)
Definition accountWindow : Z := 62135596800 * Second.

(** ** Rows *)

Record lease := Lease {
  l_owner : string;
  l_fence : Z;
  l_acquired : Z;
  l_expires : Z
}.

Record HANode := {
  NodeID : string;
  BinaryVersion : string;
  SchemaVersion : Z;
  RootKeyFingerprint : string;
  StartedAt : Z;
  HeartbeatAt : Z
}.

Record counter := Counter {
  ct_hits : Z;
  ct_failures : Z;
  ct_until : option Z
}.

Record claim := Claim {
  cl_principal : string;
  cl_org : string;
  cl_expires : Z
}.

(** The outcome of the [currentTopology] read ([coordination_self_config.go]). *)
Record topologyAssignment := {
  ta_ha : bool;
  ta_nodeID : string;
  ta_stamp : string;
  ta_restoring : bool
}.

Record tables := Tables {
  singleton_leases : gmap string lease;
  ha_nodes : gmap string HANode;
  admission_counters : gmap (string * string * Z) counter;
  mcp_inflight : gmap string claim;
  mcp_rate_buckets : gmap string Z;
  topology : option topologyAssignment
}.

(** The process a [Coordination] is bound to ([ForSingletonProcess]). *)
Record process := {
  runtimeNodeID : string;
  runtimeTemplateStamp : string
}.

Inductive coord_err :=
| ErrConflict
| ErrMixedRootKey
| ErrMCPAdmissionLimited
| ErrSingletonLeaseLost
| ErrInvalidClaim
| ErrDuplicateClaim.

Definition with_leases (t : tables) (l : gmap string lease) : tables :=
  Tables l (ha_nodes t) (admission_counters t) (mcp_inflight t) (mcp_rate_buckets t) (topology t).
Definition with_nodes (t : tables) (n : gmap string HANode) : tables :=
  Tables (singleton_leases t) n (admission_counters t) (mcp_inflight t) (mcp_rate_buckets t) (topology t).
Definition with_counters (t : tables) (c : gmap (string * string * Z) counter) : tables :=
  Tables (singleton_leases t) (ha_nodes t) c (mcp_inflight t) (mcp_rate_buckets t) (topology t).
Definition with_mcp (t : tables) (i : gmap string claim) (r : gmap string Z) : tables :=
  Tables (singleton_leases t) (ha_nodes t) (admission_counters t) i r (topology t).

(** ** Singleton lease *)

Definition topologyLeaseAllowed (p : process) (t : tables) (nodeID : string) : bool :=
  match topology t with
  | None => true
  | Some a =>
      negb (ta_restoring a || negb (ta_ha a)
            || negb (bool_decide (ta_nodeID a = nodeID))
            || negb (bool_decide (runtimeNodeID p = nodeID))
            || negb (bool_decide (runtimeTemplateStamp p = ta_stamp a)))
  end.

(** The upsert of [CoordinationClaimLease]: [None] is [sql.ErrNoRows]. *)
Definition claim_row (ls : gmap string lease) (name owner : string) (now expires : Z) :
    gmap string lease * option Z :=
  match ls !! name with
  | None => (<[name := Lease owner 1 (CanonTime now) (CanonTime expires)]> ls, Some 1)
  | Some l =>
      if bool_decide (l_expires l ≤ CanonTime now) then
        (<[name := Lease owner (l_fence l + 1) (CanonTime now) (CanonTime expires)]> ls,
         Some (l_fence l + 1))
      else (ls, None)
  end.

Definition ClaimLease (p : process) (t : tables) (name owner : string) (now expires : Z) :
    tables * result coord_err (Z * bool) :=
  if bool_decide (name = "scheduler") && negb (topologyLeaseAllowed p t owner)
  then (t, Err ErrConflict)
  else
    let '(ls, r) := claim_row (singleton_leases t) name owner now expires in
    (with_leases t ls,
     Ok match r with Some fence => (fence, true) | None => (0, false) end).

(** The guarded update of [CoordinationRenewLease] and its affected-row test. *)
Definition renew_row (ls : gmap string lease) (name owner : string) (fence now expires : Z) :
    gmap string lease * bool :=
  match ls !! name with
  | Some l =>
      if bool_decide (l_owner l = owner) && bool_decide (l_fence l = fence)
         && bool_decide (CanonTime now < l_expires l)
      then (<[name := Lease owner fence (l_acquired l) (CanonTime expires)]> ls, true)
      else (ls, false)
  | None => (ls, false)
  end.

Definition RenewLease (p : process) (t : tables) (name owner : string) (fence now expires : Z) :
    tables * result coord_err bool :=
  if bool_decide (name = "scheduler") && negb (topologyLeaseAllowed p t owner)
  then (t, Err ErrConflict)
  else
    let '(ls, held) := renew_row (singleton_leases t) name owner fence now expires in
    (with_leases t ls, Ok held).

Definition release_row (ls : gmap string lease) (name owner : string) (fence : Z) :
    gmap string lease :=
  match ls !! name with
  | Some l =>
      if bool_decide (l_owner l = owner) && bool_decide (l_fence l = fence)
      then <[name := Lease owner fence (l_acquired l) accountWindow]> ls
      else ls
  | None => ls
  end.

Definition ReleaseLease (t : tables) (name owner : string) (fence : Z) : tables :=
  with_leases t (release_row (singleton_leases t) name owner fence).

(** [GuardPGSingletonLease] / [GuardSQLiteSingletonLease]
    ([coordination_fence.go]): the row test inside the writing transaction, on
    the datastore clock at the time of the statement. A context without a lease
    passes. *)
Definition GuardSingletonLease (t : tables) (bound : option (string * string * Z)) (clock : Z) :
    result coord_err unit :=
  match bound with
  | None => Ok tt
  | Some (name, owner, fence) =>
      match singleton_leases t !! name with
      | Some l =>
          if bool_decide (l_owner l = owner) && bool_decide (l_fence l = fence)
             && bool_decide (CanonTime clock < l_expires l)
          then Ok tt else Err ErrSingletonLeaseLost
      | None => Err ErrSingletonLeaseLost
      end
  end.

Definition LeaseHolder (t : tables) (name : string) (now : Z) : string * Z * bool :=
  match singleton_leases t !! name with
  | None => ("", 0, false)
  | Some l => (l_owner l, l_acquired l, After (l_expires l) now)
  end.

(** ** Node registry *)

(** The upsert keeps [started_at] of an existing row. *)
Definition upsert_row (ns : gmap string HANode) (n : HANode) : gmap string HANode :=
  <[NodeID n := {|
      NodeID := NodeID n; BinaryVersion := BinaryVersion n; SchemaVersion := SchemaVersion n;
      RootKeyFingerprint := RootKeyFingerprint n;
      StartedAt := match ns !! NodeID n with
                   | Some old => StartedAt old
                   | None => CanonTime (StartedAt n)
                   end;
      HeartbeatAt := CanonTime (HeartbeatAt n) |}]> ns.

Definition UpsertNode (p : process) (t : tables) (n : HANode) : tables * result coord_err unit :=
  if negb (topologyLeaseAllowed p t (NodeID n)) then (t, Err ErrConflict)
  else (with_nodes t (upsert_row (ha_nodes t) n), Ok tt).

Definition foreign_node (nodeID fingerprint : string) (since : Z) (n : HANode) : bool :=
  negb (bool_decide (NodeID n = nodeID))
  && negb (bool_decide (RootKeyFingerprint n = fingerprint))
  && bool_decide (CanonTime since ≤ HeartbeatAt n).

Definition ForeignRootKeyFingerprints (t : tables) (nodeID fingerprint : string) (since : Z) :
    list string :=
  remove_dups (map RootKeyFingerprint
    (List.filter (foreign_node nodeID fingerprint since) (map_to_list (ha_nodes t)).*2)).

Definition RegisterNodeChecked (p : process) (t : tables) (n : HANode) (since : Z) :
    tables * result coord_err unit :=
  if negb (topologyLeaseAllowed p t (NodeID n)) then (t, Err ErrConflict)
  else if negb (bool_decide (ForeignRootKeyFingerprints t (NodeID n) (RootKeyFingerprint n) since = []))
  then (t, Err ErrMixedRootKey)
  else (with_nodes t (upsert_row (ha_nodes t) n), Ok tt).

Definition CountLiveNodes (t : tables) (since : Z) : nat :=
  length (List.filter (λ n, bool_decide (CanonTime since ≤ HeartbeatAt n))
            (map_to_list (ha_nodes t)).*2).

Definition PruneNodes (t : tables) (cutoff : Z) : tables :=
  with_nodes t (filter (λ kn, ¬ HeartbeatAt kn.2 < CanonTime cutoff) (ha_nodes t)).

(** ** Admission counters *)

Definition AccountBucket : string := "account".

Definition BumpWindow (t : tables) (bucket subject : string) (windowStart : Z) : tables * Z :=
  let key := (bucket, subject, CanonTime windowStart) in
  let row := match admission_counters t !! key with
             | Some c => Counter (ct_hits c + 1) (ct_failures c) (ct_until c)
             | None => Counter 1 0 None
             end in
  (with_counters t (<[key := row]> (admission_counters t)), ct_hits row).

(** [AccountFailureState]: [None] when no row is recorded; a row without an
    instant reads as the zero time. [dbNow] is the datastore clock. *)
Definition AccountFailureState (t : tables) (subject : string) (dbNow : Z) :
    option (Z * Z * Z) :=
  match admission_counters t !! (AccountBucket, subject, accountWindow) with
  | None => None
  | Some c => Some (ct_failures c, default 0 (ct_until c), dbNow)
  end.

(** The increment and the monotone stamp ([GREATEST]) in one statement. *)
Definition RecordAccountFailure (t : tables) (subject : string) (now : Z) : tables * Z :=
  let key := (AccountBucket, subject, accountWindow) in
  let row := match admission_counters t !! key with
             | Some c =>
                 Counter (ct_hits c) (ct_failures c + 1)
                   (Some match ct_until c with
                         | Some u => Z.max u (CanonTime now)
                         | None => CanonTime now
                         end)
             | None => Counter 0 1 (Some (CanonTime now))
             end in
  (with_counters t (<[key := row]> (admission_counters t)), ct_failures row).

Definition ClearAccount (t : tables) (subject : string) : tables :=
  with_counters t (delete (AccountBucket, subject, accountWindow) (admission_counters t)).

Definition stale_account (cutoff : Z) (kc : string * string * Z * counter) : Prop :=
  kc.1.1.1 = AccountBucket ∧
  match ct_until kc.2 with None => True | Some u => u < CanonTime cutoff end.
#[export] Instance stale_account_dec cutoff kc : Decision (stale_account cutoff kc).
Proof. unfold stale_account. destruct (ct_until kc.2); apply _. Defined.

Definition PruneAccountBackoff (t : tables) (cutoff : Z) : tables :=
  with_counters t (filter (λ kc, ¬ stale_account cutoff kc) (admission_counters t)).

Definition stale_window (cutoff : Z) (kc : string * string * Z * counter) : Prop :=
  kc.1.1.1 ≠ AccountBucket ∧ kc.1.2 < CanonTime cutoff.
#[export] Instance stale_window_dec cutoff kc : Decision (stale_window cutoff kc).
Proof. unfold stale_window. apply _. Defined.

Definition PruneAdmissionWindows (t : tables) (cutoff : Z) : tables :=
  with_counters t (filter (λ kc, ¬ stale_window cutoff kc) (admission_counters t)).

(** ** MCP admission *)

Definition MCPRateCapacity : Z := 20.
Definition MCPRateRefillInterval : Z := Second.
Definition MCPPrincipalLimit : Z := 4.
Definition MCPOrganizationLimit : Z := 8.
Definition MCPInstanceLimit : Z := 64.

(** [CoordinationPruneMCPClaims] and [CoordinationCountMCPClaims]. *)
Definition prune_claims (cs : gmap string claim) (now : Z) : gmap string claim :=
  filter (λ kc, ¬ cl_expires kc.2 ≤ CanonTime now) cs.

Definition count_claims (f : claim → bool) (cs : gmap string claim) : Z :=
  Z.of_nat (size (filter (λ kc, f kc.2 = true) cs)).

Definition of_principal (p : string) (c : claim) : bool := bool_decide (cl_principal c = p).
Definition of_org (o : string) (c : claim) : bool := bool_decide (cl_org c = o).

(** [AcquireMCP] ([acquireMCPPostgres], [acquireMCPSQLite]): prune, count,
    charge the rate bucket, claim. An error rolls the transaction back, the
    prune included. *)
Definition AcquireMCP (t : tables) (callID principalID orgID : string) (ttl now : Z) :
    tables * result coord_err unit :=
  if bool_decide (callID = "") || bool_decide (principalID = "")
     || bool_decide (orgID = "") || bool_decide (ttl ≤ 0)
  then (t, Err ErrInvalidClaim)
  else
    let live := prune_claims (mcp_inflight t) now in
    if bool_decide (MCPPrincipalLimit ≤ count_claims (of_principal principalID) live)
       || bool_decide (MCPOrganizationLimit ≤ count_claims (of_org orgID) live)
       || bool_decide (MCPInstanceLimit ≤ count_claims (λ _, true) live)
    then (t, Err ErrMCPAdmissionLimited)
    else
      let nextAt := default now (mcp_rate_buckets t !! principalID) in
      if After nextAt (now + (MCPRateCapacity - 1) * MCPRateRefillInterval)
      then (t, Err ErrMCPAdmissionLimited)
      else
        let nextAt := (if Before nextAt now then now else nextAt) + MCPRateRefillInterval in
        match live !! callID with
        | Some _ => (t, Err ErrDuplicateClaim)
        | None =>
            (with_mcp t (<[callID := Claim principalID orgID (CanonTime (now + ttl))]> live)
               (<[principalID := CanonTime nextAt]> (mcp_rate_buckets t)),
             Ok tt)
        end.

Definition ReleaseMCP (t : tables) (callID : string) : tables * result coord_err unit :=
  if bool_decide (callID = "") then (t, Err ErrInvalidClaim)
  else (with_mcp t (delete callID (mcp_inflight t)) (mcp_rate_buckets t), Ok tt).
