(* ===== verification/McpAdmission.v ===== *)
(** * MCP admission over time

    [AcquireMCP] and [ReleaseMCP] ([internal/store/coordination.go]) as a run of
    calls: the concurrency limits are an invariant of the claim table, and the
    stored [next_at] of a principal is a potential that bounds its admissions
    in every interval of time. *)

From stdpp Require Import prelude gmap strings list.
From S2P Require Import Prelude Sweep AdmissionWindow Coordination.

Local Open Scope Z_scope.

(** ** Counting claims *)

Definition claims_bounded (cs : gmap string claim) : Prop :=
  (∀ p, count_claims (of_principal p) cs ≤ MCPPrincipalLimit) ∧
  (∀ o, count_claims (of_org o) cs ≤ MCPOrganizationLimit) ∧
  count_claims (λ _, true) cs ≤ MCPInstanceLimit.

Lemma count_claims_mono f (cs cs' : gmap string claim) :
  cs ⊆ cs' → count_claims f cs ≤ count_claims f cs'.
Proof.
  intros Hsub. apply inj_le, map_subseteq_size. by apply map_filter_subseteq_mono.
Qed.

Lemma count_claims_insert f (cs : gmap string claim) k c :
  cs !! k = None →
  count_claims f (<[k := c]> cs) = (if f c then 1 else 0) + count_claims f cs.
Proof.
  intros Hk. unfold count_claims. destruct (f c) eqn:E.
  - rewrite map_filter_insert_True by done. rewrite map_size_insert_None; [lia|].
    apply map_lookup_filter_None. by left.
  - rewrite map_filter_insert_False by (simpl; congruence). by rewrite delete_id.
Qed.

Lemma claims_bounded_mono cs cs' : cs ⊆ cs' → claims_bounded cs' → claims_bounded cs.
Proof.
  intros Hsub (Hp & Ho & Hi).
  split; [|split]; [intros p|intros o|]; (etrans; [by apply count_claims_mono|done]).
Qed.

Lemma prune_claims_sub cs now : prune_claims cs now ⊆ cs.
Proof. apply map_filter_subseteq. Qed.

(** ** One call *)

(** What a granted claim establishes, and what the tables become. *)
Lemma AcquireMCP_Ok t callID p o ttl now t' :
  AcquireMCP t callID p o ttl now = (t', Ok tt) →
  let live := prune_claims (mcp_inflight t) now in
  let n := default now (mcp_rate_buckets t !! p) in
  p ≠ "" ∧
  count_claims (of_principal p) live < MCPPrincipalLimit ∧
  count_claims (of_org o) live < MCPOrganizationLimit ∧
  count_claims (λ _, true) live < MCPInstanceLimit ∧
  n ≤ now + 19 * Second ∧
  live !! callID = None ∧
  mcp_inflight t' = <[callID := Claim p o (CanonTime (now + ttl))]> live ∧
  mcp_rate_buckets t' = <[p := CanonTime (Z.max n now + Second)]> (mcp_rate_buckets t).
Proof.
  intros H. unfold AcquireMCP in H. case_match eqn:E1; [done|].
  case_match eqn:E2; [done|]. case_match eqn:E3; [done|].
  destruct (prune_claims (mcp_inflight t) now !! callID) eqn:E4; [done|].
  simplify_eq. unfold After in E3. bsimp. simpl in *.
  repeat split; try tauto; try lia.
  - unfold MCPRateCapacity, MCPRateRefillInterval in E3. lia.
  - do 2 f_equal. unfold Before, MCPRateRefillInterval.
    case_match; bsimp; f_equal; lia.
Qed.

Lemma AcquireMCP_Err t callID p o ttl now t' e :
  AcquireMCP t callID p o ttl now = (t', Err e) → t' = t.
Proof. unfold AcquireMCP. repeat case_match; congruence. Qed.

Lemma AcquireMCP_bounded t callID p o ttl now :
  claims_bounded (mcp_inflight t) →
  claims_bounded (mcp_inflight (AcquireMCP t callID p o ttl now).1).
Proof.
  intros Hb. destruct (AcquireMCP t callID p o ttl now) as [t' [[]|e]] eqn:E; simpl.
  2:{ by rewrite (AcquireMCP_Err _ _ _ _ _ _ _ _ E). }
  destruct (AcquireMCP_Ok _ _ _ _ _ _ _ E) as (_ & Hp & Ho & Hi & _ & Hnew & -> & _).
  destruct (claims_bounded_mono _ _ (prune_claims_sub (mcp_inflight t) now) Hb)
    as (Hp' & Ho' & Hi').
  split; [|split].
  - intros p'. rewrite count_claims_insert by done. unfold of_principal at 1. simpl.
    case_bool_decide; subst; [lia|]. specialize (Hp' p'). lia.
  - intros o'. rewrite count_claims_insert by done. unfold of_org at 1. simpl.
    case_bool_decide; subst; [lia|]. specialize (Ho' o'). lia.
  - rewrite count_claims_insert by done. lia.
Qed.

(** ** Runs *)

Inductive mcp_op :=
| OpAcquire (callID principalID orgID : string) (ttl now : Z)
| OpRelease (callID : string).

(** The tables after a run, and the instants at which [p] was admitted. *)
Fixpoint mcp_run (t : tables) (ops : list mcp_op) (p : string) : tables * list Z :=
  match ops with
  | [] => (t, [])
  | OpAcquire callID p' o ttl now :: ops =>
      let '(t', r) := AcquireMCP t callID p' o ttl now in
      let '(t'', log) := mcp_run t' ops p in
      (t'', if is_ok r && bool_decide (p' = p) then now :: log else log)
  | OpRelease callID :: ops => mcp_run (ReleaseMCP t callID).1 ops p
  end.

(** Calls are serialized by the datastore lock and read its clock. *)
Fixpoint mcp_chronological (from : Z) (ops : list mcp_op) : Prop :=
  match ops with
  | [] => True
  | OpAcquire _ _ _ _ now :: ops => from ≤ now ∧ mcp_chronological now ops
  | OpRelease _ :: ops => mcp_chronological from ops
  end.

Lemma mcp_run_bounded ops p : ∀ t,
  claims_bounded (mcp_inflight t) → claims_bounded (mcp_inflight (mcp_run t ops p).1).
Proof.
  induction ops as [|[callID p' o ttl now|callID] ops IH]; intros t Hb; simpl; [done| |].
  - pose proof (AcquireMCP_bounded t callID p' o ttl now Hb) as Hb'.
    destruct (AcquireMCP t callID p' o ttl now) as [t' r]. specialize (IH t' Hb').
    by destruct (mcp_run t' ops p).
  - apply IH. unfold ReleaseMCP. case_match; simpl; [done|].
    eapply claims_bounded_mono; [apply delete_subseteq|done].
Qed.

(** *** The rate potential *)

Definition between (a b t : Z) : Prop := a ≤ t ≤ b.
#[export] Instance between_dec a b t : Decision (between a b t).
Proof. unfold between. apply _. Defined.

Definition count_between (a b : Z) (log : list Z) : Z :=
  Z.of_nat (length (filter (between a b) log)).

(** [n], the stored [next_at], dominates every admission since [a]. *)
Definition rate_inv (from : Z) (n : option Z) (log : list Z) : Prop :=
  Forall (λ t, t ≤ from) log ∧
  (∀ m, n = Some m → CanonTime m = m) ∧
  (∀ a, count_between a from log = 0 ∨
        ∃ m, n = Some m ∧ CanonTime a + count_between a from log * Second ≤ m) ∧
  (∀ a b, a ≤ b →
     count_between a b log * Second ≤ MCPRateCapacity * Second + (b - CanonTime a)).

Lemma filter_ext_Forall {A} (P Q : A → Prop) `{∀ x, Decision (P x), ∀ x, Decision (Q x)} l :
  Forall (λ x, P x ↔ Q x) l → filter P l = filter Q l.
Proof.
  induction 1 as [|x l Hx _ IH]; [done|]. rewrite !filter_cons, IH.
  repeat case_decide; tauto.
Qed.

Lemma count_between_wide a b c log :
  Forall (λ t, t ≤ b) log → b ≤ c → count_between a c log = count_between a b log.
Proof.
  intros Hl Hbc. unfold count_between. do 2 f_equal.
  apply filter_ext_Forall. eapply Forall_impl; [done|]. simpl. unfold between. lia.
Qed.

Lemma count_between_snoc a b t log :
  count_between a b (log ++ [t]) =
    count_between a b log + if bool_decide (between a b t) then 1 else 0.
Proof.
  unfold count_between. rewrite filter_app, length_app, filter_cons, filter_nil.
  case_decide; [rewrite bool_decide_true by done|rewrite bool_decide_false by done]; simpl; lia.
Qed.

Lemma count_between_empty a b log :
  Forall (λ t, t ≤ b) log → b < a → count_between a b log = 0.
Proof.
  intros _ Hab. unfold count_between.
  rewrite (filter_ext_Forall _ (λ _, False)).
  - induction log; simpl; [done|]. by rewrite filter_cons_False by tauto.
  - apply Forall_forall. intros t _. unfold between. lia.
Qed.

Lemma rate_inv_later from from' n log :
  from ≤ from' → rate_inv from n log → rate_inv from' n log.
Proof.
  intros Hle (Hl & Hc & Hn & Hb). split; [|split; [done|split; [|done]]].
  - eapply Forall_impl; [done|]. simpl. lia.
  - intros a. rewrite (count_between_wide a from from') by done. apply Hn.
Qed.

Lemma CanonTime_Second t : CanonTime (t + Second) = CanonTime t + Second.
Proof. change Second with (1000000 * Microsecond). apply CanonTime_add. Qed.

Lemma rate_inv_admit now n log :
  rate_inv now n log → default now n ≤ now + 19 * Second →
  rate_inv now (Some (CanonTime (Z.max (default now n) now + Second))) (log ++ [now]).
Proof.
  intros (Hl & Hc & Hn & Hb) Hroom. rewrite CanonTime_Second.
  set (m := CanonTime (Z.max (default now n) now)).
  assert (CanonTime now ≤ m) as Hm1 by (apply CanonTime_mono; lia).
  assert (∀ k, n = Some k → k ≤ m) as Hm2.
  { intros k ->. rewrite <- (Hc k) by done. apply CanonTime_mono. simpl. lia. }
  assert (m ≤ now + 19 * Second) as Hm3.
  { etrans; [apply CanonTime_bounds|]. unfold Second in *. lia. }
  (* the potential covers the new admission *)
  assert (∀ a, a ≤ now → CanonTime a + (count_between a now log + 1) * Second ≤ m + Second) as Hpot.
  { intros a Ha. pose proof (CanonTime_mono a now Ha).
    destruct (Hn a) as [->|(k & Hk & Hle)]; [lia|]. specialize (Hm2 k Hk). lia. }
  split; [|split; [|split]].
  - apply Forall_app. split; [done|]. by constructor.
  - intros k [= <-]. unfold m. by rewrite CanonTime_Second, CanonTime_idemp.
  - intros a. rewrite count_between_snoc. case_bool_decide as E; unfold between in E.
    + right. exists (m + Second). split; [done|]. apply Hpot. lia.
    + left. rewrite count_between_empty; [done|done|lia].
  - intros a b Hab. rewrite count_between_snoc. case_bool_decide as E; unfold between in E.
    + rewrite (count_between_wide a now b) by (done || lia).
      specialize (Hpot a ltac:(lia)). unfold MCPRateCapacity. lia.
    + specialize (Hb a b Hab). lia.
Qed.

Lemma rate_inv_run ops p : ∀ from t log,
  mcp_chronological from ops → rate_inv from (mcp_rate_buckets t !! p) log →
  ∃ from' n, rate_inv from' n (log ++ (mcp_run t ops p).2).
Proof.
  induction ops as [|[callID p' o ttl now|callID] ops IH]; intros from t log Hc Hr; simpl.
  - exists from, (mcp_rate_buckets t !! p). by rewrite app_nil_r.
  - destruct Hc as [Hle Hc].
    apply (rate_inv_later _ now) in Hr; [|done].
    destruct (AcquireMCP t callID p' o ttl now) as [t' [[]|e]] eqn:E; simpl.
    + destruct (AcquireMCP_Ok _ _ _ _ _ _ _ E) as (_ & _ & _ & _ & Hroom & _ & _ & Hrb).
      destruct (decide (p' = p)) as [->|Hne].
      * rewrite bool_decide_true by done.
        apply rate_inv_admit in Hr; [|done].
        destruct (IH now t' (log ++ [now]) Hc) as (f & n & Hfin).
        { rewrite Hrb, lookup_insert_eq. done. }
        destruct (mcp_run t' ops p) as [t'' log']. simpl in *.
        exists f, n. by rewrite <- app_assoc in Hfin.
      * rewrite bool_decide_false by done.
        destruct (IH now t' log Hc) as (f & n & Hfin).
        { by rewrite Hrb, lookup_insert_ne. }
        destruct (mcp_run t' ops p) as [t'' log']. simpl in *. eauto.
    + apply AcquireMCP_Err in E as ->.
      destruct (IH now t log Hc Hr) as (f & n & Hfin).
      destruct (mcp_run t ops p) as [t'' log']. simpl in *. eauto.
  - apply (IH from); [done|]. unfold ReleaseMCP. by case_match.
Qed.

Definition no_mcp (t : tables) : Prop := mcp_inflight t = ∅ ∧ mcp_rate_buckets t = ∅.

(** MCP admission control. Whatever calls are made and released, at
    nondecreasing datastore instants, the claim table never holds more than 4
    claims of a principal, 8 of an organization and 64 of the instance, and a
    principal is admitted in [a, b] at most 20 times plus once per elapsed
    second (counted from [a]'s microsecond). *)
Theorem mcp_admission_bounded (t : tables) (ops : list mcp_op) (p : string) (from a b : Z) :
  no_mcp t → mcp_chronological from ops → a ≤ b →
  let '(t', log) := mcp_run t ops p in
  claims_bounded (mcp_inflight t') ∧
  count_between a b log * Second ≤ MCPRateCapacity * Second + (b - CanonTime a).
Proof.
  intros [Hi Hr] Hc Hab.
  assert (claims_bounded (mcp_inflight t)) as Hb0.
  { rewrite Hi. unfold claims_bounded, count_claims.
    repeat split; intros; rewrite map_filter_empty, map_size_empty; done. }
  pose proof (mcp_run_bounded ops p t Hb0) as Hb.
  destruct (rate_inv_run ops p from t [] Hc) as (f & n & _ & _ & _ & Hrate).
  { rewrite Hr, lookup_empty. split; [done|]. split; [done|]. split; [by left|].
    intros a' b' Hab'. pose proof (CanonTime_bounds a'). unfold count_between. simpl.
    unfold MCPRateCapacity, Second. lia. }
  destruct (mcp_run t ops p) as [t' log]. split; [done|]. by apply Hrate.
Qed.

Definition no_tables : tables := Tables ∅ ∅ ∅ ∅ ∅ None.

Definition mcp_demo : list mcp_op :=
  [OpAcquire "c1" "alice" "org" Minute 5000; OpAcquire "c2" "alice" "org" Minute 6000;
   OpAcquire "c3" "alice" "org" Minute 7000; OpAcquire "c4" "alice" "org" Minute 8000;
   OpAcquire "c5" "alice" "org" Minute 9000; OpRelease "c1";
   OpAcquire "c6" "alice" "org" Minute 10000].

Lemma mcp_admission_bounded_witness :
  (mcp_run no_tables mcp_demo "alice").2 = [5000; 6000; 7000; 8000; 10000] ∧
  count_between 0 10000 (mcp_run no_tables mcp_demo "alice").2 * Second
    ≤ MCPRateCapacity * Second + (10000 - CanonTime 0).
Proof.
  split; [vm_compute; reflexivity|].
  pose proof (mcp_admission_bounded no_tables mcp_demo "alice" 0 0 10000) as H.
  destruct (mcp_run no_tables mcp_demo "alice") as [t' log].
  apply H; [split; reflexivity|vm_compute; repeat split; discriminate|discriminate].
Defined.
