(* ===== verification/Leadership.v ===== *)
(** * High-availability leadership: [internal/app/scheduler.go], [runHA]

    Replicas compete for the singleton lease of [Coordination]; the holder runs
    a leadership term whose writes carry the term's fence and are checked by
    [GuardSingletonLease] inside their own transaction. The cluster is a
    transition system: the datastore rows and clock, the local variables of each
    replica's [runHA] loop, and a log of the guarded writes that committed.

    One heartbeat is four separate steps (clock read, renewal, confirmation of a
    provisional claim, claim) that interleave with every other replica's, with
    the clock and with the replica's own term. A datastore call commits and
    answers ([Done]), commits while its response is lost ([Lost]) or does not
    commit ([Failed]). A term goroutine keeps writing after its cancellation
    until it exits. The guard and the write it admits are one step: the guard
    locks the lease row until the transaction commits. *)

From stdpp Require Import prelude gmap strings list sorting.
From S2P Require Import Prelude Sweep AdmissionWindow Coordination.

Local Open Scope Z_scope.

Definition schedulerLeaseName : string := "scheduler".

(** ** A replica *)

Inductive pc :=
| Idle
| GotNow (now : Z)
| Confirming (now : Z)
| Claiming (now : Z)
| Stopping
| Stopped.

(** The variables of [runHA]. [n_term] is the leadership term's goroutine while
    it has not exited: the fence its context carries and whether that context
    was cancelled. [n_done] is [ctx.Err() != nil]. *)
Record node := Node {
  n_fence : Z;
  n_unconfirmed : bool;
  n_expiresAt : Z;
  n_leader : bool;
  n_term : option (Z * bool);
  n_done : bool;
  n_pc : pc
}.

Definition node_init : node := Node 0 false 0 false None false Idle.

Definition at_pc (nd : node) (p : pc) : node :=
  Node (n_fence nd) (n_unconfirmed nd) (n_expiresAt nd) (n_leader nd) (n_term nd) (n_done nd) p.

Definition dropLeadership (nd : node) : node :=
  Node (n_fence nd) (n_unconfirmed nd) (n_expiresAt nd) false
    (match n_term nd with Some (f, _) => Some (f, true) | None => None end)
    (n_done nd) (n_pc nd).

Definition startTerm (nd : node) (expires : Z) : node :=
  Node (n_fence nd) false expires true (Some (n_fence nd, false)) (n_done nd) (n_pc nd).

(** ** Calls to the datastore *)

Inductive outcome := Done | Lost | Failed.

(** What the call does to the rows, and its answer ([None] is an error). *)
Definition call {A} (o : outcome) (t : tables) (r : tables * result coord_err A) :
    tables * option A :=
  match o with
  | Done => (r.1, match r.2 with Ok a => Some a | Err _ => None end)
  | Lost => (r.1, None)
  | Failed => (t, None)
  end.

(** ** The steps of one heartbeat *)

(** [s.Lease.Now] and the fail-closed test that follows it. *)
Definition on_now (nd : node) (answer : option Z) : node :=
  match answer with
  | None => at_pc (if n_leader nd then dropLeadership nd else nd) Idle
  | Some now =>
      at_pc (if n_leader nd && negb (Before now (n_expiresAt nd)) then dropLeadership nd else nd)
        (GotNow now)
  end.

(** The leader's renewal; a cancelled context ends the heartbeat. *)
Definition on_renew (p : process) (id : string) (ttl : Z) (t : tables) (nd : node) (now : Z)
    (o : outcome) : tables * node :=
  let expires := now + ttl in
  let '(t, nd) :=
    if n_leader nd then
      let '(t', held) := call o t (RenewLease p t schedulerLeaseName id (n_fence nd) now expires) in
      (t', match held with
           | None | Some false => dropLeadership nd
           | Some true => Node (n_fence nd) (n_unconfirmed nd) expires (n_leader nd)
                            (n_term nd) (n_done nd) (n_pc nd)
           end)
    else (t, nd) in
  (t, at_pc nd (if n_done nd then Idle else Confirming now)).

(** Past a draining term, a provisional claim is confirmed by a fenced renewal. *)
Definition on_confirm (p : process) (id : string) (ttl : Z) (t : tables) (nd : node) (now : Z)
    (o : outcome) : tables * node :=
  let expires := now + ttl in
  if n_leader nd || bool_decide (is_Some (n_term nd)) then (t, at_pc nd Idle)
  else if n_unconfirmed nd then
    let '(t', held) := call o t (RenewLease p t schedulerLeaseName id (n_fence nd) now expires) in
    (t', at_pc match held with
               | None => nd
               | Some false => Node 0 false (n_expiresAt nd) (n_leader nd) (n_term nd)
                                 (n_done nd) (n_pc nd)
               | Some true => if n_done nd then nd else startTerm nd expires
               end (Claiming now))
  else (t, at_pc nd (Claiming now)).

(** The claim. [Coordination.ClaimLease] may return the fence it was given even
    when the commit failed or its answer was lost: [provisional]. *)
Definition claim_fence (r : result coord_err (Z * bool)) (answered provisional : bool) : Z :=
  match r with
  | Ok (f, _) => if answered || provisional then f else 0
  | Err _ => 0
  end.

(** The local effect of the answer: a fence is remembered as provisional, a
    held lease starts the term. *)
Definition after_claim (nd : node) (expires gotFence : Z) (answer : option bool) : node :=
  let nd :=
    if negb (bool_decide (gotFence = 0)) && match answer with Some held => held | None => true end
    then Node gotFence true (n_expiresAt nd) (n_leader nd) (n_term nd) (n_done nd) (n_pc nd)
    else nd in
  match answer with
  | Some true => if n_done nd then nd else startTerm nd expires
  | _ => nd
  end.

Definition on_claim (p : process) (id : string) (ttl : Z) (t : tables) (nd : node) (now : Z)
    (o : outcome) (provisional : bool) : tables * node :=
  let expires := now + ttl in
  if n_leader nd || n_unconfirmed nd || n_done nd then (t, at_pc nd Idle)
  else
    let res := ClaimLease p t schedulerLeaseName id now expires in
    let '(t', answer) := call o t res in
    (t', at_pc (after_claim nd expires
                  (claim_fence res.2 (bool_decide (is_Some answer)) provisional)
                  (snd <$> answer)) Idle).

(** ** The cluster *)

Record commit := Commit { w_owner : string; w_fence : Z; w_at : Z }.

Record cluster := Cluster {
  db : tables;
  clock : Z;
  nodes : gmap string node;
  log : list commit
}.

Inductive action :=
| Tick (to : Z)
| Retopology (a : option topologyAssignment)
| Cancel (id : string)
| ReadNow (id : string) (answered : bool)
| Renew (id : string) (o : outcome)
| Confirm (id : string) (o : outcome)
| DoClaim (id : string) (o : outcome) (provisional : bool)
| BeginStop (id : string)
| Release (id : string) (o : outcome)
| Abandon (id : string)
| TermExit (id : string)
| Write (id : string)
| Restart (id : string).

Section cluster.
Context (proc : string → process) (ttl : string → Z).

Definition set_node (c : cluster) (t : tables) (id : string) (nd : node) : cluster :=
  Cluster t (clock c) (<[id := nd]> (nodes c)) (log c).

(** One step of the cluster; [None] where the action is not enabled. *)
Definition step (a : action) (c : cluster) : option cluster :=
  match a with
  | Tick to =>
      if bool_decide (clock c ≤ to) && bool_decide (CanonTime to = to)
      then Some (Cluster (db c) to (nodes c) (log c)) else None
  | Retopology a =>
      let t := db c in
      Some (Cluster (Tables (singleton_leases t) (ha_nodes t) (admission_counters t)
                       (mcp_inflight t) (mcp_rate_buckets t) a) (clock c) (nodes c) (log c))
  | Cancel id =>
      nd ← nodes c !! id;
      Some (set_node c (db c) id (Node (n_fence nd) (n_unconfirmed nd) (n_expiresAt nd)
              (n_leader nd) (n_term nd) true (n_pc nd)))
  | ReadNow id answered =>
      nd ← nodes c !! id;
      match n_pc nd with
      | Idle => Some (set_node c (db c) id (on_now nd (if answered then Some (clock c) else None)))
      | _ => None
      end
  | Renew id o =>
      nd ← nodes c !! id;
      match n_pc nd with
      | GotNow now =>
          let '(t, nd') := on_renew (proc id) id (ttl id) (db c) nd now o in
          Some (set_node c t id nd')
      | _ => None
      end
  | Confirm id o =>
      nd ← nodes c !! id;
      match n_pc nd with
      | Confirming now =>
          let '(t, nd') := on_confirm (proc id) id (ttl id) (db c) nd now o in
          Some (set_node c t id nd')
      | _ => None
      end
  | DoClaim id o provisional =>
      nd ← nodes c !! id;
      match n_pc nd with
      | Claiming now =>
          let '(t, nd') := on_claim (proc id) id (ttl id) (db c) nd now o provisional in
          Some (set_node c t id nd')
      | _ => None
      end
  | BeginStop id =>
      nd ← nodes c !! id;
      match n_pc nd, n_done nd with
      | Idle, true => Some (set_node c (db c) id (at_pc (dropLeadership nd) Stopping))
      | _, _ => None
      end
  | Release id o =>
      nd ← nodes c !! id;
      match n_pc nd, n_term nd with
      | Stopping, None =>
          let t := if bool_decide (n_fence nd = 0) then db c
                   else match o with
                        | Failed => db c
                        | _ => ReleaseLease (db c) schedulerLeaseName id (n_fence nd)
                        end in
          Some (set_node c t id (at_pc nd Stopped))
      | _, _ => None
      end
  | Abandon id =>
      nd ← nodes c !! id;
      match n_pc nd, n_term nd with
      | Stopping, Some _ => Some (set_node c (db c) id (at_pc nd Stopped))
      | _, _ => None
      end
  | TermExit id =>
      nd ← nodes c !! id;
      match n_term nd with
      | Some (_, cancelled) =>
          if cancelled || n_done nd
          then Some (set_node c (db c) id (Node (n_fence nd) (n_unconfirmed nd) (n_expiresAt nd)
                       (n_leader nd) None (n_done nd) (n_pc nd)))
          else None
      | None => None
      end
  | Write id =>
      nd ← nodes c !! id;
      match n_term nd with
      | Some (fence, _) =>
          match GuardSingletonLease (db c) (Some (schedulerLeaseName, id, fence)) (clock c) with
          | Ok _ => Some (Cluster (db c) (clock c) (nodes c)
                            (log c ++ [Commit id fence (clock c)]))
          | Err _ => None
          end
      | None => None
      end
  | Restart id =>
      nd ← nodes c !! id; Some (set_node c (db c) id node_init)
  end.

Fixpoint run (acts : list action) (c : cluster) : option cluster :=
  match acts with
  | [] => Some c
  | a :: acts => c' ← step a c; run acts c'
  end.

(** A fresh installation: no lease row, every replica at its loop head. *)
Definition initial (c : cluster) : Prop :=
  singleton_leases (db c) !! schedulerLeaseName = None ∧
  CanonTime (clock c) = clock c ∧ log c = [] ∧
  map_Forall (λ _ nd, nd = node_init) (nodes c).

Inductive reachable : cluster → Prop :=
| reachable_init c : initial c → reachable c
| reachable_step c a c' : reachable c → step a c = Some c' → reachable c'.

Lemma reachable_run c acts c' : reachable c → run acts c = Some c' → reachable c'.
Proof.
  revert c. induction acts as [|a acts IH]; intros c Hc Hr; simpl in Hr; [by simplify_eq|].
  destruct (step a c) as [c1|] eqn:E; simplify_eq/=. eapply IH; [|done].
  by eapply reachable_step.
Qed.
End cluster.

#[local] Arguments ClaimLease : simpl never.
#[local] Arguments RenewLease : simpl never.
#[local] Arguments claim_row : simpl never.
#[local] Arguments after_claim : simpl never.
#[local] Arguments claim_fence : simpl never.

(** ** The lease row *)

Definition row (t : tables) : option lease := singleton_leases t !! schedulerLeaseName.

(** The row only moves forward: the fence never decreases, and the same fence
    keeps its owner. *)
Definition row_le (o o' : option lease) : Prop :=
  match o, o' with
  | None, _ => True
  | Some l, Some l' =>
      l_fence l ≤ l_fence l' ∧ (l_fence l = l_fence l' → l_owner l = l_owner l')
  | Some _, None => False
  end.

#[export] Instance row_le_preorder : PreOrder row_le.
Proof.
  split.
  - intros [l|]; simpl; [done|done].
  - intros [l1|] [l2|] [l3|]; simpl; try done. intros [H1 H2] [H3 H4].
    split; [lia|]. intros E. rewrite H2 by lia. apply H4. lia.
Qed.

(** [id] was granted fence [f], as far as the row remembers. *)
Definition fenced (o : option lease) (id : string) (f : Z) : Prop :=
  match o with
  | Some l => f ≤ l_fence l ∧ (f = l_fence l → l_owner l = id)
  | None => False
  end.

Lemma fenced_mono o o' id f : row_le o o' → fenced o id f → fenced o' id f.
Proof.
  destruct o as [l|], o' as [l'|]; simpl; try done. intros [H1 H2] [H3 H4].
  split; [lia|]. intros E. rewrite <- H2 by lia. apply H4. lia.
Qed.

(** A renewal leaves the row or extends the caller's own term. *)
Lemma RenewLease_effect p t id fence now expires :
  let r := RenewLease p t schedulerLeaseName id fence now expires in
  (row r.1 = row t ∧ r.2 ≠ Ok true) ∨
  (∃ l, row t = Some l ∧ l_owner l = id ∧ l_fence l = fence ∧
        row r.1 = Some (Lease id fence (l_acquired l) (CanonTime expires))).
Proof.
  unfold RenewLease, renew_row, row. case_match; [left; simpl; split; congruence|].
  destruct (singleton_leases t !! schedulerLeaseName) as [l|] eqn:E; simpl.
  2:{ left. rewrite E. split; congruence. }
  bcase; simpl; bsimp.
  - right. exists l. rewrite lookup_insert_eq. tauto.
  - left. rewrite E. split; congruence.
Qed.

(** A claim leaves the row or takes over one that lapsed, with the next fence. *)
Lemma ClaimLease_effect p t id now expires :
  let r := ClaimLease p t schedulerLeaseName id now expires in
  (row r.1 = row t ∧ ∀ f, r.2 ≠ Ok (f, true)) ∨
  (∃ f, r.2 = Ok (f, true) ∧
        row r.1 = Some (Lease id f (CanonTime now) (CanonTime expires)) ∧
        match row t with
        | None => f = 1
        | Some l => f = l_fence l + 1 ∧ l_expires l ≤ CanonTime now
        end).
Proof.
  unfold ClaimLease, claim_row, row. case_match; [left; simpl; split; congruence|].
  destruct (singleton_leases t !! schedulerLeaseName) as [l|] eqn:E; cbn.
  2:{ right. exists 1. by rewrite lookup_insert_eq. }
  bcase; cbn; bsimp.
  - right. exists (l_fence l + 1). by rewrite lookup_insert_eq.
  - left. rewrite E. split; congruence.
Qed.

Lemma ReleaseLease_effect t id fence :
  row (ReleaseLease t schedulerLeaseName id fence) = row t ∨
  (∃ l, row t = Some l ∧ l_owner l = id ∧ l_fence l = fence ∧
        row (ReleaseLease t schedulerLeaseName id fence) =
          Some (Lease id fence (l_acquired l) accountWindow)).
Proof.
  unfold ReleaseLease, release_row, row. simpl.
  destruct (singleton_leases t !! schedulerLeaseName) as [l|] eqn:E; [|by left].
  case_match; bsimp; [|by left]. right. exists l. rewrite lookup_insert_eq. tauto.
Qed.

(** ** The invariant *)

Definition pc_now (p : pc) : option Z :=
  match p with GotNow now | Confirming now | Claiming now => Some now | _ => None end.

Definition leads (c : cluster) (nd : node) : Prop :=
  n_leader nd = true ∧ clock c < n_expiresAt nd.

Definition holds_row (o : option lease) (id : string) (nd : node) : Prop :=
  match o with
  | Some l => l_owner l = id ∧ l_fence l = n_fence nd ∧ n_expiresAt nd ≤ l_expires l
  | None => False
  end.

Definition commit_le (w w' : commit) : Prop :=
  w_at w ≤ w_at w' ∧ w_fence w ≤ w_fence w' ∧ (w_fence w = w_fence w' → w_owner w = w_owner w').

Definition stopping (p : pc) : bool :=
  match p with Stopping | Stopped => true | _ => false end.

Record node_ok (c : cluster) (id : string) (nd : node) : Prop := {
  ok_now : ∀ now, pc_now (n_pc nd) = Some now → now ≤ clock c ∧ CanonTime now = now;
  ok_term : ∀ f b, n_term nd = Some (f, b) → fenced (row (db c)) id f;
  ok_leads : leads c nd → holds_row (row (db c)) id nd;
  ok_stopped : stopping (n_pc nd) = true → n_leader nd = false
}.

Record Inv (c : cluster) : Prop := {
  inv_clock : CanonTime (clock c) = clock c;
  inv_fence : ∀ l, row (db c) = Some l → 0 ≤ l_fence l;
  inv_nodes : map_Forall (node_ok c) (nodes c);
  inv_log : StronglySorted commit_le (log c);
  inv_log_row : Forall (λ w, w_at w ≤ clock c ∧ fenced (row (db c)) (w_owner w) (w_fence w)) (log c)
}.

(** ** Preservation *)

Section preservation.
Context (proc : string → process) (ttl : string → Z).
Context (ttl_us : ∀ id, CanonTime (ttl id) = ttl id).

Lemma CanonTime_ttl now id :
  CanonTime now = now → CanonTime (now + ttl id) = now + ttl id.
Proof.
  intros Hn. pose proof (ttl_us id) as Ht. unfold CanonTime, Truncate in *.
  rewrite Z.add_mod by done. replace (now `mod` Microsecond) with 0 by lia.
  replace (ttl id `mod` Microsecond) with 0 by lia. simpl. rewrite Zmod_0_l. lia.
Qed.

(** A step of one replica: what it must show of the row and of itself. *)
Lemma Inv_update c t id nd nd' :
  Inv c → nodes c !! id = Some nd →
  row_le (row (db c)) (row t) →
  (∀ l, row t = Some l → 0 ≤ l_fence l) →
  (row t = row (db c) ∨
   ∀ id' x, id' ≠ id → nodes c !! id' = Some x → ¬ leads c x) →
  node_ok (set_node c t id nd') id nd' →
  Inv (set_node c t id nd').
Proof.
  intros Hinv Hid Hle Hpos Hother Hok. split; simpl.
  - apply Hinv.
  - done.
  - intros id' x [[<- <-]|[Hne Hx]]%lookup_insert_Some; [done|].
    destruct (inv_nodes c Hinv id' x Hx) as [Hnow Hterm Hleads Hst].
    split; simpl; [done| | |done].
    + intros f b E. eapply fenced_mono; [done|]. by eapply Hterm.
    + intros [Hl Hc]. simpl in Hc. destruct Hother as [->|Hno]; [by apply Hleads|].
      destruct (Hno id' x (not_eq_sym Hne) Hx). by split.
  - apply Hinv.
  - eapply Forall_impl; [apply Hinv|]. simpl. intros w [Hw Hf].
    split; [done|]. by eapply fenced_mono.
Qed.

(** What a change of the row must respect, from replica [id]. *)
Definition row_step (c : cluster) (id : string) (t : tables) : Prop :=
  row_le (row (db c)) (row t) ∧
  (∀ l, row t = Some l → 0 ≤ l_fence l) ∧
  (row t = row (db c) ∨ ∀ id' x, id' ≠ id → nodes c !! id' = Some x → ¬ leads c x).

Lemma row_step_refl c id t : Inv c → row t = row (db c) → row_step c id t.
Proof. intros Hinv E. unfold row_step. rewrite E. split; [done|]. split; [apply Hinv|by left]. Qed.

(** Rewriting one's own row keeps everyone else out. *)
Lemma row_step_own c id t l l' :
  Inv c → row (db c) = Some l → l_owner l = id →
  row t = Some l' → l_owner l' = id → l_fence l' = l_fence l →
  row_step c id t.
Proof.
  intros Hinv E Ho E' Ho' Hf. unfold row_step. rewrite E, E'. simpl.
  split; [split; [lia|congruence]|]. split.
  - intros ? [= <-]. rewrite Hf. by apply (inv_fence c Hinv).
  - right. intros id' x Hne Hx Hl. destruct (inv_nodes c Hinv id' x Hx) as [_ _ Hrow _].
    specialize (Hrow Hl). rewrite E in Hrow. simpl in Hrow. naive_solver.
Qed.

Lemma renew_step c id f now expires o :
  Inv c →
  let r := call o (db c) (RenewLease (proc id) (db c) schedulerLeaseName id f now expires) in
  row_step c id r.1 ∧
  (r.2 = Some true → ∃ a, row r.1 = Some (Lease id f a (CanonTime expires))).
Proof.
  intros Hinv.
  pose proof (RenewLease_effect (proc id) (db c) id f now expires) as He. simpl in He.
  set (rl := RenewLease _ _ _ _ _ _ _) in *.
  assert (row_step c id rl.1) as Hstep.
  { destruct He as [[E _]|(l & E & Ho & Hf & E')]; [by apply row_step_refl|].
    eapply row_step_own; [done|exact E|done|exact E'|done|done]. }
  destruct o; simpl; (split; [try done; by apply row_step_refl|]); try done.
  intros Hheld. destruct rl.2 as [b|e] eqn:E2; simplify_eq.
  destruct He as [[_ Hn]|(l & _ & _ & _ & E')]; [done|eauto].
Qed.

Lemma claim_step c id now expires o :
  Inv c → now ≤ clock c →
  let res := ClaimLease (proc id) (db c) schedulerLeaseName id now expires in
  let r := call o (db c) res in
  row_step c id r.1 ∧
  (∀ f, r.2 = Some (f, true) →
     0 < f ∧ row r.1 = Some (Lease id f (CanonTime now) (CanonTime expires))).
Proof.
  intros Hinv Hnow.
  pose proof (ClaimLease_effect (proc id) (db c) id now expires) as He. simpl in He.
  set (rl := ClaimLease _ _ _ _ _ _) in *.
  assert (row_step c id rl.1) as Hstep.
  { destruct He as [[E _]|(f & _ & E & Hrow)]; [by apply row_step_refl|].
    unfold row_step. rewrite E. destruct (row (db c)) as [l|] eqn:El; simpl.
    - destruct Hrow as [-> Hexp]. pose proof (inv_fence c Hinv l El).
      split; [split; [lia|lia]|]. split; [intros ? [= <-]; simpl; lia|].
      right. intros id' x Hne Hx Hl. destruct (inv_nodes c Hinv id' x Hx) as [_ _ Hr _].
      specialize (Hr Hl). rewrite El in Hr. destruct Hr as (_ & _ & Hr).
      destruct Hl as [_ Hl]. pose proof (CanonTime_bounds now). lia.
    - subst f. split; [done|]. split; [intros ? [= <-]; simpl; lia|].
      right. intros id' x Hne Hx Hl. destruct (inv_nodes c Hinv id' x Hx) as [_ _ Hr _].
      specialize (Hr Hl). by rewrite El in Hr. }
  destruct o; simpl; (split; [try done; by apply row_step_refl|]); try done.
  intros f Hf. destruct rl.2 as [[f' h]|e] eqn:E2; simplify_eq.
  destruct He as [[_ Hn]|(f' & Ef & E & Hrow)]; [by destruct (Hn f)|]. simplify_eq.
  split; [|done]. destruct (row (db c)) as [l|] eqn:El; [|lia].
  pose proof (inv_fence c Hinv l El). lia.
Qed.

(** Fences of the running term: kept, or none. *)
Definition term_kept (nd nd' : node) : Prop :=
  ∀ f b, n_term nd' = Some (f, b) → ∃ b', n_term nd = Some (f, b').

Definition pc_ok (c : cluster) (p : pc) : Prop :=
  ∀ now, pc_now p = Some now → now ≤ clock c ∧ CanonTime now = now.

(** A replica that does not lead after its step. *)
Lemma Inv_follower c t id nd nd' :
  Inv c → nodes c !! id = Some nd → row_step c id t →
  pc_ok c (n_pc nd') → term_kept nd nd' → n_leader nd' = false →
  Inv (set_node c t id nd').
Proof.
  intros Hinv Hid (Hle & Hpos & Hoth) Hpc Hterm Hl.
  destruct (inv_nodes c Hinv id nd Hid) as [_ Ht _ _].
  eapply Inv_update; try done. split; simpl; [done| | |done].
  - intros f b E. destruct (Hterm f b E) as [b' E']. eapply fenced_mono; [done|by eapply Ht].
  - intros [Hl' _]. congruence.
Qed.

(** A replica whose leadership is as before, the row untouched. *)
Lemma Inv_same_leader c id nd nd' :
  Inv c → nodes c !! id = Some nd → pc_ok c (n_pc nd') → term_kept nd nd' →
  (n_leader nd' = true → n_leader nd = true ∧ n_expiresAt nd' = n_expiresAt nd ∧ n_fence nd' = n_fence nd) →
  (stopping (n_pc nd') = true → n_leader nd' = false) →
  Inv (set_node c (db c) id nd').
Proof.
  intros Hinv Hid Hpc Hterm Hl Hst.
  destruct (inv_nodes c Hinv id nd Hid) as [_ Ht Hr _].
  eapply Inv_update; try done; [apply Hinv|by left|]. split; simpl; [done| | |done].
  - intros f b E. destruct (Hterm f b E) as [b' E']. by eapply Ht.
  - intros [Hl' Hc]. simpl in Hc. destruct (Hl Hl') as (Hln & He & Hf).
    specialize (Hr ltac:(split; [done|lia])).
    unfold holds_row in *. destruct (row (db c)); [|done]. rewrite He, Hf. done.
Qed.

(** A replica that now holds the row: a renewal or a start of a term. *)
Lemma Inv_leader c t id nd nd' f a now :
  Inv c → nodes c !! id = Some nd → row_step c id t →
  row t = Some (Lease id f a (CanonTime (now + ttl id))) → CanonTime now = now →
  pc_ok c (n_pc nd') →
  (term_kept nd nd' ∨ n_term nd' = Some (f, false)) →
  n_fence nd' = f → n_expiresAt nd' = now + ttl id → stopping (n_pc nd') = false →
  Inv (set_node c t id nd').
Proof.
  intros Hinv Hid (Hle & Hpos & Hoth) Hrow Hnow Hpc Hterm Hf He Hst.
  destruct (inv_nodes c Hinv id nd Hid) as [_ Ht _ _].
  rewrite (CanonTime_ttl now id Hnow) in Hrow.
  eapply Inv_update; try done. split; simpl; [done| | |congruence].
  - intros f' b E. destruct Hterm as [Hterm|Hterm].
    + destruct (Hterm f' b E) as [b' E']. eapply fenced_mono; [done|by eapply Ht].
    + rewrite Hterm in E. simplify_eq. rewrite Hrow. simpl. split; [lia|done].
  - intros _. rewrite Hrow. simpl. split; [done|]. split; [done|lia].
Qed.

Lemma term_kept_refl nd nd' : n_term nd' = n_term nd → term_kept nd nd'.
Proof. intros E f b H. rewrite E in H. eauto. Qed.

Lemma term_kept_drop nd p : term_kept nd (at_pc (dropLeadership nd) p).
Proof. intros f b H. simpl in H. repeat case_match; simplify_eq; eauto. Qed.

Lemma pc_ok_none c p : pc_now p = None → pc_ok c p.
Proof. intros E now H. congruence. Qed.

Lemma step_ReadNow c id nd (answered : bool) :
  Inv c → nodes c !! id = Some nd →
  Inv (set_node c (db c) id (on_now nd (if answered then Some (clock c) else None))).
Proof.
  intros Hinv Hid.
  assert (pc_ok c (GotNow (clock c))) as Hpc.
  { intros now [= <-]. split; [lia|apply Hinv]. }
  unfold on_now. destruct answered; case_match;
    (eapply Inv_same_leader;
      [done|done|first [exact Hpc|by apply pc_ok_none]
      |first [apply term_kept_drop|by apply term_kept_refl]|done|done]).
Qed.

Lemma step_Renew c id nd now o :
  Inv c → nodes c !! id = Some nd → n_pc nd = GotNow now →
  let '(t, nd') := on_renew (proc id) id (ttl id) (db c) nd now o in
  Inv (set_node c t id nd').
Proof.
  intros Hinv Hid Hpc0.
  destruct (inv_nodes c Hinv id nd Hid) as [Hnow _ _ _].
  specialize (Hnow now ltac:(by rewrite Hpc0)). destruct Hnow as [Hle Hcan].
  assert (∀ b : bool, pc_ok c (if b then Idle else Confirming now)) as Hpc.
  { intros [] now'; simpl; [done|]. intros [= <-]. done. }
  unfold on_renew. destruct (n_leader nd) eqn:Hl.
  2:{ eapply Inv_same_leader; simpl; [done|done|apply Hpc|by apply term_kept_refl|done|by destruct (n_done nd)]. }
  pose proof (renew_step c id (n_fence nd) now (now + ttl id) o Hinv) as [Hstep Hheld].
  destruct (call o (db c) _) as [t' [[]|]]; simpl in Hstep, Hheld |- *.
  - destruct (Hheld eq_refl) as [a Hrow].
    eapply Inv_leader; simpl; [done|done|done|exact Hrow|done|apply Hpc| |done|done|by destruct (n_done nd)].
    left. by apply term_kept_refl.
  - eapply Inv_follower; [done|done|done|apply Hpc|apply term_kept_drop|done].
  - eapply Inv_follower; [done|done|done|apply Hpc|apply term_kept_drop|done].
Qed.

Lemma step_Confirm c id nd now o :
  Inv c → nodes c !! id = Some nd → n_pc nd = Confirming now →
  let '(t, nd') := on_confirm (proc id) id (ttl id) (db c) nd now o in
  Inv (set_node c t id nd').
Proof.
  intros Hinv Hid Hpc0.
  destruct (inv_nodes c Hinv id nd Hid) as [Hnow _ _ _].
  specialize (Hnow now ltac:(by rewrite Hpc0)). destruct Hnow as [Hle Hcan].
  assert (pc_ok c (Claiming now)) as Hpc by (intros ? [= <-]; done).
  unfold on_confirm. destruct (n_leader nd) eqn:Hl; simpl.
  { eapply Inv_same_leader; simpl; [done|done|by apply pc_ok_none|by apply term_kept_refl|done|done]. }
  bcase.
  { eapply Inv_follower; simpl; [done|done|by apply row_step_refl|by apply pc_ok_none
      |by apply term_kept_refl|done]. }
  destruct (n_unconfirmed nd).
  2:{ eapply Inv_follower; simpl; [done|done|by apply row_step_refl|done
      |by apply term_kept_refl|done]. }
  pose proof (renew_step c id (n_fence nd) now (now + ttl id) o Hinv) as [Hstep Hheld].
  destruct (call o (db c) _) as [t' [[]|]]; simpl in Hstep, Hheld |- *.
  - destruct (Hheld eq_refl) as [a Hrow]. destruct (n_done nd).
    + eapply Inv_follower; simpl; [done|done|done|done|by apply term_kept_refl|done].
    + eapply Inv_leader; simpl; [done|done|done|exact Hrow|done|done|by right|done|done|done].
  - eapply Inv_follower; simpl; [done|done|done|done|by apply term_kept_refl|done].
  - eapply Inv_follower; simpl; [done|done|done|done|by apply term_kept_refl|done].
Qed.

Lemma step_Claim c id nd now o provisional :
  Inv c → nodes c !! id = Some nd → n_pc nd = Claiming now →
  let '(t, nd') := on_claim (proc id) id (ttl id) (db c) nd now o provisional in
  Inv (set_node c t id nd').
Proof.
  intros Hinv Hid Hpc0.
  destruct (inv_nodes c Hinv id nd Hid) as [Hnow _ _ _].
  specialize (Hnow now ltac:(by rewrite Hpc0)). destruct Hnow as [Hle Hcan].
  unfold on_claim. destruct (n_leader nd) eqn:Hl; simpl.
  { eapply Inv_same_leader; simpl; [done|done|by apply pc_ok_none|by apply term_kept_refl|done|done]. }
  destruct (n_unconfirmed nd || n_done nd) eqn:Hud.
  { eapply Inv_follower; simpl; [done|done|by apply row_step_refl|by apply pc_ok_none
      |by apply term_kept_refl|done]. }
  apply orb_false_iff in Hud as [_ Hdone].
  pose proof (claim_step c id now (now + ttl id) o Hinv Hle) as [Hstep Hheld].
  destruct (call o (db c) _) as [t' [[f []]|]] eqn:E; simpl in Hstep, Hheld |- *.
  - destruct (Hheld f eq_refl) as [Hf Hrow].
    assert ((ClaimLease (proc id) (db c) schedulerLeaseName id now (now + ttl id)).2 = Ok (f, true))
      as ->.
    { destruct o; simpl in E; simplify_eq. by case_match; simplify_eq. }
    unfold claim_fence, after_claim. simpl. rewrite bool_decide_false by lia. simpl.
    rewrite Hdone.
    eapply Inv_leader; simpl; [done|done|done|exact Hrow|done|by apply pc_ok_none|by right|done|done|done].
  - unfold after_claim. rewrite andb_false_r. eapply Inv_follower; simpl;
      [done|done|done|by apply pc_ok_none|by apply term_kept_refl|done].
  - unfold after_claim.
    eapply Inv_follower; [done|done|done|by apply pc_ok_none| |].
    + apply term_kept_refl. by case_match.
    + by case_match.
Qed.

Lemma step_Tick c to :
  Inv c → clock c ≤ to → CanonTime to = to → Inv (Cluster (db c) to (nodes c) (log c)).
Proof.
  intros Hinv Hle Hcan. split; simpl; [done|apply Hinv| |apply Hinv|].
  - intros id nd Hid. destruct (inv_nodes c Hinv id nd Hid) as [Hnow Ht Hr Hst].
    split; simpl; [|done| |done].
    + intros now Hp. destruct (Hnow now Hp). split; [lia|done].
    + intros [Hl Hc]. simpl in Hc. apply Hr. split; [done|lia].
  - eapply Forall_impl; [apply Hinv|]. simpl. intros w [? ?]. split; [lia|done].
Qed.

Lemma step_Write c id nd f b :
  Inv c → nodes c !! id = Some nd → n_term nd = Some (f, b) →
  GuardSingletonLease (db c) (Some (schedulerLeaseName, id, f)) (clock c) = Ok tt →
  Inv (Cluster (db c) (clock c) (nodes c) (log c ++ [Commit id f (clock c)])).
Proof.
  intros Hinv Hid Hterm Hg.
  assert (∃ l, row (db c) = Some l ∧ l_owner l = id ∧ l_fence l = f) as (l & Hrow & Ho & Hf).
  { unfold GuardSingletonLease in Hg. fold (row (db c)) in Hg.
    destruct (row (db c)) as [l|]; [|done]. exists l.
    repeat case_match; bsimp; naive_solver. }
  pose proof (inv_log_row c Hinv) as Hrows.
  split; simpl; [apply Hinv|apply Hinv| | |].
  - intros id' nd' Hid'. destruct (inv_nodes c Hinv id' nd' Hid') as [? ? ? ?]. by split.
  - apply StronglySorted_app. split; [|split; [apply Hinv|repeat constructor]].
    intros w w' Hw ->%list_elem_of_singleton. rewrite Forall_forall in Hrows.
    destruct (Hrows w Hw) as [Hat Hfen]. rewrite Hrow in Hfen. destruct Hfen as [Hf1 Hf2].
    unfold commit_le. simpl. subst. split; [done|]. split; [done|]. intros E.
    symmetry. auto.
  - apply Forall_app. split; [done|]. constructor; [|done]. simpl. rewrite Hrow. simpl.
    split; [lia|]. split; [lia|done].
Qed.

Lemma step_Release c id nd o :
  Inv c → nodes c !! id = Some nd →
  row_step c id match o with
                | Failed => db c
                | _ => ReleaseLease (db c) schedulerLeaseName id (n_fence nd)
                end.
Proof.
  intros Hinv Hid.
  assert (row_step c id (ReleaseLease (db c) schedulerLeaseName id (n_fence nd))) as Hstep.
  { destruct (ReleaseLease_effect (db c) id (n_fence nd)) as [E|(l & E & Ho & Hf & E')].
    - by apply row_step_refl.
    - by eapply row_step_own. }
  destruct o; [done|done|by apply row_step_refl].
Qed.

Lemma Inv_step a c c' : Inv c → step proc ttl a c = Some c' → Inv c'.
Proof.
  intros Hinv Hs. destruct a as [to|ta|id|id ans|id o|id o|id o pr|id|id o|id|id|id|id]; simpl in Hs.
  - case_match eqn:E; simplify_eq. bsimp. destruct E. by apply step_Tick.
  - simplify_eq. destruct Hinv as [H1 H2 H3 H4 H5]. split; simpl; [done|done| |done|done].
    intros id nd Hid. destruct (H3 id nd Hid). by split.
  - apply bind_Some in Hs as (nd & Hid & [= <-]).
    destruct (inv_nodes c Hinv id nd Hid) as [Hnow Ht Hr Hst].
    by eapply Inv_same_leader; simpl; [| |exact Hnow|apply term_kept_refl| |].
  - apply bind_Some in Hs as (nd & Hid & Hs). case_match; simplify_eq.
    by eapply step_ReadNow.
  - apply bind_Some in Hs as (nd & Hid & Hs). destruct (n_pc nd) eqn:Hpc; try done.
    pose proof (step_Renew c id nd _ o Hinv Hid Hpc) as H.
    destruct (on_renew _ _ _ _ _ _ _). by simplify_eq.
  - apply bind_Some in Hs as (nd & Hid & Hs). destruct (n_pc nd) eqn:Hpc; try done.
    pose proof (step_Confirm c id nd _ o Hinv Hid Hpc) as H.
    destruct (on_confirm _ _ _ _ _ _ _). by simplify_eq.
  - apply bind_Some in Hs as (nd & Hid & Hs). destruct (n_pc nd) eqn:Hpc; try done.
    pose proof (step_Claim c id nd _ o pr Hinv Hid Hpc) as H.
    destruct (on_claim _ _ _ _ _ _ _ _). by simplify_eq.
  - apply bind_Some in Hs as (nd & Hid & Hs). repeat case_match; simplify_eq.
    eapply Inv_follower; [done|done|by apply row_step_refl|by apply pc_ok_none
      |apply term_kept_drop|done].
  - apply bind_Some in Hs as (nd & Hid & Hs).
    destruct (inv_nodes c Hinv id nd Hid) as [_ _ _ Hst].
    destruct (n_pc nd) eqn:Hpc; try done. destruct (n_term nd) eqn:Ht; simplify_eq.
    eapply Inv_follower; [done|done| |by apply pc_ok_none|by apply term_kept_refl|by apply Hst].
    case_bool_decide; [by apply row_step_refl|by apply step_Release].
  - apply bind_Some in Hs as (nd & Hid & Hs).
    destruct (inv_nodes c Hinv id nd Hid) as [_ _ _ Hst].
    destruct (n_pc nd) eqn:Hpc; try done. destruct (n_term nd) eqn:Ht; simplify_eq.
    eapply Inv_follower; [done|done|by apply row_step_refl|by apply pc_ok_none
      |by apply term_kept_refl|by apply Hst].
  - apply bind_Some in Hs as (nd & Hid & Hs).
    destruct (inv_nodes c Hinv id nd Hid) as [Hnow Ht Hr Hst].
    repeat case_match; simplify_eq.
    by eapply Inv_same_leader; simpl; [| |exact Hnow| | |].
  - apply bind_Some in Hs as (nd & Hid & Hs).
    destruct (n_term nd) as [[f b]|] eqn:Ht; [|done].
    destruct (GuardSingletonLease (db c) (Some (schedulerLeaseName, id, f)) (clock c))
      as [[]|] eqn:Hg; pose proof Hg as Hg'; simpl in Hg'; rewrite Hg' in Hs; simplify_eq.
    by eapply step_Write.
  - apply bind_Some in Hs as (nd & Hid & [= <-]).
    by eapply Inv_follower; [| |apply row_step_refl|apply pc_ok_none| |].
Qed.

Lemma Inv_reachable c : reachable proc ttl c → Inv c.
Proof.
  induction 1 as [c (Hrow & Hcan & Hlog & Hnodes)|c a c' _ IH Hs]; [|by eapply Inv_step].
  assert (row (db c) = None) as Er by done.
  split; rewrite ?Hlog, ?Er; [done|done| |constructor|constructor].
  intros id nd Hid. apply Hnodes in Hid as ->. split; simpl; try done.
  intros [? _]. done.
Qed.
End preservation.

(** ** A concrete cluster

    Two replicas; [a] leads and writes, its lease lapses while its term is still
    running, [b] takes over, and [a]'s late write is refused. *)

Definition demo_ttl (_ : string) : Z := 30 * Second.
Definition demo_proc (id : string) : process :=
  {| runtimeNodeID := id; runtimeTemplateStamp := "" |}.

Definition demo_init : cluster :=
  Cluster (Tables ∅ ∅ ∅ ∅ ∅ None) Minute {[ "a" := node_init; "b" := node_init ]} [].

Definition heartbeat (id : string) : list action :=
  [ReadNow id true; Renew id Done; Confirm id Done; DoClaim id Done false].

Definition demo_run : list action :=
  heartbeat "a" ++ [Write "a"; Tick (2 * Minute)] ++ heartbeat "b" ++ [Write "b"].

Definition demo_final : option cluster := run demo_proc demo_ttl demo_run demo_init.

Lemma demo_initial : initial demo_init.
Proof.
  repeat split. intros id nd. unfold demo_init. simpl.
  rewrite lookup_insert_Some, lookup_singleton_Some. naive_solver.
Qed.

Lemma demo_reachable : from_option (reachable demo_proc demo_ttl) False demo_final.
Proof.
  destruct demo_final as [c|] eqn:E; [|by vm_compute in E].
  eapply reachable_run; [apply reachable_init, demo_initial|exact E].
Qed.

(** C8 No split brain. In every reachable state of the cluster at most one
    replica leads: two replicas that both believe they lead and whose lease has
    not lapsed at the datastore clock are the same replica, and it owns the
    lease row at its own fence. *)
Theorem leadership_exclusive (proc : string → process) (ttl : string → Z)
    (c : cluster) (i j : string) (ni nj : node) :
  (∀ id, CanonTime (ttl id) = ttl id) → reachable proc ttl c →
  nodes c !! i = Some ni → nodes c !! j = Some nj →
  leads c ni → leads c nj →
  i = j ∧ holds_row (row (db c)) i ni.
Proof.
  intros Httl Hc Hi Hj Hli Hlj.
  pose proof (Inv_reachable proc ttl Httl c Hc) as Hinv.
  pose proof (ok_leads _ _ _ (inv_nodes c Hinv i ni Hi) Hli) as Hri.
  pose proof (ok_leads _ _ _ (inv_nodes c Hinv j nj Hj) Hlj) as Hrj.
  split; [|done]. unfold holds_row in *. destruct (row (db c)); [|done]. naive_solver.
Qed.

Lemma leadership_exclusive_witness :
  from_option (λ c, from_option (λ nb, leads c nb ∧ holds_row (row (db c)) "b" nb) False
    (nodes c !! "b")) False demo_final.
Proof.
  pose proof demo_reachable as Hr. destruct demo_final as [c|] eqn:E; [|by vm_compute in E].
  simpl in Hr |- *. vm_compute in E. simplify_eq.
  match goal with |- context [nodes ?c !! ?k] =>
    let n := eval vm_compute in (nodes c !! k) in
    lazymatch n with
    | Some ?nd =>
        assert (nodes c !! k = Some nd) as Hn by reflexivity;
        assert (leads c nd) as Hl by (split; vm_compute; reflexivity);
        rewrite Hn; simpl; split; [exact Hl|];
        exact (proj2 (leadership_exclusive demo_proc demo_ttl c k k nd nd
                 ltac:(intros; reflexivity) Hr Hn Hn Hl Hl))
    end
  end.
Defined.

(** C21 Fencing orders the writes. In every reachable state the guarded writes
    that committed are in the order of their fences, and one fence belongs to
    one replica: once a successor's write has committed, no write of an earlier
    leadership term ever does, however late that term's goroutine runs. *)
Theorem fenced_writes_ordered (proc : string → process) (ttl : string → Z) (c : cluster) :
  (∀ id, CanonTime (ttl id) = ttl id) → reachable proc ttl c →
  StronglySorted commit_le (log c).
Proof. intros Httl Hc. apply (inv_log c (Inv_reachable proc ttl Httl c Hc)). Qed.

Lemma fenced_writes_ordered_witness :
  from_option (λ c, map (λ w, (w_owner w, w_fence w)) (log c) = [("a", 1); ("b", 2)]
    ∧ StronglySorted commit_le (log c)
    ∧ step demo_proc demo_ttl (Write "a") c = None) False demo_final.
Proof.
  pose proof demo_reachable as Hr. destruct demo_final as [c|] eqn:E; [|by vm_compute in E].
  simpl in Hr |- *. split; [|split].
  - vm_compute in E. by simplify_eq.
  - apply (fenced_writes_ordered demo_proc demo_ttl); [intros; reflexivity|done].
  - vm_compute in E. by simplify_eq.
Defined.

(** A lease row is free for the taking: none yet, or lapsed at the clock. *)
Definition lapsed (c : cluster) : Prop :=
  match row (db c) with None => True | Some l => l_expires l ≤ clock c end.

(** C32 Failover. Whenever the lease has lapsed at the datastore clock, a
    standby at its loop head that the topology admits becomes the leader within
    its next heartbeat, under a fence one past the previous one, and its term's
    first guarded write commits. *)
Theorem standby_takes_over (proc : string → process) (ttl : string → Z)
    (c : cluster) (id : string) (nd : node) :
  (∀ id, CanonTime (ttl id) = ttl id) → (∀ id, 0 < ttl id) → reachable proc ttl c →
  nodes c !! id = Some nd → n_pc nd = Idle → n_leader nd = false →
  n_term nd = None → n_unconfirmed nd = false → n_done nd = false →
  topologyLeaseAllowed (proc id) (db c) id = true → lapsed c →
  ∃ c', run proc ttl (heartbeat id) c = Some c' ∧
    (∃ nd', nodes c' !! id = Some nd' ∧ leads c' nd' ∧
       n_fence nd' = match row (db c) with None => 1 | Some l => l_fence l + 1 end) ∧
    is_Some (step proc ttl (Write id) c').
Proof.
  intros Httl Hpos Hc Hid Hpc Hl Ht Hu Hd Htop Hlap.
  pose proof (Inv_reachable proc ttl Httl c Hc) as Hinv.
  pose proof (inv_clock c Hinv) as Hcan.
  pose proof (CanonTime_ttl ttl Httl (clock c) id Hcan) as Hexp.
  assert (∃ ls, claim_row (singleton_leases (db c)) schedulerLeaseName id (clock c)
      (clock c + ttl id)
    = (<[schedulerLeaseName := Lease id
          (match row (db c) with None => 1 | Some l => l_fence l + 1 end)
          (clock c) (clock c + ttl id)]> ls,
       Some (match row (db c) with None => 1 | Some l => l_fence l + 1 end))) as [ls Hclaim].
  { exists (singleton_leases (db c)). unfold claim_row, lapsed, row in *. rewrite Hcan, Hexp.
    destruct (singleton_leases (db c) !! schedulerLeaseName) as [l|] eqn:E; [|done].
    by rewrite bool_decide_true. }
  set (f := match row (db c) with None => 1 | Some l => l_fence l + 1 end) in *.
  assert (0 < f) as Hf.
  { unfold f. destruct (row (db c)) as [l|] eqn:E; [|lia].
    pose proof (inv_fence c Hinv l E). lia. }
  simpl. rewrite Hid. simpl. rewrite Hpc. simpl. unfold on_now. rewrite Hl. simpl.
  rewrite lookup_insert_eq. simpl. unfold on_renew. simpl. rewrite Hl. simpl. rewrite Hd. simpl.
  rewrite lookup_insert_eq. simpl. unfold on_confirm. simpl. rewrite Hl, Ht. simpl. rewrite Hu. simpl.
  rewrite lookup_insert_eq. simpl. unfold on_claim. simpl. rewrite Hl, Hu, Hd. simpl.
  unfold ClaimLease. rewrite Htop, Hclaim. simpl.
  unfold claim_fence, after_claim. simpl. rewrite (bool_decide_false (f = 0)) by lia. simpl.
  rewrite Hd.
  eexists. split; [reflexivity|]. simpl. rewrite lookup_insert_eq. simpl. split.
  - eexists. split; [reflexivity|]. split; [split; simpl; [done|specialize (Hpos id); lia]|done].
  - rewrite lookup_insert_eq. simpl. rewrite !bool_decide_true by done. rewrite Hcan.
    rewrite bool_decide_true by (specialize (Hpos id); lia). eauto.
Qed.

Lemma standby_takes_over_witness :
  ∃ c', run demo_proc demo_ttl (heartbeat "a") demo_init = Some c' ∧
    (∃ nd', nodes c' !! "a" = Some nd' ∧ leads c' nd' ∧ n_fence nd' = 1) ∧
    is_Some (step demo_proc demo_ttl (Write "a") c').
Proof.
  apply (standby_takes_over demo_proc demo_ttl demo_init "a" node_init);
    try (intros; reflexivity).
  apply reachable_init, demo_initial.
Defined.
