(* ===== verification/AdmissionAccounts.v ===== *)
(** * Account backoff and session tracking: [internal/admission]

    The per-account failure curve kept in process memory ([accounts]), its twin
    on the shared datastore ([sharedAccountDelay], [sharedRecordFailure]) and the
    map of sessions a node has proven live ([live_sessions.go]). Keys are the
    SHA-256 of the presented identifier; only the key ever reaches these maps,
    so the model takes the key. *)

From stdpp Require Import prelude gmap strings list.
From S2P Require Import Prelude Sweep AdmissionWindow Coordination.

Local Open Scope Z_scope.

Definition FailuresBeforeBackoff : Z := 5.
Definition MaxAccountBackoff : Z := 60 * Second.

(** ** The curve *)

Definition backoffDelay (failures : Z) : Z :=
  if bool_decide (failures ≤ FailuresBeforeBackoff) then 0
  else Z.min (Z.shiftl 1 (Z.min (failures - FailuresBeforeBackoff - 1) 16) * Second)
         MaxAccountBackoff.

(** ** In process memory *)

Record accountBackoff := Account {
  failures : Z;
  until : Z
}.

Abbreviation accounts := (gmap string accountBackoff).

Definition evictAccounts (order : list string) (m : accounts) (now : Z) : accounts :=
  evict (λ st, negb (After (until st) now)) until MaxTrackedSubjects order m.

Definition accountDelay (m : accounts) (key : string) (now : Z) : Z :=
  match m !! key with
  | None => 0
  | Some st =>
      if bool_decide (until st = 0) then 0
      else let d := Sub (until st) now in if bool_decide (0 < d) then d else 0
  end.

(** [recordFailure]: the updated map and whether the threshold was crossed. *)
Definition recordFailure (order : accounts → list string) (m : accounts) (key : string)
    (now : Z) : accounts * bool :=
  let st := default (Account 0 0) (m !! key) in
  let m := match m !! key with
           | None => if bool_decide (MaxTrackedSubjects ≤ size m)%nat
                     then evictAccounts (order m) m now else m
           | Some _ => m
           end in
  let n := failures st + 1 in
  if bool_decide (n ≤ FailuresBeforeBackoff) then (<[key := Account n (until st)]> m, false)
  else
    let delay := Z.shiftl 1 (Z.min (n - FailuresBeforeBackoff - 1) 16) * Second in
    let delay := Z.min delay MaxAccountBackoff in
    (<[key := Account n (now + delay)]> m, bool_decide (n = FailuresBeforeBackoff + 1)).

Definition recordSuccess (m : accounts) (key : string) : accounts := delete key m.

(** ** On the shared datastore *)

(** An answered coordination call; an unanswered one is [None] and the paths
    below fail closed. *)
Definition sharedAccountDelay (state : option (option (Z * Z * Z))) : Z :=
  match state with
  | None => RetryAfter
  | Some None => 0
  | Some (Some (failures, lastFailure, dbNow)) =>
      let d := Sub (lastFailure + backoffDelay failures) dbNow in
      if bool_decide (0 < d) then d else 0
  end.

Definition sharedRecordFailure (failures : option Z) : bool :=
  match failures with
  | None => false
  | Some n => bool_decide (n = FailuresBeforeBackoff + 1)
  end.

(** ** Sessions proven live *)

Record liveSession := LiveSession { ls_id : string; ls_seen : Z }.

Abbreviation sessions := (gmap string liveSession).

Definition KnownLiveSession (m : sessions) (key : string) : option string := ls_id <$> m !! key.

(** The victim scan: [oldest.IsZero()] marks "none yet" (and a session seen at
    the zero instant, which the clock never reads). *)
Definition oldest_visit (m : sessions) (acc : string * Z) (k : string) : string * Z :=
  match m !! k with
  | None => acc
  | Some s => if bool_decide (acc.2 = 0) || Before (ls_seen s) acc.2 then (k, ls_seen s) else acc
  end.

Definition NoteLiveSession (order : sessions → list string) (m : sessions)
    (key sessionID : string) (now : Z) : sessions :=
  let m := match m !! key with
           | None => if bool_decide (MaxTrackedSubjects ≤ size m)%nat
                     then delete (foldl (oldest_visit m) ("", 0) (order m)).1 m else m
           | Some _ => m
           end in
  <[key := LiveSession sessionID now]> m.

Definition ForgetSession (m : sessions) (key : string) : sessions := delete key m.

(** ** The curve's values *)

Lemma shiftl_1 k : 0 ≤ k → Z.shiftl 1 k = 2 ^ k.
Proof. intros. rewrite Z.shiftl_1_l. done. Qed.

Lemma backoffDelay_zero n : n ≤ 5 → backoffDelay n = 0.
Proof. intros. unfold backoffDelay, FailuresBeforeBackoff. by rewrite bool_decide_true by lia. Qed.

Lemma backoffDelay_pow n : 6 ≤ n → backoffDelay n = Z.min (2 ^ (n - 6)) 60 * Second.
Proof.
  intros Hn. unfold backoffDelay, FailuresBeforeBackoff, MaxAccountBackoff.
  rewrite bool_decide_false by lia. rewrite shiftl_1 by lia.
  replace (n - 5 - 1) with (n - 6) by lia.
  destruct (decide (n - 6 ≤ 16)) as [Hs|Hb].
  - rewrite (Z.min_l (n - 6)) by done. unfold Second. lia.
  - rewrite (Z.min_r (n - 6)) by lia.
    assert (2 ^ 16 ≤ 2 ^ (n - 6)) as Hp by (apply Z.pow_le_mono_r; lia).
    change (2 ^ 16) with 65536 in *. unfold Second. lia.
Qed.

Lemma backoffDelay_nonneg n : 0 ≤ backoffDelay n.
Proof.
  destruct (decide (n ≤ 5)); [by rewrite backoffDelay_zero|].
  rewrite backoffDelay_pow by lia. pose proof (Z.pow_nonneg 2 (n - 6)). unfold Second. lia.
Qed.

Lemma recordFailure_delay n :
  FailuresBeforeBackoff < n →
  Z.min (Z.shiftl 1 (Z.min (n - FailuresBeforeBackoff - 1) 16) * Second) MaxAccountBackoff
    = backoffDelay n.
Proof. intros Hn. unfold backoffDelay. by rewrite bool_decide_false by lia. Qed.

(** The backoff curve: no delay for the first five consecutive failures,
    then [min(2^(n-6), 60)] seconds after the [n]-th (so one second after the
    sixth), never decreasing and never past a minute. *)
Theorem backoff_curve (n m : Z) :
  (n ≤ 5 → backoffDelay n = 0) ∧
  (6 ≤ n → backoffDelay n = Z.min (2 ^ (n - 6)) 60 * Second) ∧
  (n ≤ m → backoffDelay n ≤ backoffDelay m) ∧
  0 ≤ backoffDelay n ≤ MaxAccountBackoff.
Proof.
  split; [apply backoffDelay_zero|]. split; [apply backoffDelay_pow|]. split.
  - intros Hle. destruct (decide (n ≤ 5)).
    + rewrite (backoffDelay_zero n) by done. apply backoffDelay_nonneg.
    + rewrite !backoffDelay_pow by lia.
      pose proof (Z.pow_le_mono_r 2 (n - 6) (m - 6) ltac:(lia) ltac:(lia)).
      unfold Second. lia.
  - split; [apply backoffDelay_nonneg|]. unfold MaxAccountBackoff.
    destruct (decide (n ≤ 5)); [by rewrite backoffDelay_zero|].
    rewrite backoffDelay_pow by lia. unfold Second. lia.
Qed.

(** ** Memory is bounded *)

Definition accounts_order (order : accounts → list string) : Prop :=
  ∀ m : accounts, lists_keys (order m) m.
Definition sessions_order (order : sessions → list string) : Prop :=
  ∀ m : sessions, lists_keys (order m) m.

Lemma recordFailure_bounded order m key now :
  accounts_order order → (size m ≤ MaxTrackedSubjects)%nat →
  (size (recordFailure order m key now).1 ≤ MaxTrackedSubjects)%nat.
Proof.
  intros Ho Hsz. pose proof MaxTrackedSubjects_pos as Hpos.
  set (m' := match m !! key with
    | None => if bool_decide (MaxTrackedSubjects ≤ size m)%nat
              then evictAccounts (order m) m now else m
    | Some _ => m end).
  assert (∀ st, size (<[key := st]> m') ≤ MaxTrackedSubjects)%nat as Hins.
  { intros st. unfold m'. destruct (m !! key) eqn:E.
    - by rewrite map_size_insert_Some.
    - pose proof (map_size_insert_le m key st).
      case_bool_decide.
      + assert (m ≠ ∅) by (intros ->; rewrite map_size_empty in *; lia).
        pose proof (evict_size (λ st, negb (After (until st) now)) until MaxTrackedSubjects
          _ m (Ho m) ltac:(done) ltac:(done)).
        pose proof (map_size_insert_le (evictAccounts (order m) m now) key st).
        unfold evictAccounts in *. lia.
      + lia. }
  unfold recordFailure. fold m'. case_match; simpl; apply Hins.
Qed.

Lemma recordFailure_dom order m key now :
  dom (recordFailure order m key now).1 ⊆ {[key]} ∪ dom m.
Proof.
  unfold recordFailure. set (m' := match m !! key with None => _ | Some _ => _ end).
  assert (dom m' ⊆ dom m).
  { unfold m'. destruct (m !! key); [done|]. case_match; [|done].
    intros k [st Hst]%elem_of_dom. apply elem_of_dom. eexists. by eapply evict_sub. }
  case_match; simpl; rewrite dom_insert_L; set_solver.
Qed.

Lemma oldest_visit_dom (m : sessions) order acc :
  (acc.1 ∈ dom m ∨ acc.2 = 0) → (acc.1 ∈ dom m ∨ ∃ k, k ∈ order ∧ k ∈ dom m) →
  (foldl (oldest_visit m) acc order).1 ∈ dom m.
Proof.
  revert acc. induction order as [|k order IH]; intros acc Hacc Hex; simpl.
  { destruct Hex as [?|(k & Hk & _)]; [done|by apply elem_of_nil in Hk]. }
  assert ((oldest_visit m acc k).1 ∈ dom m ∨
    ((oldest_visit m acc k).2 = 0 ∧ (k ∉ dom m) ∧ (acc.1 ∉ dom m))) as Hv.
  { unfold oldest_visit. destruct (m !! k) as [s|] eqn:E.
    - case_match eqn:Ec; simpl; [left; by apply elem_of_dom_2 in E|].
      bsimp. left. tauto.
    - apply not_elem_of_dom in E. destruct Hacc; [by left|].
      destruct (decide (acc.1 ∈ dom m)); [by left|right]. done. }
  apply IH.
  - destruct Hv as [?|(? & _)]; [by left|by right].
  - destruct Hv as [?|(_ & Hk & Ha)]; [by left|right].
    destruct Hex as [?|(k' & [->|Hin]%elem_of_cons & ?)]; [done|done|eauto].
Qed.

Lemma NoteLiveSession_bounded order m key id now :
  sessions_order order → (size m ≤ MaxTrackedSubjects)%nat →
  (size (NoteLiveSession order m key id now) ≤ MaxTrackedSubjects)%nat.
Proof.
  intros Ho Hsz. unfold NoteLiveSession. destruct (m !! key) eqn:E.
  { by rewrite map_size_insert_Some. }
  case_bool_decide as Hfull.
  - pose proof MaxTrackedSubjects_pos.
    assert (m ≠ ∅) as (k & s & Hk)%map_choose by (intros ->; rewrite map_size_empty in *; lia).
    set (victim := (foldl _ _ _).1).
    assert (victim ∈ dom m) as Hv%elem_of_dom.
    { apply oldest_visit_dom; [by right|right]. exists k.
      rewrite lists_keys_elem by apply Ho. split; by apply elem_of_dom_2 in Hk. }
    pose proof (map_size_insert_le (delete victim m) key (LiveSession id now)).
    rewrite map_size_delete_Some in * by done. lia.
  - pose proof (map_size_insert_le m key (LiveSession id now)). lia.
Qed.

#[local] Arguments RecordAccountFailure : simpl never.
#[local] Arguments recordFailure : simpl never.
#[local] Arguments sharedRecordFailure : simpl never.

(** ** The two backends agree *)

Inductive account_op :=
| Fail (key : string) (now : Z) (order : accounts → list string)
| Succeed (key : string).

Definition op_key (op : account_op) : string :=
  match op with Fail key _ _ | Succeed key => key end.

(** The map after a run and, for each failure, whether it crossed the threshold. *)
Fixpoint local_run (m : accounts) (ops : list account_op) : accounts * list bool :=
  match ops with
  | [] => (m, [])
  | Fail key now order :: ops =>
      let '(m, crossed) := recordFailure order m key now in
      let '(m, rest) := local_run m ops in (m, crossed :: rest)
  | Succeed key :: ops => local_run (recordSuccess m key) ops
  end.

Fixpoint shared_run (t : tables) (ops : list account_op) : tables * list bool :=
  match ops with
  | [] => (t, [])
  | Fail key now _ :: ops =>
      let '(t, n) := RecordAccountFailure t key now in
      let '(t, rest) := shared_run t ops in (t, sharedRecordFailure (Some n) :: rest)
  | Succeed key :: ops => shared_run (ClearAccount t key) ops
  end.

(** Both read one clock that does not run backwards, in whole microseconds. *)
Fixpoint ops_ordered (from : Z) (ops : list account_op) (upto : Z) : Prop :=
  match ops with
  | [] => from ≤ upto
  | Fail _ now _ :: ops => from ≤ now ∧ CanonTime now = now ∧ ops_ordered now ops upto
  | Succeed _ :: ops => ops_ordered from ops upto
  end.

Definition account_row (t : tables) (key : string) : option counter :=
  admission_counters t !! (AccountBucket, key, accountWindow).

Definition same_account (from : Z) (st : option accountBackoff) (c : option counter) : Prop :=
  match st, c with
  | None, None => True
  | Some st, Some c =>
      failures st = ct_failures c ∧ 0 ≤ failures st ∧
      ∃ u, ct_until c = Some u ∧ 0 < u ≤ from ∧
        until st = if bool_decide (failures st ≤ FailuresBeforeBackoff) then 0
                   else u + backoffDelay (failures st)
  | _, _ => False
  end.

Lemma same_account_later from from' st c :
  from ≤ from' → same_account from st c → same_account from' st c.
Proof.
  intros Hle. destruct st as [st|], c as [c|]; simpl; try done.
  intros (? & ? & u & ? & ? & ?). split; [done|]. split; [done|]. exists u.
  split; [done|]. split; [lia|done].
Qed.

(** The rows agree, so the delays do. *)
Lemma same_account_delay from m t key now :
  same_account from (m !! key) (account_row t key) → from ≤ now →
  accountDelay m key now = sharedAccountDelay (Some (AccountFailureState t key now)).
Proof.
  unfold accountDelay, sharedAccountDelay, AccountFailureState. fold (account_row t key).
  destruct (m !! key) as [st|], (account_row t key) as [c|]; simpl; try done.
  intros (Hf & Hn & u & Hu & Hle & Hun) Hnow. rewrite Hu, <- Hf. simpl.
  destruct (decide (failures st ≤ FailuresBeforeBackoff)) as [H5|H5].
  - rewrite bool_decide_true in Hun by done. rewrite (bool_decide_true (until st = 0)) by done.
    rewrite backoffDelay_zero by (unfold FailuresBeforeBackoff in *; lia).
    rewrite bool_decide_false; [done|]. unfold Sub, minDuration, maxDuration. lia.
  - rewrite bool_decide_false in Hun by done. pose proof (backoffDelay_nonneg (failures st)).
    rewrite (bool_decide_false (until st = 0)) by lia. by rewrite Hun.
Qed.

(** One failure, on both backends. *)
Lemma fail_step order m t key now from :
  (m !! key = None → (size m < MaxTrackedSubjects)%nat) →
  0 < now → from ≤ now → CanonTime now = now →
  same_account from (m !! key) (account_row t key) →
  let r := recordFailure order m key now in
  let s := RecordAccountFailure t key now in
  r.2 = sharedRecordFailure (Some s.2) ∧
  same_account now (r.1 !! key) (account_row s.1 key) ∧
  (∀ k, k ≠ key → r.1 !! k = m !! k ∧ account_row s.1 k = account_row t k).
Proof.
  intros Hroom Hpos Hle Hcan Hsame.
  assert (match m !! key with
    | None => if bool_decide (MaxTrackedSubjects ≤ size m)%nat
              then evictAccounts (order m) m now else m
    | Some _ => m end = m) as Em.
  { destruct (m !! key); [done|]. by rewrite bool_decide_false by (specialize (Hroom eq_refl); lia). }
  set (st := default (Account 0 0) (m !! key)).
  assert (∃ c' u, RecordAccountFailure t key now
      = (with_counters t (<[(AccountBucket, key, accountWindow) := c']> (admission_counters t)),
         failures st + 1)
    ∧ ct_failures c' = failures st + 1 ∧ ct_until c' = Some u ∧ u = now
    ∧ 0 ≤ failures st ∧ (failures st + 1 ≤ 5 → until st = 0)) as (c' & u & -> & Hc & Hcu & -> & Hn & Hz).
  { unfold RecordAccountFailure. fold (account_row t key). rewrite Hcan.
    unfold st. destruct (m !! key) as [s|], (account_row t key) as [c|] eqn:Ec;
      simpl in Hsame; try done; simpl.
    - destruct Hsame as (Hf & Hn & u & Hu & Hule & Hun). rewrite Hu, Hf. simpl.
      eexists _, _. split; [reflexivity|]. simpl. split; [done|]. split; [done|].
      split; [lia|]. split; [lia|]. intros Hn5. rewrite Hun, bool_decide_true; [done|].
      unfold FailuresBeforeBackoff. lia.
    - eexists _, _. split; [reflexivity|]. simpl. done. }
  simpl. unfold sharedRecordFailure. unfold recordFailure. fold st. rewrite Em.
  assert (∀ k, k ≠ key → ∀ x : accountBackoff, <[key := x]> m !! k = m !! k ∧
    account_row (with_counters t (<[(AccountBucket, key, accountWindow) := c']>
      (admission_counters t))) k = account_row t k) as Hframe.
  { intros k Hk x. rewrite lookup_insert_ne by done. split; [done|].
    unfold account_row. simpl. rewrite lookup_insert_ne; [done|congruence]. }
  destruct (decide (failures st + 1 ≤ FailuresBeforeBackoff)) as [E5|E5];
    [rewrite (bool_decide_true (_ ≤ _)) by done|rewrite (bool_decide_false (_ ≤ _)) by done];
    simpl; unfold FailuresBeforeBackoff in *.
  - split; [by rewrite bool_decide_false by lia|].
    split; [|intros k Hk; by apply Hframe].
    unfold account_row. simpl. rewrite !lookup_insert_eq. simpl. rewrite Hc.
    split; [done|]. split; [lia|]. exists now. split; [done|]. split; [lia|].
    rewrite bool_decide_true by (unfold FailuresBeforeBackoff; lia). auto.
  - split; [done|]. split; [|intros k Hk; by apply Hframe].
    unfold account_row. simpl. rewrite !lookup_insert_eq. simpl. rewrite Hc.
    split; [done|]. split; [lia|]. exists now. split; [done|]. split; [lia|].
    rewrite bool_decide_false by (unfold FailuresBeforeBackoff; lia). f_equal.
    apply (recordFailure_delay (failures st + 1)). unfold FailuresBeforeBackoff. lia.
Qed.

Definition agree (from : Z) (m : accounts) (t : tables) : Prop :=
  ∀ key, same_account from (m !! key) (account_row t key).

Lemma agree_run ops S : ∀ from upto m t,
  0 < from → ops_ordered from ops upto → agree from m t →
  (∀ op, op ∈ ops → op_key op ∈ S) → dom m ⊆ S → (size S ≤ MaxTrackedSubjects)%nat →
  (local_run m ops).2 = (shared_run t ops).2 ∧
  agree upto (local_run m ops).1 (shared_run t ops).1.
Proof.
  induction ops as [|[key now order|key] ops IH]; intros from upto m t Hpos Hord Ha Hops Hdom HS;
    cbn [local_run shared_run].
  - split; [done|]. intros key. by eapply same_account_later.
  - destruct Hord as (Hle & Hcan & Hord).
    assert (key ∈ S) as HkS by (apply (Hops (Fail key now order)); left).
    assert (m !! key = None → (size m < MaxTrackedSubjects)%nat) as Hroom.
    { intros Hk%not_elem_of_dom. assert (dom m ⊂ S) as Hlt by set_solver.
      apply subset_size in Hlt. rewrite size_dom in Hlt. lia. }
    destruct (fail_step order m t key now from Hroom ltac:(lia) Hle Hcan (Ha key))
      as (Hb & Hkey & Hframe).
    pose proof (recordFailure_dom order m key now) as Hdom'.
    destruct (recordFailure order m key now) as [m' crossed].
    destruct (RecordAccountFailure t key now) as [t' n]. simpl in *.
    assert (agree now m' t') as Ha'.
    { intros k. destruct (decide (k = key)) as [->|Hne]; [done|].
      destruct (Hframe k Hne) as [-> ->]. eapply same_account_later; [done|apply Ha]. }
    destruct (IH now upto m' t' ltac:(lia) Hord Ha') as [Hrest Hfin]; [|set_solver|done|].
    { intros op Hin. apply Hops. by right. }
    destruct (local_run m' ops) as [m'' r1], (shared_run t' ops) as [t'' r2].
    simpl in *. split; [by f_equal|done].
  - apply (IH from); try done.
    + intros k. unfold recordSuccess, account_row, ClearAccount. simpl.
      destruct (decide (k = key)) as [->|Hne]; [by rewrite !lookup_delete_eq|].
      rewrite !lookup_delete_ne by congruence. apply Ha.
    + intros op Hin. apply Hops. by right.
    + unfold recordSuccess. rewrite dom_delete_L. set_solver.
Qed.


Definition accounts_any (m : accounts) : list string := (map_to_list m).*1.

Definition backoff_demo : list account_op :=
  [Fail "k" 1000000 accounts_any; Fail "k" 2000000 accounts_any; Fail "k" 3000000 accounts_any;
   Fail "k" 4000000 accounts_any; Fail "k" 5000000 accounts_any; Fail "k" 6000000 accounts_any].

