(* ===== verification/Admission.v ===== *)
(** * The admission limiter: [internal/admission/admission.go], [inherit.go]

    [New] derives the concurrency from the memory budget; [Enter] charges the
    per-source window, waits in a bounded queue and holds one verification slot;
    [InheritCounters] hands the abuse history to a replacement limiter. The
    slots, the queue and the callers are a transition system: a caller's wait and
    its deferred [dequeue] interleave with every other caller's. The shared
    counters are an interface ([SharedStore]) that the datastore rows implement. *)

From stdpp Require Import prelude gmap strings list.
From S2P Require Import Prelude Sweep AdmissionWindow Coordination AdmissionAccounts.

Local Open Scope Z_scope.

(** ** Sizing *)

Definition DefaultBudgetMiB : Z := 272.
Definition HeadroomMiB : Z := 16.
Definition MaxConcurrency : Z := 8.

Record Config := {
  BudgetMiB : Z;
  ArgonMemoryKiB : Z;
  cfgPerIPPerMinute : Z
}.

Record sizing := Sizing {
  concurrency : Z;
  limits : Limits
}.

Inductive admission_err :=
| ErrArgonUnstated
| ErrBudget
| ErrOverloaded
| RateLimited (wait : Z)
| ErrHandoffInvalid
| ErrNotQuiescent
| ErrCountersNotEmpty
| ErrSharedBackendChanged.

Definition New (cfg : Config) : result admission_err sizing :=
  let budget := if bool_decide (BudgetMiB cfg ≤ 0) then DefaultBudgetMiB else BudgetMiB cfg in
  if bool_decide (ArgonMemoryKiB cfg = 0) then Err ErrArgonUnstated
  else
    let argonMiB := (ArgonMemoryKiB cfg + 1023) `div` 1024 in
    if bool_decide (budget < argonMiB + HeadroomMiB) then Err ErrBudget
    else
      let c := (budget - HeadroomMiB) `div` argonMiB in
      let c := Z.max 1 (Z.min MaxConcurrency c) in
      let perIP := if bool_decide (cfgPerIPPerMinute cfg ≤ 0) then PerIPPerMinute
                   else cfgPerIPPerMinute cfg in
      Ok (Sizing c {| perIP := Z.to_nat perIP;
                      discoveryPerIP := Z.to_nat (Z.max MetaPerIPPerMinute perIP) |}).

(** The budget a configuration states, in KiB, less the global headroom. *)
Definition verification_KiB (cfg : Config) : Z :=
  ((if bool_decide (BudgetMiB cfg ≤ 0) then DefaultBudgetMiB else BudgetMiB cfg) - HeadroomMiB)
    * 1024.

Lemma New_fits cfg s :
  0 ≤ ArgonMemoryKiB cfg → New cfg = Ok s →
  1 ≤ concurrency s ≤ MaxConcurrency ∧
  concurrency s * ArgonMemoryKiB cfg ≤ verification_KiB cfg ∧
  (0 < perIP (limits s))%nat ∧ (0 < discoveryPerIP (limits s))%nat.
Proof.
  intros Hpos. unfold New, verification_KiB.
  set (budget := if bool_decide (BudgetMiB cfg ≤ 0) then _ else _).
  case_bool_decide as H0; [done|]. case_bool_decide as Hb; [done|].
  intros [= <-]. simpl. unfold MaxConcurrency, HeadroomMiB, MetaPerIPPerMinute in *.
  set (m := (ArgonMemoryKiB cfg + 1023) `div` 1024) in *.
  assert (ArgonMemoryKiB cfg ≤ m * 1024 ∧ 1 ≤ m) as [Hm1 Hm2].
  { pose proof (Z.div_mod (ArgonMemoryKiB cfg + 1023) 1024 ltac:(done)).
    pose proof (Z.mod_pos_bound (ArgonMemoryKiB cfg + 1023) 1024 ltac:(done)). lia. }
  pose proof (Z.mul_div_le (budget - 16) m ltac:(lia)) as Hd.
  split; [lia|]. split.
  - assert (Z.max 1 (Z.min 8 ((budget - 16) `div` m)) * m ≤ budget - 16) as Hfit.
    { destruct (Z.max_spec 1 (Z.min 8 ((budget - 16) `div` m))) as [[_ ->]|[_ ->]]; [|lia].
      etrans; [apply Z.mul_le_mono_nonneg_r; [lia|apply Z.le_min_r]|lia]. }
    assert (0 ≤ Z.max 1 (Z.min 8 ((budget - 16) `div` m))) by lia. nia.
  - unfold PerIPPerMinute. case_bool_decide; lia.
Qed.

(** ** The gate: slots and queue *)

(** A caller inside [Enter], and after it. [Granted] and [GivingUp] are past the
    [select] with the deferred [dequeue] still to run. *)
Inductive phase := Queued | Granted | GivingUp | Holding | Finished | Turned.

#[export] Instance phase_eq_dec : EqDecision phase.
Proof. solve_decision. Defined.

Record gate := Gate {
  g_free : Z;
  g_waiting : Z;
  g_callers : gmap nat phase
}.

Definition gate_init (concurrency : Z) : gate := Gate concurrency 0 ∅.

Inductive gate_action :=
| Enqueue (id : nat)
| Take (id : nat)
| GiveUp (id : nat)
| Dequeue (id : nat)
| ReleaseSlot (id : nat).

(** One step of the gate; [None] where it is not enabled (a blocked receive, a
    caller elsewhere). A release runs once ([sync.Once]): a finished caller's
    further calls are no step. *)
Definition gate_step (a : gate_action) (g : gate) : option gate :=
  match a with
  | Enqueue id =>
      match g_callers g !! id with
      | Some _ => None
      | None =>
          if bool_decide (QueueDepth ≤ g_waiting g)
          then Some (Gate (g_free g) (g_waiting g) (<[id := Turned]> (g_callers g)))
          else Some (Gate (g_free g) (g_waiting g + 1) (<[id := Queued]> (g_callers g)))
      end
  | Take id =>
      match g_callers g !! id with
      | Some Queued =>
          if bool_decide (0 < g_free g)
          then Some (Gate (g_free g - 1) (g_waiting g) (<[id := Granted]> (g_callers g)))
          else None
      | _ => None
      end
  | GiveUp id =>
      match g_callers g !! id with
      | Some Queued => Some (Gate (g_free g) (g_waiting g) (<[id := GivingUp]> (g_callers g)))
      | _ => None
      end
  | Dequeue id =>
      match g_callers g !! id with
      | Some Granted => Some (Gate (g_free g) (g_waiting g - 1) (<[id := Holding]> (g_callers g)))
      | Some GivingUp => Some (Gate (g_free g) (g_waiting g - 1) (<[id := Turned]> (g_callers g)))
      | _ => None
      end
  | ReleaseSlot id =>
      match g_callers g !! id with
      | Some Holding => Some (Gate (g_free g + 1) (g_waiting g) (<[id := Finished]> (g_callers g)))
      | _ => None
      end
  end.

Inductive gate_reachable (concurrency : Z) : gate → Prop :=
| gate_start : gate_reachable concurrency (gate_init concurrency)
| gate_next g a g' :
    gate_reachable concurrency g → gate_step a g = Some g' → gate_reachable concurrency g'.

(** [Snapshot]'s gauges. *)
Definition InFlight (concurrency : Z) (g : gate) : Z := concurrency - g_free g.
Definition Waiting (g : gate) : Z := g_waiting g.
Definition ActiveBackoffs (m : accounts) (now : Z) : nat :=
  size (filter (λ ks, After (until ks.2) now = true) m).

(** ** Weights of the callers *)

Definition weigh (w : phase → Z) (cs : gmap nat phase) : Z :=
  map_fold (λ _ p acc, w p + acc) 0 cs.

Lemma weigh_insert_new w (cs : gmap nat phase) id p :
  cs !! id = None → weigh w (<[id := p]> cs) = w p + weigh w cs.
Proof. intros Hid. unfold weigh. rewrite map_fold_insert_L; [done|lia|done]. Qed.

Lemma weigh_insert w (cs : gmap nat phase) id p q :
  cs !! id = Some q → weigh w (<[id := p]> cs) = weigh w cs + (w p - w q).
Proof.
  intros Hid. rewrite <- (insert_delete_id cs id q) at 2 by done.
  rewrite <- (insert_delete_eq cs). rewrite !weigh_insert_new by apply lookup_delete_eq. lia.
Qed.

Lemma weigh_nonneg w (cs : gmap nat phase) : (∀ p, 0 ≤ w p) → 0 ≤ weigh w cs.
Proof.
  intros Hw. induction cs as [|id p cs Hid IH] using map_ind; [done|].
  rewrite weigh_insert_new by done. specialize (Hw p). lia.
Qed.

Lemma weigh_zero w (cs : gmap nat phase) :
  (∀ p, 0 ≤ w p) → weigh w cs = 0 → ∀ id p, cs !! id = Some p → w p = 0.
Proof.
  intros Hw Hz id p Hid. pose proof (weigh_insert_new w (delete id cs) id p ltac:(apply lookup_delete_eq)) as E.
  rewrite insert_delete_id in E by done. pose proof (weigh_nonneg w (delete id cs) Hw).
  specialize (Hw p). lia.
Qed.

(** Who occupies a slot, who is counted as waiting, and what is left to do. *)
Definition occupies (p : phase) : Z := match p with Granted | Holding => 1 | _ => 0 end.
Definition waits (p : phase) : Z := match p with Queued | Granted | GivingUp => 1 | _ => 0 end.
Definition todo (p : phase) : Z :=
  match p with Queued => 3 | Granted => 2 | GivingUp | Holding => 1 | _ => 0 end.

Definition gate_ok (concurrency : Z) (g : gate) : Prop :=
  0 ≤ g_free g ∧
  g_free g + weigh occupies (g_callers g) = concurrency ∧
  g_waiting g = weigh waits (g_callers g) ∧
  g_waiting g ≤ QueueDepth.

Lemma gate_step_ok concurrency a g g' :
  gate_ok concurrency g → gate_step a g = Some g' → gate_ok concurrency g'.
Proof.
  intros (Hf & Hs & Hw & Hq) Hstep. unfold gate_ok.
  destruct a as [id|id|id|id|id]; simpl in Hstep;
    destruct (g_callers g !! id) as [q|] eqn:E; try destruct q; try done;
    try (case_bool_decide); simplify_eq; simpl;
    (rewrite ?(weigh_insert_new _ _ _ _ E), ?(weigh_insert _ _ _ _ _ E)); simpl; lia.
Qed.

Lemma gate_reachable_ok concurrency g :
  0 ≤ concurrency → gate_reachable concurrency g → gate_ok concurrency g.
Proof.
  intros Hc. induction 1 as [|g a g' _ IH Hs]; [|by eapply gate_step_ok].
  unfold gate_ok, QueueDepth. simpl. unfold weigh. rewrite !map_fold_empty. lia.
Qed.

(** *** Draining *)

Definition internal (a : gate_action) : bool :=
  match a with Enqueue _ => false | _ => true end.

(** Steps that need no caller to abandon its wait. *)
Definition serves (a : gate_action) : bool :=
  match a with Enqueue _ | GiveUp _ => false | _ => true end.

Definition quiescent (concurrency : Z) (g : gate) : Prop :=
  g_waiting g = 0 ∧ g_free g = concurrency.

Definition gate_measure (g : gate) : Z := weigh todo (g_callers g).

Lemma todo_nonneg p : 0 ≤ todo p.
Proof. by destruct p. Qed.

Lemma gate_step_decreases a g g' :
  internal a = true → gate_step a g = Some g' → 0 ≤ gate_measure g' < gate_measure g.
Proof.
  intros Hi Hstep. split; [apply weigh_nonneg, todo_nonneg|]. unfold gate_measure.
  destruct a as [id|id|id|id|id]; simpl in Hstep; [done|..];
    destruct (g_callers g !! id) as [q|] eqn:E; try destruct q; try done;
    try (case_bool_decide); simplify_eq; simpl;
    rewrite (weigh_insert _ _ _ _ _ E); simpl; lia.
Qed.

Lemma weigh_pos_exists w (cs : gmap nat phase) :
  0 < weigh w cs → ∃ id p, cs !! id = Some p ∧ 0 < w p.
Proof.
  induction cs as [|id p cs Hid IH] using map_ind; [unfold weigh; rewrite map_fold_empty; lia|].
  rewrite weigh_insert_new by done. intros Hpos.
  destruct (decide (0 < w p)) as [Hp|Hp].
  - exists id, p. by rewrite lookup_insert_eq.
  - destruct IH as (id' & p' & Hid' & Hw'); [lia|]. exists id', p'.
    rewrite lookup_insert_ne by congruence. done.
Qed.

(** Something can always move until the gate is empty: a free slot serves a
    queued caller, otherwise a slot's occupant can finish. *)
Lemma gate_progress concurrency g :
  0 < concurrency → gate_ok concurrency g →
  quiescent concurrency g ∨ ∃ a g', serves a = true ∧ gate_step a g = Some g'.
Proof.
  intros Hc (Hf & Hs & Hw & _).
  destruct (decide (0 < weigh occupies (g_callers g))) as [Hocc|Hocc].
  - right. apply weigh_pos_exists in Hocc as (id & p & Hid & Hp).
    destruct p; simpl in Hp; try lia;
      [exists (Dequeue id)|exists (ReleaseSlot id)]; simpl; rewrite Hid; eauto.
  - assert (0 ≤ weigh occupies (g_callers g)) by (apply weigh_nonneg; by intros []).
    destruct (decide (0 < weigh waits (g_callers g))) as [Hwt|Hwt].
    + right. apply weigh_pos_exists in Hwt as (id & p & Hid & Hp).
      destruct p; simpl in Hp; try lia.
      * exists (Take id). simpl. rewrite Hid, bool_decide_true by lia. eauto.
      * exists (Dequeue id). simpl. rewrite Hid. eauto.
      * exists (Dequeue id). simpl. rewrite Hid. eauto.
    + left. assert (0 ≤ weigh waits (g_callers g)) by (apply weigh_nonneg; by intros []).
      split; lia.
Qed.

Fixpoint gate_run (acts : list gate_action) (g : gate) : option gate :=
  match acts with
  | [] => Some g
  | a :: acts => g' ← gate_step a g; gate_run acts g'
  end.

Lemma gate_run_reachable concurrency acts g g' :
  gate_reachable concurrency g → gate_run acts g = Some g' → gate_reachable concurrency g'.
Proof.
  revert g. induction acts as [|a acts IH]; intros g Hg Hr; simpl in Hr; [by simplify_eq|].
  destruct (gate_step a g) as [g1|] eqn:E; simplify_eq/=.
  eapply IH; [by eapply gate_next|done].
Qed.

(** The verification budget is a bound. For every accepted configuration,
    in every reachable state of the gate the slots in use, each running one
    Argon2id derivation of the configured size, fit in the stated memory budget
    less the headroom; between 1 and 8 run at once and at most 16 wait. *)
Theorem verification_memory_bounded (cfg : Config) (s : sizing) (g : gate) :
  0 ≤ ArgonMemoryKiB cfg → New cfg = Ok s → gate_reachable (concurrency s) g →
  0 ≤ InFlight (concurrency s) g ≤ MaxConcurrency ∧
  InFlight (concurrency s) g * ArgonMemoryKiB cfg ≤ verification_KiB cfg ∧
  0 ≤ Waiting g ≤ QueueDepth.
Proof.
  intros Hk Hnew Hg. destruct (New_fits cfg s Hk Hnew) as (Hc & Hfit & _).
  destruct (gate_reachable_ok (concurrency s) g ltac:(lia) Hg) as (Hf & Hs & Hw & Hq).
  assert (0 ≤ weigh occupies (g_callers g)) by (apply weigh_nonneg; by intros []).
  assert (0 ≤ weigh waits (g_callers g)) by (apply weigh_nonneg; by intros []).
  unfold InFlight, Waiting. split; [lia|]. split; [nia|lia].
Qed.

Definition demo_cfg : Config :=
  {| BudgetMiB := 0; ArgonMemoryKiB := 65536; cfgPerIPPerMinute := 0 |}.

Definition demo_gate : option gate :=
  gate_run [Enqueue 0; Take 0; Enqueue 1; Dequeue 0; Take 1; ReleaseSlot 0] (gate_init 4).

Lemma verification_memory_bounded_witness :
  New demo_cfg = Ok (Sizing 4 {| perIP := 10; discoveryPerIP := 60 |}) ∧
  from_option (λ g, InFlight 4 g = 1 ∧ InFlight 4 g * 65536 ≤ verification_KiB demo_cfg) False demo_gate.
Proof.
  split; [vm_compute; reflexivity|].
  destruct demo_gate as [g|] eqn:E; [|by vm_compute in E]. simpl.
  split; [vm_compute in E; by simplify_eq|].
  apply (verification_memory_bounded demo_cfg
    (Sizing 4 {| perIP := 10; discoveryPerIP := 60 |}) g); [done|vm_compute; reflexivity|].
  eapply gate_run_reachable; [apply gate_start|exact E].
Defined.

(** The gate drains. Once arrivals stop, every run of the remaining callers'
    steps is finite, with an explicit bound on its length, and it can only end
    with nobody waiting and every slot back: whichever order the scheduler picks,
    some caller can be served without anyone giving up its wait. *)
Theorem gate_drains (c : Z) (g g' : gate) (acts : list gate_action) :
  0 < c → gate_reachable c g → Forall (λ a, internal a = true) acts →
  gate_run acts g = Some g' →
  Z.of_nat (length acts) ≤ gate_measure g ∧
  (quiescent c g' ∨ ∃ a g'', serves a = true ∧ gate_step a g' = Some g'').
Proof.
  intros Hc Hg Hint Hrun. split.
  - revert g Hg Hrun. induction Hint as [|a acts Ha _ IH]; intros g Hg Hrun; simpl in *.
    + apply weigh_nonneg, todo_nonneg.
    + destruct (gate_step a g) as [g1|] eqn:E; simplify_eq/=.
      pose proof (gate_step_decreases a g g1 Ha E).
      specialize (IH g1 ltac:(by eapply gate_next) Hrun). lia.
  - apply gate_progress; [done|]. apply gate_reachable_ok; [lia|].
    by eapply gate_run_reachable.
Qed.

Lemma gate_drains_witness :
  from_option (λ g, Z.of_nat (length [Dequeue 1; ReleaseSlot 1]) ≤ gate_measure g) False demo_gate.
Proof.
  destruct demo_gate as [g|] eqn:E; [|by vm_compute in E]. simpl.
  destruct (gate_run [Dequeue 1; ReleaseSlot 1] g) as [g'|] eqn:Er.
  - refine (proj1 (gate_drains 4 g g' [Dequeue 1; ReleaseSlot 1] _ _ _ Er)); [done| |by repeat constructor].
    eapply gate_run_reachable; [apply gate_start|exact E].
  - vm_compute in E. by simplify_eq.
Defined.

(** ** Shared counters *)

(** The installation-wide backend; [None] is a failed coordination call. *)
Class SharedStore (St : Type) := {
  ss_bump : St → string → string → Z → St * option Z;
  ss_failures : St → string → Z → option (option (Z * Z * Z));
  ss_fail : St → string → Z → St * option Z;
  ss_clear : St → string → St * bool
}.

(** What the limiter relies on: an answered bump returns the new count of its
    own window and touches no other; a failed one never lowers a count. *)
Class SharedStoreLaws (St : Type) `{!SharedStore St} := {
  ss_count : St → string → string → Z → Z;
  ss_bump_answer s bucket subject w s' n :
    Truncate w Minute = w → ss_bump s bucket subject w = (s', Some n) →
    n = ss_count s bucket subject w + 1 ∧ ss_count s' bucket subject w = n;
  ss_bump_mono s bucket subject w s' r bucket' subject' w' :
    Truncate w Minute = w → Truncate w' Minute = w' →
    ss_bump s bucket subject w = (s', r) →
    ss_count s bucket' subject' w' ≤ ss_count s' bucket' subject' w'
}.

(** [allowShared]: the fixed-window charge; a failed call refuses. *)
Definition allowShared {St} `{!SharedStore St} (s : St) (bucket subject : string)
    (allowance : nat) (now : Z) : St * Z :=
  if bool_decide (subject = "") then (s, 0)
  else
    let window := Truncate now Minute in
    match ss_bump s bucket subject window with
    | (s', None) => (s', RetryAfter)
    | (s', Some count) =>
        (s', if bool_decide (count ≤ Z.of_nat allowance) then 0
             else Sub (window + Minute) now)
    end.

(** The datastore rows implement the interface ([store.Coordination]); calls
    that do not commit are the callers' concern. *)
#[export] Instance tables_store : SharedStore tables := {|
  ss_bump t bucket subject w := let '(t', n) := BumpWindow t bucket subject w in (t', Some n);
  ss_failures t key now := Some (AccountFailureState t key now);
  ss_fail t key now := let '(t', n) := RecordAccountFailure t key now in (t', Some n);
  ss_clear t key := (ClearAccount t key, true)
|}.

Definition window_hits (t : tables) (bucket subject : string) (w : Z) : Z :=
  from_option ct_hits 0 (admission_counters t !! (bucket, subject, CanonTime w)).

#[export] Instance tables_store_laws : SharedStoreLaws tables.
Proof.
  refine {| ss_count := window_hits |}.
  - intros t bucket subject w t' n _ H. simpl in H. simplify_eq.
    unfold window_hits. simpl. rewrite lookup_insert_eq. simpl.
    destruct (admission_counters t !! _); simpl; lia.
  - intros t bucket subject w t' r bucket' subject' w' _ _ H. simpl in H. simplify_eq.
    unfold window_hits. simpl.
    destruct (decide ((bucket, subject, CanonTime w) = (bucket', subject', CanonTime w')))
      as [->|Hne]; [|by rewrite lookup_insert_ne].
    rewrite lookup_insert_eq. destruct (admission_counters t !! _); simpl; lia.
Defined.

(** *** Attempts from several nodes *)

Record shared_attempt := SharedAttempt { sa_subject : string; sa_now : Z }.

(** The instants at which [subject] was admitted. Each node reads its own clock,
    so the instants come in any order. *)
Fixpoint shared_admissions {St} `{!SharedStore St} (allowance : nat) (bucket : string)
    (s : St) (tr : list shared_attempt) (subject : string) : list Z :=
  match tr with
  | [] => []
  | a :: tr =>
      let '(s', wait) := allowShared s bucket (sa_subject a) allowance (sa_now a) in
      (if bool_decide (sa_subject a = subject) && bool_decide (wait = 0) then [sa_now a] else [])
        ++ shared_admissions allowance bucket s' tr subject
  end.

Definition count_window (w : Z) (log : list Z) : Z :=
  Z.of_nat (length (filter (λ t, Truncate t Minute = w) log)).

Lemma Truncate_idemp t : Truncate (Truncate t Minute) Minute = Truncate t Minute.
Proof.
  unfold Truncate at 1. unfold Truncate at 2. rewrite Zminus_mod_idemp_r, Z.sub_diag, Zmod_0_l. lia.
Qed.

Section shared.
Context {St : Type} `{!SharedStore St, !SharedStoreLaws St}.

Lemma count_window_cons w t log :
  count_window w (t :: log) = (if decide (Truncate t Minute = w) then 1 else 0) + count_window w log.
Proof.
  unfold count_window. rewrite filter_cons. case_decide; simpl; lia.
Qed.

(** One attempt: admissions of the window are paid for by its count. *)
Lemma allowShared_charge s bucket subject allowance now s' wait :
  subject ≠ "" → allowShared s bucket subject allowance now = (s', wait) →
  (∀ w subject', Truncate w Minute = w →
     ss_count s bucket subject' w ≤ ss_count s' bucket subject' w) ∧
  (wait = 0 →
     ss_count s' bucket subject (Truncate now Minute) =
       ss_count s bucket subject (Truncate now Minute) + 1 ∧
     ss_count s' bucket subject (Truncate now Minute) ≤ Z.of_nat allowance).
Proof.
  intros Hne. unfold allowShared. rewrite bool_decide_false by done.
  destruct (ss_bump s bucket subject (Truncate now Minute)) as [s1 [n|]] eqn:E; intros [= <- <-].
  - split.
    + intros w subject' Hw. eapply ss_bump_mono; [apply Truncate_idemp|done|exact E].
    + destruct (ss_bump_answer _ _ _ _ _ _ (Truncate_idemp now) E) as [Hn Hc].
      case_bool_decide; [lia|]. intros Hz. exfalso.
      pose proof (Truncate_window now). rewrite Sub_minute in Hz by lia. lia.
  - split; [|done].
    intros w subject' Hw. eapply ss_bump_mono; [apply Truncate_idemp|done|exact E].
Qed.

Lemma shared_admissions_bound allowance bucket tr subject w : ∀ s,
  subject ≠ "" → Truncate w Minute = w →
  count_window w (shared_admissions allowance bucket s tr subject) ≤
    Z.max 0 (Z.of_nat allowance - ss_count s bucket subject w).
Proof.
  induction tr as [|a tr IH]; intros s Hne Hw; simpl; [unfold count_window; simpl; lia|].
  destruct (allowShared s bucket (sa_subject a) allowance (sa_now a)) as [s' wait] eqn:E.
  specialize (IH s' Hne Hw).
  destruct (decide (sa_subject a = "")) as [Hempty|Hsa].
  { unfold allowShared in E. rewrite Hempty in E. simpl in E. simplify_eq.
    rewrite bool_decide_false by congruence. simpl. done. }
  destruct (allowShared_charge _ _ _ _ _ _ _ Hsa E) as [Hmono Hadm].
  specialize (Hmono w subject Hw). case_bool_decide as Es; simpl; [|lia].
  case_bool_decide as Ew; simpl; [|lia]. rewrite count_window_cons.
  case_decide as Et; [|lia]. subst. destruct (Hadm eq_refl). lia.
Qed.
End shared.

Lemma Truncate_prev t T :
  in_window T t → Truncate t Minute = Truncate T Minute ∨ Truncate t Minute = Truncate T Minute - Minute.
Proof.
  unfold in_window, Truncate. intros [Hlo Hhi].
  pose proof (Z.div_mod t Minute ltac:(done)). pose proof (Z.div_mod T Minute ltac:(done)).
  pose proof (Z.mod_pos_bound t Minute ltac:(done)). pose proof (Z.mod_pos_bound T Minute ltac:(done)).
  unfold Minute, Second in *. lia.
Qed.

Lemma Truncate_sub_minute w : Truncate w Minute = w → Truncate (w - Minute) Minute = w - Minute.
Proof.
  unfold Truncate. intros Hw. rewrite Zminus_mod. rewrite Z_mod_same_full, Z.sub_0_r.
  rewrite Zmod_mod. lia.
Qed.

Lemma in_window_two T log :
  Z.of_nat (length (filter (in_window T) log)) ≤
    count_window (Truncate T Minute) log + count_window (Truncate T Minute - Minute) log.
Proof.
  induction log as [|t log IH]; [done|]. rewrite !count_window_cons, filter_cons.
  case_decide as Hw; [|repeat case_decide; lia]. simpl.
  destruct (Truncate_prev t T Hw) as [E|E]; repeat case_decide; lia.
Qed.

(** Node hopping buys nothing. On any backend that keeps the interface's
    laws, whatever nodes the attempts of a subject land on and whatever their
    clocks, it is admitted at most [allowance] times in each fixed window and at
    most twice that in any sliding minute. *)
Theorem shared_window_bound {St : Type} `{!SharedStore St, !SharedStoreLaws St}
    (allowance : nat) (bucket : string) (s : St) (tr : list shared_attempt)
    (subject : string) (T : Z) :
  subject ≠ "" → (∀ w, 0 ≤ ss_count s bucket subject w) →
  let log := shared_admissions allowance bucket s tr subject in
  (∀ w, Truncate w Minute = w → count_window w log ≤ Z.of_nat allowance) ∧
  Z.of_nat (length (filter (in_window T) log)) ≤ 2 * Z.of_nat allowance.
Proof.
  intros Hne Hpos log.
  assert (∀ w, Truncate w Minute = w → count_window w log ≤ Z.of_nat allowance) as Hfix.
  { intros w Hw. specialize (Hpos w).
    pose proof (shared_admissions_bound allowance bucket tr subject w s Hne Hw). unfold log. lia. }
  split; [done|]. pose proof (in_window_two T log).
  pose proof (Hfix _ (Truncate_idemp T)).
  pose proof (Hfix _ (Truncate_sub_minute _ (Truncate_idemp T))). lia.
Qed.

Definition hop_demo : list shared_attempt :=
  [SharedAttempt "10.0.0.1" (Minute - 2000); SharedAttempt "10.0.0.1" (Minute - 1000);
   SharedAttempt "10.0.0.1" (Minute - 500); SharedAttempt "10.0.0.1" Minute;
   SharedAttempt "10.0.0.1" (Minute + 1); SharedAttempt "10.0.0.1" (Minute + 2)].

Lemma shared_window_bound_witness :
  let t := Tables ∅ ∅ ∅ ∅ ∅ None in
  shared_admissions 2 "ip" t hop_demo "10.0.0.1" = [Minute - 2000; Minute - 1000; Minute; Minute + 1] ∧
  Z.of_nat (length (filter (in_window (Minute + 1)) (shared_admissions 2 "ip" t hop_demo "10.0.0.1")))
    ≤ 2 * Z.of_nat 2.
Proof.
  split; [vm_compute; reflexivity|].
  apply (shared_window_bound 2 "ip" (Tables ∅ ∅ ∅ ∅ ∅ None) hop_demo "10.0.0.1" (Minute + 1));
    [done|]. intros w. vm_compute. discriminate.
Defined.

(** ** The whole limiter *)

Record Limiter := {
  l_sizing : sizing;
  l_gate : gate;
  l_windows : Windows;
  l_accounts : accounts;
  l_sessions : sessions;
  l_shared : option string
}.

(** A limiter as [New] builds it. *)
Definition fresh_limiter (s : sizing) (shared : option string) : Limiter :=
  {| l_sizing := s; l_gate := gate_init (concurrency s);
     l_windows := {| ipHits := ∅; metaHits := ∅; issuerRefreshes := ∅ |};
     l_accounts := ∅; l_sessions := ∅; l_shared := shared |}.

(** [Enter] up to its queue: the per-source charge comes first, then the queue.
    The caller continues with [Take] or [GiveUp]. *)
Definition Enter (l : Limiter) (id : nat) (order : windows → list string) (ip : string) (now : Z) :
    Limiter * option admission_err :=
  let '(w, wait) := allowIP (limits (l_sizing l)) order (l_windows l) ip now in
  let l := {| l_sizing := l_sizing l; l_gate := l_gate l; l_windows := w;
              l_accounts := l_accounts l; l_sessions := l_sessions l; l_shared := l_shared l |} in
  if bool_decide (0 < wait) then (l, Some (RateLimited wait))
  else match gate_step (Enqueue id) (l_gate l) with
       | Some g =>
           ({| l_sizing := l_sizing l; l_gate := g; l_windows := l_windows l;
               l_accounts := l_accounts l; l_sessions := l_sessions l; l_shared := l_shared l |},
            if bool_decide (g_callers g !! id = Some Turned) then Some ErrOverloaded else None)
       | None => (l, Some ErrOverloaded)
       end.

(** [InheritCounters]: a quiescent predecessor's counters move into an unused
    replacement with the same backend. [busy] is a failed [TryLock] of either
    lifecycle lock. Backends are compared by identity. *)
Definition InheritCounters (l previous : Limiter) (busy : bool) : Limiter * option admission_err :=
  if busy then (l, Some ErrNotQuiescent)
  else if negb (bool_decide (g_waiting (l_gate previous) = 0))
          || negb (bool_decide (g_waiting (l_gate l) = 0))
          || negb (bool_decide (g_free (l_gate previous) = concurrency (l_sizing previous)))
          || negb (bool_decide (g_free (l_gate l) = concurrency (l_sizing l)))
  then (l, Some ErrNotQuiescent)
  else if negb (bool_decide (size (ipHits (l_windows l)) = 0%nat))
          || negb (bool_decide (size (metaHits (l_windows l)) = 0%nat))
          || negb (bool_decide (size (issuerRefreshes (l_windows l)) = 0%nat))
          || negb (bool_decide (size (l_accounts l) = 0%nat))
          || negb (bool_decide (size (l_sessions l) = 0%nat))
  then (l, Some ErrCountersNotEmpty)
  else if bool_decide (is_Some (l_shared l)) && negb (bool_decide (l_shared l = l_shared previous))
  then (l, Some ErrSharedBackendChanged)
  else ({| l_sizing := l_sizing l; l_gate := l_gate l; l_windows := l_windows previous;
           l_accounts := l_accounts previous; l_sessions := l_sessions previous;
           l_shared := l_shared previous |}, None).

(** *** Runs of the limiter *)

Inductive limiter_op :=
| LEnter (id : nat) (order : windows → list string) (ip : string) (now : Z)
| LGate (a : gate_action)
| LDiscovery (order : windows → list string) (ip : string) (now : Z)
| LIssuerRefresh (order : windows → list string) (issuer : string) (now : Z)
| LFailure (order : accounts → list string) (key : string) (now : Z)
| LSuccess (key : string)
| LNote (order : sessions → list string) (key id : string) (now : Z)
| LForget (key : string).

Definition with_windows (l : Limiter) (w : Windows) : Limiter :=
  {| l_sizing := l_sizing l; l_gate := l_gate l; l_windows := w;
     l_accounts := l_accounts l; l_sessions := l_sessions l; l_shared := l_shared l |}.
Definition with_accounts (l : Limiter) (m : accounts) : Limiter :=
  {| l_sizing := l_sizing l; l_gate := l_gate l; l_windows := l_windows l;
     l_accounts := m; l_sessions := l_sessions l; l_shared := l_shared l |}.
Definition with_sessions (l : Limiter) (m : sessions) : Limiter :=
  {| l_sizing := l_sizing l; l_gate := l_gate l; l_windows := l_windows l;
     l_accounts := l_accounts l; l_sessions := m; l_shared := l_shared l |}.

Definition limiter_step (l : Limiter) (op : limiter_op) : Limiter :=
  match op with
  | LEnter id order ip now => (Enter l id order ip now).1
  | LGate a =>
      match gate_step a (l_gate l) with
      | Some g => {| l_sizing := l_sizing l; l_gate := g; l_windows := l_windows l;
                     l_accounts := l_accounts l; l_sessions := l_sessions l;
                     l_shared := l_shared l |}
      | None => l
      end
  | LDiscovery order ip now =>
      with_windows l (AdmitDiscovery (limits (l_sizing l)) order (l_windows l) ip now).1
  | LIssuerRefresh order issuer now =>
      with_windows l (AllowIssuerRefresh order (l_windows l) issuer now).1
  | LFailure order key now => with_accounts l (recordFailure order (l_accounts l) key now).1
  | LSuccess key => with_accounts l (recordSuccess (l_accounts l) key)
  | LNote order key id now => with_sessions l (NoteLiveSession order (l_sessions l) key id now)
  | LForget key => with_sessions l (ForgetSession (l_sessions l) key)
  end.

(** Every sweep's order is one a [range] can take. *)
Definition op_orders (op : limiter_op) : Prop :=
  match op with
  | LEnter _ order _ _ | LDiscovery order _ _ | LIssuerRefresh order _ _ => range_order order
  | LFailure order _ _ => accounts_order order
  | LNote order _ _ _ => sessions_order order
  | _ => True
  end.

Definition window_ok (b : windows) : Prop :=
  ("" ∉ dom b) ∧ (size b ≤ MaxTrackedSubjects)%nat.

Definition memory_ok (l : Limiter) : Prop :=
  window_ok (ipHits (l_windows l)) ∧ window_ok (metaHits (l_windows l)) ∧
  window_ok (issuerRefreshes (l_windows l)) ∧
  (size (l_accounts l) ≤ MaxTrackedSubjects)%nat ∧
  (size (l_sessions l) ≤ MaxTrackedSubjects)%nat.

Lemma allowIPIn_window_ok order b ip allowance now :
  range_order order → (0 < allowance)%nat → window_ok b →
  window_ok (allowIPIn order b ip allowance now).1.
Proof. intros Ho Ha [? ?]. by apply allowIPIn_tracked. Qed.

Lemma map_size_delete_le `{Countable K} {A} (m : gmap K A) k : (size (delete k m) ≤ size m)%nat.
Proof. apply map_subseteq_size, delete_subseteq. Qed.

Lemma limiter_step_ok l op :
  (0 < perIP (limits (l_sizing l)))%nat → (0 < discoveryPerIP (limits (l_sizing l)))%nat →
  op_orders op → memory_ok l →
  memory_ok (limiter_step l op) ∧ l_sizing (limiter_step l op) = l_sizing l.
Proof.
  intros Hp Hd Ho (Hi & Hm & Hr & Ha & Hs).
  destruct op as [id order ip now|a|order ip now|order iss now|order key now|key|order key id now|key];
    simpl in Ho |- *.
  - unfold Enter, allowIP.
    pose proof (allowIPIn_window_ok order (ipHits (l_windows l)) ip _ now Ho Hp Hi) as Hi'.
    destruct (allowIPIn _ _ _ _ _) as [b w]. simpl in Hi'.
    repeat case_match; simpl; done.
  - by case_match.
  - unfold AdmitDiscovery.
    pose proof (allowIPIn_window_ok order (metaHits (l_windows l)) ip _ now Ho Hd Hm) as Hi'.
    by destruct (allowIPIn _ _ _ _ _) as [b w].
  - unfold AllowIssuerRefresh.
    pose proof (allowIPIn_window_ok order (issuerRefreshes (l_windows l)) iss
      (Z.to_nat IssuerRefreshPerMinute) now Ho ltac:(unfold IssuerRefreshPerMinute; lia) Hr) as Hi'.
    by destruct (allowIPIn _ _ _ _ _) as [b w].
  - split; [|done]. repeat split; simpl; try done; try apply Hi; try apply Hm; try apply Hr.
    by apply recordFailure_bounded.
  - split; [|done]. repeat split; simpl; try done; try apply Hi; try apply Hm; try apply Hr.
    etrans; [apply map_size_delete_le|done].
  - split; [|done]. repeat split; simpl; try done; try apply Hi; try apply Hm; try apply Hr.
    by apply NoteLiveSession_bounded.
  - split; [|done]. repeat split; simpl; try done; try apply Hi; try apply Hm; try apply Hr.
    etrans; [apply map_size_delete_le|done].
Qed.

Lemma fresh_memory_ok s shared : memory_ok (fresh_limiter s shared).
Proof. repeat split; simpl; rewrite ?map_size_empty; set_solver by lia. Qed.

(** The throttle is not a memory-exhaustion vector. From a limiter that
    [New] built, whatever sequence of operations with whatever subjects, accounts
    and sessions, and whatever order the sweeps visit their maps in, each of the
    five maps keyed by presented values holds at most [MaxTrackedSubjects]
    entries at every point. *)
Theorem limiter_memory_bounded (cfg : Config) (s : sizing) (shared : option string)
    (ops : list limiter_op) :
  0 ≤ ArgonMemoryKiB cfg → New cfg = Ok s → Forall op_orders ops →
  memory_ok (foldl limiter_step (fresh_limiter s shared) ops).
Proof.
  intros Hk Hnew Hops. destruct (New_fits cfg s Hk Hnew) as (_ & _ & Hp & Hd).
  cut (∀ l, l_sizing l = s → memory_ok l → memory_ok (foldl limiter_step l ops)).
  { intros H. apply H; [done|apply fresh_memory_ok]. }
  induction Hops as [|op ops Ho _ IH]; intros l Hl Hok; simpl; [done|].
  destruct (limiter_step_ok l op) as [Hok' Hs']; rewrite ?Hl in *; try done.
  apply IH; [congruence|done].
Qed.

Lemma limiter_memory_bounded_witness :
  memory_ok (foldl limiter_step (fresh_limiter (Sizing 4 {| perIP := 10; discoveryPerIP := 60 |}) None)
    [LEnter 0 any_order "10.0.0.1" 1000; LGate (Take 0); LFailure accounts_any "k" 2000;
     LIssuerRefresh any_order "https://issuer" 3000]).
Proof.
  apply (limiter_memory_bounded demo_cfg); [done|vm_compute; reflexivity|].
  repeat (apply Forall_cons; split); try exact I; try apply Forall_nil; try apply any_order_range.
  intros m. unfold lists_keys. done. done.
Defined.

(** *** Generation handoff *)

Lemma InheritCounters_refused l previous busy l' e :
  InheritCounters l previous busy = (l', Some e) → l' = l.
Proof. unfold InheritCounters. repeat case_match; congruence. Qed.

(** A replacement generation inherits the abuse history. Once the old
    limiter's callers have run until none of them can move, a handoff to a fresh
    limiter (of any sizing, on the same or no preset backend) succeeds and
    carries every counter over, while capacity stays the replacement's; a handoff
    that is refused, for whatever reason, changes nothing. *)
Theorem handoff_keeps_history (previous : Limiter) (s : sizing) (shared : option string) :
  0 < concurrency (l_sizing previous) →
  gate_reachable (concurrency (l_sizing previous)) (l_gate previous) →
  (∀ a g, serves a = true → gate_step a (l_gate previous) ≠ Some g) →
  shared = None ∨ shared = l_shared previous →
  InheritCounters (fresh_limiter s shared) previous false =
    ({| l_sizing := s; l_gate := gate_init (concurrency s);
        l_windows := l_windows previous; l_accounts := l_accounts previous;
        l_sessions := l_sessions previous; l_shared := l_shared previous |}, None) ∧
  (∀ l busy l' e, InheritCounters l previous busy = (l', Some e) → l' = l).
Proof.
  intros Hc Hg Hstuck Hsh. split; [|intros *; apply InheritCounters_refused].
  pose proof (gate_reachable_ok _ _ (Z.lt_le_incl _ _ Hc) Hg) as Hok.
  destruct (gate_progress _ _ Hc Hok) as [[Hw Hf]|(a & g & Ha & Hs)];
    [|by destruct (Hstuck a g Ha)].
  unfold InheritCounters. rewrite !bool_decide_true by (try done; by rewrite map_size_empty).
  simpl. destruct Hsh as [->| ->]; [done|].
  rewrite (bool_decide_true (l_shared previous = _)) by done. by rewrite andb_false_r.
Qed.

Lemma handoff_keeps_history_witness :
  let previous := foldl limiter_step
    (fresh_limiter (Sizing 4 {| perIP := 10; discoveryPerIP := 60 |}) None)
    [LEnter 0 any_order "10.0.0.1" 1000; LGate (Take 0); LFailure accounts_any "k" 2000;
     LGate (Dequeue 0); LGate (ReleaseSlot 0)] in
  (InheritCounters (fresh_limiter (Sizing 8 {| perIP := 10; discoveryPerIP := 60 |}) None)
     previous false).2 = None ∧
  l_accounts (InheritCounters (fresh_limiter (Sizing 8 {| perIP := 10; discoveryPerIP := 60 |}) None)
     previous false).1 !! "k" = Some (Account 1 0).
Proof.
  intros previous.
  destruct (handoff_keeps_history previous (Sizing 8 {| perIP := 10; discoveryPerIP := 60 |}) None)
    as [-> _].
  - vm_compute. reflexivity.
  - apply (gate_run_reachable 4 [Enqueue 0; Take 0; Dequeue 0; ReleaseSlot 0] (gate_init 4));
      [apply gate_start|vm_compute; reflexivity].
  - replace (l_gate previous) with (Gate 4 0 {[ 0%nat := Finished ]}) by (vm_compute; reflexivity).
    intros [id|id|id|id|id] g Ha; try discriminate Ha; cbn; rewrite lookup_singleton;
      case_decide; discriminate.
  - by left.
  - split; vm_compute; reflexivity.
Defined.
