(* ===== verification/Bytes.v ===== *)
(** * Byte strings: what the sources use of Go's [strings] package

    Go strings are byte sequences; the text components (dotenv, parameters,
    compose, schema) are modelled on [list ascii] with these functions. *)

From stdpp Require Import prelude strings list.
From Stdlib Require Import Ascii NArith.
From S2P Require Import Prelude FreeText.

(** A literal of the source. *)
Definition lit (s : string) : bytes := String.list_ascii_of_string s.

Definition code (c : ascii) : N := N_of_ascii c.
Definition newline : ascii := ascii_of_N 10.
Definition cr : ascii := ascii_of_N 13.
Definition tab : ascii := ascii_of_N 9.
Definition nul : ascii := ascii_of_N 0.

(** [strings.TrimLeft] and [strings.TrimRight] with an ASCII cutset. *)
Fixpoint TrimLeft (cut : ascii → bool) (s : bytes) : bytes :=
  match s with
  | c :: t => if cut c then TrimLeft cut t else s
  | [] => []
  end.

Definition TrimRight (cut : ascii → bool) (s : bytes) : bytes :=
  reverse (TrimLeft cut (reverse s)).

(** [strings.Cut] at a byte, and [strings.IndexByte] as the prefix length. *)
Fixpoint CutByte (c : ascii) (s : bytes) : option (bytes * bytes) :=
  match s with
  | [] => None
  | d :: t =>
      if bool_decide (d = c) then Some ([], t)
      else match CutByte c t with Some (x, y) => Some (d :: x, y) | None => None end
  end.

(** [strings.Split(s, "\n")]: never empty. *)
Fixpoint Split (sep : ascii) (s : bytes) : list bytes :=
  match s with
  | [] => [[]]
  | c :: t =>
      if bool_decide (c = sep) then [] :: Split sep t
      else match Split sep t with l :: ls => (c :: l) :: ls | [] => [[c]] end
  end.

(** ** [strings.TrimSpace]

    The encodings of the runes [unicode.IsSpace] accepts. *)
Definition space_runes : list bytes :=
  map (map ascii_of_N)
  [[9]; [10]; [11]; [12]; [13]; [32]; [194; 133]; [194; 160]; [225; 154; 128];
   [226; 128; 128]; [226; 128; 129]; [226; 128; 130]; [226; 128; 131]; [226; 128; 132];
   [226; 128; 133]; [226; 128; 134]; [226; 128; 135]; [226; 128; 136]; [226; 128; 137];
   [226; 128; 138]; [226; 128; 168]; [226; 128; 169]; [226; 128; 175]; [226; 129; 159];
   [227; 128; 128]]%N.

Fixpoint strip (pre s : bytes) : option bytes :=
  match pre, s with
  | [], _ => Some s
  | p :: pre, c :: s => if bool_decide (p = c) then strip pre s else None
  | _ :: _, [] => None
  end.

(** Drop leading space runes; each pass drops at least one byte. *)
Fixpoint trim_runes (fuel : nat) (runes : list bytes) (s : bytes) : bytes :=
  match fuel with
  | O => s
  | S fuel =>
      match head (omap (λ r, strip r s) runes) with
      | Some rest => trim_runes fuel runes rest
      | None => s
      end
  end.

(** From the right the runes are matched backwards: a space rune ends in its
    own encoding, and [utf8.DecodeLastRuneInString] finds exactly that. *)
Definition TrimSpace (s : bytes) : bytes :=
  let s := trim_runes (length s) space_runes s in
  reverse (trim_runes (length s) (map (@reverse ascii) space_runes) (reverse s)).

(** ** Lemmas *)

Lemma TrimLeft_id cut c t : cut c = false → TrimLeft cut (c :: t) = c :: t.
Proof. intros H. simpl. by rewrite H. Qed.

Lemma TrimLeft_nil cut : TrimLeft cut [] = [].
Proof. done. Qed.

Lemma TrimRight_snoc cut s c : cut c = false → TrimRight cut (s ++ [c]) = s ++ [c].
Proof.
  intros H. unfold TrimRight. rewrite reverse_snoc. rewrite TrimLeft_id by done.
  by rewrite reverse_cons, reverse_involutive.
Qed.

Lemma TrimRight_nil cut : TrimRight cut [] = [].
Proof. done. Qed.

Lemma TrimRight_last cut s :
  match last s with Some c => cut c = false | None => True end → TrimRight cut s = s.
Proof.
  destruct s as [|c s _] using rev_ind; [done|]. rewrite last_snoc. apply TrimRight_snoc.
Qed.

Lemma CutByte_app c x y : (c ∉ x) → CutByte c (x ++ c :: y) = Some (x, y).
Proof.
  induction x as [|d x IH]; intros Hn; simpl.
  - by rewrite bool_decide_true.
  - apply not_elem_of_cons in Hn as [Hd Hn].
    rewrite bool_decide_false by congruence. by rewrite IH.
Qed.

Lemma CutByte_Some c s x y : CutByte c s = Some (x, y) → s = x ++ c :: y ∧ (c ∉ x).
Proof.
  revert x y. induction s as [|d s IH]; intros x y Hc; simpl in Hc; [done|].
  case_bool_decide as E; simplify_eq.
  { split; [done|apply not_elem_of_nil]. }
  destruct (CutByte c s) as [[x' y']|]; simplify_eq.
  destruct (IH _ _ eq_refl) as [-> Hn]. split; [done|].
  apply not_elem_of_cons. split; congruence.
Qed.

Lemma CutByte_None c s : CutByte c s = None ↔ (c ∉ s).
Proof.
  induction s as [|d s IH]; simpl; [split; [intros _; apply not_elem_of_nil|done]|].
  rewrite not_elem_of_cons. case_bool_decide as E.
  - split; [done|]. intros [? _]. congruence.
  - destruct (CutByte c s) as [[x y]|] eqn:Ec.
    + split; [done|]. intros [_ Hn]. by apply IH in Hn.
    + split; [|done]. intros _. split; [congruence|by apply IH].
Qed.

Lemma Split_line sep line rest :
  (sep ∉ line) → Split sep (line ++ sep :: rest) = line :: Split sep rest.
Proof.
  induction line as [|c line IH]; intros Hn; simpl.
  - by rewrite bool_decide_true.
  - apply not_elem_of_cons in Hn as [Hc Hn].
    rewrite bool_decide_false by congruence. by rewrite IH.
Qed.

Lemma Split_lines sep lines :
  Forall (λ l, sep ∉ l) lines →
  Split sep (concat (map (λ l, l ++ [sep]) lines)) = lines ++ [[]].
Proof.
  induction 1 as [|l lines Hl _ IH]; [done|]. simpl.
  rewrite <- app_assoc. simpl. rewrite Split_line by done. by rewrite IH.
Qed.


(** *** [TrimSpace] fixpoints have no one-byte space at either end *)

Lemma strip_Some pre s rest : strip pre s = Some rest ↔ s = pre ++ rest.
Proof.
  revert s. induction pre as [|p pre IH]; intros s; simpl.
  { split; congruence. }
  destruct s as [|c s]; [split; done|]. case_bool_decide as E; subst.
  - rewrite IH. split; [by intros ->|congruence].
  - split; [done|congruence].
Qed.

Lemma trim_runes_suffix fuel runes s : ∃ p, s = p ++ trim_runes fuel runes s.
Proof.
  revert s. induction fuel as [|fuel IH]; intros s; simpl; [by exists []|].
  destruct (head _) as [rest|] eqn:E; [|by exists []].
  apply head_Some_elem_of, list_elem_of_omap in E as (r & _ & ->%strip_Some).
  destruct (IH rest) as [p Hp]. exists (r ++ p). rewrite <- app_assoc. by f_equal.
Qed.

Lemma trim_runes_length fuel runes s : length (trim_runes fuel runes s) ≤ length s.
Proof. destruct (trim_runes_suffix fuel runes s) as [p Hp]. rewrite Hp at 2. rewrite length_app. lia. Qed.

Lemma trim_runes_full fuel runes s :
  length s ≤ length (trim_runes fuel runes s) → trim_runes fuel runes s = s.
Proof.
  destruct (trim_runes_suffix fuel runes s) as [p Hp]. intros Hl.
  rewrite Hp in Hl at 1. rewrite length_app in Hl.
  destruct p; [by rewrite Hp at 2|simpl in Hl; lia].
Qed.

(** A one-byte rune at the head is dropped. *)
Lemma trim_runes_head fuel runes c t :
  [c] ∈ runes → Forall (λ r, r ≠ []) runes → trim_runes (S fuel) runes (c :: t) ≠ c :: t.
Proof.
  intros Hc Hne. cbn [trim_runes].
  destruct (head (omap (λ r, strip r (c :: t)) runes)) as [rest|] eqn:E.
  - apply head_Some_elem_of, list_elem_of_omap in E as (r & Hr & Hs%strip_Some).
    rewrite Forall_forall in Hne. intros Heq. apply (Hne r Hr).
    pose proof (trim_runes_length fuel runes rest) as Hlen. rewrite Heq, Hs, length_app in Hlen.
    destruct r; [done|simpl in Hlen; lia].
  - exfalso. apply head_None in E.
    assert (t ∈ omap (λ r, strip r (c :: t)) runes) as Hin.
    { apply list_elem_of_omap. exists [c]. split; [done|]. by apply strip_Some. }
    rewrite E in Hin. by apply elem_of_nil in Hin.
Qed.

Definition one_byte_space (c : ascii) : bool := bool_decide ([c] ∈ space_runes).

Lemma TrimSpace_ends s :
  TrimSpace s = s →
  match s with c :: _ => one_byte_space c = false | [] => True end ∧
  match last s with Some c => one_byte_space c = false | None => True end.
Proof.
  assert (Forall (λ r, r ≠ []) space_runes) as Hne by (unfold space_runes; repeat constructor; done).
  assert (Forall (λ r, r ≠ []) (map (@reverse ascii) space_runes)) as Hne'.
  { apply Forall_fmap. eapply Forall_impl; [done|]. simpl. intros r Hr E.
    apply Hr. by apply (f_equal reverse) in E; rewrite reverse_involutive in E. }
  unfold TrimSpace. intros E.
  assert (trim_runes (length s) space_runes s = s) as El.
  { apply trim_runes_full. rewrite <- E at 1. rewrite length_reverse.
    etrans; [apply trim_runes_length|]. by rewrite length_reverse. }
  rewrite El in E. split.
  - destruct s as [|c t]; [done|]. apply bool_decide_eq_false. intros Hc.
    by apply (trim_runes_head (length t) space_runes c t).
  - destruct s as [|c t _] using rev_ind; [done|]. rewrite last_snoc.
    apply bool_decide_eq_false. intros Hc. apply (f_equal reverse) in E.
    rewrite reverse_involutive, reverse_snoc, length_app, Nat.add_comm in E.
    eapply (trim_runes_head _ (map reverse space_runes) c); [|done|exact E].
    apply list_elem_of_fmap. by exists [c].
Qed.
