(* ===== verification/Dotenv.v ===== *)
(** * Dotenv documents: [internal/dotenv/dotenv.go]

    [Parse] reads an operator's [.env] file line by line, [Encode] writes one
    back. The key grammar is [schema.CheckKeyName]. Errors carry the source's
    line number and cause. *)

From stdpp Require Import prelude strings list.
From Stdlib Require Import Ascii NArith.
From S2P Require Import Prelude FreeText Bytes.

(** ** Key names ([internal/schema/schema.go]) *)

Definition MaxKeyNameBytes : nat := 128.

Definition key_head (c : ascii) : bool := in_range 65 90 c || bool_decide (c = "_"%char).
Definition key_char (c : ascii) : bool := key_head c || in_range 48 57 c.

Inductive key_err := KeyEmpty | KeyTooLong | KeyGrammar (name : bytes).

(** [keyNameRe]: [\A[A-Z_][A-Z0-9_]*\z]. *)
Definition keyNameRe (name : bytes) : bool :=
  match name with c :: t => key_head c && forallb key_char t | [] => false end.

Definition CheckKeyName (name : bytes) : result key_err unit :=
  if bool_decide (name = []) then Err KeyEmpty
  else if bool_decide (MaxKeyNameBytes < length name) then Err KeyTooLong
  else if negb (keyNameRe name) then Err (KeyGrammar name)
  else Ok tt.

(** ** Parsing *)

Record Entry := { Key : bytes; Value : bytes }.

Inductive value_err :=
| UnterminatedSingle
| UnterminatedDouble
| DanglingBackslash
| UnknownEscape (c : ascii)
| TrailingContent.

Inductive parse_err :=
| NotAssignment (line : nat) (text : bytes)
| BadKey (line : nat) (e : key_err)
| DuplicateKey (line : nat) (key : bytes)
| BadValue (line : nat) (key : bytes) (e : value_err).

Definition blank (c : ascii) : bool := bool_decide (c = " "%char) || bool_decide (c = tab).
Definition dquote : ascii := ascii_of_N 34.
Definition squote : ascii := ascii_of_N 39.
Definition backslash : ascii := ascii_of_N 92.

Definition cutExportPrefix (s : bytes) : option bytes :=
  match strip (lit "export") s with
  | Some (c :: rest) => if blank c then Some (TrimLeft blank (c :: rest)) else None
  | _ => None
  end.

Definition onlyTrailingBlank (s : bytes) : result value_err unit :=
  if bool_decide (TrimLeft blank s = []) then Ok tt else Err TrailingContent.

Definition parseSingleQuoted (body : bytes) : result value_err bytes :=
  match CutByte squote body with
  | None => Err UnterminatedSingle
  | Some (v, rest) => let! _ := onlyTrailingBlank rest in Ok v
  end.

(** The byte an escape stands for. *)
Definition unescape (c : ascii) : option ascii :=
  if bool_decide (c = "n"%char) then Some newline
  else if bool_decide (c = "r"%char) then Some cr
  else if bool_decide (c = "t"%char) then Some tab
  else if bool_decide (c = backslash) then Some backslash
  else if bool_decide (c = dquote) then Some dquote
  else if bool_decide (c = squote) then Some squote
  else None.

(** The loop of [parseDoubleQuoted]; [out] is the builder's contents. *)
Fixpoint parseDoubleQuoted (v out : bytes) : result value_err bytes :=
  match v with
  | [] => Err UnterminatedDouble
  | c :: rest =>
      if bool_decide (c = dquote) then let! _ := onlyTrailingBlank rest in Ok out
      else if bool_decide (c = backslash) then
        match rest with
        | [] => Err DanglingBackslash
        | e :: rest =>
            match unescape e with
            | Some d => parseDoubleQuoted rest (out ++ [d])
            | None => Err (UnknownEscape e)
            end
        end
      else parseDoubleQuoted rest (out ++ [c])
  end.

Definition parseValue (v : bytes) : result value_err bytes :=
  match v with
  | [] => Ok []
  | c :: rest =>
      if bool_decide (c = dquote) then parseDoubleQuoted rest []
      else if bool_decide (c = squote) then parseSingleQuoted rest
      else Ok (TrimRight blank v)
  end.

(** One line: skipped, refused, or an entry. *)
Definition parse_line (n : nat) (raw : bytes) (seen : list bytes) :
    result parse_err (option Entry) :=
  let line := TrimRight (λ c, bool_decide (c = cr)) raw in
  let trimmed := TrimLeft blank line in
  if bool_decide (trimmed = []) || bool_decide (head trimmed = Some "#"%char) then Ok None
  else
    let trimmed := default trimmed (cutExportPrefix trimmed) in
    match CutByte "="%char trimmed with
    | None => Err (NotAssignment n line)
    | Some (lhs, rhs) =>
        let key := TrimRight blank lhs in
        match CheckKeyName key with
        | Err e => Err (BadKey n e)
        | Ok _ =>
            if bool_decide (key ∈ seen) then Err (DuplicateKey n key)
            else match parseValue (TrimLeft blank rhs) with
                 | Err e => Err (BadValue n key e)
                 | Ok v => Ok (Some {| Key := key; Value := v |})
                 end
        end
    end.

Fixpoint parse_lines (n : nat) (lines : list bytes) (seen : list bytes) :
    result parse_err (list Entry) :=
  match lines with
  | [] => Ok []
  | raw :: lines =>
      let! r := parse_line n raw seen in
      match r with
      | None => parse_lines (S n) lines seen
      | Some e => let! es := parse_lines (S n) lines (Key e :: seen) in Ok (e :: es)
      end
  end.

Definition Parse (data : bytes) : result parse_err (list Entry) :=
  parse_lines 1 (Split newline data) [].

(** ** Encoding *)

Record Refusal := { r_key : bytes; r_reason : string }.

(** The bytes a bare value may not carry. *)
Definition quoted_byte (c : ascii) : bool :=
  bool_decide (c = "#"%char) || bool_decide (c = backslash) || bool_decide (c = dquote)
  || bool_decide (c = newline) || bool_decide (c = cr) || bool_decide (c = tab)
  || (code c <? 32)%N || (code c =? 127)%N.

Definition needsQuoting (v : bytes) : bool :=
  match v with
  | [] => false
  | c :: _ =>
      negb (bool_decide (v = TrimSpace v))
      || bool_decide (c = dquote) || bool_decide (c = squote)
      || existsb quoted_byte v
  end.

Definition escape (c : ascii) : bytes :=
  if bool_decide (c = backslash) then [backslash; backslash]
  else if bool_decide (c = dquote) then [backslash; dquote]
  else if bool_decide (c = newline) then [backslash; "n"%char]
  else if bool_decide (c = cr) then [backslash; "r"%char]
  else if bool_decide (c = tab) then [backslash; "t"%char]
  else [c].

Definition encode_value (v : bytes) : bytes :=
  if needsQuoting v then dquote :: flat_map escape v ++ [dquote] else v.

(** The entries [Encode] cannot represent, in order. *)
Definition encode_refusals (entries : list Entry) : list Refusal :=
  omap (λ e, match CheckKeyName (Key e) with
             | Err _ => Some {| r_key := Key e; r_reason := "invalid name" |}
             | Ok _ => if bool_decide (nul ∈ Value e)
                       then Some {| r_key := Key e; r_reason := "NUL byte" |} else None
             end) entries.

Definition encode_line (e : Entry) : bytes := Key e ++ "="%char :: encode_value (Value e).

Definition Encode (entries : list Entry) : result (list Refusal) bytes :=
  match encode_refusals entries with
  | [] => Ok (concat (map (λ e, encode_line e ++ [newline]) entries))
  | rs => Err rs
  end.

(** ** Facts on characters *)

Lemma key_char_facts c :
  key_char c = true →
  c ≠ "="%char ∧ c ≠ newline ∧ c ≠ cr ∧ blank c = false ∧ c ≠ "#"%char ∧ c ≠ "e"%char.
Proof. destruct c as [[] [] [] [] [] [] [] []]; vm_compute; intuition discriminate. Qed.

Lemma blank_space c : one_byte_space c = false → blank c = false ∧ c ≠ cr.
Proof. destruct c as [[] [] [] [] [] [] [] []]; vm_compute; intuition discriminate. Qed.

Lemma unescape_escape c :
  (∃ e, escape c = [backslash; e] ∧ unescape e = Some c) ∨
  (escape c = [c] ∧ c ≠ dquote ∧ c ≠ backslash).
Proof.
  unfold escape. repeat case_bool_decide; subst;
    try (left; eexists; split; [reflexivity|reflexivity]). by right.
Qed.

Lemma escape_no_newline c : newline ∉ escape c.
Proof.
  apply (bool_decide_eq_false_1 _). by destruct c as [[] [] [] [] [] [] [] []]; vm_compute.
Qed.

Lemma CheckKeyName_Ok name u :
  CheckKeyName name = Ok u →
  Forall (λ c, key_char c = true) name ∧
  (∃ c t, name = c :: t ∧ key_char c = true) ∧ (∃ t c, name = t ++ [c] ∧ key_char c = true).
Proof.
  unfold CheckKeyName. repeat case_match; try done. intros _. bsimp.
  destruct name as [|c t]; [done|]. simpl in *. bsimp.
  match goal with H : key_head c = true ∧ _ |- _ => destruct H as [Hh Ht] end.
  assert (key_char c = true) as Hc by (unfold key_char; by rewrite Hh).
  rewrite forallb_true in Ht.
  assert (Forall (λ c, key_char c = true) (c :: t)) as Hall.
  { constructor; [done|]. apply Forall_forall. intros x Hx. by apply Ht. }
  split; [done|]. split; [eauto|].
  destruct (exists_last (l := c :: t) ltac:(done)) as (t' & d & E). exists t', d.
  split; [done|]. rewrite E in Hall. apply Forall_app in Hall as [_ Hd].
  by apply Forall_cons in Hd as [? _].
Qed.

#[local] Opaque TrimSpace one_byte_space.

(** ** Values survive *)

Lemma parseDoubleQuoted_escape v out :
  parseDoubleQuoted (flat_map escape v ++ [dquote]) out = Ok (out ++ v).
Proof.
  revert out. induction v as [|c v IH]; intros out; simpl; [by rewrite app_nil_r|].
  destruct (unescape_escape c) as [(e & E & He)|(E & Hd & Hb)]; rewrite E; simpl.
  - rewrite He. rewrite IH. by rewrite <- app_assoc.
  - rewrite !bool_decide_false by done. rewrite IH. by rewrite <- app_assoc.
Qed.

(** A bare value: no blank at its ends, no quote first, no line break. *)
Lemma bare_value c t :
  needsQuoting (c :: t) = false →
  blank c = false ∧ c ≠ dquote ∧ c ≠ squote ∧ c ≠ cr ∧
  match last (c :: t) with Some d => blank d = false ∧ d ≠ cr | None => False end ∧
  (newline ∉ c :: t).
Proof.
  intros H. unfold needsQuoting in H.
  apply orb_false_iff in H as [H Hall]. apply orb_false_iff in H as [H Hs].
  apply orb_false_iff in H as [Ht Hd]. apply bool_decide_eq_false in Hd, Hs.
  apply negb_false_iff, bool_decide_eq_true in Ht. symmetry in Ht. apply TrimSpace_ends in Ht as [Hh Hl].
  destruct (blank_space c Hh) as [Hb Hc].
  split; [done|]. split; [done|]. split; [done|]. split; [done|]. split.
  - destruct (last (c :: t)) as [d|] eqn:E; [by apply blank_space|].
    by apply last_None in E.
  - intros Hin. rewrite existsb_false in Hall. specialize (Hall newline Hin).
    assert (quoted_byte newline = true) by reflexivity. congruence.
Qed.

Lemma parseValue_encode v : parseValue (TrimLeft blank (encode_value v)) = Ok v.
Proof.
  unfold encode_value. destruct (needsQuoting v) eqn:E.
  - rewrite TrimLeft_id by done. simpl. by rewrite parseDoubleQuoted_escape.
  - destruct v as [|c t]; [done|].
    destruct (bare_value c t E) as (Hb & Hd & Hs & _ & Hl & _).
    rewrite TrimLeft_id by done. unfold parseValue.
    rewrite !bool_decide_false by done. f_equal. apply TrimRight_last.
    destruct (last (c :: t)); [tauto|done].
Qed.

Lemma encode_value_no_newline v : newline ∉ encode_value v.
Proof.
  unfold encode_value. destruct (needsQuoting v) eqn:E.
  - rewrite not_elem_of_cons, not_elem_of_app. split; [done|].
    split; [|by intros ?%list_elem_of_singleton].
    intros (c & Hc & Hin)%list_elem_of_In%in_flat_map. apply list_elem_of_In in Hin.
    by apply escape_no_newline in Hin.
  - destruct v as [|c t]; [apply not_elem_of_nil|].
    by apply bare_value in E as (_ & _ & _ & _ & _ & ?).
Qed.

Lemma encode_value_last v x :
  x ≠ cr → match last (x :: encode_value v) with Some d => d ≠ cr | None => True end.
Proof.
  intros Hx. unfold encode_value. destruct (needsQuoting v) eqn:E.
  - change (x :: dquote :: flat_map escape v ++ [dquote]) with
      ((x :: dquote :: flat_map escape v) ++ [dquote]). by rewrite last_snoc.
  - destruct v as [|c t]; [done|]. apply bare_value in E as (_ & _ & _ & _ & Hl & _).
    change (last (x :: c :: t)) with (last (c :: t)).
    destruct (last (c :: t)); [tauto|done].
Qed.

(** ** Lines survive *)

Lemma TrimRight_cr_line k v :
  Forall (λ c, key_char c = true) k →
  TrimRight (λ c, bool_decide (c = cr)) (k ++ "="%char :: encode_value v)
    = k ++ "="%char :: encode_value v.
Proof.
  intros Hk. apply TrimRight_last. rewrite last_app_cons.
  pose proof (encode_value_last v "="%char ltac:(done)) as Hl.
  destruct (last ("="%char :: encode_value v)); [by rewrite bool_decide_false|done].
Qed.

Lemma parse_line_encode n e seen u :
  CheckKeyName (Key e) = Ok u →
  parse_line n (encode_line e) seen =
    if bool_decide (Key e ∈ seen) then Err (DuplicateKey n (Key e)) else Ok (Some e).
Proof.
  intros Hk. pose proof (CheckKeyName_Ok _ _ Hk) as (Hall & (c & t & Ek & Hc) & (t' & d & Ed & Hd)).
  unfold parse_line, encode_line. rewrite TrimRight_cr_line by done.
  assert (TrimLeft blank (Key e ++ "="%char :: encode_value (Value e))
    = Key e ++ "="%char :: encode_value (Value e)) as ->.
  { rewrite Ek. apply TrimLeft_id. by apply key_char_facts in Hc as (_ & _ & _ & ? & _). }
  assert (head (Key e ++ "="%char :: encode_value (Value e)) = Some c) as ->
    by (by rewrite Ek).
  rewrite (bool_decide_false (_ = [])) by (by rewrite Ek).
  rewrite (bool_decide_false (Some c = _)) by (apply key_char_facts in Hc; naive_solver). simpl.
  assert (cutExportPrefix (Key e ++ "="%char :: encode_value (Value e)) = None) as ->.
  { rewrite Ek. unfold cutExportPrefix. simpl. rewrite bool_decide_false; [done|].
    apply key_char_facts in Hc. naive_solver. }
  simpl. rewrite CutByte_app.
  2:{ intros Hin. rewrite Forall_forall in Hall. apply Hall, key_char_facts in Hin. naive_solver. }
  assert (TrimRight blank (Key e) = Key e) as ->.
  { rewrite Ed. apply TrimRight_snoc. by apply key_char_facts in Hd as (_ & _ & _ & ? & _). }
  rewrite Hk, parseValue_encode. by destruct e.
Qed.

Lemma encode_line_no_newline e u :
  CheckKeyName (Key e) = Ok u → newline ∉ encode_line e.
Proof.
  intros (Hall & _)%CheckKeyName_Ok. unfold encode_line.
  rewrite not_elem_of_app, not_elem_of_cons. split; [|split; [done|apply encode_value_no_newline]].
  intros Hin. rewrite Forall_forall in Hall. apply Hall, key_char_facts in Hin. naive_solver.
Qed.

Lemma encode_refusals_nil entries :
  encode_refusals entries = [] ↔
  Forall (λ e, CheckKeyName (Key e) = Ok tt ∧ (nul ∉ Value e)) entries.
Proof.
  induction entries as [|e entries IH]; [done|]. simpl. rewrite Forall_cons.
  destruct (CheckKeyName (Key e)) as [[]|k]; simpl.
  - case_bool_decide; simpl; [|rewrite IH; tauto]. split; [done|tauto].
  - split; [done|]. by intros [[? _] _].
Qed.

Lemma parse_lines_encode entries : ∀ n seen,
  Forall (λ e, CheckKeyName (Key e) = Ok tt) entries →
  NoDup (map Key entries ++ seen) →
  parse_lines n (map encode_line entries ++ [[]]) seen = Ok entries.
Proof.
  induction entries as [|e entries IH]; intros n seen Hk Hnd; simpl; [done|].
  apply Forall_cons in Hk as [He Hk]. apply NoDup_cons in Hnd as [Hni Hnd].
  rewrite (parse_line_encode n e seen tt He).
  rewrite bool_decide_false by (intros Hin; apply Hni, elem_of_app; by right). simpl.
  rewrite IH; [done|done|]. apply NoDup_app in Hnd as (Hnd1 & Hdis & Hnd2).
  apply NoDup_app. split; [done|]. split.
  - intros x Hx. rewrite not_elem_of_cons. split; [|by apply Hdis].
    intros ->. apply Hni, elem_of_app. by left.
  - apply NoDup_cons. split; [|done]. intros Hin. apply Hni, elem_of_app. by right.
Qed.

Lemma Encode_Ok entries data :
  Encode entries = Ok data →
  Forall (λ e, CheckKeyName (Key e) = Ok tt) entries ∧
  Split newline data = map encode_line entries ++ [[]].
Proof.
  unfold Encode. destruct (encode_refusals entries) as [|? ?] eqn:E; [|done].
  apply encode_refusals_nil in E. intros [= <-].
  assert (Forall (λ e, CheckKeyName (Key e) = Ok tt) entries) as Hk
    by (eapply Forall_impl; [done|]; simpl; tauto).
  split; [done|]. rewrite <- (map_map encode_line (λ l, l ++ [newline])).
  apply Split_lines. apply Forall_fmap. eapply Forall_impl; [done|]. simpl. intros e He.
  by eapply encode_line_no_newline.
Qed.

(** ** What a parsed document looks like *)

Lemma parse_line_entry n raw seen e :
  parse_line n raw seen = Ok (Some e) → CheckKeyName (Key e) = Ok tt ∧ (Key e ∉ seen).
Proof.
  unfold parse_line. repeat case_match; try done; intros [= <-]; simpl; bsimp;
    match goal with u : unit |- _ => destruct u end; done.
Qed.

Lemma parse_lines_entries lines : ∀ n seen es,
  parse_lines n lines seen = Ok es →
  Forall (λ e, CheckKeyName (Key e) = Ok tt) es ∧ NoDup (map Key es) ∧
  Forall (λ e, Key e ∉ seen) es.
Proof.
  induction lines as [|raw lines IH]; intros n seen es; simpl.
  { intros [= <-]. repeat constructor. }
  intros (r & Hr & Hrest)%rbind_Ok. destruct r as [e|]; [|by eapply IH].
  apply parse_line_entry in Hr as [He Hns].
  apply rbind_Ok in Hrest as (es' & Hes & [= <-]).
  apply IH in Hes as (Hk & Hnd & Hni). split; [by constructor|]. split.
  - simpl. apply NoDup_cons. split; [|done].
    intros (e' & Ee & Hin)%list_elem_of_fmap. rewrite Forall_forall in Hni.
    apply (Hni e' Hin). rewrite <- Ee. by left.
  - constructor; [done|]. eapply Forall_impl; [done|]. simpl. intros e' Hn Hin. apply Hn. by right.
Qed.

(** C35 Encoding round-trips. Whatever entries [Encode] accepts, with pairwise
    distinct keys and any value bytes (quotes, backslashes, line breaks, blanks
    at either end, a leading hash), [Parse] reads the document back to exactly
    those entries, in order. And the entries of any document that parses, once
    free of NUL bytes, are always accepted by [Encode] and read back unchanged. *)
Theorem dotenv_round_trip (entries : list Entry) :
  (∀ data, Encode entries = Ok data → NoDup (map Key entries) → Parse data = Ok entries) ∧
  (∀ data, Parse data = Ok entries → Forall (λ e, nul ∉ Value e) entries →
     ∃ data', Encode entries = Ok data' ∧ Parse data' = Ok entries).
Proof.
  assert (∀ data, Encode entries = Ok data → NoDup (map Key entries) → Parse data = Ok entries)
    as Hrt.
  { intros data (Hk & Hs)%Encode_Ok Hnd. unfold Parse. rewrite Hs.
    apply parse_lines_encode; [done|]. by rewrite app_nil_r. }
  split; [done|]. intros data Hp Hnul. unfold Parse in Hp.
  apply parse_lines_entries in Hp as (Hk & Hnd & _).
  assert (encode_refusals entries = []) as Hr.
  { apply encode_refusals_nil. apply Forall_forall. rewrite Forall_forall in Hk, Hnul. auto. }
  eexists. split; [unfold Encode; by rewrite Hr|].
  apply Hrt; [unfold Encode; by rewrite Hr|done].
Qed.

Definition dotenv_demo : list Entry :=
  [{| Key := lit "A"; Value := lit " x#y " |}; {| Key := lit "B_2"; Value := lit "plain" |};
   {| Key := lit "C"; Value := [newline; dquote; backslash] |}].

Lemma dotenv_round_trip_witness :
  Encode dotenv_demo = Ok (lit "A=" ++ [dquote] ++ lit " x#y " ++ [dquote; newline]
    ++ lit "B_2=plain" ++ [newline] ++ lit "C=" ++ [dquote; backslash; "n"%char; backslash; dquote;
       backslash; backslash; dquote; newline]) ∧
  from_option (λ d, Parse d = Ok dotenv_demo) False
    (match Encode dotenv_demo with Ok d => Some d | Err _ => None end).
Proof.
  split; [vm_compute; reflexivity|].
  destruct (Encode dotenv_demo) as [d|] eqn:E; [|by vm_compute in E]. simpl.
  apply (dotenv_round_trip dotenv_demo); [exact E|].
  apply (bool_decide_eq_true_1 _). vm_compute. reflexivity.
Defined.

(** [Encode] does not look for repeated keys: a list that repeats one encodes to
    a document [Parse] refuses, naming the key. *)
Lemma Encode_repeated_key e u :
  CheckKeyName (Key e) = Ok u → (nul ∉ Value e) →
  ∃ data, Encode [e; e] = Ok data ∧ Parse data = Err (DuplicateKey 2 (Key e)).
Proof.
  intros Hk Hn. destruct u.
  assert (encode_refusals [e; e] = []) as Hr by (apply encode_refusals_nil; repeat constructor; done).
  assert (∃ data, Encode [e; e] = Ok data) as [data Hd] by (unfold Encode; rewrite Hr; eauto).
  exists data. split; [done|]. apply Encode_Ok in Hd as (_ & Hs). unfold Parse. rewrite Hs.
  simpl. rewrite (parse_line_encode 1 e [] tt Hk). simpl.
  rewrite (parse_line_encode 2 e [Key e] tt Hk). by rewrite bool_decide_true by left.
Qed.
