(* ===== verification/Parameters.v ===== *)
(** * Parameter substitution: [internal/parameters/parameters.go]

    Config values may refer to parameters as [${NAME}]; [$${] stands for a
    literal [${]. [transform] is the single pass [References] and [Resolve]
    share. Its fuel is the length of the value: every iteration consumes at
    least two bytes ([transform_fuel]), so [OutOfFuel] never happens. The regular
    expression engine is a parameter of the validation half. *)

From stdpp Require Import prelude gmap strings list sorting.
From Stdlib Require Import Ascii NArith.
From S2P Require Import Prelude FreeText Bytes.

Definition MaxCount : nat := 32.
Definition MaxValueBytes : nat := 256.
Definition MaxPatternBytes : nat := 512.

(** [namePattern]: [^[A-Z][A-Z0-9_]{0,63}$]. *)
Definition upper (c : ascii) : bool := in_range 65 90 c.
Definition name_char (c : ascii) : bool :=
  upper c || in_range 48 57 c || bool_decide (c = "_"%char).
Definition namePattern (s : bytes) : bool :=
  match s with
  | c :: t => upper c && forallb name_char t && Nat.leb (length t) 63
  | [] => false
  end.

Abbreviation values := (gmap (list ascii) (list ascii)).

Inductive param_err :=
| InvalidReference
| MissingParameter (name : bytes)
| ResolvedTooLong (max : Z)
| UndeclaredParameter (name : bytes)
| BadName (name : bytes)
| BadPattern (name : bytes)
| TooManyParameters
| BadSuppliedValue (name : bytes)
| NoMatch (name : bytes)
| OutOfFuel.

(** ** The substitution pass *)

Definition dollar : ascii := "$"%char.
Definition lbrace : ascii := "{"%char.
Definition rbrace : ascii := "}"%char.

(** [strings.Index(value, "${")], as the text before it and the text after it. *)
Fixpoint find_ref (value : bytes) : option (bytes * bytes) :=
  match value with
  | [] => None
  | c :: t =>
      match bool_decide (c = dollar), t with
      | true, d :: rest =>
          if bool_decide (d = lbrace) then Some ([], rest)
          else match find_ref t with Some (x, y) => Some (c :: x, y) | None => None end
      | _, _ => match find_ref t with Some (x, y) => Some (c :: x, y) | None => None end
      end
  end.

(** [value[index-1] == '$'] and the text without that byte. *)
Definition escaped_prefix (before : bytes) : option bytes :=
  match last before with
  | Some c => if bool_decide (c = dollar) then Some (take (length before - 1) before) else None
  | None => None
  end.

Definition over (maxBytes : Z) (out : bytes) : bool :=
  bool_decide (0 ≤ maxBytes)%Z && bool_decide (maxBytes < Z.of_nat (length out))%Z.

(** [transform]; [St] is what the replacement closure captures. *)
Fixpoint transform {St} (fuel : nat) (replacement : St → bytes → St * result param_err bytes)
    (maxBytes : Z) (st : St) (value out : bytes) : St * result param_err bytes :=
  let finish out := if over maxBytes out then Err (ResolvedTooLong maxBytes) else Ok out in
  match value with
  | [] => (st, finish out)
  | _ =>
      match fuel with
      | O => (st, Err OutOfFuel)
      | S fuel =>
          match find_ref value with
          | None => (st, finish (out ++ value))
          | Some (before, after) =>
              match escaped_prefix before with
              | Some before =>
                  let out := out ++ before ++ [dollar; lbrace] in
                  if over maxBytes out then (st, Err (ResolvedTooLong maxBytes))
                  else transform fuel replacement maxBytes st after out
              | None =>
                  match CutByte rbrace after with
                  | None => (st, Err InvalidReference)
                  | Some (name, rest) =>
                      if negb (namePattern name) then (st, Err InvalidReference)
                      else
                        match replacement st name with
                        | (st, Err e) => (st, Err e)
                        | (st, Ok text) =>
                            let out := out ++ before ++ text in
                            if over maxBytes out then (st, Err (ResolvedTooLong maxBytes))
                            else transform fuel replacement maxBytes st rest out
                        end
                  end
              end
          end
      end
  end.

Definition References (value : bytes) : result param_err (list bytes) :=
  let '(refs, r) :=
    transform (length value) (λ refs name, (refs ++ [name], Ok [])) (-1) [] value [] in
  let! _ := r in Ok refs.

Definition Resolve (value : bytes) (supplied : values) (maxBytes : Z) : result param_err bytes :=
  (transform (length value)
     (λ _ name, (tt, match supplied !! name with
                     | Some v => Ok v
                     | None => Err (MissingParameter name)
                     end)) maxBytes tt value []).2.

Definition CheckReferences (value : bytes) (declarations : values) : result param_err unit :=
  if bool_decide (size declarations = 0) then Ok tt
  else
    let! refs := References value in
    match List.find (λ name, negb (bool_decide (is_Some (declarations !! name)))) refs with
    | Some name => Err (UndeclaredParameter name)
    | None => Ok tt
    end.

(** ** The template a value is *)

Inductive segment := Text (t : bytes) | Escape | Ref (name : bytes).

(** The bytes of the value a segment stands for, and what it becomes. *)
Definition segment_source (s : segment) : bytes :=
  match s with
  | Text t => t
  | Escape => [dollar; dollar; lbrace]
  | Ref name => dollar :: lbrace :: name ++ [rbrace]
  end.

Definition source (segs : list segment) : bytes := flat_map segment_source segs.

Definition render_segment (supplied : values) (s : segment) : option bytes :=
  match s with
  | Text t => Some t
  | Escape => Some [dollar; lbrace]
  | Ref name => supplied !! name
  end.

Definition render (supplied : values) (segs : list segment) : option bytes :=
  (@concat ascii) <$> mapM (render_segment supplied) segs.

Definition seg_refs (segs : list segment) : list bytes :=
  omap (λ s, match s with Ref n => Some n | _ => None end) segs.

(** The pass as a scan into segments. *)
Fixpoint scan (fuel : nat) (value : bytes) : result param_err (list segment) :=
  match value with
  | [] => Ok []
  | _ =>
      match fuel with
      | O => Err OutOfFuel
      | S fuel =>
          match find_ref value with
          | None => Ok [Text value]
          | Some (before, after) =>
              match escaped_prefix before with
              | Some before => let! segs := scan fuel after in Ok (Text before :: Escape :: segs)
              | None =>
                  match CutByte rbrace after with
                  | None => Err InvalidReference
                  | Some (name, rest) =>
                      if negb (namePattern name) then Err InvalidReference
                      else let! segs := scan fuel rest in Ok (Text before :: Ref name :: segs)
                  end
              end
          end
      end
  end.

Definition template (value : bytes) : result param_err (list segment) := scan (length value) value.

(** ** Lemmas on the search *)

Lemma find_ref_Some value before after :
  find_ref value = Some (before, after) → value = before ++ dollar :: lbrace :: after.
Proof.
  revert before after. induction value as [|c t IH]; intros before after; simpl; [done|].
  case_bool_decide as Ec; [destruct t as [|d rest]; [done|]|].
  - case_bool_decide as Ed; [intros [= <- <-]; by subst|].
    destruct (find_ref (d :: rest)) as [[x y]|] eqn:E; intros [= <- <-].
    simpl. f_equal. by apply IH.
  - destruct (find_ref t) as [[x y]|] eqn:E; intros [= <- <-]. simpl. f_equal. by apply IH.
Qed.

#[local] Arguments find_ref : simpl never.

Lemma escaped_prefix_Some before p : escaped_prefix before = Some p → before = p ++ [dollar].
Proof.
  unfold escaped_prefix. destruct before as [|c t _] using rev_ind; [done|].
  rewrite last_snoc. case_bool_decide as E; [|done]. intros [= <-].
  rewrite length_app. simpl. rewrite Nat.add_sub, take_app_length. by subst.
Qed.

Lemma escaped_prefix_snoc p : escaped_prefix (p ++ [dollar]) = Some p.
Proof.
  unfold escaped_prefix. rewrite last_snoc. rewrite bool_decide_true by done.
  rewrite length_app. simpl. by rewrite Nat.add_sub, take_app_length.
Qed.

Lemma over_app max out x : over max (out ++ x) = false → over max out = false.
Proof. unfold over. rewrite length_app. bsimp. lia. Qed.

(** What one iteration leaves to do is shorter. *)
Lemma ref_rest_short before after name rest fuel :
  length (before ++ dollar :: lbrace :: after) ≤ S fuel →
  CutByte rbrace after = Some (name, rest) → length rest ≤ fuel ∧ length after ≤ fuel.
Proof.
  intros Hl (-> & _)%CutByte_Some. rewrite !length_app in Hl. simpl in Hl.
  rewrite !length_app in *. simpl in *. lia.
Qed.

Lemma after_short before after fuel :
  length (before ++ dollar :: lbrace :: after) ≤ S fuel → length after ≤ fuel.
Proof. rewrite length_app. simpl. lia. Qed.

(** ** The pass computes the template *)

Lemma scan_source fuel value segs : scan fuel value = Ok segs → source segs = value.
Proof.
  revert value segs. induction fuel as [|fuel IH]; intros value segs; destruct value as [|c t]; simpl;
    try (intros [= <-]; done); try done.
  destruct (find_ref (c :: t)) as [[before after]|] eqn:Ef.
  2:{ intros E. simplify_eq. unfold source. simpl. by rewrite app_nil_r. }
  rewrite (find_ref_Some _ _ _ Ef).
  destruct (escaped_prefix before) as [p|] eqn:Ee.
  - intros (segs' & Hs & [= <-])%rbind_Ok. apply IH in Hs.
    rewrite (escaped_prefix_Some _ _ Ee). unfold source in *. simpl. rewrite Hs.
    by rewrite <- app_assoc.
  - destruct (CutByte rbrace after) as [[name rest]|] eqn:Ec; [|done].
    apply CutByte_Some in Ec as [-> _].
    case_match; [done|]. intros (segs' & Hs & [= <-])%rbind_Ok. apply IH in Hs.
    unfold source in *. simpl. rewrite Hs. by rewrite <- app_assoc.
Qed.

Lemma scan_fuel fuel value : length value ≤ fuel → scan fuel value ≠ Err OutOfFuel.
Proof.
  revert value. induction fuel as [|fuel IH]; intros value Hl; destruct value as [|c t]; simpl in Hl |- *;
    try done; try lia.
  destruct (find_ref (c :: t)) as [[before after]|] eqn:Ef; [|done].
  assert (length (before ++ dollar :: lbrace :: after) ≤ S fuel) as Hlen
    by (rewrite <- (find_ref_Some _ _ _ Ef); simpl; lia).
  destruct (escaped_prefix before) as [p|] eqn:Ee.
  - specialize (IH after (after_short _ _ _ Hlen)). destruct (scan fuel after); simpl; congruence.
  - destruct (CutByte rbrace after) as [[name rest]|] eqn:Ec; [|done]. case_match; [done|].
    specialize (IH rest (proj1 (ref_rest_short _ _ _ _ _ Hlen Ec))).
    destruct (scan fuel rest); simpl; congruence.
Qed.

Lemma render_cons supplied s segs :
  render supplied (s :: segs) =
    x ← render_segment supplied s; y ← render supplied segs; Some (x ++ y).
Proof.
  unfold render. simpl. destruct (render_segment supplied s); simpl; [|done].
  by destruct (mapM (render_segment supplied) segs).
Qed.

Definition supply (supplied : values) (u : unit) (name : bytes) : unit * result param_err bytes :=
  (tt, match supplied !! name with
       | Some v => Ok v
       | None => Err (MissingParameter name)
       end).

(** The two ends of the loop. *)
Lemma finish_iff max out res :
  (if over max out then Err (ResolvedTooLong max) else Ok out) = Ok res ↔
  res = out ∧ over max res = false.
Proof. destruct (over max out) eqn:E; split; [done|intros [-> ?]; congruence|intros [= <-]; done|intros [-> _]; done]. Qed.

(** One iteration: it writes [x], the rendering of the segments [pre], and goes
    on with what is left, unless the bound is passed. *)
Lemma emit_iff supplied max (out x res : bytes) (pre : list segment)
    (left_segs : result param_err (list segment)) (go : unit * result param_err bytes) :
  (∀ segs, render supplied (pre ++ segs) = y ← render supplied segs; Some (x ++ y)) →
  (go.2 = Ok res ↔ ∃ segs r, left_segs = Ok segs ∧ render supplied segs = Some r ∧
                     res = (out ++ x) ++ r ∧ over max res = false) →
  (if over max (out ++ x) then (tt, Err (ResolvedTooLong max)) else go).2 = Ok res ↔
  ∃ segs r, (let! segs := left_segs in Ok (pre ++ segs)) = Ok segs ∧
            render supplied segs = Some r ∧ res = out ++ r ∧ over max res = false.
Proof.
  intros Hpre Hgo.
  assert ((∃ segs r, (let! segs := left_segs in Ok (pre ++ segs)) = Ok segs ∧
            render supplied segs = Some r ∧ res = out ++ r ∧ over max res = false) ↔
          (∃ segs r, left_segs = Ok segs ∧ render supplied segs = Some r ∧
                     res = (out ++ x) ++ r ∧ over max res = false)) as ->.
  { split.
    - intros (segs & r & (segs' & Hs & [= <-])%rbind_Ok & Hr & -> & Ho).
      rewrite Hpre in Hr. apply bind_Some in Hr as (y & Hy & [= <-]).
      exists segs', y. by rewrite <- app_assoc.
    - intros (segs & r & -> & Hr & -> & Ho). exists (pre ++ segs), (x ++ r).
      split; [done|]. rewrite Hpre, Hr. simpl. by rewrite <- app_assoc in *. }
  destruct (over max (out ++ x)) eqn:Eo; [|done]. simpl. split; [done|].
  intros (segs & r & _ & _ & -> & Ho). apply over_app in Ho. congruence.
Qed.

Lemma transform_render fuel supplied max value : ∀ out res,
  length value ≤ fuel →
  (transform fuel (supply supplied) max tt value out).2 = Ok res ↔
  ∃ segs r, scan fuel value = Ok segs ∧ render supplied segs = Some r ∧
            res = out ++ r ∧ over max res = false.
Proof.
  assert (∀ f out res, (transform f (supply supplied) max tt [] out).2 = Ok res ↔
    ∃ segs r, scan f [] = Ok segs ∧ render supplied segs = Some r ∧
              res = out ++ r ∧ over max res = false) as Hnil.
  { intros f out res. destruct f; cbn -[over]; rewrite finish_iff; split.
    1,3: intros [-> ?]; exists [], []; by rewrite app_nil_r.
    all: intros (segs & r & E & Hr & -> & ?); simplify_eq; cbn in Hr; simplify_eq; by rewrite app_nil_r in *. }
  revert value. induction fuel as [|fuel IH]; intros value out res Hl;
    destruct value as [|c t]; try (by apply Hnil); [simpl in Hl; lia|].
  cbn [transform scan]. destruct (find_ref (c :: t)) as [[before after]|] eqn:Ef.
  2:{ cbn -[over]. rewrite finish_iff. split.
      - intros [-> ?]. eexists _, _. split; [done|]. cbn. by rewrite app_nil_r.
      - intros (segs & r & E & Hr & -> & ?). simplify_eq. cbn in Hr. simplify_eq.
        by rewrite app_nil_r in *. }
  assert (length (before ++ dollar :: lbrace :: after) ≤ S fuel) as Hlen
    by (rewrite <- (find_ref_Some _ _ _ Ef); done).
  destruct (escaped_prefix before) as [p|] eqn:Ee.
  - apply (emit_iff supplied max out _ res [Text p; Escape]).
    + intros segs. simpl. rewrite !render_cons. cbn [render_segment]. simpl.
      destruct (render supplied segs); simpl; [|done]. by rewrite <- app_assoc.
    + apply IH. by eapply after_short.
  - destruct (CutByte rbrace after) as [[name rest]|] eqn:Ec; [|naive_solver].
    case_match; [naive_solver|]. unfold supply at 1.
    destruct (supplied !! name) as [v|] eqn:Ev.
    + apply (emit_iff supplied max out _ res [Text before; Ref name]).
      * intros segs. simpl. rewrite !render_cons. cbn [render_segment]. rewrite Ev. simpl.
        destruct (render supplied segs); simpl; [|done]. by rewrite <- app_assoc.
      * apply IH. exact (proj1 (ref_rest_short _ _ _ _ _ Hlen Ec)).
    + split; [done|]. intros (segs & r & (segs' & Hs & [= <-])%rbind_Ok & Hr & _).
      rewrite !render_cons in Hr. cbn [render_segment] in Hr. simpl in Hr. by rewrite Ev in Hr.
Qed.

(** [References] records the template's references, and fails only on a value
    that is not a template. *)
Lemma transform_record fuel value : ∀ refs out,
  length value ≤ fuel →
  transform fuel (λ refs name, (refs ++ [name], Ok [])) (-1) refs value out =
    match scan fuel value with
    | Ok segs => (refs ++ seg_refs segs,
                  (transform fuel (λ refs name, (refs ++ [name], Ok [])) (-1) refs value out).2)
    | Err e => ((transform fuel (λ refs name, (refs ++ [name], Ok [])) (-1) refs value out).1, Err e)
    end ∧
  (is_ok (scan fuel value) = true →
   is_ok (transform fuel (λ refs name, (refs ++ [name], Ok [])) (-1) refs value out).2 = true).
Proof.
  revert value. induction fuel as [|fuel IH]; intros value refs out Hl;
    destruct value as [|c t]; try (simpl in Hl; lia); try (cbn; by rewrite app_nil_r).
  cbn [transform scan]. destruct (find_ref (c :: t)) as [[before after]|] eqn:Ef.
  2:{ cbn. by rewrite app_nil_r. }
  assert (length (before ++ dollar :: lbrace :: after) ≤ S fuel) as Hlen
    by (rewrite <- (find_ref_Some _ _ _ Ef); done).
  assert (∀ o, over (-1) o = false) as Hover by done.
  destruct (escaped_prefix before) as [p|] eqn:Ee.
  - rewrite Hover.
    destruct (IH after refs (out ++ p ++ [dollar; lbrace]) (after_short _ _ _ Hlen)) as [IH1 IH2].
    destruct (scan fuel after) as [segs|e]; simpl in *; [|done]. done.
  - destruct (CutByte rbrace after) as [[name rest]|] eqn:Ec; [|done].
    case_match; [done|]. rewrite Hover.
    destruct (IH rest (refs ++ [name]) (out ++ before ++ [])
      (proj1 (ref_rest_short _ _ _ _ _ Hlen Ec))) as [IH1 IH2].
    destruct (scan fuel rest) as [segs|e]; simpl in *; [|done].
    rewrite <- app_assoc in IH1. done.
Qed.

Lemma over_false max out : over max out = false ↔ (max < 0 ∨ Z.of_nat (length out) ≤ max)%Z.
Proof. unfold over. bsimp. lia. Qed.


(** ** Declarations and supplied values *)

Definition control_rune_u (r : bytes) : bool :=
  match r with
  | [c] => control c
  | [c; d] => (code c =? 194)%N && in_range 128 159 d
  | _ => false
  end.

(** [utf8.ValidString] and [strings.IndexFunc(value, unicode.IsControl) >= 0]. *)
Definition ValidString (s : bytes) : bool :=
  forallb (λ c, match c with Rune _ => true | Bad => false end) (decode (length s) s).
Definition has_control (s : bytes) : bool :=
  existsb (λ c, match c with Rune r => control_rune_u r | Bad => false end) (decode (length s) s).

Definition bytes_le (x y : bytes) : bool :=
  String.leb (String.string_of_list_ascii x) (String.string_of_list_ascii y).
#[export] Instance bytes_le_dec x y : Decision (bytes_le x y = true) := bool_eq_dec _ _.

(** [names]: the keys of a map, sorted. *)
Definition names (m : values) : list bytes :=
  merge_sort (λ x y, bytes_le x y = true) (map_to_list m).*1.

Definition CheckName (name : bytes) : result param_err unit :=
  if namePattern name then Ok tt else Err (BadName name).

(** The first error of a loop over a list. *)
Fixpoint each {A} (f : A → result param_err unit) (l : list A) : result param_err unit :=
  match l with
  | [] => Ok tt
  | x :: l => let! _ := f x in each f l
  end.

(** [CheckSupplied]; [order] is the order of its [range]. *)
Definition CheckSupplied (order : list bytes) (supplied : values) : result param_err unit :=
  if bool_decide (MaxCount < size supplied) then Err TooManyParameters
  else each (λ name,
    if negb (namePattern name) then Err (BadName name)
    else let value := default [] (supplied !! name) in
         if bool_decide (MaxValueBytes < length value) || negb (ValidString value) || has_control value
         then Err (BadSuppliedValue name) else Ok tt) order.

Section patterns.
(** Compiled expressions of the [regexp] package: compilation of the anchored
    pattern, and matching. *)
Context {R : Type} (compile : bytes → option R) (MatchString : R → bytes → bool).

(** *** The compiled-pattern cache *)

Definition maxCachedPatterns : nat := 128.

Record patternCache := PatternCache {
  entries : gmap bytes R;
  order : list bytes
}.

Definition compiledPattern (cache : patternCache) (pattern : bytes) : patternCache * option R :=
  match entries cache !! pattern with
  | Some re => (cache, Some re)
  | None =>
      match compile pattern with
      | None => (cache, None)
      | Some re =>
          let cache :=
            if bool_decide (length (order cache) = maxCachedPatterns) then
              match order cache with
              | oldest :: rest => PatternCache (delete oldest (entries cache)) rest
              | [] => cache
              end
            else cache in
          (PatternCache (<[pattern := re]> (entries cache)) (order cache ++ [pattern]), Some re)
      end
  end.

Definition cache_ok (c : patternCache) : Prop :=
  NoDup (order c) ∧ (length (order c) ≤ maxCachedPatterns)%nat ∧
  (∀ p, is_Some (entries c !! p) ↔ p ∈ order c) ∧
  (∀ p re, entries c !! p = Some re → compile p = Some re).

Definition CheckDeclaration (cache : patternCache) (name pattern : bytes) :
    patternCache * result param_err unit :=
  if negb (namePattern name) then (cache, Err (BadName name))
  else if bool_decide (pattern = []) || bool_decide (MaxPatternBytes < length pattern)
  then (cache, Err (BadPattern name))
  else if bool_decide (nul ∈ pattern) then (cache, Err (BadPattern name))
  else let '(cache, r) := compiledPattern cache pattern in
       (cache, match r with Some _ => Ok tt | None => Err (BadPattern name) end).

(** One iteration of [Validate]'s loop over the declarations. *)
Definition check_declared (supplied declarations : values) (cache : patternCache) (name : bytes) :
    patternCache * result param_err unit :=
  let pattern := default [] (declarations !! name) in
  match CheckDeclaration cache name pattern with
  | (cache, Err e) => (cache, Err e)
  | (cache, Ok _) =>
      match supplied !! name with
      | None => (cache, Err (MissingParameter name))
      | Some value =>
          match compiledPattern cache pattern with
          | (cache, None) => (cache, Err (BadPattern name))
          | (cache, Some re) =>
              (cache, if MatchString re value then Ok tt else Err (NoMatch name))
          end
      end
  end.

Fixpoint each_declared (supplied declarations : values) (cache : patternCache) (l : list bytes) :
    patternCache * result param_err unit :=
  match l with
  | [] => (cache, Ok tt)
  | name :: l =>
      match check_declared supplied declarations cache name with
      | (cache, Err e) => (cache, Err e)
      | (cache, Ok _) => each_declared supplied declarations cache l
      end
  end.

Definition Validate (range : list bytes) (cache : patternCache) (declarations supplied : values) :
    patternCache * result param_err unit :=
  match CheckSupplied range supplied with
  | Err e => (cache, Err e)
  | Ok _ =>
      match each (λ name, if bool_decide (is_Some (declarations !! name)) then Ok tt
                          else Err (UndeclaredParameter name)) (names supplied) with
      | Err e => (cache, Err e)
      | Ok _ => each_declared supplied declarations cache (names declarations)
      end
  end.

(** *** The cache is transparent *)

Lemma empty_cache_ok : cache_ok (PatternCache ∅ []).
Proof.
  split; [constructor|]. split; [apply Nat.le_0_l|]. cbn [entries order].
  split; [|intros p re E; by rewrite lookup_empty in E].
  intros p. rewrite lookup_empty. split; [by intros [? ?]|intros []%elem_of_nil].
Qed.

Lemma compiledPattern_ok c p :
  cache_ok c → (compiledPattern c p).2 = compile p ∧ cache_ok (compiledPattern c p).1.
Proof.
  intros (Hnd & Hlen & Hdom & Hval). unfold compiledPattern.
  destruct (entries c !! p) as [re|] eqn:E; simpl.
  { split; [by rewrite (Hval p re E)|done]. }
  destruct (compile p) as [re|] eqn:Ec; simpl; [|done]. split; [done|].
  assert (p ∉ order c) as Hp by (rewrite <- Hdom, E; by intros [? ?]).
  set (c' := if bool_decide (length (order c) = maxCachedPatterns) then _ else c).
  assert (NoDup (order c') ∧ (length (order c') < maxCachedPatterns)%nat ∧
    (∀ q, is_Some (entries c' !! q) ↔ q ∈ order c') ∧
    (∀ q re', entries c' !! q = Some re' → compile q = Some re') ∧ (p ∉ order c'))
    as (Hnd' & Hlen' & Hdom' & Hval' & Hp').
  { unfold c'. case_bool_decide as Efull.
    2:{ repeat split; try done; [lia|apply Hdom..]. }
    destruct (order c) as [|oldest rest] eqn:Eo; [done|]. simpl in *.
    apply NoDup_cons in Hnd as [Hno Hnd]. apply not_elem_of_cons in Hp as [_ Hp].
    split; [done|]. split; [unfold maxCachedPatterns in *; lia|]. split; [|split; [|done]].
    - intros q. rewrite lookup_delete_is_Some, Hdom, elem_of_cons.
      split; [intros [? [?|?]]; congruence|]. intros Hq. split; [congruence|by right].
    - intros q re' [_ Hq]%lookup_delete_Some. by apply Hval. }
  split; [|split; [|split]]; simpl.
  - apply NoDup_app. split; [done|]. split; [|by apply NoDup_singleton].
    intros q Hq. rewrite list_elem_of_singleton. congruence.
  - rewrite length_app. simpl. lia.
  - intros q. rewrite lookup_insert_is_Some, elem_of_app, list_elem_of_singleton, Hdom'.
    destruct (decide (p = q)); naive_solver.
  - intros q re' [[<- <-]|[_ Hq]]%lookup_insert_Some; [done|by apply Hval'].
Qed.

(** *** What validation accepts *)

Definition pattern_shape (pattern : bytes) : Prop :=
  pattern ≠ [] ∧ (length pattern ≤ MaxPatternBytes)%nat ∧ (nul ∉ pattern).

Definition declared_ok (supplied declarations : values) (name : bytes) : Prop :=
  let pattern := default [] (declarations !! name) in
  namePattern name = true ∧ pattern_shape pattern ∧
  ∃ re value, compile pattern = Some re ∧ supplied !! name = Some value ∧
              MatchString re value = true.

Lemma check_declared_ok supplied declarations c name :
  cache_ok c →
  let r := check_declared supplied declarations c name in
  cache_ok r.1 ∧ (is_ok r.2 = true ↔ declared_ok supplied declarations name).
Proof.
  intros Hc. unfold check_declared, CheckDeclaration, declared_ok, pattern_shape.
  set (pattern := default [] (declarations !! name)).
  destruct (namePattern name) eqn:En; simpl; [|split; [done|naive_solver]].
  destruct (bool_decide (pattern = []) || bool_decide (MaxPatternBytes < length pattern)) eqn:Es.
  { simpl. split; [done|]. bsimp. split; [done|]. intros (_ & (? & ? & _) & _). destruct Es; [done|lia]. }
  destruct (bool_decide (nul ∈ pattern)) eqn:Enul; [apply bool_decide_eq_true in Enul|apply bool_decide_eq_false in Enul].
  { simpl. split; [done|]. split; [done|naive_solver]. }
  destruct (compiledPattern_ok c pattern Hc) as [E1 Hc1].
  destruct (compiledPattern c pattern) as [c1 r1]. simpl in E1, Hc1. subst r1.
  destruct (compile pattern) as [re|] eqn:Ecomp; simpl; [|split; [done|naive_solver]].
  destruct (supplied !! name) as [value|] eqn:Esup; simpl; [|split; [done|naive_solver]].
  destruct (compiledPattern_ok c1 pattern Hc1) as [E2 Hc2].
  destruct (compiledPattern c1 pattern) as [c2 r2]. simpl in E2, Hc2. subst r2.
  rewrite Ecomp. simpl. split; [done|]. bsimp. destruct Es as [Hne Hlen].
  destruct (MatchString re value) eqn:Em; simpl.
  - split; [|done]. intros _. split; [done|]. split; [repeat split; [done|lia|done]|]. eauto.
  - split; [done|]. intros (_ & _ & re' & v' & ? & ? & ?). congruence.
Qed.

Lemma each_declared_ok supplied declarations l : ∀ c,
  cache_ok c →
  let r := each_declared supplied declarations c l in
  cache_ok r.1 ∧ (is_ok r.2 = true ↔ ∀ name, name ∈ l → declared_ok supplied declarations name).
Proof.
  induction l as [|name l IH]; intros c Hc; simpl.
  { split; [done|]. split; [|done]. intros _ ? []%elem_of_nil. }
  destruct (check_declared_ok supplied declarations c name Hc) as [Hc1 Hiff].
  destruct (check_declared supplied declarations c name) as [c1 [u|e]]; simpl in *.
  - destruct (IH c1 Hc1) as [Hc2 Hrest]. split; [done|]. rewrite Hrest.
    setoid_rewrite elem_of_cons. naive_solver.
  - split; [done|]. split; [done|]. intros Hall.
    apply Hiff. apply Hall. by left.
Qed.
End patterns.

Lemma each_ok {A} (f : A → result param_err unit) l :
  is_ok (each f l) = true ↔ ∀ x, x ∈ l → is_ok (f x) = true.
Proof.
  induction l as [|x l IH]; simpl; [split; [intros _ ? []%elem_of_nil|done]|].
  setoid_rewrite elem_of_cons. destruct (f x) eqn:E; simpl.
  - rewrite IH. split; [|naive_solver]. intros Hl y [->|Hy]; [by rewrite E|auto].
  - split; [done|]. intros Hall. specialize (Hall x (or_introl eq_refl)). by rewrite E in Hall.
Qed.

Lemma names_elem (m : values) x : x ∈ names m ↔ is_Some (m !! x).
Proof.
  unfold names. rewrite merge_sort_Permutation, list_elem_of_fmap. split.
  - intros ([k v] & -> & Hin%elem_of_map_to_list). by exists v.
  - intros [v Hv]. exists (x, v). by rewrite elem_of_map_to_list.
Qed.

Definition supplied_ok (declarations : values) (name value : bytes) : Prop :=
  namePattern name = true ∧ (length value ≤ MaxValueBytes)%nat ∧ ValidString value = true ∧
  has_control value = false ∧ is_Some (declarations !! name).

(** Parameter validation accepts exactly the contract. For any expression
    engine, any state of the compiled-pattern cache its invariant allows and any
    order the supplied map is visited in, [Validate] succeeds exactly when at
    most 32 parameters are supplied, each is named, sized, free of control
    characters and declared, and every declaration is well formed, supplied and
    matched; the cache stays bounded by 128 distinct patterns and only ever
    answers what compilation would. *)
Theorem Validate_parameters_exact {R : Type} (compile : bytes → option R)
    (MatchString : R → bytes → bool) (range : list bytes) (cache : patternCache)
    (declarations supplied : values) :
  cache_ok compile cache → range ≡ₚ (map_to_list supplied).*1 →
  let r := Validate compile MatchString range cache declarations supplied in
  cache_ok compile r.1 ∧
  (is_ok r.2 = true ↔
     (size supplied ≤ MaxCount)%nat ∧
     (∀ name value, supplied !! name = Some value → supplied_ok declarations name value) ∧
     (∀ name, is_Some (declarations !! name) →
        declared_ok compile MatchString supplied declarations name)).
Proof.
  intros Hc Hrange.
  assert (∀ x, x ∈ range ↔ is_Some (supplied !! x)) as Hr.
  { intros x. rewrite Hrange, <- names_elem. unfold names. by rewrite merge_sort_Permutation. }
  destruct (each_declared_ok compile MatchString supplied declarations (names declarations) cache Hc)
    as [Hc' Hdecl].
  assert (is_ok (CheckSupplied range supplied) = true ↔ (size supplied ≤ MaxCount)%nat ∧
    ∀ name value, supplied !! name = Some value →
      namePattern name = true ∧ (length value ≤ MaxValueBytes)%nat ∧ ValidString value = true ∧
      has_control value = false) as Hsup.
  { unfold CheckSupplied. case_bool_decide as En; [split; [done|intros [? _]; lia]|].
    rewrite each_ok. setoid_rewrite Hr. split.
    - intros Hall. split; [lia|]. intros name value Hv. specialize (Hall name ltac:(by eexists)).
      rewrite Hv in Hall. simpl in Hall. repeat case_match; bsimp; try done. naive_solver lia.
    - intros [_ Hall] name [value Hv]. destruct (Hall name value Hv) as (-> & Hl & Hu & Hco).
      simpl. rewrite Hv. simpl. by rewrite bool_decide_false, Hu, Hco by lia. }
  assert (is_ok (each (λ name, if bool_decide (is_Some (declarations !! name)) then Ok tt
      else Err (UndeclaredParameter name)) (names supplied)) = true ↔
    ∀ name value, supplied !! name = Some value → is_Some (declarations !! name)) as Hund.
  { rewrite each_ok. setoid_rewrite names_elem. split.
    - intros Hall name value Hv. specialize (Hall name ltac:(by eexists)).
      case_bool_decide; [done|]. done.
    - intros Hall name [value Hv]. rewrite bool_decide_true; [done|]. by eapply Hall. }
  unfold Validate, supplied_ok.
  destruct (CheckSupplied range supplied) as [u1|e1] eqn:E1; simpl in Hsup |- *;
    [|split; [done|]; split; [done|]; intros (? & Hs & _); apply Hsup; split; [done|];
      intros name value Hv; specialize (Hs name value Hv); tauto].
  destruct (each _ (names supplied)) as [u2|e2] eqn:E2; simpl in Hund |- *;
    [|split; [done|]; split; [done|]; intros (? & Hs & _); apply Hund;
      intros name value Hv; specialize (Hs name value Hv); tauto].
  split; [done|]. rewrite Hdecl. setoid_rewrite names_elem.
  destruct (proj1 Hsup eq_refl) as [Hsz Hs]. pose proof (proj1 Hund eq_refl) as Hd.
  split; [|tauto]. intros Hall. split; [done|]. split; [|done].
  intros name value Hv. specialize (Hs name value Hv). specialize (Hd name value Hv). tauto.
Qed.

(** A concrete engine: expressions are alternations of literals, [a|b]. *)
Definition literal_compile (pattern : bytes) : option (list bytes) :=
  if bool_decide ("("%char ∈ pattern) then None else Some (Split "|"%char pattern).
Definition literal_match (re : list bytes) (value : bytes) : bool := bool_decide (value ∈ re).

Definition region_declared : values := {[ lit "REGION" := lit "eu|us"; lit "TIER" := lit "gold" ]}.
Definition region_supplied : values := {[ lit "REGION" := lit "us"; lit "TIER" := lit "gold" ]}.

Lemma Validate_parameters_exact_witness :
  let r := Validate literal_compile literal_match [lit "TIER"; lit "REGION"]
             (PatternCache ∅ []) region_declared region_supplied in
  is_ok r.2 = true ∧ order r.1 = [lit "eu|us"; lit "gold"] ∧
  declared_ok literal_compile literal_match region_supplied region_declared (lit "REGION").
Proof.
  intros r. assert (is_ok r.2 = true) as E by (vm_compute; reflexivity).
  split; [exact E|]. split; [vm_compute; reflexivity|].
  destruct (Validate_parameters_exact literal_compile literal_match
    [lit "TIER"; lit "REGION"] (PatternCache ∅ []) region_declared region_supplied) as [_ Hiff].
  - apply empty_cache_ok.
  - assert ((map_to_list region_supplied).*1 = [lit "TIER"; lit "REGION"]
      ∨ (map_to_list region_supplied).*1 = [lit "REGION"; lit "TIER"]) as [-> | ->]
      by (vm_compute; first [left; reflexivity | right; reflexivity]); [done|constructor].
  - destruct (proj1 Hiff E) as (_ & _ & Hd). apply Hd. eexists. vm_compute. reflexivity.
Defined.
