(* ===== verification/StateErr.v ===== *)
(** * State and error

    Go code that mutates shared state and returns errors becomes a computation
    [M S E A]: it takes the state, and gives back the state with a value or an
    error. An early [return err] keeps the state reached so far. [wp] is the
    weakest precondition of a computation for a postcondition on values and one
    on errors; the rules below are the ones the clients use. *)

From stdpp Require Import prelude list.
From S2P Require Import Prelude.

Definition M (S E A : Type) : Type := S → S * result E A.

Section monad.
Context {S E : Type}.

Definition ret {A} (a : A) : M S E A := λ s, (s, Ok a).
Definition fail {A} (e : E) : M S E A := λ s, (s, Err e).
Definition bind {A B} (m : M S E A) (f : A → M S E B) : M S E B :=
  λ s, match m s with
       | (s', Ok a) => f a s'
       | (s', Err e) => (s', Err e)
       end.
Definition gets {A} (f : S → A) : M S E A := λ s, (s, Ok (f s)).
Definition modify (f : S → S) : M S E unit := λ s, (f s, Ok tt).
(** The error of [m] as a value: [if err := m(); err != nil]. *)
Definition try {A} (m : M S E A) : M S E (result E A) := λ s, let '(s', r) := m s in (s', Ok r).

Fixpoint for_each {A} (l : list A) (f : A → M S E unit) : M S E unit :=
  match l with
  | [] => ret tt
  | x :: l => bind (f x) (λ _, for_each l f)
  end.

Definition wp {A} (m : M S E A) (s : S) (Q : A → S → Prop) (R : E → S → Prop) : Prop :=
  match m s with
  | (s', Ok a) => Q a s'
  | (s', Err e) => R e s'
  end.

Lemma wp_ret {A} (a : A) s (Q : A → S → Prop) R : Q a s → wp (ret a) s Q R.
Proof. done. Qed.

Lemma wp_fail {A} e s (Q : A → S → Prop) (R : E → S → Prop) : R e s → wp (fail e) s Q R.
Proof. done. Qed.

Lemma wp_gets {A} (f : S → A) s (Q : A → S → Prop) R : Q (f s) s → wp (gets f) s Q R.
Proof. done. Qed.

Lemma wp_modify f s (Q : unit → S → Prop) R : Q tt (f s) → wp (modify f) s Q R.
Proof. done. Qed.

Lemma wp_bind {A B} (m : M S E A) (f : A → M S E B) s Q R :
  wp m s (λ a s', wp (f a) s' Q R) R → wp (bind m f) s Q R.
Proof. unfold wp, bind. by destruct (m s) as [s' [a|e]]. Qed.

Lemma wp_try {A} (m : M S E A) s (Q : result E A → S → Prop) R :
  wp m s (λ a, Q (Ok a)) (λ e, Q (Err e)) → wp (try m) s Q R.
Proof. unfold wp, try. by destruct (m s) as [s' [a|e]]. Qed.

Lemma wp_mono {A} (m : M S E A) s (Q Q' : A → S → Prop) (R R' : E → S → Prop) :
  wp m s Q R → (∀ a s', Q a s' → Q' a s') → (∀ e s', R e s' → R' e s') → wp m s Q' R'.
Proof. unfold wp. destruct (m s) as [s' [a|e]]; auto. Qed.

(** The loop rule: the invariant is indexed by what is left to visit. *)
Lemma wp_for_each {A} (l : list A) (f : A → M S E unit) (I : list A → S → Prop) R s :
  I l s →
  (∀ x l s, I (x :: l) s → wp (f x) s (λ _ s', I l s') R) →
  wp (for_each l f) s (λ _ s', I [] s') R.
Proof.
  intros Hs Hstep. revert s Hs. induction l as [|x l IH]; intros s Hs; simpl; [done|].
  apply wp_bind. eapply wp_mono; [by apply Hstep|intros ? s'; apply IH|done].
Qed.

Lemma for_each_ext {A} (l : list A) (f g : A → M S E unit) :
  (∀ x, f x = g x) → for_each l f = for_each l g.
Proof. intros Hfg. induction l as [|x l IH]; [done|]. simpl. by rewrite IH, Hfg. Qed.

Lemma for_each_map {A B} (h : A → B) (l : list A) (f : B → M S E unit) :
  for_each l (λ x, f (h x)) = for_each (map h l) f.
Proof. induction l as [|x l IH]; [done|]. simpl. by rewrite IH. Qed.

Lemma wp_and {A} (m : M S E A) s (Q Q' : A → S → Prop) (R R' : E → S → Prop) :
  wp m s Q R → wp m s Q' R' → wp m s (λ a s', Q a s' ∧ Q' a s') (λ e s', R e s' ∧ R' e s').
Proof. unfold wp. destruct (m s) as [s' [a|e]]; auto. Qed.
End monad.

Notation "'do*' x := m 'in' k" := (bind m (λ x, k))
  (at level 10, x pattern, m at level 100, k at level 200) : hikyo_scope.

#[global] Arguments ret : simpl never.
#[global] Arguments fail : simpl never.
#[global] Arguments bind : simpl never.
#[global] Arguments gets : simpl never.
#[global] Arguments modify : simpl never.
#[global] Arguments try : simpl never.
#[global] Arguments wp : simpl never.
