(* ===== verification/Adapter.v ===== *)
(** * Deployment adapters: names, ownership ledger, plan, health

    [src/internal/adapter]: the vocabulary of [adapter.go], the pure ledger
    functions of [ledger.go], the derived status of [health.go] and the retry
    schedule of [outbox.go]. Names are compared upper-cased; the case table of
    the [strings] package is a class with the law the program relies on, that a
    name of the validated grammar is its own upper case. *)

From stdpp Require Import prelude gmap strings list sorting.
From Stdlib Require Import Ascii ZArith.
From S2P Require Import Prelude StringFacts AdmissionWindow.

Open Scope Z_scope.

(** ** Vocabulary *)

Definition SentinelName : string := "MANAGED_BY_HIKYO".

Inductive Surface := Secret | Var.
Inductive Classification :=
| SecretClassification
| ConfigClassification
| UnknownClassification (name : string).
Inductive LedgerState := Reserved | Dispatched | Owned | Released.
Inductive Disposition := Create | Update | Delete | Conflict | Unknown.
Inductive Outcome := OutcomeSuccess | OutcomeFailure | OutcomeUnknown.

#[export] Instance Surface_eq_dec : EqDecision Surface.
Proof. solve_decision. Defined.
#[export] Instance Classification_eq_dec : EqDecision Classification.
Proof. solve_decision. Defined.
#[export] Instance LedgerState_eq_dec : EqDecision LedgerState.
Proof. solve_decision. Defined.
#[export] Instance Disposition_eq_dec : EqDecision Disposition.
Proof. solve_decision. Defined.
#[export] Instance Outcome_eq_dec : EqDecision Outcome.
Proof. solve_decision. Defined.
#[export] Instance Surface_countable : Countable Surface.
Proof.
  refine (inj_countable (λ s, match s with Secret => true | Var => false end)
            (λ b, Some (if b then Secret else Var)) _).
  by intros [].
Defined.

Record ManifestEntry := {
  KeyID : string;
  CanonicalName : string;
  me_class : Classification;
  me_value : string
}.

Definition entrySurface (m : ManifestEntry) : Surface :=
  if bool_decide (me_class m = ConfigClassification) then Var else Secret.

Record LedgerEntry := {
  le_surface : Surface;
  le_name : string;
  le_state : LedgerState;
  le_missing : bool;
  AdoptionPending : bool;
  AdoptionVersion : option Z;
  AdoptionWitness : string
}.

Definition plainEntry (s : Surface) (name : string) (st : LedgerState) : LedgerEntry :=
  {| le_surface := s; le_name := name; le_state := st; le_missing := false;
     AdoptionPending := false; AdoptionVersion := None; AdoptionWitness := "" |}.

Record Change := {
  ch_surface : Surface;
  ch_name : string;
  ch_disposition : Disposition
}.

Record Effect := {
  ef_surface : Surface;
  ef_name : string;
  ef_disposition : Disposition;
  ef_keyID : string;
  RequireExplicitRecovery : bool
}.

Record Completion := {
  co_outcome : Outcome;
  co_state : option LedgerState;
  ReleaseLedger : bool;
  co_conflict : bool;
  co_missing : bool;
  Finding : string
}.

(** ** Errors

    What the program observes of an error: the sentinels [errors.Is] finds in
    its chain, the provider status and the rate-limit deadline [errors.As]
    finds. *)

Inductive sentinel :=
| ErrConflict | ErrSuperseded | ErrUnauthorized | ErrProviderAuth | ErrIndeterminate
| ErrOperatorReview | ErrVersionFloor | ErrDestinationID | ErrProviderBusy | ErrQueueFull
| ErrLedgerFull | ErrRateLimited | ErrAckForged.

#[export] Instance sentinel_eq_dec : EqDecision sentinel.
Proof. solve_decision. Defined.

Record err := {
  chain : list sentinel;
  response : option Z;
  retryAt : option Z
}.

Definition Is (e : err) (s : sentinel) : bool := bool_decide (s ∈ chain e).
Definition sentinel_err (s : sentinel) : err := {| chain := [s]; response := None; retryAt := None |}.
Definition opaque : err := {| chain := []; response := None; retryAt := None |}.

(** ** Case folding *)

Class CaseTable := ToUpper : string → string.

(** A byte of the validated name grammar. *)
Definition upper_name_char (c : ascii) : bool :=
  let n := N_of_ascii c in
  ((65 <=? n)%N && (n <=? 90)%N) || ((48 <=? n)%N && (n <=? 57)%N) || (n =? 95)%N.

Definition name_head (c : ascii) : bool :=
  let n := N_of_ascii c in ((65 <=? n)%N && (n <=? 90)%N) || (n =? 95)%N.

(** [effectiveName]: [^[A-Z_][A-Z0-9_]*$]. *)
Definition effectiveName (s : string) : bool :=
  match String.list_ascii_of_string s with
  | c :: t => name_head c && forallb upper_name_char t
  | [] => false
  end.

Class CaseLaws `{CaseTable} : Prop :=
  ToUpper_valid : ∀ s, effectiveName s = true → ToUpper s = s.

(** ASCII upper-casing, an instance. *)
Definition upper_ascii (c : ascii) : ascii :=
  let n := N_of_ascii c in
  if (97 <=? n)%N && (n <=? 122)%N then ascii_of_N (n - 32) else c.
#[export] Instance ascii_table : CaseTable :=
  λ s, String.string_of_list_ascii (map upper_ascii (String.list_ascii_of_string s)).

Lemma upper_ascii_fixed c : upper_name_char c = true → upper_ascii c = c.
Proof.
  unfold upper_name_char, upper_ascii. cbv zeta. intros Hc.
  destruct ((97 <=? N_of_ascii c)%N && (N_of_ascii c <=? 122)%N) eqn:E; [|done]. exfalso.
  apply andb_true_iff in E as [E1%N.leb_le E2%N.leb_le].
  rewrite !orb_true_iff, !andb_true_iff, !N.leb_le, N.eqb_eq in Hc. lia.
Qed.

#[export] Instance ascii_laws : CaseLaws.
Proof.
  intros s Hs. unfold ToUpper, ascii_table.
  rewrite <- (String.string_of_list_ascii_of_string s) at 2. f_equal.
  unfold effectiveName in Hs. destruct (String.list_ascii_of_string s) as [|c t]; [done|].
  apply andb_true_iff in Hs as [Hc Ht]. simpl. f_equal.
  - apply upper_ascii_fixed. unfold name_head in Hc. unfold upper_name_char.
    rewrite !orb_true_iff, !andb_true_iff, !N.leb_le, N.eqb_eq in *. lia.
  - rewrite forallb_true in Ht. induction t as [|a t IH]; [done|]. simpl.
    rewrite upper_ascii_fixed by (apply Ht; by left). f_equal. apply IH. intros x Hx. apply Ht. by right.
Qed.

(** ** [ledger.go] *)

Section ledger.
Context `{CaseTable}.

Definition LedgerKey : Type := Surface * string.
Definition NewLedgerKey (s : Surface) (name : string) : LedgerKey := (s, ToUpper name).

Definition held (s : LedgerState) : bool := bool_decide (s = Owned) || bool_decide (s = Dispatched).

Definition validateMissingState (state : option LedgerState) (missing : bool) : result err unit :=
  if missing && negb match state with Some s => held s | None => false end
  then Err opaque else Ok tt.

Fixpoint IndexLedger_into (rows : list LedgerEntry) (out : gmap LedgerKey LedgerEntry) :
    result err (gmap LedgerKey LedgerEntry) :=
  match rows with
  | [] => Ok out
  | row :: rows =>
      let! _ := validateMissingState (Some (le_state row)) (le_missing row) in
      IndexLedger_into rows (<[NewLedgerKey (le_surface row) (le_name row) := row]> out)
  end.
Definition IndexLedger (rows : list LedgerEntry) := IndexLedger_into rows ∅.

Definition ValidateCompletion (c : Completion) : result err unit :=
  let! _ :=
    if ReleaseLedger c then
      match co_state c with Some _ => Err opaque | None => Ok tt end
    else match co_state c with None => Err opaque | Some _ => Ok tt end in
  validateMissingState (co_state c) (co_missing c).

Record DesiredRow := {
  dr_entry : ManifestEntry;
  dr_surface : Surface;
  dr_name : string
}.

(** [strings.Compare] orders surfaces and names byte by byte. *)
Definition surface_name (s : Surface) : string :=
  match s with Secret => "secret" | Var => "variable" end.
Definition place_le (s1 : Surface) (n1 : string) (s2 : Surface) (n2 : string) : bool :=
  if bool_decide (s1 = s2) then String.leb n1 n2 else String.leb (surface_name s1) (surface_name s2).

Definition isSentinel (r : DesiredRow) : bool := bool_decide (KeyID (dr_entry r) = "").
Definition desired_le (a b : DesiredRow) : bool :=
  if bool_decide (isSentinel a = isSentinel b)
  then place_le (dr_surface a) (dr_name a) (dr_surface b) (dr_name b)
  else isSentinel a.

Definition sentinelRow (prefix : string) (c : Classification) (s : Surface) : DesiredRow :=
  {| dr_entry := {| KeyID := ""; CanonicalName := ""; me_class := c; me_value := SentinelName |};
     dr_surface := s; dr_name := prefix +:+ SentinelName |}.

Definition DesiredRows (prefix : string) (manifest : list ManifestEntry) (sentinels : bool) :
    list DesiredRow :=
  sort_by desired_le
    ((if sentinels
      then [sentinelRow prefix SecretClassification Secret;
            sentinelRow prefix ConfigClassification Var]
      else [])
     ++ map (λ e, {| dr_entry := e; dr_surface := entrySurface e;
                     dr_name := prefix +:+ CanonicalName e |}) manifest).

Definition row_key (r : DesiredRow) : LedgerKey := NewLedgerKey (dr_surface r) (dr_name r).
Definition desiredSet (desired : list DesiredRow) : gset LedgerKey :=
  list_to_set (map row_key desired).

Definition NameSet (names : list string) : gset string := list_to_set (map ToUpper names).

Definition CompletedNames (changes : list Change) : gset LedgerKey :=
  list_to_set (map (λ c, NewLedgerKey (ch_surface c) (ch_name c)) changes).

Definition change_le (a b : Change) : bool :=
  place_le (ch_surface a) (ch_name a) (ch_surface b) (ch_name b).
Definition SortChanges (rows : list Change) : list Change :=
  sort_by change_le rows.

(** The disposition [PlanChanges] gives one desired row. *)
Definition plan_disposition (ledger : gmap LedgerKey LedgerEntry) (providerSecrets : gset string)
    (row : DesiredRow) : Disposition :=
  match ledger !! row_key row with
  | Some record =>
      if held (le_state record) && negb (le_missing record) then Update
      else if bool_decide (dr_surface row = Secret) && bool_decide (dr_name row ∈ providerSecrets)
      then Conflict else Create
  | None =>
      if bool_decide (dr_surface row = Secret) && bool_decide (dr_name row ∈ providerSecrets)
      then Conflict
      else if bool_decide (dr_surface row = Var) then Unknown else Create
  end.

Definition PlanChanges (desired : list DesiredRow) (ledger : gmap LedgerKey LedgerEntry)
    (providerSecrets : gset string) : list Change :=
  SortChanges
    (map (λ row, {| ch_surface := dr_surface row; ch_name := dr_name row;
                    ch_disposition := plan_disposition ledger providerSecrets row |}) desired
     ++ omap (λ kr, if bool_decide (kr.1 ∈ desiredSet desired)
                       || bool_decide (le_state kr.2 = Reserved) then None
                    else Some {| ch_surface := le_surface kr.2; ch_name := le_name kr.2;
                                 ch_disposition := Delete |}) (map_to_list ledger)).

(** [strings.HasSuffix]. *)
Definition has_suffix (s suffix : string) : bool :=
  (String.length suffix <=? String.length s)%nat &&
  bool_decide (String.substring (String.length s - String.length suffix)
                 (String.length suffix) s = suffix).

Definition ledger_le (sentinelsLast : bool) (a b : LedgerEntry) : bool :=
  let sa := sentinelsLast && has_suffix (le_name a) SentinelName in
  let sb := sentinelsLast && has_suffix (le_name b) SentinelName in
  if bool_decide (sa = sb) then place_le (le_surface a) (le_name a) (le_surface b) (le_name b)
  else sb.
Definition sortLedger (rows : list LedgerEntry) (sentinelsLast : bool) : list LedgerEntry :=
  sort_by (ledger_le sentinelsLast) rows.

Definition undesired_rows (desired : list DesiredRow) (ledger : gmap LedgerKey LedgerEntry) :
    list LedgerEntry :=
  (filter (λ kr, kr.1 ∉ desiredSet desired) (map_to_list ledger)).*2.

Definition Undesired (desired : list DesiredRow) (ledger : gmap LedgerKey LedgerEntry) :
    list LedgerEntry * list LedgerEntry :=
  (sortLedger (filter (λ r, le_state r = Reserved) (undesired_rows desired ledger)) false,
   sortLedger (filter (λ r, le_state r ≠ Reserved) (undesired_rows desired ledger)) true).

(** ** [ValidateManifest] *)

Definition has_prefix (p s : string) : bool := String.prefix p s.

Definition ValidateManifest_entry (prefix : string) (seen : gset string) (entry : ManifestEntry) :
    result err (gset string) :=
  let name := prefix +:+ CanonicalName entry in
  if negb (bool_decide (me_class entry = SecretClassification))
     && negb (bool_decide (me_class entry = ConfigClassification)) then Err opaque
  else if bool_decide (name = prefix +:+ SentinelName) then Err opaque
  else if (128 <? String.length name)%nat then Err opaque
  else if negb (effectiveName name) then Err opaque
  else if has_prefix "FORGEJO_" name || has_prefix "GITHUB_" name || has_prefix "GITEA_" name
  then Err opaque
  else if bool_decide (me_class entry = ConfigClassification) && bool_decide (name = "CI")
  then Err opaque
  else if bool_decide (ascii_of_N 13 ∈ String.list_ascii_of_string (me_value entry)) then Err opaque
  else if bool_decide (ToUpper name ∈ seen) then Err opaque
  else Ok ({[ToUpper name]} ∪ seen).

Fixpoint ValidateManifest_from (prefix : string) (seen : gset string)
    (entries : list ManifestEntry) : result err unit :=
  match entries with
  | [] => Ok tt
  | entry :: entries =>
      let! seen := ValidateManifest_entry prefix seen entry in
      ValidateManifest_from prefix seen entries
  end.

Definition ValidateManifest (prefix : string) (entries : list ManifestEntry) : result err unit :=
  ValidateManifest_from prefix ∅ entries.
End ledger.
