(* ===== verification/AdapterJournal.v ===== *)
(** * The durable journal of an adapter job: [store/adapter_runtime.go]

    [adapterJournal] keeps the ownership ledger, the effects with their INTENT
    and OUTCOME audit rows, the provider-write lease and the conflict artifacts
    of one target. Each method is one transaction on [durable]; what the
    surrounding checks of lease, generation and authority answer, whether the
    previous provider lease has expired, and whether a commit whose answer was
    lost took effect, is given by a fault per call, so a statement about every
    fault sequence covers every crash point. *)

From stdpp Require Import prelude gmap strings list.
From Stdlib Require Import ZArith.
From S2P Require Import Prelude StateErr Adapter.

Open Scope Z_scope.

(** ** Rows *)

Record effect_row := {
  er_key : LedgerKey;
  er_disposition : Disposition;
  er_outcome : option Outcome
}.

Inductive audit_row :=
| PushIntent (effect : nat) (k : LedgerKey)
| PushOutcome (effect : nat) (o : Outcome)
| KeyDelivered (keyID : string) (k : LedgerKey).

(** [adapter_ledger], [adapter_effects], the provider lease of the target row,
    [adapter_conflicts] with the attention flag, and the audit trail. *)
Record durable := {
  ledger : gmap LedgerKey LedgerEntry;
  effects : list effect_row;
  lease : option nat;
  conflicts : list (Surface * string);
  attention : bool;
  audit : list audit_row
}.

Definition set_ledger (d : durable) (l : gmap LedgerKey LedgerEntry) : durable :=
  {| ledger := l; effects := effects d; lease := lease d; conflicts := conflicts d;
     attention := attention d; audit := audit d |}.
Definition set_lease (d : durable) (l : option nat) : durable :=
  {| ledger := ledger d; effects := effects d; lease := l; conflicts := conflicts d;
     attention := attention d; audit := audit d |}.
Definition add_audit (d : durable) (r : audit_row) : durable :=
  {| ledger := ledger d; effects := effects d; lease := lease d; conflicts := conflicts d;
     attention := attention d; audit := audit d ++ [r] |}.
Definition set_effects (d : durable) (es : list effect_row) : durable :=
  {| ledger := ledger d; effects := es; lease := lease d; conflicts := conflicts d;
     attention := attention d; audit := audit d |}.

Definition ledger_limit : nat := 10000.

(** The rows an attempt loads: [AdapterWorkerLoadExecutionLedgerQuery] leaves
    released rows out. *)
Definition load_ledger (l : gmap LedgerKey LedgerEntry) : gmap LedgerKey LedgerEntry :=
  filter (λ kr, le_state kr.2 ≠ Released) l.

Definition with_state (r : LedgerEntry) (st : LedgerState) (missing : bool) : LedgerEntry :=
  {| le_surface := le_surface r; le_name := le_name r; le_state := st; le_missing := missing;
     AdoptionPending := AdoptionPending r; AdoptionVersion := AdoptionVersion r;
     AdoptionWitness := AdoptionWitness r |}.

(** ** Transaction bodies *)

Section bodies.
Context `{CaseTable}.

Definition effect_key (e : Effect) : LedgerKey := NewLedgerKey (ef_surface e) (ef_name e).

Definition reserve_body (e : Effect) (d : durable) : result err (durable * LedgerState) :=
  let k := effect_key e in
  let fresh := plainEntry (ef_surface e) (ef_name e) Reserved in
  match ledger d !! k with
  | Some r =>
      match le_state r with
      | Released => Ok (set_ledger d (<[k := fresh]> (ledger d)), Reserved)
      | st => Ok (d, st)
      end
  | None =>
      if (ledger_limit <=? size (load_ledger (ledger d)))%nat
      then Err (sentinel_err ErrLedgerFull)
      else Ok (set_ledger d (<[k := fresh]> (ledger d)), Reserved)
  end.

(** Takes the provider lease, moves the row to [Dispatched], opens the effect. *)
Definition prepare_ledger (e : Effect) (prior : LedgerState) (l : gmap LedgerKey LedgerEntry) :
    result err (gmap LedgerKey LedgerEntry) :=
  let k := effect_key e in
  if RequireExplicitRecovery e then
    match l !! k with
    | Some r =>
        if bool_decide (le_state r ≠ Released)
        then Ok (<[k := with_state r Dispatched (le_missing r)]> l)
        else Err (sentinel_err ErrSuperseded)
    | None => Err (sentinel_err ErrSuperseded)
    end
  else if bool_decide (prior = Reserved) then
    match l !! k with
    | Some r =>
        if bool_decide (le_state r = Reserved)
        then Ok (<[k := with_state r Dispatched (le_missing r)]> l)
        else Err (sentinel_err ErrSuperseded)
    | None => Err (sentinel_err ErrSuperseded)
    end
  else Ok l.

Definition prepare_body (expired : bool) (e : Effect) (prior : LedgerState) (d : durable) :
    result err (durable * nat) :=
  if bool_decide (is_Some (lease d)) && negb expired then Err (sentinel_err ErrProviderBusy)
  else
    let id := length (effects d) in
    let! l := prepare_ledger e prior (ledger d) in
    let d := set_lease (set_ledger d l) (Some id) in
    let d := add_audit d (PushIntent id (effect_key e)) in
    Ok (set_effects d (effects d ++
          [{| er_key := effect_key e; er_disposition := ef_disposition e; er_outcome := None |}]),
        id).

(** One conflict artifact per name; the attention flag is raised each time. *)
Definition insert_conflict (e : Effect) (d : durable) : durable :=
  {| ledger := ledger d; effects := effects d; lease := lease d;
     conflicts := if bool_decide ((ef_surface e, ef_name e) ∈ conflicts d) then conflicts d
                  else conflicts d ++ [(ef_surface e, ef_name e)];
     attention := true; audit := audit d |}.

Definition finish_ledger (e : Effect) (c : Completion) (l : gmap LedgerKey LedgerEntry) :
    result err (gmap LedgerKey LedgerEntry) :=
  let k := effect_key e in
  match l !! k with
  | None => Err (sentinel_err ErrSuperseded)
  | Some r =>
      if ReleaseLedger c then Ok (delete k l)
      else if bool_decide (le_state r = Released) && co_missing c
      then Err (sentinel_err ErrSuperseded)
      else
        let st := if bool_decide (le_state r = Released) then Released
                  else default Released (co_state c) in
        Ok (<[k := with_state r st (co_missing c)]> l)
  end.

Definition close_effect (id : nat) (o : Outcome) (es : list effect_row) :
    option (list effect_row) :=
  r ← es !! id;
  match er_outcome r with
  | Some _ => None
  | None => Some (<[id := {| er_key := er_key r; er_disposition := er_disposition r;
                             er_outcome := Some o |}]> es)
  end.

Definition finish_body (id : nat) (e : Effect) (c : Completion) (d : durable) :
    result err (durable * unit) :=
  let d := add_audit d (PushOutcome id (co_outcome c)) in
  match close_effect id (co_outcome c) (effects d) with
  | None => Err opaque
  | Some es =>
      let d := set_effects d es in
      let d := if co_conflict c then insert_conflict e d else d in
      let! l := finish_ledger e c (ledger d) in
      let d := set_ledger d l in
      let d := if bool_decide (co_outcome c = OutcomeSuccess) && negb (bool_decide (ef_keyID e = ""))
                  && negb (bool_decide (ef_disposition e = Delete))
               then add_audit d (KeyDelivered (ef_keyID e) (effect_key e)) else d in
      if bool_decide (lease d = Some id) then Ok (set_lease d None, tt)
      else Err (sentinel_err ErrSuperseded)
  end.

(** Both deletions require a bare reservation. *)
Definition drop_reservation (e : Effect) (d : durable) : result err (durable * unit) :=
  match ledger d !! effect_key e with
  | Some r =>
      if bool_decide (le_state r = Reserved)
      then Ok (set_ledger d (delete (effect_key e) (ledger d)), tt)
      else Err (sentinel_err ErrSuperseded)
  | None => Err (sentinel_err ErrSuperseded)
  end.

Definition refuse_body (e : Effect) (d : durable) : result err (durable * unit) :=
  drop_reservation e (insert_conflict e d).
End bodies.

(** ** The world an attempt runs in *)

(** What one call meets: an error of its own, whether work whose answer was
    lost took effect, whether a foreign provider lease has expired, and the id
    the provider resolves the destination to. *)
Record fault := {
  f_err : option err;
  f_applied : bool;
  f_expired : bool;
  f_id : Z
}.

(** [provider] is what the destination holds. [ours] (not part of the program)
    marks the names whose content the adapter put there. [calls] records, for
    each request that may change the destination, the durable state it was sent
    in. *)
Record world := {
  provider : gmap LedgerKey string;
  ours : gset LedgerKey;
  db : durable;
  pos : nat;
  calls : list (LedgerKey * durable)
}.

(** The variables of [Sync] and of the journal value: the in-memory ledger, the
    result so far, and the open effect ids. *)
Record SyncResult := {
  Changes : list Change;
  Conflicts : list Change;
  Failed : list Change
}.

Record sstate := {
  st_world : world;
  st_ledger : gmap LedgerKey LedgerEntry;
  st_result : SyncResult;
  st_effects : gmap LedgerKey nat
}.

Definition set_world (s : sstate) (w : world) : sstate :=
  {| st_world := w; st_ledger := st_ledger s; st_result := st_result s; st_effects := st_effects s |}.
Definition set_db (w : world) (d : durable) : world :=
  {| provider := provider w; ours := ours w; db := d; pos := pos w; calls := calls w |}.
Definition tick (w : world) : world :=
  {| provider := provider w; ours := ours w; db := db w; pos := S (pos w); calls := calls w |}.
Definition set_memory (s : sstate) (l : gmap LedgerKey LedgerEntry) : sstate :=
  {| st_world := st_world s; st_ledger := l; st_result := st_result s; st_effects := st_effects s |}.
Definition set_result (s : sstate) (r : SyncResult) : sstate :=
  {| st_world := st_world s; st_ledger := st_ledger s; st_result := r; st_effects := st_effects s |}.
Definition set_open (s : sstate) (m : gmap LedgerKey nat) : sstate :=
  {| st_world := st_world s; st_ledger := st_ledger s; st_result := st_result s; st_effects := m |}.

Abbreviation sync := (M sstate err).

Section journal.
Context `{CaseTable} (faults : nat → fault).

Definition next_fault : sync fault := λ s,
  (set_world s (tick (st_world s)), Ok (faults (pos (st_world s)))).

(** One transaction: an error of the body rolls back; an error of the call may
    hide a commit. *)
Definition transaction {A} (body : durable → result err (durable * A)) : sync A :=
  do* f := next_fault in
  λ s, match f_err f, body (db (st_world s)) with
       | None, Ok (d, a) => (set_world s (set_db (st_world s) d), Ok a)
       | None, Err e => (s, Err e)
       | Some e, Ok (d, _) =>
           (if f_applied f then set_world s (set_db (st_world s) d) else s, Err e)
       | Some e, Err _ => (s, Err e)
       end.

Definition Gate (e : Effect) : sync unit :=
  do* f := next_fault in
  match f_err f with Some e => fail e | None => ret tt end.

Definition Reserve (e : Effect) : sync LedgerState := transaction (reserve_body e).

Definition Prepare (e : Effect) (prior : LedgerState) : sync unit :=
  do* expired := gets (λ s, f_expired (faults (pos (st_world s)))) in
  do* id := transaction (prepare_body expired e prior) in
  modify (λ s, set_open s (<[effect_key e := id]> (st_effects s))).

Definition Finish (e : Effect) (c : Completion) : sync unit :=
  do* id := gets (λ s, st_effects s !! effect_key e) in
  match id with
  | None => fail opaque
  | Some id =>
      match ValidateCompletion c with
      | Err x => fail x
      | Ok _ =>
          do* _ := transaction (finish_body id e c) in
          modify (λ s, set_open s (delete (effect_key e) (st_effects s)))
      end
  end.

Definition Refuse (e : Effect) : sync unit := transaction (refuse_body e).
Definition ReleaseReservation (e : Effect) : sync unit := transaction (drop_reservation e).
End journal.
