(* ===== verification/ForgejoSync.v ===== *)
(** * The reference deployment module: [adapter/forgejo/module.go]

    [Sync] converges a destination on the published manifest through the
    provider API and the durable journal. The provider is a map from names to
    contents with the REST behaviour of [forgejo/client.go]; a call may also be
    answered by a refusal or lose its answer, with or without having taken
    effect. *)

From stdpp Require Import prelude gmap strings list.
From Stdlib Require Import ZArith.
From S2P Require Import Prelude StringFacts StateErr Adapter AdapterJournal.

Open Scope Z_scope.

(** ** The provider API *)

Inductive api_op :=
| PutSecret (name value : string)
| DeleteSecret (name : string)
| CreateVariable (name value : string)
| UpdateVariable (name value : string)
| DeleteVariable (name : string).

Definition StatusConflict : Z := 409.
Definition StatusUnprocessableEntity : Z := 422.
Definition StatusNotFound : Z := 404.

(** A [ResponseError]; 401 and 403 are joined with [ErrProviderAuth]. *)
Definition ResponseError (status : Z) : err :=
  {| chain := if bool_decide (status = 401 ∨ status = 403) then [ErrProviderAuth] else [];
     response := Some status; retryAt := None |}.

Definition IsConflict (e : err) : bool :=
  bool_decide (response e = Some StatusConflict ∨ response e = Some StatusUnprocessableEntity).
Definition IsNotFound (e : err) : bool := bool_decide (response e = Some StatusNotFound).
Definition client_error (e : err) : bool :=
  match response e with Some s => (400 <=? s) && (s <? 500) | None => false end.

Definition op_target (op : api_op) : LedgerKey :=
  match op with
  | PutSecret n _ | DeleteSecret n => (Secret, n)
  | CreateVariable n _ | UpdateVariable n _ | DeleteVariable n => (Var, n)
  end.

(** What the destination does with a request it answers. *)
Definition serve (op : api_op) (p : gmap LedgerKey string) : result err (gmap LedgerKey string) :=
  let k := op_target op in
  match op with
  | PutSecret _ v => Ok (<[k := v]> p)
  | CreateVariable _ v =>
      if bool_decide (is_Some (p !! k)) then Err (ResponseError StatusConflict)
      else Ok (<[k := v]> p)
  | UpdateVariable _ v =>
      if bool_decide (is_Some (p !! k)) then Ok (<[k := v]> p)
      else Err (ResponseError StatusNotFound)
  | DeleteSecret _ | DeleteVariable _ =>
      if bool_decide (is_Some (p !! k)) then Ok (delete k p)
      else Err (ResponseError StatusNotFound)
  end.

(** A request that took effect: content written where there was none becomes
    ours, deleted content stops being ours. *)
Definition apply_op (op : api_op) (w : world) (p : gmap LedgerKey string) : world :=
  let k := op_target op in
  {| provider := p;
     ours := match op with
             | DeleteSecret _ | DeleteVariable _ => ours w ∖ {[k]}
             | _ => if bool_decide (is_Some (provider w !! k)) then ours w else {[k]} ∪ ours w
             end;
     db := db w; pos := pos w; calls := calls w |}.

Definition log_call (op : api_op) (w : world) : world :=
  {| provider := provider w; ours := ours w; db := db w; pos := pos w;
     calls := calls w ++ [(op_target op, db w)] |}.

Section module.
Context `{CaseTable} (faults : nat → fault).

(** A request. A status of the 4xx range is an answer to a request that was not
    performed; any other failure says nothing about the effect. *)
Definition request (op : api_op) : sync unit :=
  do* _ := modify (λ s, set_world s (log_call op (st_world s))) in
  do* f := next_fault faults in
  λ s, let w := st_world s in
       match f_err f, serve op (provider w) with
       | None, Ok p => (set_world s (apply_op op w p), Ok tt)
       | None, Err e => (s, Err e)
       | Some e, Ok p =>
           (if negb (client_error e) && f_applied f then set_world s (apply_op op w p) else s, Err e)
       | Some e, Err _ => (s, Err e)
       end.

Definition ListSecretNames : sync (list string) :=
  do* f := next_fault faults in
  match f_err f with
  | Some e => fail e
  | None => gets (λ s, omap (λ kv, if bool_decide (kv.1.1 = Secret) then Some kv.1.2 else None)
                         (map_to_list (provider (st_world s))))
  end.

(** [NumericID] of the configured destination. *)
Definition verifyDestination (numericID : Z) : sync unit :=
  do* f := next_fault faults in
  match f_err f with
  | Some e => fail e
  | None => if bool_decide (f_id f = numericID) then ret tt else fail (sentinel_err ErrDestinationID)
  end.

Definition write (row : DesiredRow) (prior : LedgerState) (forceCreate : bool) : sync unit :=
  let v := me_value (dr_entry row) in
  match dr_surface row with
  | Secret => request (PutSecret (dr_name row) v)
  | Var =>
      if negb forceCreate && held prior then request (UpdateVariable (dr_name row) v)
      else request (CreateVariable (dr_name row) v)
  end.

Definition delete_name (s : Surface) (name : string) : sync unit :=
  match s with
  | Secret => request (DeleteSecret name)
  | Var => request (DeleteVariable name)
  end.

(** ** [Sync] *)

Definition change (s : Surface) (name : string) (d : Disposition) : Change :=
  {| ch_surface := s; ch_name := name; ch_disposition := d |}.

Definition add_change (c : Change) (r : SyncResult) : SyncResult :=
  {| Changes := Changes r ++ [c]; Conflicts := Conflicts r; Failed := Failed r |}.
Definition add_conflict (c : Change) (r : SyncResult) : SyncResult :=
  {| Changes := Changes r; Conflicts := Conflicts r ++ [c]; Failed := Failed r |}.
Definition add_failed (c : Change) (r : SyncResult) : SyncResult :=
  {| Changes := Changes r; Conflicts := Conflicts r; Failed := Failed r ++ [c] |}.
Definition record (f : SyncResult → SyncResult) : sync unit :=
  modify (λ s, set_result s (f (st_result s))).

Definition completion (o : Outcome) (st : option LedgerState) : Completion :=
  {| co_outcome := o; co_state := st; ReleaseLedger := bool_decide (st = None);
     co_conflict := false; co_missing := false; Finding := "" |}.
Definition mark_missing (missing : bool) (c : Completion) : Completion :=
  if missing then
    {| co_outcome := co_outcome c; co_state := co_state c; ReleaseLedger := ReleaseLedger c;
       co_conflict := co_conflict c; co_missing := true; Finding := "owned_missing" |}
  else c.

(** Gate, destination check, gate, INTENT, gate. A refused last gate closes the
    effect as failed in its prior state. *)
Definition open_effect (numericID : Z) (e : Effect) (state : LedgerState) (missing : bool) :
    sync unit :=
  do* _ := Gate faults e in
  do* _ := verifyDestination numericID in
  do* _ := Gate faults e in
  do* _ := Prepare faults e state in
  do* g := try (Gate faults e) in
  match g with
  | Ok _ => ret tt
  | Err gateErr =>
      do* _ := Finish faults e (mark_missing missing (completion OutcomeFailure (Some state))) in
      fail gateErr
  end.

(** The branch of a failed write. *)
Definition write_failed (e : Effect) (row : DesiredRow) (claimed : bool) (state : LedgerState)
    (missing : bool) (x : err) : sync unit :=
  let absenceProven :=
    bool_decide (dr_surface row = Var) && negb missing && held state && IsNotFound x in
  if bool_decide (dr_surface row = Var)
     && (bool_decide (state = Reserved) || negb claimed || missing) && IsConflict x
  then
    do* _ := Finish faults e
      {| co_outcome := OutcomeFailure; co_state := if missing then Some state else None;
         ReleaseLedger := negb missing; co_conflict := true; co_missing := missing;
         Finding := if missing then "owned_missing" else "" |} in
    do* _ := record (add_conflict (change (dr_surface row) (dr_name row) Conflict)) in
    fail (sentinel_err ErrConflict)
  else
    let outcome := if client_error x then OutcomeFailure else OutcomeUnknown in
    let finalState :=
      if client_error x then
        if bool_decide (state = Reserved) || absenceProven then None else Some state
      else Some Dispatched in
    do* _ := Finish faults e (mark_missing missing (completion outcome finalState)) in
    do* _ := record (add_failed (change (dr_surface row) (dr_name row) (ef_disposition e))) in
    if bool_decide (outcome = OutcomeUnknown) then fail (sentinel_err ErrIndeterminate) else fail x.

(** The claim: the in-memory row, or a fresh reservation. *)
Definition claim_row (e : Effect) (row : DesiredRow) (record : option LedgerEntry) :
    sync LedgerEntry :=
  match record with
  | Some r => ret r
  | None =>
      do* st := Reserve faults e in
      let r := plainEntry (dr_surface row) (dr_name row) st in
      do* _ := modify (λ s, set_memory s (<[row_key row := r]> (st_ledger s))) in
      ret r
  end.

(** One desired row. *)
Definition push_row (numericID : Z) (providerSecrets : gset string) (completed : gset LedgerKey)
    (row : DesiredRow) : sync unit :=
  if bool_decide (row_key row ∈ completed) then ret tt
  else
    do* found := gets (λ s, st_ledger s !! row_key row) in
    let claimed := bool_decide (is_Some found) in
    let update := match found with
                  | Some r => held (le_state r) && negb (le_missing r)
                  | None => false
                  end in
    let e := {| ef_surface := dr_surface row; ef_name := dr_name row;
                ef_disposition := if update then Update else Create;
                ef_keyID := KeyID (dr_entry row); RequireExplicitRecovery := false |} in
    do* r := claim_row e row found in
    let state := le_state r in
    let missing := le_missing r in
    if bool_decide (state = Reserved) && bool_decide (dr_surface row = Secret)
       && bool_decide (dr_name row ∈ providerSecrets)
    then
      do* _ := Refuse faults e in
      do* _ := record (add_conflict (change (dr_surface row) (dr_name row) Conflict)) in
      fail (sentinel_err ErrConflict)
    else
      do* _ := open_effect numericID e state missing in
      do* w := try (write row state missing) in
      match w with
      | Err x => write_failed e row claimed state missing x
      | Ok _ =>
          do* _ := Finish faults e (completion OutcomeSuccess (Some Owned)) in
          do* _ := modify (λ s, set_memory s
            (<[row_key row := plainEntry (dr_surface row) (dr_name row) Owned]> (st_ledger s))) in
          record (add_change (change (dr_surface row) (dr_name row) (ef_disposition e)))
      end.

Definition delete_effect (r : LedgerEntry) : Effect :=
  {| ef_surface := le_surface r; ef_name := le_name r; ef_disposition := Delete;
     ef_keyID := ""; RequireExplicitRecovery := false |}.

Definition release_row (r : LedgerEntry) : sync unit :=
  do* _ := Gate faults (delete_effect r) in
  do* _ := ReleaseReservation faults (delete_effect r) in
  record (add_change (change (le_surface r) (le_name r) Delete)).

Definition prune_row (numericID : Z) (r : LedgerEntry) : sync unit :=
  let e := delete_effect r in
  do* _ := open_effect numericID e (le_state r) false in
  do* d := try (delete_name (le_surface r) (le_name r)) in
  match d with
  | Err x =>
      if negb (IsNotFound x) then
        do* _ := Finish faults e
          (completion (if client_error x then OutcomeFailure else OutcomeUnknown)
             (Some (le_state r))) in
        do* _ := record (add_failed (change (le_surface r) (le_name r) Delete)) in
        fail x
      else
        do* _ := Finish faults e (completion OutcomeSuccess (Some Released)) in
        record (add_change (change (le_surface r) (le_name r) Delete))
  | Ok _ =>
      do* _ := Finish faults e (completion OutcomeSuccess (Some Released)) in
      record (add_change (change (le_surface r) (le_name r) Delete))
  end.

Record SyncRequest := {
  NumericID : Z;
  NamePrefix : string;
  Manifest : list ManifestEntry;
  Ledger : list LedgerEntry;
  Teardown : bool;
  Completed : list Change
}.

Definition inspect : Effect :=
  {| ef_surface := Secret; ef_name := "*"; ef_disposition := Update; ef_keyID := "";
     RequireExplicitRecovery := false |}.

Definition lift {A} (r : result err A) : sync A :=
  match r with Ok a => ret a | Err e => fail e end.

Definition sync_body (req : SyncRequest) : sync unit :=
  do* _ := lift (ValidateManifest (NamePrefix req) (Manifest req)) in
  do* _ := Gate faults inspect in
  do* _ := verifyDestination (NumericID req) in
  do* _ := Gate faults inspect in
  do* secretNames := ListSecretNames in
  do* index := lift (IndexLedger (Ledger req)) in
  do* _ := modify (λ s, set_memory s index) in
  let desired := DesiredRows (NamePrefix req) (Manifest req) (negb (Teardown req)) in
  do* _ := for_each desired
    (push_row (NumericID req) (NameSet secretNames) (CompletedNames (Completed req))) in
  do* undesired := gets (λ s, Undesired desired (st_ledger s)) in
  do* _ := for_each undesired.1 release_row in
  for_each undesired.2 (prune_row (NumericID req)).

Definition start (w : world) : sstate :=
  {| st_world := w; st_ledger := ∅;
     st_result := {| Changes := []; Conflicts := []; Failed := [] |}; st_effects := ∅ |}.

Definition Sync (req : SyncRequest) (w : world) : world * SyncResult * option err :=
  let '(s, r) := sync_body req (start w) in
  (st_world s, st_result s, match r with Ok _ => None | Err e => Some e end).
End module.
