(* ===== verification/SyncRules.v ===== *)
(** * Rules for the calls of an adapter attempt

    One rule per call of [AdapterJournal.v] and [ForgejoSync.v]: what the world
    may look like after it, on success and on error, for every fault. *)

From stdpp Require Import prelude gmap strings list.
From Stdlib Require Import ZArith.
From S2P Require Import Prelude StateErr Adapter AdapterJournal ForgejoSync.

(** The state with another world and other open effects. *)
Definition upd (s : sstate) (prov : gmap LedgerKey string) (own : gset LedgerKey) (d : durable)
    (p : nat) (cs : list (LedgerKey * durable)) (open : gmap LedgerKey nat) : sstate :=
  {| st_world := {| provider := prov; ours := own; db := d; pos := p; calls := cs |};
     st_ledger := st_ledger s; st_result := st_result s; st_effects := open |}.

(** The same with only the durable rows changed. *)
Definition at_db (s : sstate) (d : durable) (p : nat) : sstate :=
  upd s (provider (st_world s)) (ours (st_world s)) d p (calls (st_world s)) (st_effects s).

(** The provider lease belongs to [id], whose INTENT for [k] is open. *)
Definition opened (k : LedgerKey) (id : nat) (d : durable) : Prop :=
  lease d = Some id ∧
  ∃ r, effects d !! id = Some r ∧ er_key r = k ∧ er_outcome r = None.

(** A 404 is only ever answered for an absent name. *)
Definition truthful (faults : nat → fault) : Prop :=
  ∀ n x, f_err (faults n) = Some x → response x ≠ Some StatusNotFound.

Section rules.
Context `{CaseTable} (faults : nat → fault).

Lemma wp_Gate e s (Q : unit → sstate → Prop) (R : err → sstate → Prop) :
  (∀ p, Q tt (at_db s (db (st_world s)) p)) → (∀ x p, R x (at_db s (db (st_world s)) p)) →
  wp (Gate faults e) s Q R.
Proof.
  intros HQ HR. unfold wp, Gate, bind, next_fault. destruct (f_err _) as [x|]; [apply HR|apply HQ].
Qed.

Lemma wp_verify n s (Q : unit → sstate → Prop) (R : err → sstate → Prop) :
  (∀ p, Q tt (at_db s (db (st_world s)) p)) → (∀ x p, R x (at_db s (db (st_world s)) p)) →
  wp (verifyDestination faults n) s Q R.
Proof.
  intros HQ HR. unfold wp, verifyDestination, bind, next_fault.
  destruct (f_err _) as [x|]; [apply HR|]. case_bool_decide; [apply HQ|apply HR].
Qed.

Lemma wp_transaction {A} (body : durable → result err (durable * A)) s Q R :
  (∀ d a p, body (db (st_world s)) = Ok (d, a) → Q a (at_db s d p)) →
  (∀ x p, R x (at_db s (db (st_world s)) p)) →
  (∀ x d a p, body (db (st_world s)) = Ok (d, a) → R x (at_db s d p)) →
  wp (transaction faults body) s Q R.
Proof.
  intros HQ HR HL. unfold wp, transaction, bind, next_fault. cbn [st_world set_world tick db].
  destruct (f_err _) as [x|]; destruct (body _) as [[d a]|x'] eqn:E.
  - destruct (f_applied _); [by eapply HL|apply HR].
  - apply HR.
  - by apply HQ.
  - apply HR.
Qed.

Lemma wp_request op s (Q : unit → sstate → Prop) (R : err → sstate → Prop) :
  truthful faults →
  let w := st_world s in
  let sent p := upd s (provider w) (ours w) (db w) p (calls w ++ [(op_target op, db w)]) (st_effects s) in
  let done p pv := set_world (sent p) (apply_op op (st_world (sent p)) pv) in
  (∀ p pv, serve op (provider w) = Ok pv → Q tt (done p pv)) →
  (∀ x p, (IsNotFound x = true → provider w !! op_target op = None) → R x (sent p)) →
  (∀ x p pv, serve op (provider w) = Ok pv → client_error x = false → R x (done p pv)) →
  wp (request faults op) s Q R.
Proof.
  intros Ht w sent done HQ HN HL. unfold wp, request, bind, modify, next_fault.
  cbn [st_world set_world log_call pos tick provider].
  destruct (f_err _) as [x|] eqn:Ef.
  - assert (IsNotFound x = false) as Hnf.
    { unfold IsNotFound. apply bool_decide_false. by eapply Ht. }
    destruct (serve op (provider (st_world s))) as [pv|x'] eqn:Es.
    + destruct (negb (client_error x) && _) eqn:Ec.
      * apply andb_true_iff in Ec as [Ec%negb_true_iff _]. by apply HL.
      * apply HN. congruence.
    + apply HN. congruence.
  - destruct (serve op (provider (st_world s))) as [pv|x'] eqn:Es; [by apply HQ|].
    apply HN. intros Hnf. unfold serve in Es.
    destruct op; repeat case_bool_decide; try done; injection Es as <-;
      try (by vm_compute in Hnf); by apply eq_None_not_Some.
Qed.

(** ** The transactions of the journal *)

Definition dispatched (r : LedgerEntry) : LedgerEntry :=
  if bool_decide (le_state r = Reserved) then with_state r Dispatched (le_missing r) else r.

Lemma prepare_body_Ok expired e prior d r d' id :
  RequireExplicitRecovery e = false → ledger d !! effect_key e = Some r → le_state r = prior →
  prepare_body expired e prior d = Ok (d', id) →
  ledger d' = <[effect_key e := dispatched r]> (ledger d) ∧ opened (effect_key e) id d'.
Proof.
  intros Hrec Hr Hst. unfold prepare_body. case_match; [done|].
  intros (l & Hl & E)%rbind_Ok. injection E as <- <-. simpl.
  split.
  - unfold prepare_ledger, dispatched in *. rewrite Hrec, Hr in Hl. subst prior.
    destruct (bool_decide (le_state r = Reserved)); injection Hl as <-; [done|by rewrite insert_id].
  - split; [done|]. eexists. cbn [effects set_effects].
    split; [by apply list_lookup_middle|done].
Qed.

Lemma wp_Prepare e prior s r (Q : unit → sstate → Prop) (R : err → sstate → Prop) :
  RequireExplicitRecovery e = false →
  ledger (db (st_world s)) !! effect_key e = Some r → le_state r = prior →
  (∀ d id p, ledger d = <[effect_key e := dispatched r]> (ledger (db (st_world s))) →
     opened (effect_key e) id d →
     Q tt (set_open (at_db s d p) (<[effect_key e := id]> (st_effects s)))) →
  (∀ x d p, ledger d = ledger (db (st_world s)) ∨
            ledger d = <[effect_key e := dispatched r]> (ledger (db (st_world s))) →
     R x (at_db s d p)) →
  wp (Prepare faults e prior) s Q R.
Proof.
  intros Hrec Hr Hst HQ HR. unfold Prepare. apply wp_bind, wp_gets, wp_bind, wp_transaction.
  - intros d id p Hb. apply wp_modify.
    destruct (prepare_body_Ok _ _ _ _ _ _ _ Hrec Hr Hst Hb) as [Hl Ho]. by apply HQ.
  - intros x p. apply HR. by left.
  - intros x d id p Hb. apply HR. right.
    by destruct (prepare_body_Ok _ _ _ _ _ _ _ Hrec Hr Hst Hb).
Qed.

(** The ledger a completion leaves. *)
Definition finished (k : LedgerKey) (r : LedgerEntry) (c : Completion)
    (l : gmap LedgerKey LedgerEntry) : gmap LedgerKey LedgerEntry :=
  if ReleaseLedger c then delete k l
  else <[k := with_state r (default Released (co_state c)) (co_missing c)]> l.

Lemma finish_body_ledger id e c d r d' u :
  ledger d !! effect_key e = Some r → le_state r ≠ Released →
  finish_body id e c d = Ok (d', u) → ledger d' = finished (effect_key e) r c (ledger d).
Proof.
  intros Hr Hst. unfold finish_body. cbv zeta.
  destruct (close_effect _ _ _) as [es|]; [|done].
  intros (l & Hl & E)%rbind_Ok. case_bool_decide; [|done]. injection E as <- <-.
  assert (ledger (if co_conflict c then insert_conflict e (set_effects (add_audit d (PushOutcome id (co_outcome c))) es)
                  else set_effects (add_audit d (PushOutcome id (co_outcome c))) es) = ledger d) as Hsame
    by (by destruct (co_conflict c)).
  rewrite Hsame in Hl. unfold finish_ledger in Hl. rewrite Hr in Hl.
  rewrite bool_decide_false in Hl by done. simpl in Hl.
  assert (l = finished (effect_key e) r c (ledger d)) as <-
    by (unfold finished; destruct (ReleaseLedger c); by injection Hl).
  by destruct (_ && _).
Qed.

Lemma wp_Finish e c s r id (Q : unit → sstate → Prop) (R : err → sstate → Prop) :
  st_effects s !! effect_key e = Some id → ValidateCompletion c = Ok tt →
  ledger (db (st_world s)) !! effect_key e = Some r → le_state r ≠ Released →
  let l' := finished (effect_key e) r c (ledger (db (st_world s))) in
  (∀ d p, ledger d = l' →
     Q tt (set_open (at_db s d p) (delete (effect_key e) (st_effects s)))) →
  (∀ x d p, ledger d = ledger (db (st_world s)) ∨ ledger d = l' → R x (at_db s d p)) →
  wp (Finish faults e c) s Q R.
Proof.
  intros Hid Hv Hr Hst l' HQ HR. unfold Finish. apply wp_bind, wp_gets. rewrite Hid, Hv.
  apply wp_bind, wp_transaction.
  - intros d u p Hb. apply wp_modify. apply HQ. by eapply finish_body_ledger.
  - intros x p. apply HR. by left.
  - intros x d u p Hb. apply HR. right. by eapply finish_body_ledger.
Qed.
End rules.
