(* ===== verification/SyncFacts.v ===== *)
(** * What one row of a sync does, for every fault

    A row of [Sync] touches one name. [view] is what the ledger, the destination
    and the ghost set say of a name, [key_ok] the per-name guarantee, and [L]
    the invariant of the calls made for one row. *)

From stdpp Require Import prelude gmap strings list.
From Stdlib Require Import ZArith.
From S2P Require Import Prelude StateErr Adapter AdapterJournal ForgejoSync SyncRules.

Definition kview : Type := option LedgerEntry * option string * bool.
Definition view (w : world) (k : LedgerKey) : kview :=
  (ledger (db w) !! k, provider w !! k, bool_decide (k ∈ ours w)).

Definition holds (lr : option LedgerEntry) : bool :=
  match lr with Some r => held (le_state r) | None => false end.

Definition row_wf (k : LedgerKey) (lr : option LedgerEntry) : Prop :=
  ∀ r, lr = Some r →
    (le_surface r, le_name r) = k ∧ (le_missing r = true → held (le_state r) = true).

(** Rows are well formed; content of ours is held by the ledger; a name the
    ledger did not hold at the start keeps the content it had. *)
Definition key_ok (k : LedgerKey) (v0 v : kview) : Prop :=
  row_wf k v.1.1 ∧
  (v.2 = true → holds v.1.1 = true ∧ is_Some v.1.2) ∧
  (holds v0.1.1 = false → ∀ x, v0.1.2 = Some x → v.1.2 = Some x).

(** Each request was sent under a held row, the provider lease and an open INTENT. *)
Definition call_ok (c : LedgerKey * durable) : Prop :=
  ∃ r id, ledger c.2 !! c.1 = Some r ∧ held (le_state r) = true ∧ opened c.1 id c.2.

Definition good (w0 w : world) : Prop :=
  (∀ k, key_ok k (view w0 k) (view w k)) ∧ Forall call_ok (calls w).

Lemma key_ok_ledger k v0 lr pv o lr' :
  key_ok k v0 (lr, pv, o) → row_wf k lr' → (o = true → holds lr' = true) →
  key_ok k v0 (lr', pv, o).
Proof. intros (_ & Ho & Hc) Hwf Ho'. split; [done|]. split; [|done]. intros E. split; [auto|by apply Ho]. Qed.

Lemma held_Some s : held s = true ↔ s = Owned ∨ s = Dispatched.
Proof. unfold held. bsimp. tauto. Qed.

Lemma dispatched_held r : le_state r ≠ Released → held (le_state (dispatched r)) = true.
Proof. unfold dispatched. case_bool_decide; intros Hr; apply held_Some; simpl; [by right|]. destruct (le_state r); first [congruence|auto]. Qed.

Lemma dispatched_name r : le_surface (dispatched r) = le_surface r ∧ le_name (dispatched r) = le_name r ∧
  le_missing (dispatched r) = le_missing r.
Proof. unfold dispatched. by case_bool_decide. Qed.

Section row.
Context `{CaseTable} (faults : nat → fault) (Htrue : truthful faults).
Context (w0 : world) (k : LedgerKey) (s1 : sstate).

(** Since [s1] only [k] was touched, and this is what is known of it. *)
Definition L (s : sstate) (lr : option LedgerEntry) (pv : option string) (o : bool) : Prop :=
  (∀ k', k' ≠ k → view (st_world s) k' = view (st_world s1) k') ∧
  view (st_world s) k = (lr, pv, o) ∧
  Forall call_ok (calls (st_world s)) ∧
  (∀ k', k' ≠ k → st_ledger s !! k' = st_ledger s1 !! k').

Lemma L_good s lr pv o :
  good w0 (st_world s1) → L s lr pv o → key_ok k (view w0 k) (lr, pv, o) → good w0 (st_world s).
Proof.
  intros [Hg _] (Ht & Hv & Hc & _) Hk. split; [|done]. intros k'.
  destruct (decide (k' = k)) as [->|Hne]; [by rewrite Hv|]. rewrite Ht by done. apply Hg.
Qed.

Lemma L_start lr pv o :
  Forall call_ok (calls (st_world s1)) → view (st_world s1) k = (lr, pv, o) → L s1 lr pv o.
Proof. done. Qed.

Lemma L_ledger s lr pv o : L s lr pv o → ledger (db (st_world s)) !! k = lr.
Proof. intros (_ & Hv & _). unfold view in Hv. by injection Hv. Qed.
Lemma L_provider s lr pv o : L s lr pv o → provider (st_world s) !! k = pv.
Proof. intros (_ & Hv & _). unfold view in Hv. by injection Hv. Qed.
Lemma L_ours s lr pv o : L s lr pv o → bool_decide (k ∈ ours (st_world s)) = o.
Proof. intros (_ & Hv & _). unfold view in Hv. by injection Hv. Qed.

(** A change of the durable rows at [k]. *)
Lemma L_db s lr pv o d p lr' :
  L s lr pv o → (∀ k', k' ≠ k → ledger d !! k' = ledger (db (st_world s)) !! k') →
  ledger d !! k = lr' → L (at_db s d p) lr' pv o.
Proof.
  intros (Ht & Hv & Hc & Hm) Hd Hk. split; [|split; [|by split]].
  - intros k' Hk'. rewrite <- Ht by done. unfold view. simpl. by rewrite Hd.
  - unfold view in *. simpl. rewrite Hk. by injection Hv as _ -> ->.
Qed.

Lemma L_same s lr pv o d p :
  L s lr pv o → ledger d = ledger (db (st_world s)) → L (at_db s d p) lr pv o.
Proof. intros HL E. eapply L_db; [done|by rewrite E|]. rewrite E. by eapply L_ledger. Qed.

Lemma L_insert s lr pv o d p r :
  L s lr pv o → ledger d = <[k := r]> (ledger (db (st_world s))) → L (at_db s d p) (Some r) pv o.
Proof.
  intros HL E. eapply L_db; [done| |].
  - intros k' Hk'. by rewrite E, lookup_insert_ne by done.
  - by rewrite E, lookup_insert_eq.
Qed.

Lemma L_delete s lr pv o d p :
  L s lr pv o → ledger d = delete k (ledger (db (st_world s))) → L (at_db s d p) None pv o.
Proof.
  intros HL E. eapply L_db; [done| |].
  - intros k' Hk'. by rewrite E, lookup_delete_ne by done.
  - by rewrite E, lookup_delete_eq.
Qed.

Lemma L_settled s lr pv o d p r c st :
  L s lr pv o → ReleaseLedger c = false → co_state c = Some st →
  ledger d = finished k r c (ledger (db (st_world s))) →
  L (at_db s d p) (Some (with_state r st (co_missing c))) pv o.
Proof. intros HL Hr Hs E. unfold finished in E. rewrite Hr, Hs in E. by eapply L_insert. Qed.

Lemma L_released s lr pv o d p r c :
  L s lr pv o → ReleaseLedger c = true →
  ledger d = finished k r c (ledger (db (st_world s))) → L (at_db s d p) None pv o.
Proof. intros HL Hr E. unfold finished in E. rewrite Hr in E. by eapply L_delete. Qed.

Lemma L_open s lr pv o m : L s lr pv o → L (set_open s m) lr pv o.
Proof. done. Qed.
Lemma L_result s lr pv o r : L s lr pv o → L (set_result s r) lr pv o.
Proof. done. Qed.
Lemma L_memory s lr pv o r : L s lr pv o → L (set_memory s (<[k := r]> (st_ledger s))) lr pv o.
Proof.
  intros (? & ? & ? & Hm). split; [done|]. split; [done|]. split; [done|].
  intros k' Hk'. simpl. rewrite lookup_insert_ne by done. auto.
Qed.

(** A request for [k], sent and performed. *)
Lemma L_sent s r pv o p id :
  L s (Some r) pv o → held (le_state r) = true → opened k id (db (st_world s)) →
  L (upd s (provider (st_world s)) (ours (st_world s)) (db (st_world s)) p
       (calls (st_world s) ++ [(k, db (st_world s))]) (st_effects s)) (Some r) pv o.
Proof.
  intros HL Hh Ho. pose proof (L_ledger _ _ _ _ HL) as Hr. destruct HL as (Ht & Hv & Hc & Hm).
  split; [done|]. split; [done|]. split; [|done]. apply Forall_app. split; [done|].
  constructor; [|constructor]. by exists r, id.
Qed.

Lemma L_put s lr pv o v op :
  op_target op = k →
  (∀ w p, ours (apply_op op w p) =
     if bool_decide (is_Some (provider w !! k)) then ours w else {[k]} ∪ ours w) →
  L s lr pv o →
  L (set_world s (apply_op op (st_world s) (<[k := v]> (provider (st_world s))))) lr (Some v)
    (o || bool_decide (pv = None)).
Proof.
  intros Hop Hours HL. pose proof (L_provider _ _ _ _ HL) as Hpv.
  destruct HL as (Ht & Hv & Hc & Hm). split; [|split; [|by split]].
  - intros k' Hk'. rewrite <- Ht by done. unfold view. cbn [st_world set_world]. rewrite Hours.
    cbn [apply_op db provider]. rewrite lookup_insert_ne by done. f_equal.
    apply bool_decide_ext. case_bool_decide; set_solver.
  - unfold view in *. cbn [st_world set_world]. rewrite Hours. cbn [apply_op db provider].
    rewrite lookup_insert_eq, Hpv. injection Hv as -> _ <-. f_equal.
    destruct pv as [x|].
    + rewrite (bool_decide_true (is_Some (Some x))) by (by eexists).
      by rewrite (bool_decide_false (Some x = None)), orb_false_r by done.
    + rewrite (bool_decide_false (is_Some None)) by (by intros [? ?]).
      rewrite (bool_decide_true (None = None)), orb_true_r by done.
      apply bool_decide_true. set_solver.
Qed.

Lemma L_remove s lr pv o op :
  op_target op = k → (∀ w p, ours (apply_op op w p) = ours w ∖ {[k]}) → L s lr pv o →
  L (set_world s (apply_op op (st_world s) (delete k (provider (st_world s))))) lr None false.
Proof.
  intros Hop Hours (Ht & Hv & Hc & Hm). split; [|split; [|by split]].
  - intros k' Hk'. rewrite <- Ht by done. unfold view. cbn [st_world set_world]. rewrite Hours.
    cbn [apply_op db provider]. rewrite lookup_delete_ne by done. f_equal.
    apply bool_decide_ext. set_solver.
  - unfold view in *. cbn [st_world set_world]. rewrite Hours. cbn [apply_op db provider].
    rewrite lookup_delete_eq. injection Hv as -> _ _. f_equal. apply bool_decide_false. set_solver.
Qed.

(** ** Opening an effect *)

(** The row after a failed attempt: its name, its state or [Dispatched]. *)
Definition like (r r' : LedgerEntry) : Prop :=
  le_surface r' = le_surface r ∧ le_name r' = le_name r ∧
  (le_state r' = le_state r ∨ le_state r' = Dispatched) ∧
  (le_missing r' = true → le_missing r = true).

Lemma like_refl r : like r r.
Proof. unfold like. tauto. Qed.
Lemma like_dispatched r : like r (dispatched r).
Proof. unfold like, dispatched. case_bool_decide; simpl; tauto. Qed.

Lemma completion_valid o st : ValidateCompletion (completion o (Some st)) = Ok tt.
Proof. done. Qed.
Lemma completion_release o : ValidateCompletion (completion o None) = Ok tt.
Proof. done. Qed.
Lemma mark_missing_valid m o st :
  (m = true → held st = true) → ValidateCompletion (mark_missing m (completion o (Some st))) = Ok tt.
Proof. destruct m; [|done]. intros Hh. unfold ValidateCompletion, validateMissingState. simpl. by rewrite Hh. Qed.

Lemma rule_open_effect n e missing s r pv o (Q : unit → sstate → Prop) (R : err → sstate → Prop) :
  effect_key e = k → RequireExplicitRecovery e = false → L s (Some r) pv o →
  le_state r ≠ Released → (missing = true → le_missing r = true ∧ held (le_state r) = true) →
  (∀ s' id, L s' (Some (dispatched r)) pv o → st_effects s' !! k = Some id →
     opened k id (db (st_world s')) → st_ledger s' = st_ledger s → Q tt s') →
  (∀ x s' r', L s' (Some r') pv o → like r r' → R x s') →
  wp (open_effect faults n e (le_state r) missing) s Q R.
Proof.
  intros He Hrec HL Hst Hm HQ HR. unfold open_effect. pose proof (like_refl r) as Hrefl.
  apply wp_bind, wp_Gate; [intros p1|intros x p1; eapply HR; [by apply L_same|done]].
  apply wp_bind, wp_verify; [intros p2|intros x p2; eapply HR; [by repeat apply L_same|done]].
  apply wp_bind, wp_Gate; [intros p3|intros x p3; eapply HR; [by repeat apply L_same|done]].
  set (s3 := at_db _ _ p3). assert (L s3 (Some r) pv o) as HL3 by (by repeat apply L_same).
  assert (st_ledger s3 = st_ledger s) as Hmem by done. clearbody s3.
  apply wp_bind. eapply wp_Prepare; [done|rewrite He; by eapply L_ledger|done| |].
  2:{ intros x d p [E|E]; [eapply HR; [by apply L_same|done]|].
      rewrite He in E. eapply HR; [by eapply L_insert|apply like_dispatched]. }
  intros d id p E Ho. rewrite He in E, Ho |- *.
  assert (L (at_db s3 d p) (Some (dispatched r)) pv o) as HL4 by (by eapply L_insert).
  set (s4 := set_open _ _). assert (L s4 (Some (dispatched r)) pv o) as HL5 by done.
  assert (st_effects s4 !! k = Some id) as Hid by (apply lookup_insert_eq).
  assert (opened k id (db (st_world s4))) as Ho4 by done.
  assert (st_ledger s4 = st_ledger s) as Hmem4 by done. clearbody s4. clear HL4.
  apply wp_bind, wp_try, wp_Gate.
  { intros p'. apply wp_ret. eapply HQ; [by apply L_same|done..]. }
  intros x p'. apply wp_bind. eapply wp_Finish; [by rewrite He|apply mark_missing_valid; naive_solver| | | |].
  - rewrite He. by eapply L_ledger.
  - pose proof (dispatched_held r Hst) as Hh. apply held_Some in Hh. destruct Hh; congruence.
  - intros d' p'' Hd. apply wp_fail. rewrite He in Hd. eapply HR.
    + eapply L_open, L_settled; cycle 3; [exact Hd|by apply L_same|by destruct missing..].
    + destruct (dispatched_name r) as (? & ? & ?). destruct missing; simpl; unfold like; simpl; naive_solver.
  - intros x' d' p'' [Hd|Hd]; rewrite ?He in Hd.
    + eapply HR; [by repeat apply L_same|apply like_dispatched].
    + eapply HR; [eapply L_settled; cycle 3; [exact Hd|by apply L_same|by destruct missing..]|].
      destruct (dispatched_name r) as (? & ? & ?). destruct missing; simpl; unfold like; simpl; naive_solver.
Qed.

(** ** Closing an effect *)

Lemma rule_Finish_keep e c st s r pv o id (Q : unit → sstate → Prop) (R : err → sstate → Prop) :
  effect_key e = k → L s (Some r) pv o → held (le_state r) = true → st_effects s !! k = Some id →
  ReleaseLedger c = false → co_state c = Some st → ValidateCompletion c = Ok tt →
  (∀ s', L s' (Some (with_state r st (co_missing c))) pv o → st_ledger s' = st_ledger s → Q tt s') →
  (∀ x s', L s' (Some r) pv o ∨ L s' (Some (with_state r st (co_missing c))) pv o → R x s') →
  wp (Finish faults e c) s Q R.
Proof.
  intros He HL Hh Hid Hr Hst Hv HQ HR. eapply wp_Finish; [by rewrite He|done| | | |].
  - rewrite He. by eapply L_ledger.
  - apply held_Some in Hh. destruct Hh; congruence.
  - intros d p Hd. rewrite He in Hd. apply HQ; [|done]. by eapply L_open, L_settled.
  - intros x d p [Hd|Hd]; rewrite ?He in Hd; apply HR; [left; by apply L_same|right; by eapply L_settled].
Qed.

Lemma rule_Finish_release e c s r pv o id (Q : unit → sstate → Prop) (R : err → sstate → Prop) :
  effect_key e = k → L s (Some r) pv o → held (le_state r) = true → st_effects s !! k = Some id →
  ReleaseLedger c = true → ValidateCompletion c = Ok tt →
  (∀ s', L s' None pv o → st_ledger s' = st_ledger s → Q tt s') →
  (∀ x s', L s' (Some r) pv o ∨ L s' None pv o → R x s') →
  wp (Finish faults e c) s Q R.
Proof.
  intros He HL Hh Hid Hr Hv HQ HR. eapply wp_Finish; [by rewrite He|done| | | |].
  - rewrite He. by eapply L_ledger.
  - apply held_Some in Hh. destruct Hh; congruence.
  - intros d p Hd. rewrite He in Hd. apply HQ; [|done]. by eapply L_open, L_released.
  - intros x d p [Hd|Hd]; rewrite ?He in Hd; apply HR; [left; by apply L_same|right; by eapply L_released].
Qed.

(** ** The requests *)

Definition keeps (s s' : sstate) : Prop :=
  st_effects s' = st_effects s ∧ st_ledger s' = st_ledger s.

Lemma rule_write row prior force s r pv o id (Q : unit → sstate → Prop) (R : err → sstate → Prop) :
  (dr_surface row, dr_name row) = k → L s (Some r) pv o → held (le_state r) = true →
  opened k id (db (st_world s)) →
  let v := me_value (dr_entry row) in
  let allowed := dr_surface row = Secret ∨ (held prior = true ∧ force = false) ∨ pv = None in
  (∀ s', L s' (Some r) (Some v) (o || bool_decide (pv = None)) → allowed → keeps s s' → Q tt s') →
  (∀ x s', L s' (Some r) pv o → (IsNotFound x = true → pv = None) → keeps s s' → R x s') →
  (∀ x s', L s' (Some r) (Some v) (o || bool_decide (pv = None)) → allowed →
     client_error x = false → keeps s s' → R x s') →
  wp (write faults row prior force) s Q R.
Proof.
  intros Hk HL Hh Ho v allowed HQ HN HP. pose proof (L_provider _ _ _ _ HL) as Hpv.
  assert (∀ op, op_target op = k →
    (∀ w p, ours (apply_op op w p) =
       if bool_decide (is_Some (provider w !! k)) then ours w else {[k]} ∪ ours w) →
    (∀ p pv', serve op p = Ok pv' → pv' = <[k := v]> p) →
    (∀ pv', serve op (provider (st_world s)) = Ok pv' → allowed) →
    wp (request faults op) s Q R) as Hreq.
  { intros op Hop Hours Hserve Hall. apply wp_request; [done|..]; rewrite ?Hop.
    - intros p pv' Hs. rewrite (Hserve _ _ Hs). apply HQ; [|by eapply Hall|done].
      exact (L_put _ _ _ _ v op Hop Hours (L_sent _ _ _ _ p _ HL Hh Ho)).
    - intros x p Hnf. apply HN; [by eapply L_sent|rewrite <- Hpv; exact Hnf|done].
    - intros x p pv' Hs Hc. rewrite (Hserve _ _ Hs). apply HP; [|by eapply Hall|done|done].
      exact (L_put _ _ _ _ v op Hop Hours (L_sent _ _ _ _ p _ HL Hh Ho)). }
  unfold write. fold v. destruct (dr_surface row) eqn:Es; [|destruct (negb force && held prior) eqn:Eu].
  - apply Hreq; [done|intros; simpl; by rewrite Hk| |by left].
    intros p pv'. unfold serve. simpl. rewrite Hk. by intros [= <-].
  - apply Hreq; [done|intros; simpl; by rewrite Hk| |].
    + intros p pv'. unfold serve. simpl. rewrite Hk.
      destruct (bool_decide (is_Some (p !! k))); [by intros [= <-]|done].
    + intros _ _. right. left. apply andb_true_iff in Eu as [Ef%negb_true_iff ->]. done.
  - apply Hreq; [done|intros; simpl; by rewrite Hk| |].
    + intros p pv'. unfold serve. simpl. rewrite Hk.
      destruct (bool_decide (is_Some (p !! k))); [done|by intros [= <-]].
    + intros pv'. unfold serve. simpl. rewrite Hk, Hpv. destruct pv as [x|]; [done|]. intros _. by right; right.
Qed.

Lemma rule_delete s r pv o id (Q : unit → sstate → Prop) (R : err → sstate → Prop) :
  L s (Some r) pv o → held (le_state r) = true → opened k id (db (st_world s)) →
  (∀ s', L s' (Some r) None false → keeps s s' → Q tt s') →
  (∀ x s', L s' (Some r) pv o → (IsNotFound x = true → pv = None) → keeps s s' → R x s') →
  (∀ x s', L s' (Some r) None false → keeps s s' → R x s') →
  wp (delete_name faults k.1 k.2) s Q R.
Proof.
  intros HL Hh Ho HQ HN HP. pose proof (L_provider _ _ _ _ HL) as Hpv.
  assert (∀ op, op_target op = k → (∀ w p, ours (apply_op op w p) = ours w ∖ {[k]}) →
    (∀ p pv', serve op p = Ok pv' → pv' = delete k p) → wp (request faults op) s Q R) as Hreq.
  { intros op Hop Hours Hserve. apply wp_request; [done|..]; rewrite ?Hop.
    - intros p pv' Hs. rewrite (Hserve _ _ Hs). apply HQ; [|done].
      exact (L_remove _ _ _ _ op Hop Hours (L_sent _ _ _ _ p _ HL Hh Ho)).
    - intros x p Hnf. apply HN; [by eapply L_sent|rewrite <- Hpv; exact Hnf|done].
    - intros x p pv' Hs Hc. rewrite (Hserve _ _ Hs). apply HP; [|done].
      exact (L_remove _ _ _ _ op Hop Hours (L_sent _ _ _ _ p _ HL Hh Ho)). }
  unfold delete_name. destruct (k.1) eqn:Ek; apply Hreq.
  all: try (simpl; rewrite <- Ek; by destruct k).
  all: try (intros w p; simpl; rewrite <- Ek; by destruct k).
  all: intros p pv'; unfold serve; simpl; rewrite <- Ek, <- (surjective_pairing k).
  all: destruct (bool_decide (is_Some (p !! k))); [by intros [= <-]|done].
Qed.
End row.
