(* ===== verification/SyncRows.v ===== *)
(** * The rows of a sync

    The guarantee of each loop body of [Sync], for every fault: it touches one
    name, keeps [key_ok] on every exit, and on success has converged the name. *)

From stdpp Require Import prelude gmap strings list.
From Stdlib Require Import ZArith.
From S2P Require Import Prelude StateErr Adapter AdapterJournal ForgejoSync SyncRules SyncFacts.

(** The in-memory ledger row of [k] is the durable one. *)
Definition mem_agree (k : LedgerKey) (s : sstate) : Prop :=
  match st_ledger s !! k with
  | Some r => ∃ r', ledger (db (st_world s)) !! k = Some r' ∧ le_state r' = le_state r ∧
                    le_missing r' = le_missing r ∧ le_state r ≠ Released ∧
                    (le_surface r, le_name r) = k
  | None => ∀ r', ledger (db (st_world s)) !! k = Some r' → le_state r' = Released
  end.

Definition stepped (k : LedgerKey) (s s' : sstate) : Prop :=
  (∀ k', k' ≠ k → view (st_world s') k' = view (st_world s) k') ∧
  (∀ k', k' ≠ k → st_ledger s' !! k' = st_ledger s !! k').

Definition confirmed (k : LedgerKey) (v : string) (s : sstate) : Prop :=
  provider (st_world s) !! k = Some v ∧
  ∃ r, ledger (db (st_world s)) !! k = Some r ∧ le_state r = Owned ∧ le_missing r = false.

Lemma IsConflict_client x : IsConflict x = true → client_error x = true.
Proof.
  unfold IsConflict, client_error. rewrite bool_decide_eq_true.
  intros [-> | ->]; reflexivity.
Qed.

Lemma mem_agree_touch k k' s s' : k' ≠ k → stepped k s s' → mem_agree k' s → mem_agree k' s'.
Proof.
  intros Hne [Hv Hm] Ha. unfold mem_agree in *. rewrite Hm by done.
  specialize (Hv k' Hne). unfold view in Hv. by injection Hv as -> _ _.
Qed.

Section rows.
Context `{CaseTable} (faults : nat → fault) (Htrue : truthful faults) (w0 : world).

Section push.
Context (n : Z) (k : LedgerKey) (s1 : sstate).
Context (lr : option LedgerEntry) (pv : option string) (o : bool).
Context (Hgood : good w0 (st_world s1)) (H0 : view w0 k = (lr, pv, o)) (H1 : view (st_world s1) k = (lr, pv, o)).

Abbreviation Lk := (L k s1).

Lemma push_entry : row_wf k lr ∧ (o = true → holds lr = true ∧ is_Some pv).
Proof. destruct Hgood as [Hg _]. destruct (Hg k) as (Hwf & Ho & _). rewrite H1 in *. done. Qed.

Lemma push_leaf s r2 : 
  Lk s (Some r2) pv o → (le_surface r2, le_name r2) = k →
  (le_missing r2 = true → held (le_state r2) = true) → (o = true → held (le_state r2) = true) →
  good w0 (st_world s).
Proof.
  intros HL Hn Hm Ho. eapply L_good; [done|done|]. rewrite H0. split; [|split; [|done]].
  - intros r [= <-]. done.
  - simpl. intros E. split; [auto|]. by apply push_entry.
Qed.

Lemma push_leaf_none s : Lk s None pv o → o = false → good w0 (st_world s).
Proof.
  intros HL Ho. eapply L_good; [done|done|]. rewrite H0. split; [done|]. split; [|done].
  simpl. congruence.
Qed.

Lemma push_leaf_written s r2 v o2 :
  Lk s (Some r2) (Some v) o2 → (le_surface r2, le_name r2) = k → held (le_state r2) = true →
  holds lr = true ∨ pv = None → good w0 (st_world s).
Proof.
  intros HL Hn Hh Hw. eapply L_good; [done|done|]. rewrite H0. split; [|split].
  - intros r [= <-]. done.
  - simpl. eauto.
  - simpl. intros E x Ex. destruct Hw; congruence.
Qed.

(** The claimed row: durable in the state of the memory row. *)
Context (r : LedgerEntry).
Context (Hrn : (le_surface r, le_name r) = k) (Hrel : le_state r ≠ Released).
Context (Hrm : le_missing r = true → held (le_state r) = true).
Context (Hheld : holds lr = held (le_state r)).

Lemma push_ours : o = true → held (le_state r) = true.
Proof. intros E. rewrite <- Hheld. by apply push_entry. Qed.

Lemma push_like s r2 : Lk s (Some r2) pv o → like r r2 → good w0 (st_world s).
Proof.
  intros HL (Hs & Hn & Hst & Hm).
  assert (held (le_state r) = true → held (le_state r2) = true) by (destruct Hst as [-> | ->]; done).
  pose proof push_ours. eapply push_leaf; [done|by rewrite Hs, Hn|auto|auto].
Qed.

Lemma dispatched_key : (le_surface (dispatched r), le_name (dispatched r)) = k.
Proof. destruct (dispatched_name r) as (-> & -> & _). done. Qed.

(** ** Rows no longer desired *)

Lemma push_leaf_gone s r2 : 
  Lk s (Some r2) None false → (le_surface r2, le_name r2) = k →
  (le_missing r2 = true → held (le_state r2) = true) → holds lr = true ∨ pv = None →
  good w0 (st_world s).
Proof.
  intros HL Hn Hm Hw. eapply L_good; [done|done|]. rewrite H0. split; [|split; [done|]].
  - by intros r' [= <-].
  - simpl. intros E x Ex. destruct Hw; congruence.
Qed.

Definition pruned (s : sstate) : Prop :=
  good w0 (st_world s) ∧ stepped k s1 s ∧ provider (st_world s) !! k = None ∧
  ∃ r', ledger (db (st_world s)) !! k = Some r' ∧ le_state r' = Released.

Lemma prune_done e s id pv2 o2 :
  effect_key e = k → Lk s (Some (dispatched r)) pv2 o2 → st_effects s !! k = Some id →
  pv2 = None → o2 = false → held (le_state r) = true →
  wp (do* _ := Finish faults e (completion OutcomeSuccess (Some Released)) in
      record (add_change (change k.1 k.2 Delete))) s
    (λ _ s', pruned s') (λ _ s', good w0 (st_world s')).
Proof.
  intros He HL Hid -> -> Hh. pose proof (dispatched_held r Hrel) as Hdh. pose proof dispatched_key as Hdk.
  rewrite <- Hheld in Hh.
  apply wp_bind. eapply rule_Finish_keep; [done|done|done|done|done|done|done|..].
  - intros s' HL' _. apply wp_modify.
    split; [eapply push_leaf_gone; [by apply L_result|done|done|by left]|].
    split; [by destruct HL' as (? & _ & _ & ?)|].
    split; [by eapply (L_provider k s1)|]. eexists. split; [by eapply (L_ledger k s1)|done].
  - intros x s' [HL'|HL']; (eapply push_leaf_gone; [done|done|done|by left]).
Qed.

Lemma prune_row_wp r_mem :
  le_state r_mem = le_state r → (le_surface r_mem, le_name r_mem) = k → ToUpper k.2 = k.2 →
  held (le_state r) = true → Lk s1 (Some r) pv o →
  wp (prune_row faults n r_mem) s1 (λ _ s', pruned s') (λ _ s', good w0 (st_world s')).
Proof.
  intros Hst Hk Hup Hh HL. pose proof (dispatched_held r Hrel) as Hdh. pose proof dispatched_key as Hdk.
  pose proof push_entry as [_ Hp]. pose proof push_ours as Hours.
  assert (le_surface r_mem = k.1 ∧ le_name r_mem = k.2) as [Hs Hn] by (by rewrite <- Hk).
  assert (effect_key (delete_effect r_mem) = k) as He.
  { unfold effect_key, NewLedgerKey, delete_effect. simpl. rewrite Hs, Hn, Hup. by destruct k. }
  unfold prune_row. cbv zeta. rewrite Hst, Hs, Hn.
  assert (RequireExplicitRecovery (delete_effect r_mem) = false) as Hrec by done.
  revert He Hrec. generalize (delete_effect r_mem). intros e He Hrec.
  apply wp_bind. eapply rule_open_effect; [done|done|done|done|done| |intros x s' r' HL' Hlike; by eapply push_like].
  intros s2 id HL2 Hid Ho _. apply wp_bind, wp_try.
  eapply rule_delete; [done|done|done|done| | |].
  - intros s3 HL3 [He3 _]. eapply prune_done; [done|done|by rewrite He3|done|done|done].
  - intros x s3 HL3 Hnf [He3 _]. destruct (IsNotFound x) eqn:En; simpl.
    + specialize (Hnf eq_refl). eapply prune_done; [done|done|by rewrite He3|done| |done].
      destruct o; [|done]. destruct (Hp eq_refl) as [_ [? ?]]. congruence.
    + apply wp_bind. eapply rule_Finish_keep; [done|done|done|by rewrite He3|done|done|done|..].
      * intros s' HL' _. apply wp_bind, wp_modify, wp_fail.
        eapply push_leaf; [by apply L_result|done|done|done].
      * intros x' s' [HL'|HL']; (eapply push_leaf; [done|done|done|done]).
  - intros x s3 HL3 [He3 _]. destruct (IsNotFound x) eqn:En; simpl.
    + eapply prune_done; [done|done|by rewrite He3|done|done|done].
    + apply wp_bind. assert (holds lr = true) as Hhl by (by rewrite Hheld).
      eapply rule_Finish_keep; [done|done|done|by rewrite He3|done|done|done|..].
      * intros s' HL' _. apply wp_bind, wp_modify, wp_fail.
        eapply push_leaf_gone; [by apply L_result|done|done|by left].
      * intros x' s' [HL'|HL']; (eapply push_leaf_gone; [done|done|done|by left]).
Qed.

(** ** Desired rows *)

Context (row : DesiredRow) (Hrow : row_key row = k) (Hname : ToUpper (dr_name row) = dr_name row).
Context (claimed : bool) (Hclaim : claimed = false → le_state r = Reserved).

Lemma push_key : (dr_surface row, dr_name row) = k.
Proof. rewrite <- Hrow. unfold row_key, NewLedgerKey. by rewrite Hname. Qed.

(** A failed write: either it had no effect, or its effect is unknown. *)
Definition write_post (x : err) (s : sstate) : Prop :=
  (Lk s (Some (dispatched r)) pv o ∧ (IsNotFound x = true → pv = None)) ∨
  (∃ v o2, Lk s (Some (dispatched r)) (Some v) o2 ∧ client_error x = false ∧
     (holds lr = true ∨ pv = None)).

Lemma push_write_failed e x s id :
  effect_key e = k → write_post x s → st_effects s !! k = Some id →
  wp (write_failed faults e row claimed (le_state r) (le_missing r) x) s
    (λ _ _, False) (λ _ s', good w0 (st_world s')).
Proof.
  intros He Hx Hid. pose proof (dispatched_held r Hrel) as Hdh. pose proof push_ours as Hours.
  pose proof push_entry as [_ Hp].
  destruct (dispatched_name r) as (Hds & Hdn & Hdm). pose proof dispatched_key as Hdk.
  unfold write_failed. cbv zeta. destruct (_ && IsConflict x) eqn:Ec.
  { apply andb_true_iff in Ec as [[Ev Ec]%andb_true_iff Hconf].
    apply IsConflict_client in Hconf.
    destruct Hx as [[HL Hnf]|(v & o2 & _ & Hce & _)]; [|congruence].
    apply wp_bind. destruct (le_missing r) eqn:Em.
    - eapply rule_Finish_keep; [done|done|done|done|done|done|..].
      + unfold ValidateCompletion, validateMissingState. simpl. by rewrite (Hrm eq_refl).
      + intros s' HL' _. apply wp_bind, wp_modify, wp_fail. eapply push_leaf; [by apply L_result|done|simpl; auto|simpl; auto].
      + intros x' s' [HL'|HL']; (eapply push_leaf; [done|done|simpl; auto|simpl; auto]).
    - assert (le_state r = Reserved) as Eres.
      { bsimp. destruct Ec as [[?|Ec]|?]; [done|apply Hclaim; by destruct claimed|done]. }
      assert (o = false) as Eo by (destruct o; [|done]; rewrite Eres in Hours; by specialize (Hours eq_refl)).
      eapply rule_Finish_release; [done|done|done|done|done|done|..].
      + intros s' HL' _. apply wp_bind, wp_modify, wp_fail. eapply push_leaf_none; [by apply L_result|done].
      + intros x' s' [HL'|HL']; [|by eapply push_leaf_none].
        eapply push_leaf; [done|done|auto|congruence]. }
  clear Ec. apply wp_bind.
  set (tail := λ (_ : unit) (_ : sstate), _).
  assert (∀ u s', good w0 (st_world s') → tail u s') as Htail.
  { intros u s' Hg. unfold tail. apply wp_bind, wp_modify. destruct (bool_decide _); by apply wp_fail. }
  clearbody tail. destruct (client_error x) eqn:Ece.
  - destruct Hx as [[HL Hnf]|(v & o2 & _ & Hce & _)]; [|congruence].
    destruct (_ || _) eqn:Erel.
    + assert (o = false) as Eo.
      { destruct o; [|done]. exfalso. apply orb_true_iff in Erel as [Er|Er].
        - apply bool_decide_eq_true in Er. rewrite Er in Hours. by specialize (Hours eq_refl).
        - apply andb_true_iff in Er as [_ Er%Hnf].
          destruct (Hp eq_refl) as [_ [? ?]]. congruence. }
      assert (le_missing r = false) as Em.
      { destruct (le_missing r) eqn:Em; [|done]. specialize (Hrm eq_refl).
        apply orb_true_iff in Erel as [Er|Er]; [apply bool_decide_eq_true in Er; by rewrite Er in Hrm|].
        bsimp. tauto. }
      rewrite Em. eapply rule_Finish_release; [done|done|done|done|done|done|..].
      * intros s' HL' _. apply Htail. by eapply push_leaf_none.
      * intros x' s' [HL'|HL']; [|by eapply push_leaf_none].
        eapply push_leaf; [done|done|auto|congruence].
    + apply orb_false_iff in Erel as [Er%bool_decide_eq_false _].
      assert (held (le_state r) = true) as Hh by (apply held_Some; destruct (le_state r); tauto).
      eapply rule_Finish_keep; [done|done|done|done|by destruct (le_missing r)|by destruct (le_missing r)|
        by apply mark_missing_valid|..].
      * intros s' HL' _. apply Htail. eapply push_leaf; [done|done|simpl; auto|simpl; auto].
      * intros x' s' [HL'|HL']; (eapply push_leaf; [done|done|simpl; auto|simpl; auto]).
  - assert (∃ pv2 o2, Lk s (Some (dispatched r)) pv2 o2 ∧
      (∀ s' r2, Lk s' (Some r2) pv2 o2 → (le_surface r2, le_name r2) = k → held (le_state r2) = true →
         good w0 (st_world s'))) as (pv2 & o2 & HL & Hleaf).
    { destruct Hx as [[HL _]|(v & o2 & HL & _ & Hw)].
      - exists pv, o. split; [done|]. intros s' r2 HL' Hn Hh. eapply push_leaf; eauto.
      - exists (Some v), o2. split; [done|]. intros s' r2 HL' Hn Hh. eapply push_leaf_written; eauto. }
    eapply rule_Finish_keep; [done|done|done|done|by destruct (le_missing r)|by destruct (le_missing r)|
      by apply mark_missing_valid|..].
    + intros s' HL' _. apply Htail. by eapply Hleaf.
    + intros x' s' [HL'|HL']; by eapply Hleaf.
Qed.

Definition pushed (s : sstate) : Prop :=
  good w0 (st_world s) ∧ stepped k s1 s ∧ mem_agree k s ∧ confirmed k (me_value (dr_entry row)) s.

Lemma push_refuse e s :
  effect_key e = k → Lk s (Some r) pv o → le_state r = Reserved →
  wp (Refuse faults e) s (λ _ s', good w0 (st_world s')) (λ _ s', good w0 (st_world s')).
Proof.
  intros He HL Hr. pose proof push_ours as Ho. rewrite Hr in Ho.
  assert (o = false) as Eo by (destruct o; [by specialize (Ho eq_refl)|done]).
  assert (∀ d u, refuse_body e (db (st_world s)) = Ok (d, u) →
    ledger d = delete k (ledger (db (st_world s)))) as Hb.
  { intros d u. unfold refuse_body, drop_reservation. cbn [insert_conflict ledger]. rewrite He.
    rewrite (L_ledger _ _ _ _ _ _ HL). rewrite bool_decide_true by done. by intros [= <- _]. }
  apply wp_transaction.
  - intros d u p Hd. eapply push_leaf_none; [|done]. eapply L_delete; [done|by eapply Hb].
  - intros x p. eapply push_like; [by apply L_same|apply like_refl].
  - intros x d u p Hd. eapply push_leaf_none; [|done]. eapply L_delete; [done|by eapply Hb].
Qed.

Lemma push_succeeded e s id v o2 :
  effect_key e = k → Lk s (Some (dispatched r)) (Some v) o2 → st_effects s !! k = Some id →
  v = me_value (dr_entry row) → holds lr = true ∨ pv = None →
  wp (do* _ := Finish faults e (completion OutcomeSuccess (Some Owned)) in
      do* _ := modify (λ s, set_memory s
        (<[row_key row := plainEntry (dr_surface row) (dr_name row) Owned]> (st_ledger s))) in
      record (add_change (change (dr_surface row) (dr_name row) (ef_disposition e)))) s
    (λ _ s', pushed s') (λ _ s', good w0 (st_world s')).
Proof.
  intros He HL Hid Hv Hw. rewrite Hrow. pose proof (dispatched_held r Hrel) as Hdh. pose proof dispatched_key as Hdk.
  apply wp_bind. eapply rule_Finish_keep; [done|done|done|done|done|done|done|..].
  - intros s' HL' _. apply wp_bind, wp_modify. apply wp_modify.
    assert (Lk (set_memory s' (<[k := plainEntry (dr_surface row) (dr_name row) Owned]> (st_ledger s')))
      (Some (with_state (dispatched r) Owned false)) (Some v) o2) as HLm by (by apply L_memory).
    pose proof (L_ledger _ _ _ _ _ _ HLm) as Hl. pose proof (L_provider _ _ _ _ _ _ HLm) as Hp.
    split; [by eapply (push_leaf_written _ (with_state (dispatched r) Owned false))|].
    split; [by destruct HLm as (? & _ & _ & ?)|].
    split.
    + unfold mem_agree. cbn [st_ledger set_result set_memory st_world] in *. rewrite lookup_insert_eq.
      eexists. split; [exact Hl|]. split; [done|]. split; [done|]. split; [done|]. apply push_key.
    + split; [cbn in *; by rewrite Hp, Hv|]. eexists. split; [exact Hl|done].
  - intros x s' [HL'|HL']; by eapply push_leaf_written.
Qed.

Lemma push_claimed e (ps : gset string) s :
  effect_key e = k → RequireExplicitRecovery e = false → Lk s (Some r) pv o →
  (dr_surface row = Secret → dr_name row ∉ ps → pv = None) →
  wp (if bool_decide (le_state r = Reserved) && bool_decide (dr_surface row = Secret)
         && bool_decide (dr_name row ∈ ps)
      then
        do* _ := Refuse faults e in
        do* _ := record (add_conflict (change (dr_surface row) (dr_name row) Conflict)) in
        fail (sentinel_err ErrConflict)
      else
        do* _ := open_effect faults n e (le_state r) (le_missing r) in
        do* w := try (write faults row (le_state r) (le_missing r)) in
        match w with
        | Err x => write_failed faults e row claimed (le_state r) (le_missing r) x
        | Ok _ =>
            do* _ := Finish faults e (completion OutcomeSuccess (Some Owned)) in
            do* _ := modify (λ s, set_memory s
              (<[row_key row := plainEntry (dr_surface row) (dr_name row) Owned]> (st_ledger s))) in
            record (add_change (change (dr_surface row) (dr_name row) (ef_disposition e)))
        end) s (λ _ s', pushed s') (λ _ s', good w0 (st_world s')).
Proof.
  intros He Hrec HL Hlist. pose proof (dispatched_held r Hrel) as Hdh.
  destruct (_ && _) eqn:Eref.
  { bsimp. apply wp_bind. eapply wp_mono; [apply push_refuse; [done|done|tauto]| |done].
    intros u s' Hg. apply wp_bind, wp_modify, wp_fail. done. }
  assert (dr_surface row = Secret ∨ (held (le_state r) = true ∧ le_missing r = false) ∨ pv = None →
    holds lr = true ∨ pv = None) as Hallow.
  { intros [Es|[[Hh _]|?]]; [|rewrite Hheld; by left|by right].
    destruct (held (le_state r)) eqn:Eh; [rewrite Hheld; by left|right].
    apply Hlist; [done|]. intros Hps. bsimp.
    assert (le_state r = Reserved) by (unfold held in Eh; bsimp; destruct (le_state r); tauto). tauto. }
  apply wp_bind. eapply rule_open_effect; [done|done|done|done|by auto| |intros x s' r' HL' Hlike; by eapply push_like].
  intros s2 id HL2 Hid Ho Hmem. apply wp_bind, wp_try.
  eapply rule_write; [done|apply push_key|done|done|done| | |].
  - intros s3 HL3 Ha [He3 _]. eapply push_succeeded; [done|done|by rewrite He3|done|by apply Hallow].
  - intros x s3 HL3 Hnf [He3 _]. eapply wp_mono; [eapply push_write_failed; [done|left; done|by rewrite He3]|done|done].
  - intros x s3 HL3 Ha Hc [He3 _]. eapply wp_mono; [eapply push_write_failed; [done| |by rewrite He3]|done|done].
    right. eexists _, _. split; [done|]. split; [done|]. by apply Hallow.
Qed.
End push.

Lemma push_row_spec n ps completed row s1 :
  ToUpper (dr_name row) = dr_name row → good w0 (st_world s1) →
  view (st_world s1) (row_key row) = view w0 (row_key row) → mem_agree (row_key row) s1 →
  (dr_surface row = Secret → dr_name row ∉ ps → provider (st_world s1) !! row_key row = None) →
  wp (push_row faults n ps completed row) s1
    (λ _ s', good w0 (st_world s') ∧ stepped (row_key row) s1 s' ∧ mem_agree (row_key row) s' ∧
       (row_key row ∉ completed → confirmed (row_key row) (me_value (dr_entry row)) s'))
    (λ _ s', good w0 (st_world s')).
Proof.
  intros Hname Hgood Hview Hmem Hlist. unfold push_row.
  case_bool_decide as Hc; [apply wp_ret; done|].
  destruct (view (st_world s1) (row_key row)) as [[lr pv] o] eqn:H1. symmetry in Hview.
  assert (effect_key {| ef_surface := dr_surface row; ef_name := dr_name row; ef_disposition := Create;
    ef_keyID := ""; RequireExplicitRecovery := false |} = row_key row) as Hek by done.
  pose proof (L_start (row_key row) s1 _ _ _ (proj2 Hgood) H1) as HL.
  pose proof (L_ledger _ _ _ _ _ _ HL) as Hlr. pose proof (L_provider _ _ _ _ _ _ HL) as Hpv.
  assert (row_wf (row_key row) lr) as Hwf.
  { destruct Hgood as [Hg _]. destruct (Hg (row_key row)) as [Hwf _]. by rewrite H1 in Hwf. }
  unfold mem_agree in Hmem. apply wp_bind, wp_gets. cbv zeta.
  destruct (st_ledger s1 !! row_key row) as [rm|] eqn:Em.
  - destruct Hmem as (r' & Hr' & Hst & Hms & Hrel & Hn).
    unfold claim_row. apply wp_bind, wp_ret. rewrite <- Hst, <- Hms, (bool_decide_true (is_Some (Some rm))) by (by eexists).
    rewrite Hr' in Hlr. subst lr. destruct (Hwf r' eq_refl) as [Hrn Hrm].
    eapply wp_mono.
    { eapply (push_claimed n (row_key row) s1 (Some r') pv o Hgood Hview H1 r' Hrn); try done; first [congruence|by rewrite <- Hpv]. }
    { intros u s' (? & ? & ? & ?). done. }
    done.
  - unfold claim_row. apply wp_bind, wp_bind.
    set (e := {| ef_surface := _; ef_name := _; ef_disposition := _; ef_keyID := _; RequireExplicitRecovery := _ |}).
    assert (holds lr = false) as Hh.
    { destruct lr as [r'|]; [|done]. simpl. by rewrite (Hmem r' Hlr). }
    set (fresh := plainEntry (dr_surface row) (dr_name row) Reserved).
    assert ((le_surface fresh, le_name fresh) = row_key row) as Hfn.
    { unfold fresh, row_key, NewLedgerKey. simpl. by rewrite Hname. }
    assert (∀ d st, reserve_body e (db (st_world s1)) = Ok (d, st) →
      st = Reserved ∧ ledger d = <[row_key row := fresh]> (ledger (db (st_world s1)))) as Hb.
    { intros d st. unfold reserve_body. change (effect_key e) with (row_key row). rewrite Hlr.
      destruct lr as [r'|]; [rewrite (Hmem r' Hlr)|destruct (_ <=? _)%nat; [done|]]; by intros [= <- <-]. }
    assert (∀ s', L (row_key row) s1 s' (Some fresh) pv o → good w0 (st_world s')) as Hleaf.
    { intros s' HL'. eapply (push_like (row_key row) s1 lr pv o Hgood Hview H1 fresh); try done; first [by rewrite Hh|apply like_refl]. }
    apply wp_transaction.
    + intros d st p [-> Hd]%Hb. apply wp_bind, wp_modify, wp_ret.
      assert (L (row_key row) s1 (set_memory (at_db s1 d p) (<[row_key row := fresh]> (st_ledger (at_db s1 d p))))
        (Some fresh) pv o) as HL2 by (by eapply L_memory, L_insert).
      eapply wp_mono.
      { eapply (push_claimed n (row_key row) s1 lr pv o Hgood Hview H1 fresh Hfn); try done; first [by rewrite Hh|by rewrite <- Hpv]. }
      { intros u s' (? & ? & ? & ?). done. }
      done.
    + intros x p. eapply L_good; [done|by apply L_same|].
      destruct Hgood as [Hg _]. specialize (Hg (row_key row)). by rewrite H1 in Hg.
    + intros x d st p [-> Hd]%Hb. apply Hleaf. by eapply L_insert.
Qed.
End rows.
