(* ===== verification/SyncProps.v ===== *)
(** * The guarantees of [Sync] *)

From stdpp Require Import prelude gmap strings list.
From Stdlib Require Import ZArith.
From S2P Require Import Prelude StateErr Adapter AdapterJournal ForgejoSync SyncRules SyncFacts SyncRows.

(** ** The ledger an attempt indexes *)

Section index.
Context `{CaseTable}.

Definition entry_key (r : LedgerEntry) : LedgerKey := NewLedgerKey (le_surface r) (le_name r).

Lemma IndexLedger_into_lookup rows : ∀ out,
  (∀ r, r ∈ rows → le_missing r = true → held (le_state r) = true) →
  NoDup (map entry_key rows) →
  ∃ m, IndexLedger_into rows out = Ok m ∧
    ∀ k, m !! k = match list_find (λ r, entry_key r = k) rows with
                  | Some (_, r) => Some r
                  | None => out !! k
                  end.
Proof.
  induction rows as [|r rows IH]; intros out Hm Hnd; [by eexists|].
  cbn [map] in Hnd. apply NoDup_cons in Hnd as [Hni Hnd]. simpl.
  assert (validateMissingState (Some (le_state r)) (le_missing r) = Ok tt) as ->.
  { unfold validateMissingState. destruct (le_missing r) eqn:E; [|done]. by rewrite (Hm r) by (done || by left). }
  simpl. destruct (IH (<[entry_key r := r]> out)) as (m & Hok & Hl); [|done|].
  { intros r' Hr'. apply Hm. by right. }
  exists m. split; [done|]. intros k. rewrite Hl. destruct (decide (entry_key r = k)) as [<-|Hne].
  - destruct (list_find _ rows) as [[i r']|] eqn:Ef; [|by rewrite lookup_insert_eq].
    apply list_find_Some in Ef as (Hi & Hk & _). destruct Hni. rewrite <- Hk.
    apply list_elem_of_fmap. exists r'. split; [done|]. by eapply list_elem_of_lookup_2.
  - destruct (list_find _ rows) as [[i r']|] eqn:Ef; simpl; [done|]. by rewrite lookup_insert_ne.
Qed.

(** The rows of a map whose rows are filed under their own keys index to it. *)
Lemma IndexLedger_load (m : gmap LedgerKey LedgerEntry) rows :
  (∀ k r, m !! k = Some r → entry_key r = k ∧ (le_missing r = true → held (le_state r) = true)) →
  rows ≡ₚ (map_to_list m).*2 → IndexLedger rows = Ok m.
Proof.
  intros Hwf Hrows.
  assert (∀ r, r ∈ rows ↔ m !! entry_key r = Some r) as Hin.
  { intros r. rewrite Hrows, list_elem_of_fmap. split.
    - intros ([k r'] & -> & Hkr%elem_of_map_to_list). simpl. by destruct (Hwf _ _ Hkr) as [-> _].
    - intros Hr. exists (entry_key r, r). by rewrite elem_of_map_to_list. }
  assert (NoDup (map entry_key rows)) as Hnd.
  { apply (NoDup_Permutation_proper _ ((map entry_key (map_to_list m).*2))); [by apply fmap_Permutation|].
    assert (map entry_key (map_to_list m).*2 = (map_to_list m).*1) as ->.
    { rewrite <- list_fmap_compose. apply list_fmap_ext. intros i [k r] Hi. simpl.
      apply list_elem_of_lookup_2, elem_of_map_to_list in Hi. by destruct (Hwf _ _ Hi). }
    apply NoDup_fst_map_to_list. }
  destruct (IndexLedger_into_lookup rows ∅) as (m' & Hok & Hl); [|done|].
  { intros r Hr%Hin. by destruct (Hwf _ _ Hr). }
  unfold IndexLedger. rewrite Hok. f_equal. apply map_eq. intros k. rewrite Hl.
  destruct (list_find _ rows) as [[i r]|] eqn:Ef.
  - apply list_find_Some in Ef as (Hi & <- & _). apply list_elem_of_lookup_2, Hin in Hi. done.
  - rewrite lookup_empty. symmetry. apply eq_None_not_Some. intros [r Hr].
    apply list_find_None in Ef. rewrite Forall_forall in Ef. destruct (Hwf _ _ Hr) as [Hk _].
    apply (Ef r); [|done]. apply Hin. by rewrite Hk.
Qed.

(** ** The desired rows *)

Lemma effectiveName_entry prefix seen entry seen' :
  ValidateManifest_entry prefix seen entry = Ok seen' →
  let name := prefix +:+ CanonicalName entry in
  effectiveName name = true ∧ name ≠ prefix +:+ SentinelName ∧ (ToUpper name ∉ seen) ∧
  seen' = {[ToUpper name]} ∪ seen.
Proof.
  unfold ValidateManifest_entry. cbv zeta. intros Hv.
  repeat case_match; try done; bsimp. injection Hv as <-. done.
Qed.

Lemma ValidateManifest_names prefix entries : ∀ seen,
  ValidateManifest_from prefix seen entries = Ok tt →
  let names := map (λ e, prefix +:+ CanonicalName e) entries in
  (∀ n, n ∈ names → effectiveName n = true ∧ n ≠ prefix +:+ SentinelName ∧ (ToUpper n ∉ seen)) ∧
  NoDup (map ToUpper names).
Proof.
  induction entries as [|e entries IH]; intros seen; simpl.
  { intros _. split; [by intros n ?%elem_of_nil|constructor]. }
  intros (seen' & Hv & Hrest)%rbind_Ok. apply effectiveName_entry in Hv as (Hn & Hs & Hf & ->).
  destruct (IH _ Hrest) as [Hall Hnd]. split.
  - intros n [->|Hn']%elem_of_cons; [done|]. destruct (Hall n Hn') as (? & ? & ?). set_solver.
  - constructor; [|done]. intros (n & E & Hin)%list_elem_of_fmap.
    destruct (Hall n Hin) as (_ & _ & Hx). rewrite E in Hx. set_solver.
Qed.

Context `{!CaseLaws}.

Definition desired_list (prefix : string) (manifest : list ManifestEntry) (sentinels : bool) :=
  (if sentinels
   then [sentinelRow prefix SecretClassification Secret; sentinelRow prefix ConfigClassification Var]
   else [])
  ++ map (λ e, {| dr_entry := e; dr_surface := entrySurface e;
                  dr_name := prefix +:+ CanonicalName e |}) manifest.

Lemma DesiredRows_perm prefix manifest sentinels :
  DesiredRows prefix manifest sentinels ≡ₚ desired_list prefix manifest sentinels.
Proof. apply sort_by_Permutation. Qed.

Lemma desired_names prefix manifest sentinels row :
  ValidateManifest prefix manifest = Ok tt → effectiveName (prefix +:+ SentinelName) = true →
  row ∈ DesiredRows prefix manifest sentinels → ToUpper (dr_name row) = dr_name row.
Proof.
  intros Hv Hs. rewrite DesiredRows_perm. unfold desired_list. rewrite elem_of_app.
  destruct (ValidateManifest_names _ _ _ Hv) as [Hall _].
  intros [Hr|(e & -> & He)%list_elem_of_fmap]; apply ToUpper_valid.
  - destruct sentinels; [|by apply elem_of_nil in Hr].
    apply elem_of_cons in Hr as [->|[->|[]%elem_of_nil]%elem_of_cons]; done.
  - simpl. apply Hall. apply list_elem_of_fmap. by exists e.
Qed.

Lemma desired_keys prefix manifest sentinels :
  ValidateManifest prefix manifest = Ok tt → effectiveName (prefix +:+ SentinelName) = true →
  NoDup (map row_key (DesiredRows prefix manifest sentinels)).
Proof.
  intros Hv Hs. destruct (ValidateManifest_names _ _ _ Hv) as [Hall Hnd].
  apply (NoDup_Permutation_proper _ (map row_key (desired_list prefix manifest sentinels)));
    [apply fmap_Permutation, DesiredRows_perm|].
  unfold desired_list. rewrite map_app. apply NoDup_app. split; [|split].
  - destruct sentinels; [|constructor]. simpl. constructor; [|apply NoDup_singleton].
    rewrite list_elem_of_singleton. by intros [=].
  - intros k Hk (row & -> & (e & -> & He)%list_elem_of_fmap)%list_elem_of_fmap.
    destruct (Hall (prefix +:+ CanonicalName e)) as (Hn & Hne & _); [apply list_elem_of_fmap; by exists e|].
    destruct sentinels; [|by apply elem_of_nil in Hk].
    simpl in Hk. unfold row_key, NewLedgerKey in Hk. simpl in Hk.
    rewrite (ToUpper_valid (prefix +:+ CanonicalName e)), (ToUpper_valid (prefix +:+ SentinelName)) in Hk by done.
    apply elem_of_cons in Hk as [[=]|[[=]|[]%elem_of_nil]%elem_of_cons]; done.
  - rewrite map_map. apply (NoDup_fmap_1 snd). rewrite <- list_fmap_compose.
    rewrite map_map in Hnd. done.
Qed.
End index.

(** ** The three loops *)

Lemma stepped_trans_view k s s' k' :
  stepped k s s' → k' ≠ k → view (st_world s') k' = view (st_world s) k'.
Proof. intros [Hv _]. apply Hv. Qed.

Section loops.
Context `{CaseTable} `{!CaseLaws} (faults : nat → fault) (Htrue : truthful faults) (w0 : world) (n : Z).

Lemma release_row_spec r s1 :
  let k : LedgerKey := (le_surface r, le_name r) in
  ToUpper k.2 = k.2 → good w0 (st_world s1) → view (st_world s1) k = view w0 k → mem_agree k s1 →
  st_ledger s1 !! k = Some r → le_state r = Reserved →
  wp (release_row faults r) s1
    (λ _ s', good w0 (st_world s') ∧ stepped k s1 s' ∧ ledger (db (st_world s')) !! k = None)
    (λ _ s', good w0 (st_world s')).
Proof.
  intros k Hup Hgood Hview Hmem Hr Hst. unfold mem_agree in Hmem. rewrite Hr in Hmem.
  destruct Hmem as (r' & Hr' & Hst' & _). rewrite Hst in Hst'.
  destruct (view (st_world s1) k) as [[lr pv] o] eqn:H1. symmetry in Hview.
  pose proof (L_start k s1 _ _ _ (proj2 Hgood) H1) as HL.
  pose proof (L_ledger _ _ _ _ _ _ HL) as Hlr. rewrite Hr' in Hlr. subst lr.
  assert (key_ok k (view w0 k) (Some r', pv, o)) as Hk by (destruct Hgood as [Hg _]; rewrite <- H1; apply Hg).
  assert (o = false) as Ho.
  { destruct Hk as (_ & Ho & _). destruct o; [|done]. destruct (Ho eq_refl) as [Hh _].
    simpl in Hh. by rewrite Hst' in Hh. }
  assert (effect_key (delete_effect r) = k) as He.
  { unfold effect_key, NewLedgerKey. simpl. change (le_name r) with k.2. by rewrite Hup. }
  assert (∀ d u s', L k s1 s' (Some r') pv o → drop_reservation (delete_effect r) (db (st_world s')) = Ok (d, u) →
    ledger d = delete k (ledger (db (st_world s')))) as Hb.
  { intros d u s' HL'. unfold drop_reservation. rewrite He, (L_ledger _ _ _ _ _ _ HL').
    rewrite bool_decide_true by done. by intros [= <- _]. }
  assert (∀ s', L k s1 s' None pv o → good w0 (st_world s')) as Hgone.
  { intros s' HL'. eapply L_good; [done|done|]. eapply key_ok_ledger; [done|done|congruence]. }
  assert (∀ s', L k s1 s' (Some r') pv o → good w0 (st_world s')) as Hkept
    by (intros s' HL'; by eapply L_good).
  unfold release_row. apply wp_bind, wp_Gate; [intros p|intros x p; by apply Hkept, L_same].
  apply wp_bind, wp_transaction.
  - intros d u p' Hd. apply wp_modify.
    assert (L k s1 (at_db (at_db s1 (db (st_world s1)) p) d p') None pv o) as HL'.
    { eapply L_delete; [by apply L_same|]. eapply (Hb d u); [by apply L_same|done]. }
    split; [by apply Hgone|]. split; [by destruct HL' as (? & _ & _ & ?)|]. by apply (L_ledger _ _ _ _ _ _ HL').
  - intros x p'. by apply Hkept; repeat apply L_same.
  - intros x d u p' Hd. apply Hgone. eapply L_delete; [by apply L_same|]. eapply (Hb d u); [by apply L_same|done].
Qed.

Lemma prune_row_spec r s1 :
  let k : LedgerKey := (le_surface r, le_name r) in
  ToUpper k.2 = k.2 → good w0 (st_world s1) → view (st_world s1) k = view w0 k → mem_agree k s1 →
  st_ledger s1 !! k = Some r → le_state r ≠ Reserved →
  wp (prune_row faults n r) s1 (λ _ s', pruned w0 k s1 s') (λ _ s', good w0 (st_world s')).
Proof.
  intros k Hup Hgood Hview Hmem Hr Hst. unfold mem_agree in Hmem. rewrite Hr in Hmem.
  destruct Hmem as (r' & Hr' & Hst' & _ & Hrel & _).
  destruct (view (st_world s1) k) as [[lr pv] o] eqn:H1. symmetry in Hview.
  pose proof (L_start k s1 _ _ _ (proj2 Hgood) H1) as HL.
  pose proof (L_ledger _ _ _ _ _ _ HL) as Hlr. rewrite Hr' in Hlr. subst lr.
  assert (row_wf k (Some r')) as Hwf.
  { destruct Hgood as [Hg _]. destruct (Hg k) as [Hwf _]. by rewrite H1 in Hwf. }
  destruct (Hwf r' eq_refl) as [Hn Hm].
  eapply prune_row_wp; try done; [by rewrite Hst'|].
  rewrite Hst'. apply held_Some. destruct (le_state r); tauto.
Qed.

(** A loop over rows of distinct keys: each body is run in a state where its own
    key is as at the start, touches only that key and establishes [D] there. *)
Lemma keyed_loop {A} (l : list A) (key : A → LedgerKey) (f : A → sync unit)
    (D : A → sstate → Prop) s0 :
  NoDup (map key l) → good w0 (st_world s0) →
  (∀ x s, x ∈ l → good w0 (st_world s) →
     view (st_world s) (key x) = view (st_world s0) (key x) →
     st_ledger s !! key x = st_ledger s0 !! key x →
     wp (f x) s (λ _ s', good w0 (st_world s') ∧ stepped (key x) s s' ∧ D x s')
       (λ _ s', good w0 (st_world s'))) →
  (∀ x s s', D x s → view (st_world s') (key x) = view (st_world s) (key x) →
     st_ledger s' !! key x = st_ledger s !! key x → D x s') →
  wp (for_each l f) s0
    (λ _ s', good w0 (st_world s') ∧
       (∀ k, (k ∉ map key l) → view (st_world s') k = view (st_world s0) k ∧
                             st_ledger s' !! k = st_ledger s0 !! k) ∧
       (∀ x, x ∈ l → D x s'))
    (λ _ s', good w0 (st_world s')).
Proof.
  intros Hnd Hg0 Hf HD.
  set (I := λ rest s, good w0 (st_world s) ∧ ∃ visited, l = visited ++ rest ∧
    (∀ k, (k ∉ map key visited) → view (st_world s) k = view (st_world s0) k ∧
                                 st_ledger s !! k = st_ledger s0 !! k) ∧
    (∀ x, x ∈ visited → D x s)).
  eapply wp_mono; [eapply (wp_for_each l f I (λ _ s', good w0 (st_world s')))| |done].
  - split; [done|]. exists []. split; [done|]. split; [by intros k _; split|]. by intros x ?%elem_of_nil.
  - intros x rest s (Hg & visited & -> & Hsame & Hd).
    rewrite map_app in Hnd. cbn [map] in Hnd.
    apply NoDup_app in Hnd as (_ & Hdis & Hnd2). apply NoDup_cons in Hnd2 as [Hx _].
    assert (key x ∉ map key visited) as Hnx by (intros Hin; apply (Hdis _ Hin); by left).
    destruct (Hsame _ Hnx) as [Hv Hm].
    eapply wp_mono; [apply Hf; [apply elem_of_app; right; by left|done..]| |done].
    intros u s' (Hg' & [Hsv Hsm] & Hdx). split; [done|]. exists (visited ++ [x]).
    split; [by rewrite <- app_assoc|]. split.
    + intros k Hk. rewrite map_app in Hk. apply not_elem_of_app in Hk as [Hk1 Hk2].
      assert (k ≠ key x) as Hne by (intros ->; apply Hk2; by left).
      rewrite Hsv, Hsm by done. by apply Hsame.
    + intros y [Hy|Hy]%elem_of_app; [|apply list_elem_of_singleton in Hy as ->; done].
      assert (key y ≠ key x) as Hne.
      { intros E. apply Hnx. rewrite <- E. apply list_elem_of_fmap. by exists y. }
      eapply HD; [by apply Hd|by apply Hsv|by apply Hsm].
  - intros u s (Hg & visited & E & Hsame & Hd). rewrite app_nil_r in E. subst visited. done.
Qed.
End loops.

(** ** The whole run *)

(** What an attempt starts from: rows filed under their upper-case names, the
    content of ours held and present, and the request built from these rows. *)
Record ready `{CaseTable} (req : SyncRequest) (w : world) : Prop := {
  ready_rows : ∀ k r, ledger (db w) !! k = Some r →
    (le_surface r, le_name r) = k ∧ ToUpper k.2 = k.2 ∧
    (le_missing r = true → held (le_state r) = true);
  ready_custody : ∀ k, k ∈ ours w → holds (ledger (db w) !! k) = true ∧ is_Some (provider w !! k);
  ready_calls : calls w = [];
  ready_ledger : Ledger req ≡ₚ (map_to_list (load_ledger (ledger (db w)))).*2;
  ready_prefix : effectiveName (NamePrefix req +:+ SentinelName) = true
}.

(** Every desired name not already completed holds its value and is owned;
    every other name the ledger held is gone and released; bare reservations
    are dropped. *)
Definition desired_of `{CaseTable} (req : SyncRequest) : list DesiredRow :=
  DesiredRows (NamePrefix req) (Manifest req) (negb (Teardown req)).
Definition converged `{CaseTable} (req : SyncRequest) (w w' : world) : Prop :=
  (∀ row, row ∈ desired_of req → (row_key row ∉ CompletedNames (Completed req)) →
     provider w' !! row_key row = Some (me_value (dr_entry row)) ∧
     ∃ r, ledger (db w') !! row_key row = Some r ∧ le_state r = Owned ∧ le_missing r = false) ∧
  (∀ k r, ledger (db w) !! k = Some r → (k ∉ desiredSet (desired_of req)) →
     match le_state r with
     | Owned | Dispatched =>
         provider w' !! k = None ∧ ∃ r', ledger (db w') !! k = Some r' ∧ le_state r' = Released
     | Reserved => ledger (db w') !! k = None
     | Released => True
     end).

Section run.
Context `{CaseTable} `{!CaseLaws} (faults : nat → fault) (Htrue : truthful faults).
Context (req : SyncRequest) (w : world) (Hready : ready req w).

Lemma start_good : good w w.
Proof.
  split; [|rewrite (ready_calls _ _ Hready); constructor]. intros k. split; [|split; [|done]].
  - intros r Hr. destruct (ready_rows _ _ Hready k r Hr) as (? & _ & ?). done.
  - intros Hk%bool_decide_eq_true. by apply (ready_custody _ _ Hready).
Qed.

Lemma load_lookup k r :
  load_ledger (ledger (db w)) !! k = Some r ↔ ledger (db w) !! k = Some r ∧ le_state r ≠ Released.
Proof. unfold load_ledger. by rewrite map_lookup_filter_Some. Qed.

Lemma start_index : IndexLedger (Ledger req) = Ok (load_ledger (ledger (db w))).
Proof.
  apply IndexLedger_load; [|apply (ready_ledger _ _ Hready)].
  intros k r [Hr _]%load_lookup. destruct (ready_rows _ _ Hready k r Hr) as (Hn & Hup & Hm).
  split; [|done]. unfold entry_key, NewLedgerKey. rewrite <- Hn in Hup. simpl in Hup. by rewrite Hup.
Qed.

Lemma start_mem s k :
  view (st_world s) k = view w k → st_ledger s !! k = load_ledger (ledger (db w)) !! k → mem_agree k s.
Proof.
  intros Hv Hm. unfold mem_agree, view in *. injection Hv as -> _ _. rewrite Hm.
  destruct (load_ledger (ledger (db w)) !! k) as [r|] eqn:E.
  - apply load_lookup in E as [Hr Hrel]. exists r. destruct (ready_rows _ _ Hready k r Hr) as (? & _). done.
  - intros r' Hr'. destruct (decide (le_state r' = Released)) as [|Hne]; [done|].
    assert (load_ledger (ledger (db w)) !! k = Some r') by (by apply load_lookup). congruence.
Qed.

Lemma listed_absent s (names : list string) name :
  names = omap (λ kv, if bool_decide (kv.1.1 = Secret) then Some kv.1.2 else None)
            (map_to_list (provider (st_world s))) →
  ToUpper name = name → name ∉ NameSet names → provider (st_world s) !! (Secret, name) = None.
Proof.
  intros -> Hup Hni. apply eq_None_not_Some. intros [v Hv]. apply Hni. unfold NameSet.
  apply elem_of_list_to_set, list_elem_of_fmap. exists name. split; [done|].
  apply list_elem_of_omap. exists ((Secret, name), v). by rewrite elem_of_map_to_list.
Qed.

Lemma mem_agree_ext k s s' :
  mem_agree k s → view (st_world s') k = view (st_world s) k → st_ledger s' !! k = st_ledger s !! k →
  mem_agree k s'.
Proof. intros Ha Hv Hm. unfold mem_agree, view in *. rewrite Hm. by injection Hv as -> _ _. Qed.

Lemma confirmed_ext k v s s' :
  confirmed k v s → view (st_world s') k = view (st_world s) k → confirmed k v s'.
Proof. intros Hc Hv. unfold confirmed, view in *. by injection Hv as -> -> _. Qed.

(** The loop over the desired rows. *)
Lemma push_loop s (names : list string) :
  ValidateManifest (NamePrefix req) (Manifest req) = Ok tt →
  good w (st_world s) → (∀ k, view (st_world s) k = view w k) →
  st_ledger s = load_ledger (ledger (db w)) →
  names = omap (λ kv, if bool_decide (kv.1.1 = Secret) then Some kv.1.2 else None)
            (map_to_list (provider (st_world s))) →
  wp (for_each (desired_of req)
        (push_row faults (NumericID req) (NameSet names) (CompletedNames (Completed req)))) s
    (λ _ s', good w (st_world s') ∧
       (∀ k, (k ∉ map row_key (desired_of req)) →
          view (st_world s') k = view w k ∧ st_ledger s' !! k = load_ledger (ledger (db w)) !! k) ∧
       (∀ row, row ∈ desired_of req → mem_agree (row_key row) s' ∧
          (row_key row ∉ CompletedNames (Completed req) →
             confirmed (row_key row) (me_value (dr_entry row)) s')))
    (λ _ s', good w (st_world s')).
Proof.
  intros Hv Hg Hview Hmem Hnames. pose proof (ready_prefix _ _ Hready) as Hpre.
  eapply wp_mono; [apply (keyed_loop w (desired_of req) row_key _
    (λ row s', mem_agree (row_key row) s' ∧
       (row_key row ∉ CompletedNames (Completed req) →
          confirmed (row_key row) (me_value (dr_entry row)) s')))| |done].
  - by apply desired_keys.
  - done.
  - intros row s1 Hin Hg1 Hv1 Hm1.
    assert (ToUpper (dr_name row) = dr_name row) as Hup by (by eapply desired_names).
    apply push_row_spec; [done|done|done|by rewrite Hv1| |].
    + apply start_mem; [by rewrite Hv1|by rewrite Hm1, Hmem].
    + intros Hs Hni. unfold view in Hv1. injection Hv1 as _ -> _.
      unfold row_key, NewLedgerKey. rewrite Hs, Hup. by eapply listed_absent.
  - intros row s1 s2 [Hm1 Hc1] Hv1 Hl1. split; [by eapply mem_agree_ext|].
    intros Hnc. eapply confirmed_ext; [by apply Hc1|done].
  - intros u s' (Hg' & Hsame & Hd). split; [done|]. split; [|done].
    intros k Hk. destruct (Hsame k Hk) as [-> ->]. by rewrite Hview, Hmem.
Qed.

Definition entry_place (r : LedgerEntry) : LedgerKey := (le_surface r, le_name r).

(** The rows the pruning loops visit: untouched, distinct, as at the start. *)
Lemma undesired_ok s :
  (∀ k, (k ∉ map row_key (desired_of req)) →
     view (st_world s) k = view w k ∧ st_ledger s !! k = load_ledger (ledger (db w)) !! k) →
  let rows := undesired_rows (desired_of req) (st_ledger s) in
  (∀ r, r ∈ rows ↔ ledger (db w) !! entry_place r = Some r ∧ le_state r ≠ Released ∧
                   (entry_place r ∉ desiredSet (desired_of req))) ∧
  NoDup (map entry_place rows).
Proof.
  intros Hsame rows.
  assert (∀ k, (k ∉ desiredSet (desired_of req)) ↔ (k ∉ map row_key (desired_of req))) as Hset.
  { intros k. unfold desiredSet. by rewrite elem_of_list_to_set. }
  assert (∀ k r, st_ledger s !! k = Some r → (k ∉ desiredSet (desired_of req)) →
    entry_place r = k ∧ ledger (db w) !! k = Some r ∧ le_state r ≠ Released) as Hrow.
  { intros k r Hr Hk%Hset. destruct (Hsame k Hk) as [_ E]. rewrite E in Hr.
    apply load_lookup in Hr as [Hr ?]. by destruct (ready_rows _ _ Hready k r Hr). }
  split.
  - intros r. unfold rows, undesired_rows. rewrite list_elem_of_fmap. split.
    + intros ([k r'] & -> & [Hk Hin]%list_elem_of_filter). apply elem_of_map_to_list in Hin. simpl in *.
      by destruct (Hrow k r' Hin Hk) as (-> & ? & ?).
    + intros (Hr & Hrel & Hk). exists (entry_place r, r). split; [done|].
      apply list_elem_of_filter. split; [done|]. apply elem_of_map_to_list.
      destruct (Hsame (entry_place r)) as [_ ->]; [by apply Hset|]. by apply load_lookup.
  - unfold rows, undesired_rows.
    set (l := filter _ _).
    assert (map entry_place l.*2 = l.*1) as ->.
    { unfold l. rewrite <- list_fmap_compose. apply list_fmap_ext. intros i [k r] Hi. simpl.
      apply list_elem_of_lookup_2, list_elem_of_filter in Hi as [Hk Hin].
      apply elem_of_map_to_list in Hin. by destruct (Hrow k r Hin Hk). }
    unfold l. apply NoDup_fmap_fst; [|apply NoDup_filter, NoDup_map_to_list].
    intros k r1 r2 [_ H1]%list_elem_of_filter [_ H2]%list_elem_of_filter.
    apply elem_of_map_to_list in H1, H2. congruence.
Qed.

Lemma undesired_split s :
  let rows := undesired_rows (desired_of req) (st_ledger s) in
  let u := Undesired (desired_of req) (st_ledger s) in
  NoDup (map entry_place rows) →
  (∀ r, r ∈ u.1 ↔ r ∈ rows ∧ le_state r = Reserved) ∧
  (∀ r, r ∈ u.2 ↔ r ∈ rows ∧ le_state r ≠ Reserved) ∧
  NoDup (map entry_place u.1) ∧ NoDup (map entry_place u.2) ∧
  (∀ k, k ∈ map entry_place u.1 → (k ∉ map entry_place u.2)).
Proof.
  intros rows u Hnd. unfold u, Undesired, sortLedger. simpl.
  assert (∀ P `{!∀ r : LedgerEntry, Decision (P r)} le, NoDup (map entry_place (sort_by le (filter P rows)))) as Hsub.
  { intros P ? le. apply (NoDup_Permutation_proper _ (map entry_place (filter P rows)));
      [apply fmap_Permutation, sort_by_Permutation|].
    eapply sublist_NoDup; [done|]. apply fmap_sublist, sublist_filter. }
  split; [|split; [|split; [apply Hsub|split; [apply Hsub|]]]].
  - intros r. rewrite sort_by_Permutation, list_elem_of_filter. tauto.
  - intros r. rewrite sort_by_Permutation, list_elem_of_filter. tauto.
  - intros k (r1 & -> & H1)%list_elem_of_fmap (r2 & E & H2)%list_elem_of_fmap.
    rewrite sort_by_Permutation, list_elem_of_filter in H1, H2.
    destruct H1 as [S1 I1], H2 as [S2 I2]. apply S2.
    assert (r1 = r2) as <-; [|done].
    apply list_elem_of_lookup in I1 as [i Hi], I2 as [j Hj].
    assert (i = j) as <-; [|congruence].
    eapply (NoDup_lookup (map entry_place rows)); [done|..]; apply list_lookup_fmap_Some.
    + exists r1. done.
    + exists r2. done.
Qed.

(** The pruning loops, from the state the push loop leaves. *)
Lemma prune_loops s :
  good w (st_world s) →
  (∀ k, (k ∉ map row_key (desired_of req)) →
     view (st_world s) k = view w k ∧ st_ledger s !! k = load_ledger (ledger (db w)) !! k) →
  let u := Undesired (desired_of req) (st_ledger s) in
  wp (do* _ := for_each u.1 (release_row faults) in
      for_each u.2 (prune_row faults (NumericID req))) s
    (λ _ s', good w (st_world s') ∧
       (∀ k, k ∈ desiredSet (desired_of req) → view (st_world s') k = view (st_world s) k) ∧
       (∀ k r, ledger (db w) !! k = Some r → (k ∉ desiredSet (desired_of req)) →
          match le_state r with
          | Owned | Dispatched =>
              provider (st_world s') !! k = None ∧
              ∃ r', ledger (db (st_world s')) !! k = Some r' ∧ le_state r' = Released
          | Reserved => ledger (db (st_world s')) !! k = None
          | Released => True
          end))
    (λ _ s', good w (st_world s')).
Proof.
  intros Hg Hsame u. destruct (undesired_ok s Hsame) as [Hrows Hnd].
  destruct (undesired_split s Hnd) as (Hu1 & Hu2 & Hn1 & Hn2 & Hdis). fold u in Hu1, Hu2, Hn1, Hn2, Hdis.
  assert (∀ r, r ∈ undesired_rows (desired_of req) (st_ledger s) →
    view (st_world s) (entry_place r) = view w (entry_place r) ∧
    st_ledger s !! entry_place r = load_ledger (ledger (db w)) !! entry_place r ∧
    load_ledger (ledger (db w)) !! entry_place r = Some r ∧ ToUpper (entry_place r).2 = (entry_place r).2) as Hr.
  { intros r (Hr & Hrel & Hk)%Hrows. destruct (Hsame (entry_place r)) as [-> ->].
    { intros Hin. apply Hk. by apply elem_of_list_to_set. }
    split; [done|]. split; [done|]. split; [by apply load_lookup|]. by destruct (ready_rows _ _ Hready _ _ Hr) as (_ & ? & _). }
  apply wp_bind. eapply wp_mono; [apply (keyed_loop w u.1 entry_place _ (λ r s', ledger (db (st_world s')) !! entry_place r = None)); [done|done|..]| |done].
  { intros r s1 Hin%Hu1 Hg1 Hv1 Hm1. destruct Hin as [Hin Hst]. destruct (Hr r Hin) as (Ev & Em & El & Hup).
    apply release_row_spec; [done|done|exact (eq_trans Hv1 Ev)| | |done].
    - apply start_mem; [exact (eq_trans Hv1 Ev)|exact (eq_trans Hm1 Em)].
    - exact (eq_trans Hm1 (eq_trans Em El)). }
  { intros r s1 s2 Hd Hv _. unfold view in Hv. by injection Hv as -> _ _. }
  intros _ s1 (Hg1 & Hsame1 & Hd1).
  eapply wp_mono; [apply (keyed_loop w u.2 entry_place _ (λ r s', provider (st_world s') !! entry_place r = None ∧
    ∃ r', ledger (db (st_world s')) !! entry_place r = Some r' ∧ le_state r' = Released)); [done|done|..]| |done].
  { intros r s2 Hin Hg2 Hv2 Hm2. pose proof Hin as [Hin' Hst]%Hu2. destruct (Hr r Hin') as (Ev & Em & El & Hup).
    destruct (Hsame1 (entry_place r)) as [Ev1 Em1].
    { intros Hin1. apply (Hdis _ Hin1). apply list_elem_of_fmap. by exists r. }
    eapply wp_mono; [apply (prune_row_spec faults Htrue w); [done|done|exact (eq_trans Hv2 (eq_trans Ev1 Ev))| | |done]| |done].
    - apply start_mem; [exact (eq_trans Hv2 (eq_trans Ev1 Ev))|exact (eq_trans Hm2 (eq_trans Em1 Em))].
    - exact (eq_trans Hm2 (eq_trans Em1 (eq_trans Em El))).
    - by intros _ s3 (? & ? & ? & ?). }
  { intros r s2 s3 Hd Hv _. unfold view in Hv. by injection Hv as -> -> _. }
  intros _ s2 (Hg2 & Hsame2 & Hd2). split; [done|].
  assert (∀ k r, ledger (db w) !! k = Some r → (k ∉ desiredSet (desired_of req)) → le_state r ≠ Released →
    r ∈ undesired_rows (desired_of req) (st_ledger s) ∧ entry_place r = k) as Hin.
  { intros k r Hk Hk' Hrel. destruct (ready_rows _ _ Hready k r Hk) as (E & _). split; [|done].
    apply Hrows. rewrite (E : entry_place r = k). done. }
  split.
  - intros k Hk.
    assert (k ∉ map entry_place u.1) as K1
      by (intros (r & -> & [Hr1 _]%Hu1)%list_elem_of_fmap; by apply Hrows in Hr1 as (_ & _ & ?)).
    assert (k ∉ map entry_place u.2) as K2
      by (intros (r & -> & [Hr1 _]%Hu2)%list_elem_of_fmap; by apply Hrows in Hr1 as (_ & _ & ?)).
    rewrite (proj1 (Hsame2 k K2)). apply (Hsame1 k K1).
  - intros k r Hk Hk'. destruct (le_state r) eqn:Est; [| | |done].
    all: destruct (Hin k r Hk Hk') as [Hr1 <-]; [congruence|].
    + assert (r ∈ u.1) as Hru by (by apply Hu1). specialize (Hd1 r Hru).
      destruct (Hsame2 (entry_place r)) as [Ev _].
      { intros Hin2. apply (Hdis (entry_place r)); [|done]. apply list_elem_of_fmap. by exists r. }
      unfold view in Ev. by injection Ev as -> _ _.
    + apply Hd2, Hu2. split; [done|congruence].
    + apply Hd2, Hu2. split; [done|congruence].
Qed.

Lemma sync_spec :
  wp (sync_body faults req) (start w)
    (λ _ s', good w (st_world s') ∧ converged req w (st_world s')) (λ _ s', good w (st_world s')).
Proof.
  pose proof start_good as Hg. unfold sync_body. unfold lift at 1.
  apply wp_bind. destruct (ValidateManifest _ _) as [[]|x] eqn:Hv; [apply wp_ret|by apply wp_fail].
  apply wp_bind, wp_Gate; [intros p1|by intros x p1].
  apply wp_bind, wp_verify; [intros p2|by intros x p2].
  apply wp_bind, wp_Gate; [intros p3|by intros x p3].
  apply wp_bind. unfold ListSecretNames. apply wp_bind.
  unfold wp at 1, next_fault. cbn [st_world].
  destruct (f_err _) as [x|]; [by apply wp_fail|]. apply wp_gets.
  rewrite start_index. apply wp_bind, wp_ret, wp_bind, wp_modify, wp_bind.
  eapply wp_mono; [eapply push_loop; [done|done|done|done|reflexivity]| |done].
  intros _ s (Hg1 & Hsame & Hd). apply wp_bind, wp_gets.
  eapply wp_mono; [by apply prune_loops| |done].
  intros _ s' (Hg2 & Hkeep & Hgone). split; [done|]. split; [|done].
  intros row Hrow Hnc. destruct (Hd row Hrow) as [_ Hc].
  assert (row_key row ∈ desiredSet (desired_of req)) as Hk.
  { apply elem_of_list_to_set, list_elem_of_fmap. by exists row. }
  apply (confirmed_ext _ _ s s' (Hc Hnc) (Hkeep _ Hk)).
Qed.
End run.

Lemma Sync_cases `{CaseTable} `{!CaseLaws} faults req w :
  truthful faults → ready req w →
  let '(w', _, e) := Sync faults req w in good w w' ∧ (e = None → converged req w w').
Proof.
  intros Ht Hr. pose proof (sync_spec faults Ht req w Hr) as Hs. unfold Sync, wp in *.
  destruct (sync_body faults req (start w)) as [s [[]|x]]; [tauto|]. split; [done|]. by intros [=].
Qed.

(** C10 No capture. Whatever a run of [Sync] meets (refused gates, lost
    leases, refused requests, lost answers, crashes anywhere), a name the ledger
    did not hold when the run began keeps the content it had: a run neither
    overwrites nor deletes what the adapter does not own. Nobody else writes to
    the destination while the run lasts. *)
Theorem sync_never_captures `{CaseTable} `{!CaseLaws} (faults : nat → fault) (req : SyncRequest)
    (w : world) (k : LedgerKey) (v : string) :
  truthful faults → ready req w →
  holds (ledger (db w) !! k) = false → provider w !! k = Some v →
  let '(w', _, _) := Sync faults req w in provider w' !! k = Some v.
Proof.
  intros Ht Hr Hh Hv. pose proof (Sync_cases faults req w Ht Hr) as Hc.
  destruct (Sync faults req w) as [[w' res] e]. destruct Hc as [[Hg _] _].
  destruct (Hg k) as (_ & _ & Hk). by apply Hk.
Qed.

(** C11 Custody survives every failure. Wherever a run stops, content the
    adapter wrote is still held by its ledger as owned or dispatched, so a later
    run can update or remove it; nothing written is ever disowned. *)
Theorem sync_custody_kept `{CaseTable} `{!CaseLaws} (faults : nat → fault) (req : SyncRequest)
    (w : world) :
  truthful faults → ready req w →
  let '(w', _, _) := Sync faults req w in
  ∀ k, k ∈ ours w' → holds (ledger (db w') !! k) = true ∧ is_Some (provider w' !! k).
Proof.
  intros Ht Hr. pose proof (Sync_cases faults req w Ht Hr) as Hc.
  destruct (Sync faults req w) as [[w' res] e]. destruct Hc as [[Hg _] _]. intros k Hk.
  destruct (Hg k) as (_ & Ho & _). apply Ho. by apply bool_decide_true.
Qed.

(** Intent before effect. Every request that can change the destination
    was sent while the durable ledger held its name, the provider-write lease
    belonged to its effect, and that effect's INTENT was recorded and open. *)
Theorem sync_write_ahead `{CaseTable} `{!CaseLaws} (faults : nat → fault) (req : SyncRequest)
    (w : world) :
  truthful faults → ready req w →
  let '(w', _, _) := Sync faults req w in
  ∀ k d, (k, d) ∈ calls w' →
    ∃ r id, ledger d !! k = Some r ∧ held (le_state r) = true ∧ opened k id d.
Proof.
  intros Ht Hr. pose proof (Sync_cases faults req w Ht Hr) as Hc.
  destruct (Sync faults req w) as [[w' res] e]. destruct Hc as [[_ Hcalls] _]. intros k d Hin.
  rewrite Forall_forall in Hcalls. apply (Hcalls (k, d) Hin).
Qed.

(** C12 Convergence. A run that returns without error has converged: every
    desired name not completed earlier in the job holds its value and is owned
    and not missing, every other name the ledger held is gone from the
    destination and released, and bare reservations no longer desired are
    dropped. *)
Theorem sync_converges `{CaseTable} `{!CaseLaws} (faults : nat → fault) (req : SyncRequest)
    (w w' : world) (res : SyncResult) :
  truthful faults → ready req w → Sync faults req w = (w', res, None) → converged req w w'.
Proof.
  intros Ht Hr E. pose proof (Sync_cases faults req w Ht Hr) as Hc. rewrite E in Hc. by apply Hc.
Qed.

(** ** A concrete destination *)

Definition calm (n : nat) : fault :=
  {| f_err := None; f_applied := false; f_expired := false; f_id := 7 |}.

Definition no_rows : durable :=
  {| ledger := ∅; effects := []; lease := None; conflicts := []; attention := false; audit := [] |}.

Definition old_row : LedgerEntry := plainEntry Secret "APP_OLD" Owned.

(** The adapter owns [APP_OLD]; [APP_NAME] is somebody else's variable. *)
Definition demo_world : world :=
  {| provider := {[ (Secret, "APP_OLD") := "retired"; (Var, "APP_NAME") := "theirs" ]};
     ours := {[ (Secret, "APP_OLD") ]};
     db := set_ledger no_rows {[ (Secret, "APP_OLD") := old_row ]};
     pos := 0; calls := [] |}.

Definition demo_request : SyncRequest :=
  {| NumericID := 7; NamePrefix := "APP_";
     Manifest := [{| KeyID := "key_1"; CanonicalName := "DB_URL"; me_class := SecretClassification;
                     me_value := "postgres://db" |};
                  {| KeyID := "key_2"; CanonicalName := "MODE"; me_class := ConfigClassification;
                     me_value := "prod" |}];
     Ledger := [old_row]; Teardown := false; Completed := [] |}.

Lemma calm_truthful : truthful calm.
Proof. done. Qed.

Lemma demo_ready : ready demo_request demo_world.
Proof.
  split.
  - intros k r Hr. cbn [db demo_world ledger set_ledger] in Hr. apply lookup_singleton_Some in Hr as [<- <-]. done.
  - intros k Hk. cbn [ours demo_world] in Hk. apply elem_of_singleton in Hk as ->. split; [vm_compute; reflexivity|]. eexists. vm_compute. reflexivity.
  - done.
  - assert (load_ledger (ledger (db demo_world)) = {[ (Secret, "APP_OLD") := old_row ]}) as ->.
    { unfold load_ledger. apply map_filter_singleton_True. done. }
    by rewrite map_to_list_singleton.
  - vm_compute. reflexivity.
Qed.

(** A run whose last write loses its answer. *)
Definition stormy (n : nat) : fault :=
  if bool_decide (n = 26%nat)
  then {| f_err := Some opaque; f_applied := true; f_expired := false; f_id := 7 |} else calm n.

Lemma stormy_truthful : truthful stormy.
Proof. intros n x. unfold stormy. case_bool_decide; simpl; [by intros [= <-]|done]. Qed.

Lemma sync_never_captures_witness :
  let '(w', _, e) := Sync stormy demo_request demo_world in
  e = Some (sentinel_err ErrIndeterminate) ∧ provider w' !! (Var, "APP_NAME") = Some "theirs".
Proof.
  pose proof (sync_never_captures stormy demo_request demo_world (Var, "APP_NAME") "theirs"
    stormy_truthful demo_ready eq_refl ltac:(vm_compute; reflexivity)) as Hkept.
  assert ((Sync stormy demo_request demo_world).2 = Some (sentinel_err ErrIndeterminate)) as He
    by (vm_compute; reflexivity).
  destruct (Sync stormy demo_request demo_world) as [[w' res] e]. split; [exact He|exact Hkept].
Defined.

Lemma sync_custody_kept_witness :
  let '(w', _, _) := Sync stormy demo_request demo_world in
  ∀ k, k ∈ ours w' → holds (ledger (db w') !! k) = true ∧ is_Some (provider w' !! k).
Proof. exact (sync_custody_kept stormy demo_request demo_world stormy_truthful demo_ready). Defined.

Lemma sync_write_ahead_witness :
  let '(w', _, _) := Sync calm demo_request demo_world in
  length (calls w') = 5%nat ∧
  ∀ k d, (k, d) ∈ calls w' →
    ∃ r id, ledger d !! k = Some r ∧ held (le_state r) = true ∧ opened k id d.
Proof.
  pose proof (sync_write_ahead calm demo_request demo_world calm_truthful demo_ready) as Hc.
  assert (length (calls (Sync calm demo_request demo_world).1.1) = 5%nat) as Hl
    by (vm_compute; reflexivity).
  destruct (Sync calm demo_request demo_world) as [[w' res] e]. split; [exact Hl|exact Hc].
Defined.

Lemma sync_converges_witness :
  let '(w', _, e) := Sync calm demo_request demo_world in
  e = None ∧ converged demo_request demo_world w'.
Proof.
  pose proof (λ w' res, sync_converges calm demo_request demo_world w' res calm_truthful demo_ready) as Hc.
  assert ((Sync calm demo_request demo_world).2 = None) as He by (vm_compute; reflexivity).
  destruct (Sync calm demo_request demo_world) as [[w' res] e]. simpl in He. subst e.
  split; [reflexivity|]. exact (Hc w' res eq_refl).
Defined.

(** ** The dispatch window *)

(** The request of the next attempt, with the ledger as it now is. *)
Definition reload (req : SyncRequest) (w : world) : SyncRequest :=
  {| NumericID := NumericID req; NamePrefix := NamePrefix req; Manifest := Manifest req;
     Ledger := (map_to_list (load_ledger (ledger (db w)))).*2;
     Teardown := Teardown req; Completed := Completed req |}.

Definition foreign_world : world :=
  {| provider := {[ (Var, "APP_MODE") := "theirs" ]}; ours := ∅; db := no_rows; pos := 0; calls := [] |}.

Definition foreign_request : SyncRequest :=
  {| NumericID := 7; NamePrefix := "APP_";
     Manifest := [{| KeyID := "key_2"; CanonicalName := "MODE"; me_class := ConfigClassification;
                     me_value := "prod" |}];
     Ledger := []; Teardown := false; Completed := [] |}.

Definition rewind (w : world) : world :=
  {| provider := provider w; ours := ours w; db := db w; pos := 0; calls := calls w |}.

(** The dispatch window covers names that were there before. A variable
    that existed before the first attempt, which the create request would have
    refused, is overwritten by the retry when that request's answer was lost:
    the row is dispatched before the destination has said the name is free, and
    the retry updates instead of creating. *)
Theorem variable_captured_after_lost_answer :
  let '(w1, _, e1) := Sync stormy foreign_request foreign_world in
  let '(w2, _, e2) := Sync calm (reload foreign_request w1) (rewind w1) in
  provider foreign_world !! (Var, "APP_MODE") = Some "theirs" ∧
  provider w1 !! (Var, "APP_MODE") = Some "theirs" ∧
  bool_decide ((Var, "APP_MODE") ∈ ours w1) = false ∧
  e1 = Some (sentinel_err ErrIndeterminate) ∧ e2 = None ∧
  provider w2 !! (Var, "APP_MODE") = Some "prod".
Proof. vm_compute. repeat split. Qed.
