(* ===== verification/Outbox.v ===== *)
(** * The outbox worker: [adapter/outbox.go]

    One call of [RunOnce] claims a due job, drives its provider module, waiting
    inside the attempt while the provider's rate limit allows, and settles the
    job. The store, the loader, the module and the clock are an environment; the
    loop's fuel is proved sufficient from the attempt's own deadline. *)

From stdpp Require Import prelude list strings.
From Stdlib Require Import ZArith.
From S2P Require Import Prelude StateErr AdmissionWindow Adapter AdapterJournal.

Open Scope Z_scope.

Definition RetryFloor : Z := 30 * Second.
Definition RetryCap : Z := 3600 * Second.
Definition AttemptTimeout : Z := 2 * Minute.
Definition LeaseTime : Z := AttemptTimeout + 5 * Second.

(** ** The retry schedule *)

(** [for i := 1; i < attempt && delay < RetryCap; i++]. *)
Fixpoint backoff (steps : nat) (delay : Z) : Z :=
  match steps with
  | O => delay
  | S steps =>
      if delay <? RetryCap
      then backoff steps (if RetryCap <? delay * 2 then RetryCap else delay * 2)
      else delay
  end.

(** [random] is the draw of [rand.Int64N]. *)
Definition RetryDelay (attempt : Z) (jitter : option (Z → Z)) (random : Z) : Z :=
  let delay := backoff (Z.to_nat (attempt - 1)) RetryFloor in
  match jitter with
  | None => delay `quot` 2 + random
  | Some f => f delay
  end.

Definition ProviderRetryAt (e : err) : option Z := retryAt e.

Definition retryDue (now attempt : Z) (jitter : option (Z → Z)) (random : Z) (e : err) : Z :=
  match ProviderRetryAt e with
  | Some at_ =>
      if now <? at_ then
        let ceiling := now + RetryCap in
        if ceiling <? at_ then ceiling else at_
      else now + RetryDelay attempt jitter random
  | None => now + RetryDelay attempt jitter random
  end.

Lemma backoff_pow k : ∀ d, 0 < d → d ≤ RetryCap → backoff k d = Z.min (d * 2 ^ Z.of_nat k) RetryCap.
Proof.
  induction k as [|k IH]; intros d H0 H1; cbn [backoff].
  { rewrite Z.pow_0_r. lia. }
  rewrite Nat2Z.inj_succ, Z.pow_succ_r by lia.
  assert (1 ≤ 2 ^ Z.of_nat k) as Hk by (apply (Z.pow_le_mono_r 2 0); lia).
  destruct (d <? RetryCap) eqn:E1; [apply Z.ltb_lt in E1|apply Z.ltb_ge in E1; rewrite Z.min_r; [lia|nia]].
  destruct (RetryCap <? d * 2) eqn:E2; [apply Z.ltb_lt in E2|apply Z.ltb_ge in E2].
  - rewrite IH by (unfold RetryCap, Second in *; lia). rewrite !Z.min_r; [done|nia|nia].
  - rewrite IH by lia. f_equal. lia.
Qed.

Lemma RetryDelay_default attempt random :
  1 ≤ attempt → 0 ≤ random < (Z.min (RetryFloor * 2 ^ (attempt - 1)) RetryCap) `quot` 2 →
  let base := Z.min (RetryFloor * 2 ^ (attempt - 1)) RetryCap in
  base `div` 2 ≤ RetryDelay attempt None random < base ∧ RetryFloor ≤ base.
Proof.
  intros Ha Hr base. unfold RetryDelay. rewrite backoff_pow by (unfold RetryFloor, RetryCap, Second; lia).
  rewrite Z2Nat.id by lia. fold base in Hr |- *.
  assert (1 ≤ 2 ^ (attempt - 1)) as Hp by (apply (Z.pow_le_mono_r 2 0); lia).
  assert (RetryFloor ≤ base) as Hb by (unfold base, RetryFloor, RetryCap, Second in *; nia).
  split; [|done]. assert (0 ≤ base) by (unfold RetryFloor, Second in *; lia).
  rewrite Z.quot_div_nonneg in * by lia.
  pose proof (Z.mul_div_le base 2 ltac:(lia)). lia.
Qed.

(** The retry schedule. With the default jitter, attempt [n] is retried
    after at least half and less than the whole of [min(30 s * 2^(n-1), 1 h)],
    unless the provider named a future deadline, which is kept up to an hour and
    capped there; in every case the retry is due after now and within an hour. *)
Theorem retry_schedule (now attempt random : Z) (e : err) :
  let base := Z.min (RetryFloor * 2 ^ (attempt - 1)) RetryCap in
  1 ≤ attempt → 0 ≤ random < base `quot` 2 →
  let due := retryDue now attempt None random e in
  now < due ≤ now + RetryCap ∧
  match retryAt e with
  | Some t => if now <? t then due = Z.min t (now + RetryCap)
              else now + base `div` 2 ≤ due < now + base
  | None => now + base `div` 2 ≤ due < now + base
  end.
Proof.
  intros base Ha Hr due. destruct (RetryDelay_default attempt random Ha Hr) as [Hd Hb]. fold base in Hd, Hb.
  assert (base ≤ RetryCap) as Hcap by (unfold base; lia).
  assert (0 < base `div` 2) as Hpos.
  { apply Z.div_str_pos. unfold RetryFloor, Second in Hb. lia. }
  unfold due, retryDue, ProviderRetryAt. destruct (retryAt e) as [t|]; [|split; lia].
  destruct (now <? t) eqn:Et; [apply Z.ltb_lt in Et|split; lia].
  destruct (now + RetryCap <? t) eqn:Ec; [apply Z.ltb_lt in Ec|apply Z.ltb_ge in Ec].
  - split; [unfold RetryCap, Second; lia|lia].
  - split; lia.
Qed.

Lemma retry_schedule_witness :
  let due := retryDue 1000 4 None 7 opaque in 1000 < due ≤ 1000 + RetryCap.
Proof. apply (retry_schedule 1000 4 7 opaque); vm_compute; [intros [=]|split; [intros [=]|reflexivity]]. Defined.

(** ** Derived status: [health.go] *)

Inductive TargetHealth :=
| HealthNever | HealthPending | HealthConverging | HealthConverged | HealthDegraded
| HealthFailed | HealthPaused.

Definition DeriveHealth (syncStatus : string) (paused hasConverged : bool) (jobState : string) :
    TargetHealth :=
  if paused then HealthPaused
  else if bool_decide (syncStatus = "converging") then
    if bool_decide (jobState = "queued") then HealthPending else HealthConverging
  else if bool_decide (syncStatus = "converged") then HealthConverged
  else if bool_decide (syncStatus = "failed") then
    if hasConverged then HealthDegraded else HealthFailed
  else HealthNever.

Inductive ErrorClass :=
| ErrorClassAuth | ErrorClassNetwork | ErrorClassConflict | ErrorClassProviderLimit
| ErrorClassProviderAmbiguous | ErrorClassRefused.
#[export] Instance ErrorClass_eq_dec : EqDecision ErrorClass.
Proof. solve_decision. Defined.

Definition ClassifyError (e : option err) : option ErrorClass :=
  match e with
  | None => None
  | Some e =>
      Some (if Is e ErrProviderAuth then ErrorClassAuth
            else if Is e ErrConflict then ErrorClassConflict
            else if Is e ErrRateLimited || Is e ErrQueueFull || Is e ErrLedgerFull
            then ErrorClassProviderLimit
            else if Is e ErrIndeterminate || Is e ErrOperatorReview || Is e ErrDestinationID
                    || Is e ErrVersionFloor || Is e ErrAckForged
            then ErrorClassProviderAmbiguous
            else if Is e ErrUnauthorized || Is e ErrSuperseded then ErrorClassRefused
            else if bool_decide (is_Some (ProviderRetryAt e)) then ErrorClassProviderLimit
            else ErrorClassNetwork)
  end.

Definition NeedsAttention (c : option ErrorClass) : bool :=
  bool_decide (c = Some ErrorClassConflict) || bool_decide (c = Some ErrorClassProviderAmbiguous).

(** An attempt whose outcome is unknown asks for the operator, unless the
    provider also refused the credential. *)
Lemma indeterminate_needs_attention e :
  Is e ErrIndeterminate = true → Is e ErrProviderAuth = false → Is e ErrRateLimited = false →
  Is e ErrQueueFull = false → Is e ErrLedgerFull = false →
  NeedsAttention (ClassifyError (Some e)) = true.
Proof.
  intros H1 H2 H3 H4 H5. unfold ClassifyError. rewrite H1, H2, H3, H4, H5.
  by destruct (Is e ErrConflict).
Qed.

(** ** One attempt *)

Inductive JobKind := Converge | Scrub | Activate.
#[export] Instance JobKind_eq_dec : EqDecision JobKind.
Proof. solve_decision. Defined.

Record Job := { jb_kind : JobKind; jb_attempt : Z; CreatedAt : option Z }.

(** What the worker calls: the claim, the gate, the loader, the module, the
    waits, the store's answers to settlements, and the clock's readings. *)
Record env := {
  e_claim : result err (option Job);
  e_gate : option err;
  e_loadsActivation : bool;
  e_storesActivation : bool;
  e_connect : nat → option err;
  e_activate : nat → option err;
  e_load : nat → result err (Z * list Change);
  e_sync : nat → list Change → SyncResult * option err;
  e_wait : nat → option err;
  e_settle : option err;
  e_now : nat → Z;
  e_jitter : option (Z → Z);
  e_random : Z
}.

Inductive event :=
| Synced (revision : Z) (base extra : list Change) (result : SyncResult)
| ActivateFailed (at_ : Z)
| Activated (at_ : Z)
| Succeed (revision at_ : Z)
| Fail (revision at_ : Z) (cause : err)
| Retry (due revision : Z) (failed : list Change) (cause : err).

Definition settles (ev : event) : bool :=
  match ev with Synced _ _ _ _ | ActivateFailed _ => false | _ => true end.

(** [clock] is the last reading: the clock does not go back. *)
Record wstate := { reads : nat; clock : Z; trace : list event }.

Inductive run_err := Returned (e : err) | OutOfFuel.
Abbreviation worker := (M wstate run_err).

Section worker.
Context (v : env).

Definition now : worker Z := λ s,
  let t := Z.max (clock s) (e_now v (reads s)) in
  ({| reads := S (reads s); clock := t; trace := trace s |}, Ok t).

Definition emit (ev : event) : worker unit :=
  modify (λ s, {| reads := reads s; clock := clock s; trace := trace s ++ [ev] |}).

(** A timer that fires leaves the clock at or past its deadline. *)
Definition wait_until (i : nat) (retry_at : Z) : worker (option err) :=
  do* t := now in
  match e_wait v i with
  | Some e => ret (Some e)
  | None =>
      do* _ := modify (λ s, {| reads := reads s; clock := Z.max (clock s) (t + (retry_at - t));
                               trace := trace s |}) in
      ret None
  end.

(** [return true, w.Store.Settle(...)]. *)
Definition settle (ev : event) : worker unit :=
  do* _ := emit ev in
  match e_settle v with Some e => fail (Returned e) | None => ret tt end.

Definition retry (job : Job) (revision : Z) (failed : list Change) (e : err) : worker unit :=
  do* t := now in
  settle (Retry (retryDue t (jb_attempt job) (e_jitter v) (e_random v) e) revision failed e).

Definition abandon (revision : Z) (e : err) : worker unit :=
  do* t := now in settle (Fail revision t e).

Definition IsAny (e : err) (l : list sentinel) : bool := existsb (Is e) l.

Definition refusedGate : list sentinel := [ErrUnauthorized; ErrSuperseded; ErrOperatorReview].
Definition refusedLoad : list sentinel :=
  [ErrUnauthorized; ErrSuperseded; ErrProviderAuth; ErrOperatorReview].
Definition refusedSync : list sentinel :=
  [ErrUnauthorized; ErrSuperseded; ErrProviderAuth; ErrAckForged; ErrOperatorReview].
Definition refusedActivation : list sentinel :=
  [ErrUnauthorized; ErrSuperseded; ErrProviderAuth; ErrConflict; ErrAckForged; ErrOperatorReview].

(** The in-attempt wait: [None] when the error ends the attempt. *)
Definition rate_wait (leaseSafe : Z) (e : err) : worker (option Z) :=
  match ProviderRetryAt e with
  | None => ret None
  | Some at_ =>
      do* t := now in
      ret (if (t <? at_) && negb (leaseSafe <? at_) then Some at_ else None)
  end.

Definition same_name (a b : Change) : bool :=
  bool_decide (ch_surface a = ch_surface b) && bool_decide (ch_name a = ch_name b).

(** The loop over [result.Changes]. *)
Definition note_completed (completed changes : list Change) : list Change :=
  foldl (λ acc c, if existsb (λ prior, same_name prior c) acc then acc else acc ++ [c])
    completed changes.

Definition final_sync (job : Job) (revision : Z) (r : SyncResult) (e : err) : worker unit :=
  if IsAny e refusedSync then abandon revision e
  else
    do* t := now in
    let due := retryDue t (jb_attempt job) (e_jitter v) (e_random v) e in
    do* _ := match CreatedAt job with Some _ => do* _ := now in ret tt | None => ret tt end in
    settle (Retry due revision (Failed r ++ Conflicts r) e).

Fixpoint sync_loop (fuel i : nat) (job : Job) (leaseSafe revision : Z) (completed : list Change) :
    worker unit :=
  match fuel with
  | O => fail OutOfFuel
  | S fuel =>
      match e_load v i with
      | Err e => if IsAny e refusedLoad then abandon revision e else retry job revision [] e
      | Ok (rev, base) =>
          let completed := if bool_decide (revision = rev) then completed else [] in
          let '(r, outcome) := e_sync v i (base ++ completed) in
          do* _ := emit (Synced rev base completed r) in
          match outcome with
          | None => do* t := now in settle (Succeed rev t)
          | Some e =>
              do* again := rate_wait leaseSafe e in
              match again with
              | None => final_sync job rev r e
              | Some at_ =>
                  do* waited := wait_until i at_ in
                  match waited with
                  | Some waitErr => final_sync job rev r waitErr
                  | None => sync_loop fuel (S i) job leaseSafe rev (note_completed completed (Changes r))
                  end
              end
          end
      end
  end.

Definition final_activation (job : Job) (e : err) : worker unit :=
  if IsAny e refusedActivation then abandon 0 e else retry job 0 [] e.

(** [None] when the route was activated, the error of this round otherwise. *)
Definition activation_round (i : nat) : worker (option err) :=
  match e_connect v i with
  | Some e => ret (Some e)
  | None =>
      do* t := now in
      match e_activate v i with
      | None => do* _ := emit (Activated t) in ret None
      | Some e => do* _ := emit (ActivateFailed t) in ret (Some e)
      end
  end.

Fixpoint activation_loop (fuel i : nat) (job : Job) (leaseSafe : Z) : worker unit :=
  match fuel with
  | O => fail OutOfFuel
  | S fuel =>
      do* round := activation_round i in
      match round with
      | None => ret tt
      | Some e =>
          do* again := rate_wait leaseSafe e in
          match again with
          | None => final_activation job e
          | Some at_ =>
              do* waited := wait_until i at_ in
              match waited with
              | Some waitErr => final_activation job waitErr
              | None => activation_loop fuel (S i) job leaseSafe
              end
          end
      end
  end.

(** The result is [worked]; an error of the store is [Returned]. *)
Definition RunOnce (fuel : nat) : worker bool :=
  do* t := now in
  let leaseSafe := t + LeaseTime - 5 * Second in
  match e_claim v with
  | Err e => fail (Returned e)
  | Ok None => ret false
  | Ok (Some job) =>
      do* _ :=
        match e_gate v with
        | Some e => if IsAny e refusedGate then abandon 0 e else retry job 0 [] e
        | None =>
            if bool_decide (jb_kind job = Activate) then
              if negb (e_loadsActivation v) || negb (e_storesActivation v) then abandon 0 opaque
              else activation_loop fuel 0 job leaseSafe
            else sync_loop fuel 0 job leaseSafe 0 []
        end in
      ret true
  end.
End worker.

Definition fresh_worker (t : Z) : wstate := {| reads := 0; clock := t; trace := [] |}.

(** ** Every claimed job is settled once *)

(** Where an attempt can end with an error. *)
Inductive stage := AtGate | AtLoad | AtSync | AtActivation.

(** The errors that refuse the job at each stage, beyond those that do at every
    stage: another attempt cannot cure them. *)
Definition refuses (st : stage) (e : err) : bool :=
  Is e ErrUnauthorized || Is e ErrSuperseded || Is e ErrOperatorReview
  || match st with
     | AtGate => false
     | AtLoad => Is e ErrProviderAuth
     | AtSync => Is e ErrProviderAuth || Is e ErrAckForged
     | AtActivation => Is e ErrProviderAuth || Is e ErrAckForged || Is e ErrConflict
     end.

Section settled.
Context (v : env) (job : Job).

(** [e] is what the stage met, after [n] calls of the module's [Sync]. *)
Definition arises (n : nat) (st : stage) (e : err) : Prop :=
  match st with
  | AtGate => e_gate v = Some e
  | AtLoad => e_gate v = None ∧ jb_kind job ≠ Activate ∧ e_load v n = Err e
  | AtSync => e_gate v = None ∧ jb_kind job ≠ Activate
      ∧ ∃ i, n = S i ∧ ((∃ changes r, e_sync v i changes = (r, Some e)) ∨ e_wait v i = Some e)
  | AtActivation => e_gate v = None ∧ jb_kind job = Activate
      ∧ ∃ i, e_connect v i = Some e ∨ e_activate v i = Some e ∨ e_wait v i = Some e
  end.

(** A component the activation needs is missing. *)
Definition unequipped : Prop :=
  e_gate v = None ∧ jb_kind job = Activate ∧ (e_loadsActivation v = false ∨ e_storesActivation v = false).

(** The verdict is the one its cause calls for. *)
Definition verdict_ok (n : nat) (upto : Z) (ev : event) : Prop :=
  match ev with
  | Fail _ _ e => (∃ st, arises n st e ∧ refuses st e = true) ∨ (unequipped ∧ e = opaque)
  | Retry due _ _ e =>
      (∃ st, arises n st e ∧ refuses st e = false) ∧
      ∃ t, t ≤ upto ∧ due = retryDue t (jb_attempt job) (e_jitter v) (e_random v) e
  | Succeed rev _ => e_gate v = None ∧ jb_kind job ≠ Activate ∧
      ∃ i base changes r, n = S i ∧ e_load v i = Ok (rev, base) ∧ e_sync v i changes = (r, None)
  | Activated _ => e_gate v = None ∧ jb_kind job = Activate ∧ ∃ i, e_connect v i = None ∧ e_activate v i = None
  | Synced _ _ _ _ | ActivateFailed _ => False
  end.

(** One settlement more, after [n] calls of [Sync] and those logged since. *)
Definition settled (n : nat) (s s' : wstate) : Prop :=
  ∃ pre ev, trace s' = trace s ++ pre ++ [ev] ∧ settles ev = true ∧
    Forall (λ x, settles x = false) pre ∧ verdict_ok (n + length pre) (clock s') ev.

Abbreviation settling m n s :=
  (wp m s (λ _ s', settled n s s') (λ x s', x ≠ OutOfFuel ∧ settled n s s')).

Lemma wp_now s (Q : Z → wstate → Prop) R :
  (∀ t, clock s ≤ t → Q t {| reads := S (reads s); clock := t; trace := trace s |}) → wp (now v) s Q R.
Proof. intros HQ. apply HQ. lia. Qed.

Lemma settling_settle n ev s :
  settles ev = true → verdict_ok n (clock s) ev → settling (settle v ev) n s.
Proof.
  intros Hs Hv. unfold settle. apply wp_bind, wp_modify.
  assert (settled n s {| reads := reads s; clock := clock s; trace := trace s ++ [ev] |}) as Hd
    by (exists [], ev; by rewrite Nat.add_0_r).
  destruct (e_settle v); [by apply wp_fail|by apply wp_ret].
Qed.

Lemma settled_after n s s1 s' pre :
  trace s1 = trace s ++ pre → Forall (λ x, settles x = false) pre → settled (n + length pre) s1 s' → settled n s s'.
Proof.
  intros E Hp (pre' & ev & E' & Hs & Hp' & Hv). exists (pre ++ pre'), ev.
  rewrite E', E, <- !app_assoc, length_app, Nat.add_assoc. split; [done|]. split; [done|]. split; [by apply Forall_app|done].
Qed.

Lemma settling_after {m : worker unit} {n s} s1 pre :
  trace s1 = trace s ++ pre → Forall (λ x, settles x = false) pre → settling m (n + length pre)%nat s1 →
  wp m s1 (λ _ s', settled n s s') (λ x s', x ≠ OutOfFuel ∧ settled n s s').
Proof.
  intros E Hp Hm. eapply wp_mono; [exact Hm|intros ? s'; by eapply settled_after|].
  intros x s' [? ?]. split; [done|by eapply settled_after].
Qed.

Lemma settling_same {m : worker unit} {n s} s1 :
  trace s1 = trace s → settling m n s1 →
  wp m s1 (λ _ s', settled n s s') (λ x s', x ≠ OutOfFuel ∧ settled n s s').
Proof.
  intros E. pose proof (settling_after (m := m) (n := n) (s := s) s1 []) as Ha. simpl in Ha.
  rewrite app_nil_r, Nat.add_0_r in Ha. by apply Ha.
Qed.

Lemma IsAny_refuses e :
  IsAny e refusedGate = refuses AtGate e ∧ IsAny e refusedLoad = refuses AtLoad e
  ∧ IsAny e refusedSync = refuses AtSync e ∧ IsAny e refusedActivation = refuses AtActivation e.
Proof.
  unfold IsAny, refuses. cbn [existsb refusedGate refusedLoad refusedSync refusedActivation].
  destruct (Is e ErrUnauthorized), (Is e ErrSuperseded), (Is e ErrOperatorReview), (Is e ErrProviderAuth),
    (Is e ErrAckForged), (Is e ErrConflict); done.
Qed.

Lemma settling_abandon n st revision e s :
  arises n st e → refuses st e = true → settling (abandon v revision e) n s.
Proof.
  intros Ha He. unfold abandon. apply wp_bind, wp_now. intros t Ht.
  apply settling_same, settling_settle; [done|done|]. left. eauto.
Qed.

Lemma settling_retry n st revision failed e s :
  arises n st e → refuses st e = false → settling (retry v job revision failed e) n s.
Proof.
  intros Ha He. unfold retry. apply wp_bind, wp_now. intros t Ht.
  apply settling_same, settling_settle; [done|done|]. split; [by exists st|]. by exists t.
Qed.

Lemma settling_final_sync n revision r e s : arises n AtSync e → settling (final_sync v job revision r e) n s.
Proof.
  intros Ha. unfold final_sync. destruct (IsAny_refuses e) as (_ & _ & -> & _). destruct (refuses AtSync e) eqn:E.
  { by eapply settling_abandon. }
  apply wp_bind, wp_now. intros t Ht. apply wp_bind. destruct (CreatedAt job).
  - apply wp_bind, wp_now. intros t' Ht'. simpl in Ht'. apply wp_ret.
    apply settling_same, settling_settle; [done|done|]. split; [by exists AtSync|]. exists t. done.
  - apply wp_ret. apply settling_same, settling_settle; [done|done|]. split; [by exists AtSync|]. exists t. done.
Qed.

Lemma settling_final_activation n e s : arises n AtActivation e → settling (final_activation v job e) n s.
Proof.
  intros Ha. unfold final_activation. destruct (IsAny_refuses e) as (_ & _ & _ & ->).
  destruct (refuses AtActivation e) eqn:E; [by eapply settling_abandon|by eapply settling_retry].
Qed.

(** A wait inside the attempt moves the clock past the reading it started from,
    and never starts past the lease's safe deadline. *)
Lemma wp_rate_wait leaseSafe e s (Q : option Z → wstate → Prop) R :
  (∀ s', trace s' = trace s → Q None s') →
  (∀ s' at_, trace s' = trace s → clock s ≤ clock s' → clock s' < at_ → at_ ≤ leaseSafe → Q (Some at_) s') →
  wp (rate_wait v leaseSafe e) s Q R.
Proof.
  intros HN HS. unfold rate_wait. destruct (ProviderRetryAt e) as [at_|]; [|apply wp_ret; by apply HN].
  apply wp_bind, wp_now. intros t Ht. apply wp_ret.
  destruct ((t <? at_) && negb (leaseSafe <? at_)) eqn:E; [|by apply HN].
  apply andb_true_iff in E as [E1%Z.ltb_lt E2%negb_true_iff%Z.ltb_ge]. by apply HS.
Qed.

Lemma wp_wait_until i at_ s (Q : option err → wstate → Prop) R :
  (∀ e s', e_wait v i = Some e → trace s' = trace s → Q (Some e) s') →
  (∀ s', trace s' = trace s → at_ ≤ clock s' → Q None s') →
  wp (wait_until v i at_) s Q R.
Proof.
  intros HE HN. unfold wait_until. apply wp_bind, wp_now. intros t Ht.
  destruct (e_wait v i) as [e|] eqn:E; [apply wp_ret; by apply HE|].
  apply wp_bind, wp_modify, wp_ret. apply HN; simpl; [done|lia].
Qed.

Lemma settling_sync_loop leaseSafe fuel : e_gate v = None → jb_kind job ≠ Activate → ∀ i revision completed s,
  (Z.to_nat (leaseSafe - clock s) < fuel)%nat →
  settling (sync_loop v fuel i job leaseSafe revision completed) i s.
Proof.
  intros Hg Hk. induction fuel as [|fuel IH]; intros i revision completed s Hf; [lia|]. cbn [sync_loop].
  destruct (e_load v i) as [[rev base]|e] eqn:El.
  2:{ destruct (IsAny_refuses e) as (_ & -> & _).
      destruct (refuses AtLoad e) eqn:E; [by eapply (settling_abandon i AtLoad)|by eapply (settling_retry i AtLoad)]. }
  destruct (e_sync v i _) as [r outcome] eqn:Es. apply wp_bind, wp_modify.
  set (s1 := {| reads := reads s |}). apply (settling_after s1 [Synced rev base (if bool_decide (revision = rev) then completed else []) r]);
    [done|by constructor|]. rewrite Nat.add_1_r.
  assert (clock s1 = clock s) as Hc by done. clearbody s1.
  destruct outcome as [e|].
  2:{ apply wp_bind, wp_now. intros t Ht. apply settling_same; [done|]. apply settling_settle; [done|].
      split_and!; [done|done|]. eexists i, _, _, _. done. }
  apply wp_bind, wp_rate_wait.
  { intros s2 E. apply settling_same; [done|]. apply settling_final_sync. split_and!; [done|done|]. exists i. eauto. }
  intros s2 at_ E2 Hc2 Hat Hls. apply wp_bind, wp_wait_until.
  { intros e' s3 Hw E3. apply settling_same; [congruence|]. apply settling_final_sync. split_and!; [done|done|]. exists i. auto. }
  intros s3 E3 Hc3. apply settling_same; [congruence|]. apply IH. lia.
Qed.

Lemma settling_activation_loop leaseSafe fuel : e_gate v = None → jb_kind job = Activate → ∀ i n s,
  (Z.to_nat (leaseSafe - clock s) < fuel)%nat →
  settling (activation_loop v fuel i job leaseSafe) n s.
Proof.
  intros Hg Hk. induction fuel as [|fuel IH]; intros i n s Hf; [lia|]. cbn [activation_loop].
  apply wp_bind. unfold activation_round.
  assert (∀ e s1 pre, e_connect v i = Some e ∨ e_activate v i = Some e →
    trace s1 = trace s ++ pre → Forall (λ x, settles x = false) pre → clock s ≤ clock s1 →
    wp (do* again := rate_wait v leaseSafe e in
        match again with
        | None => final_activation v job e
        | Some at_ =>
            do* waited := wait_until v i at_ in
            match waited with
            | Some waitErr => final_activation v job waitErr
            | None => activation_loop v fuel (S i) job leaseSafe
            end
        end) s1 (λ _ s', settled n s s') (λ x s', x ≠ OutOfFuel ∧ settled n s s')) as Hround.
  { intros e s1 pre He E1 Hpre Hc1. apply (settling_after s1 pre); [done|done|].
    apply wp_bind, wp_rate_wait.
    { intros s2 E. apply settling_same; [done|]. apply settling_final_activation. split_and!; [done|done|]. exists i. tauto. }
    intros s2 at_ E2 Hc2 Hat Hls. apply wp_bind, wp_wait_until.
    { intros e' s3 Hw E3. apply settling_same; [congruence|]. apply settling_final_activation.
      split_and!; [done|done|]. exists i. auto. }
    intros s3 E3 Hc3. apply settling_same; [congruence|]. apply IH. lia. }
  destruct (e_connect v i) as [e|] eqn:Ec;
    [apply wp_ret; apply (Hround e s []); [by left|by rewrite app_nil_r|constructor|lia]|].
  apply wp_bind, wp_now. intros t Ht. destruct (e_activate v i) as [e|] eqn:Ea.
  - apply wp_bind, wp_modify, wp_ret. apply (Hround e _ [ActivateFailed t]); [by right|done|by constructor|done].
  - apply wp_bind, wp_modify, wp_ret, wp_ret. exists [], (Activated t). split_and!; [done|done|done|]. simpl. by eauto.
Qed.
End settled.


(** A rate-limited first call, then a success. *)
Definition limited_then_done : env :=
  {| e_claim := Ok (Some {| jb_kind := Converge; jb_attempt := 1; CreatedAt := None |});
     e_gate := None; e_loadsActivation := false; e_storesActivation := false;
     e_connect := λ _, None; e_activate := λ _, None;
     e_load := λ _, Ok (3, []);
     e_sync := λ i _, ({| Changes := [{| ch_surface := Secret; ch_name := "A"; ch_disposition := Create |}];
                          Conflicts := []; Failed := [] |},
                       if bool_decide (i = 0%nat)
                       then Some {| chain := [ErrRateLimited]; response := Some 429;
                                    retryAt := Some (20 * Second) |}
                       else None);
     e_wait := λ _, None; e_settle := None; e_now := λ n, Z.of_nat n * Second;
     e_jitter := None; e_random := 0 |}.


(** ** What an attempt carries over a wait *)

(** Each name a module call is told to skip, beyond those the loader reports,
    was acknowledged by an earlier call for the same revision. *)
Definition acknowledged (tr : list event) (revision : Z) (c : Change) : Prop :=
  ∃ base extra r, Synced revision base extra r ∈ tr ∧ c ∈ Changes r.
Definition carried (tr : list event) : Prop :=
  ∀ pre revision base extra r post, tr = pre ++ Synced revision base extra r :: post →
    ∀ c, c ∈ extra → acknowledged pre revision c.

Lemma carried_snoc tr ev :
  carried tr →
  match ev with
  | Synced revision _ extra _ => ∀ c, c ∈ extra → acknowledged tr revision c
  | _ => True
  end → carried (tr ++ [ev]).
Proof.
  intros Hc He pre revision base extra r post E c Hin.
  destruct post as [|x post _] using rev_ind.
  - apply app_inj_tail in E as [-> ->]. by apply He.
  - rewrite app_comm_cons, app_assoc in E. apply app_inj_tail in E as [-> _]. by eapply Hc.
Qed.

Lemma acknowledged_mono tr tr' revision c : acknowledged tr revision c → acknowledged (tr ++ tr') revision c.
Proof. intros (base & extra & r & Hin & Hc). exists base, extra, r. split; [by apply elem_of_app; left|done]. Qed.

Lemma note_completed_elem changes : ∀ completed c,
  c ∈ note_completed completed changes → c ∈ completed ∨ c ∈ changes.
Proof.
  unfold note_completed. induction changes as [|x changes IH]; intros completed c; simpl; [by left|].
  intros [Hc|Hc]%IH; [|right; by right].
  destruct (existsb _ completed); [by left|]. apply elem_of_app in Hc as [Hc|Hc%list_elem_of_singleton]; [by left|].
  right. subst. by left.
Qed.

Section carry.
Context (v : env).
Abbreviation carrying m s :=
  (wp m s (λ _ s', carried (trace s')) (λ _ s', carried (trace s'))).

Lemma carrying_settle ev s :
  carried (trace s) → settles ev = true → carrying (settle v ev) s.
Proof.
  intros Hc Hs. unfold settle. apply wp_bind, wp_modify.
  assert (carried (trace s ++ [ev])) by (apply carried_snoc; [done|by destruct ev]).
  destruct (e_settle v); [by apply wp_fail|by apply wp_ret].
Qed.

Lemma carrying_abandon revision e s : carried (trace s) → carrying (abandon v revision e) s.
Proof. intros Hc. apply wp_bind, wp_now. intros t Ht. by apply carrying_settle. Qed.
Lemma carrying_retry job revision failed e s : carried (trace s) → carrying (retry v job revision failed e) s.
Proof. intros Hc. apply wp_bind, wp_now. intros t Ht. by apply carrying_settle. Qed.

Lemma carrying_final_sync job revision r e s :
  carried (trace s) → carrying (final_sync v job revision r e) s.
Proof.
  intros Hc. unfold final_sync. destruct (IsAny e refusedSync); [by apply carrying_abandon|].
  apply wp_bind, wp_now. intros t Ht. apply wp_bind. destruct (CreatedAt job).
  - apply wp_bind, wp_now. intros t' Ht'. apply wp_ret. by apply carrying_settle.
  - apply wp_ret. by apply carrying_settle.
Qed.

Lemma carrying_sync_loop job leaseSafe fuel : ∀ i revision completed s,
  carried (trace s) → (∀ c, c ∈ completed → acknowledged (trace s) revision c) →
  carrying (sync_loop v fuel i job leaseSafe revision completed) s.
Proof.
  induction fuel as [|fuel IH]; intros i revision completed s Hc Ha; cbn [sync_loop]; [by apply wp_fail|].
  destruct (e_load v i) as [[rev base]|e];
    [|destruct (IsAny e refusedLoad); [by apply carrying_abandon|by apply carrying_retry]].
  cbv zeta. set (extra := if bool_decide (revision = rev) then completed else []).
  assert (∀ c, c ∈ extra → acknowledged (trace s) rev c) as Hex.
  { intros c. unfold extra. case_bool_decide as E; [subst; apply Ha|by intros ?%elem_of_nil]. }
  clearbody extra. destruct (e_sync v i _) as [r outcome]. apply wp_bind, wp_modify.
  set (s1 := {| reads := reads s |}). assert (carried (trace s1)) as Hc1 by (by apply carried_snoc).
  assert (∀ c, c ∈ note_completed extra (Changes r) → acknowledged (trace s1) rev c) as Ha1.
  { intros c [Hin|Hin]%note_completed_elem; [by apply acknowledged_mono, Hex|].
    exists base, extra, r. split; [apply elem_of_app; right; by left|done]. }
  clearbody s1. destruct outcome as [e|].
  2:{ apply wp_bind, wp_now. intros t Ht. by apply carrying_settle. }
  apply wp_bind, wp_rate_wait.
  { intros s2 E. apply carrying_final_sync. by rewrite E. }
  intros s2 at_ E2 _ _ _. apply wp_bind, wp_wait_until.
  { intros e' s3 _ E3. apply carrying_final_sync. by rewrite E3, E2. }
  intros s3 E3 _. apply IH; rewrite E3, E2; done.
Qed.

Lemma carrying_activation_loop job leaseSafe fuel : ∀ i s,
  carried (trace s) → carrying (activation_loop v fuel i job leaseSafe) s.
Proof.
  assert (∀ e s, carried (trace s) → carrying (final_activation v job e) s) as Hfin.
  { intros e s Hc. unfold final_activation.
    destruct (IsAny _ _); [by apply carrying_abandon|by apply carrying_retry]. }
  induction fuel as [|fuel IH]; intros i s Hc; cbn [activation_loop]; [by apply wp_fail|].
  apply wp_bind.
  eapply (wp_mono _ _ (λ _ s', carried (trace s')) _ (λ _ s', carried (trace s'))); [| |done].
  - unfold activation_round. destruct (e_connect v i); [by apply wp_ret|].
    apply wp_bind, wp_now. intros t Ht.
    destruct (e_activate v i); apply wp_bind, wp_modify, wp_ret; by apply carried_snoc.
  - intros [e|] s1 Hc1; [|by apply wp_ret]. apply wp_bind, wp_rate_wait.
    { intros s2 E. apply Hfin. by rewrite E. }
    intros s2 at_ E2 _ _ _. apply wp_bind, wp_wait_until.
    { intros e' s3 _ E3. apply Hfin. by rewrite E3, E2. }
    intros s3 E3 _. apply IH. by rewrite E3, E2.
Qed.
End carry.

(** A wait never carries acknowledgements over to another revision. In
    every run, each name a module call is told to skip beyond those its loader
    reported was acknowledged by an earlier call of the run for the very same
    source revision. *)
Theorem completed_within_revision (v : env) (fuel : nat) (t0 : Z) :
  carried (trace (RunOnce v fuel (fresh_worker t0)).1).
Proof.
  enough (wp (RunOnce v fuel) (fresh_worker t0) (λ _ s', carried (trace s')) (λ _ s', carried (trace s'))) as Hw
    by (unfold wp in Hw; destruct (RunOnce v fuel (fresh_worker t0)) as [s [b|x]]; done).
  assert (carried []) as H0 by (intros [] ? ? ? ? ? E; simplify_list_eq).
  unfold RunOnce. apply wp_bind, wp_now. intros t Ht.
  destruct (e_claim v) as [[job|]|e]; [|by apply wp_ret|by apply wp_fail].
  apply wp_bind. apply (wp_mono _ _ (λ _ s', carried (trace s')) _ (λ _ s', carried (trace s')));
    [|intros ? ? ?; by apply wp_ret|done].
  destruct (e_gate v) as [e|].
  { destruct (IsAny e refusedGate); [by apply carrying_abandon|by apply carrying_retry]. }
  case_bool_decide.
  - destruct (_ || _); [by apply carrying_abandon|by apply carrying_activation_loop].
  - apply carrying_sync_loop; [done|by intros c ?%elem_of_nil].
Qed.
