(* ===== verification/ManagedBlock.v ===== *)
(** * The stamp file: [compose/generation.go], the managed block of [.env]

    A render commits by rewriting one block of the project's [.env]. This file
    models the block's rendering, location, parsing and replacement on byte
    sequences, and proves that what a commit writes is what the next reader
    reads, with every other line of the file kept byte for byte. *)

From stdpp Require Import prelude gmap strings list.
From Stdlib Require Import Ascii NArith.
From S2P Require Import Prelude FreeText Bytes.

Definition managedBegin : bytes := lit "# >>> hikyo compose (managed, do not edit) >>>".
Definition managedEnd : bytes := lit "# <<< hikyo compose <<<".
Definition stampVarPrefix : bytes := lit "HIKYO_GEN_".

#[global] Arguments managedBegin : simpl never.
#[global] Arguments managedEnd : simpl never.
#[global] Arguments stampVarPrefix : simpl never.

Definition equals : ascii := "=".
Definition dash : ascii := "-".
Definition underscore : ascii := "_".

(** [strings.ToUpper] and [strings.ToLower]: on ASCII text, byte by byte; the
    tables for other text belong to the language's Unicode data. *)
Class Folding := { ToUpperBytes : bytes → bytes; ToLowerBytes : bytes → bytes }.

Definition is_ascii (c : ascii) : bool := (code c <? 128)%N.
Definition upper_byte (c : ascii) : ascii := if lower c then ascii_of_N (code c - 32) else c.
Definition lower_byte (c : ascii) : ascii :=
  if in_range 65 90 c then ascii_of_N (code c + 32) else c.

Class FoldingLaws `{Folding} : Prop := {
  ToUpper_ascii s : forallb is_ascii s = true → ToUpperBytes s = map upper_byte s;
  ToLower_ascii s : forallb is_ascii s = true → ToLowerBytes s = map lower_byte s
}.

#[export] Instance ascii_folding : Folding :=
  {| ToUpperBytes := map upper_byte; ToLowerBytes := map lower_byte |}.
#[export] Instance ascii_folding_laws : FoldingLaws.
Proof. by split. Qed.

(** [targetNameGrammar], [^[a-z][a-z0-9-]*$]. *)
Definition target_char (c : ascii) : bool :=
  lower c || in_range 48 57 c || bool_decide (c = dash).
Definition targetName (s : bytes) : bool :=
  match s with c :: t => lower c && forallb target_char t | [] => false end.

(** [stampGrammar], [^v1-[0-9a-f]{32}$]. *)
Definition hex_char (c : ascii) : bool := in_range 48 57 c || in_range 97 102 c.
Definition ParseStamp (s : bytes) : bool :=
  match strip (lit "v1-") s with
  | Some body => bool_decide (length body = 32) && forallb hex_char body
  | None => false
  end.

(** [strings.ReplaceAll] of one byte by another. *)
Definition replace_byte (a b : ascii) (s : bytes) : bytes :=
  map (λ c, if bool_decide (c = a) then b else c) s.

Definition varName `{Folding} (target : bytes) : bytes :=
  stampVarPrefix ++ ToUpperBytes (replace_byte dash underscore target).

Definition targetFromVar `{Folding} (v : bytes) : option bytes :=
  rest ← strip stampVarPrefix v;
  Some (ToLowerBytes (replace_byte underscore dash rest)).
#[global] Arguments varName : simpl never.

(** ** Lines *)

Fixpoint splitKeepEnds (b : bytes) : list bytes :=
  match b with
  | [] => []
  | c :: t =>
      if bool_decide (c = newline) then [c] :: splitKeepEnds t
      else match splitKeepEnds t with
           | l :: ls => (c :: l) :: ls
           | [] => [[c]]
           end
  end.

(** [strings.TrimSuffix] with a suffix of one byte. *)
Definition trim_suffix (c : ascii) (s : bytes) : bytes :=
  match reverse s with
  | d :: t => if bool_decide (d = c) then reverse t else s
  | [] => s
  end.

Definition trimLineEnd (line : bytes) : bytes := trim_suffix cr (trim_suffix newline line).

(** ** The block *)

Inductive block_err :=
| Nested (line : nat)
| Duplicate (line : nat)
| EndWithoutBegin (line : nat)
| DuplicateEnd (line : nat)
| Unterminated
| MalformedLine (content : bytes)
| UnexpectedVariable (key : bytes)
| DuplicateVariable (key : bytes)
| MalformedStamp (val : bytes).
#[export] Instance block_err_eq_dec : EqDecision block_err.
Proof. solve_decision. Defined.

Definition bytes_le (a b : bytes) : bool :=
  String.leb (String.string_of_list_ascii a) (String.string_of_list_ascii b).

Section block.
Context `{Folding}.

Definition stamp_line (ts : bytes * bytes) : bytes :=
  varName ts.1 ++ [equals] ++ ts.2 ++ [newline].

(** [slices.Sorted(maps.Keys(stamps))]. *)
Definition sorted_stamps (stamps : gmap bytes bytes) : list (bytes * bytes) :=
  sort_by (λ a b, bytes_le a.1 b.1) (map_to_list stamps).

Definition renderManagedBlock (stamps : gmap bytes bytes) : bytes :=
  managedBegin ++ [newline] ++ concat (map stamp_line (sorted_stamps stamps))
    ++ managedEnd ++ [newline].

Fixpoint locate_from (i : nat) (lines : list bytes) (begin end_ : option nat) :
    result block_err (option nat * option nat) :=
  match lines with
  | [] => match begin, end_ with
          | Some _, None => Err Unterminated
          | _, _ => Ok (begin, end_)
          end
  | ln :: rest =>
      if bool_decide (trimLineEnd ln = managedBegin) then
        match begin, end_ with
        | Some _, None => Err (Nested (S i))
        | Some _, Some _ => Err (Duplicate (S i))
        | None, _ => locate_from (S i) rest (Some i) end_
        end
      else if bool_decide (trimLineEnd ln = managedEnd) then
        match begin, end_ with
        | None, _ => Err (EndWithoutBegin (S i))
        | Some _, Some _ => Err (DuplicateEnd (S i))
        | Some _, None => locate_from (S i) rest begin (Some i)
        end
      else locate_from (S i) rest begin end_
  end.

Definition locateManagedBlock (lines : list bytes) : result block_err (option nat * option nat) :=
  locate_from 0 lines None None.

Fixpoint parse_managed (lines : list bytes) (out : gmap bytes bytes) :
    result block_err (gmap bytes bytes) :=
  match lines with
  | [] => Ok out
  | ln :: rest =>
      let content := trimLineEnd ln in
      if bool_decide (content = []) then parse_managed rest out
      else
        match CutByte equals content with
        | None => Err (MalformedLine content)
        | Some (key, val) =>
            match targetFromVar key with
            | None => Err (UnexpectedVariable key)
            | Some target =>
                if bool_decide (is_Some (out !! target)) then Err (DuplicateVariable key)
                else if negb (ParseStamp val) then Err (MalformedStamp val)
                else parse_managed rest (<[target := val]> out)
            end
        end
  end.

(** [lines[begin+1 : end]]. *)
Definition slice (lines : list bytes) (begin end_ : nat) : list bytes :=
  take (end_ - S begin) (drop (S begin) lines).

Definition parseManagedBlock (raw : bytes) : result block_err (gmap bytes bytes) :=
  let lines := splitKeepEnds raw in
  let! p := locateManagedBlock lines in
  match p with
  | (Some b, Some e) => parse_managed (slice lines b e) ∅
  | _ => Ok ∅
  end.

Definition spliceManagedBlock (raw block : bytes) : result block_err bytes :=
  let lines := splitKeepEnds raw in
  let! p := locateManagedBlock lines in
  match p with
  | (Some b, Some e) => Ok (concat (take b lines) ++ block ++ concat (drop (S e) lines))
  | _ =>
      let sep := match last raw with
                 | Some c => if bool_decide (c = newline) then [] else [newline]
                 | None => []
                 end in
      Ok (raw ++ sep ++ block)
  end.
End block.

(** ** Lines: lemmas *)

Definition terminated (l : bytes) : Prop := ∃ x, l = x ++ [newline] ∧ (newline ∉ x).

Lemma concat_splitKeepEnds b : concat (splitKeepEnds b) = b.
Proof.
  induction b as [|c b IH]; [done|]. simpl. case_bool_decide; simpl; [by rewrite IH|].
  destruct (splitKeepEnds b); simpl in *; by rewrite <- IH.
Qed.

Lemma splitKeepEnds_line x rest :
  (newline ∉ x) → splitKeepEnds (x ++ newline :: rest) = (x ++ [newline]) :: splitKeepEnds rest.
Proof.
  induction x as [|c x IH]; intros Hx; [done|]. simpl.
  apply not_elem_of_cons in Hx as [Hc Hx]. rewrite bool_decide_false by congruence.
  by rewrite IH.
Qed.

Lemma splitKeepEnds_lines ls rest :
  Forall terminated ls → splitKeepEnds (concat ls ++ rest) = ls ++ splitKeepEnds rest.
Proof.
  induction 1 as [|l ls (x & -> & Hx) _ IH]; [done|]. simpl.
  rewrite <- !app_assoc. simpl. by rewrite splitKeepEnds_line, IH.
Qed.

Lemma splitKeepEnds_cons b l post :
  splitKeepEnds b = l :: post →
  (terminated l ∧ ∃ b', b = l ++ b' ∧ splitKeepEnds b' = post) ∨ ((newline ∉ l) ∧ l ≠ [] ∧ post = []).
Proof.
  revert l post. induction b as [|c b IH]; intros l post E; simpl in E; [done|].
  case_bool_decide as Hc.
  { simplify_eq. left. split; [exists []; split; [done|apply not_elem_of_nil]|by exists b]. }
  destruct (splitKeepEnds b) as [|l0 ls] eqn:Eb; simplify_eq.
  { right. split; [|done]. rewrite list_elem_of_singleton. congruence. }
  destruct (IH _ _ eq_refl) as [[(x & -> & Hx) (b' & -> & Hb')]|(Hl & Hl0 & ->)].
  - left. split; [exists (c :: x); split; [done|]|by exists b'].
    apply not_elem_of_cons. split; [congruence|done].
  - right. split; [|done]. apply not_elem_of_cons. split; [congruence|done].
Qed.

Lemma splitKeepEnds_pre pre : ∀ b l post,
  splitKeepEnds b = pre ++ l :: post → Forall terminated pre.
Proof.
  induction pre as [|p pre IH]; intros b l post E; [constructor|]. simpl in E.
  destruct (splitKeepEnds_cons _ _ _ E) as [[Ht (b' & _ & E')]|(_ & _ & E')].
  - constructor; [done|by eapply IH].
  - by destruct pre.
Qed.

(** Any run of whole lines splits back into itself. *)
Lemma splitKeepEnds_post b pre post :
  splitKeepEnds b = pre ++ post → post ≠ [] → splitKeepEnds (concat post) = post.
Proof.
  intros E Hp. destruct post as [|l post]; [done|]. pose proof (splitKeepEnds_pre _ _ _ _ E) as Ht.
  pose proof (concat_splitKeepEnds b) as Hb. rewrite E, concat_app in Hb.
  rewrite <- Hb, splitKeepEnds_lines in E by done. by apply app_inv_head in E.
Qed.

Lemma trim_suffix_snoc c s : trim_suffix c (s ++ [c]) = s.
Proof. unfold trim_suffix. rewrite reverse_snoc, bool_decide_true by done. apply reverse_involutive. Qed.

Lemma trim_suffix_other c s : last s ≠ Some c → trim_suffix c s = s.
Proof.
  destruct s as [|d s _] using rev_ind; [done|]. rewrite last_snoc. intros Hd.
  unfold trim_suffix. rewrite reverse_snoc, bool_decide_false; [done|]. congruence.
Qed.

Lemma trimLineEnd_line x : last x ≠ Some cr → trimLineEnd (x ++ [newline]) = x.
Proof. intros Hx. unfold trimLineEnd. rewrite trim_suffix_snoc. by apply trim_suffix_other. Qed.

(** ** The block: lemmas *)

Definition plain (ln : bytes) : Prop :=
  trimLineEnd ln ≠ managedBegin ∧ trimLineEnd ln ≠ managedEnd.

Lemma locate_plain ls rest : ∀ i b e,
  Forall plain ls → locate_from i (ls ++ rest) b e = locate_from (i + length ls) rest b e.
Proof.
  induction ls as [|l ls IH]; intros i b e Hp; simpl; [by rewrite Nat.add_0_r|].
  inversion Hp as [|? ? [Hb He] Hp']; subst. rewrite !bool_decide_false by done.
  rewrite IH by done. f_equal. lia.
Qed.

Lemma begin_not_end : managedBegin ≠ managedEnd.
Proof. by vm_compute. Qed.

Lemma locate_block pre lb mid le post :
  Forall plain pre → trimLineEnd lb = managedBegin → Forall plain mid →
  trimLineEnd le = managedEnd → Forall plain post →
  locateManagedBlock (pre ++ lb :: mid ++ le :: post)
  = Ok (Some (length pre), Some (length pre + S (length mid))).
Proof.
  intros Hpre Hb Hmid He Hpost. pose proof begin_not_end as Hne. unfold locateManagedBlock.
  rewrite locate_plain by done. cbn [locate_from]. rewrite bool_decide_true by done.
  rewrite locate_plain by done. cbn [locate_from].
  rewrite bool_decide_false by congruence. rewrite bool_decide_true by done.
  rewrite <- (app_nil_r post), locate_plain by done. simpl. do 3 f_equal. lia.
Qed.

Lemma locate_none lines : Forall plain lines → locateManagedBlock lines = Ok (None, None).
Proof. intros Hp. unfold locateManagedBlock. by rewrite <- (app_nil_r lines), locate_plain. Qed.

Lemma locate_after lines : ∀ i b e p,
  locate_from i lines (Some b) (Some e) = Ok p → Forall plain lines ∧ p = (Some b, Some e).
Proof.
  induction lines as [|l lines IH]; intros i b e p E; simpl in E; [by simplify_eq|].
  case_bool_decide; [done|]. case_bool_decide; [done|].
  apply IH in E as [? ->]. split; [by constructor|done].
Qed.

Lemma locate_within lines : ∀ i b p,
  locate_from i lines (Some b) None = Ok p →
  ∃ mid le post, lines = mid ++ le :: post ∧ Forall plain mid ∧ trimLineEnd le = managedEnd ∧
    Forall plain post ∧ p = (Some b, Some (i + length mid)).
Proof.
  induction lines as [|l lines IH]; intros i b p E; simpl in E; [done|].
  case_bool_decide as Hb; [done|]. case_bool_decide as He.
  - apply locate_after in E as [Hp ->]. exists [], l, lines. split_and!; try done.
    rewrite Nat.add_0_r. done.
  - apply IH in E as (mid & le & post & -> & Hm & Hle & Hp & ->).
    exists (l :: mid), le, post. split_and!; try done; [by constructor|]. simpl. do 2 f_equal. lia.
Qed.

Lemma locate_Ok lines : ∀ i p,
  locate_from i lines None None = Ok p →
  (Forall plain lines ∧ p = (None, None)) ∨
  ∃ pre lb mid le post, lines = pre ++ lb :: mid ++ le :: post ∧
    Forall plain pre ∧ trimLineEnd lb = managedBegin ∧ Forall plain mid ∧
    trimLineEnd le = managedEnd ∧ Forall plain post ∧
    p = (Some (i + length pre), Some (i + length pre + S (length mid))).
Proof.
  induction lines as [|l lines IH]; intros i p E; simpl in E; [left; by simplify_eq|].
  case_bool_decide as Hb.
  { apply locate_within in E as (mid & le & post & -> & Hm & Hle & Hp & ->). right.
    exists [], l, mid, le, post. split_and!; try done. simpl. do 2 f_equal; f_equal; lia. }
  case_bool_decide as He; [done|].
  apply IH in E as [[Hp ->]|(pre & lb & mid & le & post & -> & Hpre & Hlb & Hm & Hle & Hp & ->)].
  - left. split; [by constructor|done].
  - right. exists (l :: pre), lb, mid, le, post. split_and!; try done; [by constructor|].
    simpl. do 2 f_equal; f_equal; lia.
Qed.

(** ** What a commit writes is read back *)

Ltac by_byte c := destruct c as [[] [] [] [] [] [] [] []]; vm_compute; intros; try done.

Ltac not_in_literal Hn := apply (bool_decide_pack _) in Hn; vm_compute in Hn; done.

Lemma target_char_fold c :
  target_char c = true →
  let u := upper_byte (if bool_decide (c = dash) then underscore else c) in
  is_ascii (if bool_decide (c = dash) then underscore else c) = true ∧
  is_ascii (if bool_decide (u = underscore) then dash else u) = true ∧
  lower_byte (if bool_decide (u = underscore) then dash else u) = c ∧ u ≠ equals ∧ u ≠ newline.
Proof. by_byte c. Qed.

Lemma lower_target c : lower c = true → target_char c = true.
Proof. intros Hc. unfold target_char. by rewrite Hc. Qed.

Lemma targetName_chars t : targetName t = true → t ≠ [] ∧ Forall (λ c, target_char c = true) t.
Proof.
  destruct t as [|c t]; [done|]. intros [Hc Ht]%andb_true_iff. split; [done|].
  constructor; [by apply lower_target|]. rewrite Forall_forall. by apply forallb_true.
Qed.

Section commit.
Context `{FoldingLaws}.

Definition upper_snake (t : bytes) : bytes := map upper_byte (replace_byte dash underscore t).

Lemma varName_target t : targetName t = true → varName t = stampVarPrefix ++ upper_snake t.
Proof.
  intros [_ Ht]%targetName_chars. unfold varName, upper_snake. rewrite ToUpper_ascii; [done|].
  apply forallb_true. intros x (c & -> & Hc)%list_elem_of_fmap.
  rewrite Forall_forall in Ht. by apply target_char_fold, Ht.
Qed.

Lemma upper_snake_clean t c :
  targetName t = true → c ∈ upper_snake t → c ≠ equals ∧ c ≠ newline.
Proof.
  intros [_ Ht]%targetName_chars (d & -> & (x & -> & Hx)%list_elem_of_fmap)%list_elem_of_fmap.
  rewrite Forall_forall in Ht. by apply target_char_fold, Ht.
Qed.

Lemma targetFromVar_varName t : targetName t = true → targetFromVar (varName t) = Some t.
Proof.
  intros Hn. rewrite varName_target by done. apply targetName_chars in Hn as [_ Ht].
  unfold targetFromVar. rewrite (proj2 (strip_Some _ _ _) eq_refl). simpl. f_equal.
  unfold upper_snake, replace_byte. rewrite ToLower_ascii.
  - rewrite !map_map. induction Ht as [|c t Hc _ IH]; [done|]. simpl. f_equal; [|done].
    by apply target_char_fold.
  - apply forallb_true. intros x (y & -> & (z & -> & (c & -> & Hc)%list_elem_of_fmap)%list_elem_of_fmap)%list_elem_of_fmap.
    rewrite Forall_forall in Ht. by apply target_char_fold, Ht.
Qed.

Lemma ParseStamp_clean s : ParseStamp s = true →
  s ≠ [] ∧ last s ≠ Some cr ∧ (newline ∉ s).
Proof.
  unfold ParseStamp. destruct (strip _ s) as [body|] eqn:E; [|done].
  apply strip_Some in E as ->. intros [Hl%bool_decide_eq_true Hb]%andb_true_iff.
  rewrite forallb_true in Hb. split; [done|]. split.
  - intros Hlast. rewrite last_app in Hlast. destruct (last body) as [c|] eqn:Eb; [|done].
    simplify_eq. apply last_Some in Eb as [body' ->]. specialize (Hb cr).
    rewrite elem_of_app, list_elem_of_singleton in Hb. discriminate Hb. by right.
  - rewrite elem_of_app. intros [Hn|Hn]; [|by specialize (Hb _ Hn)].
    not_in_literal Hn.
Qed.

Definition good_stamp (ts : bytes * bytes) : Prop :=
  targetName ts.1 = true ∧ ParseStamp ts.2 = true.

Lemma stamp_line_content ts : good_stamp ts →
  trimLineEnd (stamp_line ts) = varName ts.1 ++ equals :: ts.2.
Proof.
  destruct ts as [t s]. intros [Ht Hs]. unfold stamp_line. cbn [fst snd] in *.
  replace (varName t ++ [equals] ++ s ++ [newline]) with ((varName t ++ equals :: s) ++ [newline])
    by by rewrite <- app_assoc.
  apply trimLineEnd_line. rewrite last_app. destruct (ParseStamp_clean s Hs) as (Hne & Hl & _).
  destruct s as [|c s]; [done|]. rewrite !last_cons in *. by destruct (last s).
Qed.

Lemma stamp_line_clean ts : good_stamp ts → terminated (stamp_line ts) ∧ plain (stamp_line ts).
Proof.
  intros Hg. split.
  - destruct ts as [t s], Hg as [Ht Hs]; simpl in *. exists (varName t ++ equals :: s). split.
    { unfold stamp_line. simpl. by rewrite <- app_assoc. }
    rewrite varName_target by done. rewrite !elem_of_app, elem_of_cons. intros [[Hin|Hin]|[Hin|Hin]].
    + not_in_literal Hin.
    + by destruct (upper_snake_clean _ _ Ht Hin).
    + done.
    + by apply (ParseStamp_clean s Hs).
  - split; rewrite stamp_line_content by done; intros E; by apply (f_equal head) in E.
Qed.

Lemma parse_managed_stamps l : ∀ out,
  Forall good_stamp l → NoDup l.*1 → (∀ t, t ∈ l.*1 → out !! t = None) →
  parse_managed (map stamp_line l) out = Ok (list_to_map l ∪ out).
Proof.
  induction l as [|[t s] l IH]; intros out Hg Hnd Hout.
  { simpl. by rewrite (left_id_L ∅ (∪)). }
  inversion Hg as [|? ? Hts Hg']; subst. apply NoDup_cons in Hnd as [Hnin Hnd].
  cbn [map parse_managed]. cbv zeta. rewrite stamp_line_content by done.
  destruct Hts as [Ht Hs]; cbn [fst snd] in *.
  rewrite bool_decide_false by (intros E%(f_equal length); rewrite length_app in E; simpl in E; lia).
  rewrite CutByte_app.
  2: { rewrite varName_target by done. rewrite elem_of_app. intros [Hin|Hin].
       - not_in_literal Hin.
       - by destruct (upper_snake_clean _ _ Ht Hin). }
  rewrite targetFromVar_varName by done.
  rewrite bool_decide_false by (rewrite (Hout t) by (by left); intros [? ?]; done).
  rewrite Hs. simpl. rewrite IH; [|done|done|].
  - f_equal. rewrite <- insert_union_r by by apply not_elem_of_list_to_map.
    by rewrite insert_union_l.
  - intros t' Ht'. rewrite lookup_insert_ne; [by apply Hout; right|]. by intros ->.
Qed.

Lemma sorted_stamps_good stamps :
  map_Forall (λ t s, good_stamp (t, s)) stamps → Forall good_stamp (sorted_stamps stamps).
Proof.
  intros Hg. apply Forall_forall. intros [t s] Hin. unfold sorted_stamps in Hin.
  rewrite elem_of_sort_by in Hin. by apply elem_of_map_to_list, Hg in Hin.
Qed.

Lemma sorted_stamps_map stamps :
  NoDup (sorted_stamps stamps).*1 ∧ list_to_map (sorted_stamps stamps) = stamps.
Proof.
  assert (sorted_stamps stamps ≡ₚ map_to_list stamps) as Hp by apply sort_by_Permutation.
  assert (NoDup (sorted_stamps stamps).*1) as Hnd by (rewrite Hp; apply NoDup_fst_map_to_list).
  split; [done|]. rewrite (list_to_map_proper _ _ Hnd Hp). apply list_to_map_to_list.
Qed.

Definition block_mid (stamps : gmap bytes bytes) : list bytes := map stamp_line (sorted_stamps stamps).
Definition block_lines (stamps : gmap bytes bytes) : list bytes :=
  (managedBegin ++ [newline]) :: block_mid stamps ++ [managedEnd ++ [newline]].

Lemma render_lines stamps : renderManagedBlock stamps = concat (block_lines stamps).
Proof.
  unfold renderManagedBlock, block_lines. cbn [concat]. rewrite concat_app. cbn [concat].
  by rewrite app_nil_r, <- !app_assoc.
Qed.

Lemma begin_line : trimLineEnd (managedBegin ++ [newline]) = managedBegin.
Proof. by vm_compute. Qed.
Lemma end_line : trimLineEnd (managedEnd ++ [newline]) = managedEnd.
Proof. by vm_compute. Qed.

Lemma block_lines_terminated stamps :
  map_Forall (λ t s, good_stamp (t, s)) stamps → Forall terminated (block_lines stamps).
Proof.
  intros Hg%sorted_stamps_good. constructor; [|apply Forall_app; split].
  - exists managedBegin. split; [done|]. intros Hn. not_in_literal Hn.
  - unfold block_mid. apply Forall_fmap. eapply Forall_impl; [done|]. intros ts Hts.
    by apply stamp_line_clean.
  - constructor; [|done]. exists managedEnd. split; [done|]. intros Hn. not_in_literal Hn.
Qed.

Lemma block_mid_plain stamps :
  map_Forall (λ t s, good_stamp (t, s)) stamps → Forall plain (block_mid stamps).
Proof.
  intros Hg%sorted_stamps_good. unfold block_mid. apply Forall_fmap.
  eapply Forall_impl; [done|]. intros ts Hts. by apply stamp_line_clean.
Qed.

(** The lines of a file outside its managed block. *)
Definition foreign (raw : bytes) : list bytes :=
  let lines := splitKeepEnds raw in
  match locateManagedBlock lines with
  | Ok (Some b, Some e) => take b lines ++ drop (S e) lines
  | _ => lines
  end.

(** A file made of foreign lines around a rendered block. *)
Lemma read_back pre stamps post raw :
  map_Forall (λ t s, good_stamp (t, s)) stamps →
  Forall terminated pre → Forall plain pre → Forall plain post →
  splitKeepEnds (concat post) = post →
  raw = concat pre ++ renderManagedBlock stamps ++ concat post →
  parseManagedBlock raw = Ok stamps ∧ foreign raw = pre ++ post.
Proof.
  intros Hg Ht Hpre Hpost Hsp ->.
  assert (splitKeepEnds (concat pre ++ renderManagedBlock stamps ++ concat post)
    = pre ++ (managedBegin ++ [newline]) :: block_mid stamps ++ (managedEnd ++ [newline]) :: post) as Es.
  { rewrite splitKeepEnds_lines by done. rewrite render_lines.
    rewrite splitKeepEnds_lines by by apply block_lines_terminated. rewrite Hsp.
    unfold block_lines. cbn [app]. by rewrite <- app_assoc. }
  unfold parseManagedBlock, foreign. rewrite Es, locate_block;
    auto using begin_line, end_line, block_mid_plain.
  cbn [rbind]. unfold slice. split.
  - replace (length pre + S (length (block_mid stamps)) - S (length pre))
      with (length (block_mid stamps)) by lia.
    rewrite cons_middle, app_assoc, drop_app_length' by (rewrite length_app; simpl; lia).
    rewrite take_app_length. unfold block_mid.
    destruct (sorted_stamps_map stamps) as [Hnd Hm].
    rewrite parse_managed_stamps; [by rewrite Hm, (right_id_L ∅ (∪))|by apply sorted_stamps_good|done|].
    intros t _. apply lookup_empty.
  - rewrite take_app_length. f_equal. rewrite !cons_middle, !app_assoc.
    apply drop_app_length'. rewrite !length_app. simpl. lia.
Qed.
End commit.

(** The separator the append adds to an unterminated last line. *)
Definition ended (raw : bytes) : bytes :=
  match last raw with
  | Some c => if bool_decide (c = newline) then raw else raw ++ [newline]
  | None => raw
  end.

Lemma split_ends b pre l :
  splitKeepEnds b = pre ++ [l] →
  Forall terminated pre ∧
  (terminated l ∧ last b = Some newline ∨ (newline ∉ l) ∧ ∃ c, last b = Some c ∧ c ≠ newline).
Proof.
  intros E. split; [by eapply splitKeepEnds_pre|].
  pose proof (splitKeepEnds_post _ _ _ E ltac:(done)) as El. cbn [concat] in El. rewrite app_nil_r in El.
  pose proof (concat_splitKeepEnds b) as Hb. rewrite E, concat_app in Hb. cbn [concat] in Hb.
  rewrite app_nil_r in Hb. rewrite <- Hb, last_app.
  destruct (splitKeepEnds_cons _ _ _ El) as [[Ht _]|(Hn & Hne & _)].
  - left. split; [done|]. destruct Ht as (x & -> & _). by rewrite last_snoc.
  - right. split; [done|]. destruct l as [|c l _] using rev_ind; [done|]. rewrite last_snoc.
    exists c. split; [done|]. intros ->. apply Hn. rewrite elem_of_app, list_elem_of_singleton. by right.
Qed.

Lemma plain_ended raw :
  Forall plain (splitKeepEnds raw) →
  ∃ ls, ended raw = concat ls ∧ Forall terminated ls ∧ Forall plain ls ∧ splitKeepEnds (ended raw) = ls.
Proof.
  intros Hp. exists (splitKeepEnds (ended raw)). split; [by rewrite concat_splitKeepEnds|].
  destruct (splitKeepEnds raw) as [|l pre _] eqn:E using rev_ind.
  { pose proof (concat_splitKeepEnds raw) as Hb. rewrite E in Hb. by subst. }
  destruct (split_ends _ _ _ E) as [Ht [[Hl Hlast]|[Hl (c & Hlast & Hc)]]]; unfold ended; rewrite Hlast.
  - rewrite bool_decide_true by done. rewrite E. split_and!; [|done|done].
    apply Forall_app. split; [done|by constructor].
  - rewrite bool_decide_false by done.
    assert (splitKeepEnds (raw ++ [newline]) = pre ++ [l ++ [newline]]) as ->.
    { pose proof (concat_splitKeepEnds raw) as Hb. rewrite E, concat_app in Hb. cbn [concat] in Hb.
      rewrite app_nil_r in Hb. rewrite <- Hb, <- app_assoc, splitKeepEnds_lines by done. f_equal.
      by rewrite splitKeepEnds_line. }
    apply Forall_app in Hp as [Hpre [Hpl _]%Forall_cons]. split_and!; [| |done].
    + apply Forall_app. split; [done|]. constructor; [by exists l|done].
    + apply Forall_app. split; [done|]. constructor; [|done].
      assert (trimLineEnd (l ++ [newline]) = trimLineEnd l) as Et; [|by unfold plain; rewrite Et].
      unfold trimLineEnd. rewrite trim_suffix_snoc, (trim_suffix_other newline); [done|].
      intros Hl'. apply Hl. by apply last_Some_elem_of.
Qed.

Definition same_foreign (raw next : bytes) : Prop :=
  foreign next = foreign raw ∨
  locateManagedBlock (splitKeepEnds raw) = Ok (None, None) ∧ foreign next = splitKeepEnds (ended raw).

(** Replacing the block of a file whose block is well formed or absent: the new
    file parses to exactly the stamps written, and its lines outside the block
    are those of the old one, an unterminated last line being ended first. *)
Lemma splice_reads_back `{FoldingLaws} (raw : bytes) (old stamps : gmap bytes bytes) :
  parseManagedBlock raw = Ok old →
  map_Forall (λ t s, targetName t = true ∧ ParseStamp s = true) stamps →
  ∃ next, spliceManagedBlock raw (renderManagedBlock stamps) = Ok next ∧
    parseManagedBlock next = Ok stamps ∧
    same_foreign raw next.
Proof.
  intros Hold Hg. unfold parseManagedBlock in Hold. unfold spliceManagedBlock, same_foreign, foreign at 2.
  destruct (locateManagedBlock (splitKeepEnds raw)) as [p|e] eqn:El; [|done].
  pose proof El as Ep. unfold locateManagedBlock in Ep.
  apply locate_Ok in Ep as [[Hp ->]|(pre & lb & mid & le & post & Es & Hpre & Hlb & Hm & Hle & Hpost & ->)];
    cbn [rbind].
  - destruct (plain_ended raw Hp) as (ls & Hc & Ht & Hpl & Hs).
    eexists. split; [done|].
    destruct (read_back ls stamps [] _ Hg Ht Hpl (Forall_nil_2 _) eq_refl eq_refl) as [Hr Hf].
    replace (raw ++ _ ++ renderManagedBlock stamps) with (concat ls ++ renderManagedBlock stamps ++ concat []).
    { split; [done|]. right. split; [done|]. by rewrite Hf, app_nil_r. }
    rewrite <- Hc. unfold ended. cbn [concat]. rewrite app_nil_r.
    destruct (last raw); [case_bool_decide|]; by rewrite <- ?app_assoc.
  - eexists. split; [done|]. rewrite Es, !Nat.add_0_l, take_app_length.
    assert (drop (S (length pre + S (length mid))) (pre ++ lb :: mid ++ le :: post) = post) as ->.
    { rewrite cons_middle, (cons_middle le), !app_assoc. apply drop_app_length'.
      rewrite !length_app. simpl. lia. }
    pose proof (splitKeepEnds_pre _ _ _ _ Es) as Ht.
    assert (splitKeepEnds (concat post) = post) as Hsp.
    { destruct post as [|l post]; [done|].
      eapply (splitKeepEnds_post raw (pre ++ lb :: mid ++ [le])); [|done].
      rewrite Es. rewrite <- !app_assoc. cbn [app]. by rewrite <- app_assoc. }
    destruct (read_back pre stamps post _ Hg Ht Hpre Hpost Hsp eq_refl) as [Hr Hf].
    split; [done|by left].
Qed.

Definition demo_env : bytes :=
  lit "A=1" ++ [cr; newline] ++ renderManagedBlock ∅ ++ lit "B=2".
Definition demo_stamp : bytes := lit "v1-0123456789abcdef0123456789abcdef".
Definition demo_stamps : gmap bytes bytes := {[lit "web-api" := demo_stamp]}.
