(* ===== verification/Generation.v ===== *)
(** * Render generations: [compose/generation.go]

    A render writes an immutable directory per target, named by a keyed stamp of
    its content, and commits by replacing the stamp file in one rename; garbage
    collection removes what no stamp names. Every call into the filesystem meets
    a fault of its own, which may fail it with part of its effect done, so a
    statement about every fault function covers an error or a crash between any
    two calls. The probe is nil, as in production. *)

From stdpp Require Import prelude gmap strings list.
From Stdlib Require Import Ascii ZArith.
From S2P Require Import Prelude FreeText Bytes StateErr ManagedBlock.

(** ** Stamps: [crypto/client.go] *)

(** [mac] is HMAC-SHA256 under the stamp key. *)
Record LocalKeys := { mac : bytes → bytes }.
Definition mac_law (k : LocalKeys) : Prop := ∀ m, length (mac k m) = 32.

Definition stampDomain : bytes := lit "hikyo-stamp-v1" ++ [nul].
Definition stampBytes : nat := 16.

Definition hex_digits : bytes := lit "0123456789abcdef".
Definition hex_digit (n : N) : ascii := default nul (hex_digits !! N.to_nat n).
(** [hex.EncodeToString]. *)
Definition EncodeToString (s : bytes) : bytes :=
  concat (map (λ c, [hex_digit (code c / 16); hex_digit (code c mod 16)]%N) s).

Definition Stamp (k : LocalKeys) (content : bytes) : bytes :=
  lit "v1-" ++ EncodeToString (take stampBytes (mac k (stampDomain ++ content))).

Definition targetContentDomain : bytes := lit "hikyo-target-content-v1" ++ [nul].
Definition targetSep : bytes := [nul].

Definition TargetStamp (k : LocalKeys) (target content : bytes) : bytes :=
  Stamp k (targetContentDomain ++ target ++ targetSep ++ content).

Definition completeMarker : bytes := lit ".complete".
Definition env_suffix : bytes := lit ".env".
Definition DefaultGenerationsKept : nat := 3.

(** ** The filesystem *)

(** A directory entry: a regular file, or anything else with what reading
    through it gives. *)
Inductive file := Regular (content : bytes) | Other (reads : option bytes).
#[export] Instance file_eq_dec : EqDecision file.
Proof. solve_decision. Defined.
Definition file_reads (f : file) : option bytes :=
  match f with Regular c => Some c | Other r => r end.

Record generation := { g_mtime : Z; g_files : gmap bytes file }.
Inductive entry := Dir (g : generation) | NonDir.

(** The runtime directory, [None] before it exists, and the project's [.env]. *)
Record disk := { runtime : option (gmap bytes entry); envFile : option bytes }.

Definition entries (d : disk) : gmap bytes entry := default ∅ (runtime d).
Definition files_of (d : disk) (stamp : bytes) : gmap bytes file :=
  match entries d !! stamp with Some (Dir g) => g_files g | _ => ∅ end.
Definition put (d : disk) (stamp : bytes) (e : option entry) : disk :=
  {| runtime := Some (partial_alter (λ _, e) stamp (entries d)); envFile := envFile d |}.
Definition put_env (d : disk) (raw : bytes) : disk :=
  {| runtime := runtime d; envFile := Some raw |}.

(** What one call meets: whether it fails; for a call that fails, whether its
    effect happened, how much of a file was written, which files a removal left;
    whether a stat fails; the time. *)
Record io_fault := {
  io_fails : bool;
  io_applied : bool;
  io_written : option nat;
  io_leaves : bytes → bool;
  io_stat_fails : bool;
  io_time : Z
}.

Inductive PublishPhase := Materializing | Switching | Collecting | Complete.
#[export] Instance PublishPhase_eq_dec : EqDecision PublishPhase.
Proof. solve_decision. Defined.

Record PublishResult := {
  Stamps : gmap bytes bytes;
  Materialized : gmap bytes bool;
  Phase : option PublishPhase;
  ActiveStamps : option (gmap bytes bytes)
}.

Definition CandidateActive (r : PublishResult) : bool :=
  bool_decide (Phase r = Some Collecting) || bool_decide (Phase r = Some Complete).

Inductive gen_err :=
| LockReleased | MissingRuntimeDir | MissingKeys | MissingTargets
| InvalidTarget | InvalidStamp | StampChanged | ContentMismatch (stamp : bytes)
| IO | BadBlock (e : block_err)
| ForeignEntry (name : bytes) | NotDirectory (name : bytes) | BadGeneration (name : bytes).
#[export] Instance gen_err_eq_dec : EqDecision gen_err.
Proof. solve_decision. Defined.

Record gstate := { g_disk : disk; g_pos : nat; g_closed : bool; g_result : PublishResult }.

Definition set_disk (s : gstate) (d : disk) : gstate :=
  {| g_disk := d; g_pos := g_pos s; g_closed := g_closed s; g_result := g_result s |}.
Definition set_publish (s : gstate) (r : PublishResult) : gstate :=
  {| g_disk := g_disk s; g_pos := g_pos s; g_closed := g_closed s; g_result := r |}.

Abbreviation gen := (M gstate gen_err).

(** Superseded generations by target, with their modification times. *)
Abbreviation superseded_map := (gmap bytes (list (bytes * Z))).

Section verbs.
Context `{Folding} (faults : nat → io_fault).

(** [ReadDir] lists every entry, in an order of its own. *)
Context (readdir : ∀ A, gmap bytes A → list (bytes * A)).

Definition next_io : gen io_fault := λ s,
  ({| g_disk := g_disk s; g_pos := S (g_pos s); g_closed := g_closed s; g_result := g_result s |},
   Ok (faults (g_pos s))).

(** A call without an effect on what is modelled: fsync, chmod, a read. *)
Definition call : gen unit :=
  do* f := next_io in if io_fails f then fail IO else ret tt.

(** A call with effect [ok], or [torn] when it fails. *)
Definition effect (ok : io_fault → disk → disk) (torn : io_fault → disk → disk) : gen unit :=
  do* f := next_io in
  if io_fails f then
    do* _ := modify (λ s, set_disk s (torn f (g_disk s))) in fail IO
  else modify (λ s, set_disk s (ok f (g_disk s))).

Definition if_applied (ok : disk → disk) (f : io_fault) (d : disk) : disk :=
  if io_applied f then ok d else d.

Definition stat (p : disk → bool) : gen bool :=
  do* f := next_io in gets (λ s, negb (io_stat_fails f) && p (g_disk s)).

Definition generationStateRoot (stamp : bytes) : gen (bool * bool) :=
  do* present := stat (λ d, bool_decide (is_Some (entries d !! stamp))) in
  if negb present then ret (false, false)
  else
    do* complete := stat (λ d, bool_decide (is_Some (files_of d stamp !! completeMarker))) in
    ret (true, complete).

(** A removal that fails has unlinked some of the files. *)
Definition torn_removal (name : bytes) (f : io_fault) (d : disk) : disk :=
  match entries d !! name with
  | Some (Dir g) =>
      put d name (Some (Dir {| g_mtime := io_time f;
                               g_files := filter (λ nf, io_leaves f nf.1 = true) (g_files g) |}))
  | _ => d
  end.

Definition RemoveAll (name : bytes) : gen unit :=
  effect (λ _ d, put d name None) (torn_removal name).

Definition Mkdir (name : bytes) : gen unit :=
  do* taken := gets (λ s, bool_decide (is_Some (entries (g_disk s) !! name))) in
  if taken then do* _ := next_io in fail IO
  else
    let ok f d := put d name (Some (Dir {| g_mtime := io_time f; g_files := ∅ |})) in
    effect ok (λ f, if_applied (ok f) f).

Definition write_file (stamp name data : bytes) (f : io_fault) (d : disk) : disk :=
  put d stamp (Some (Dir {| g_mtime := io_time f;
                            g_files := <[name := Regular data]> (files_of d stamp) |})).

Definition writeFileFsyncRoot (stamp name data : bytes) : gen unit :=
  effect (write_file stamp name data)
    (λ f d, match io_written f with
            | Some n => write_file stamp name (take n data) f d
            | None => d
            end).

Definition ReadFile (stamp name : bytes) : gen bytes :=
  do* _ := call in
  do* r := gets (λ s, files_of (g_disk s) stamp !! name ≫= file_reads) in
  match r with Some c => ret c | None => fail IO end.

(** [OpenRoot] on the parent through [root.Chmod(".")]: the directory is made
    when it is missing. *)
Definition open_runtime : gen unit :=
  let ok d := {| runtime := Some (entries d); envFile := envFile d |} in
  effect (λ _, ok) (if_applied ok).

Definition guard_closed : gen unit :=
  do* closed := gets g_closed in if closed then fail LockReleased else ret tt.

Definition WriteGeneration (keys : LocalKeys) (target content : bytes) : gen (bytes * bool) :=
  do* _ := guard_closed in
  if negb (targetName target) then fail InvalidTarget
  else
    let stamp := TargetStamp keys target content in
    let envName := target ++ env_suffix in
    do* _ := open_runtime in
    do* pc := generationStateRoot stamp in
    let '(present, complete) := pc in
    if present && complete then
      do* existing := ReadFile stamp envName in
      if negb (bool_decide (TargetStamp keys target existing = stamp)) then fail (ContentMismatch stamp)
      else ret (stamp, false)
    else
      do* _ := (if present && negb complete then RemoveAll stamp else ret tt) in
      do* _ := Mkdir stamp in
      do* _ := call in
      do* _ := writeFileFsyncRoot stamp envName content in
      do* _ := call in
      do* _ := call in
      do* _ := writeFileFsyncRoot stamp completeMarker [] in
      do* _ := call in
      ret (stamp, true).

(** ** The stamp file *)

Definition stamps_on (d : disk) : result block_err (gmap bytes bytes) :=
  match envFile d with
  | None => Ok ∅
  | Some raw => parseManagedBlock raw
  end.

Definition CurrentStamps : gen (gmap bytes bytes) :=
  do* _ := call in
  do* r := gets (λ s, stamps_on (g_disk s)) in
  match r with Ok m => ret m | Err e => fail (BadBlock e) end.

Definition lift_block {A} (r : result block_err A) : gen A :=
  match r with Ok a => ret a | Err e => fail (BadBlock e) end.

Definition CommitStamps (stamps : gmap bytes bytes) : gen unit :=
  do* _ := guard_closed in
  if negb (forallb (λ ts, ParseStamp ts.2) (map_to_list stamps)) then fail InvalidStamp
  else
    do* _ := call in
    do* raw := gets (λ s, default [] (envFile (g_disk s))) in
    do* _ := lift_block (parseManagedBlock raw) in
    do* next := lift_block (spliceManagedBlock raw (renderManagedBlock stamps)) in
    effect (λ _ d, put_env d next) (if_applied (λ d, put_env d next)).

(** ** Collection *)

(** The target a complete generation holds. *)
Fixpoint target_of (files : list (bytes * file)) (target : option bytes) : option bytes :=
  match files with
  | [] => target
  | (name, f) :: rest =>
      if bool_decide (name = completeMarker) then target_of rest target
      else
        match strip (reverse env_suffix) (reverse name) with
        | None => None
        | Some stem =>
            let candidate := reverse stem in
            if negb (targetName candidate) then None
            else match f, target with
                 | Regular _, None => target_of rest (Some candidate)
                 | _, _ => None
                 end
        end
  end.

Definition generationTargetRoot (stamp : bytes) : gen bytes :=
  do* _ := call in
  do* t := gets (λ s, target_of (readdir _ (files_of (g_disk s) stamp)) None) in
  match t with Some t => ret t | None => fail (BadGeneration stamp) end.

(** [None] when there is no runtime directory. *)
Definition openRuntimeEntries : gen (option (list (bytes * entry))) :=
  do* _ := call in
  gets (λ s, m ← runtime (g_disk s); Some (readdir _ m)).

Definition add_generation (t name : bytes) (mtime : Z) (m : superseded_map) : superseded_map :=
  <[t := default [] (m !! t) ++ [(name, mtime)]]> m.

Definition is_dir (e : entry) : bool := match e with Dir _ => true | NonDir => false end.

Definition mtime_of (d : disk) (name : bytes) : Z :=
  match entries d !! name with Some (Dir g) => g_mtime g | _ => 0%Z end.

Fixpoint gc_scan (current : gset bytes) (es : list (bytes * entry)) (superseded : superseded_map) :
    gen superseded_map :=
  match es with
  | [] => ret superseded
  | (name, e) :: es =>
      if negb (ParseStamp name) then fail (ForeignEntry name)
      else if negb (is_dir e) then fail (NotDirectory name)
      else if bool_decide (name ∈ current) then gc_scan current es superseded
      else
        do* pc := generationStateRoot name in
        if negb pc.2 then do* _ := RemoveAll name in gc_scan current es superseded
        else
          do* _ := call in
          do* mtime := gets (λ s, mtime_of (g_disk s) name) in
          do* target := generationTargetRoot name in
          gc_scan current es (add_generation target name mtime superseded)
  end.

(** Newest first. *)
Definition newest_first (l : list (bytes * Z)) : list (bytes * Z) :=
  sort_by (λ a b, b.2 <=? a.2)%Z l.

Definition GC (keep : nat) : gen unit :=
  do* _ := guard_closed in
  do* currentStamps := CurrentStamps in
  let current : gset bytes := list_to_set (map snd (map_to_list currentStamps)) in
  do* listing := openRuntimeEntries in
  match listing with
  | None => ret tt
  | Some es =>
      do* superseded := gc_scan current es ∅ in
      for_each (readdir _ superseded) (λ tg,
        for_each (drop keep (newest_first tg.2)) (λ g, RemoveAll g.1))
  end.

Definition recover_entry (ne : bytes * entry) : gen unit :=
  let '(name, e) := ne in
  if negb (ParseStamp name) then fail (ForeignEntry name)
  else if negb (is_dir e) then fail (NotDirectory name)
  else
    do* pc := generationStateRoot name in
    if negb pc.2 then RemoveAll name else ret tt.

Definition Recover : gen unit :=
  do* _ := guard_closed in
  do* listing := openRuntimeEntries in
  match listing with
  | None => ret tt
  | Some es => for_each es recover_entry
  end.

(** ** Publication *)

Record PublishPlan := {
  RuntimeDir : bytes;
  Keys : option LocalKeys;
  Targets : gmap bytes bytes
}.

Definition planned (keys : LocalKeys) (targets : gmap bytes bytes) : gmap bytes bytes :=
  map_imap (λ t c, Some (TargetStamp keys t c)) targets.

Definition sorted_targets (targets : gmap bytes bytes) : list (bytes * bytes) :=
  sort_by (λ a b, bytes_le a.1 b.1) (map_to_list targets).

Definition report (f : PublishResult → PublishResult) : gen unit :=
  modify (λ s, set_publish s (f (g_result s))).

Definition at_phase (p : PublishPhase) (r : PublishResult) : PublishResult :=
  {| Stamps := Stamps r; Materialized := Materialized r; Phase := Some p; ActiveStamps := ActiveStamps r |}.
Definition with_active (a : option (gmap bytes bytes)) (r : PublishResult) : PublishResult :=
  {| Stamps := Stamps r; Materialized := Materialized r; Phase := Phase r; ActiveStamps := a |}.
Definition materialized (t : bytes) (b : bool) (r : PublishResult) : PublishResult :=
  {| Stamps := Stamps r; Materialized := <[t := b]> (Materialized r); Phase := Phase r;
     ActiveStamps := ActiveStamps r |}.

Definition materialize_target (keys : LocalKeys) (stamps : gmap bytes bytes) (tc : bytes * bytes) :
    gen unit :=
  do* sm := WriteGeneration keys tc.1 tc.2 in
  if negb (bool_decide (Some sm.1 = stamps !! tc.1)) then fail StampChanged
  else report (materialized tc.1 sm.2).

(** The branch of a failed commit. *)
Definition commit_failed (stamps : gmap bytes bytes) (e : gen_err) : gen unit :=
  do* r := try CurrentStamps in
  match r with
  | Err _ => do* _ := report (with_active None) in fail e
  | Ok active =>
      do* _ := report (with_active (Some active)) in
      do* _ := (if bool_decide (active = stamps) then report (at_phase Collecting) else ret tt) in
      fail e
  end.

Definition publish_body (plan : PublishPlan) : gen unit :=
  do* _ := guard_closed in
  if bool_decide (RuntimeDir plan = []) then fail MissingRuntimeDir
  else match Keys plan with
  | None => fail MissingKeys
  | Some keys =>
      if bool_decide (Targets plan = ∅) then fail MissingTargets
      else if negb (forallb (λ tc, targetName tc.1) (map_to_list (Targets plan))) then fail InvalidTarget
      else
        let stamps := planned keys (Targets plan) in
        do* active := CurrentStamps in
        do* _ := report (λ _, {| Stamps := stamps; Materialized := ∅; Phase := Some Materializing;
                                 ActiveStamps := Some active |}) in
        do* _ := for_each (sorted_targets (Targets plan)) (materialize_target keys stamps) in
        do* _ := report (at_phase Switching) in
        do* c := try (CommitStamps stamps) in
        match c with
        | Err e => commit_failed stamps e
        | Ok _ =>
            do* _ := report (at_phase Collecting) in
            do* _ := report (with_active (Some stamps)) in
            do* _ := GC DefaultGenerationsKept in
            report (at_phase Complete)
        end
  end.

Definition empty_result : PublishResult :=
  {| Stamps := ∅; Materialized := ∅; Phase := None; ActiveStamps := None |}.

Definition begin_state (d : disk) : gstate :=
  {| g_disk := d; g_pos := 0; g_closed := false; g_result := empty_result |}.

Definition Publish (plan : PublishPlan) (d : disk) : disk * PublishResult * option gen_err :=
  let '(s, r) := publish_body plan (begin_state d) in
  (g_disk s, g_result s, match r with Ok _ => None | Err e => Some e end).
End verbs.
