(* ===== verification/GenerationFacts.v ===== *)
(** * Render generations: rules and preservation

    Weakest-precondition rules for the filesystem calls, and what each verb of
    the render lock keeps: complete generations are never touched by a write, and
    generations in use never by a collection. *)

From stdpp Require Import prelude gmap strings list.
From Stdlib Require Import Ascii ZArith.
From S2P Require Import Prelude FreeText Bytes StateErr ManagedBlock Generation.

(** ** Stamps have the stamp grammar *)

Lemma hex_digit_char n : (n < 16)%N → hex_char (hex_digit n) = true.
Proof.
  intros Hn. rewrite <- (N2Nat.id n). assert (N.to_nat n < 16) as Hm by lia.
  revert Hm. generalize (N.to_nat n). intros m Hm. do 16 (destruct m as [|m]; [done|]). lia.
Qed.

Lemma EncodeToString_spec s :
  length (EncodeToString s) = 2 * length s ∧ forallb hex_char (EncodeToString s) = true.
Proof.
  unfold EncodeToString. induction s as [|c s [IHl IHc]]; [done|]. cbn [map concat].
  rewrite length_app, IHl. split; [simpl; lia|]. cbn [app forallb].
  rewrite !hex_digit_char; [done| |].
  - apply N.mod_lt. lia.
  - apply N.Div0.div_lt_upper_bound. pose proof (N_ascii_bounded c). unfold code. lia.
Qed.

Lemma TargetStamp_valid k t c : mac_law k → ParseStamp (TargetStamp k t c) = true.
Proof.
  intros Hk. unfold TargetStamp, Stamp, ParseStamp. rewrite (proj2 (strip_Some _ _ _) eq_refl).
  destruct (EncodeToString_spec (take stampBytes (mac k (stampDomain ++
    targetContentDomain ++ t ++ targetSep ++ c)))) as [Hl Hc].
  rewrite Hc, andb_true_r. apply bool_decide_eq_true. rewrite Hl, length_take, Hk. done.
Qed.

(** ** Disks *)

Definition complete (d : disk) (st : bytes) : bool :=
  bool_decide (is_Some (files_of d st !! completeMarker)).

(** The generation a stamp names is complete and holds, for its target, content
    that stamps to its name. *)
Definition good (k : LocalKeys) (d : disk) (t st : bytes) : Prop :=
  complete d st = true ∧
  ∃ c, files_of d st !! (t ++ env_suffix) ≫= file_reads = Some c ∧ TargetStamp k t c = st.

Definition keeps (P : bytes → Prop) (d d' : disk) : Prop :=
  envFile d' = envFile d ∧ ∀ st, P st → entries d' !! st = entries d !! st.

Lemma keeps_refl P d : keeps P d d.
Proof. done. Qed.

Lemma keeps_trans P d1 d2 d3 : keeps P d1 d2 → keeps P d2 d3 → keeps P d1 d3.
Proof.
  intros [E1 H1] [E2 H2]. split; [congruence|]. intros st Hst. by rewrite H2, H1.
Qed.

Lemma keeps_weaken (P P' : bytes → Prop) d d' : (∀ st, P' st → P st) → keeps P d d' → keeps P' d d'.
Proof. intros HP [E H]. split; auto. Qed.

Lemma keeps_put (P : bytes → Prop) d st e : ¬ P st → keeps P d (put d st e).
Proof.
  intros HP. split; [done|]. intros st' Hst. unfold put, entries; simpl.
  apply lookup_partial_alter_ne. by intros ->.
Qed.

Lemma keeps_torn (P : bytes → Prop) d st f : ¬ P st → keeps P d (torn_removal st f d).
Proof.
  intros HP. unfold torn_removal.
  destruct (entries d !! st) as [[g|]|]; auto using keeps_put, keeps_refl.
Qed.

Lemma keeps_files P d d' st : keeps P d d' → P st → files_of d' st = files_of d st.
Proof. intros [_ Hk] HP. unfold files_of. by rewrite Hk. Qed.

Lemma keeps_good (P : bytes → Prop) k d d' t st : keeps P d d' → P st → good k d t st → good k d' t st.
Proof. intros Hk HP. unfold good, complete. by rewrite (keeps_files P d d'). Qed.

Lemma entries_put d st e st' :
  entries (put d st e) !! st' = if bool_decide (st = st') then e else entries d !! st'.
Proof.
  unfold put, entries. simpl. case_bool_decide; subst.
  - by rewrite lookup_partial_alter_eq.
  - by rewrite lookup_partial_alter_ne.
Qed.

Lemma files_put d st g : files_of (put d st (Some (Dir g))) st = g_files g.
Proof. unfold files_of. by rewrite entries_put, bool_decide_true. Qed.

(** ** Calls *)

(** A state with another disk and position. *)
Definition at_disk (s : gstate) (d : disk) (p : nat) : gstate :=
  {| g_disk := d; g_pos := p; g_closed := g_closed s; g_result := g_result s |}.

Section calls.
Context (faults : nat → io_fault).
Implicit Types (s : gstate).

Lemma wp_next_io s (Q : io_fault → gstate → Prop) R :
  (∀ p, Q (faults (g_pos s)) (at_disk s (g_disk s) p)) → wp (next_io faults) s Q R.
Proof. intros HQ. unfold wp, next_io. apply (HQ (S (g_pos s))). Qed.

Lemma wp_call s (Q : unit → gstate → Prop) (R : gen_err → gstate → Prop) :
  (∀ p, Q tt (at_disk s (g_disk s) p)) → (∀ p, R IO (at_disk s (g_disk s) p)) →
  wp (call faults) s Q R.
Proof.
  intros HQ HR. apply wp_bind, wp_next_io. intros p.
  destruct (io_fails _); [by apply wp_fail|by apply wp_ret].
Qed.

Lemma wp_effect ok torn s (Q : unit → gstate → Prop) (R : gen_err → gstate → Prop) :
  (∀ f p, Q tt (at_disk s (ok f (g_disk s)) p)) →
  (∀ f p, R IO (at_disk s (torn f (g_disk s)) p)) →
  wp (effect faults ok torn) s Q R.
Proof.
  intros HQ HR. apply wp_bind, wp_next_io. intros p. destruct (io_fails _).
  - by apply wp_bind, wp_modify, wp_fail, HR.
  - by apply wp_modify, HQ.
Qed.

Lemma wp_guard_closed s (Q : unit → gstate → Prop) (R : gen_err → gstate → Prop) :
  Q tt s → R LockReleased s → wp guard_closed s Q R.
Proof.
  intros HQ HR. apply wp_bind, wp_gets. destruct (g_closed s); [by apply wp_fail|by apply wp_ret].
Qed.

Context (Hstat : ∀ n, io_stat_fails (faults n) = false).

Lemma wp_stat pr s (Q : bool → gstate → Prop) R :
  (∀ p, Q (pr (g_disk s)) (at_disk s (g_disk s) p)) → wp (stat faults pr) s Q R.
Proof.
  intros HQ. apply wp_bind, wp_next_io. intros p. apply wp_gets. rewrite Hstat. apply HQ.
Qed.

Lemma wp_generationStateRoot st s (Q : bool * bool → gstate → Prop) R :
  (∀ p, Q (bool_decide (is_Some (entries (g_disk s) !! st)), complete (g_disk s) st)
          (at_disk s (g_disk s) p)) →
  wp (generationStateRoot faults st) s Q R.
Proof.
  intros HQ. apply wp_bind, wp_stat. intros p. destruct (bool_decide _) eqn:E; cbn [negb].
  - apply wp_bind, wp_stat. intros p'. apply wp_ret. apply HQ.
  - apply wp_ret. specialize (HQ p). apply bool_decide_eq_false in E.
    unfold complete, files_of in HQ.
    destruct (entries (g_disk s) !! st); [by destruct E|].
    by rewrite lookup_empty, bool_decide_false in HQ by (intros [? ?]; done).
Qed.

Lemma wp_RemoveAll (P : bytes → Prop) name s (Q : unit → gstate → Prop) (R : gen_err → gstate → Prop) :
  ¬ P name →
  (∀ p, keeps P (g_disk s) (put (g_disk s) name None) → Q tt (at_disk s (put (g_disk s) name None) p)) →
  (∀ d p, keeps P (g_disk s) d → R IO (at_disk s d p)) →
  wp (RemoveAll faults name) s Q R.
Proof.
  intros HP HQ HR. apply wp_effect; intros f p; [apply HQ|apply HR]; auto using keeps_put, keeps_torn.
Qed.

Lemma wp_Mkdir (P : bytes → Prop) name s (Q : unit → gstate → Prop) (R : gen_err → gstate → Prop) :
  ¬ P name →
  (∀ d p, keeps P (g_disk s) d → files_of d name = ∅ → Q tt (at_disk s d p)) →
  (∀ d p, keeps P (g_disk s) d → R IO (at_disk s d p)) →
  wp (Mkdir faults name) s Q R.
Proof.
  intros HP HQ HR. apply wp_bind, wp_gets. destruct (bool_decide _).
  { apply wp_bind, wp_next_io. intros p. apply wp_fail, HR, keeps_refl. }
  apply wp_effect; intros f p.
  - apply HQ; [by apply keeps_put|by rewrite files_put].
  - apply HR. unfold if_applied. destruct (io_applied f); auto using keeps_put, keeps_refl.
Qed.

Lemma wp_write_file (P : bytes → Prop) st name data s (Q : unit → gstate → Prop) (R : gen_err → gstate → Prop) :
  ¬ P st →
  (∀ d p, keeps P (g_disk s) d → files_of d st = <[name := Regular data]> (files_of (g_disk s) st) →
          Q tt (at_disk s d p)) →
  (∀ d p, keeps P (g_disk s) d → R IO (at_disk s d p)) →
  wp (writeFileFsyncRoot faults st name data) s Q R.
Proof.
  intros HP HQ HR. apply wp_effect; intros f p.
  - apply HQ; [by apply keeps_put|]. unfold write_file. by rewrite files_put.
  - apply HR. destruct (io_written f); [by apply keeps_put|apply keeps_refl].
Qed.

Lemma wp_open_runtime s (Q : unit → gstate → Prop) (R : gen_err → gstate → Prop) :
  (∀ d p, envFile d = envFile (g_disk s) → entries d = entries (g_disk s) → Q tt (at_disk s d p)) →
  (∀ d p, envFile d = envFile (g_disk s) → entries d = entries (g_disk s) → R IO (at_disk s d p)) →
  wp (open_runtime faults) s Q R.
Proof.
  intros HQ HR. apply wp_effect; intros f p; [by apply HQ|]. apply HR.
  - unfold if_applied. by destruct (io_applied f).
  - unfold if_applied. by destruct (io_applied f).
Qed.

Lemma env_not_marker t : t ++ env_suffix ≠ completeMarker.
Proof.
  intros E. apply (f_equal (λ x, reverse x)) in E. rewrite reverse_app in E. by vm_compute in E.
Qed.

(** The calls that make a generation, from a directory just made. *)
Lemma wp_fill (P : bytes → Prop) k t c s (Q : bytes * bool → gstate → Prop) (R : gen_err → gstate → Prop) :
  let st := TargetStamp k t c in
  ¬ P st →
  (∀ d p, keeps P (g_disk s) d → good k d t st → Q (st, true) (at_disk s d p)) →
  (∀ e d p, keeps P (g_disk s) d → R e (at_disk s d p)) →
  files_of (g_disk s) st = ∅ →
  wp (do* _ := call faults in
      do* _ := writeFileFsyncRoot faults st (t ++ env_suffix) c in
      do* _ := call faults in
      do* _ := call faults in
      do* _ := writeFileFsyncRoot faults st completeMarker [] in
      do* _ := call faults in ret (st, true)) s Q R.
Proof.
  intros st HP HQ HR Hf.
  apply wp_bind, wp_call; intros p1; [|by apply HR].
  apply wp_bind, (wp_write_file P); [done| |intros; by apply HR].
  intros d2 p2 K2 F2. apply wp_bind, wp_call; intros p3; [|by apply HR].
  apply wp_bind, wp_call; intros p4; [|by apply HR].
  apply wp_bind, (wp_write_file P); [done| |intros d5 p5 K5; apply HR; by eapply keeps_trans].
  intros d5 p5 K5 F5. simpl in *. assert (keeps P (g_disk s) d5) as K by by eapply keeps_trans.
  apply wp_bind, wp_call; intros p6; [apply wp_ret, HQ; [done|]|by apply HR].
  unfold good, complete. simpl. rewrite F5, F2, Hf. split.
  - rewrite lookup_insert_eq. apply bool_decide_eq_true. by eexists.
  - exists c. rewrite lookup_insert_ne by (apply not_eq_sym, env_not_marker). by rewrite lookup_insert_eq.
Qed.

Lemma wp_WriteGeneration k t c s (Q : bytes * bool → gstate → Prop) (R : gen_err → gstate → Prop) :
  let P := λ st, complete (g_disk s) st = true in
  (∀ d p b, keeps P (g_disk s) d → good k d t (TargetStamp k t c) →
            Q (TargetStamp k t c, b) (at_disk s d p)) →
  (∀ e d p, keeps P (g_disk s) d → R e (at_disk s d p)) →
  wp (WriteGeneration faults k t c) s Q R.
Proof.
  intros P HQ HR. set (st := TargetStamp k t c) in *.
  assert (∀ e, R e s) as HRs.
  { intros e. specialize (HR e (g_disk s) (g_pos s) (keeps_refl _ _)). by destruct s. }
  apply wp_bind, wp_guard_closed; [|done].
  destruct (targetName t); cbn [negb]; [|by apply wp_fail].
  apply wp_bind, wp_open_runtime; intros d1 p1 Henv Hent.
  2: { apply HR. split; [done|]. intros ? _. by rewrite Hent. }
  assert (keeps P (g_disk s) d1) as K1 by (split; [done|]; intros ? _; by rewrite Hent).
  apply wp_bind, wp_generationStateRoot. intros p2. cbn [g_disk at_disk]. fold st.
  destruct (complete d1 st) eqn:Ec.
  - rewrite bool_decide_true.
    2: { unfold complete, files_of in Ec. destruct (entries d1 !! st); [by eexists|].
         rewrite lookup_empty in Ec. by apply bool_decide_eq_true in Ec as [? ?]. }
    cbn [andb]. apply wp_bind. apply wp_bind, wp_call; intros p3; [|by apply HR].
    apply wp_bind, wp_gets. cbn [g_disk at_disk].
    destruct (files_of d1 st !! _ ≫= file_reads) as [x|] eqn:Ex; [apply wp_ret|by apply wp_fail, HR].
    destruct (bool_decide _) eqn:Eb; cbn [negb]; [apply wp_ret, HQ|by apply wp_fail, HR]; [done|].
    apply bool_decide_eq_true in Eb. split; [done|]. by exists x.
  - rewrite andb_false_r. cbn [negb]. rewrite andb_true_r.
    assert (¬ P st) as HP.
    { unfold P, complete, files_of in *. rewrite Hent in Ec. by rewrite Ec. }
    assert (∀ d p, keeps P (g_disk s) d → wp
      (do* _ := Mkdir faults st in
       do* _ := call faults in
       do* _ := writeFileFsyncRoot faults st (t ++ env_suffix) c in
       do* _ := call faults in do* _ := call faults in
       do* _ := writeFileFsyncRoot faults st completeMarker [] in
       do* _ := call faults in ret (st, true)) (at_disk s d p) Q R) as Hmake.
    { intros d p Kd. apply wp_bind, (wp_Mkdir P); [done| |].
      2: { intros d' p' K'. apply HR. by eapply keeps_trans. }
      intros d3 p3 K3 F3. simpl in K3.
      assert (keeps P (g_disk s) d3) as K by by eapply keeps_trans.
      apply (wp_fill P k t c); [done| | |done].
      - intros d4 p4 K4. apply HQ. by eapply keeps_trans.
      - intros e d4 p4 K4. apply HR. by eapply keeps_trans. }
    destruct (bool_decide _).
    + apply wp_bind, (wp_RemoveAll P); [done| |].
      * intros p4 K4. apply Hmake. by eapply keeps_trans.
      * intros d4 p4 K4. apply HR. by eapply keeps_trans.
    + apply wp_bind, wp_ret. by apply Hmake.
Qed.
End calls.
