(* ===== verification/GenerationProps.v ===== *)
(** * Render generations: values and stamps cannot disagree

    The claims about [compose/generation.go]: a commit of the stamp file is
    atomic and read back exactly, a publication is safe at every crash point and
    reports truthfully what is active, and a collection keeps what it must. *)

From stdpp Require Import prelude gmap strings list sorting.
From Stdlib Require Import Ascii ZArith.
From S2P Require Import Prelude FreeText Bytes StateErr ManagedBlock Generation GenerationFacts.

(** The stamps in use. *)
Definition in_use (active : gmap bytes bytes) : gset bytes :=
  list_to_set (map snd (map_to_list active)).

Lemma elem_of_in_use active t st : active !! t = Some st → st ∈ in_use active.
Proof.
  intros Ht. unfold in_use. apply elem_of_list_to_set, list_elem_of_fmap.
  exists (t, st). split; [done|]. by apply elem_of_map_to_list.
Qed.

(** ** The commit *)

(** The stamp file of [d] after a commit over [d0]. *)
Definition committed `{Folding} (stamps : gmap bytes bytes) (d0 d : disk) : Prop :=
  runtime d = runtime d0 ∧
  ∃ next, envFile d = Some next ∧ parseManagedBlock next = Ok stamps ∧
    same_foreign (default [] (envFile d0)) next.

Lemma committed_stamps `{Folding} stamps d0 d : committed stamps d0 d → stamps_on d = Ok stamps.
Proof. intros (_ & next & E & Hp & _). unfold stamps_on. by rewrite E. Qed.

Definition valid_stamps (stamps : gmap bytes bytes) : Prop :=
  map_Forall (λ t st, targetName t = true ∧ ParseStamp st = true) stamps.

Section stamps.
Context `{FoldingLaws} (faults : nat → io_fault).
Implicit Types (s : gstate).

Lemma wp_CurrentStamps s (Q : gmap bytes bytes → gstate → Prop) (R : gen_err → gstate → Prop) :
  (∀ m p, stamps_on (g_disk s) = Ok m → Q m (at_disk s (g_disk s) p)) →
  (∀ e p, R e (at_disk s (g_disk s) p)) →
  wp (CurrentStamps faults) s Q R.
Proof.
  intros HQ HR. apply wp_bind, wp_call; intros p; [|done]. apply wp_bind, wp_gets.
  cbn [g_disk at_disk]. destruct (stamps_on (g_disk s)) as [m|e] eqn:E.
  - apply wp_ret. by apply HQ.
  - by apply wp_fail.
Qed.

Lemma stamps_on_parse d old :
  stamps_on d = Ok old → parseManagedBlock (default [] (envFile d)) = Ok old.
Proof. unfold stamps_on. by destruct (envFile d). Qed.

Lemma wp_CommitStamps stamps old s (Q : unit → gstate → Prop) (R : gen_err → gstate → Prop) :
  stamps_on (g_disk s) = Ok old → valid_stamps stamps →
  (∀ d p, committed stamps (g_disk s) d → Q tt (at_disk s d p)) →
  (∀ e d p, d = g_disk s ∨ committed stamps (g_disk s) d → R e (at_disk s d p)) →
  wp (CommitStamps faults stamps) s Q R.
Proof.
  intros Hold%stamps_on_parse Hv HQ HR.
  destruct (splice_reads_back _ _ _ Hold Hv) as (next & Hs & Hp & Hf).
  assert (∀ e, R e s) as HRs.
  { intros e. specialize (HR e (g_disk s) (g_pos s) (or_introl eq_refl)). by destruct s. }
  assert (committed stamps (g_disk s) (put_env (g_disk s) next)) as Hc by (split; [done|eauto]).
  apply wp_bind, wp_guard_closed; [|done].
  destruct (negb _); [by apply wp_fail|].
  apply wp_bind, wp_call; intros p; [|apply HR; by left].
  apply wp_bind, wp_gets. cbn [g_disk at_disk]. rewrite Hold.
  apply wp_bind, wp_ret. rewrite Hs. apply wp_bind, wp_ret.
  apply wp_effect; intros f p'; [by apply HQ|]. apply HR. unfold if_applied.
  destruct (io_applied f); [by right|by left].
Qed.
End stamps.

(** C33 The stamp file is replaced atomically and read back. Committing stamps
    of valid targets over a file whose managed block is well formed or absent,
    whatever the calls meet, leaves either the old file or a new one; the new one
    parses to exactly these stamps and keeps every line outside the block byte
    for byte, in order (an unterminated last line of a file without a block is
    ended first). The generations are not touched, and success means the new
    file is in place. *)
Theorem commit_atomic `{FoldingLaws} (faults : nat → io_fault) (old stamps : gmap bytes bytes)
    (s : gstate) :
  stamps_on (g_disk s) = Ok old →
  map_Forall (λ t st, targetName t = true ∧ ParseStamp st = true) stamps →
  let '(s', r) := CommitStamps faults stamps s in
  (g_disk s' = g_disk s ∧ r ≠ Ok tt ∨ committed stamps (g_disk s) (g_disk s')) ∧
  g_result s' = g_result s.
Proof.
  intros Hold Hv. pose proof (wp_CommitStamps faults stamps old s
    (λ _ s', committed stamps (g_disk s) (g_disk s') ∧ g_result s' = g_result s)
    (λ _ s', (g_disk s' = g_disk s ∨ committed stamps (g_disk s) (g_disk s')) ∧
             g_result s' = g_result s) Hold Hv) as Hw.
  unfold wp in Hw. destruct (CommitStamps faults stamps s) as [s' [[]|e]].
  - destruct Hw; auto.
  - destruct Hw as [[->|?] ?]; auto.
Qed.

(** ** Removal *)

Definition cleared (names : list bytes) (d0 d : disk) : Prop :=
  envFile d = envFile d0 ∧
  ∀ n, entries d !! n = if bool_decide (n ∈ names) then None else entries d0 !! n.

Lemma cleared_nil d : cleared [] d d.
Proof. split; [done|]. intros n. by rewrite bool_decide_false by apply not_elem_of_nil. Qed.

Lemma cleared_keeps names d0 d (P : bytes → Prop) :
  cleared names d0 d → (∀ n, n ∈ names → ¬ P n) → keeps P d0 d.
Proof.
  intros [E Hc] HP. split; [done|]. intros n Hn. rewrite Hc, bool_decide_false; [done|].
  intros Hin. by apply (HP n).
Qed.

Lemma cleared_app l1 l2 d0 d1 d2 : cleared l1 d0 d1 → cleared l2 d1 d2 → cleared (l1 ++ l2) d0 d2.
Proof.
  intros [E1 H1] [E2 H2]. split; [congruence|]. intros n. rewrite H2, H1.
  repeat case_bool_decide; rewrite ?elem_of_app in *; tauto.
Qed.

Lemma cleared_put d n : cleared [n] d (put d n None).
Proof.
  split; [done|]. intros n'. rewrite entries_put.
  repeat case_bool_decide; rewrite ?list_elem_of_singleton in *; subst; done.
Qed.

Section removal.
Context (faults : nat → io_fault) (P : bytes → Prop).
Implicit Types (s : gstate).

Lemma wp_remove names : ∀ s (Q : unit → gstate → Prop) (R : gen_err → gstate → Prop),
  (∀ n, n ∈ names → ¬ P n) →
  (∀ d p, cleared names (g_disk s) d → Q tt (at_disk s d p)) →
  (∀ d p, keeps P (g_disk s) d → R IO (at_disk s d p)) →
  wp (for_each names (RemoveAll faults)) s Q R.
Proof.
  induction names as [|n names IH]; intros s Q R HP HQ HR; cbn [for_each].
  { apply wp_ret. specialize (HQ (g_disk s) (g_pos s) (cleared_nil _)). by destruct s. }
  apply wp_bind, (wp_RemoveAll faults P); [apply HP; by left| |done].
  intros p K. apply IH.
  - intros n' Hn. apply HP. by right.
  - intros d p' Hc. apply HQ. apply (cleared_app [n] names _ (put (g_disk s) n None)); [|done].
    apply cleared_put.
  - intros d p' K'. apply HR. by eapply keeps_trans.
Qed.

Lemma wp_remove_groups {A} (victims : A → list bytes) groups :
  ∀ s (Q : unit → gstate → Prop) (R : gen_err → gstate → Prop),
  (∀ a n, a ∈ groups → n ∈ victims a → ¬ P n) →
  (∀ d p, cleared (concat (map victims groups)) (g_disk s) d → Q tt (at_disk s d p)) →
  (∀ d p, keeps P (g_disk s) d → R IO (at_disk s d p)) →
  wp (for_each groups (λ a, for_each (victims a) (RemoveAll faults))) s Q R.
Proof.
  induction groups as [|a groups IH]; intros s Q R HP HQ HR; cbn [for_each].
  { apply wp_ret. specialize (HQ (g_disk s) (g_pos s) (cleared_nil _)). by destruct s. }
  apply wp_bind, wp_remove; [intros n; apply HP; by left| |done].
  intros d p Hc. assert (keeps P (g_disk s) d) as K.
  { eapply cleared_keeps; [done|]. intros n. apply HP. by left. }
  apply IH.
  - intros a' n Ha. apply HP. by right.
  - intros d' p' Hc'. apply HQ. by eapply cleared_app.
  - intros d' p' K'. apply HR. by eapply keeps_trans.
Qed.
End removal.

(** ** Collection *)

Section collection.
Context `{FoldingLaws} (faults : nat → io_fault).
Context (Hstat : ∀ n, io_stat_fails (faults n) = false).
Context (readdir : ∀ A, gmap bytes A → list (bytes * A)).
Implicit Types (s : gstate).

(** The target a generation of [d] holds. *)
Definition holds_target (d : disk) (n : bytes) : option bytes :=
  target_of (readdir _ (files_of d n)) None.

(** The complete generations of [t] among [es] that no stamp names. *)
Definition superseded (d : disk) (current : gset bytes) (es : list (bytes * entry)) (t : bytes) :
    list (bytes * Z) :=
  omap (λ ne, if bool_decide (ne.1 ∉ current) && complete d ne.1
                   && bool_decide (holds_target d ne.1 = Some t)
              then Some (ne.1, mtime_of d ne.1) else None) es.

(** What a scan of [es] leaves of [d0], and what it collects on top of [m]. *)
Definition scanned (current : gset bytes) (es : list (bytes * entry)) (d0 d : disk)
    (m m' : superseded_map) : Prop :=
  envFile d = envFile d0 ∧
  (∀ n, entries d !! n =
     if bool_decide (n ∈ es.*1) && bool_decide (n ∉ current) && negb (complete d0 n)
     then None else entries d0 !! n) ∧
  (∀ t, default [] (m' !! t) = default [] (m !! t) ++ superseded d0 current es t) ∧
  (∀ n, n ∈ es.*1 → (n ∉ current) → complete d0 n = true → is_Some (holds_target d0 n)).

Lemma complete_entries d d' n : entries d' !! n = entries d !! n → complete d' n = complete d n.
Proof. intros E. unfold complete, files_of. by rewrite E. Qed.
Lemma target_entries d d' n : entries d' !! n = entries d !! n → holds_target d' n = holds_target d n.
Proof. intros E. unfold holds_target, files_of. by rewrite E. Qed.
Lemma mtime_entries d d' n : entries d' !! n = entries d !! n → mtime_of d' n = mtime_of d n.
Proof. intros E. unfold mtime_of. by rewrite E. Qed.

Lemma superseded_entries d d' current es t :
  (∀ n, n ∈ es.*1 → entries d' !! n = entries d !! n) →
  superseded d' current es t = superseded d current es t.
Proof.
  unfold superseded. induction es as [|[n e] es IH]; intros He; [done|].
  cbn [omap list_omap fst]. rewrite IH by (intros n' Hn; apply He; by right).
  assert (entries d' !! n = entries d !! n) as E by (apply He; by left).
  by rewrite (complete_entries _ _ _ E), (target_entries _ _ _ E), (mtime_entries _ _ _ E).
Qed.

(** A name that is skipped, removed, or collected. *)
Lemma scanned_skip current n e es d0 d m m' :
  n ∈ current → scanned current es d0 d m m' → scanned current ((n, e) :: es) d0 d m m'.
Proof.
  intros Hn (E & He & Hm & Ht). split; [done|]. split_and!.
  - intros n'. rewrite He. cbn [fmap list_fmap fst]. destruct (decide (n' = n)) as [->|Hne].
    + rewrite !(bool_decide_false (n ∉ current)) by tauto. by rewrite !andb_false_r.
    + by rewrite (bool_decide_ext (n' ∈ n :: es.*1) (n' ∈ es.*1)) by (rewrite elem_of_cons; tauto).
  - intros t. rewrite Hm. unfold superseded. cbn [omap list_omap fst].
    rewrite (bool_decide_false (n ∉ current)) by tauto. done.
  - intros n' [->|Hin]%elem_of_cons Hn'; [done|by apply Ht].
Qed.

Lemma scanned_removed current n e es d0 d m m' :
  (n ∉ current) → complete d0 n = false → (n ∉ es.*1) →
  scanned current es (put d0 n None) d m m' → scanned current ((n, e) :: es) d0 d m m'.
Proof.
  intros Hn Hc Hnin (E & He & Hm & Ht). split; [done|].
  assert (∀ n', n' ≠ n → entries (put d0 n None) !! n' = entries d0 !! n') as Hput.
  { intros n' Hne. by rewrite entries_put, bool_decide_false. }
  split_and!.
  - intros n'. rewrite He. cbn [fmap list_fmap fst]. destruct (decide (n' = n)) as [->|Hne].
    + rewrite (bool_decide_false (n ∈ es.*1)) by done. cbn [andb].
      rewrite entries_put, bool_decide_true by done.
      rewrite (bool_decide_true (n ∈ n :: es.*1)), (bool_decide_true (n ∉ current)), Hc by (done || by left).
      done.
    + rewrite (bool_decide_ext (n' ∈ n :: es.*1) (n' ∈ es.*1)) by (rewrite elem_of_cons; tauto).
      by rewrite (complete_entries d0 _ n'), Hput by auto.
  - intros t. rewrite Hm. f_equal. rewrite (superseded_entries d0).
    2: { intros n' Hn'. apply Hput. by intros ->. }
    unfold superseded at 2. cbn [omap list_omap fst]. rewrite Hc, andb_false_r. done.
  - intros n' [->|Hin]%elem_of_cons Hn' Hc'; [simpl in Hc'; congruence|].
    assert (entries (put d0 n None) !! n' = entries d0 !! n') as Ee by (apply Hput; by intros ->).
    rewrite <- (target_entries d0 (put d0 n None)) by done. apply Ht; [done..|].
    by rewrite (complete_entries d0).
Qed.

Lemma scanned_collected current n e es d0 d m m' t :
  (n ∉ current) → complete d0 n = true → holds_target d0 n = Some t →
  scanned current es d0 d (add_generation t n (mtime_of d0 n) m) m' →
  scanned current ((n, e) :: es) d0 d m m'.
Proof.
  intros Hn Hc Ht (E & He & Hm & Hall). split; [done|]. split_and!.
  - intros n'. rewrite He. cbn [fmap list_fmap fst]. destruct (decide (n' = n)) as [->|Hne].
    + rewrite Hc. by rewrite !andb_false_r.
    + by rewrite (bool_decide_ext (n' ∈ n :: es.*1) (n' ∈ es.*1)) by (rewrite elem_of_cons; tauto).
  - intros t'. rewrite Hm. unfold superseded at 2. cbn [omap list_omap fst].
    rewrite (bool_decide_true (n ∉ current)), Hc, Ht by done. cbn [andb]. unfold add_generation.
    destruct (decide (t = t')) as [->|Hne].
    + rewrite lookup_insert_eq, bool_decide_true by done. simpl. by rewrite <- app_assoc.
    + rewrite lookup_insert_ne, bool_decide_false by congruence. done.
  - intros n' [->|Hin]%elem_of_cons Hn' Hc'; [by eexists|by apply Hall].
Qed.

Lemma wp_gc_scan current es : ∀ m s (Q : superseded_map → gstate → Prop) (R : gen_err → gstate → Prop),
  NoDup es.*1 →
  (∀ m' d p, scanned current es (g_disk s) d m m' → Q m' (at_disk s d p)) →
  (∀ e d p, keeps (λ n, n ∈ current) (g_disk s) d → R e (at_disk s d p)) →
  wp (gc_scan faults readdir current es m) s Q R.
Proof.
  induction es as [|[n e] es IH]; intros m s Q R Hnd HQ HR; cbn [gc_scan].
  { apply wp_ret. specialize (HQ m (g_disk s) (g_pos s)). destruct s; apply HQ. split; [done|].
    split_and!; [intros ?; by rewrite bool_decide_false by apply not_elem_of_nil|
                 intros ?; by rewrite app_nil_r|by intros ? ?%elem_of_nil]. }
  apply NoDup_cons in Hnd as [Hnin Hnd].
  assert (∀ x, R x s) as HRs.
  { intros x. specialize (HR x (g_disk s) (g_pos s) (keeps_refl _ _)). by destruct s. }
  destruct (ParseStamp n); [|by apply wp_fail]. cbn [negb].
  destruct (is_dir e); [|by apply wp_fail]. cbn [negb].
  destruct (bool_decide (n ∈ current)) eqn:Ec;
    [apply bool_decide_eq_true in Ec|apply bool_decide_eq_false in Ec].
  { apply IH; [done| |done]. intros m' d p Hs. apply HQ. by apply scanned_skip. }
  apply wp_bind, wp_generationStateRoot; [done|]. intros p1. cbn [snd].
  destruct (complete (g_disk s) n) eqn:Ecomp; cbn [negb].
  - apply wp_bind, wp_call; intros p2; [|by apply HR]. apply wp_bind, wp_gets.
    apply wp_bind. apply wp_bind, wp_call; intros p3; [|by apply HR]. apply wp_bind, wp_gets.
    cbn [g_disk at_disk]. fold (holds_target (g_disk s) n).
    destruct (holds_target (g_disk s) n) as [t|] eqn:Et; [|by apply wp_fail, HR].
    apply wp_ret, IH; [done| |done]. intros m' d p Hs. apply HQ. by eapply scanned_collected.
  - apply wp_bind, (wp_RemoveAll faults (λ n, n ∈ current)); [done| |intros d p K; by apply HR].
    intros p2 K. apply IH; [done| |].
    + intros m' d p Hs. apply HQ. by apply scanned_removed.
    + intros x d p K'. apply HR. by eapply keeps_trans.
Qed.

Context (Hread : ∀ A (m : gmap bytes A), readdir A m ≡ₚ map_to_list m).

Lemma readdir_elem {A} (m : gmap bytes A) n a : (n, a) ∈ readdir A m ↔ m !! n = Some a.
Proof. by rewrite Hread, elem_of_map_to_list. Qed.

Lemma readdir_NoDup {A} (m : gmap bytes A) : NoDup (readdir A m).*1.
Proof. rewrite Hread. apply NoDup_fst_map_to_list. Qed.

Definition victims (keep : nat) (tg : bytes * list (bytes * Z)) : list bytes :=
  map fst (drop keep (newest_first tg.2)).

(** The disk after a collection that succeeded. *)
Definition collected (keep : nat) (active : gmap bytes bytes) (d0 d : disk) : Prop :=
  runtime d0 = None ∧ d = d0 ∨
  ∃ m m' d1, runtime d0 = Some m ∧ scanned (in_use active) (readdir _ m) d0 d1 ∅ m' ∧
    cleared (concat (map (victims keep) (readdir _ m'))) d1 d.

Lemma superseded_elem d current es t n z :
  (n, z) ∈ superseded d current es t ↔
  n ∈ es.*1 ∧ (n ∉ current) ∧ complete d n = true ∧ holds_target d n = Some t ∧ z = mtime_of d n.
Proof.
  unfold superseded. rewrite list_elem_of_omap. split.
  - intros ([n' e] & Hin & E). cbn [fst] in E. destruct (_ && _) eqn:Eb; [|done]. simplify_eq.
    rewrite !andb_true_iff, !bool_decide_eq_true in Eb. destruct Eb as [[? ?] ?].
    split_and!; try done. apply list_elem_of_fmap. by exists (n, e).
  - intros (Hn & Hc & Hco & Ht & ->). apply list_elem_of_fmap in Hn as ([n' e] & -> & Hin).
    exists (n', e). split; [done|]. cbn [fst] in *.
    by rewrite Hco, Ht, !bool_decide_true by done.
Qed.

Lemma scanned_group current es d0 d m' t l :
  scanned current es d0 d ∅ m' → m' !! t = Some l → l = superseded d0 current es t.
Proof.
  intros (_ & _ & Hm & _) Ht. specialize (Hm t). rewrite Ht, lookup_empty in Hm. exact Hm.
Qed.

Lemma victim_superseded keep current es d0 d m' tg n :
  scanned current es d0 d ∅ m' → tg ∈ readdir _ m' → n ∈ victims keep tg →
  ∃ z, (n, z) ∈ superseded d0 current es tg.1.
Proof.
  destruct tg as [t l]. intros Hs Hin (g & -> & Hg)%list_elem_of_fmap. destruct g as [n z].
  apply readdir_elem in Hin. rewrite (scanned_group _ _ _ _ _ _ _ Hs Hin) in Hg.
  exists z. apply subseteq_drop in Hg. unfold newest_first in Hg. by rewrite elem_of_sort_by in Hg.
Qed.

Lemma scanned_keeps current es d0 d m m' : scanned current es d0 d m m' → keeps (λ n, n ∈ current) d0 d.
Proof.
  intros (E & He & _). split; [done|]. intros n Hn. rewrite He.
  rewrite (bool_decide_false (n ∉ current)) by tauto. by rewrite andb_false_r.
Qed.

Lemma elem_of_concat_map {A B} (f : A → list B) (l : list A) (x : B) :
  x ∈ concat (map f l) ↔ ∃ a, a ∈ l ∧ x ∈ f a.
Proof.
  induction l as [|a l IH]; simpl; [by rewrite ex_elem_nil, elem_of_nil|].
  by rewrite elem_of_app, IH, ex_elem_cons.
Qed.

Lemma collected_keeps keep active d0 d :
  collected keep active d0 d → keeps (λ n, n ∈ in_use active) d0 d.
Proof.
  intros [[_ ->]|(m & m' & d1 & _ & Hs & Hc)]; [apply keeps_refl|].
  eapply keeps_trans; [by eapply scanned_keeps|]. eapply cleared_keeps; [done|].
  intros n (tg & Htg & Hn)%elem_of_concat_map Hin.
  destruct (victim_superseded _ _ _ _ _ _ _ _ Hs Htg Hn) as [z Hz].
  by apply superseded_elem in Hz as (_ & ? & _).
Qed.

Lemma wp_GC keep active s (Q : unit → gstate → Prop) (R : gen_err → gstate → Prop) :
  stamps_on (g_disk s) = Ok active →
  (∀ d p, collected keep active (g_disk s) d → Q tt (at_disk s d p)) →
  (∀ e d p, keeps (λ n, n ∈ in_use active) (g_disk s) d → R e (at_disk s d p)) →
  wp (GC faults readdir keep) s Q R.
Proof.
  intros Hact HQ HR.
  assert (∀ x, R x s) as HRs.
  { intros x. specialize (HR x (g_disk s) (g_pos s) (keeps_refl _ _)). by destruct s. }
  apply wp_bind, wp_guard_closed; [|done].
  apply wp_bind, wp_CurrentStamps; [|intros; apply HR, keeps_refl].
  intros act p1 Hact'. rewrite Hact in Hact'. injection Hact' as <-. cbv zeta.
  change (list_to_set (map snd (map_to_list active))) with (in_use active).
  apply wp_bind. apply wp_bind, wp_call; intros p2; [|apply HR, keeps_refl].
  apply wp_gets. cbn [g_disk at_disk]. destruct (runtime (g_disk s)) as [m|] eqn:Em; cbn [mbind option_bind].
  2: { apply wp_ret, HQ. by left. }
  apply wp_bind, wp_gc_scan; [apply readdir_NoDup| |intros; by apply HR].
  intros m' d p3 Hs. cbn [g_disk at_disk] in Hs.
  rewrite (for_each_ext _ _ (λ tg, for_each (victims keep tg) (RemoveAll faults)))
    by (intros tg; apply for_each_map).
  apply (wp_remove_groups faults (λ n, n ∈ in_use active)).
  - intros tg n Htg Hn Hin. destruct (victim_superseded _ _ _ _ _ _ _ _ Hs Htg Hn) as [z Hz].
    by apply superseded_elem in Hz as (_ & ? & _).
  - intros d' p' Hc. apply HQ. right. by exists m, m', d.
  - intros d' p' K. apply HR. eapply keeps_trans; [by eapply scanned_keeps|done].
Qed.
End collection.

Lemma newest_first_split keep l a b :
  a ∈ take keep (newest_first l) → b ∈ drop keep (newest_first l) → (b.2 ≤ a.2)%Z.
Proof.
  intros Ha Hb. assert (StronglySorted (λ x y : bytes * Z, (y.2 <=? x.2)%Z = true) (newest_first l)) as Hs.
  { apply sort_by_sorted.
    - intros x y z. rewrite !Z.leb_le. lia.
    - intros x y. rewrite !Z.leb_le. lia. }
  rewrite <- (take_drop keep (newest_first l)) in Hs.
  apply Z.leb_le. by apply (StronglySorted_app_1_elem_of (λ x y : bytes * Z, (y.2 <=? x.2)%Z = true) _ _ a b Hs).
Qed.

Section retention.
Context (readdir : ∀ A, gmap bytes A → list (bytes * A)).
Context (Hread : ∀ A (m : gmap bytes A), readdir A m ≡ₚ map_to_list m).

Lemma collected_incomplete keep active d0 d n :
  collected readdir keep active d0 d → (n ∉ in_use active) → complete d0 n = false →
  entries d !! n = None.
Proof.
  intros Hcol Hn Hc. destruct Hcol as [[Hr ->]|(m & m' & d1 & Hr & (_ & He & _) & [_ Hcl])].
  - unfold entries. by rewrite Hr.
  - rewrite Hcl. case_bool_decide; [done|]. rewrite He, Hc.
    rewrite (bool_decide_true (n ∉ in_use active)) by done.
    case_bool_decide as Hin; [done|]. cbn [andb]. unfold entries. rewrite Hr. cbn [default].
    apply eq_None_not_Some. intros [e Ee]. apply Hin, list_elem_of_fmap. exists (n, e).
    split; [done|]. by apply (readdir_elem readdir Hread).
Qed.

Lemma superseded_NoDup d current es t : NoDup es.*1 → NoDup (superseded readdir d current es t).*1.
Proof.
  induction es as [|[n e] es IH]; intros Hnd; [constructor|]. apply NoDup_cons in Hnd as [Hn Hnd].
  unfold superseded in *. cbn [omap list_omap fst]. destruct (_ && _); [|by apply IH].
  cbn [fmap list_fmap fst]. apply NoDup_cons. split; [|by apply IH].
  intros ([n' z] & -> & Hin)%list_elem_of_fmap.
  by apply (superseded_elem readdir) in Hin as [? _].
Qed.

Lemma scanned_lookup current es d0 d m' t g :
  scanned readdir current es d0 d ∅ m' → g ∈ superseded readdir d0 current es t →
  m' !! t = Some (superseded readdir d0 current es t).
Proof.
  intros (_ & _ & Hm & _) Hg. specialize (Hm t). rewrite lookup_empty in Hm. simpl in Hm.
  destruct (m' !! t) as [l|]; [by simpl in Hm; rewrite Hm|]. simpl in Hm. rewrite <- Hm in Hg.
  by apply elem_of_nil in Hg.
Qed.

Lemma collected_kept keep active d0 d t g :
  collected readdir keep active d0 d →
  g ∈ take keep (newest_first (superseded readdir d0 (in_use active) (readdir _ (entries d0)) t)) →
  entries d !! g.1 = entries d0 !! g.1.
Proof.
  intros [[_ ->]|(m & m' & d1 & Hr & Hs & [_ Hcl])] Hg; [done|].
  assert (entries d0 = m) as Em by (unfold entries; by rewrite Hr). rewrite Em in Hg.
  set (gens := superseded readdir d0 (in_use active) (readdir _ m) t) in *.
  assert (g ∈ gens) as Hin.
  { apply elem_of_take in Hg as (i & Hi & _). apply list_elem_of_lookup_2 in Hi.
    unfold newest_first in Hi. by rewrite elem_of_sort_by in Hi. }
  destruct g as [n z]. pose proof Hin as Hel.
  apply (superseded_elem readdir) in Hel as (Hn & Hnc & Hc & Ht & _).
  rewrite Hcl, bool_decide_false.
  - destruct Hs as (_ & He & _). rewrite He. cbn [fst]. by rewrite Hc, andb_false_r.
  - intros ([t' l] & Htg & Hv)%elem_of_concat_map.
    destruct (victim_superseded readdir Hread _ _ _ _ _ _ _ _ Hs Htg Hv) as [z' Hz'].
    apply (superseded_elem readdir) in Hz' as (_ & _ & _ & Ht' & _). cbn [fst] in *.
    assert (t' = t) as -> by congruence. apply (readdir_elem readdir Hread) in Htg.
    apply (scanned_group readdir _ _ _ _ _ _ _ Hs) in Htg as ->. fold gens in Hv.
    assert (NoDup (newest_first gens).*1) as Hnd.
    { unfold newest_first. rewrite sort_by_Permutation. apply superseded_NoDup.
      apply (readdir_NoDup readdir Hread). }
    rewrite <- (take_drop keep (newest_first gens)), fmap_app in Hnd.
    apply NoDup_app in Hnd as (_ & Hdis & _). apply (Hdis n); [|done].
    apply list_elem_of_fmap. by exists (n, z).
Qed.

Lemma collected_removed keep active d0 d t g :
  collected readdir keep active d0 d →
  g ∈ drop keep (newest_first (superseded readdir d0 (in_use active) (readdir _ (entries d0)) t)) →
  entries d !! g.1 = None.
Proof.
  intros [[Hr ->]|(m & m' & d1 & Hr & Hs & [_ Hcl])] Hg.
  { unfold entries. by rewrite Hr. }
  assert (entries d0 = m) as Em by (unfold entries; by rewrite Hr). rewrite Em in Hg.
  rewrite Hcl, bool_decide_true; [done|]. apply elem_of_concat_map.
  exists (t, superseded readdir d0 (in_use active) (readdir _ m) t). split.
  - apply (readdir_elem readdir Hread). eapply (scanned_lookup _ _ _ _ _ _ g); [done|].
    apply subseteq_drop in Hg. unfold newest_first in Hg. by rewrite elem_of_sort_by in Hg.
  - apply list_elem_of_fmap. by exists g.
Qed.
End retention.

(** Retention. A collection that succeeds leaves every generation a stamp
    names as it was, removes every incomplete generation no stamp names, and of
    the complete superseded generations of each target keeps the [keep] most
    recent, or all when there are fewer, and removes the others: none removed is
    newer than one kept. *)
Theorem gc_retention `{FoldingLaws} (faults : nat → io_fault)
    (readdir : ∀ A, gmap bytes A → list (bytes * A)) (keep : nat) (active : gmap bytes bytes)
    (s s' : gstate) :
  (∀ n, io_stat_fails (faults n) = false) →
  (∀ A (m : gmap bytes A), readdir A m ≡ₚ map_to_list m) →
  stamps_on (g_disk s) = Ok active →
  GC faults readdir keep s = (s', Ok tt) →
  let d := g_disk s in
  let d' := g_disk s' in
  let current := in_use active in
  (∀ t st, active !! t = Some st → entries d' !! st = entries d !! st) ∧
  (∀ n, (n ∉ current) → complete d n = false → entries d' !! n = None) ∧
  ∀ t, let gens := superseded readdir d current (readdir _ (entries d)) t in
    ∃ kept removed, gens ≡ₚ kept ++ removed ∧ length kept = min keep (length gens) ∧
      (∀ g, g ∈ kept → entries d' !! g.1 = entries d !! g.1) ∧
      (∀ g, g ∈ removed → entries d' !! g.1 = None) ∧
      (∀ a b, a ∈ kept → b ∈ removed → (b.2 ≤ a.2)%Z).
Proof.
  intros Hstat Hread Hact Hgc d d' current.
  assert (collected readdir keep active d d') as Hcol.
  { pose proof (wp_GC faults Hstat readdir Hread keep active s
      (λ _ s', collected readdir keep active d (g_disk s')) (λ _ _, True) Hact) as Hw.
    unfold wp in Hw. rewrite Hgc in Hw. by apply Hw. }
  pose proof (collected_keeps readdir Hread _ _ _ _ Hcol) as [_ Hkeep].
  split; [intros t st Ht; by eapply Hkeep, elem_of_in_use|].
  split; [intros n; by apply (collected_incomplete readdir Hread keep)|]. intros t gens.
  exists (take keep (newest_first gens)), (drop keep (newest_first gens)).
  assert (newest_first gens ≡ₚ gens) as Hp by apply sort_by_Permutation. split_and!.
  - by rewrite take_drop.
  - by rewrite length_take, Hp.
  - intros g. by apply (collected_kept readdir Hread).
  - intros g. by apply (collected_removed readdir Hread).
  - intros a b. apply newest_first_split.
Qed.

(** ** Publication *)

Lemma lookup_planned keys targets t :
  planned keys targets !! t = (λ c, TargetStamp keys t c) <$> targets !! t.
Proof. unfold planned. rewrite map_lookup_imap. by destruct (targets !! t). Qed.

Section publication.
Context `{FoldingLaws} (faults : nat → io_fault).
Context (Hstat : ∀ n, io_stat_fails (faults n) = false).
Context (readdir : ∀ A, gmap bytes A → list (bytes * A)).
Context (Hread : ∀ A (m : gmap bytes A), readdir A m ≡ₚ map_to_list m).
Context (keys : LocalKeys) (Hkeys : mac_law keys) (targets : gmap bytes bytes).
Context (d0 : disk) (active : gmap bytes bytes) (Hactive : stamps_on d0 = Ok active).
Implicit Types (s : gstate).

Abbreviation stamps := (planned keys targets).

Definition all_good (d : disk) : Prop := ∀ t st, stamps !! t = Some st → good keys d t st.

(** What holds wherever the publication stops. *)
Definition published (d : disk) (res : PublishResult) : Prop :=
  ∃ active', stamps_on d = Ok active' ∧
    (active' = active ∨ active' = stamps ∧ all_good d) ∧
    (∀ t st, active' !! t = Some st → good keys d0 t st → good keys d t st) ∧
    (∀ m, ActiveStamps res = Some m → m = active') ∧
    (CandidateActive res = true → active' = stamps ∧ all_good d).

Definition untouched (d : disk) : Prop := keeps (λ st, complete d0 st = true) d0 d.

Lemma untouched_stamps d : untouched d → stamps_on d = Ok active.
Proof. intros [E _]. unfold stamps_on. by rewrite E. Qed.

Lemma untouched_good d t st : untouched d → good keys d0 t st → good keys d t st.
Proof. intros Hu Hg. eapply keeps_good; [done| |done]. apply Hg. Qed.

(** Before the switch. *)
Lemma published_before d res :
  untouched d → (∀ m, ActiveStamps res = Some m → m = active) → CandidateActive res = false →
  published d res.
Proof.
  intros Hu Hm Hc. exists active. split_and!; auto using untouched_stamps.
  - intros t st _. by apply untouched_good.
  - by rewrite Hc.
Qed.

(** Once the candidate generations are complete and selected. *)
Lemma published_after d res :
  stamps_on d = Ok stamps → all_good d → (∀ m, ActiveStamps res = Some m → m = stamps) →
  published d res.
Proof. intros Hs Hg Hm. exists stamps. split_and!; auto. Qed.

Lemma all_good_keeps (P : bytes → Prop) d d' :
  keeps P d d' → (∀ t st, stamps !! t = Some st → P st) → all_good d → all_good d'.
Proof. intros Hk HP Hg t st Ht. eapply keeps_good; [done|by eapply HP|by apply Hg]. Qed.

Lemma untouched_step d d' :
  untouched d → keeps (λ st, complete d st = true) d d' → untouched d'.
Proof.
  intros Hu Hk. eapply keeps_trans; [done|]. eapply keeps_weaken; [|done].
  intros st Hst. destruct Hu as [_ Hu]. by rewrite (complete_entries d0 d st) by by apply Hu.
Qed.

(** The loop over the targets. *)
Definition midway (rest : list (bytes * bytes)) s : Prop :=
  untouched (g_disk s) ∧ Phase (g_result s) = Some Materializing ∧
  ActiveStamps (g_result s) = Some active ∧
  ∀ t c, targets !! t = Some c → (t, c) ∈ rest ∨ good keys (g_disk s) t (TargetStamp keys t c).

Definition stopped s : Prop :=
  untouched (g_disk s) ∧ Phase (g_result s) = Some Materializing ∧
  ActiveStamps (g_result s) = Some active.

Lemma wp_materialize tc rest s :
  midway (tc :: rest) s →
  wp (materialize_target faults keys stamps tc) s (λ _ s', midway rest s') (λ _ s', stopped s').
Proof.
  destruct tc as [t c]. intros (Hu & Hp & Ha & Hr).
  apply wp_bind, (wp_WriteGeneration faults Hstat).
  - intros d p b Hk Hg. cbn [fst snd]. assert (untouched d) as Hu' by by eapply untouched_step.
    destruct (bool_decide _); cbn [negb]; [|by apply wp_fail].
    apply wp_modify. split_and!; [done..|]. intros t' c' Ht. cbn [g_disk at_disk set_publish].
    destruct (Hr t' c' Ht) as [[[= -> ->]|Hin]%elem_of_cons|Hg'].
    + by right.
    + by left.
    + right. apply (keeps_good _ _ _ _ _ _ Hk); [apply Hg'|done].
  - intros e d p Hk. split_and!; [by eapply untouched_step|done..].
Qed.

Lemma wp_materialize_all s :
  untouched (g_disk s) → Phase (g_result s) = Some Materializing →
  ActiveStamps (g_result s) = Some active →
  wp (for_each (sorted_targets targets) (materialize_target faults keys stamps)) s
     (λ _ s', stopped s' ∧ all_good (g_disk s')) (λ _ s', stopped s').
Proof.
  intros Hu Hp Ha. eapply wp_mono; [apply (wp_for_each _ _ midway)| |].
  - split_and!; [done..|]. intros t c Ht. left. unfold sorted_targets.
    by rewrite elem_of_sort_by, elem_of_map_to_list.
  - intros tc rest s'. apply wp_materialize.
  - intros [] s' (Hu' & Hp' & Ha' & Hr). split; [done|]. intros t st Ht.
    rewrite lookup_planned in Ht. destruct (targets !! t) as [c|] eqn:Ec; [|done].
    simpl in Ht. injection Ht as <-. destruct (Hr t c Ec) as [Hn|?]; [|done].
    by apply elem_of_nil in Hn.
  - done.
Qed.

Lemma wp_commit_failed e s :
  (stamps_on (g_disk s) = Ok active ∧ untouched (g_disk s) ∨ stamps_on (g_disk s) = Ok stamps) →
  all_good (g_disk s) → CandidateActive (g_result s) = false →
  wp (commit_failed faults stamps e) s (λ _ _, False) (λ _ s', published (g_disk s') (g_result s')).
Proof.
  intros Hs Hg Hc.
  assert (∃ act, stamps_on (g_disk s) = Ok act ∧ (act = active ∧ untouched (g_disk s) ∨ act = stamps))
    as (act & Hact & Hcase) by (destruct Hs as [[? ?]|?]; eauto).
  assert (∀ res, (∀ m, ActiveStamps res = Some m → m = act) →
            (CandidateActive res = true → act = stamps) → published (g_disk s) res) as Hpub.
  { intros res Hm Hca. exists act. split_and!; auto.
    - destruct Hcase as [[-> _]| ->]; auto.
    - intros t st Ht Hgood. destruct Hcase as [[-> Hu]| ->]; [by apply untouched_good|by apply Hg]. }
  apply wp_bind, wp_try, wp_CurrentStamps.
  - intros m p Hm. rewrite Hact in Hm. injection Hm as <-.
    apply wp_bind, wp_modify. apply wp_bind. destruct (bool_decide (act = stamps)) eqn:Eb.
    + apply bool_decide_eq_true in Eb. apply wp_modify, wp_fail, Hpub; [by intros m [= <-]|done].
    + apply wp_ret, wp_fail, Hpub; [by intros m [= <-]|]. intros Hca.
      unfold CandidateActive in *. cbn in Hca. by rewrite Hc in Hca.
  - intros x p. apply wp_bind, wp_modify, wp_fail, Hpub; [done|]. intros Hca.
    unfold CandidateActive in *. cbn in Hca. by rewrite Hc in Hca.
Qed.

Lemma planned_valid :
  forallb (λ tc, targetName tc.1) (map_to_list targets) = true → valid_stamps stamps.
Proof.
  intros Hn t st Ht. rewrite lookup_planned in Ht. destruct (targets !! t) as [c|] eqn:Ec; [|done].
  simpl in Ht. injection Ht as <-. split; [|by apply TargetStamp_valid].
  rewrite forallb_true in Hn. apply (Hn (t, c)). by apply elem_of_map_to_list.
Qed.

(** The switch and the collection, once every target is materialized. *)
Lemma wp_switch s :
  stopped s → all_good (g_disk s) → valid_stamps stamps →
  wp (do* _ := report (at_phase Switching) in
      do* c := try (CommitStamps faults stamps) in
      match c with
      | Err e => commit_failed faults stamps e
      | Ok _ =>
          do* _ := report (at_phase Collecting) in
          do* _ := report (with_active (Some stamps)) in
          do* _ := GC faults readdir DefaultGenerationsKept in
          report (at_phase Complete)
      end) s
    (λ _ s', published (g_disk s') (g_result s') ∧ Phase (g_result s') = Some Complete)
    (λ _ s', published (g_disk s') (g_result s')).
Proof.
  intros (Hu & Hp & Ha) Hg Hv. apply wp_bind, wp_modify. apply wp_bind, wp_try.
  assert (∀ d, committed stamps (g_disk s) d → all_good d) as Hcg.
  { intros d (Hr & _) t st Ht. specialize (Hg t st Ht). unfold good, complete, files_of, entries in *.
    by rewrite Hr. }
  apply (wp_CommitStamps faults stamps active); [by apply untouched_stamps|done| |].
  - intros d p Hc. do 2 apply wp_bind, wp_modify. apply wp_bind, (wp_GC faults Hstat readdir Hread _ stamps).
    + by eapply committed_stamps.
    + intros d' p' Hcol. apply (collected_keeps readdir Hread) in Hcol. cbn [g_disk at_disk set_publish] in Hcol.
      apply wp_modify. split; [|done]. apply published_after.
      * apply committed_stamps in Hc. unfold stamps_on in *. simpl. by rewrite (proj1 Hcol).
      * eapply all_good_keeps; [done|intros t st; apply elem_of_in_use|by apply Hcg].
      * by intros m [= <-].
    + intros e d' p' Hk. apply published_after.
      * apply committed_stamps in Hc. unfold stamps_on in *. simpl. by rewrite (proj1 Hk).
      * eapply all_good_keeps; [done|intros t st; apply elem_of_in_use|by apply Hcg].
      * by intros m [= <-].
  - intros e d p Hd. eapply wp_mono; [apply wp_commit_failed| |].
    + cbn [g_disk at_disk set_publish]. destruct Hd as [->|Hc]; [left|right].
      * split; [by apply untouched_stamps|done].
      * by eapply committed_stamps.
    + cbn [g_disk at_disk set_publish]. destruct Hd as [->|Hc]; [done|by apply Hcg].
    + done.
    + done.
    + done.
Qed.

Lemma wp_publish_body plan s :
  Keys plan = Some keys → Targets plan = targets → g_disk s = d0 → g_result s = empty_result →
  wp (publish_body faults readdir plan) s
    (λ _ s', published (g_disk s') (g_result s') ∧ Phase (g_result s') = Some Complete)
    (λ _ s', published (g_disk s') (g_result s')).
Proof.
  intros Hk Ht Hd Hres.
  assert (∀ s', g_disk s' = d0 → g_result s' = empty_result → published (g_disk s') (g_result s')) as Hearly.
  { intros s' -> ->. apply published_before; [apply keeps_refl|done|done]. }
  apply wp_bind, wp_guard_closed; [|by apply Hearly].
  destruct (bool_decide _); [by apply wp_fail, Hearly|]. rewrite Hk, Ht.
  destruct (bool_decide _); [by apply wp_fail, Hearly|].
  destruct (forallb _ _) eqn:Hn; cbn [negb]; [|by apply wp_fail, Hearly].
  apply wp_bind, wp_CurrentStamps; [|intros; by apply Hearly].
  intros act p Hact. rewrite Hd, Hactive in Hact. injection Hact as <-.
  apply wp_bind, wp_modify. apply wp_bind.
  eapply wp_mono; [apply wp_materialize_all| |]; [|done|done| |].
  - simpl. rewrite Hd. apply keeps_refl.
  - intros [] s' [Hs Hg]. apply wp_switch; [done|done|by apply planned_valid].
  - intros e s' (Hu & Hp & Ha). apply published_before; [done| |].
    + intros m. rewrite Ha. by intros [= <-].
    + unfold CandidateActive. by rewrite Hp.
Qed.
End publication.

(** C15 Values and stamps cannot disagree. Wherever a publication stops, the
    stamp file is well formed and selects either exactly what it selected before
    or exactly the candidate stamps, and then the generation of every target is
    complete and holds content that stamps to its name. A generation that was
    whole before and is selected after is still whole. The result is truthful:
    the active stamps it reports, if any, are those of the stamp file, it claims
    the candidate active only when it is, and success means the last phase. *)
Theorem publish_crash_safe `{FoldingLaws} (faults : nat → io_fault)
    (readdir : ∀ A, gmap bytes A → list (bytes * A)) (keys : LocalKeys) (plan : PublishPlan)
    (d : disk) (active : gmap bytes bytes) :
  (∀ n, io_stat_fails (faults n) = false) →
  (∀ A (m : gmap bytes A), readdir A m ≡ₚ map_to_list m) →
  Keys plan = Some keys → mac_law keys → stamps_on d = Ok active →
  let stamps := planned keys (Targets plan) in
  let '(d', res, e) := Publish faults readdir plan d in
  ∃ active', stamps_on d' = Ok active' ∧
    (active' = active ∨ active' = stamps ∧ ∀ t st, stamps !! t = Some st → good keys d' t st) ∧
    (∀ t st, active' !! t = Some st → good keys d t st → good keys d' t st) ∧
    (∀ m, ActiveStamps res = Some m → m = active') ∧
    (CandidateActive res = true →
       active' = stamps ∧ ∀ t st, stamps !! t = Some st → good keys d' t st) ∧
    (e = None → Phase res = Some Complete).
Proof.
  intros Hstat Hread Hk Hmac Hact stamps. unfold Publish.
  pose proof (wp_publish_body faults Hstat readdir Hread keys Hmac (Targets plan) d active Hact plan
    (begin_state d) Hk eq_refl eq_refl eq_refl) as Hw.
  unfold wp in Hw. destruct (publish_body faults readdir plan (begin_state d)) as [s' [[]|x]].
  - destruct Hw as [(act & ? & ? & ? & ? & ?) ?]. by exists act.
  - destruct Hw as (act & ? & ? & ? & ? & ?). exists act. by split_and!.
Qed.

(** ** A concrete project *)

Ltac by_decision := apply (bool_decide_unpack _); vm_compute; exact I.

Definition demo_keys : LocalKeys := {| mac := λ m, take 32 (reverse m ++ replicate 32 nul) |}.

Lemma demo_mac_law : mac_law demo_keys.
Proof. intros m. cbn [mac demo_keys]. rewrite length_take, length_app, length_replicate. lia. Qed.

Definition list_dir (A : Type) (m : gmap bytes A) : list (bytes * A) := map_to_list m.

Definition fine (n : nat) : io_fault :=
  {| io_fails := false; io_applied := false; io_written := None; io_leaves := λ _, true;
     io_stat_fails := false; io_time := Z.of_nat n |}.

(** Call [k] fails, a removal leaving the completion marker. *)
Definition failing_at (k n : nat) : io_fault :=
  {| io_fails := bool_decide (n = k); io_applied := true; io_written := Some 2;
     io_leaves := λ f, bool_decide (f = completeMarker); io_stat_fails := false;
     io_time := Z.of_nat n |}.

Definition demo_plan (content : string) : PublishPlan :=
  {| RuntimeDir := lit "/run/hikyo"; Keys := Some demo_keys; Targets := {[lit "api" := lit content]} |}.

Definition publish_ok (d : disk) (content : string) : disk :=
  (Publish fine list_dir (demo_plan content) d).1.1.

Definition new_project : disk := {| runtime := None; envFile := Some demo_env |}.
Definition published_once : disk := publish_ok new_project "K=1".
Definition published_four : disk :=
  publish_ok (publish_ok (publish_ok published_once "K=2") "K=3") "K=4".

Lemma publish_crash_safe_witness :
  let '(d', res, _) := Publish (failing_at 7) list_dir (demo_plan "K=2") published_once in
  ∃ active', stamps_on d' = Ok active' ∧ Phase res = Some Materializing ∧
    good demo_keys d' (lit "api") (TargetStamp demo_keys (lit "api") (lit "K=1")).
Proof.
  pose proof (publish_crash_safe (failing_at 7) list_dir demo_keys (demo_plan "K=2") published_once
    (planned demo_keys (Targets (demo_plan "K=1"))) ltac:(done) ltac:(done) eq_refl demo_mac_law
    ltac:(by_decision)) as Hp.
  cbv zeta in Hp. destruct (Publish _ _ _ _) as [[d' res] e] eqn:E.
  destruct Hp as (act & Hact & _ & Hgood & Hrep & _).
  assert (Phase res = Some Materializing ∧ ActiveStamps res = Some (planned demo_keys (Targets (demo_plan "K=1"))))
    as [Hph Ha].
  { apply (f_equal (λ x, x.1.2)) in E. cbn [fst snd] in E. rewrite <- E. split; by_decision. }
  exists act. split; [done|]. split; [done|]. apply Hgood.
  - rewrite <- (Hrep _ Ha). by_decision.
  - split; [by_decision|]. exists (lit "K=1"). split; by_decision.
Defined.

Lemma commit_atomic_witness :
  let '(s', r) := CommitStamps (failing_at 1) demo_stamps (begin_state new_project) in
  r = Err IO ∧ stamps_on (g_disk s') = Ok demo_stamps.
Proof.
  pose proof (commit_atomic (failing_at 1) ∅ demo_stamps (begin_state new_project)) as Hc.
  assert (stamps_on new_project = Ok ∅) as H1 by by_decision.
  assert (map_Forall (λ t st, targetName t = true ∧ ParseStamp st = true) demo_stamps) as H2.
  { intros t st Ht. unfold demo_stamps in Ht. apply lookup_singleton_Some in Ht as [<- <-]. split; by_decision. }
  specialize (Hc H1 H2).
  assert ((CommitStamps (failing_at 1) demo_stamps (begin_state new_project)).2 = Err IO) as Hr by by_decision.
  assert (bool_decide (envFile (g_disk (CommitStamps (failing_at 1) demo_stamps (begin_state new_project)).1)
    = envFile new_project) = false) as Hne by by_decision.
  destruct (CommitStamps _ _ _) as [s' r]. cbn [fst snd] in *.
  split; [done|]. destruct Hc as [[[Hd _]|Hc] _]; [|by apply committed_stamps in Hc].
  rewrite Hd in Hne. by apply bool_decide_eq_false in Hne.
Defined.

Lemma gc_retention_witness :
  let s := begin_state published_four in
  (GC fine list_dir 1 s).2 = Ok tt ∧
  entries (g_disk (GC fine list_dir 1 s).1) !! TargetStamp demo_keys (lit "api") (lit "K=4")
  = entries published_four !! TargetStamp demo_keys (lit "api") (lit "K=4").
Proof.
  intros s. destruct (GC fine list_dir 1 s) as [s' r] eqn:E.
  assert (r = Ok tt) as ->.
  { apply (f_equal snd) in E. cbn [snd] in E. rewrite <- E. by_decision. }
  destruct (gc_retention fine list_dir 1 (planned demo_keys (Targets (demo_plan "K=4"))) s s'
    ltac:(done) ltac:(done) ltac:(by_decision) E) as [Hkeep _].
  split; [done|]. apply (Hkeep (lit "api")). by_decision.
Defined.

(** ** A removal cut short *)

Lemma gc_blocked `{FoldingLaws} faults readdir keep active s n :
  (∀ n, io_stat_fails (faults n) = false) →
  (∀ A (m : gmap bytes A), readdir A m ≡ₚ map_to_list m) →
  stamps_on (g_disk s) = Ok active → (n ∉ in_use active) →
  complete (g_disk s) n = true → holds_target readdir (g_disk s) n = None →
  (GC faults readdir keep s).2 ≠ Ok tt.
Proof.
  intros Hstat Hread Hact Hn Hc Ht.
  pose proof (wp_GC faults Hstat readdir Hread keep active s
    (λ _ s', collected readdir keep active (g_disk s) (g_disk s')) (λ _ _, True) Hact) as Hw.
  unfold wp in Hw. destruct (GC faults readdir keep s) as [s' [[]|e]]; [|done].
  exfalso. destruct Hw as [[Hr _]|(m & m' & d1 & Hr & (_ & _ & _ & Hall) & _)]; [done..| |].
  - unfold complete, files_of, entries in Hc. by rewrite Hr in Hc.
  - destruct (Hall n) as [t Ht']; [|done|done|congruence].
    assert (is_Some (entries (g_disk s) !! n)) as [e He].
    { unfold complete, files_of in Hc. destruct (entries (g_disk s) !! n); [by eexists|].
      rewrite lookup_empty in Hc. by apply bool_decide_eq_true in Hc as [? ?]. }
    apply list_elem_of_fmap. exists (n, e). split; [done|]. apply (readdir_elem readdir Hread).
    unfold entries in He. by rewrite Hr in He.
Qed.

(** No collection succeeds on [d], whatever its calls meet. *)
Definition collection_blocked (d : disk) : Prop :=
  ∀ faults readdir keep, (∀ n, io_stat_fails (faults n) = false) →
    (∀ A (m : gmap bytes A), readdir A m ≡ₚ map_to_list m) →
    (GC faults readdir keep (begin_state d)).2 ≠ Ok tt.

Definition torn_disk : disk := (Publish (failing_at 30) list_dir (demo_plan "K=5") published_four).1.1.
Definition torn_name : bytes := TargetStamp demo_keys (lit "api") (lit "K=1").

(** A removal cut short blocks collection for good. When the collection of a
    superseded generation stops after its target file and before its completion
    marker, the rest counts as complete and has no target: the publication that
    was collecting fails after its switch, every later collection fails, and
    [Recover] leaves the remainder in place. *)
Theorem torn_removal_wedges :
  (Publish (failing_at 30) list_dir (demo_plan "K=5") published_four).2 = Some IO ∧
  stamps_on torn_disk = Ok (planned demo_keys (Targets (demo_plan "K=5"))) ∧
  collection_blocked torn_disk ∧
  (Publish fine list_dir (demo_plan "K=6") torn_disk).2 = Some (BadGeneration torn_name) ∧
  let '(s, r) := Recover fine list_dir (begin_state torn_disk) in
  r = Ok tt ∧ complete (g_disk s) torn_name = true.
Proof.
  split_and!; [by_decision|by_decision| |by_decision|].
  2: { assert ((Recover fine list_dir (begin_state torn_disk)).2 = Ok tt) as Hr by by_decision.
       assert (complete (g_disk (Recover fine list_dir (begin_state torn_disk)).1) torn_name = true)
         as Hc by by_decision.
       by destruct (Recover _ _ _). }
  intros faults readdir keep Hstat Hread.
  apply (gc_blocked _ _ _ (planned demo_keys (Targets (demo_plan "K=5"))) _ torn_name);
    [exact Hstat|exact Hread|by_decision|by_decision|by_decision|].
  unfold holds_target. cbn [g_disk begin_state].
  assert (files_of torn_disk torn_name = {[completeMarker := Regular []]}) as -> by by_decision.
  pose proof (Hread _ ({[completeMarker := Regular []]} : gmap bytes file)) as Hp.
  rewrite map_to_list_singleton in Hp. apply Permutation_singleton_r in Hp. by rewrite Hp.
Qed.
