(* ===== verification/Digest.v ===== *)
(** * The two digests of the Go standard library the sources use

    [hash/crc32] (the IEEE polynomial, reflected) and [crypto/sha256], on byte
    strings. The first carries the checksum of a bearer value, the second its
    stored verifier. The bitwise CRC is the specification of the table-driven
    one; what is proved of it is that a damaged window of at most four bytes
    always changes it. *)

From stdpp Require Import prelude strings list.
From Stdlib Require Import Ascii NArith.
From S2P Require Import Prelude FreeText Bytes.

Local Open Scope N_scope.

Definition u32 (n : N) : N := n mod 2^32.

(** ** CRC-32 *)

Definition crc_poly : N := 0xEDB88320.

Definition crc_step (x : N) : N :=
  N.lxor (N.shiftr x 1) (if N.testbit x 0 then crc_poly else 0).

(** Eight bits of one byte. *)
Definition crc_byte (x : N) (c : ascii) : N := Nat.iter 8 crc_step (N.lxor x (code c)).

(** [crc32.ChecksumIEEE] *)
Definition ChecksumIEEE (b : bytes) : N :=
  N.lxor (foldl crc_byte 0xFFFFFFFF b) 0xFFFFFFFF.

Example crc_check : ChecksumIEEE (lit "123456789") = 0xCBF43926.
Proof. vm_compute. reflexivity. Qed.

(** ** SHA-256 *)

(** The constants are derived, not listed: the first 32 bits of the fractional
    parts of the cube roots of the first 64 primes, and of the square roots of
    the first eight. *)
Definition prime (n : N) : bool :=
  forallb (λ d, negb (n mod N.of_nat d =? 0)) (seq 2 (N.to_nat n - 2)).

Definition primes (bound : nat) : list N := List.filter prime (map N.of_nat (seq 2 (bound - 2))).

(** The integer cube root, bit by bit from the top. *)
Fixpoint cube_root (bits : nat) (acc n : N) : N :=
  match bits with
  | O => acc
  | S b => let t := acc + 2 ^ N.of_nat b in
           cube_root b (if t * t * t <=? n then t else acc) n
  end.

Definition sha_k : list N :=
  Eval vm_compute in map (λ p, u32 (cube_root 36 0 (p * 2^96))) (primes 312).

Definition sha_h0 : list N :=
  Eval vm_compute in map (λ p, u32 (N.sqrt (p * 2^64))) (primes 20).

Definition rotr (x k : N) : N := N.lor (N.shiftr x k) (u32 (N.shiftl x (32 - k))).

(** The message schedule, newest word first: [w.(i)] from [w.(i-16)], [w.(i-15)],
    [w.(i-7)] and [w.(i-2)]. *)
Definition schedule_word (w : list N) : N :=
  let at_ i := nth i w 0 in
  let s0 := N.lxor (N.lxor (rotr (at_ 14%nat) 7) (rotr (at_ 14%nat) 18)) (N.shiftr (at_ 14%nat) 3) in
  let s1 := N.lxor (N.lxor (rotr (at_ 1%nat) 17) (rotr (at_ 1%nat) 19)) (N.shiftr (at_ 1%nat) 10) in
  u32 (at_ 15%nat + s0 + at_ 6%nat + s1).

Definition schedule (block : list N) : list N :=
  reverse (Nat.iter 48 (λ w, schedule_word w :: w) (reverse block)).

Definition sha_round (v : list N) (kw : N * N) : list N :=
  match v with
  | [a; b; c; d; e; f; g; h] =>
      let S1 := N.lxor (N.lxor (rotr e 6) (rotr e 11)) (rotr e 25) in
      let ch := N.lxor (N.land e f) (N.land (N.lxor e 0xFFFFFFFF) g) in
      let t1 := h + S1 + ch + kw.1 + kw.2 in
      let S0 := N.lxor (N.lxor (rotr a 2) (rotr a 13)) (rotr a 22) in
      let maj := N.lxor (N.lxor (N.land a b) (N.land a c)) (N.land b c) in
      [u32 (t1 + S0 + maj); a; b; c; u32 (d + t1); e; f; g]
  | _ => v
  end.

Definition sha_block (h : list N) (block : list N) : list N :=
  zip_with (λ x y, u32 (x + y)) h (foldl sha_round h (zip sha_k (schedule block))).

Fixpoint words (n : nat) (b : list N) : list N :=
  match n, b with
  | S n, x0 :: x1 :: x2 :: x3 :: b =>
      (((x0 * 256 + x1) * 256 + x2) * 256 + x3) :: words n b
  | _, _ => []
  end.

Definition be_bytes (n : nat) (w : N) : list N :=
  map (λ i, N.shiftr w (8 * N.of_nat i) mod 256) (reverse (seq 0 n)).

(** One 1 bit, zeros, and the bit length in the last eight of 64-byte blocks. *)
Definition sha_pad (b : list N) : list N :=
  let zeros := ((119 - length b mod 64) mod 64)%nat in
  b ++ [0x80] ++ replicate zeros 0 ++ be_bytes 8 (8 * N.of_nat (length b)).

Fixpoint sha_blocks (n : nat) (h : list N) (ws : list N) : list N :=
  match n with
  | O => h
  | S n => sha_blocks n (sha_block h (take 16 ws)) (drop 16 ws)
  end.

(** [sha256.Sum256] *)
Definition Sum256 (b : bytes) : bytes :=
  let p := sha_pad (map code b) in
  let n := (length p / 64)%nat in
  map ascii_of_N (concat (map (be_bytes 4) (sha_blocks n sha_h0 (words (16 * n) p)))).

Definition hex_digit (n : N) : ascii := default zero (lit "0123456789abcdef" !! N.to_nat n).

Definition hex (b : bytes) : bytes :=
  concat (map (λ c, [hex_digit (code c / 16); hex_digit (code c mod 16)]) b).

Example sha_empty :
  hex (Sum256 []) = lit "e3b0c44298fc1c149afbf4c8996fb92427ae41e4649b934ca495991b7852b855".
Proof. vm_compute. reflexivity. Qed.

Example sha_abc :
  hex (Sum256 (lit "abc"))
  = lit "ba7816bf8f01cfea414140de5dae2223b00361a396177a9cb410ff61f20015ad".
Proof. vm_compute. reflexivity. Qed.

Example sha_two_blocks :
  hex (Sum256 (lit "abcdbcdecdefdefgefghfghighijhijkijkljklmklmnlmnomnopnopq"))
  = lit "248d6a61d20638b8e5c026930c3e6039a33ce45964ff2167f6ecedd419db06c1".
Proof. vm_compute. reflexivity. Qed.

(** ** A damaged window of at most four bytes changes the CRC *)

Lemma crc_step_lxor x y : crc_step (N.lxor x y) = N.lxor (crc_step x) (crc_step y).
Proof.
  unfold crc_step. rewrite N.shiftr_lxor, N.lxor_spec.
  set (X := N.shiftr x 1). set (Y := N.shiftr y 1).
  destruct (N.testbit x 0), (N.testbit y 0); simpl;
    apply N.bits_inj; intros i; rewrite !N.lxor_spec, ?N.bits_0;
    by destruct (N.testbit X i), (N.testbit Y i), (N.testbit crc_poly i).
Qed.

Lemma lxor_bound k x y : x < 2^k → y < 2^k → N.lxor x y < 2^k.
Proof.
  intros Hx Hy. destruct (decide (N.lxor x y = 0)) as [->|Hne].
  { apply N.neq_0_lt_0, N.pow_nonzero. done. }
  apply N.log2_lt_pow2; [lia|]. eapply N.le_lt_trans; [apply N.log2_lxor|].
  destruct (decide (x = 0)) as [->|]; destruct (decide (y = 0)) as [->|].
  - done.
  - rewrite N.max_r by (simpl; lia). apply N.log2_lt_pow2; lia.
  - rewrite N.max_l by (simpl; lia). apply N.log2_lt_pow2; lia.
  - apply N.max_lub_lt; apply N.log2_lt_pow2; lia.
Qed.

Lemma crc_step_bound x : x < 2^32 → crc_step x < 2^32.
Proof.
  intros Hx. apply lxor_bound.
  - rewrite N.shiftr_div_pow2. eapply N.le_lt_trans; [|exact Hx].
    apply N.Div0.div_le_upper_bound. simpl. lia.
  - destruct (N.testbit x 0); done.
Qed.

(** The polynomial has its top bit set, so a step is injective on 32 bits. *)
Lemma crc_step_zero d : d < 2^32 → crc_step d = 0 → d = 0.
Proof.
  intros Hd Hz. unfold crc_step in Hz. apply N.lxor_eq in Hz.
  rewrite N.shiftr_div_pow2, N.bit0_odd in Hz. change (2^1) with 2 in Hz.
  pose proof (N.div_mod d 2 ltac:(done)) as Hdm. unfold crc_poly in Hz.
  pose proof (N.Div0.div_lt_upper_bound d 2 (2^31) Hd) as Hb.
  destruct (N.odd d) eqn:Ho.
  - rewrite Hz in Hb. by vm_compute in Hb.
  - rewrite Hz in Hdm. rewrite <- N.negb_even in Ho. apply negb_false_iff, N.even_spec in Ho as [k ->].
    rewrite N.mul_comm, N.Div0.mod_mul in Hdm. lia.
Qed.

Lemma crc_steps_lxor n x y :
  Nat.iter n crc_step (N.lxor x y) = N.lxor (Nat.iter n crc_step x) (Nat.iter n crc_step y).
Proof. induction n as [|n IH]; simpl; [done|]. by rewrite IH, crc_step_lxor. Qed.

Lemma crc_steps_bound n x : x < 2^32 → Nat.iter n crc_step x < 2^32.
Proof. induction n as [|n IH]; simpl; [done|]. intros. by apply crc_step_bound, IH. Qed.

Lemma crc_steps_inj n x y :
  x < 2^32 → y < 2^32 → Nat.iter n crc_step x = Nat.iter n crc_step y → x = y.
Proof.
  intros Hx Hy Heq. apply N.lxor_eq.
  assert (Nat.iter n crc_step (N.lxor x y) = 0) as Hz.
  { rewrite crc_steps_lxor, Heq. apply N.lxor_nilpotent. }
  pose proof (lxor_bound 32 x y Hx Hy) as Hb. clear Heq. revert Hz.
  induction n as [|n IH]; simpl; [done|]. intros Hz.
  apply IH, crc_step_zero; [|done]. by apply crc_steps_bound.
Qed.

Lemma crc_steps_shift n x : Nat.iter n crc_step (N.shiftl x (N.of_nat n)) = x.
Proof.
  revert x. induction n as [|n IH]; intros x; [apply N.shiftl_0_r|].
  rewrite Nat.iter_succ_r. rewrite <- (IH x) at 2. f_equal. unfold crc_step.
  rewrite N.shiftl_spec_low by lia. rewrite N.lxor_0_r, N.shiftr_shiftl_l by lia.
  f_equal. lia.
Qed.

(** The bytes of a window as one little-endian number. *)
Fixpoint pack (w : bytes) : N :=
  match w with [] => 0 | c :: w => N.lxor (code c) (N.shiftl (pack w) 8) end.

Lemma crc_window x w :
  foldl crc_byte x w = Nat.iter (8 * length w) crc_step (N.lxor x (pack w)).
Proof.
  revert x. induction w as [|c w IH]; intros x; [by rewrite N.lxor_0_r|].
  cbn [foldl length pack]. rewrite IH. unfold crc_byte.
  replace (8 * S (length w))%nat with (8 * length w + 8)%nat by lia.
  rewrite Nat.iter_add. f_equal.
  rewrite <- N.lxor_assoc, (crc_steps_lxor 8 (N.lxor x (code c))). f_equal.
  symmetry. apply (crc_steps_shift 8).
Qed.

Lemma code_bound c : code c < 2^8.
Proof. apply N_ascii_bounded. Qed.

Lemma pack_bound w : pack w < 2^(8 * N.of_nat (length w)).
Proof.
  induction w as [|c w IH]; [done|]. cbn [pack length]. apply lxor_bound.
  - eapply N.lt_le_trans; [apply code_bound|]. apply N.pow_le_mono_r; lia.
  - rewrite N.shiftl_mul_pow2.
    replace (8 * N.of_nat (S (length w))) with (8 * N.of_nat (length w) + 8) by lia.
    rewrite N.pow_add_r. apply N.mul_lt_mono_pos_r; done.
Qed.

Lemma pack_cons c w : pack (c :: w) = code c + 256 * pack w.
Proof.
  cbn [pack]. rewrite <- N.add_nocarry_lxor.
  - rewrite N.shiftl_mul_pow2. change (2^8) with 256. lia.
  - apply N.bits_inj. intros i. rewrite N.land_spec, N.bits_0.
    destruct (decide (i < 8)).
    + rewrite (N.shiftl_spec_low _ _ i) by done. apply andb_false_r.
    + rewrite <- (N.mod_small _ _ (code_bound c)), N.mod_pow2_bits_high by lia. done.
Qed.

Lemma pack_inj w w' : length w = length w' → pack w = pack w' → w = w'.
Proof.
  revert w'. induction w as [|c w IH]; intros [|c' w'] Hl Hp; try done.
  rewrite !pack_cons in Hp. pose proof (code_bound c). pose proof (code_bound c').
  change (2^8) with 256 in *. assert (code c = code c') as Hc by lia.
  f_equal.
  - unfold code in Hc. rewrite <- (ascii_N_embedding c), <- (ascii_N_embedding c'). by f_equal.
  - apply IH; [by injection Hl|lia].
Qed.

Lemma crc_bytes_bound x w : x < 2^32 → foldl crc_byte x w < 2^32.
Proof.
  revert x. induction w as [|c w IH]; intros x Hx; [done|]. cbn [foldl]. apply IH, crc_steps_bound.
  apply lxor_bound; [done|]. eapply N.lt_trans; [apply code_bound|done].
Qed.

Lemma crc_bytes_inj x y w :
  x < 2^32 → y < 2^32 → foldl crc_byte x w = foldl crc_byte y w → x = y.
Proof.
  revert x y. induction w as [|c w IH]; intros x y Hx Hy Heq; [done|]. cbn [foldl] in Heq.
  assert (∀ z, z < 2^32 → N.lxor z (code c) < 2^32) as Hb.
  { intros z Hz. apply lxor_bound; [done|]. eapply N.lt_trans; [apply code_bound|done]. }
  apply IH in Heq; [|by apply crc_steps_bound, Hb..].
  apply crc_steps_inj in Heq; [|by apply Hb..].
  apply (f_equal (λ z, N.lxor z (code c))) in Heq.
  by rewrite !N.lxor_assoc, !N.lxor_nilpotent, !N.lxor_0_r in Heq.
Qed.

Lemma crc_burst a w w' b :
  length w = length w' → (length w ≤ 4)%nat → w ≠ w' →
  ChecksumIEEE (a ++ w ++ b) ≠ ChecksumIEEE (a ++ w' ++ b).
Proof.
  intros Hl H4 Hne Heq. apply Hne, pack_inj; [done|]. unfold ChecksumIEEE in Heq.
  apply (f_equal (λ z, N.lxor z 0xFFFFFFFF)) in Heq.
  rewrite !N.lxor_assoc, !N.lxor_nilpotent, !N.lxor_0_r, !foldl_app in Heq.
  set (x := foldl crc_byte 0xFFFFFFFF a) in Heq.
  assert (x < 2^32) as Hx by (by apply crc_bytes_bound).
  apply crc_bytes_inj in Heq; [|by apply crc_bytes_bound..].
  rewrite !crc_window, Hl in Heq.
  assert (∀ v, length v = length w' → N.lxor x (pack v) < 2^32) as Hb.
  { intros v Hv. apply lxor_bound; [done|]. eapply N.lt_le_trans; [apply pack_bound|].
    apply N.pow_le_mono_r; [done|lia]. }
  apply crc_steps_inj in Heq; [|by apply Hb..].
  apply (f_equal (N.lxor x)) in Heq.
  by rewrite <- !N.lxor_assoc, !N.lxor_nilpotent, !N.lxor_0_l in Heq.
Qed.

Lemma ChecksumIEEE_bound b : ChecksumIEEE b < 2^32.
Proof. apply lxor_bound; [by apply crc_bytes_bound|done]. Qed.
