(* ===== verification/Bearer.v ===== *)
(** * Bearer artifacts: [internal/crypto/bearer.go]

    One grammar for every bearer value, [hik_<version>_<type>_<body><checksum>]:
    the body is the base62 of 32 random bytes, the checksum six base62 digits of
    its CRC-32. The parser refuses by re-encoding, so that what it accepts is
    exactly what minting can emit; [ParseArtifact_iff] is that statement. *)

From stdpp Require Import prelude strings list.
From Stdlib Require Import Ascii NArith.
From S2P Require Import Prelude FreeText Bytes Digest.

Local Open Scope N_scope.

(** ** Positional notation

    What [math/big] gives the encoder: [SetBytes] and the Horner loop read a
    big-endian digit string, [DivMod] and [Bytes] write the minimal one. *)

Definition value_be (B : N) (l : list N) : N := foldl (λ n d, n * B + d) 0 l.

(** The [DivMod] loop, least significant digit first. The fuel bounds the
    number of binary digits, hence of digits in any base. *)
Fixpoint digits (B : N) (fuel : nat) (n : N) : list N :=
  match fuel with
  | O => []
  | S fuel => if n =? 0 then [] else n mod B :: digits B fuel (n / B)
  end.

Definition to_be (B n : N) : list N := reverse (digits B (N.size_nat n) n).

Fixpoint value_le (B : N) (l : list N) : N :=
  match l with [] => 0 | d :: l => d + B * value_le B l end.

Lemma value_be_le B l : value_be B l = value_le B (reverse l).
Proof.
  induction l as [|d l IH] using rev_ind; [done|].
  unfold value_be in *. rewrite foldl_app, reverse_app. cbn. rewrite IH. lia.
Qed.

Section Positional.
Context (B : N) (HB : 2 ≤ B).

Lemma value_digits fuel n : n < 2 ^ N.of_nat fuel → value_le B (digits B fuel n) = n.
Proof.
  revert n. induction fuel as [|fuel IH]; intros n Hn; cbn [digits].
  { simpl in *. change (2^0) with 1 in Hn. lia. }
  destruct (N.eqb_spec n 0) as [->|Hne]; [done|]. cbn [value_le].
  pose proof (N.div_mod n B ltac:(lia)) as Hdm. rewrite IH; [lia|].
  apply N.Div0.div_lt_upper_bound. eapply N.lt_le_trans; [exact Hn|].
  rewrite Nat2N.inj_succ, N.pow_succ_r'. nia.
Qed.

Lemma size_bound n : n < 2 ^ N.of_nat (N.size_nat n).
Proof.
  pose proof (N.size_gt n) as H. replace (N.of_nat (N.size_nat n)) with (N.size n); [done|].
  clear H. destruct n as [|p]; [done|]. cbn [N.size N.size_nat].
  induction p as [p IH|p IH|]; [| |done];
    cbn [Pos.size Pos.size_nat]; by rewrite Nat2N.inj_succ, <- IH.
Qed.

Lemma value_to_be n : value_be B (to_be B n) = n.
Proof. rewrite value_be_le. unfold to_be. rewrite reverse_involutive. apply value_digits, size_bound. Qed.

Lemma digits_lt fuel n : Forall (λ d, d < B) (digits B fuel n).
Proof.
  revert n. induction fuel as [|fuel IH]; intros n; cbn [digits]; [constructor|].
  destruct (n =? 0); constructor; [|done]. apply N.mod_lt. lia.
Qed.

Lemma to_be_lt n : Forall (λ d, d < B) (to_be B n).
Proof. unfold to_be. apply Forall_reverse, digits_lt. Qed.

(** The most significant digit is not zero. *)
Definition canonical (l : list N) : Prop := head l ≠ Some 0.

Lemma digits_last fuel n : n < 2 ^ N.of_nat fuel → last (digits B fuel n) ≠ Some 0.
Proof.
  revert n. induction fuel as [|fuel IH]; intros n Hn; cbn [digits]; [done|].
  destruct (N.eqb_spec n 0) as [->|Hne]; [done|].
  assert (n / B < 2 ^ N.of_nat fuel) as Hq.
  { apply N.Div0.div_lt_upper_bound. eapply N.lt_le_trans; [exact Hn|].
    rewrite Nat2N.inj_succ, N.pow_succ_r'. nia. }
  rewrite last_cons. specialize (IH _ Hq).
  destruct (last (digits B fuel (n / B))) eqn:El; [done|].
  apply last_None in El. intros [= Hz].
  assert (n / B = 0) as Hz' by (rewrite <- (value_digits fuel _ Hq), El; done).
  pose proof (N.div_mod n B ltac:(lia)). lia.
Qed.

Lemma to_be_canonical n : canonical (to_be B n).
Proof.
  unfold canonical, to_be. rewrite head_reverse. apply digits_last, size_bound.
Qed.

Lemma value_le_zero l : last l ≠ Some 0 → value_le B l = 0 → l = [].
Proof.
  induction l as [|d l IH]; [done|]. rewrite last_cons. cbn [value_le]. intros Hc Hz.
  assert (d = 0 ∧ value_le B l = 0) as [-> Hl] by nia.
  assert (l = []) as -> by (apply IH; [by destruct (last l)|done]). done.
Qed.

Lemma value_le_inj l l' :
  Forall (λ d, d < B) l → Forall (λ d, d < B) l' →
  last l ≠ Some 0 → last l' ≠ Some 0 → value_le B l = value_le B l' → l = l'.
Proof.
  intros Hl. revert l'. induction Hl as [|d l Hd Hl IH]; intros l' Hl' Hc Hc' Heq.
  { symmetry. by apply value_le_zero. }
  destruct Hl' as [|d' l' Hd' Hl']; [by apply value_le_zero|].
  cbn [value_le] in Heq. rewrite !(N.add_comm _ (B * _)) in Heq.
  apply N.div_mod_unique in Heq as [Hv ->]; [|done..]. f_equal.
  rewrite last_cons in Hc, Hc'. apply IH; try done.
  - by destruct (last l).
  - by destruct (last l').
Qed.

Lemma to_be_value l : Forall (λ d, d < B) l → canonical l → to_be B (value_be B l) = l.
Proof.
  intros Hl Hc. apply (inj reverse). apply value_le_inj.
  - apply Forall_reverse, to_be_lt.
  - by apply Forall_reverse.
  - rewrite last_reverse. apply to_be_canonical.
  - by rewrite last_reverse.
  - by rewrite <- !value_be_le, value_to_be.
Qed.

Lemma value_le_bound l : Forall (λ d, d < B) l → value_le B l < B ^ N.of_nat (length l).
Proof.
  induction 1 as [|d l Hd Hl IH]; [done|].
  cbn [value_le length]. rewrite Nat2N.inj_succ, N.pow_succ_r'.
  nia.
Qed.

Lemma value_be_bound l : Forall (λ d, d < B) l → value_be B l < B ^ N.of_nat (length l).
Proof. intros. rewrite value_be_le, <- (length_reverse l). by apply value_le_bound, Forall_reverse. Qed.

(** A number below [B^m] has at most [m] digits. *)
Lemma digits_length fuel n m : n < B ^ N.of_nat m → (length (digits B fuel n) ≤ m)%nat.
Proof.
  revert n m. induction fuel as [|fuel IH]; intros n m Hn; cbn [digits]; [simpl; lia|].
  destruct (N.eqb_spec n 0) as [->|Hne]; [simpl; lia|]. cbn [length]. destruct m as [|m].
  { change (B ^ N.of_nat 0) with 1 in Hn. lia. }
  apply le_n_S, IH. apply N.Div0.div_lt_upper_bound.
  by rewrite Nat2N.inj_succ, N.pow_succ_r' in Hn.
Qed.

Lemma to_be_length n m : n < B ^ N.of_nat m → (length (to_be B n) ≤ m)%nat.
Proof. intros. unfold to_be. rewrite length_reverse. by apply digits_length. Qed.
End Positional.

(** ** Artifact types *)

Abbreviation ArtifactType := bytes (only parsing).

Definition ArtifactCLISession : ArtifactType := lit "cli".
Definition ArtifactDeveloper : ArtifactType := lit "dev".
Definition ArtifactDeveloperCredential : ArtifactType := ArtifactDeveloper.
Definition ArtifactBootstrap : ArtifactType := lit "bs".
Definition ArtifactBrowserSession : ArtifactType := lit "br".
Definition ArtifactRecoveryCode : ArtifactType := lit "rc".
Definition ArtifactOIDCState : ArtifactType := lit "st".
Definition ArtifactOIDCBinding : ArtifactType := lit "ob".
Definition ArtifactCSRF : ArtifactType := lit "cs".
Definition ArtifactWorkload : ArtifactType := lit "wl".
Definition ArtifactAutomation : ArtifactType := lit "au".
Definition ArtifactSCIM : ArtifactType := lit "scim".
Definition ArtifactInstanceConn : ArtifactType := lit "ic".
Definition ArtifactWorkspaceSession : ArtifactType := lit "ws".
Definition ArtifactHandoffState : ArtifactType := lit "hs".
Definition ArtifactHandoffCode : ArtifactType := lit "hc".
Definition ArtifactSignup : ArtifactType := lit "su".

Definition artifactFormatVersion : bytes := lit "1".
Definition bodyBytes : nat := 32.
Definition maxBodyChars : nat := 43.
Definition base62Alphabet : bytes :=
  lit "0123456789ABCDEFGHIJKLMNOPQRSTUVWXYZabcdefghijklmnopqrstuvwxyz".
Definition checksumChars : nat := 6.

Inductive bearer_error := ErrMalformedArtifact | ErrArtifactBody.

(** ** The encoder and the decoder *)

(** [base62Alphabet[d]]; every index in the sources is below 62. *)
Definition digit62 (d : N) : ascii := default "0"%char (base62Alphabet !! N.to_nat d).

(** [strings.IndexByte(base62Alphabet, c)], [None] for -1. *)
Definition index62 (c : ascii) : option N :=
  match list_find (c =.) base62Alphabet with
  | Some (i, _) => Some (N.of_nat i)
  | None => None
  end.

Definition isBase62 (c : ascii) : bool :=
  let n := code c in
  ((code "0"%char <=? n) && (n <=? code "9"%char))
  || ((code "A"%char <=? n) && (n <=? code "Z"%char))
  || ((code "a"%char <=? n) && (n <=? code "z"%char)).

(** The [for] loops that count leading zero bytes or zero digits. *)
Fixpoint leading (z : ascii) (s : bytes) : nat :=
  match s with
  | c :: t => if bool_decide (c = z) then S (leading z t) else O
  | [] => O
  end.

(** [new(big.Int).SetBytes] *)
Definition SetBytes (b : bytes) : N := value_be 256 (map code b).

(** [base62] *)
Definition base62 (b : bytes) : bytes :=
  let n := SetBytes b in
  replicate (leading nul b) "0"%char ++ reverse (map digit62 (digits 62 (N.size_nat n) n)).

Fixpoint decode_loop (n : N) (sv : bytes) : option N :=
  match sv with
  | [] => Some n
  | c :: sv =>
      match index62 c with
      | Some idx => decode_loop (n * 62 + idx) sv
      | None => None
      end
  end.

(** [n.Bytes()] *)
Definition big_Bytes (n : N) : bytes := map ascii_of_N (to_be 256 n).

(** [decodeBase62] *)
Definition decodeBase62 (sv : bytes) : option bytes :=
  match decode_loop 0 sv with
  | Some n => Some (replicate (leading "0"%char sv) nul ++ big_Bytes n)
  | None => None
  end.

(** The loop of [checksum] fills the buffer from the right. *)
Fixpoint checksum_loop (i : nat) (sum : N) (out : bytes) : bytes :=
  match i with
  | O => out
  | S i => checksum_loop i (sum / 62) (digit62 (sum mod 62) :: out)
  end.

(** [checksum] *)
Definition checksum (body : bytes) : bytes :=
  checksum_loop checksumChars (ChecksumIEEE body) [].

(** ** Minting and parsing *)

Definition underscore : ascii := "_"%char.

(** The value [NewArtifact] builds from its random bytes. *)
Definition artifact_value (t : ArtifactType) (raw : bytes) : bytes :=
  let body := base62 raw in
  lit "hik_" ++ artifactFormatVersion ++ [underscore] ++ t ++ [underscore] ++ body ++ checksum body.

(** [ArtifactVerifier] *)
Definition ArtifactVerifier (value : bytes) : bytes := Sum256 value.

(** [NewArtifact]; [rand] is what [rand.Read] put in the 32-byte buffer. *)
Definition NewArtifact (t : ArtifactType) (rand : option bytes) : result bearer_error (bytes * bytes) :=
  match rand with
  | None => Err ErrArtifactBody
  | Some raw => let value := artifact_value t raw in Ok (value, ArtifactVerifier value)
  end.

(** [ParseArtifact] *)
Definition ParseArtifact (value : bytes) (want : ArtifactType) : result bearer_error unit :=
  let malformed := Err ErrMalformedArtifact in
  match Split underscore value with
  | [p0; p1; p2; payload] =>
      if negb (bool_decide (p0 = lit "hik")) then malformed
      else if negb (bool_decide (p1 = artifactFormatVersion)) || negb (bool_decide (p2 = want))
      then malformed
      else if (length payload <=? checksumChars)%nat then malformed
      else
        let at_ := (length payload - checksumChars)%nat in
        let body := take at_ payload in
        let sum := drop at_ payload in
        if (maxBodyChars <? length body)%nat then malformed
        else match decodeBase62 body with
             | None => malformed
             | Some raw =>
                 if negb (length raw =? bodyBytes)%nat || negb (bool_decide (base62 raw = body))
                 then malformed
                 else if negb (forallb isBase62 sum) then malformed
                 else if negb (bool_decide (checksum body = sum)) then malformed
                 else Ok tt
             end
  | _ => malformed
  end.

(** ** Digits and characters *)

Lemma digit62_alphabet :
  forallb (λ d, bool_decide (index62 (digit62 (N.of_nat d)) = Some (N.of_nat d))
                && isBase62 (digit62 (N.of_nat d))) (seq 0 62) = true.
Proof. vm_compute. reflexivity. Qed.

Lemma digit62_spec d : d < 62 → index62 (digit62 d) = Some d ∧ isBase62 (digit62 d) = true.
Proof.
  intros Hd. pose proof digit62_alphabet as H. rewrite forallb_true in H.
  specialize (H (N.to_nat d) ltac:(apply elem_of_seq; lia)).
  rewrite N2Nat.id in H. apply andb_true_iff in H as [H%bool_decide_eq_true ?]. done.
Qed.

Lemma index62_spec c d : index62 c = Some d → c = digit62 d ∧ d < 62.
Proof.
  unfold index62. destruct (list_find _ _) as [[i x]|] eqn:E; intros [= <-].
  apply list_find_Some in E as (Hi & -> & _). unfold digit62. rewrite Nat2N.id, Hi. split; [done|].
  apply lookup_lt_Some in Hi. change (length base62Alphabet) with 62%nat in Hi. lia.
Qed.

Lemma digit62_inj d d' : d < 62 → d' < 62 → digit62 d = digit62 d' → d = d'.
Proof. intros [H _]%digit62_spec [H' _]%digit62_spec E. rewrite E in H. congruence. Qed.

Lemma digit62_no_underscore d : d < 62 → digit62 d ≠ underscore.
Proof. intros [_ H]%digit62_spec E. by rewrite E in H. Qed.

Lemma decode_loop_map n ds :
  Forall (λ d, d < 62) ds → decode_loop n (map digit62 ds) = Some (foldl (λ n d, n * 62 + d) n ds).
Proof.
  intros Hds. revert n. induction Hds as [|d ds Hd _ IH]; intros n; [done|].
  cbn [map decode_loop foldl]. by rewrite (proj1 (digit62_spec d Hd)).
Qed.

Lemma decode_loop_Some n sv m :
  decode_loop n sv = Some m →
  ∃ ds, sv = map digit62 ds ∧ Forall (λ d, d < 62) ds ∧ m = foldl (λ n d, n * 62 + d) n ds.
Proof.
  revert n. induction sv as [|c sv IH]; intros n; cbn [decode_loop].
  { intros [= ->]. by exists []. }
  destruct (index62 c) as [d|] eqn:Ei; [|done]. intros (ds & -> & Hds & ->)%IH.
  apply index62_spec in Ei as [-> Hd]. exists (d :: ds). by repeat constructor.
Qed.

(** *** Leading zeros *)

Fixpoint leading0 (l : list N) : nat :=
  match l with 0 :: l => S (leading0 l) | _ => O end.

Lemma leading_map (f : N → ascii) z l :
  Forall (λ d, f d = z ↔ d = 0) l → leading z (map f l) = leading0 l.
Proof.
  induction 1 as [|d l Hd _ IH]; [done|]. cbn [map leading leading0].
  destruct (decide (d = 0)) as [->|Hne].
  - rewrite bool_decide_true by tauto. by rewrite IH.
  - rewrite bool_decide_false by tauto. by destruct d.
Qed.

Lemma leading0_split l : ∃ r, l = replicate (leading0 l) 0 ++ r ∧ canonical r.
Proof.
  induction l as [|d l (r & Hl & Hr)]; [by exists []|].
  destruct d as [|p]; [|by exists (N.pos p :: l)].
  exists r. cbn [leading0 replicate app]. by rewrite <- Hl.
Qed.

Lemma leading0_app k r : canonical r → leading0 (replicate k 0 ++ r) = k.
Proof.
  intros Hr. induction k as [|k IH]; [|by cbn; rewrite IH]. by destruct r as [|[]].
Qed.

Lemma value_be_zeros B k r : value_be B (replicate k 0 ++ r) = value_be B r.
Proof. induction k as [|k IH]; [done|]. exact IH. Qed.

(** Rewriting digits from one base to another, keeping the leading zeros. *)
Definition transcode (B B' : N) (l : list N) : list N :=
  replicate (leading0 l) 0 ++ to_be B' (value_be B l).

Lemma transcode_lt B B' l : 2 ≤ B' → Forall (λ d, d < B') (transcode B B' l).
Proof.
  intros HB. apply Forall_app. split; [apply Forall_replicate; lia|by apply to_be_lt].
Qed.

Lemma transcode_inv B B' l :
  2 ≤ B → 2 ≤ B' → Forall (λ d, d < B) l → transcode B' B (transcode B B' l) = l.
Proof.
  intros HB HB' Hl. destruct (leading0_split l) as (r & Hr & Hc). unfold transcode at 1 2.
  rewrite leading0_app by (by apply to_be_canonical).
  unfold transcode. rewrite value_be_zeros, value_to_be by done.
  rewrite Hr at 2. rewrite value_be_zeros, to_be_value; [by rewrite <- Hr|done| |done].
  rewrite Hr in Hl. by apply Forall_app in Hl as [_ Hl].
Qed.

(** ** The codec *)

Lemma code_ascii d : d < 256 → code (ascii_of_N d) = d.
Proof. apply N_ascii_embedding. Qed.

Lemma ascii_code c : ascii_of_N (code c) = c.
Proof. apply ascii_N_embedding. Qed.

Lemma codes_lt b : Forall (λ d, d < 256) (map code b).
Proof. apply Forall_fmap, Forall_true. intros c. apply code_bound. Qed.

Lemma ascii_codes b : map ascii_of_N (map code b) = b.
Proof. rewrite map_map. rewrite (map_ext _ id); [apply map_id|apply ascii_code]. Qed.

Lemma codes_ascii l : Forall (λ d, d < 256) l → map code (map ascii_of_N l) = l.
Proof.
  induction 1 as [|d l Hd _ IH]; [done|]. cbn [map]. by rewrite IH, code_ascii.
Qed.

Lemma leading_codes b : leading nul b = leading0 (map code b).
Proof.
  rewrite <- (ascii_codes b) at 1. apply leading_map.
  eapply Forall_impl; [apply codes_lt|]. simpl. intros d Hd. split; [|by intros ->].
  intros E. apply (f_equal code) in E. by rewrite code_ascii in E.
Qed.

Lemma leading_digits ds : Forall (λ d, d < 62) ds → leading "0"%char (map digit62 ds) = leading0 ds.
Proof.
  intros Hds. apply leading_map. eapply Forall_impl; [done|]. simpl. intros d Hd.
  split; [|by intros ->]. intros E. by apply digit62_inj.
Qed.

Lemma base62_transcode b : base62 b = map digit62 (transcode 256 62 (map code b)).
Proof.
  unfold base62, transcode, to_be, SetBytes. rewrite map_app, leading_codes, (fmap_reverse digit62).
  f_equal. generalize (leading0 (map code b)). intros k. by induction k as [|k IH]; cbn; [|f_equal].
Qed.

Lemma decode_digits ds :
  Forall (λ d, d < 62) ds →
  decodeBase62 (map digit62 ds) = Some (map ascii_of_N (transcode 62 256 ds)).
Proof.
  intros Hds. unfold decodeBase62, transcode, big_Bytes. rewrite decode_loop_map by done.
  rewrite leading_digits, map_app by done. do 2 f_equal.
  generalize (leading0 ds). intros k. by induction k as [|k IH]; cbn; [|f_equal].
Qed.

Lemma decode_base62 b : decodeBase62 (base62 b) = Some b.
Proof.
  rewrite base62_transcode, decode_digits by (by apply transcode_lt).
  by rewrite transcode_inv, ascii_codes by (done || apply codes_lt).
Qed.

(** Every decodable string is canonical: the re-encoding test never fires. *)
Lemma base62_decode sv b : decodeBase62 sv = Some b → base62 b = sv.
Proof.
  intros Hd. pose proof Hd as Hd'. unfold decodeBase62 in Hd.
  destruct (decode_loop 0 sv) as [n|] eqn:El; [|done].
  apply decode_loop_Some in El as (ds & -> & Hds & _).
  rewrite decode_digits in Hd' by done. injection Hd' as <-.
  rewrite base62_transcode, codes_ascii by (by apply transcode_lt).
  by rewrite transcode_inv.
Qed.

Lemma base62_inj b b' : base62 b = base62 b' → b = b'.
Proof. intros E. pose proof (decode_base62 b) as H. rewrite E, decode_base62 in H. congruence. Qed.

Lemma base62_chars b c : c ∈ base62 b → ∃ d, d < 62 ∧ c = digit62 d.
Proof.
  rewrite base62_transcode. intros (d & -> & Hd)%list_elem_of_fmap. exists d. split; [|done].
  pose proof (transcode_lt 256 62 (map code b) ltac:(done)) as H. rewrite Forall_forall in H. by apply H.
Qed.

(** 256 bits never need more than [maxBodyChars] digits, however many of the
    leading bytes are zero. *)
Lemma body_room : forallb (λ k, 256 ^ N.of_nat (32 - k) <=? 62 ^ N.of_nat (43 - k)) (seq 0 33) = true.
Proof. vm_compute. reflexivity. Qed.

Lemma base62_length b : length b = bodyBytes → (length (base62 b) ≤ maxBodyChars)%nat.
Proof.
  intros Hb. rewrite base62_transcode, length_map. unfold transcode.
  rewrite length_app, length_replicate.
  destruct (leading0_split (map code b)) as (r & Hr & Hc).
  set (k := leading0 (map code b)) in *.
  assert (length r = 32 - k ∧ k ≤ 32)%nat as [Hlr Hk].
  { apply (f_equal length) in Hr. rewrite length_map, length_app, length_replicate, Hb in Hr.
    unfold bodyBytes in Hr. lia. }
  assert (length (to_be 62 (value_be 256 (map code b))) ≤ 43 - k)%nat as H; [|unfold maxBodyChars; lia].
  apply to_be_length; [done|]. rewrite Hr, value_be_zeros. eapply N.lt_le_trans.
  - apply (value_be_bound 256); [done|]. pose proof (codes_lt b) as H. rewrite Hr in H.
    by apply Forall_app in H as [_ H].
  - rewrite Hlr. pose proof body_room as H. rewrite forallb_true in H.
    apply N.leb_le, H, elem_of_seq. lia.
Qed.

(** A canonical body of 32 bytes is never empty. *)
Lemma base62_nonempty b : length b = bodyBytes → base62 b ≠ [].
Proof. intros Hb E. pose proof (decode_base62 b) as H. rewrite E in H. by injection H as <-. Qed.

(** ** The checksum *)

Lemma checksum_loop_length i s out : length (checksum_loop i s out) = (i + length out)%nat.
Proof. revert s out. induction i as [|i IH]; intros s out; [done|]. cbn. rewrite IH. cbn. lia. Qed.

Lemma checksum_length body : length (checksum body) = checksumChars.
Proof. apply checksum_loop_length. Qed.

Lemma checksum_loop_chars i s out c :
  c ∈ checksum_loop i s out → (∃ d, d < 62 ∧ c = digit62 d) ∨ c ∈ out.
Proof.
  revert s out. induction i as [|i IH]; intros s out; [by right|]. cbn.
  intros [?|[->|?]%elem_of_cons]%IH; [by left| |by right].
  left. eexists. split; [|done]. by apply N.mod_lt.
Qed.

Lemma checksum_chars body c : c ∈ checksum body → ∃ d, d < 62 ∧ c = digit62 d.
Proof. intros [?|[]%elem_of_nil]%checksum_loop_chars. done. Qed.

Lemma checksum_loop_inj i s s' out out' :
  length out = length out' → s < 62 ^ N.of_nat i → s' < 62 ^ N.of_nat i →
  checksum_loop i s out = checksum_loop i s' out' → s = s' ∧ out = out'.
Proof.
  revert s s' out out'. induction i as [|i IH]; intros s s' out out' Hl Hs Hs' E.
  { change (62 ^ N.of_nat 0) with 1 in *. cbn in E. split; [lia|done]. }
  rewrite Nat2N.inj_succ, N.pow_succ_r' in Hs, Hs'. cbn in E.
  apply IH in E as [Hq E]; [|by cbn; rewrite Hl|by apply N.Div0.div_lt_upper_bound..].
  injection E as Hd ->. split; [|done].
  apply digit62_inj in Hd; [|by apply N.mod_lt..].
  rewrite (N.div_mod s 62), (N.div_mod s' 62), Hq, Hd by done. done.
Qed.

Lemma checksum_inj b b' : checksum b = checksum b' → ChecksumIEEE b = ChecksumIEEE b'.
Proof.
  intros E. apply checksum_loop_inj in E as [? _]; try done.
  all: eapply N.lt_trans; [apply ChecksumIEEE_bound|done].
Qed.

(** ** The grammar *)

Lemma Split_none sep s : (sep ∉ s) → Split sep s = [s].
Proof.
  induction s as [|c s IH]; intros Hn; [done|]. apply not_elem_of_cons in Hn as [Hc Hn].
  simpl. rewrite bool_decide_false by congruence. by rewrite IH.
Qed.

Lemma Split_cons sep s l ls :
  Split sep s = l :: ls →
  (sep ∉ l) ∧ match ls with [] => s = l | _ => ∃ s', s = l ++ sep :: s' ∧ Split sep s' = ls end.
Proof.
  revert l ls. induction s as [|c s IH]; intros l ls; simpl.
  { intros [= <- <-]. split; [apply not_elem_of_nil|done]. }
  case_bool_decide as Hc.
  - intros [= <- <-]. split; [apply not_elem_of_nil|]. subst c.
    destruct (Split sep s) eqn:Es; [by destruct s; simpl in Es; repeat case_match|by exists s].
  - destruct (Split sep s) as [|l' ls'] eqn:Es; intros [= <- <-].
    + by destruct s; simpl in Es; repeat case_match.
    + destruct (IH _ _ eq_refl) as [Hn Hs].
      split; [apply not_elem_of_cons; split; congruence|].
      destruct ls' as [|l2 ls2]; [by rewrite Hs|]. destruct Hs as (s' & -> & Hs').
      by exists s'.
Qed.

Definition artifact_prefix (t : ArtifactType) : bytes :=
  lit "hik_" ++ artifactFormatVersion ++ [underscore] ++ t ++ [underscore].

Lemma artifact_value_prefix t raw :
  artifact_value t raw = artifact_prefix t ++ base62 raw ++ checksum (base62 raw).
Proof. unfold artifact_value, artifact_prefix. by rewrite <- !app_assoc. Qed.

Lemma artifact_prefix_app t p :
  artifact_prefix t ++ p
  = lit "hik" ++ underscore :: artifactFormatVersion ++ underscore :: t ++ underscore :: p.
Proof. unfold artifact_prefix. by rewrite <- !app_assoc. Qed.

(** The body determines the value, and the value the body. *)
Lemma artifact_value_inj t raw raw' : artifact_value t raw = artifact_value t raw' → raw = raw'.
Proof.
  rewrite !artifact_value_prefix. intros E%(inj (app _)).
  apply app_inj_2 in E as [E _]; [by apply base62_inj|by rewrite !checksum_length].
Qed.

Lemma payload_no_underscore raw : underscore ∉ base62 raw ++ checksum (base62 raw).
Proof.
  intros [(d & Hd & E)%base62_chars|(d & Hd & E)%checksum_chars]%elem_of_app;
    by apply (digit62_no_underscore d Hd).
Qed.

Lemma ParseArtifact_minted t raw :
  (underscore ∉ t) → length raw = bodyBytes → ParseArtifact (artifact_value t raw) t = Ok tt.
Proof.
  intros Ht Hraw. rewrite artifact_value_prefix. unfold ParseArtifact.
  set (payload := base62 raw ++ checksum (base62 raw)).
  rewrite artifact_prefix_app, (Split_line underscore (lit "hik")) by (by apply (bool_decide_unpack _)).
  rewrite (Split_line underscore artifactFormatVersion) by (by apply (bool_decide_unpack _)).
  rewrite Split_line, Split_none by (done || apply payload_no_underscore).
  rewrite !bool_decide_true by done. cbn [negb orb].
  assert (length payload = length (base62 raw) + checksumChars)%nat as Hp.
  { unfold payload. by rewrite length_app, checksum_length. }
  pose proof (base62_nonempty raw Hraw) as Hne. pose proof (base62_length raw Hraw).
  assert (0 < length (base62 raw))%nat by (destruct (base62 raw); [done|simpl; lia]).
  rewrite (proj2 (Nat.leb_gt _ _)) by lia. cbv zeta.
  replace (length payload - checksumChars)%nat with (length (base62 raw)) by lia.
  unfold payload. rewrite take_app_length, drop_app_length.
  rewrite (proj2 (Nat.ltb_ge _ _)) by lia. rewrite decode_base62, Hraw, Nat.eqb_refl.
  rewrite !bool_decide_true by done. cbn [negb orb].
  rewrite (proj2 (forallb_true _ _)); [done|].
  intros c (d & Hd & ->)%checksum_chars. by apply digit62_spec.
Qed.

Lemma ParseArtifact_Ok v t :
  ParseArtifact v t = Ok tt →
  (underscore ∉ t) ∧ ∃ raw, length raw = bodyBytes ∧ v = artifact_value t raw.
Proof.
  unfold ParseArtifact. destruct (Split underscore v) as [|p0 [|p1 [|p2 [|payload [|? ?]]]]] eqn:Es;
    try done.
  apply Split_cons in Es as [_ (v1 & -> & Es)]. apply Split_cons in Es as [_ (v2 & -> & Es)].
  apply Split_cons in Es as [Ht (v3 & -> & Es)]. apply Split_cons in Es as [_ ->].
  destruct (bool_decide_reflect (p0 = lit "hik")) as [->|]; [|done].
  destruct (bool_decide_reflect (p1 = artifactFormatVersion)) as [->|]; [|done].
  destruct (bool_decide_reflect (p2 = t)) as [->|]; [|done]. cbn [negb orb].
  destruct (Nat.leb_spec (length payload) checksumChars); [done|]. cbv zeta.
  set (at_ := (length payload - checksumChars)%nat).
  destruct (Nat.ltb_spec maxBodyChars (length (take at_ payload))); [done|].
  destruct (decodeBase62 (take at_ payload)) as [raw|] eqn:Ed; [|done].
  destruct (Nat.eqb_spec (length raw) bodyBytes) as [Hraw|]; [|done].
  destruct (bool_decide_reflect (base62 raw = take at_ payload)) as [Hb|]; [|done]. cbn [negb orb].
  destruct (forallb _ _); [|done]. cbn [negb].
  destruct (bool_decide_reflect (checksum (take at_ payload) = drop at_ payload)) as [Hc|]; [|done].
  intros _. split; [done|]. exists raw. split; [done|].
  rewrite artifact_value_prefix, Hb, Hc, take_drop.
  by rewrite artifact_prefix_app.
Qed.

Lemma ParseArtifact_error v t e : ParseArtifact v t = Err e → e = ErrMalformedArtifact.
Proof. unfold ParseArtifact. intros H. repeat case_match; congruence. Qed.

(** C39 The parser accepts exactly what minting can emit: a value parses as an
    artifact of type [t] if and only if [NewArtifact t] returns it for some 32
    random bytes, and those bytes and the type are determined by the value. *)
Theorem accepted_iff_mintable v t :
  ParseArtifact v t = Ok tt ↔
  (underscore ∉ t) ∧
  exists! raw, length raw = bodyBytes ∧ NewArtifact t (Some raw) = Ok (v, ArtifactVerifier v).
Proof.
  split.
  - intros (Ht & raw & Hraw & ->)%ParseArtifact_Ok. split; [done|]. exists raw. split; [done|].
    intros raw' [_ E]. apply (artifact_value_inj t). unfold NewArtifact in E. congruence.
  - intros (Ht & raw & [Hraw [= <-]] & _). by apply ParseArtifact_minted.
Qed.

(** A value is an artifact of at most one type. *)
Lemma ParseArtifact_type v t t' : ParseArtifact v t = Ok tt → ParseArtifact v t' = Ok tt → t = t'.
Proof.
  intros (Ht & raw & _ & ->)%ParseArtifact_Ok (Ht' & raw' & _ & E)%ParseArtifact_Ok.
  rewrite !artifact_value_prefix, !artifact_prefix_app in E.
  apply (inj (app _)) in E. injection E as E. apply (f_equal (Split underscore)) in E.
  rewrite !Split_line in E by done. by injection E as -> _.
Qed.

Lemma crc_same_window P x x' a w w' b :
  a ++ w ++ b = P ++ x → a ++ w' ++ b = P ++ x' →
  length w = length w' → (length w ≤ 4)%nat → x ≠ x' → ChecksumIEEE x ≠ ChecksumIEEE x'.
Proof.
  intros E E' Hl H4 Hx. apply (f_equal (drop (length P))) in E, E'.
  rewrite drop_app_length, !drop_app in E, E'. rewrite <- Hl in E'.
  rewrite <- E, <- E'. apply crc_burst.
  - by rewrite !length_drop, Hl.
  - rewrite length_drop. lia.
  - intros Hw. rewrite Hw in E. congruence.
Qed.

(** C34 A mistyped value is refused without a read: take a value that parses,
    replace a window of at most four characters (one character, or two swapped
    neighbours) lying on one side of the body's end, and the result parses as
    no artifact of that type. *)
Theorem damaged_artifact_refused a w w' b t :
  ParseArtifact (a ++ w ++ b) t = Ok tt →
  length w = length w' → (length w ≤ 4)%nat → w ≠ w' →
  (checksumChars ≤ length b ∨ length w + length b ≤ checksumChars)%nat →
  ParseArtifact (a ++ w' ++ b) t = Err ErrMalformedArtifact.
Proof.
  intros Hp Hl H4 Hne Hside.
  destruct (ParseArtifact (a ++ w' ++ b) t) as [[]|[]] eqn:Hp'; [exfalso|done|].
  2:{ by apply ParseArtifact_error in Hp'. }
  apply ParseArtifact_Ok in Hp as (_ & raw & _ & E). apply ParseArtifact_Ok in Hp' as (_ & raw' & _ & E').
  rewrite artifact_value_prefix in E, E'. set (x := base62 raw) in *. set (x' := base62 raw') in *.
  assert (x ≠ x') as Hx.
  { intros Hx. rewrite <- Hx, <- E in E'. apply (inj (app _)), app_inj_1 in E' as [? _]; done. }
  destruct Hside as [Hb|Hb].
  - rewrite <- (take_drop (length b - checksumChars) b) in E, E'.
    set (b0 := take _ b) in *. set (s := drop _ b) in *.
    assert (length s = checksumChars) as Hs by (unfold s; rewrite length_drop; lia).
    rewrite !(app_assoc _ _ s), (app_assoc _ x), (app_assoc _ x') in *.
    apply app_inj_2 in E as [E Hc]; [|by rewrite checksum_length].
    apply app_inj_2 in E' as [E' Hc']; [|by rewrite checksum_length].
    eapply crc_same_window; [exact E|exact E'|done..|].
    apply checksum_inj. by rewrite <- Hc, <- Hc'.
  - apply Hx. pose proof (f_equal length E) as El. pose proof (f_equal length E') as El'.
    rewrite !length_app, !checksum_length in El, El'.
    assert (∀ y z, length y = length x → a ++ z = artifact_prefix t ++ y ++ checksum y →
              y = drop (length (artifact_prefix t)) (take (length (artifact_prefix t) + length x) a)) as Hy.
    { intros y z Hly Hz. apply (f_equal (take (length (artifact_prefix t) + length x))) in Hz.
      rewrite take_app_le in Hz by lia. rewrite Hz, <- Hly, take_app_add', take_app_length by done.
      by rewrite drop_app_length. }
    etrans; [by eapply Hy|]. symmetry. eapply Hy; [lia|done].
Qed.

(** Two neighbours of the body swapped. *)
Lemma damaged_artifact_refused_witness :
  ParseArtifact (lit "hik_1_cli_oEh211G4c8wtVWM00my5rsNSFlKgaWqQ4mb8gdEqno4U3Lp3")
    ArtifactCLISession = Err ErrMalformedArtifact.
Proof.
  apply (damaged_artifact_refused (lit "hik_1_cli_") (lit "Eo") (lit "oE")
           (lit "h211G4c8wtVWM00my5rsNSFlKgaWqQ4mb8gdEqno4U3Lp3")).
  - vm_compute. reflexivity.
  - reflexivity.
  - vm_compute. lia.
  - discriminate.
  - left. vm_compute. lia.
Defined.
