(* ===== verification/JsonStrings.v ===== *)
(** * [encoding/json]: [json.Unmarshal] into a [[]string]

    The one JSON decoding authentication depends on: a session row's factor
    list. [null] and an array of strings and [null]s decode; every other
    document, well formed or not, is an error, so this is the whole behaviour. *)

From stdpp Require Import prelude strings list.
From Stdlib Require Import Ascii NArith.
From S2P Require Import Prelude FreeText Bytes.

Local Open Scope N_scope.

Definition json_ws (c : ascii) : bool :=
  bool_decide (c ∈ [" "%char; tab; cr; newline]).

Definition quote : ascii := ascii_of_N 34.
Definition backslash : ascii := ascii_of_N 92.

Definition hex_value (c : ascii) : option N :=
  let n := code c in
  if (48 <=? n) && (n <=? 57) then Some (n - 48)
  else if (65 <=? n) && (n <=? 70) then Some (n - 55)
  else if (97 <=? n) && (n <=? 102) then Some (n - 87)
  else None.

(** The four digits of [\uXXXX]. *)
Definition hex4 (s : bytes) : option (N * bytes) :=
  match s with
  | a :: b :: c :: d :: rest =>
      match hex_value a, hex_value b, hex_value c, hex_value d with
      | Some a, Some b, Some c, Some d => Some (((a * 16 + b) * 16 + c) * 16 + d, rest)
      | _, _, _, _ => None
      end
  | _ => None
  end.

(** [utf8.AppendRune] of a code point below 2^21 that is no surrogate. *)
Definition AppendRune (r : N) : bytes :=
  map ascii_of_N
    (if r <? 0x80 then [r]
     else if r <? 0x800 then [0xC0 + r / 64; 0x80 + r mod 64]
     else if r <? 0x10000 then [0xE0 + r / 4096; 0x80 + (r / 64) mod 64; 0x80 + r mod 64]
     else [0xF0 + r / 262144; 0x80 + (r / 4096) mod 64; 0x80 + (r / 64) mod 64; 0x80 + r mod 64]).

Definition is_high (r : N) : bool := (0xD800 <=? r) && (r <? 0xDC00).
Definition is_low (r : N) : bool := (0xDC00 <=? r) && (r <? 0xE000).

(** A [\u] escape already read as [r]: a high surrogate takes the low one that
    follows, a lone surrogate is U+FFFD. *)
Definition unicode_escape (r : N) (rest : bytes) : bytes * bytes :=
  if is_high r then
    match strip [backslash; "u"%char] rest with
    | Some rest' =>
        match hex4 rest' with
        | Some (r', rest'') =>
            if is_low r' then (AppendRune ((r - 0xD800) * 1024 + (r' - 0xDC00) + 0x10000), rest'')
            else (replacement, rest)
        | None => (replacement, rest)
        end
    | None => (replacement, rest)
    end
  else if is_low r then (replacement, rest)
  else (AppendRune r, rest).

Definition simple_escape (c : ascii) : option ascii :=
  if bool_decide (c ∈ [quote; backslash; "/"%char]) then Some c
  else if bool_decide (c = "b"%char) then Some (ascii_of_N 8)
  else if bool_decide (c = "f"%char) then Some (ascii_of_N 12)
  else if bool_decide (c = "n"%char) then Some newline
  else if bool_decide (c = "r"%char) then Some cr
  else if bool_decide (c = "t"%char) then Some tab
  else None.

(** A string after its opening quote: its content and what follows it. *)
Fixpoint json_string (fuel : nat) (s acc : bytes) : option (bytes * bytes) :=
  match fuel, s with
  | S fuel, c :: t =>
      if bool_decide (c = quote) then Some (acc, t)
      else if bool_decide (c = backslash) then
        match t with
        | e :: t' =>
            if bool_decide (e = "u"%char) then
              match hex4 t' with
              | Some (r, rest) =>
                  let '(out, rest) := unicode_escape r rest in json_string fuel rest (acc ++ out)
              | None => None
              end
            else match simple_escape e with
                 | Some x => json_string fuel t' (acc ++ [x])
                 | None => None
                 end
        | [] => None
        end
      else if code c <? 32 then None
      else match rune_width s with
           | Some n => json_string fuel (drop n s) (acc ++ take n s)
           | None => json_string fuel t (acc ++ replacement)
           end
  | _, _ => None
  end.

(** A string or [null], which leaves the zero value. *)
Definition json_element (s : bytes) : option (bytes * bytes) :=
  match s with
  | c :: t =>
      if bool_decide (c = quote) then json_string (length s) t []
      else match strip (lit "null") s with Some rest => Some ([], rest) | None => None end
  | [] => None
  end.

Fixpoint json_elements (fuel : nat) (s : bytes) (acc : list bytes) : option (list bytes * bytes) :=
  match fuel with
  | O => None
  | S fuel =>
      match json_element s with
      | None => None
      | Some (x, rest) =>
          match TrimLeft json_ws rest with
          | c :: rest =>
              if bool_decide (c = ","%char) then
                json_elements fuel (TrimLeft json_ws rest) (acc ++ [x])
              else if bool_decide (c = "]"%char) then Some (acc ++ [x], rest)
              else None
          | [] => None
          end
      end
  end.

Definition json_value (s : bytes) : option (list bytes * bytes) :=
  match s with
  | c :: t =>
      if bool_decide (c = "["%char) then
        match TrimLeft json_ws t with
        | d :: t' =>
            if bool_decide (d = "]"%char) then Some ([], t')
            else json_elements (length s) (d :: t') []
        | [] => None
        end
      else match strip (lit "null") s with Some rest => Some ([], rest) | None => None end
  | [] => None
  end.

(** [json.Unmarshal(data, &out)] with [out []string]; [None] is an error. *)
Definition UnmarshalStrings (data : bytes) : option (list bytes) :=
  match json_value (TrimLeft json_ws data) with
  | Some (out, rest) => if bool_decide (TrimLeft json_ws rest = []) then Some out else None
  | None => None
  end.

Definition quoted (s : bytes) : bytes := [quote] ++ s ++ [quote].

Example unmarshal_factors :
  UnmarshalStrings ([" "%char; "["%char] ++ quoted (lit "password") ++ lit " , "
                    ++ quoted (lit "webauth" ++ [backslash] ++ lit "u006e") ++ lit "]")
  = Some [lit "password"; lit "webauthn"].
Proof. vm_compute. reflexivity. Qed.

Example unmarshal_rejects :
  UnmarshalStrings ([quote] ++ lit "password" ++ [quote]) = None
  ∧ UnmarshalStrings (lit "[" ++ quoted (lit "a") ++ lit ",]") = None
  ∧ UnmarshalStrings (lit "[1]") = None ∧ UnmarshalStrings (lit "[] x") = None
  ∧ UnmarshalStrings (lit "null ") = Some [].
Proof. vm_compute. done. Qed.
