(* ===== verification/AuthnTables.v ===== *)
(** * Credential tables: the authentication half of [internal/store/authn]

    The rows authentication resolves a presented value to, the liveness
    predicates their types carry, the reads and the statements that create,
    slide, rotate, revoke and supersede them, and the epoch bump a restore runs
    ([human.go], [machine.go], [developer.go], [remote.go], [scim.go],
    [factors.go], [restore.go], [remote_pairing.go] and the queries they call).

    A [time.Time] is a count from the zero time, so [IsZero] is [= 0]. Rows are
    kept decoded; a row that does not decode is a failed read, which the client
    models with the other datastore faults. Postgres and SQLite run the same
    statements, so there is one model of both. *)

From stdpp Require Import prelude strings list.
From Stdlib Require Import Ascii.
From S2P Require Import Prelude FreeText Bytes Domain.

Local Open Scope Z_scope.

Definition IsZero (t : Z) : bool := bool_decide (t = 0).
Definition Before (t u : Z) : bool := bool_decide (t < u).

(** ** Rows *)

Record SessionRow := mkSessionRow {
  SR_ID : string; SR_PrincipalID : PrincipalID; SR_Artifact : string;
  SR_SessionGeneration : Z; SR_CredentialEpoch : Z;
  SR_AuthMethod : string; SR_Factors : bytes; SR_AuthenticatedAt : Z; SR_CeremonyID : string;
  SR_CreatedAt : Z; SR_LastSeenAt : Z; SR_IdleExpiresAt : Z; SR_AbsoluteExpiresAt : Z;
  SR_CSRFVerifier : bytes; SR_RequestingOrigin : string;
  SR_ProviderID : string; SR_OAuth2ProviderID : string; SR_SAMLProviderID : string;
  SR_EnrolmentRequired : bool }.

(** [SessionRow{}] *)
Definition zeroSession : SessionRow :=
  mkSessionRow "" "" "" 0 0 "" [] 0 "" 0 0 0 0 [] "" "" "" "" false.

Record DeveloperCredential := mkDeveloperCredential {
  DC_ID : string; DC_PrincipalID : PrincipalID; DC_AuthorityPrincipal : PrincipalID;
  DC_Scope : Scope; DC_PrefixHint : string; DC_ParentSessionID : string; DC_ProviderID : string;
  DC_OAuth2ProviderID : string; DC_SAMLProviderID : string; DC_AuthMethod : string;
  DC_AuthorityGeneration : Z; DC_CredentialEpoch : Z;
  DC_CreatedAt : Z; DC_ExpiresAt : Z; DC_RevokedAt : Z }.

Definition zeroDeveloper : DeveloperCredential :=
  mkDeveloperCredential "" "" "" zeroScope "" "" "" "" "" "" 0 0 0 0 0.

(** [DeveloperCredential.Live] *)
Definition developer_Live (c : DeveloperCredential) (now epoch : Z) : bool :=
  IsZero (DC_RevokedAt c) && bool_decide (DC_CredentialEpoch c = epoch) && Before now (DC_ExpiresAt c).

Definition LifetimeIndefinite : string := "indefinite".

Record MachineCredential := mkMachineCredential {
  MC_ID : string; MC_ServiceAccountID : string; MC_Kind : string; MC_Lifetime : string;
  MC_ExpiresAt : Z; MC_CredentialEpoch : Z; MC_CreatedAt : Z; MC_RevokedAt : Z; MC_LastUsedAt : Z }.

Definition zeroMachine : MachineCredential := mkMachineCredential "" "" "" "" 0 0 0 0 0.

(** [MachineCredential.Live] *)
Definition machine_Live (c : MachineCredential) (now epoch : Z) : bool :=
  if negb (IsZero (MC_RevokedAt c)) || negb (bool_decide (MC_CredentialEpoch c = epoch)) then false
  else bool_decide (MC_Lifetime c = LifetimeIndefinite) || Before now (MC_ExpiresAt c).

Record ServiceAccount := mkServiceAccount {
  SA_ID : string; SA_PrincipalID : PrincipalID; SA_Kind : PrincipalClass }.

Definition zeroServiceAccount : ServiceAccount := mkServiceAccount "" "" "".

Record InstanceConnection := mkInstanceConnection {
  IC_ProofBound : bool; IC_ID : string; IC_PrincipalID : PrincipalID; IC_Kind : string;
  IC_Lifetime : string; IC_ExpiresAt : Z; IC_CredentialEpoch : Z; IC_CreatedAt : Z;
  IC_RevokedAt : Z; IC_LastUsedAt : Z }.

Definition zeroConnection : InstanceConnection :=
  mkInstanceConnection false "" "" "" "" 0 0 0 0 0.

(** [InstanceConnection.Live] *)
Definition connection_Live (c : InstanceConnection) (now epoch : Z) : bool :=
  if negb (IsZero (IC_RevokedAt c)) || negb (bool_decide (IC_CredentialEpoch c = epoch)) then false
  else bool_decide (IC_Lifetime c = LifetimeIndefinite) || Before now (IC_ExpiresAt c).

Record SCIMCredential := mkSCIMCredential {
  SC_ID : string; SC_BindingID : string; SC_PrincipalID : PrincipalID; SC_CredentialEpoch : Z;
  SC_CreatedAt : Z; SC_ExpiresAt : Z; SC_RevokedAt : Z; SC_LastUsedAt : Z }.

(** [SCIMCredential.Live] *)
Definition scim_Live (c : SCIMCredential) (now : Z) : bool :=
  if negb (IsZero (SC_RevokedAt c)) then false
  else if negb (IsZero (SC_ExpiresAt c)) && negb (Before now (SC_ExpiresAt c)) then false
  else true.

(** A principal's columns authentication reads, and the account of a human. *)
Record AuthPrincipal := mkAuthPrincipal {
  AP_ID : PrincipalID; AP_Kind : string; AP_PrivacyState : string; AP_SessionGeneration : Z;
  AP_ReconciledEpoch : Z }.

Record Account := mkAccount { AC_ID : string; AC_PrincipalID : PrincipalID }.

(** A pending login challenge or workspace handoff, by its owner. *)
Record Pending := mkPending { PE_ID : string; PE_Owner : string; PE_Consumed : bool }.

(** A row beside the verifier column its index finds it by. *)
Record Stored (A : Type) := mkStored { st_verifier : bytes; st_row : A }.
Arguments mkStored {A}.
Arguments st_verifier {A}.
Arguments st_row {A}.

(** ** The tables

    [d_other_epochs] holds the epoch stamps of the scanned tables with no
    authentication leg here (authorities, factors, ceremonies, transactions, and
    the federated machine bindings, whose verifier is NULL).
    A table a restored archive may lack is [None] when the schema lacks it. *)
Record AuthDB := mkAuthDB {
  d_epoch : Z; d_restore_epoch : Z;
  d_principals : list AuthPrincipal; d_accounts : list Account;
  d_sessions : list (Stored SessionRow);
  d_machines : list (Stored MachineCredential); d_serviceAccounts : list ServiceAccount;
  d_connections : list (Stored InstanceConnection); d_scim : list (Stored SCIMCredential);
  d_developers : option (list (Stored DeveloperCredential));
  d_challenges : list Pending; d_handoffs : list Pending;
  d_other_epochs : list Z;
  d_oauth2_epochs : option (list Z); d_signup_epochs : option (list Z);
  d_invite_epochs : option (list Z); d_exchange_epochs : option (list Z) }.

Definition developers (db : AuthDB) : list (Stored DeveloperCredential) :=
  default [] (d_developers db).

(** ** Reads: [ErrNotFound] for no row, or for a row whose verifier differs *)

Definition found {A} (o : option A) : result error A :=
  match o with Some a => Ok a | None => Err ErrNotFound end.

Definition verifierMatches (stored presented : bytes) : bool := bool_decide (stored = presented).

(** [SELECT … WHERE verifier = ?], then the comparison on the resolved row. *)
Definition by_verifier {A} (rows : list (Stored A)) (v : bytes) : result error A :=
  match find (λ s, bool_decide (st_verifier s = v)) rows with
  | None => Err ErrNotFound
  | Some s => if verifierMatches (st_verifier s) v then Ok (st_row s) else Err ErrNotFound
  end.

Definition SessionByVerifier (db : AuthDB) (v : bytes) : result error SessionRow :=
  by_verifier (d_sessions db) v.

Definition SessionByID (db : AuthDB) (id : string) : result error SessionRow :=
  found (find (λ r, bool_decide (SR_ID r = id)) (map st_row (d_sessions db))).

Definition DeveloperCredentialByVerifier (db : AuthDB) (v : bytes) : result error DeveloperCredential :=
  by_verifier (developers db) v.

Definition MachineCredentialByVerifier (db : AuthDB) (v : bytes) : result error MachineCredential :=
  by_verifier (d_machines db) v.

Definition InstanceConnectionByVerifier (db : AuthDB) (v : bytes) : result error InstanceConnection :=
  by_verifier (d_connections db) v.

Definition SCIMCredentialByVerifier (db : AuthDB) (v : bytes) : result error SCIMCredential :=
  by_verifier (d_scim db) v.

Definition ServiceAccountByID (db : AuthDB) (id : string) : result error ServiceAccount :=
  found (find (λ a, bool_decide (SA_ID a = id)) (d_serviceAccounts db)).

(** [… WHERE id = ? AND privacy_state = 'active'] *)
Definition active_principal (db : AuthDB) (p : PrincipalID) : option AuthPrincipal :=
  find (λ a, bool_decide (AP_ID a = p) && bool_decide (AP_PrivacyState a = "active")) (d_principals db).

Definition PrincipalGeneration (db : AuthDB) (p : PrincipalID) : result error Z :=
  found (AP_SessionGeneration <$> active_principal db p).

Definition CredentialEpoch (db : AuthDB) : result error Z := Ok (d_epoch db).

Definition AccountByPrincipal (db : AuthDB) (p : PrincipalID) : result error Account :=
  match active_principal db p with
  | None => Err ErrNotFound
  | Some _ => found (find (λ a, bool_decide (AC_PrincipalID a = p)) (d_accounts db))
  end.

(** ** Writes *)

Definition with_sessions (f : list (Stored SessionRow) → list (Stored SessionRow)) (db : AuthDB) : AuthDB :=
  mkAuthDB (d_epoch db) (d_restore_epoch db) (d_principals db) (d_accounts db) (f (d_sessions db))
    (d_machines db) (d_serviceAccounts db) (d_connections db) (d_scim db) (d_developers db)
    (d_challenges db) (d_handoffs db) (d_other_epochs db) (d_oauth2_epochs db) (d_signup_epochs db)
    (d_invite_epochs db) (d_exchange_epochs db).

Definition with_principals (f : list AuthPrincipal → list AuthPrincipal) (db : AuthDB) : AuthDB :=
  mkAuthDB (d_epoch db) (d_restore_epoch db) (f (d_principals db)) (d_accounts db) (d_sessions db)
    (d_machines db) (d_serviceAccounts db) (d_connections db) (d_scim db) (d_developers db)
    (d_challenges db) (d_handoffs db) (d_other_epochs db) (d_oauth2_epochs db) (d_signup_epochs db)
    (d_invite_epochs db) (d_exchange_epochs db).

Definition with_pending (f g : list Pending → list Pending) (db : AuthDB) : AuthDB :=
  mkAuthDB (d_epoch db) (d_restore_epoch db) (d_principals db) (d_accounts db) (d_sessions db)
    (d_machines db) (d_serviceAccounts db) (d_connections db) (d_scim db) (d_developers db)
    (f (d_challenges db)) (g (d_handoffs db)) (d_other_epochs db) (d_oauth2_epochs db)
    (d_signup_epochs db) (d_invite_epochs db) (d_exchange_epochs db).

Definition with_epochs (epoch restore : Z) (db : AuthDB) : AuthDB :=
  mkAuthDB epoch restore (d_principals db) (d_accounts db) (d_sessions db)
    (d_machines db) (d_serviceAccounts db) (d_connections db) (d_scim db) (d_developers db)
    (d_challenges db) (d_handoffs db) (d_other_epochs db) (d_oauth2_epochs db) (d_signup_epochs db)
    (d_invite_epochs db) (d_exchange_epochs db).

Definition with_developers (f : list (Stored DeveloperCredential) → list (Stored DeveloperCredential))
    (db : AuthDB) : AuthDB :=
  mkAuthDB (d_epoch db) (d_restore_epoch db) (d_principals db) (d_accounts db) (d_sessions db)
    (d_machines db) (d_serviceAccounts db) (d_connections db) (d_scim db) (f <$> d_developers db)
    (d_challenges db) (d_handoffs db) (d_other_epochs db) (d_oauth2_epochs db) (d_signup_epochs db)
    (d_invite_epochs db) (d_exchange_epochs db).

(** [CreateSession]: the primary key and the verifier index refuse a duplicate. *)
Definition CreateSession (s : Stored SessionRow) (db : AuthDB) : result error AuthDB :=
  if existsb (λ t, bool_decide (SR_ID (st_row t) = SR_ID (st_row s))
                   || bool_decide (st_verifier t = st_verifier s)) (d_sessions db)
  then Err ErrConflict
  else Ok (with_sessions (λ l, l ++ [s]) db).

Definition update_session (id : string) (f : Stored SessionRow → Stored SessionRow) (db : AuthDB) : AuthDB :=
  with_sessions (map (λ s, if bool_decide (SR_ID (st_row s) = id) then f s else s)) db.

(** [TouchSession] *)
Definition TouchSession (id : string) (seen idleExpires : Z) : AuthDB → AuthDB :=
  update_session id (λ s, let r := st_row s in
    mkStored (st_verifier s)
      (mkSessionRow (SR_ID r) (SR_PrincipalID r) (SR_Artifact r) (SR_SessionGeneration r)
         (SR_CredentialEpoch r) (SR_AuthMethod r) (SR_Factors r) (SR_AuthenticatedAt r)
         (SR_CeremonyID r) (SR_CreatedAt r) seen idleExpires (SR_AbsoluteExpiresAt r)
         (SR_CSRFVerifier r) (SR_RequestingOrigin r) (SR_ProviderID r) (SR_OAuth2ProviderID r)
         (SR_SAMLProviderID r) (SR_EnrolmentRequired r))).

(** [RotateSessionFactors] *)
Definition RotateSessionFactors (id : string) (verifier factors : bytes) : AuthDB → AuthDB :=
  update_session id (λ s, let r := st_row s in
    mkStored verifier
      (mkSessionRow (SR_ID r) (SR_PrincipalID r) (SR_Artifact r) (SR_SessionGeneration r)
         (SR_CredentialEpoch r) (SR_AuthMethod r) factors (SR_AuthenticatedAt r)
         (SR_CeremonyID r) (SR_CreatedAt r) (SR_LastSeenAt r) (SR_IdleExpiresAt r)
         (SR_AbsoluteExpiresAt r) (SR_CSRFVerifier r) (SR_RequestingOrigin r) (SR_ProviderID r)
         (SR_OAuth2ProviderID r) (SR_SAMLProviderID r) false)).

Definition delete_sessions (P : SessionRow → bool) : AuthDB → AuthDB :=
  with_sessions (List.filter (λ s, negb (P (st_row s)))).

Definition DeleteSession (id : string) : AuthDB → AuthDB :=
  delete_sessions (λ r, bool_decide (SR_ID r = id)).

Definition DeleteSessionsForPrincipal (p : PrincipalID) : AuthDB → AuthDB :=
  delete_sessions (λ r, bool_decide (SR_PrincipalID r = p)).

(** [DELETE FROM sessions WHERE requesting_origin = ?]; an empty origin is stored
    as NULL, which no parameter equals. *)
Definition RevokeWorkspaceSessionsForOrigin (origin : string) : AuthDB → AuthDB :=
  delete_sessions (λ r, bool_decide (SR_RequestingOrigin r ≠ "") && bool_decide (SR_RequestingOrigin r = origin)).

Definition bump (P : AuthPrincipal → bool) (state : AuthPrincipal → string) : AuthDB → AuthDB :=
  with_principals (map (λ a, if P a then
    mkAuthPrincipal (AP_ID a) (AP_Kind a) (state a) (AP_SessionGeneration a + 1) (AP_ReconciledEpoch a)
    else a)).

(** [AdvanceGeneration]: the counter, then the owner's pending proofs. *)
Definition AdvanceGeneration (p : PrincipalID) (db : AuthDB) : AuthDB :=
  let db := bump (λ a, bool_decide (AP_ID a = p)) AP_PrivacyState db in
  let accounts := AC_ID <$> List.filter (λ a, bool_decide (AC_PrincipalID a = p)) (d_accounts db) in
  with_pending
    (List.filter (λ c, PE_Consumed c || negb (Contains accounts (PE_Owner c))))
    (List.filter (λ h, PE_Consumed h || negb (bool_decide (PE_Owner h = p)))) db.

(** [PrivacySetState] *)
Definition PrivacySetState (p : PrincipalID) (state : string) : AuthDB → AuthDB :=
  bump (λ a, bool_decide (AP_ID a = p) && bool_decide (AP_Kind a = "human")
             && negb (bool_decide (AP_PrivacyState a = "erased"))) (λ _, state).

(** [CreatePrincipal] and [CreateMachinePrincipal]: generation 1, reconciled at
    the restore epoch. *)
Definition CreatePrincipal (id : PrincipalID) (kind : string) (db : AuthDB) : result error AuthDB :=
  if existsb (λ a, bool_decide (AP_ID a = id)) (d_principals db) then Err ErrConflict
  else Ok (with_principals (λ l, l ++ [mkAuthPrincipal id kind "active" 1 (d_restore_epoch db)]) db).

(** [RevokeDeveloperCredential]: [… AND revoked_at IS NULL]. *)
Definition RevokeDeveloperCredential (id : string) (at_ : Z) : AuthDB → AuthDB :=
  with_developers (map (λ s, let c := st_row s in
    if bool_decide (DC_ID c = id) && IsZero (DC_RevokedAt c) then
      mkStored (st_verifier s)
        (mkDeveloperCredential (DC_ID c) (DC_PrincipalID c) (DC_AuthorityPrincipal c) (DC_Scope c)
           (DC_PrefixHint c) (DC_ParentSessionID c) (DC_ProviderID c) (DC_OAuth2ProviderID c)
           (DC_SAMLProviderID c) (DC_AuthMethod c) (DC_AuthorityGeneration c) (DC_CredentialEpoch c)
           (DC_CreatedAt c) (DC_ExpiresAt c) at_)
    else s)).

(** ** The restore epoch *)

Definition maxSaneEpoch : Z := Z.shiftl 1 32.

(** [COALESCE(MAX(credential_epoch), 0)] of one table, and [MAX] over the tables. *)
Definition max_epoch (l : list Z) : Z :=
  match l with [] => 0 | x :: l => foldl Z.max x l end.

Definition nextEpoch (v : Z) : result error Z :=
  if bool_decide (v < 0) || bool_decide (maxSaneEpoch < v)
  then Err (Loud "authn: credential epoch in restored state is outside the sane range")
  else Ok (int64 (v + 1)).

Definition epochs_of {A} (f : A → Z) (rows : list (Stored A)) : Z := max_epoch (f ∘ st_row <$> rows).

Definition MaxKnownCredentialEpoch (db : AuthDB) : Z :=
  max_epoch [d_epoch db; d_restore_epoch db; max_epoch (d_other_epochs db);
          epochs_of IC_CredentialEpoch (d_connections db);
          epochs_of MC_CredentialEpoch (d_machines db);
          epochs_of SC_CredentialEpoch (d_scim db);
          epochs_of SR_CredentialEpoch (d_sessions db)].

(** [restorePairingNextEpoch] *)
Definition restorePairingNextEpoch (db : AuthDB) (next : Z) : result error Z :=
  match d_invite_epochs db, d_exchange_epochs db with
  | None, None => Ok next
  | Some invites, Some exchanges =>
      let! v := nextEpoch (max_epoch [max_epoch invites; max_epoch exchanges]) in Ok (next `max` v)
  | _, _ => Err (Loud "authn: incomplete remote pairing schema")
  end.

(** [restoreDeveloperNextEpoch] *)
Definition restoreDeveloperNextEpoch (db : AuthDB) (next : Z) : result error Z :=
  match d_developers db with
  | None => restorePairingNextEpoch db next
  | Some rows =>
      let! v := nextEpoch (epochs_of DC_CredentialEpoch rows) in
      restorePairingNextEpoch db (next `max` v)
  end.

(** [restoreNextEpoch] *)
Definition restoreNextEpoch (db : AuthDB) : result error Z :=
  let! next := nextEpoch (MaxKnownCredentialEpoch db) in
  match d_oauth2_epochs db, d_signup_epochs db with
  | None, None => restoreDeveloperNextEpoch db next
  | Some oauth2, Some signups =>
      let! v := nextEpoch (max_epoch [max_epoch oauth2; max_epoch signups]) in
      restoreDeveloperNextEpoch db (next `max` v)
  | _, _ => Err (Loud "authn: refusing an unknown schema")
  end.

Definition MarkAllPrincipalsUnreconciled : AuthDB → AuthDB :=
  with_principals (map (λ a,
    mkAuthPrincipal (AP_ID a) (AP_Kind a) (AP_PrivacyState a) (AP_SessionGeneration a) 0)).

(** [AdvanceRestoreEpoch]; the approved handoffs retired are the unconsumed ones
    with an owner. *)
Definition AdvanceRestoreEpoch (db : AuthDB) : result error AuthDB :=
  let! next := restoreNextEpoch db in
  let db := MarkAllPrincipalsUnreconciled (with_epochs next next db) in
  Ok (with_pending (List.filter PE_Consumed)
        (List.filter (λ h, PE_Consumed h || bool_decide (PE_Owner h = ""))) db).
