(* ===== verification/Authentication.v ===== *)
(** * Authentication: [internal/authz/session.go], [machine.go], [developer.go],
    [artifact_admission.go], [activity.go] and [internal/operation]

    A presented bearer value becomes a live [AuthIdentity] inside the
    transaction. The state of a request is the [TxAuthorizer] of the chokepoint,
    the log of authentication reads, the two admission receipts of the request
    context (each a [sync.Once] with its outcome), the refusal stage, the
    activity hint and the node's memory of live sessions. The memory is an
    interface, [LiveSessions]; the limiter of [internal/admission] implements
    it.

    The clock, the request context, the database snapshot and the fault plan of
    its reads (the [n]th read fails with a driver error) are section variables. *)

From stdpp Require Import prelude gmap strings list.
From S2P Require Import Prelude FreeText Bytes Domain Tables Authorizer StateErr.
From S2P Require Import Digest Bearer JsonStrings AuthnTables.

Local Open Scope Z_scope.

(** ** Contracts: [internal/operation/contract.go] *)

Definition ArtifactHumanSession : string := "human-session".
Definition ArtifactMachineCredential : string := "machine-credential".
Definition ContractArtifactDeveloper : string := "developer-credential".
Definition ArtifactSCIMCredential : string := "scim-credential".
Definition ArtifactInstanceCredential : string := "instance-credential".
Definition ArtifactLocal : string := "local".

Record Contract := mkContract {
  Contract_ID : string; AuthorizationOperation : string;
  contract_formula : list string; contract_artifacts : list string }.

Definition NewContract (id authorizationOperation : string) (formula artifacts : list string)
  : result string Contract :=
  if bool_decide (id = "") then Err "operation: contract id is required"
  else if bool_decide (authorizationOperation = "")
  then Err "operation: authorization operation is required"
  else if bool_decide (length formula = 0%nat) then Err "operation: authorization formula is required"
  else if bool_decide (length artifacts = 0%nat) then Err "operation: artifact allowlist is required"
  else Ok (mkContract id authorizationOperation formula artifacts).

Definition NewArtifactContract (id : string) (artifacts : list string) : result string Contract :=
  if bool_decide (id = "") then Err "operation: contract id is required"
  else if bool_decide (length artifacts = 0%nat) then Err "operation: artifact allowlist is required"
  else Ok (mkContract id "" [] artifacts).

Definition Contract_AdmitsArtifact (c : Contract) (class : string) : bool :=
  Contains (contract_artifacts c) class.

(** ** Identities *)

(** [Identity] with the fields only authentication and the transport read; the
    chokepoint reads [core]. *)
Record AuthIdentity := mkAuthIdentity {
  core : Identity;
  Id_ProviderID : string; Id_OAuth2ProviderID : string; Id_SAMLProviderID : string;
  Id_Artifact : string; CredentialExpiresAt : Z;
  Assurance_Method : string; Assurance_AuthenticatedAt : Z; Assurance_CeremonyID : string;
  Id_CreatedAt : Z; Id_LastSeenAt : Z; Id_IdleExpiresAt : Z; Id_AbsoluteExpiresAt : Z;
  Id_CSRFVerifier : bytes; EnrolmentRequired : bool }.

(** An identity of a credential: no session, no assurance record. *)
Definition credentialIdentity (p authority : PrincipalID) (scope : Scope) (class : PrincipalClass)
    (id artifact : string) (expires created seen : Z) : AuthIdentity :=
  mkAuthIdentity (mkIdentity p authority scope class "" id []) "" "" "" artifact expires
    "" 0 "" created seen 0 0 [] false.

(** [WorkspaceArtifact] *)
Definition WorkspaceArtifact : string := "workspace".

(** ** The memory of live sessions *)

Class LiveSessions (Mem : Type) := {
  KnownLiveSession : Mem → bytes → option string;
  NoteLiveSession : Mem → bytes → string → Mem;
  ForgetLiveSession : Mem → bytes → Mem }.

(** ** The request context *)

Record ReqCtx := mkReqCtx {
  rq_wire : Ctx;
  rq_RequestOrigin : string;
  rq_contract : option Contract;
  rq_developerDelivery : bool;
  (** [WithPreauthenticationAdmission]: what its charge answers. *)
  rq_preauthentication : option (option error);
  (** [WithRequestAdmission]: what its charge answers for a session. *)
  rq_request : option (string → option error);
  (** Whether [WithLiveSessions], [TrackCallerActivity] and
      [WithRefusalReceipt] were applied, and the artifact-probe mark. *)
  rq_liveSessions : bool; rq_activity : bool; rq_receipt : bool; rq_probe : bool;
  rq_fault : nat → option string }.

(** [FromContext]: a contract counts when it has an id. *)
Definition FromContext (ctx : ReqCtx) : option Contract :=
  match rq_contract ctx with
  | Some c => if bool_decide (Contract_ID c ≠ "") then Some c else None
  | None => None
  end.

(** ** The state *)

Inductive Read :=
| RSessionByVerifier | RSessionByID | RGeneration | REpoch | RAccount
| RDeveloper | RMachine | RServiceAccount | RConnection | RSCIM.

#[export] Instance Read_eq_dec : EqDecision Read.
Proof. solve_decision. Defined.

Inductive RefusalStage := RefusalArtifact | RefusalAdmission.

Record CallerActivity := mkCallerActivity { act_lastSeenAt : Z; act_slideable : bool }.

Record AuState (Mem : Type) := mkAuState {
  au_az : AzState;
  au_reads : list Read;
  (** The receipts: [None] until the charge ran, then its outcome; the charges
      spent, and the verifier that spent the request's budget. *)
  au_pre : option (option error); au_preCharges : nat;
  au_req : option (option error); au_reqCharges : list string; au_budgeted : option bytes;
  au_stage : option RefusalStage;
  au_activity : option CallerActivity;
  au_mem : Mem }.
Arguments mkAuState {Mem}.
Arguments au_az {Mem}.
Arguments au_reads {Mem}.
Arguments au_pre {Mem}.
Arguments au_preCharges {Mem}.
Arguments au_req {Mem}.
Arguments au_reqCharges {Mem}.
Arguments au_budgeted {Mem}.
Arguments au_stage {Mem}.
Arguments au_activity {Mem}.
Arguments au_mem {Mem}.

Section Authentication.
Context {Mem : Type} `{LiveSessions Mem}.
Context (ctx : ReqCtx) (db : AuthDB) (now : Z).

Abbreviation St := (AuState Mem).
Abbreviation A := (StateErr.M St error).

(** *** State updates *)

Definition set_az (f : AzState → AzState) (s : St) : St :=
  mkAuState (f (au_az s)) (au_reads s) (au_pre s) (au_preCharges s) (au_req s) (au_reqCharges s)
    (au_budgeted s) (au_stage s) (au_activity s) (au_mem s).
Definition log_read (r : Read) (s : St) : St :=
  mkAuState (au_az s) (au_reads s ++ [r]) (au_pre s) (au_preCharges s) (au_req s) (au_reqCharges s)
    (au_budgeted s) (au_stage s) (au_activity s) (au_mem s).
Definition set_pre (o : option error) (s : St) : St :=
  mkAuState (au_az s) (au_reads s) (Some o) (S (au_preCharges s)) (au_req s) (au_reqCharges s)
    (au_budgeted s) (au_stage s) (au_activity s) (au_mem s).
Definition set_req (id : string) (o : option error) (s : St) : St :=
  mkAuState (au_az s) (au_reads s) (au_pre s) (au_preCharges s) (Some o) (au_reqCharges s ++ [id])
    (au_budgeted s) (au_stage s) (au_activity s) (au_mem s).
Definition set_budgeted (v : bytes) (s : St) : St :=
  mkAuState (au_az s) (au_reads s) (au_pre s) (au_preCharges s) (au_req s) (au_reqCharges s)
    (match au_budgeted s with None => Some v | b => b end)
    (au_stage s) (au_activity s) (au_mem s).
Definition set_stage (st : RefusalStage) (s : St) : St :=
  mkAuState (au_az s) (au_reads s) (au_pre s) (au_preCharges s) (au_req s) (au_reqCharges s)
    (au_budgeted s) (Some st) (au_activity s) (au_mem s).
Definition set_activity (a : CallerActivity) (s : St) : St :=
  mkAuState (au_az s) (au_reads s) (au_pre s) (au_preCharges s) (au_req s) (au_reqCharges s)
    (au_budgeted s) (au_stage s) (Some a) (au_mem s).
Definition set_mem (m : Mem) (s : St) : St :=
  mkAuState (au_az s) (au_reads s) (au_pre s) (au_preCharges s) (au_req s) (au_reqCharges s)
    (au_budgeted s) (au_stage s) (au_activity s) m.

(** *** Reads *)

(** One read of the snapshot: logged, and failing where the plan says so. *)
Definition read {X} (r : Read) (v : result error X) : A X := λ s,
  match rq_fault ctx (length (au_reads s)) with
  | Some msg => (log_read r s, Err (Loud msg))
  | None => (log_read r s, v)
  end.

(** *** Refusal observation: [audit.NoteRefusal] *)

Definition NoteRefusal (stage : RefusalStage) : A unit := λ s,
  let probe := match stage with RefusalArtifact => rq_probe ctx | RefusalAdmission => false end in
  if probe || negb (rq_receipt ctx) then (s, Ok tt)
  else match au_stage s, stage with
       | Some _, RefusalArtifact => (s, Ok tt)
       | _, _ => (set_stage stage s, Ok tt)
       end.

(** *** Admission: [internal/operation] *)

(** What a receipt answers: its error is noted on every call, not once. *)
Definition receipt_answer (o : option error) : A unit :=
  match o with
  | None => ret tt
  | Some e => do* _ := NoteRefusal RefusalAdmission in fail e
  end.

(** [AdmitPreauthentication] *)
Definition AdmitPreauthentication : A unit :=
  match rq_preauthentication ctx with
  | None => ret tt
  | Some answer =>
      do* r := gets au_pre in
      match r with
      | Some o => receipt_answer o
      | None => do* _ := modify (set_pre answer) in receipt_answer answer
      end
  end.

(** [AdmitRequest] *)
Definition AdmitRequest (sessionID : string) : A unit :=
  match rq_request ctx with
  | None => ret tt
  | Some charge =>
      if bool_decide (sessionID = "") then ret tt
      else
        do* r := gets au_req in
        match r with
        | Some o => receipt_answer o
        | None =>
            do* _ := modify (set_req sessionID (charge sessionID)) in
            receipt_answer (charge sessionID)
        end
  end.

(** [AdmitSessionPresentation] *)
Definition AdmitSessionPresentation (verifier : bytes) : A unit :=
  let attached := match rq_request ctx with Some _ => true | None => false end in
  do* m := gets au_mem in
  match (if rq_liveSessions ctx then KnownLiveSession m verifier else None) with
  | Some sessionID =>
      do* _ := AdmitRequest sessionID in
      if attached then modify (set_budgeted verifier) else ret tt
  | None =>
      do* paid := gets au_budgeted in
      if attached && bool_decide (paid = Some verifier) then ret tt
      else AdmitPreauthentication
  end.

Definition NoteSessionLive (verifier : bytes) (sessionID : string) : A unit :=
  if rq_liveSessions ctx
  then modify (λ s, set_mem (NoteLiveSession (au_mem s) verifier sessionID) s) else ret tt.

Definition ForgetSession (verifier : bytes) : A unit :=
  if rq_liveSessions ctx
  then modify (λ s, set_mem (ForgetLiveSession (au_mem s) verifier) s) else ret tt.

(** [recordCallerActivity] *)
Definition recordCallerActivity (id : AuthIdentity) : A unit :=
  if rq_activity ctx then
    modify (set_activity (mkCallerActivity (Id_LastSeenAt id)
      (bool_decide (SessionID (core id) ≠ "") || IsServiceAccountKind (PClass (core id)))))
  else ret tt.

(** *** Admission refusals: [artifact_admission.go] *)

Definition admission_event (id : string) (caller : AuthIdentity) (operationID class cause : string)
  : Event :=
  let c := core caller in
  let w := rq_wire ctx in
  mkEvent id "auth.artifact_class_refused" 1 (Now w)
    (mkActor (Principal c)
       (if bool_decide (CredentialID c = "") then SessionID c else CredentialID c))
    (AuthorityPrincipal c) (mkObject "api-operation" operationID) "failure"
    (SourceIP w) (UserAgent w) (Origin w)
    {[ "operation" := operationID; "artifact_class" := class; "cause" := cause ]}.

(** [refuseAdmission]; the request id it copies for correlation is left out of
    [Event]. *)
Definition refuseAdmission (caller : AuthIdentity) (operationID class cause : string) : A unit :=
  do* n := gets (λ s, minted (au_az s)) in
  match NewEventID (rq_wire ctx) n with
  | Err e => do* _ := modify (set_az (add_captureErr e)) in fail ErrNotFound
  | Ok id =>
      do* _ := modify (set_az (add_denial
        (mkDenial TrailInstance zeroScope (admission_event id caller operationID class cause)))) in
      fail ErrNotFound
  end.

(** [enrolmentGateAllows] *)
Definition enrolmentGateAllows (id : string) : bool :=
  Contains ["enrolTotpStart"; "enrolTotpConfirm"; "enrolPasskeyStart"; "enrolPasskeyFinish";
            "getTotpStatus"; "regenerateRecoveryCodes"; "whoami"; "logout"] id.

(** [AdmitOperation] *)
Definition AdmitOperation (caller : AuthIdentity) : A unit :=
  do* _ := AdmitRequest (SessionID (core caller)) in
  match FromContext ctx with
  | None =>
      if IsNetwork (rq_wire ctx) then fail ErrNotFound
      else if bool_decide (PClass (core caller) = ClassDeveloper) && negb (rq_developerDelivery ctx)
      then refuseAdmission caller "in-process" ContractArtifactDeveloper "class-mismatch"
      else ret tt
  | Some op =>
      let class := ContractArtifactClass (core caller) in
      if negb (Contract_AdmitsArtifact op class)
      then refuseAdmission caller (Contract_ID op) class "class-mismatch"
      else if EnrolmentRequired caller && negb (enrolmentGateAllows (Contract_ID op))
      then refuseAdmission caller (Contract_ID op) class "enrolment-required"
      else ret tt
  end.

(** *** Session resolution: [session.go] *)

(** A missing row is an ordinary outcome; any other error ends the call. *)
Definition optional {X} (zero : X) (m : A X) : A (X * bool) :=
  do* r := try m in
  match r with
  | Ok x => ret (x, true)
  | Err ErrNotFound => ret (zero, false)
  | Err e => fail e
  end.

(** The factor list of a row: empty text is no factors, bad text no session. *)
Definition row_factors (row : SessionRow) : option (list string) :=
  if bool_decide (SR_Factors row = []) then Some []
  else match UnmarshalStrings (SR_Factors row) with
       | Some l => Some (String.string_of_list_ascii <$> l)
       | None => None
       end.

(** The [switch] of [authenticateResolvedSession]. *)
Definition session_live (present : bool) (row : SessionRow) (generation : option Z) (epoch : Z) : bool :=
  if negb present then false
  else if negb (Before now (SR_IdleExpiresAt row)) || negb (Before now (SR_AbsoluteExpiresAt row))
  then false
  else if negb (bool_decide (generation = Some (SR_SessionGeneration row))) then false
  else if negb (bool_decide (epoch = SR_CredentialEpoch row)) then false
  else if bool_decide (row_factors row = None) then false
  else if bool_decide (SR_Artifact row = WorkspaceArtifact)
          && negb (bool_decide (SR_RequestingOrigin row = rq_RequestOrigin ctx)) then false
  else true.

Definition session_identity (row : SessionRow) (factors : list string) : AuthIdentity :=
  mkAuthIdentity
    (mkIdentity (SR_PrincipalID row) "" zeroScope ClassHuman (SR_ID row) "" factors)
    (SR_ProviderID row) (SR_OAuth2ProviderID row) (SR_SAMLProviderID row) (SR_Artifact row) 0
    (SR_AuthMethod row) (SR_AuthenticatedAt row) (SR_CeremonyID row) (SR_CreatedAt row)
    (SR_LastSeenAt row) (SR_IdleExpiresAt row) (SR_AbsoluteExpiresAt row) (SR_CSRFVerifier row)
    (SR_EnrolmentRequired row).

(** [authenticateResolvedSession]: the two reads a row or its absence costs. *)
Definition authenticateResolvedSession (row : SessionRow) (present : bool) : A AuthIdentity :=
  do* g := optional 0 (read RGeneration (PrincipalGeneration db (SR_PrincipalID row))) in
  do* epoch := read REpoch (CredentialEpoch db) in
  let generation := if g.2 then Some g.1 else None in
  if session_live present row generation epoch
  then ret (session_identity row (default [] (row_factors row)))
  else fail ErrUnauthenticated.

Definition grammatical (presented : bytes) (admits : list ArtifactType) : bool :=
  existsb (λ t, is_ok (ParseArtifact presented t)) admits.

(** [resolveSession] *)
Definition resolveSession (presented : bytes) (admits : list ArtifactType) : A AuthIdentity :=
  if bool_decide (presented = []) then fail ErrUnauthenticated
  else if negb (grammatical presented admits) then fail ErrUnauthenticated
  else
    let verifier := ArtifactVerifier presented in
    do* _ := AdmitSessionPresentation verifier in
    do* row := optional zeroSession (read RSessionByVerifier (SessionByVerifier db verifier)) in
    do* r := try (authenticateResolvedSession row.1 row.2) in
    match r with
    | Ok id => do* _ := NoteSessionLive verifier (SessionID (core id)) in ret id
    | Err ErrUnauthenticated => do* _ := ForgetSession verifier in fail ErrUnauthenticated
    | Err e => fail e
    end.

(** [if errors.Is(err, domain.ErrUnauthenticated) { audit.NoteRefusal(…) }] *)
Definition noting_refusal {X} (m : A X) : A X :=
  do* r := try m in
  match r with
  | Ok x => ret x
  | Err ErrUnauthenticated => do* _ := NoteRefusal RefusalArtifact in fail ErrUnauthenticated
  | Err e => fail e
  end.

(** [authenticateSession] *)
Definition authenticateSession (presented : bytes) (admits : list ArtifactType) : A AuthIdentity :=
  noting_refusal (resolveSession presented admits).

(** [AuthenticateSessionByID] *)
Definition AuthenticateSessionByID (id : string) : A AuthIdentity :=
  if bool_decide (id = "") then fail ErrUnauthenticated
  else
    do* row := optional zeroSession (read RSessionByID (SessionByID db id)) in
    authenticateResolvedSession row.1 row.2.

(** *** Credential legs: [machine.go], [developer.go] *)

(** [authenticateMachine] *)
Definition authenticateMachine (presented : bytes) : A AuthIdentity :=
  do* _ := AdmitPreauthentication in
  do* cred := optional zeroMachine
    (read RMachine (MachineCredentialByVerifier db (ArtifactVerifier presented))) in
  do* sa := optional zeroServiceAccount
    (read RServiceAccount (ServiceAccountByID db (MC_ServiceAccountID cred.1))) in
  do* epoch := read REpoch (CredentialEpoch db) in
  let c := cred.1 in
  if negb cred.2 || negb sa.2 || negb (machine_Live c now epoch) then fail ErrUnauthenticated
  else if negb (IsServiceAccountKind (SA_Kind sa.1)) then fail ErrUnauthenticated
  else ret (credentialIdentity (SA_PrincipalID sa.1) "" zeroScope (SA_Kind sa.1) (MC_ID c) (MC_Kind c)
              (MC_ExpiresAt c) (MC_CreatedAt c) (MC_LastUsedAt c)).

Definition type_name (t : ArtifactType) : string := String.string_of_list_ascii t.

(** [authenticateInstanceConnection] *)
Definition authenticateInstanceConnection (presented : bytes) : A AuthIdentity :=
  do* _ := AdmitPreauthentication in
  do* conn := optional zeroConnection
    (read RConnection (InstanceConnectionByVerifier db (ArtifactVerifier presented))) in
  do* epoch := read REpoch (CredentialEpoch db) in
  let c := conn.1 in
  if negb conn.2 || negb (connection_Live c now epoch) then fail ErrUnauthenticated
  else if IC_ProofBound c then fail ErrUnauthenticated
  else ret (credentialIdentity (IC_PrincipalID c) "" zeroScope ClassInstanceConn (IC_ID c)
              (type_name ArtifactInstanceConn) 0 (IC_CreatedAt c) (IC_LastUsedAt c)).

(** [authenticateDeveloper]; the recorded refusal's own error is discarded. *)
Definition authenticateDeveloper (presented : bytes) : A AuthIdentity :=
  do* _ := AdmitPreauthentication in
  do* cred := optional zeroDeveloper
    (read RDeveloper (DeveloperCredentialByVerifier db (ArtifactVerifier presented))) in
  let c := cred.1 in
  do* g := optional 0 (read RGeneration (PrincipalGeneration db (DC_AuthorityPrincipal c))) in
  do* epoch := read REpoch (CredentialEpoch db) in
  do* acc := optional (mkAccount "" "") (read RAccount (AccountByPrincipal db (DC_AuthorityPrincipal c))) in
  if negb cred.2 || negb g.2 || negb acc.2
     || negb (bool_decide (g.1 = DC_AuthorityGeneration c)) || negb (developer_Live c now epoch)
  then
    do* _ := try (refuseAdmission
      (credentialIdentity (DC_PrincipalID c) (DC_AuthorityPrincipal c) zeroScope ClassDeveloper
         (DC_ID c) "" 0 0 0) "delivery.fetch" "developer-credential" "invalid-developer-credential") in
    fail ErrUnauthenticated
  else ret (credentialIdentity (DC_PrincipalID c) (DC_AuthorityPrincipal c) (DC_Scope c) ClassDeveloper
              (DC_ID c) (type_name ArtifactDeveloper) (DC_ExpiresAt c) (DC_CreatedAt c) 0).

(** [resolveSCIMCaller] *)
Definition resolveSCIMCaller (presented : bytes) : A (AuthIdentity * string) :=
  if negb (is_ok (ParseArtifact presented ArtifactSCIM)) then fail ErrUnauthenticated
  else
    do* _ := AdmitPreauthentication in
    do* row := try (read RSCIM (SCIMCredentialByVerifier db (ArtifactVerifier presented))) in
    match row with
    | Err ErrNotFound => fail ErrUnauthenticated
    | Err e => fail e
    | Ok c =>
        if negb (scim_Live c now) then fail ErrUnauthenticated
        else
          do* epoch := read REpoch (CredentialEpoch db) in
          if negb (bool_decide (SC_CredentialEpoch c = epoch)) then fail ErrUnauthenticated
          else ret (credentialIdentity (SC_PrincipalID c) "" zeroScope ClassProvisioning (SC_ID c)
                      (type_name ArtifactSCIM) 0 0 0, SC_BindingID c)
    end.

(** [AuthenticateSCIMCaller] *)
Definition AuthenticateSCIMCaller (presented : bytes) : A (AuthIdentity * string) :=
  noting_refusal (resolveSCIMCaller presented).

(** *** The doors *)

Definition session_artifacts : list ArtifactType := [ArtifactCLISession; ArtifactBrowserSession].
Definition all_session_artifacts : list ArtifactType := session_artifacts ++ [ArtifactWorkspaceSession].

(** [resolveCaller] *)
Definition resolveCaller (presented : bytes) : A AuthIdentity :=
  let typed t := is_ok (ParseArtifact presented t) in
  if bool_decide (presented = []) then fail ErrUnauthenticated
  else
    do* id :=
      (if typed ArtifactDeveloper then authenticateDeveloper presented
       else if typed ArtifactWorkload || typed ArtifactAutomation then authenticateMachine presented
       else if IsNetwork (rq_wire ctx) && typed ArtifactSCIM
       then do* r := AuthenticateSCIMCaller presented in ret r.1
       else if typed ArtifactInstanceConn then authenticateInstanceConnection presented
       else authenticateSession presented all_session_artifacts) in
    do* _ := recordCallerActivity id in
    ret id.

(** [AuthenticateCaller] *)
Definition AuthenticateCaller (presented : bytes) : A AuthIdentity :=
  noting_refusal (resolveCaller presented).

(** [authenticateSessionSurface] *)
Definition authenticateSessionSurface (presented : bytes) (admitsWorkspace : bool)
    (inProcessArtifacts : list ArtifactType) : A AuthIdentity :=
  if IsNetwork (rq_wire ctx) then
    do* id := AuthenticateCaller presented in
    do* _ := AdmitOperation id in
    if bool_decide (SessionID (core id) = "")
       || negb admitsWorkspace && bool_decide (Id_Artifact id = WorkspaceArtifact)
    then fail ErrUnauthenticated else ret id
  else authenticateSession presented inProcessArtifacts.

(** [Authenticate], the account-security door. *)
Definition Authenticate (presented : bytes) : A AuthIdentity :=
  authenticateSessionSurface presented false session_artifacts.

(** [AuthenticateSelfSurface] *)
Definition AuthenticateSelfSurface (presented : bytes) : A AuthIdentity :=
  authenticateSessionSurface presented true all_session_artifacts.
End Authentication.
