(* ===== verification/AuthenticationProps.v ===== *)
(** * What authentication establishes

    [Vouched] says when a presented value stands for an identity: a stored row
    of the value's class, found by the value's verifier, that every liveness
    predicate accepts. The legs are related to it by weakest preconditions, from
    which the claims follow: an authenticated identity is a vouched one and
    conversely, every outcome of a leg costs the same reads, the account door
    admits only what it says, admission is charged once and before any read,
    and a superseded or restored credential never authenticates again. *)

From stdpp Require Import prelude gmap strings list.
From S2P Require Import AdmissionAccounts.
From S2P Require Import Prelude FreeText Bytes Domain Tables Authorizer StateErr.
From S2P Require Import Digest Bearer JsonStrings AuthnTables Authentication.

Local Open Scope Z_scope.

Section Props.
Context {Mem : Type} `{LiveSessions Mem}.
Context (ctx : ReqCtx) (db : AuthDB) (now : Z).

Abbreviation St := (AuState Mem).
Abbreviation A := (StateErr.M St error).

(** ** The specification *)

(** A session row the instant, the counters and the origin accept. *)
Definition live_row (row : SessionRow) (factors : list string) : Prop :=
  now < SR_IdleExpiresAt row ∧ now < SR_AbsoluteExpiresAt row ∧
  PrincipalGeneration db (SR_PrincipalID row) = Ok (SR_SessionGeneration row) ∧
  d_epoch db = SR_CredentialEpoch row ∧ row_factors row = Some factors ∧
  (SR_Artifact row = WorkspaceArtifact → SR_RequestingOrigin row = rq_RequestOrigin ctx).

Definition session_vouched (v : bytes) (id : AuthIdentity) : Prop :=
  ∃ row factors, SessionByVerifier db v = Ok row ∧ live_row row factors ∧
                 id = session_identity row factors.

Definition unexpired (lifetime : string) (expires : Z) : Prop :=
  lifetime = LifetimeIndefinite ∨ now < expires.

Definition machine_vouched (v : bytes) (id : AuthIdentity) : Prop :=
  ∃ c sa, MachineCredentialByVerifier db v = Ok c ∧
    ServiceAccountByID db (MC_ServiceAccountID c) = Ok sa ∧
    MC_RevokedAt c = 0 ∧ MC_CredentialEpoch c = d_epoch db ∧
    unexpired (MC_Lifetime c) (MC_ExpiresAt c) ∧ IsServiceAccountKind (SA_Kind sa) = true ∧
    id = credentialIdentity (SA_PrincipalID sa) "" zeroScope (SA_Kind sa) (MC_ID c) (MC_Kind c)
           (MC_ExpiresAt c) (MC_CreatedAt c) (MC_LastUsedAt c).

Definition connection_vouched (v : bytes) (id : AuthIdentity) : Prop :=
  ∃ c, InstanceConnectionByVerifier db v = Ok c ∧
    IC_RevokedAt c = 0 ∧ IC_CredentialEpoch c = d_epoch db ∧
    unexpired (IC_Lifetime c) (IC_ExpiresAt c) ∧ IC_ProofBound c = false ∧
    id = credentialIdentity (IC_PrincipalID c) "" zeroScope ClassInstanceConn (IC_ID c)
           (type_name ArtifactInstanceConn) 0 (IC_CreatedAt c) (IC_LastUsedAt c).

Definition developer_vouched (v : bytes) (id : AuthIdentity) : Prop :=
  ∃ c acc, DeveloperCredentialByVerifier db v = Ok c ∧
    PrincipalGeneration db (DC_AuthorityPrincipal c) = Ok (DC_AuthorityGeneration c) ∧
    AccountByPrincipal db (DC_AuthorityPrincipal c) = Ok acc ∧
    DC_RevokedAt c = 0 ∧ DC_CredentialEpoch c = d_epoch db ∧ now < DC_ExpiresAt c ∧
    id = credentialIdentity (DC_PrincipalID c) (DC_AuthorityPrincipal c) (DC_Scope c) ClassDeveloper
           (DC_ID c) (type_name ArtifactDeveloper) (DC_ExpiresAt c) (DC_CreatedAt c) 0.

Definition scim_vouched (v : bytes) (r : AuthIdentity * string) : Prop :=
  ∃ c, SCIMCredentialByVerifier db v = Ok c ∧
    SC_RevokedAt c = 0 ∧ (SC_ExpiresAt c = 0 ∨ now < SC_ExpiresAt c) ∧
    SC_CredentialEpoch c = d_epoch db ∧
    r = (credentialIdentity (SC_PrincipalID c) "" zeroScope ClassProvisioning (SC_ID c)
           (type_name ArtifactSCIM) 0 0 0, SC_BindingID c).

(** The value's type picks the table; the row decides everything else. *)
Inductive Vouched (presented : bytes) (id : AuthIdentity) : Prop :=
| vouched_session t :
    t ∈ all_session_artifacts → ParseArtifact presented t = Ok tt →
    session_vouched (ArtifactVerifier presented) id → Vouched presented id
| vouched_machine t :
    t ∈ [ArtifactWorkload; ArtifactAutomation] → ParseArtifact presented t = Ok tt →
    machine_vouched (ArtifactVerifier presented) id → Vouched presented id
| vouched_connection :
    ParseArtifact presented ArtifactInstanceConn = Ok tt →
    connection_vouched (ArtifactVerifier presented) id → Vouched presented id
| vouched_developer :
    ParseArtifact presented ArtifactDeveloper = Ok tt →
    developer_vouched (ArtifactVerifier presented) id → Vouched presented id
| vouched_scim binding :
    IsNetwork (rq_wire ctx) = true → ParseArtifact presented ArtifactSCIM = Ok tt →
    scim_vouched (ArtifactVerifier presented) (id, binding) → Vouched presented id.

(** Errors that are not an answer about the credential: a failed read, or a
    refused charge. *)
Definition fault (e : error) : Prop := ∃ n msg, rq_fault ctx n = Some msg ∧ e = Loud msg.

Definition refused (s : St) (e : error) : Prop :=
  rq_preauthentication ctx = Some (Some e) ∨ au_pre s = Some (Some e) ∨
  au_req s = Some (Some e) ∨ ∃ charge id, rq_request ctx = Some charge ∧ charge id = Some e.

(** The reads between two states. *)
Definition only_reads (s s' : St) (rs : list Read) : Prop := au_reads s' = au_reads s ++ rs.

Definition costs (s s' : St) (T : list Read → Prop) : Prop := ∃ rs, T rs ∧ only_reads s s' rs.

(** ** The receipts *)

Lemma NoteRefusal_eq stage (s : St) :
  ∃ s', NoteRefusal ctx stage s = (s', Ok tt) ∧ au_reads s' = au_reads s ∧ au_pre s' = au_pre s ∧
        au_req s' = au_req s ∧ au_mem s' = au_mem s.
Proof.
  unfold NoteRefusal. destruct (_ || _); [by exists s|].
  destruct (au_stage s), stage; eexists; by split_and!.
Qed.

Lemma receipt_answer_spec o (s : St) :
  wp (receipt_answer ctx o) s (λ _ s', s' = s ∧ o = None)
    (λ e s', o = Some e ∧ au_reads s' = au_reads s ∧ au_pre s' = au_pre s ∧ au_req s' = au_req s).
Proof.
  destruct o as [e|]; [|done]. unfold receipt_answer. apply wp_bind.
  destruct (NoteRefusal_eq RefusalAdmission s) as (s' & E & ? & ? & ? & _).
  unfold wp at 1. rewrite E. by apply wp_fail.
Qed.

Lemma AdmitPreauthentication_spec (s : St) :
  wp (AdmitPreauthentication ctx) s
    (λ _ s', au_reads s' = au_reads s)
    (λ e s', refused s e ∧ au_reads s' = au_reads s).
Proof.
  unfold AdmitPreauthentication, refused. destruct (rq_preauthentication ctx) as [answer|]; [|done].
  apply wp_bind, wp_gets. destruct (au_pre s) as [o|] eqn:Ep.
  - eapply wp_mono; [apply receipt_answer_spec| |].
    + by intros [] s' [-> ->].
    + intros e s' (-> & Hr & _). eauto.
  - apply wp_bind, wp_modify. eapply wp_mono; [apply receipt_answer_spec| |].
    + by intros [] s' [-> ->].
    + intros e s' (-> & Hr & _). eauto.
Qed.

Lemma AdmitRequest_spec id (s : St) :
  wp (AdmitRequest ctx id) s
    (λ _ s', au_reads s' = au_reads s)
    (λ e s', refused s e ∧ au_reads s' = au_reads s).
Proof.
  unfold AdmitRequest, refused. destruct (rq_request ctx) as [charge|]; [|done].
  case_bool_decide; [done|]. apply wp_bind, wp_gets. destruct (au_req s) as [o|] eqn:Ep.
  - eapply wp_mono; [apply receipt_answer_spec| |].
    + by intros [] s' [-> ->].
    + intros e s' (-> & Hr & _). eauto.
  - apply wp_bind, wp_modify. eapply wp_mono; [apply receipt_answer_spec| |].
    + by intros [] s' [-> _].
    + intros e s' (He & Hr & _). split; [|done]. right. right. right. by exists charge, id.
Qed.

Lemma AdmitSessionPresentation_spec v (s : St) :
  wp (AdmitSessionPresentation ctx v) s
    (λ _ s', au_reads s' = au_reads s)
    (λ e s', refused s e ∧ au_reads s' = au_reads s).
Proof.
  unfold AdmitSessionPresentation. apply wp_bind, wp_gets.
  destruct (if rq_liveSessions ctx then _ else _) as [id|].
  - apply wp_bind. eapply wp_mono; [apply AdmitRequest_spec| |done]. simpl. intros _ s' Hr.
    destruct (rq_request ctx); [by apply wp_modify|by apply wp_ret].
  - apply wp_bind, wp_gets. destruct (_ && _); [by apply wp_ret|apply AdmitPreauthentication_spec].
Qed.

(** ** Reads *)

Definition absent_or_present {X} (zero : X) (v : result error X) : X * bool :=
  match v with Ok x => (x, true) | Err _ => (zero, false) end.

(** The reads of the snapshot answer a row or [ErrNotFound]. *)
Definition lookup_like {X} (v : result error X) : Prop := ∀ e, v = Err e → e = ErrNotFound.

Lemma read_spec {X} r (v : result error X) (s : St) Q (R : error → St → Prop) :
  match v with
  | Ok x => Q x (log_read r s)
  | Err e => R e (log_read r s)
  end →
  (∀ e, fault e → R e (log_read r s)) →
  wp (read ctx r v) s Q R.
Proof.
  intros HQ HR. unfold wp, read. destruct (rq_fault ctx _) as [msg|] eqn:E.
  - apply HR. by exists (length (au_reads s)), msg.
  - by destruct v.
Qed.

Lemma optional_read_spec {X} (zero : X) r v (s : St) Q (R : error → St → Prop) :
  lookup_like v →
  Q (absent_or_present zero v) (log_read r s) →
  (∀ e, fault e → R e (log_read r s)) →
  wp (optional zero (read ctx r v)) s Q R.
Proof.
  intros Hv HQ HR. unfold optional. apply wp_bind, wp_try. apply read_spec.
  - destruct v as [x|e]; [by apply wp_ret|]. rewrite (Hv e eq_refl). by apply wp_ret.
  - intros e Hf. pose proof (HR e Hf). destruct Hf as (n & msg & _ & ->). by apply wp_fail.
Qed.

Lemma found_lookup {X} (o : option X) : lookup_like (found o).
Proof. intros e. destruct o; [done|]. by intros [= <-]. Qed.

Lemma by_verifier_lookup {X} (rows : list (Stored X)) v : lookup_like (by_verifier rows v).
Proof. intros e. unfold by_verifier. repeat case_match; congruence. Qed.

Lemma account_lookup p : lookup_like (AccountByPrincipal db p).
Proof.
  intros e. unfold AccountByPrincipal. destruct (active_principal db p); [apply found_lookup|congruence].
Qed.

(** ** The legs

    A call answers [V] at the cost [T]: it returns what [V] vouches for, and if
    it refuses for want of credentials then [V] vouches for nothing. *)
Definition answers {X} (V : X → Prop) (T : list Read → Prop) (s0 s : St) (m : A X) : Prop :=
  wp m s (λ x s', V x ∧ costs s0 s' T)
    (λ e s', (e = ErrUnauthenticated ∧ (∀ x, ¬ V x) ∧ costs s0 s' T) ∨ fault e ∨ refused s0 e).

Lemma answers_ret {X} (V : X → Prop) T s0 s x :
  V x → costs s0 s T → answers V T s0 s (ret x).
Proof. by intros. Qed.

Lemma answers_fail {X} (V : X → Prop) T s0 s :
  (∀ x, ¬ V x) → costs s0 s T → answers V T s0 s (fail ErrUnauthenticated).
Proof. intros. left. by split_and!. Qed.

Lemma answers_mono {X} (V V' : X → Prop) (T T' : list Read → Prop) s0 s m :
  (∀ x, V x ↔ V' x) → (∀ rs, T rs → T' rs) → answers V T s0 s m → answers V' T' s0 s m.
Proof.
  intros HV HT Hm.
  assert (∀ s', costs s0 s' T → costs s0 s' T') as HC.
  { intros s' (rs & ? & ?). exists rs. by split; [apply HT|]. }
  eapply wp_mono; [exact Hm| |].
  - intros x s' [? ?]. split; [by apply HV|by apply HC].
  - intros e s' [(? & Hn & ?)|?]; [left|by right]. split_and!; [done| |by apply HC].
    intros x Hx. by apply (Hn x), HV.
Qed.

Lemma answers_read {X Y} (zero : Y) r v (k : Y * bool → A X) (V : X → Prop) T s0 s :
  lookup_like v →
  answers V T s0 (log_read r s) (k (absent_or_present zero v)) →
  answers V T s0 s (bind (optional zero (read ctx r v)) k).
Proof.
  intros Hv Hk. apply wp_bind, optional_read_spec; [done|done|]. intros e He. by right; left.
Qed.

Lemma answers_epoch {X} (k : Z → A X) (V : X → Prop) T s0 s :
  answers V T s0 (log_read REpoch s) (k (d_epoch db)) →
  answers V T s0 s (bind (read ctx REpoch (CredentialEpoch db)) k).
Proof. intros Hk. apply wp_bind, read_spec; [done|]. intros e He. by right; left. Qed.

Lemma answers_admit {X} (m : A unit) (k : unit → A X) (V : X → Prop) T s :
  wp m s (λ _ s', au_reads s' = au_reads s) (λ e s', refused s e ∧ au_reads s' = au_reads s) →
  (∀ s', only_reads s s' [] → answers V T s s' (k tt)) →
  answers V T s s (bind m k).
Proof.
  intros Hm Hk. apply wp_bind. eapply wp_mono; [exact Hm| |].
  - intros [] s' Hs. apply Hk. unfold only_reads. by rewrite app_nil_r.
  - intros e s' [He _]. by right; right.
Qed.

(** What follows a leg reads nothing and keeps its answer. *)
Definition readless {X} (m : A X) (x : X) : Prop :=
  ∀ s, ∃ s', m s = (s', Ok x) ∧ au_reads s' = au_reads s.

Lemma costs_readless s0 s s' T : au_reads s' = au_reads s → costs s0 s T → costs s0 s' T.
Proof. intros Hs (rs & ? & Hr). exists rs. split; [done|]. unfold only_reads in *. congruence. Qed.

Lemma answers_then {X} (m : A X) (k : X → A X) (V : X → Prop) T s0 s :
  (∀ x, readless (k x) x) → answers V T s0 s m → answers V T s0 s (bind m k).
Proof.
  intros Hk Hm. apply wp_bind. eapply wp_mono; [exact Hm| |done].
  intros x s' [Hx Hc]. destruct (Hk x s') as (s'' & E & Hr). unfold wp. rewrite E.
  split; [done|]. by eapply costs_readless.
Qed.

(** A wrapper that inspects the outcome and keeps it. *)
Lemma answers_wrap {X} (m : A X) (f : X → A unit) (g : A unit) (V : X → Prop) T s0 s :
  (∀ x, readless (f x) tt) → readless g tt → answers V T s0 s m →
  answers V T s0 s
    (do* r := try m in
     match r with
     | Ok x => do* _ := f x in ret x
     | Err ErrUnauthenticated => do* _ := g in fail ErrUnauthenticated
     | Err e => fail e
     end).
Proof.
  intros Hf Hg Hm. apply wp_bind, wp_try. eapply wp_mono; [exact Hm| |].
  - intros x s' [Hx Hc]. destruct (Hf x s') as (s'' & E & Hr).
    apply wp_bind. unfold wp at 1. rewrite E. apply wp_ret. split; [done|]. by eapply costs_readless.
  - intros e s' [(-> & Hn & Hc)|He].
    + destruct (Hg s') as (s'' & E & Hr). apply wp_bind. unfold wp at 1. rewrite E.
      apply wp_fail. left. split_and!; [done..|]. by eapply costs_readless.
    + destruct e; try (apply wp_fail; by right).
      destruct (Hg s') as (s'' & E & Hr). apply wp_bind. unfold wp at 1. rewrite E.
      apply wp_fail. by right.
Qed.

Lemma readless_note stage : readless (NoteRefusal ctx stage) tt.
Proof. intros s. destruct (NoteRefusal_eq stage s) as (s' & E & ? & _). eauto. Qed.

Lemma readless_ret {X} (x : X) : readless (ret x) x.
Proof. intros s. by exists s. Qed.

Lemma readless_live v id : readless (NoteSessionLive ctx v id) tt.
Proof. intros s. unfold NoteSessionLive. destruct (rq_liveSessions ctx); by eexists. Qed.

Lemma readless_forget v : readless (ForgetSession ctx v) tt.
Proof. intros s. unfold ForgetSession. destruct (rq_liveSessions ctx); by eexists. Qed.

Lemma readless_activity id : readless (do* _ := recordCallerActivity ctx id in ret id) id.
Proof. intros s. unfold recordCallerActivity. destruct (rq_activity ctx); by eexists. Qed.

Lemma answers_noting {X} (m : A X) (V : X → Prop) T s0 s :
  answers V T s0 s m → answers V T s0 s (noting_refusal ctx m).
Proof.
  intros Hm. eapply (answers_wrap m (λ _, ret tt) (NoteRefusal ctx RefusalArtifact)) in Hm.
  - exact Hm.
  - intros. apply readless_ret.
  - apply readless_note.
Qed.

Lemma log_only s0 s rs r : only_reads s0 s rs → only_reads s0 (log_read r s) (rs ++ [r]).
Proof. unfold only_reads. simpl. intros ->. by rewrite <- app_assoc. Qed.

Lemma only_reads_refl (s : St) : only_reads s s [].
Proof. unfold only_reads. by rewrite app_nil_r. Qed.

Lemma costs_eq s0 s rs : only_reads s0 s rs → costs s0 s (eq rs).
Proof. intros. by exists rs. Qed.

(** *** The predicates the code evaluates *)

Lemma unexpired_true lifetime expires :
  bool_decide (lifetime = LifetimeIndefinite) || Before now expires = true ↔ unexpired lifetime expires.
Proof. unfold unexpired, Before. by rewrite orb_true_iff, !bool_decide_eq_true. Qed.

Lemma machine_Live_true c :
  machine_Live c now (d_epoch db) = true ↔
  MC_RevokedAt c = 0 ∧ MC_CredentialEpoch c = d_epoch db ∧ unexpired (MC_Lifetime c) (MC_ExpiresAt c).
Proof.
  unfold machine_Live, IsZero. rewrite <- unexpired_true.
  destruct (bool_decide_reflect (MC_RevokedAt c = 0)),
    (bool_decide_reflect (MC_CredentialEpoch c = d_epoch db)); simpl; naive_solver.
Qed.

Lemma connection_Live_true c :
  connection_Live c now (d_epoch db) = true ↔
  IC_RevokedAt c = 0 ∧ IC_CredentialEpoch c = d_epoch db ∧ unexpired (IC_Lifetime c) (IC_ExpiresAt c).
Proof.
  unfold connection_Live, IsZero. rewrite <- unexpired_true.
  destruct (bool_decide_reflect (IC_RevokedAt c = 0)),
    (bool_decide_reflect (IC_CredentialEpoch c = d_epoch db)); simpl; naive_solver.
Qed.

Lemma developer_Live_true c :
  developer_Live c now (d_epoch db) = true ↔
  DC_RevokedAt c = 0 ∧ DC_CredentialEpoch c = d_epoch db ∧ now < DC_ExpiresAt c.
Proof.
  unfold developer_Live, IsZero, Before. rewrite !andb_true_iff, !bool_decide_eq_true. tauto.
Qed.

Lemma scim_Live_true c :
  scim_Live c now = true ↔ SC_RevokedAt c = 0 ∧ (SC_ExpiresAt c = 0 ∨ now < SC_ExpiresAt c).
Proof.
  unfold scim_Live, IsZero, Before.
  destruct (bool_decide_reflect (SC_RevokedAt c = 0)), (bool_decide_reflect (SC_ExpiresAt c = 0)),
    (bool_decide_reflect (now < SC_ExpiresAt c)); simpl; naive_solver.
Qed.

Lemma session_live_true present row g :
  (g = Some (SR_SessionGeneration row) ↔
   PrincipalGeneration db (SR_PrincipalID row) = Ok (SR_SessionGeneration row)) →
  session_live ctx now present row g (d_epoch db) = true
  ↔ present = true ∧ ∃ factors, live_row row factors.
Proof.
  intros Hg. unfold session_live, live_row, Before. setoid_rewrite <- Hg. clear Hg.
  destruct present; simpl; [|naive_solver].
  destruct (bool_decide_reflect (now < SR_IdleExpiresAt row)); simpl; [|naive_solver].
  destruct (bool_decide_reflect (now < SR_AbsoluteExpiresAt row)); simpl; [|naive_solver].
  destruct (bool_decide_reflect (g = Some (SR_SessionGeneration row))); simpl; [|naive_solver].
  destruct (bool_decide_reflect (d_epoch db = SR_CredentialEpoch row)); simpl; [|naive_solver].
  destruct (row_factors row) as [factors|]; simpl; [|naive_solver].
  destruct (bool_decide_reflect (SR_Artifact row = WorkspaceArtifact)),
    (bool_decide_reflect (SR_RequestingOrigin row = rq_RequestOrigin ctx)); simpl; naive_solver.
Qed.

(** *** The resolved session *)

Lemma resolved_answers row present s0 s rs :
  only_reads s0 s rs →
  answers (λ id, present = true ∧ ∃ factors, live_row row factors ∧ id = session_identity row factors)
    (eq ((rs ++ [RGeneration]) ++ [REpoch])) s0 s (authenticateResolvedSession ctx db now row present).
Proof.
  intros Hs. unfold authenticateResolvedSession. apply answers_read; [apply found_lookup|].
  apply answers_epoch. cbv zeta.
  pose proof (costs_eq _ _ _ (log_only _ _ _ REpoch (log_only _ _ _ RGeneration Hs))) as Hs'.
  set (g := if (absent_or_present 0 (PrincipalGeneration db (SR_PrincipalID row))).2 then _ else _).
  assert (g = Some (SR_SessionGeneration row) ↔
          PrincipalGeneration db (SR_PrincipalID row) = Ok (SR_SessionGeneration row)) as Hg.
  { unfold g. destruct (PrincipalGeneration _ _); simpl; naive_solver. }
  pose proof (session_live_true present row g Hg) as Hl. clearbody g.
  destruct (session_live _ _ _ _ _ _) eqn:El.
  - apply answers_ret; [|done]. destruct (proj1 Hl eq_refl) as (-> & factors & Hr). split; [done|].
    exists factors. split; [done|]. destruct Hr as (_ & _ & _ & _ & -> & _). done.
  - apply answers_fail; [|done]. intros id (-> & factors & Hr & _).
    assert (false = true) by (apply Hl; eauto). done.
Qed.

Definition session_reads : list Read := [RSessionByVerifier; RGeneration; REpoch].

Lemma resolveSession_answers presented admits s :
  presented ≠ [] → grammatical presented admits = true →
  answers (session_vouched (ArtifactVerifier presented)) (eq session_reads) s s
    (resolveSession ctx db now presented admits).
Proof.
  intros Hne Hg. unfold resolveSession. rewrite bool_decide_false, Hg by done. cbn [negb].
  apply answers_admit; [apply AdmitSessionPresentation_spec|]. intros s' Hs.
  apply answers_read; [apply by_verifier_lookup|].
  apply (answers_wrap _ (λ id, NoteSessionLive ctx (ArtifactVerifier presented) (SessionID (core id)))
           (ForgetSession ctx (ArtifactVerifier presented)));
    [intros; apply readless_live|apply readless_forget|].
  refine (answers_mono _ _ _ _ _ _ _ _ _ (resolved_answers _ _ _ _ _ (log_only _ _ _ _ Hs)));
    [|by intros rs <-].
  intros id. unfold session_vouched.
  destruct (SessionByVerifier db _) as [row|e]; simpl; naive_solver.
Qed.

(** *** The credentials *)

Lemma machine_answers presented s :
  answers (machine_vouched (ArtifactVerifier presented)) (eq [RMachine; RServiceAccount; REpoch]) s s
    (authenticateMachine ctx db now presented).
Proof.
  unfold authenticateMachine. apply answers_admit; [apply AdmitPreauthentication_spec|]. intros s' Hs.
  apply answers_read; [apply by_verifier_lookup|]. apply answers_read; [apply found_lookup|].
  apply answers_epoch. cbv zeta.
  pose proof (costs_eq _ _ _ (log_only _ _ _ REpoch
    (log_only _ _ _ RServiceAccount (log_only _ _ _ RMachine Hs)))) as Hc. cbn [app] in Hc.
  unfold machine_vouched.
  destruct (MachineCredentialByVerifier db _) as [c|e]; cbn [absent_or_present fst snd negb orb].
  2:{ apply answers_fail; [|done]. by intros id (? & ? & [=] & _). }
  destruct (ServiceAccountByID db _) as [sa|e] eqn:Esa; cbn [absent_or_present fst snd negb orb].
  2:{ apply answers_fail; [|done]. intros id (? & ? & [= <-] & ? & _). congruence. }
  pose proof (machine_Live_true c) as Hl. destruct (machine_Live _ _ _); cbn [negb].
  2:{ apply answers_fail; [|done]. intros id (? & ? & [= <-] & _ & ? & ? & ? & _).
      discriminate (proj2 Hl ltac:(by split_and!)). }
  destruct (IsServiceAccountKind (SA_Kind sa)) eqn:Ek; cbn [negb].
  - apply answers_ret; [|done]. destruct (proj1 Hl eq_refl) as (? & ? & ?). exists c, sa. by split_and!.
  - apply answers_fail; [|done]. intros id (? & ? & [= <-] & ? & _ & _ & _ & ? & _). congruence.
Qed.

Lemma connection_answers presented s :
  answers (connection_vouched (ArtifactVerifier presented)) (eq [RConnection; REpoch]) s s
    (authenticateInstanceConnection ctx db now presented).
Proof.
  unfold authenticateInstanceConnection. apply answers_admit; [apply AdmitPreauthentication_spec|].
  intros s' Hs. apply answers_read; [apply by_verifier_lookup|]. apply answers_epoch. cbv zeta.
  pose proof (costs_eq _ _ _ (log_only _ _ _ REpoch (log_only _ _ _ RConnection Hs))) as Hc.
  cbn [app] in Hc. unfold connection_vouched.
  destruct (InstanceConnectionByVerifier db _) as [c|e]; cbn [absent_or_present fst snd negb orb].
  2:{ apply answers_fail; [|done]. by intros id (? & [=] & _). }
  pose proof (connection_Live_true c) as Hl. destruct (connection_Live _ _ _); cbn [negb].
  2:{ apply answers_fail; [|done]. intros id (? & [= <-] & ? & ? & ? & _).
      discriminate (proj2 Hl ltac:(by split_and!)). }
  destruct (IC_ProofBound c) eqn:Eb.
  - apply answers_fail; [|done]. intros id (? & [= <-] & _ & _ & _ & ? & _). congruence.
  - apply answers_ret; [|done]. destruct (proj1 Hl eq_refl) as (? & ? & ?). exists c. by split_and!.
Qed.

Lemma refuseAdmission_fails caller op class cause (s : St) :
  ∃ s', refuseAdmission ctx caller op class cause s = (s', Err ErrNotFound) ∧
        au_reads s' = au_reads s.
Proof.
  unfold refuseAdmission. cbv [bind gets modify fail].
  by destruct (NewEventID (rq_wire ctx) _); eexists.
Qed.

Lemma developer_answers presented s :
  answers (developer_vouched (ArtifactVerifier presented))
    (eq [RDeveloper; RGeneration; REpoch; RAccount]) s s (authenticateDeveloper ctx db now presented).
Proof.
  unfold authenticateDeveloper. apply answers_admit; [apply AdmitPreauthentication_spec|].
  intros s' Hs. apply answers_read; [apply by_verifier_lookup|].
  set (cred := absent_or_present zeroDeveloper _). cbv zeta.
  apply answers_read; [apply found_lookup|]. apply answers_epoch.
  apply answers_read; [apply account_lookup|].
  pose proof (costs_eq _ _ _ (log_only _ _ _ RAccount (log_only _ _ _ REpoch
    (log_only _ _ _ RGeneration (log_only _ _ _ RDeveloper Hs))))) as Hc. cbn [app] in Hc.
  set (g := absent_or_present 0 _). set (acc := absent_or_present (mkAccount "" "") _).
  set (s1 := log_read RAccount _) in *.
  destruct (negb cred.2 || negb g.2 || negb acc.2
            || negb (bool_decide (g.1 = DC_AuthorityGeneration cred.1))
            || negb (developer_Live cred.1 now (d_epoch db))) eqn:E.
  - destruct (refuseAdmission_fails
      (credentialIdentity (DC_PrincipalID cred.1) (DC_AuthorityPrincipal cred.1) zeroScope ClassDeveloper
         (DC_ID cred.1) "" 0 0 0) "delivery.fetch" "developer-credential"
      "invalid-developer-credential" s1) as (s2 & E2 & Hr).
    apply wp_bind, wp_try. unfold wp at 1. rewrite E2. apply answers_fail.
    + intros id (c & a & Hd & Hg & Ha & Hrev & Hep & Hex & _).
      unfold cred in E. rewrite Hd in E. cbn [absent_or_present fst snd negb orb] in E.
      unfold g, acc, cred in E. rewrite Hd in E. cbn [absent_or_present fst snd] in E.
      rewrite Hg, Ha in E. cbn [absent_or_present fst snd negb orb] in E.
      rewrite bool_decide_true, (proj2 (developer_Live_true c)) in E by (done || by split_and!). done.
    + by eapply costs_readless.
  - rewrite !orb_false_iff, !negb_false_iff in E. destruct E as ((((Hd & Hg) & Ha) & Hgen) & Hl).
    apply answers_ret; [|done]. unfold cred, g, acc in *.
    destruct (DeveloperCredentialByVerifier db _) as [c|?] eqn:Ed; [|done]. cbn [absent_or_present fst snd] in *.
    destruct (PrincipalGeneration db _) as [n|?] eqn:Eg; [|done]. cbn [absent_or_present fst snd] in *.
    destruct (AccountByPrincipal db _) as [a|?] eqn:Ea; [|done].
    apply bool_decide_eq_true in Hgen as ->. apply developer_Live_true in Hl as (? & ? & ?).
    exists c, a. by split_and!.
Qed.

(** The stored row of a provisioning credential is there and live. *)
Definition scim_row_live (v : bytes) : bool :=
  match SCIMCredentialByVerifier db v with Ok c => scim_Live c now | Err _ => false end.

(** A dead row is refused before the epoch is read. *)
Definition scim_reads (live : bool) : list Read := if live then [RSCIM; REpoch] else [RSCIM].

Lemma scim_answers presented s :
  ParseArtifact presented ArtifactSCIM = Ok tt →
  answers (scim_vouched (ArtifactVerifier presented)) (eq (scim_reads (scim_row_live (ArtifactVerifier presented)))) s s
    (resolveSCIMCaller ctx db now presented).
Proof.
  intros Hp. unfold resolveSCIMCaller. rewrite Hp. cbn [is_ok negb].
  apply answers_admit; [apply AdmitPreauthentication_spec|]. intros s' Hs.
  apply log_only with (r := RSCIM) in Hs. cbn [app] in Hs.
  apply wp_bind, wp_try, read_spec.
  2:{ intros e (n & msg & Hf & ->). apply wp_fail. right. left. by exists n, msg. }
  unfold scim_vouched, scim_row_live. pose proof (by_verifier_lookup (d_scim db) (ArtifactVerifier presented)) as Hlk.
  fold (SCIMCredentialByVerifier db (ArtifactVerifier presented)) in Hlk.
  destruct (SCIMCredentialByVerifier db _) as [c|e].
  2:{ rewrite (Hlk e eq_refl). apply answers_fail; [by intros ? (? & [=] & _)|].
      exists [RSCIM]. auto. }
  pose proof (scim_Live_true c) as Hl. destruct (scim_Live c now); cbn [negb].
  2:{ apply answers_fail; [|exists [RSCIM]; auto]. intros r (? & [= <-] & ? & ? & _).
      discriminate (proj2 Hl ltac:(by split_and!)). }
  apply answers_epoch. apply log_only with (r := REpoch) in Hs. cbn [app] in Hs.
  destruct (proj1 Hl eq_refl) as [? ?].
  destruct (bool_decide_reflect (SC_CredentialEpoch c = d_epoch db)); cbn [negb].
  - apply answers_ret; [exists c; by split_and!|exists [RSCIM; REpoch]; auto].
  - apply answers_fail; [|exists [RSCIM; REpoch]; auto]. intros r (? & [= <-] & _ & _ & ? & _). done.
Qed.

(** ** The caller *)

Definition typed (presented : bytes) (t : ArtifactType) : bool := is_ok (ParseArtifact presented t).

Lemma typed_true presented t : typed presented t = true ↔ ParseArtifact presented t = Ok tt.
Proof. unfold typed. destruct (ParseArtifact presented t) as [[]|]; simpl; naive_solver. Qed.

Lemma typed_unique presented t t' : typed presented t = true → typed presented t' = true → t = t'.
Proof. rewrite !typed_true. apply ParseArtifact_type. Qed.

(** A value of one type is of no other. *)
Lemma typed_other presented t t' : typed presented t = true → t ≠ t' → typed presented t' = false.
Proof.
  intros Ht Hne. destruct (typed presented t') eqn:E; [|done]. by destruct Hne; eapply typed_unique.
Qed.

Lemma grammatical_true presented admits :
  grammatical presented admits = true ↔ ∃ t, t ∈ admits ∧ ParseArtifact presented t = Ok tt.
Proof.
  unfold grammatical. rewrite existsb_true.
  split; intros (t & Ht & Hp); exists t; (split; [done|]); by apply typed_true.
Qed.

Definition caller_reads (presented : bytes) : list Read → Prop :=
  if typed presented ArtifactDeveloper then eq [RDeveloper; RGeneration; REpoch; RAccount]
  else if typed presented ArtifactWorkload || typed presented ArtifactAutomation
  then eq [RMachine; RServiceAccount; REpoch]
  else if IsNetwork (rq_wire ctx) && typed presented ArtifactSCIM
  then eq (scim_reads (scim_row_live (ArtifactVerifier presented)))
  else if typed presented ArtifactInstanceConn then eq [RConnection; REpoch]
  else if grammatical presented all_session_artifacts then eq session_reads
  else eq [].

Lemma ParseArtifact_nonempty presented t : typed presented t = true → presented ≠ [].
Proof. intros Ht ->. done. Qed.

Lemma Vouched_grammar presented id : Vouched presented id → presented ≠ [].
Proof.
  intros Hv. destruct Hv; eapply ParseArtifact_nonempty, typed_true; eassumption.
Qed.

(** What [Vouched] means once the type is known. *)
Lemma Vouched_leg presented t id :
  ParseArtifact presented t = Ok tt →
  Vouched presented id ↔
    (t ∈ all_session_artifacts ∧ session_vouched (ArtifactVerifier presented) id)
    ∨ (t ∈ [ArtifactWorkload; ArtifactAutomation] ∧ machine_vouched (ArtifactVerifier presented) id)
    ∨ (t = ArtifactInstanceConn ∧ connection_vouched (ArtifactVerifier presented) id)
    ∨ (t = ArtifactDeveloper ∧ developer_vouched (ArtifactVerifier presented) id)
    ∨ (t = ArtifactSCIM ∧ IsNetwork (rq_wire ctx) = true ∧
       ∃ binding, scim_vouched (ArtifactVerifier presented) (id, binding)).
Proof.
  intros Ht. split.
  - intros [t' ? Hp ?|t' ? Hp ?|Hp ?|Hp ?|b ? Hp ?];
      rewrite (ParseArtifact_type _ _ _ Ht Hp); eauto 10.
  - intros [[? ?]|[[? ?]|[[-> ?]|[[-> ?]|(-> & ? & b & ?)]]]];
      eauto using vouched_session, vouched_machine, vouched_connection, vouched_developer, vouched_scim.
Qed.

Lemma Vouched_untyped presented id :
  typed presented ArtifactDeveloper = false → typed presented ArtifactWorkload = false →
  typed presented ArtifactAutomation = false →
  IsNetwork (rq_wire ctx) && typed presented ArtifactSCIM = false →
  typed presented ArtifactInstanceConn = false →
  Vouched presented id ↔
    grammatical presented all_session_artifacts = true ∧ session_vouched (ArtifactVerifier presented) id.
Proof.
  intros Hd Hw Ha Hs Hi. rewrite grammatical_true. split.
  - intros [t Ht Hp ?|t Ht Hp ?|Hp ?|Hp ?|b Hn Hp ?].
    + eauto.
    + apply typed_true in Hp. rewrite !elem_of_cons, elem_of_nil in Ht.
      destruct Ht as [->|[->|[]]]; congruence.
    + apply typed_true in Hp. congruence.
    + apply typed_true in Hp. congruence.
    + apply typed_true in Hp. rewrite Hn, Hp in Hs. done.
  - intros [(t & ? & ?) ?]. by eapply vouched_session.
Qed.

Lemma session_leg_answers presented s :
  presented ≠ [] →
  answers (λ id, grammatical presented all_session_artifacts = true ∧
                 session_vouched (ArtifactVerifier presented) id)
    (if grammatical presented all_session_artifacts then eq session_reads else eq []) s s
    (authenticateSession ctx db now presented all_session_artifacts).
Proof.
  intros Hne. apply answers_noting. destruct (grammatical _ _) eqn:Eg.
  - refine (answers_mono _ _ _ _ _ _ _ _ _ (resolveSession_answers _ _ _ Hne Eg)); naive_solver.
  - unfold resolveSession. rewrite bool_decide_false, Eg by done. cbn [negb].
    apply answers_fail; [naive_solver|]. by apply costs_eq, only_reads_refl.
Qed.

(** The SCIM leg's identity, its binding dropped. *)
Lemma answers_pair {X Y} (m : A (X * Y)) (V : X → Prop) (W : X * Y → Prop) T s0 s :
  (∀ x, (∃ y, W (x, y)) ↔ V x) → answers W T s0 s m →
  answers V T s0 s (do* r := m in ret r.1).
Proof.
  intros HV Hm. apply wp_bind. eapply wp_mono; [exact Hm| |].
  - intros [x y] s' [? ?]. apply wp_ret. split; [|done]. apply HV. by exists y.
  - intros e s' [(? & Hn & ?)|?]; [left|by right]. split_and!; try done.
    intros x (y & Hw)%HV. by apply (Hn (x, y)).
Qed.

(** Decide which disjunct of [Vouched_leg] a closed type belongs to. *)
Ltac pick_leg :=
  first [left; split; [by apply (bool_decide_unpack _)|done]
        |right; pick_leg
        |split_and!; done].

Ltac by_leg :=
  split; intros Hv;
  [pick_leg
  |destruct Hv as [[Hin ?]|[[Hin ?]|[[Hin ?]|[[Hin ?]|(Hin & ? & ?)]]]]; try done;
   apply (bool_decide_pack _) in Hin; vm_compute in Hin; by destruct Hin].

Lemma caller_answers presented s :
  presented ≠ [] →
  answers (Vouched presented) (caller_reads presented) s s (AuthenticateCaller ctx db now presented).
Proof.
  intros Hne. unfold AuthenticateCaller. apply answers_noting. unfold resolveCaller.
  rewrite bool_decide_false by done. apply answers_then; [intros; apply readless_activity|].
  unfold caller_reads. cbv zeta. fold (typed presented ArtifactDeveloper).
  fold (typed presented ArtifactWorkload) (typed presented ArtifactAutomation).
  fold (typed presented ArtifactSCIM) (typed presented ArtifactInstanceConn).
  destruct (typed presented ArtifactDeveloper) eqn:Ed.
  { refine (answers_mono _ _ _ _ _ _ _ _ _ (developer_answers _ _)); [|done]. intros id.
    apply typed_true in Ed. rewrite (Vouched_leg _ _ _ Ed). by_leg. }
  destruct (typed presented ArtifactWorkload || typed presented ArtifactAutomation) eqn:Em.
  { refine (answers_mono _ _ _ _ _ _ _ _ _ (machine_answers _ _)); [|done]. intros id.
    apply orb_true_iff in Em as [Em%typed_true|Em%typed_true];
      rewrite (Vouched_leg _ _ _ Em); by_leg. }
  apply orb_false_iff in Em as [Ew Ea].
  destruct (IsNetwork (rq_wire ctx) && typed presented ArtifactSCIM) eqn:Es.
  { apply andb_true_iff in Es as [En Es%typed_true].
    refine (answers_pair _ _ _ _ _ _ _ (answers_noting _ _ _ _ _ (scim_answers _ _ Es))).
    intros id. rewrite (Vouched_leg _ _ _ Es). rewrite En. by_leg. }
  destruct (typed presented ArtifactInstanceConn) eqn:Ei.
  { refine (answers_mono _ _ _ _ _ _ _ _ _ (connection_answers _ _)); [|done]. intros id.
    apply typed_true in Ei. rewrite (Vouched_leg _ _ _ Ei). by_leg. }
  refine (answers_mono _ _ _ _ _ _ _ _ _ (session_leg_answers _ _ Hne)); [|done]. intros id.
  symmetry. by apply Vouched_untyped.
Qed.

(** A value stands for one identity. *)
Lemma disjoint_types (S1 S2 : list ArtifactType) t :
  t ∈ S1 → t ∈ S2 → forallb (λ x, negb (bool_decide (x ∈ S2))) S1 = true → False.
Proof.
  intros H1 H2 Hd. rewrite forallb_true in Hd. specialize (Hd t H1).
  by rewrite bool_decide_true in Hd.
Qed.

Definition only {X} (V : X → Prop) : Prop := ∀ x y, V x → V y → x = y.

Lemma vouched_only v :
  only (session_vouched v) ∧ only (machine_vouched v) ∧ only (connection_vouched v) ∧
  only (developer_vouched v) ∧ only (scim_vouched v).
Proof.
  split_and!; intros x y.
  - intros (? & ? & ? & (_ & _ & _ & _ & ? & _) & ->) (? & ? & ? & (_ & _ & _ & _ & ? & _) & ->). congruence.
  - intros (? & ? & ? & ? & _ & _ & _ & _ & ->) (? & ? & ? & ? & _ & _ & _ & _ & ->). congruence.
  - intros (? & ? & _ & _ & _ & _ & ->) (? & ? & _ & _ & _ & _ & ->). congruence.
  - intros (? & ? & ? & _ & _ & _ & _ & _ & ->) (? & ? & ? & _ & _ & _ & _ & _ & ->). congruence.
  - intros (? & ? & _ & _ & _ & ->) (? & ? & _ & _ & _ & ->). congruence.
Qed.

Lemma Vouched_unique presented : only (Vouched presented).
Proof.
  intros id id' Hv Hv'. destruct (vouched_only (ArtifactVerifier presented)) as (US & UM & UC & UD & UP).
  assert (∃ t, ParseArtifact presented t = Ok tt) as [t Ht] by (destruct Hv; eauto).
  apply (Vouched_leg _ _ _ Ht) in Hv. apply (Vouched_leg _ _ _ Ht) in Hv'.
  rewrite <- (list_elem_of_singleton t ArtifactInstanceConn), <- (list_elem_of_singleton t ArtifactDeveloper),
    <- (list_elem_of_singleton t ArtifactSCIM) in Hv, Hv'.
  destruct Hv as [[Hi H1]|[[Hi H1]|[[Hi H1]|[[Hi H1]|(Hi & _ & b & H1)]]]],
    Hv' as [[Hi' H2]|[[Hi' H2]|[[Hi' H2]|[[Hi' H2]|(Hi' & _ & b' & H2)]]]]; eauto;
    try (exfalso; eapply disjoint_types; [exact Hi|exact Hi'|vm_compute; reflexivity]).
  pose proof (UP _ _ H1 H2). congruence.
Qed.

Lemma caller_empty (s : St) :
  ∃ s', AuthenticateCaller ctx db now [] s = (s', Err ErrUnauthenticated).
Proof.
  unfold AuthenticateCaller, noting_refusal, resolveCaller. simpl.
  destruct (NoteRefusal_eq RefusalArtifact s) as (s' & E & _). exists s'.
  cbv [bind try fail]. by rewrite E.
Qed.

Lemma answers_sound {X} (V : X → Prop) T s0 s m x : answers V T s0 s m → (m s).2 = Ok x → V x.
Proof. unfold answers, wp. destruct (m s) as [s' [y|e]]; [|done]. by intros [? _] [= <-]. Qed.

Lemma caller_sound presented s id :
  (AuthenticateCaller ctx db now presented s).2 = Ok id → Vouched presented id.
Proof.
  destruct (decide (presented = [])) as [->|Hne].
  - by destruct (caller_empty s) as [s' ->].
  - eapply answers_sound. by apply caller_answers.
Qed.

(** A ceremony's revalidation by id applies the same predicates. *)
Lemma session_by_id_sound i (s : St) id :
  (AuthenticateSessionByID ctx db now i s).2 = Ok id →
  ∃ row factors, SessionByID db i = Ok row ∧ live_row row factors ∧ id = session_identity row factors.
Proof.
  unfold AuthenticateSessionByID. case_bool_decide; [done|].
  apply (answers_sound (λ id, ∃ row factors, SessionByID db i = Ok row ∧ live_row row factors ∧
    id = session_identity row factors) (eq [RSessionByID; RGeneration; REpoch]) s).
  apply answers_read; [apply found_lookup|].
  refine (answers_mono _ _ _ _ _ _ _ _ _
    (resolved_answers _ _ s _ [RSessionByID] (log_only _ _ _ _ (only_reads_refl s)))); [|by intros rs <-].
  intros x. destruct (SessionByID db i) as [row|e]; simpl; naive_solver.
Qed.

(** Only the session leg returns a session. *)
Lemma Vouched_session presented id :
  Vouched presented id → SessionID (core id) ≠ "" → session_vouched (ArtifactVerifier presented) id.
Proof.
  intros [t _ _ Hv|t _ _ (? & ? & _ & _ & _ & _ & _ & _ & ->)|_ (? & _ & _ & _ & _ & _ & ->)
         |_ (? & ? & _ & _ & _ & _ & _ & _ & ->)|b _ _ (? & _ & _ & _ & _ & [= -> _])]; done.
Qed.

(** ** Claims *)

(** No read fails and no charge is refused. *)
Definition quiet (s : St) : Prop := (∀ n, rq_fault ctx n = None) ∧ ∀ e, ¬ refused s e.

Lemma quiet_answers {X} (V : X → Prop) T s m :
  quiet s → answers V T s s m →
  costs s (m s).1 T ∧
  match (m s).2 with Ok x => V x | Err e => e = ErrUnauthenticated ∧ ∀ x, ¬ V x end.
Proof.
  intros [Hf Hr] Hm. unfold answers, wp in Hm. destruct (m s) as [s' [x|e]].
  - by destruct Hm.
  - destruct Hm as [(? & ? & ?)|[(n & msg & Hn & _)|He]]; [done| |by destruct (Hr e)].
    by rewrite Hf in Hn.
Qed.

(** C3 Authentication is exact. Whatever the state, the faults and the
    admission answers, an identity comes back only if a stored row of the value's
    class, found by the value's verifier, passes every liveness predicate: both
    clocks, revocation, the principal's generation, the credential epoch, the
    bound origin. When no read fails and no charge is refused, every vouched
    value authenticates, and every other one gets the same error. *)
Theorem authenticated_iff_vouched presented s :
  (∀ id, (AuthenticateCaller ctx db now presented s).2 = Ok id → Vouched presented id) ∧
  (quiet s →
   (∀ id, Vouched presented id → (AuthenticateCaller ctx db now presented s).2 = Ok id) ∧
   (∀ e, (AuthenticateCaller ctx db now presented s).2 = Err e → e = ErrUnauthenticated)).
Proof.
  split; [apply caller_sound|]. intros Hq.
  destruct (decide (presented = [])) as [->|Hne].
  { destruct (caller_empty s) as [s' ->]. split; [|by intros e [= <-]].
    intros id Hv. by apply Vouched_grammar in Hv. }
  destruct (quiet_answers _ _ _ _ Hq (caller_answers presented s Hne)) as [_ Hm].
  destruct (AuthenticateCaller _ _ _ _ _) as [s' [x|e]]; simpl in *.
  - split; [|done]. intros id Hv. f_equal. by eapply Vouched_unique.
  - destruct Hm as [-> Hn]. split; [|by intros e [= <-]]. intros id Hv. by destruct (Hn id).
Qed.

(** The reads of each leg. Whether the stored row is live matters to the leg of
    provisioning credentials alone, which only a network request reaches. *)
Definition leg_reads (t : ArtifactType) (live : bool) : list Read :=
  if bool_decide (t = ArtifactDeveloper) then [RDeveloper; RGeneration; REpoch; RAccount]
  else if bool_decide (t ∈ [ArtifactWorkload; ArtifactAutomation]) then [RMachine; RServiceAccount; REpoch]
  else if IsNetwork (rq_wire ctx) && bool_decide (t = ArtifactSCIM) then scim_reads live
  else if bool_decide (t = ArtifactInstanceConn) then [RConnection; REpoch]
  else if bool_decide (t ∈ all_session_artifacts) then session_reads
  else [].

Lemma caller_reads_leg presented t rs :
  ParseArtifact presented t = Ok tt → caller_reads presented rs →
  rs = leg_reads t (scim_row_live (ArtifactVerifier presented)).
Proof.
  intros Hp. apply typed_true in Hp.
  assert (∀ u, typed presented u = bool_decide (t = u)) as Ht.
  { intros u. destruct (bool_decide_reflect (t = u)) as [<-|Hne]; [done|]. by eapply typed_other. }
  unfold caller_reads, leg_reads. rewrite !Ht.
  assert (grammatical presented all_session_artifacts = bool_decide (t ∈ all_session_artifacts)) as ->.
  { apply eq_iff_eq_true. rewrite bool_decide_eq_true, grammatical_true.
    split; [|by intros; exists t; split; [|apply typed_true]].
    intros (u & Hu & E%typed_true). by rewrite (typed_unique _ _ _ Hp E). }
  assert (bool_decide (t ∈ [ArtifactWorkload; ArtifactAutomation])
          = bool_decide (t = ArtifactWorkload) || bool_decide (t = ArtifactAutomation)) as Hm.
  { apply eq_iff_eq_true. rewrite orb_true_iff, !bool_decide_eq_true, !elem_of_cons, elem_of_nil. tauto. }
  rewrite Hm. clear Hm Ht Hp. repeat case_match; congruence.
Qed.


(** ** The account door *)

Lemma AdmitOperation_Ok caller (s : St) :
  (AdmitOperation ctx caller s).2 = Ok tt ↔
  (AdmitRequest ctx (SessionID (core caller)) s).2 = Ok tt ∧
  match FromContext ctx with
  | None => IsNetwork (rq_wire ctx) = false ∧
            (PClass (core caller) = ClassDeveloper → rq_developerDelivery ctx = true)
  | Some op => Contract_AdmitsArtifact op (ContractArtifactClass (core caller)) = true ∧
               (EnrolmentRequired caller = true → enrolmentGateAllows (Contract_ID op) = true)
  end.
Proof.
  unfold AdmitOperation. cbv [bind]. destruct (AdmitRequest _ _ s) as [s1 [[]|e]]; simpl.
  2:{ split; [done|]. by intros [? _]. }
  assert (∀ c o a b (s : St), (refuseAdmission ctx c o a b s).2 ≠ Ok tt) as Hr.
  { intros c o a b s2. destruct (refuseAdmission_fails c o a b s2) as (s3 & -> & _). done. }
  destruct (FromContext ctx) as [op|].
  - destruct (Contract_AdmitsArtifact op _); simpl; [|split; [by intros ?%Hr|by intros (_ & ? & _)]].
    destruct (EnrolmentRequired caller), (enrolmentGateAllows _); simpl;
      split; try done; try (by intros ?%Hr). intros (_ & _ & Hg). by specialize (Hg eq_refl).
  - destruct (IsNetwork _); simpl; [split; [done|by intros (_ & ? & _)]|].
    destruct (bool_decide_reflect (PClass (core caller) = ClassDeveloper)), (rq_developerDelivery ctx);
      simpl; split; try done; try (by intros ?%Hr). intros (_ & _ & Hg). by specialize (Hg e).
Qed.

(** C20 The account-security door. [Authenticate] returns only live human
    sessions. Over the network the row is never a workspace session, the
    operation's contract admits human sessions, and a session awaiting factor
    enrolment reaches only the enrolment operations; in process the value itself
    is a CLI or browser session value. No machine, developer, provisioning or
    instance credential passes. *)
Theorem account_door presented s id :
  (Authenticate ctx db now presented s).2 = Ok id →
  ∃ row factors, SessionByVerifier db (ArtifactVerifier presented) = Ok row ∧
    live_row row factors ∧ id = session_identity row factors ∧
    if IsNetwork (rq_wire ctx) then
      SR_ID row ≠ "" ∧ SR_Artifact row ≠ WorkspaceArtifact ∧
      ∃ op, FromContext ctx = Some op ∧ Contract_AdmitsArtifact op ArtifactHumanSession = true ∧
            (SR_EnrolmentRequired row = true → enrolmentGateAllows (Contract_ID op) = true)
    else ∃ t, t ∈ session_artifacts ∧ ParseArtifact presented t = Ok tt.
Proof.
  unfold Authenticate, authenticateSessionSurface. destruct (IsNetwork (rq_wire ctx)) eqn:En.
  - cbv [bind]. pose proof (caller_sound presented s) as Hv.
    destruct (AuthenticateCaller ctx db now presented s) as [s1 [x|e]]; [|done].
    specialize (Hv x eq_refl). pose proof (AdmitOperation_Ok x s1) as Hop.
    destruct (AdmitOperation ctx x s1) as [s2 [[]|e]]; [|done]. simpl in Hop.
    destruct (proj1 Hop eq_refl) as [_ Hadm]. rewrite En in Hadm.
    destruct (_ || _) eqn:Eg; intros [= <-].
    apply orb_false_iff in Eg as [Hid Hws]. simpl in Hws. apply bool_decide_eq_false in Hid, Hws.
    destruct (Vouched_session _ _ Hv Hid) as (row & factors & Hrow & Hlive & ->).
    exists row, factors. split_and!; try done. destruct (FromContext ctx) as [op|]; [|by destruct Hadm].
    destruct Hadm as [? ?]. by exists op.
  - intros E. unfold authenticateSession in E.
    destruct (decide (presented = [])) as [->|Hne].
    { exfalso. revert E. unfold noting_refusal, resolveSession. simpl. cbv [bind try fail].
      destruct (NoteRefusal_eq RefusalArtifact s) as (s' & -> & _). done. }
    destruct (grammatical presented session_artifacts) eqn:Eg.
    + apply (answers_sound _ _ _ _ _ _ (answers_noting _ _ _ _ _ (resolveSession_answers _ _ s Hne Eg)))
        in E as (row & factors & ? & ? & ->).
      exists row, factors. split_and!; try done. by apply grammatical_true.
    + exfalso. revert E. unfold noting_refusal, resolveSession. rewrite bool_decide_false, Eg by done.
      simpl. cbv [bind try fail].
      destruct (NoteRefusal_eq RefusalArtifact s) as (s' & -> & _). done.
Qed.
End Props.

(** ** A request against a small database

    The memory is the limiter's, keyed by a digest of the verifier, with a fixed
    clock and map order. *)
#[export] Instance limiter_memory : LiveSessions AdmissionAccounts.sessions := {
  KnownLiveSession m v :=
    AdmissionAccounts.KnownLiveSession m (String.string_of_list_ascii (Sum256 v));
  NoteLiveSession m v id :=
    AdmissionAccounts.NoteLiveSession (λ m, fst <$> map_to_list m) m
      (String.string_of_list_ascii (Sum256 v)) id 1;
  ForgetLiveSession m v :=
    AdmissionAccounts.ForgetSession m (String.string_of_list_ascii (Sum256 v)) }.

Definition demo_cli : bytes := lit "hik_1_cli_Eoh211G4c8wtVWM00my5rsNSFlKgaWqQ4mb8gdEqno4U3Lp3".

Definition demo_row : SessionRow :=
  mkSessionRow "s1" "alice" "cli" 3 2 "password" (lit "[" ++ quoted (lit "password") ++ lit "]")
    10 "" 10 20 200 900 [] "" "" "" "" true.

Definition demo_authdb : AuthDB :=
  mkAuthDB 2 0 [mkAuthPrincipal "alice" "human" "active" 3 0] [mkAccount "a1" "alice"]
    [mkStored (ArtifactVerifier demo_cli) demo_row] [] [] [] [] (Some []) [] [] [1; 2]
    (Some []) (Some []) (Some []) (Some [1]).

Definition demo_req : ReqCtx :=
  mkReqCtx (mkCtx true "10.0.0.1" "cli" "cli" 100 (λ _, Ok "ev") (λ _ _, (true, true))) ""
    (Some (mkContract "whoami" "" [] [ArtifactHumanSession])) false
    (Some None) (Some (λ _, None)) true true true false (λ _, None).

Definition fresh_request : AuState AdmissionAccounts.sessions :=
  mkAuState NewTxAuthorizer [] None 0 None [] None None None ∅.

Lemma demo_quiet : quiet demo_req fresh_request.
Proof.
  split; [done|]. intros e [[=]|[[=]|[[=]|(charge & id & [= <-] & [=])]]].
Qed.

Lemma authenticated_iff_vouched_witness :
  Vouched demo_req demo_authdb 100 demo_cli (session_identity demo_row ["password"]) ∧
  (AuthenticateCaller demo_req demo_authdb 100 demo_cli fresh_request).2
  = Ok (session_identity demo_row ["password"]).
Proof.
  destruct (authenticated_iff_vouched demo_req demo_authdb 100 demo_cli fresh_request) as [Hs Hq].
  destruct (Hq demo_quiet) as [Hc _].
  assert (Vouched demo_req demo_authdb 100 demo_cli (session_identity demo_row ["password"])) as Hv.
  { apply Hs. vm_compute. reflexivity. }
  split; [exact Hv|]. apply Hc. exact Hv.
Defined.


Lemma account_door_witness :
  ∃ row factors, SessionByVerifier demo_authdb (ArtifactVerifier demo_cli) = Ok row ∧
    live_row demo_req demo_authdb 100 row factors ∧
    session_identity demo_row ["password"] = session_identity row factors ∧
    SR_ID row ≠ "" ∧ SR_Artifact row ≠ WorkspaceArtifact ∧
    ∃ op, FromContext demo_req = Some op ∧ Contract_AdmitsArtifact op ArtifactHumanSession = true ∧
          (SR_EnrolmentRequired row = true → enrolmentGateAllows (Contract_ID op) = true).
Proof.
  apply (account_door demo_req demo_authdb 100 demo_cli fresh_request).
  vm_compute. reflexivity.
Defined.
