(* ===== verification/AuthenticationHistory.v ===== *)
(** * Credentials over time

    Sequences of the statements that change the credential tables. A generation
    or epoch bump is what invalidates sessions nobody revokes one by one; here
    it is shown to be permanent, whatever runs afterwards. The epoch bump of a
    restore is shown to make every credential of the restored state inert,
    whatever stamps the archive carries. *)

From stdpp Require Import prelude gmap strings list.
From S2P Require Import AdmissionAccounts.
From S2P Require Import Prelude FreeText Bytes Domain Tables Authorizer StateErr.
From S2P Require Import Digest Bearer JsonStrings AuthnTables Authentication AuthenticationProps.

Local Open Scope Z_scope.

(** ** Histories *)

Inductive auth_op :=
| OCreateSession (s : Stored SessionRow)
| OTouchSession (id : string) (seen idle : Z)
| ORotateSessionFactors (id : string) (verifier factors : bytes)
| ODeleteSession (id : string)
| ODeleteSessionsForPrincipal (p : PrincipalID)
| ORevokeWorkspaceSessionsForOrigin (origin : string)
| OAdvanceGeneration (p : PrincipalID)
| OPrivacySetState (p : PrincipalID) (state : string)
| OCreatePrincipal (id : PrincipalID) (kind : string)
| ORevokeDeveloperCredential (id : string) (at_ : Z)
| OAdvanceRestoreEpoch.

(** A statement that fails rolls its transaction back. *)
Definition or_rollback (db : AuthDB) (r : result error AuthDB) : AuthDB :=
  match r with Ok db' => db' | Err _ => db end.

Definition apply_op (db : AuthDB) (op : auth_op) : AuthDB :=
  match op with
  | OCreateSession s => or_rollback db (CreateSession s db)
  | OTouchSession id seen idle => TouchSession id seen idle db
  | ORotateSessionFactors id v f => RotateSessionFactors id v f db
  | ODeleteSession id => DeleteSession id db
  | ODeleteSessionsForPrincipal p => DeleteSessionsForPrincipal p db
  | ORevokeWorkspaceSessionsForOrigin o => RevokeWorkspaceSessionsForOrigin o db
  | OAdvanceGeneration p => AdvanceGeneration p db
  | OPrivacySetState p state => PrivacySetState p state db
  | OCreatePrincipal id kind => or_rollback db (CreatePrincipal id kind db)
  | ORevokeDeveloperCredential id at_ => RevokeDeveloperCredential id at_ db
  | OAdvanceRestoreEpoch => or_rollback db (AdvanceRestoreEpoch db)
  end.

Definition run_ops (db : AuthDB) (ops : list auth_op) : AuthDB := foldl apply_op db ops.

(** Identifiers are minted fresh: no statement inserts session [i] or
    principal [p] again. *)
Definition reuses (i : string) (p : PrincipalID) (op : auth_op) : bool :=
  match op with
  | OCreateSession s => bool_decide (SR_ID (st_row s) = i)
  | OCreatePrincipal id _ => bool_decide (id = p)
  | _ => false
  end.

(** ** The epoch of a restore *)

Lemma max_epoch_ge l x : x ∈ l → x ≤ max_epoch l.
Proof.
  assert (∀ l a, a ≤ foldl Z.max a l ∧ ∀ x, x ∈ l → x ≤ foldl Z.max a l) as Hf.
  { clear. induction l as [|b l IH]; intros a; simpl; [split; [lia|by intros x ?%elem_of_nil]|].
    destruct (IH (a `max` b)) as [? Hx]. split; [lia|].
    intros x [->|?]%elem_of_cons; [lia|by apply Hx]. }
  destruct l as [|a l]; simpl; [by intros ?%elem_of_nil|].
  destruct (Hf l a) as [? Hx]. intros [->|?]%elem_of_cons; [lia|by apply Hx].
Qed.

Lemma nextEpoch_Ok v n : nextEpoch v = Ok n → n = v + 1 ∧ 0 ≤ v ≤ maxSaneEpoch.
Proof.
  unfold nextEpoch. destruct (_ || _) eqn:E; [done|]. intros [= <-].
  apply orb_false_iff in E as [?%bool_decide_eq_false ?%bool_decide_eq_false].
  assert (0 ≤ v ≤ maxSaneEpoch) as Hv by lia. split; [|done].
  assert (maxSaneEpoch = 4294967296) as Hm by done. unfold int64. rewrite Z.mod_small; lia.
Qed.

Lemma epochs_of_ge {X} (f : X → Z) rows s : s ∈ rows → f (st_row s) ≤ epochs_of f rows.
Proof. intros Hs. apply max_epoch_ge, list_elem_of_fmap. by exists s. Qed.

Lemma restorePairing_ge db next n : restorePairingNextEpoch db next = Ok n → next ≤ n.
Proof.
  unfold restorePairingNextEpoch. destruct (d_invite_epochs db), (d_exchange_epochs db); try done.
  - intros (v & _ & [= <-])%rbind_Ok. lia.
  - intros [= <-]. lia.
Qed.

Lemma restoreDeveloper_ge db next n :
  restoreDeveloperNextEpoch db next = Ok n →
  next ≤ n ∧ ∀ s, s ∈ developers db → DC_CredentialEpoch (st_row s) < n.
Proof.
  unfold restoreDeveloperNextEpoch, developers. destruct (d_developers db) as [rows|]; simpl.
  - intros (v & [-> _]%nextEpoch_Ok & Hp%restorePairing_ge)%rbind_Ok. split; [lia|].
    intros s Hs%(epochs_of_ge DC_CredentialEpoch). lia.
  - intros Hp%restorePairing_ge. split; [done|]. by intros s ?%elem_of_nil.
Qed.

Lemma restoreNextEpoch_ge db n :
  restoreNextEpoch db = Ok n →
  MaxKnownCredentialEpoch db < n ∧ ∀ s, s ∈ developers db → DC_CredentialEpoch (st_row s) < n.
Proof.
  unfold restoreNextEpoch. intros (next & [-> _]%nextEpoch_Ok & Hr)%rbind_Ok.
  destruct (d_oauth2_epochs db), (d_signup_epochs db); try done.
  - apply rbind_Ok in Hr as (v & _ & Hr). apply restoreDeveloper_ge in Hr as [? ?]. split; [lia|done].
  - apply restoreDeveloper_ge in Hr as [? ?]. split; [lia|done].
Qed.

(** Every scanned stamp is behind the new epoch. *)
Lemma restore_outruns db n :
  restoreNextEpoch db = Ok n →
  d_epoch db < n ∧
  (∀ s, s ∈ d_sessions db → SR_CredentialEpoch (st_row s) < n) ∧
  (∀ s, s ∈ d_machines db → MC_CredentialEpoch (st_row s) < n) ∧
  (∀ s, s ∈ d_connections db → IC_CredentialEpoch (st_row s) < n) ∧
  (∀ s, s ∈ d_scim db → SC_CredentialEpoch (st_row s) < n) ∧
  (∀ s, s ∈ developers db → DC_CredentialEpoch (st_row s) < n).
Proof.
  intros [Hm Hd]%restoreNextEpoch_ge. unfold MaxKnownCredentialEpoch in Hm.
  set (all := [d_epoch db; _; _; _; _; _; _]) in Hm.
  assert (∀ x, x ∈ all → x < n) as Ha by (intros x ?%max_epoch_ge; lia).
  assert (∀ x y, x ≤ y → y ∈ all → x < n) as Hb by (intros x y ? ?%Ha; lia).
  split_and!; [apply Ha; unfold all; set_solver| | | | |done];
    intros s Hs; (eapply Hb; [by eapply epochs_of_ge|unfold all; set_solver]).
Qed.

Lemma AdvanceRestoreEpoch_Ok db db' :
  AdvanceRestoreEpoch db = Ok db' →
  ∃ n, restoreNextEpoch db = Ok n ∧ d_epoch db' = n ∧ d_sessions db' = d_sessions db ∧
    d_machines db' = d_machines db ∧ d_connections db' = d_connections db ∧ d_scim db' = d_scim db ∧
    developers db' = developers db ∧
    d_principals db' = (λ a, mkAuthPrincipal (AP_ID a) (AP_Kind a) (AP_PrivacyState a)
                              (AP_SessionGeneration a) 0) <$> d_principals db ∧
    d_challenges db' = List.filter PE_Consumed (d_challenges db).
Proof. intros (n & Hn & [= <-])%rbind_Ok. by exists n. Qed.

Lemma by_verifier_elem {X} (rows : list (Stored X)) v x :
  by_verifier rows v = Ok x → ∃ s, s ∈ rows ∧ st_row s = x ∧ st_verifier s = v.
Proof.
  unfold by_verifier. destruct (find _ rows) as [s|] eqn:E; [|done].
  apply find_some in E as [Hin Hv%bool_decide_eq_true]. apply list_elem_of_In in Hin.
  destruct (verifierMatches _ _); [|done]. intros [= <-]. by exists s.
Qed.

(** C9 Restored credentials are inert. The archive is attacker-writable, so the
    state before the bump is arbitrary. If [AdvanceRestoreEpoch] succeeds then in
    the state it leaves no presented value authenticates, as a session, machine,
    developer, provisioning or instance credential, at any time and from any
    request; every principal is unreconciled and no pending login challenge is
    left. *)
Theorem restored_credentials_inert {Mem} `{LiveSessions Mem} db db' :
  AdvanceRestoreEpoch db = Ok db' →
  (∀ ctx now presented (s : AuState Mem) id,
     (AuthenticateCaller ctx db' now presented s).2 ≠ Ok id) ∧
  (∀ a, a ∈ d_principals db' → AP_ReconciledEpoch a = 0) ∧
  (∀ c, c ∈ d_challenges db' → PE_Consumed c = true).
Proof.
  intros (n & Hn & He & Hs & Hm & Hc & Hp & Hd & Hpr & Hch)%AdvanceRestoreEpoch_Ok.
  destruct (restore_outruns db n Hn) as (_ & Os & Om & Oc & Op & Od).
  split_and!.
  - intros ctx now presented s id E%caller_sound.
    destruct E as [t _ _ (r & f & Hr & (_ & _ & _ & Hep & _) & _)|t _ _ (c & sa & Hr & _ & _ & Hep & _)
                  |_ (c & Hr & _ & Hep & _)|_ (c & acc & Hr & _ & _ & _ & Hep & _)
                  |b _ _ (c & Hr & _ & _ & Hep & _)];
      apply by_verifier_elem in Hr as (row & Hin & <- & _); rewrite He in Hep.
    + rewrite Hs in Hin. specialize (Os _ Hin). lia.
    + rewrite Hm in Hin. specialize (Om _ Hin). lia.
    + rewrite Hc in Hin. specialize (Oc _ Hin). lia.
    + rewrite Hd in Hin. specialize (Od _ Hin). lia.
    + rewrite Hp in Hin. specialize (Op _ Hin). lia.
  - rewrite Hpr. by intros a (x & -> & _)%list_elem_of_fmap.
  - rewrite Hch. intros c Hin%list_elem_of_In. by apply filter_In in Hin as [_ ?].
Qed.

Lemma restored_credentials_inert_witness :
  ∃ db', AdvanceRestoreEpoch demo_authdb = Ok db' ∧
    (AuthenticateCaller demo_req db' 100 demo_cli fresh_request).2
    ≠ Ok (session_identity demo_row ["password"]).
Proof.
  eexists. split; [vm_compute; reflexivity|].
  apply (restored_credentials_inert (Mem := AdmissionAccounts.sessions) demo_authdb). vm_compute. reflexivity.
Defined.

(** ** Supersession *)

(** Every row of session [i] belongs to [p] and is behind a live counter. *)
Definition behind (db : AuthDB) (r : SessionRow) : Prop :=
  (∀ a, a ∈ d_principals db → AP_ID a = SR_PrincipalID r →
        SR_SessionGeneration r < AP_SessionGeneration a) ∨ SR_CredentialEpoch r < d_epoch db.

Definition superseded (i : string) (p : PrincipalID) (db : AuthDB) : Prop :=
  ∀ s, s ∈ d_sessions db → SR_ID (st_row s) = i → SR_PrincipalID (st_row s) = p ∧ behind db (st_row s).

(** The stamps a session keeps for life. *)
Definition same_stamps (r r' : SessionRow) : Prop :=
  SR_ID r' = SR_ID r ∧ SR_PrincipalID r' = SR_PrincipalID r ∧
  SR_SessionGeneration r' = SR_SessionGeneration r ∧ SR_CredentialEpoch r' = SR_CredentialEpoch r.

(** Counters only move forward. *)
Definition ahead (p : PrincipalID) (db db' : AuthDB) : Prop :=
  d_epoch db ≤ d_epoch db' ∧
  ∀ a', a' ∈ d_principals db' → AP_ID a' = p →
    ∃ a, a ∈ d_principals db ∧ AP_ID a = p ∧ AP_SessionGeneration a ≤ AP_SessionGeneration a'.

Definition kept_rows (i : string) (db db' : AuthDB) : Prop :=
  ∀ s', s' ∈ d_sessions db' → SR_ID (st_row s') = i →
    ∃ s, s ∈ d_sessions db ∧ same_stamps (st_row s) (st_row s').

Lemma superseded_step i p db db' :
  ahead p db db' → kept_rows i db db' → superseded i p db → superseded i p db'.
Proof.
  intros [He Hp] Hk Hs s' Hs' Hid. destruct (Hk s' Hs' Hid) as (s & Hin & E1 & E2 & E3 & E4).
  destruct (Hs s Hin ltac:(congruence)) as [Hpr Hb]. split; [congruence|].
  unfold behind in *. rewrite E2, E3, E4. destruct Hb as [Hg|He']; [left|right; lia].
  intros a' Ha' Hid'. destruct (Hp a' Ha' ltac:(congruence)) as (a & Ha & Hida & Hle).
  specialize (Hg a Ha ltac:(congruence)). lia.
Qed.

Lemma ahead_refl p db db' : d_epoch db' = d_epoch db → d_principals db' = d_principals db → ahead p db db'.
Proof. intros He Hp. split; [lia|]. rewrite Hp. intros a ? ?. by exists a. Qed.

Lemma kept_refl i db db' : d_sessions db' = d_sessions db → kept_rows i db db'.
Proof. intros E s Hs _. rewrite E in Hs. by exists s. Qed.

Lemma kept_update i id f db :
  (∀ s, same_stamps (st_row s) (st_row (f s))) → kept_rows i db (update_session id f db).
Proof.
  intros Hf s' (s & -> & Hs)%list_elem_of_fmap _. exists s. split; [done|].
  case_bool_decide; [apply Hf|by repeat split].
Qed.

Lemma kept_delete i P db : kept_rows i db (delete_sessions P db).
Proof. intros s' [Hs _]%list_elem_of_In%filter_In _. exists s'. by split; [apply list_elem_of_In|]. Qed.

Lemma ahead_bump p P st db db' :
  d_epoch db' = d_epoch db → d_principals db' = d_principals (bump P st db) → ahead p db db'.
Proof.
  intros He Hp. split; [lia|]. rewrite Hp. intros a' (a & -> & Ha)%list_elem_of_fmap Hid.
  exists a. destruct (P a); simpl in *; split_and!; try done; lia.
Qed.

Lemma apply_op_forward i p op db :
  reuses i p op = false → ahead p db (apply_op db op) ∧ kept_rows i db (apply_op db op).
Proof.
  destruct op as [s|id seen idle|id v f|id|q|o|q|q st|id kind|id t| ]; simpl; intros Hr;
    try (split; [by apply ahead_refl|]).
  - unfold CreateSession. destruct (existsb _ _); simpl; split; try (by apply ahead_refl);
      [by apply kept_refl|].
    apply bool_decide_eq_false in Hr. intros s' [?|Heq%list_elem_of_singleton]%elem_of_app Hid; [by exists s'|by subst].
  - by apply kept_update.
  - by apply kept_update.
  - apply kept_delete.
  - apply kept_delete.
  - apply kept_delete.
  - split; [by eapply ahead_bump|by apply kept_refl].
  - split; [by eapply ahead_bump|by apply kept_refl].
  - apply bool_decide_eq_false in Hr. unfold CreatePrincipal. destruct (existsb _ _); simpl.
    { split; [by apply ahead_refl|by apply kept_refl]. }
    split; [|by apply kept_refl]. split; [simpl; lia|].
    intros a [?|Heq%list_elem_of_singleton]%elem_of_app Hid; [by exists a|by subst].
  - by apply kept_refl.
  - destruct (AdvanceRestoreEpoch db) as [db'|] eqn:E; simpl.
    2:{ split; [by apply ahead_refl|by apply kept_refl]. }
    apply AdvanceRestoreEpoch_Ok in E as (n & Hn & He & Hs & _ & _ & _ & _ & Hpr & _).
    destruct (restore_outruns db n Hn) as [Hlt _]. split; [split; [lia|]|by apply kept_refl].
    rewrite Hpr. intros a' (a & -> & Ha)%list_elem_of_fmap Hid. by exists a.
Qed.

Lemma superseded_run i p ops db :
  forallb (λ op, negb (reuses i p op)) ops = true → superseded i p db → superseded i p (run_ops db ops).
Proof.
  revert db. induction ops as [|op ops IH]; intros db; simpl; [done|].
  intros [Hr%negb_true_iff Hrs]%andb_true_iff Hs. apply IH; [done|].
  destruct (apply_op_forward i p op db Hr). by eapply superseded_step.
Qed.

Lemma superseded_dead i p ctx db now row factors s :
  superseded i p db → s ∈ d_sessions db → st_row s = row → SR_ID row = i →
  ¬ live_row ctx db now row factors.
Proof.
  intros Hsup Hin <- Hid (_ & _ & Hg & He & _). destruct (Hsup s Hin Hid) as [_ [Hb|Hb]]; [|lia].
  unfold PrincipalGeneration, active_principal in Hg.
  destruct (find _ (d_principals db)) as [a|] eqn:Ef; [|done]. simpl in Hg. injection Hg as Hg.
  apply find_some in Ef as [Ha%list_elem_of_In Hc]. apply andb_true_iff in Hc as [Hc%bool_decide_eq_true _].
  specialize (Hb a Ha Hc). lia.
Qed.

(** C17 A superseded session stays dead. Take a session of [p] stamped no later
    than [p]'s counter, and advance [p]'s generation, as every grant, password or
    factor change does. Then after any further sequence of logins, touches,
    step-ups, deletions, privacy changes, bumps and restores that mints fresh
    ids, neither a presented value nor the session's own id authenticates as that
    session again, at any time and from any request. *)
Theorem superseded_forever {Mem} `{LiveSessions Mem} i p db ops :
  (∀ s, s ∈ d_sessions db → SR_ID (st_row s) = i →
        SR_PrincipalID (st_row s) = p ∧
        ∀ a, a ∈ d_principals db → AP_ID a = p → SR_SessionGeneration (st_row s) ≤ AP_SessionGeneration a) →
  forallb (λ op, negb (reuses i p op)) ops = true → i ≠ "" →
  let db' := run_ops (AdvanceGeneration p db) ops in
  ∀ ctx now (st : AuState Mem) id,
    (∀ presented, (AuthenticateCaller ctx db' now presented st).2 = Ok id → SessionID (core id) ≠ i) ∧
    (AuthenticateSessionByID ctx db' now i st).2 ≠ Ok id.
Proof.
  intros Hstamp Hops Hi db' ctx now st id.
  assert (superseded i p db') as Hsup.
  { apply superseded_run; [done|]. intros s Hs Hid. destruct (Hstamp s Hs Hid) as [Hp Hg].
    split; [done|]. left. intros a' (a & -> & Ha)%list_elem_of_fmap Hida. rewrite Hp in *.
    destruct (bool_decide_reflect (AP_ID a = p)) as [Heq|Hne]; simpl in *; [|done].
    specialize (Hg a Ha Heq). lia. }
  split.
  - intros presented E%caller_sound Hid.
    destruct (Vouched_session _ _ _ _ _ E ltac:(congruence)) as (row & f & Hr & Hl & ->).
    apply by_verifier_elem in Hr as (s & Hin & Hrow & _). simpl in Hid.
    by eapply superseded_dead in Hl.
  - intros (row & f & Hr & Hl & _)%session_by_id_sound. unfold SessionByID, found in Hr.
    destruct (find _ _) as [r|] eqn:Ef; [|done]. injection Hr as ->.
    apply find_some in Ef as [Hin%list_elem_of_In Hid%bool_decide_eq_true].
    apply list_elem_of_fmap in Hin as (s & Hrow & Hin). by eapply superseded_dead in Hl.
Qed.

Lemma superseded_forever_witness :
  (AuthenticateSessionByID demo_req
     (run_ops (AdvanceGeneration "alice" demo_authdb) [OTouchSession "s1" 50 5000]) 100 "s1"
     fresh_request).2 ≠ Ok (session_identity demo_row ["password"]).
Proof.
  apply (superseded_forever (Mem := AdmissionAccounts.sessions) "s1" "alice" demo_authdb
           [OTouchSession "s1" 50 5000]).
  - intros s ->%list_elem_of_singleton _. split; [reflexivity|].
    intros a ->%list_elem_of_singleton _. vm_compute. discriminate.
  - reflexivity.
  - discriminate.
Defined.
