(* ===== verification/AuthenticationCharges.v ===== *)
(** * Admission accounting of a request

    A request carries two receipts: the source allowance, spent by a value
    nobody vouches for yet, and the session's request budget. Nested service
    calls and transaction retries share them. Over any sequence of
    authentication calls of one request, against whatever databases and at
    whatever times, each is charged at most once and no presented value is looked
    up before one of them was granted. Only the session a service already knows
    by its id is read without a charge. *)

From stdpp Require Import prelude gmap strings list.
From S2P Require Import AdmissionAccounts.
From S2P Require Import Prelude FreeText Bytes Domain Tables Authorizer StateErr.
From S2P Require Import Digest Bearer JsonStrings AuthnTables Authentication AuthenticationProps.

Local Open Scope Z_scope.

(** ** The memory's laws: it returns ids it was given *)
Class LiveSessionsLaws (Mem : Type) `{LiveSessions Mem} : Prop := {
  known_note : ∀ m v id w x,
    KnownLiveSession (NoteLiveSession m v id) w = Some x → x = id ∨ KnownLiveSession m w = Some x;
  known_forget : ∀ m v w x,
    KnownLiveSession (ForgetLiveSession m v) w = Some x → KnownLiveSession m w = Some x }.

#[export] Instance limiter_memory_laws : LiveSessionsLaws AdmissionAccounts.sessions.
Proof.
  split; intros m v; cbn -[Sum256]; generalize (String.string_of_list_ascii (Sum256 v)); intros k.
  - intros id w x. generalize (String.string_of_list_ascii (Sum256 w)). intros k'.
    unfold AdmissionAccounts.KnownLiveSession, AdmissionAccounts.NoteLiveSession.
    intros (l & Hl & ->)%fmap_Some.
    destruct (decide (k = k')) as [<-|Hne].
    + rewrite lookup_insert_eq in Hl. injection Hl as <-. by left.
    + rewrite lookup_insert_ne in Hl by done. right.
      assert (m !! k' = Some l) as ->; [|done].
      destruct (m !! k); [done|]. case_bool_decide; [|done]. by apply lookup_delete_Some in Hl as [_ ?].
  - intros w x. generalize (String.string_of_list_ascii (Sum256 w)). intros k'.
    unfold AdmissionAccounts.KnownLiveSession, AdmissionAccounts.ForgetSession.
    intros (l & Hl & ->)%fmap_Some. apply lookup_delete_Some in Hl as [_ ->]. done.
Qed.

Section Charges.
Context {Mem : Type} `{LiveSessionsLaws Mem}.
Context (ctx : ReqCtx).
(** The reads that must be paid for. *)
Context (costly : Read → Prop).

Abbreviation St := (AuState Mem).
Abbreviation A := (StateErr.M St error).

(** ** The invariant *)

Definition ran {X} (o : option X) : nat := match o with Some _ => 1 | None => 0 end.

(** The source allowance, or the budget, let the request read. *)
Definition paid_source (s : St) : Prop := rq_preauthentication ctx = None ∨ au_pre s = Some None.
Definition paid_budget (s : St) : Prop := rq_request ctx = None ∨ au_req s = Some None.
Definition paid (s : St) : Prop := paid_source s ∨ paid_budget s.

Record accounted (s : St) : Prop := {
  acc_pre : au_preCharges s = ran (au_pre s);
  acc_req : length (au_reqCharges s) = ran (au_req s);
  acc_budgeted : au_budgeted s ≠ None → paid_budget s;
  acc_mem : ∀ v, KnownLiveSession (au_mem s) v ≠ Some "";
  acc_reads : ∀ r, r ∈ au_reads s → costly r → paid s }.

Definition accounted_paid (s : St) : Prop := accounted s ∧ paid s.

(** ** Preservation *)

Definition preserves {X} (P : St → Prop) (m : A X) : Prop :=
  ∀ s, P s → wp m s (λ _ s', P s') (λ _ s', P s').

Lemma preserves_ret {X} P (x : X) : preserves P (ret x).
Proof. by intros s ?. Qed.
Lemma preserves_fail {X} P e : preserves P (fail e : A X).
Proof. by intros s ?. Qed.
Lemma preserves_bind {X Y} P (m : A X) (k : X → A Y) :
  preserves P m → (∀ x, preserves P (k x)) → preserves P (bind m k).
Proof.
  intros Hm Hk s Hs. apply wp_bind. eapply wp_mono; [by apply Hm| |done]. intros x s'. apply Hk.
Qed.
Lemma preserves_try {X} P (m : A X) : preserves P m → preserves P (try m).
Proof. intros Hm s Hs. apply wp_try. by apply Hm. Qed.
Lemma preserves_gets {X} P (f : St → X) : preserves P (gets f).
Proof. by intros s ?. Qed.
Lemma preserves_modify P f : (∀ s, P s → P (f s)) → preserves P (modify f).
Proof. intros Hf s Hs. by apply wp_modify, Hf. Qed.
Lemma preserves_if {X} P (b : bool) (m m' : A X) : preserves P m → preserves P m' → preserves P (if b then m else m').
Proof. by destruct b. Qed.

Lemma accounted_same (s s' : St) :
  au_pre s' = au_pre s → au_preCharges s' = au_preCharges s → au_req s' = au_req s →
  au_reqCharges s' = au_reqCharges s → au_budgeted s' = au_budgeted s → au_mem s' = au_mem s →
  au_reads s' = au_reads s → accounted s → accounted s'.
Proof.
  intros E1 E2 E3 E4 E5 E6 E7 [? ? ? ? ?].
  split; unfold paid, paid_source, paid_budget in *; rewrite ?E1, ?E2, ?E3, ?E4, ?E5, ?E6, ?E7; done.
Qed.

Lemma preserves_az f : preserves accounted (modify (set_az f)).
Proof. apply preserves_modify. intros s. by apply accounted_same. Qed.

Lemma preserves_note stage : preserves accounted (NoteRefusal ctx stage).
Proof.
  intros s Hs. unfold wp, NoteRefusal. destruct (_ || _); [done|].
  destruct (au_stage s), stage; try done; by eapply accounted_same in Hs.
Qed.

Lemma preserves_paid_note stage : preserves accounted_paid (NoteRefusal ctx stage).
Proof.
  intros s [Hs Hp]. unfold wp, NoteRefusal. destruct (_ || _); [done|].
  destruct (au_stage s), stage; try done; split; try done; by eapply accounted_same in Hs.
Qed.

Lemma log_accounted r s : accounted_paid s → accounted_paid (log_read r s).
Proof. intros [[? ? ? ? ?] Hp]. split; [|done]. split; try done. Qed.

Lemma preserves_read {X} r (v : result error X) : preserves accounted_paid (read ctx r v).
Proof.
  intros s Hs. unfold wp, read. pose proof (log_accounted r s Hs).
  destruct (rq_fault ctx _); [done|]. by destruct v.
Qed.

Lemma preserves_optional {X} (zero : X) r v : preserves accounted_paid (optional zero (read ctx r v)).
Proof.
  apply preserves_bind; [apply preserves_try, preserves_read|].
  intros [x|[]]; try apply preserves_ret; apply preserves_fail.
Qed.

Lemma preserves_refuse caller op class cause :
  preserves accounted_paid (refuseAdmission ctx caller op class cause).
Proof.
  apply preserves_bind; [apply preserves_gets|]. intros n. destruct (NewEventID _ n); 
    (apply preserves_bind; [|intros; apply preserves_fail]); apply preserves_modify;
    intros s [Hs Hp]; (split; [by eapply accounted_same in Hs|done]).
Qed.

(** A read that costs nothing may come unpaid. *)
Lemma preserves_free {X} r (v : result error X) : ¬ costly r → preserves accounted (read ctx r v).
Proof.
  intros Hr s [Hp Hq Hb Hm Hrd].
  assert (accounted (log_read r s)) as Hs.
  { split; try done. simpl. intros r' [Hin| ->%list_elem_of_singleton]%elem_of_app; [by apply Hrd|done]. }
  unfold wp, read. destruct (rq_fault ctx _); [done|]. by destruct v.
Qed.

Create HintDb preserves.
#[local] Hint Resolve preserves_ret preserves_fail preserves_bind preserves_try preserves_gets preserves_if preserves_az preserves_note
  preserves_paid_note preserves_read preserves_optional preserves_refuse : preserves.

(** *** The charges *)

(** A receipt lets the request on only if it holds no error. *)
Lemma receipt_spec o s :
  accounted s → wp (receipt_answer ctx o) s (λ _ s', s' = s ∧ o = None) (λ _ s', accounted s').
Proof.
  intros Hs. destruct o as [e|]; [|done]. unfold receipt_answer. apply wp_bind.
  eapply wp_mono; [by apply preserves_note| |done]. intros [] s' Hs'. by apply wp_fail.
Qed.

Lemma pre_charges s :
  accounted s →
  wp (AdmitPreauthentication ctx) s (λ _ s', accounted_paid s') (λ _ s', accounted s').
Proof.
  intros Hs. unfold AdmitPreauthentication.
  destruct (rq_preauthentication ctx) as [answer|] eqn:Ea.
  2:{ apply wp_ret. split; [done|]. by left; left. }
  apply wp_bind, wp_gets. destruct (au_pre s) as [o|] eqn:Eo.
  - eapply wp_mono; [by apply receipt_spec| |done]. intros [] s' [-> ->]. split; [done|]. by left; right.
  - apply wp_bind, wp_modify. eapply wp_mono; [apply receipt_spec| |done].
    + destruct Hs as [Hp Hq Hb Hm Hr]. rewrite Eo in Hp. split; try done; simpl; [by rewrite Hp|].
      intros r Hin Hc. destruct (Hr r Hin Hc) as [[Hn|Hn]|Hn]; [congruence..|by right].
    + intros [] s' [-> ->]. split; [|by left; right]. destruct Hs as [Hp Hq Hb Hm Hr].
      rewrite Eo in Hp. split; try done; simpl; [by rewrite Hp|]. intros _ _ _. by left; right.
Qed.

(** Charging the budget takes nothing back from the source's payment. *)
Lemma set_req_accounted id o charge s :
  rq_request ctx = Some charge → au_req s = None → accounted s →
  accounted (set_req id o s) ∧ (paid s → paid (set_req id o s)).
Proof.
  intros Ec Eo [Hp Hq Hb Hm Hr].
  assert (¬ paid_budget s) as Hnb by (intros [?|?]; congruence).
  assert (paid s → paid (set_req id o s)) as Hk by (intros [?|?]; [by left|done]).
  split; [|done]. rewrite Eo in Hq. split; try done; simpl.
  - by rewrite length_app, Hq.
  - by intros ?%Hb.
  - intros r Hin Hc. by apply Hk, (Hr r).
Qed.

Lemma req_charges id s :
  accounted s →
  wp (AdmitRequest ctx id) s
    (λ _ s', accounted s' ∧ (id ≠ "" → paid_budget s') ∧ (paid s → paid s')) (λ _ s', accounted s').
Proof.
  intros Hs. unfold AdmitRequest. destruct (rq_request ctx) as [charge|] eqn:Ec.
  2:{ apply wp_ret. split_and!; try done. by left. }
  case_bool_decide as Hid; [by apply wp_ret|].
  apply wp_bind, wp_gets. destruct (au_req s) as [o|] eqn:Eo.
  - eapply wp_mono; [by apply receipt_spec| |done]. intros [] s' [-> ->]. split_and!; try done. by right.
  - apply wp_bind, wp_modify.
    destruct (set_req_accounted id (charge id) charge s Ec Eo Hs) as [Hs' Hp'].
    eapply wp_mono; [by apply receipt_spec| |done]. intros [] s' [-> Ho]. split_and!; try done.
    right. simpl. by rewrite Ho.
Qed.

Lemma presentation_charges v s :
  accounted s →
  wp (AdmitSessionPresentation ctx v) s (λ _ s', accounted_paid s') (λ _ s', accounted s').
Proof.
  intros Hs. unfold AdmitSessionPresentation. apply wp_bind, wp_gets.
  destruct (if rq_liveSessions ctx then _ else _) as [id|] eqn:Ek.
  - assert (id ≠ "") as Hid.
    { intros ->. destruct (rq_liveSessions ctx); [|done]. by apply (acc_mem s Hs v). }
    apply wp_bind. eapply wp_mono; [by apply req_charges| |done]. simpl.
    intros _ s' (Ha & Hb & _). specialize (Hb Hid).
    destruct (rq_request ctx); [apply wp_modify|by apply wp_ret; split; [|right]].
    split; [|by right]. destruct Ha as [? ? ? ? ?]. by split.
  - apply wp_bind, wp_gets. destruct (_ && _) eqn:Eb; [|by apply pre_charges].
    apply andb_true_iff in Eb as [_ Eb%bool_decide_eq_true]. apply wp_ret. split; [done|].
    right. apply (acc_budgeted s Hs). congruence.
Qed.

(** *** The legs *)

(** A paid continuation after a charge. *)
Lemma charged {X} (m : A unit) (k : unit → A X) :
  (∀ s, accounted s → wp m s (λ _ s', accounted_paid s') (λ _ s', accounted s')) →
  preserves accounted_paid (k tt) → preserves accounted (bind m k).
Proof.
  intros Hm Hk s Hs. apply wp_bind. eapply wp_mono; [by apply Hm| |done].
  intros [] s' Hs'. eapply wp_mono; [by apply Hk|by intros ? ? []|by intros ? ? []].
Qed.

Lemma preserves_resolved db now row present :
  preserves accounted_paid (authenticateResolvedSession ctx db now row present).
Proof. unfold authenticateResolvedSession. eauto 10 with preserves. Qed.

Lemma preserves_machine db now presented : preserves accounted (authenticateMachine ctx db now presented).
Proof. apply charged; [apply pre_charges|]. eauto 20 with preserves. Qed.

Lemma preserves_connection db now presented :
  preserves accounted (authenticateInstanceConnection ctx db now presented).
Proof. apply charged; [apply pre_charges|]. eauto 20 with preserves. Qed.

Lemma preserves_developer db now presented : preserves accounted (authenticateDeveloper ctx db now presented).
Proof. apply charged; [apply pre_charges|]. eauto 20 with preserves. Qed.

Lemma preserves_noting {X} (m : A X) : preserves accounted m → preserves accounted (noting_refusal ctx m).
Proof. intros Hm. apply preserves_bind; [by apply preserves_try|]. intros [x|[]]; eauto with preserves. Qed.

Lemma preserves_scim db now presented : preserves accounted (AuthenticateSCIMCaller ctx db now presented).
Proof.
  apply preserves_noting. unfold resolveSCIMCaller. apply preserves_if; [apply preserves_fail|].
  apply charged; [apply pre_charges|]. apply preserves_bind; [eauto with preserves|].
  intros [c|[]]; eauto 10 with preserves.
Qed.

Lemma set_mem_accounted m s :
  (∀ v, KnownLiveSession m v ≠ Some "") → accounted_paid s → accounted_paid (set_mem m s).
Proof. intros Hm [[? ? ? ? ?] Hp]. split; [|done]. by split. Qed.

Lemma preserves_live v id : id ≠ "" → preserves accounted_paid (NoteSessionLive ctx v id).
Proof.
  intros Hid. apply preserves_if; [|apply preserves_ret]. apply preserves_modify. intros s Hs.
  apply set_mem_accounted; [|done]. intros w [E|E]%known_note; [done|]. by apply (acc_mem s (proj1 Hs) w).
Qed.

Lemma preserves_forget v : preserves accounted_paid (ForgetSession ctx v).
Proof.
  apply preserves_if; [|apply preserves_ret]. apply preserves_modify. intros s Hs.
  apply set_mem_accounted; [|done]. intros w E%known_forget. by apply (acc_mem s (proj1 Hs) w).
Qed.

(** Stored sessions have an id. *)
Definition ids_present (db : AuthDB) : Prop := ∀ s, s ∈ d_sessions db → SR_ID (st_row s) ≠ "".

Lemma SessionByVerifier_id db v row : ids_present db → SessionByVerifier db v = Ok row → SR_ID row ≠ "".
Proof.
  intros Hdb. unfold SessionByVerifier, by_verifier. destruct (find _ _) as [s|] eqn:E; [|done].
  apply find_some in E as [Hin%list_elem_of_In _]. destruct (verifierMatches _ _); [|done].
  intros [= <-]. by apply Hdb.
Qed.

(** The identity resolved is the row's. *)
Lemma resolved_identity db now row present (s : St) :
  wp (authenticateResolvedSession ctx db now row present) s
    (λ id _, present = true ∧ SessionID (core id) = SR_ID row) (λ _ _, True).
Proof.
  unfold authenticateResolvedSession. apply wp_bind, optional_read_spec; [apply found_lookup| |done].
  apply wp_bind, read_spec; [|done]. simpl. destruct (session_live _ _ _ _ _ _) eqn:El; [|done].
  apply wp_ret. split; [|done]. by destruct present.
Qed.

Lemma preserves_session db now presented admits :
  ids_present db → preserves accounted (authenticateSession ctx db now presented admits).
Proof.
  intros Hdb. apply preserves_noting. unfold resolveSession. do 2 (apply preserves_if; [apply preserves_fail|]).
  apply charged; [apply presentation_charges|]. intros s Hs. apply wp_bind.
  apply optional_read_spec; [apply by_verifier_lookup| |intros; by apply log_accounted].
  apply (log_accounted RSessionByVerifier) in Hs. apply wp_bind, wp_try.
  eapply wp_mono; [apply wp_and; [by apply preserves_resolved|apply resolved_identity]| |].
  - intros id s' [Hs' [Hp Hid]].
    apply (preserves_bind accounted_paid (NoteSessionLive ctx (ArtifactVerifier presented) _)); [|eauto with preserves|done].
    apply preserves_live. rewrite Hid.
    destruct (SessionByVerifier db _) as [row|] eqn:Er; [|done]. by eapply SessionByVerifier_id.
  - intros e s' [Hs' _]. destruct e; try (by apply wp_fail).
    by apply (preserves_bind accounted_paid (ForgetSession ctx _)); [apply preserves_forget|eauto with preserves|].
Qed.

Lemma preserves_activity id : preserves accounted (recordCallerActivity ctx id).
Proof.
  apply preserves_if; [|apply preserves_ret]. apply preserves_modify. intros s. by apply accounted_same.
Qed.

Lemma preserves_caller db now presented :
  ids_present db → preserves accounted (AuthenticateCaller ctx db now presented).
Proof.
  intros Hdb. apply preserves_noting. unfold resolveCaller. cbv zeta. apply preserves_if; [apply preserves_fail|].
  apply preserves_bind; [|intros; apply preserves_bind; [apply preserves_activity|intros; apply preserves_ret]].
  repeat (apply preserves_if); [apply preserves_developer|apply preserves_machine| |apply preserves_connection|
    by apply preserves_session].
  apply preserves_bind; [apply preserves_scim|intros; apply preserves_ret].
Qed.

Lemma preserves_refuse_unpaid caller op class cause :
  preserves accounted (refuseAdmission ctx caller op class cause).
Proof.
  apply preserves_bind; [apply preserves_gets|]. intros n. destruct (NewEventID _ n); eauto with preserves.
Qed.

Lemma preserves_operation caller : preserves accounted (AdmitOperation ctx caller).
Proof.
  unfold AdmitOperation. apply preserves_bind.
  - intros s Hs. eapply wp_mono; [by apply req_charges|by intros _ s' []|done].
  - intros _. destruct (FromContext ctx); repeat apply preserves_if;
      try apply preserves_refuse_unpaid; eauto with preserves.
Qed.

Lemma preserves_surface db now presented ws admits :
  ids_present db → preserves accounted (authenticateSessionSurface ctx db now presented ws admits).
Proof.
  intros Hdb. apply preserves_if; [|by apply preserves_session].
  apply preserves_bind; [by apply preserves_caller|]. intros id.
  apply preserves_bind; [apply preserves_operation|]. eauto with preserves.
Qed.

Lemma preserves_by_id db now id :
  (∀ r, r ∈ [RSessionByID; RGeneration; REpoch] → ¬ costly r) → preserves accounted (AuthenticateSessionByID ctx db now id).
Proof.
  intros Hf. apply preserves_if; [apply preserves_fail|].
  assert (∀ {X} (zero : X) r v, r ∈ [RSessionByID; RGeneration; REpoch] → preserves accounted (optional zero (read ctx r v))) as Ho.
  { intros X zero r v Hr. apply preserves_bind; [by apply preserves_try, preserves_free, Hf|].
    intros [x|[]]; try apply preserves_ret; apply preserves_fail. }
  apply preserves_bind; [apply Ho; by left|]. intros row. unfold authenticateResolvedSession.
  apply preserves_bind; [apply Ho; by right; left|]. intros g.
  apply preserves_bind; [apply preserves_free, Hf; by right; right; left|]. eauto with preserves.
Qed.
End Charges.

(** ** Sequences of calls *)

Inductive auth_call :=
| CallCaller (presented : bytes)
| CallAccount (presented : bytes)
| CallSelf (presented : bytes)
| CallSCIM (presented : bytes)
| CallSessionByID (id : string)
| CallAdmit (caller : AuthIdentity).

(** The reads that look a credential up by what was presented, or by what such a
    read returned. *)
Definition by_value (r : Read) : bool :=
  negb (bool_decide (r ∈ [RSessionByID; RGeneration; REpoch])).

Section Sequences.
Context {Mem : Type} `{LiveSessionsLaws Mem}.
Context (ctx : ReqCtx).

(** One call of the request against the snapshot and the clock it ran with. *)
Definition run_call (s : AuState Mem) (c : AuthDB * Z * auth_call) : AuState Mem :=
  let '(db, now, call) := c in
  match call with
  | CallCaller p => (AuthenticateCaller ctx db now p s).1
  | CallAccount p => (Authenticate ctx db now p s).1
  | CallSelf p => (AuthenticateSelfSurface ctx db now p s).1
  | CallSCIM p => (AuthenticateSCIMCaller ctx db now p s).1
  | CallSessionByID id => (AuthenticateSessionByID ctx db now id s).1
  | CallAdmit caller => (AdmitOperation ctx caller s).1
  end.

Definition is_by_id (call : auth_call) : bool := match call with CallSessionByID _ => true | _ => false end.

Section run.
Context (costly : Read → Prop).

Lemma preserves_state {X} (m : M (AuState Mem) error X) s :
  preserves (accounted ctx costly) m → accounted ctx costly s → accounted ctx costly (m s).1.
Proof. intros Hm Hs. specialize (Hm s Hs). unfold wp in Hm. by destruct (m s) as [s' [x|e]]. Qed.

Lemma run_call_accounted s c :
  ids_present c.1.1 → (is_by_id c.2 = true → ∀ r, r ∈ [RSessionByID; RGeneration; REpoch] → ¬ costly r) →
  accounted ctx costly s → accounted ctx costly (run_call s c).
Proof.
  destruct c as [[db now] call]. intros Hdb Hf Hs. destruct call; apply preserves_state; try done.
  - by apply preserves_caller.
  - by apply preserves_surface.
  - by apply preserves_surface.
  - apply preserves_scim.
  - apply preserves_by_id. by apply Hf.
  - apply preserves_operation.
Qed.

Lemma run_calls_accounted calls : ∀ s,
  Forall (λ c, ids_present c.1.1) calls →
  Forall (λ c, is_by_id c.2 = true → ∀ r, r ∈ [RSessionByID; RGeneration; REpoch] → ¬ costly r) calls →
  accounted ctx costly s → accounted ctx costly (foldl run_call s calls).
Proof.
  induction calls as [|c calls IH]; intros s; [done|]. rewrite !Forall_cons. intros [Hc Hcs] [Hf Hfs] Hs.
  simpl. apply IH; [done|done|]. by apply run_call_accounted.
Qed.
End run.

(** The receipts of a new request, with a memory of earlier ones. *)
Definition request_start (m : Mem) : AuState Mem :=
  mkAuState NewTxAuthorizer [] None 0 None [] None None None m.

End Sequences.

