(* ===== verification/Presence.v ===== *)
(** * Presence rules

    [internal/schema/presence.go]: the per-environment [required_in] and
    [forbidden_in] rules of a key, the shape check, the static conflict between
    the two rules of one key and between the members of one key group; and from
    [internal/service/keys.go] the decoding and encoding of stored rules.

    The conflict checks are shown to decide what they are for: whether some
    environment, existing or created later, could ever satisfy the rules. *)

From stdpp Require Import prelude gmap strings list.
From S2P Require Import Prelude.

Definition PresenceNone : string := "none".
Definition PresenceAll : string := "all".
Definition PresenceExplicit : string := "explicit".

Record Presence := mkPresence { Mode : string; Environments : list string }.
Record PresenceRules := mkPresenceRules { Required : Presence; Forbidden : Presence }.

#[export] Instance Presence_eq_dec : EqDecision Presence.
Proof. solve_decision. Defined.
#[export] Instance PresenceRules_eq_dec : EqDecision PresenceRules.
Proof. solve_decision. Defined.

Definition DefaultPresenceRules : PresenceRules :=
  mkPresenceRules (mkPresence PresenceNone []) (mkPresence PresenceNone []).

(** The refusals, each wrapping [ErrInvalidDeclaration]. *)
Inductive PresenceError :=
| CarriesEnvironments (what mode : string)
| NamesNone (what : string)
| NamesEmpty (what : string)
| NamesTwice (what id : string)
| UnknownMode (what mode : string)
| RequiredAndForbidden (why : string)
| GroupConflict.

(** The [explicit] loop: [seen] holds the ids read so far. *)
Fixpoint checkExplicit (what : string) (seen : gset string) (ids : list string) :
    result PresenceError unit :=
  match ids with
  | [] => Ok tt
  | id :: ids =>
      if bool_decide (id = "") then Err (NamesEmpty what)
      else if bool_decide (id ∈ seen) then Err (NamesTwice what id)
      else checkExplicit what ({[ id ]} ∪ seen) ids
  end.

Definition checkPresenceShape (what : string) (p : Presence) : result PresenceError unit :=
  if bool_decide (Mode p = PresenceNone) || bool_decide (Mode p = PresenceAll) then
    if Nat.ltb 0 (length (Environments p)) then Err (CarriesEnvironments what (Mode p)) else Ok tt
  else if bool_decide (Mode p = PresenceExplicit) then
    if Nat.eqb (length (Environments p)) 0 then Err (NamesNone what)
    else checkExplicit what ∅ (Environments p)
  else Err (UnknownMode what (Mode p)).

(** Whether the two rules can bind one environment, with the reason. *)
Definition overlap (required forbidden : Presence) : bool * string :=
  if bool_decide (Mode required = PresenceNone) || bool_decide (Mode forbidden = PresenceNone)
  then (false, "")
  else if bool_decide (Mode required = PresenceAll) || bool_decide (Mode forbidden = PresenceAll)
  then (true, "one of the rules uses mode `all`")
  else
    let inRequired : gset string := list_to_set (Environments required) in
    let both := filter (λ id, id ∈ inRequired) (Environments forbidden) in
    if Nat.eqb (length both) 0 then (false, "")
    else (true, "environments " +:+ String.concat ", " both).

Definition CheckPresence (required forbidden : Presence) : result PresenceError unit :=
  let! _ := checkPresenceShape "required_in" required in
  let! _ := checkPresenceShape "forbidden_in" forbidden in
  let '(conflict, why) := overlap required forbidden in
  if conflict then Err (RequiredAndForbidden why) else Ok tt.

Definition Covers (p : Presence) (envID : string) : bool :=
  if bool_decide (Mode p = PresenceAll) then true
  else if bool_decide (Mode p = PresenceExplicit) then Contains (Environments p) envID
  else false.

Definition CheckGroupPresence (a b : PresenceRules) : result PresenceError unit :=
  let '(ab, _) := overlap (Required a) (Forbidden b) in
  let '(ba, _) := overlap (Required b) (Forbidden a) in
  if ab || ba then Err GroupConflict else Ok tt.

(** ** Stored rules

    A key row carries the two modes; the explicit sets are rows of their own. *)

Definition PresenceRuleRequired : string := "required".
Definition PresenceRuleForbidden : string := "forbidden".

Record KeyPresence := mkKeyPresence { pr_key : string; pr_env : string; pr_rule : string }.

#[export] Instance KeyPresence_eq_dec : EqDecision KeyPresence.
Proof. solve_decision. Defined.
#[export] Instance KeyPresence_countable : Countable KeyPresence.
Proof.
  refine (inj_countable' (λ r, (pr_key r, pr_env r, pr_rule r))
    (λ t, mkKeyPresence t.1.1 t.1.2 t.2) _). by intros [].
Defined.

(** [append(p.Environments, id)] *)
Definition with_env (p : Presence) (id : string) : Presence :=
  mkPresence (Mode p) (Environments p ++ [id]).

(** The body of [presenceOf]'s loop: which rule a row extends. *)
Definition presence_row (out : PresenceRules) (rule envID : string) : PresenceRules :=
  if bool_decide (rule = PresenceRuleRequired) && bool_decide (Mode (Required out) = PresenceExplicit)
  then mkPresenceRules (with_env (Required out) envID) (Forbidden out)
  else if bool_decide (rule = PresenceRuleForbidden) && bool_decide (Mode (Forbidden out) = PresenceExplicit)
  then mkPresenceRules (Required out) (with_env (Forbidden out) envID)
  else out.

Definition presenceOf (keyID requiredMode forbiddenMode : string) (rows : list KeyPresence) : PresenceRules :=
  foldl (λ out row,
      if bool_decide (pr_key row ≠ keyID) then out else presence_row out (pr_rule row) (pr_env row))
    (mkPresenceRules (mkPresence requiredMode []) (mkPresence forbiddenMode [])) rows.

Definition indexPresenceByKey (rows : list KeyPresence) : gmap string (list KeyPresence) :=
  foldl (λ byKey row, <[pr_key row := mget byKey (pr_key row) ++ [row]]> byKey) ∅ rows.

Definition explicit_rows (p : Presence) (rule : string) : list KeyPresence :=
  if bool_decide (Mode p = PresenceExplicit)
  then (λ id, mkKeyPresence "" id rule) <$> Environments p else [].

Definition presenceRows (p : PresenceRules) : list KeyPresence :=
  explicit_rows (Required p) PresenceRuleRequired ++ explicit_rows (Forbidden p) PresenceRuleForbidden.

Definition presenceRowsFor (keyID : string) (p : PresenceRules) : list KeyPresence :=
  (λ r, mkKeyPresence keyID (pr_env r) (pr_rule r)) <$> presenceRows p.

(** The mode a cascade leaves: an [explicit] set it emptied is [none]. *)
Definition emptiedMode (mode : string) (remaining : nat) : string :=
  if bool_decide (mode = PresenceExplicit) && Nat.eqb remaining 0 then PresenceNone else mode.

(** ** What the checks decide *)

Definition shaped (p : Presence) : Prop :=
  ((Mode p = PresenceNone ∨ Mode p = PresenceAll) ∧ Environments p = [])
  ∨ (Mode p = PresenceExplicit ∧ Environments p ≠ [] ∧ NoDup (Environments p) ∧ ("" ∉ Environments p)).

Lemma checkExplicit_ok what ids : ∀ seen,
  checkExplicit what seen ids = Ok tt ↔
  NoDup ids ∧ ("" ∉ ids) ∧ ∀ id, id ∈ ids → id ∉ seen.
Proof.
  induction ids as [|id ids IH]; intros seen; simpl.
  { split; [|done]. intros _. split; [constructor|]. split; [|intros ?]; rewrite elem_of_nil; tauto. }
  rewrite NoDup_cons. setoid_rewrite elem_of_cons.
  case_bool_decide as He; [subst; split; [done|]; intros (_ & Hn & _); destruct Hn; by left|].
  case_bool_decide as Hs; [split; [done|]; intros (_ & _ & Hn); by destruct (Hn id (or_introl eq_refl))|].
  rewrite IH. split.
  - intros (Hnd & Hne & Hseen). repeat split; [|done| |].
    + intros Hin. specialize (Hseen _ Hin). set_solver.
    + intros [?|?]; [by subst|done].
    + intros x [->|Hx]; [done|]. specialize (Hseen x Hx). set_solver.
  - intros ((Hnin & Hnd) & Hne & Hseen). repeat split; [done|set_solver|].
    intros x Hx. rewrite elem_of_union, elem_of_singleton. intros [->|Hx']; [done|].
    by apply (Hseen x); [right|].
Qed.

Lemma checkPresenceShape_ok what p : checkPresenceShape what p = Ok tt ↔ shaped p.
Proof.
  unfold checkPresenceShape, shaped. destruct p as [m es]; simpl.
  destruct (decide (m = PresenceNone ∨ m = PresenceAll)) as [Hm|Hm].
  - replace (_ || _) with true by (destruct Hm as [->| ->]; done).
    destruct es as [|e es]; simpl; [naive_solver|].
    split; [done|]. intros [[_ ?]|[-> _]]; [done|]. by destruct Hm.
  - rewrite !bool_decide_eq_false_2 by tauto. simpl. case_bool_decide as He.
    + destruct (Nat.eqb (length es) 0) eqn:El.
      { apply Nat.eqb_eq, nil_length_inv in El as ->. naive_solver. }
      assert (es ≠ []) as Hes by (by intros ->). rewrite checkExplicit_ok.
      split; [intros (?&?&_); right; naive_solver|]. intros [[? _]|(_ & _ & ? & ?)]; [done|].
      split; [done|]. split; [done|]. intros id _. apply not_elem_of_empty.
    + split; [done|]. by intros [[? _]|[? _]].
Qed.

Lemma Covers_true p e :
  Covers p e = true ↔ Mode p = PresenceAll ∨ (Mode p = PresenceExplicit ∧ e ∈ Environments p).
Proof.
  unfold Covers. repeat case_bool_decide; rewrite ?Contains_true; naive_solver.
Qed.

(** [overlap] is exact for rules of the right shape: it answers [true] iff some
    environment is bound by both. *)
Lemma overlap_exact r f :
  shaped r → shaped f →
  (overlap r f).1 = true ↔ ∃ e, Covers r e = true ∧ Covers f e = true.
Proof.
  intros Hr Hf. setoid_rewrite Covers_true. unfold overlap. destruct r as [rm re], f as [fm fe]; simpl.
  assert (∀ m es, shaped (mkPresence m es) → m ≠ PresenceNone →
    m = PresenceAll ∨ (m = PresenceExplicit ∧ ∃ e, e ∈ es)) as Hcase.
  { intros m es [[[?|?] _]|(? & Hne & _)]; simpl in *; [done|by left|].
    intros _. right. split; [done|]. destruct es as [|e es]; [done|]. exists e. set_solver. }
  destruct (decide (rm = PresenceNone ∨ fm = PresenceNone)) as [Hn|Hn].
  { replace (_ || _) with true by (destruct Hn as [->| ->]; [done|by rewrite orb_true_r]).
    simpl. split; [done|]. intros (e & [?|[? ?]] & [?|[? ?]]); destruct Hn; by simplify_eq. }
  assert (rm ≠ PresenceNone ∧ fm ≠ PresenceNone) as [Hrn Hfn] by tauto. rewrite !bool_decide_eq_false_2 by done. simpl.
  destruct (Hcase _ _ Hr Hrn) as [->|(-> & er & Her)]; simpl.
  { split; [|done]. intros _.
    destruct (Hcase _ _ Hf Hfn) as [->|(-> & ef & Hef)]; [exists ""|exists ef]; auto. }
  destruct (Hcase _ _ Hf Hfn) as [->|(-> & ef & Hef)]; simpl.
  { split; [|done]. intros _. exists er. auto. }
  destruct (Nat.eqb _ 0) eqn:E; simpl.
  - apply Nat.eqb_eq, nil_length_inv in E. split; [done|].
    intros (e & [?|[_ H1]] & [?|[_ H2]]); [done..|].
    assert (e ∈ filter (λ id, id ∈ (list_to_set re : gset string)) fe) as Hin.
    { by rewrite list_elem_of_filter, elem_of_list_to_set. }
    rewrite E in Hin. by apply elem_of_nil in Hin.
  - split; [|done]. intros _. apply Nat.eqb_neq in E.
    destruct (filter _ fe) as [|e l] eqn:El; [done|]. exists e.
    assert (e ∈ e :: l) as Hin by set_solver. rewrite <-El in Hin.
    rewrite list_elem_of_filter, elem_of_list_to_set in Hin. naive_solver.
Qed.

Lemma CheckPresence_ok r f :
  CheckPresence r f = Ok tt ↔
  shaped r ∧ shaped f ∧ ∀ e, ¬ (Covers r e = true ∧ Covers f e = true).
Proof.
  unfold CheckPresence. rewrite rbind_Ok. setoid_rewrite rbind_Ok. split.
  - intros ([] & Hr & [] & Hf & Hc). apply checkPresenceShape_ok in Hr, Hf.
    split; [done|]. split; [done|]. destruct (overlap r f) as [b why] eqn:E.
    destruct b; [done|]. intros e He.
    assert ((overlap r f).1 = true) as Ho by (apply overlap_exact; eauto).
    by rewrite E in Ho.
  - intros (Hr & Hf & Hn). exists tt. rewrite checkPresenceShape_ok. split; [done|].
    exists tt. rewrite checkPresenceShape_ok. split; [done|].
    destruct (overlap r f) as [b why] eqn:E. destruct b; [|done].
    destruct (proj1 (overlap_exact r f Hr Hf)) as (e & He); [by rewrite E|]. by destruct (Hn e).
Qed.

(** One environment satisfies a group when one presence, the same for every
    member, obeys every member's rules there. *)
Definition group_satisfiable (members : list PresenceRules) (e : string) : Prop :=
  ∃ set : bool, ∀ m, m ∈ members →
    (Covers (Required m) e = true → set = true) ∧ (Covers (Forbidden m) e = true → set = false).

(** The presence check of a key group is exact. For members that each pass
    their own check, the pairwise check over the group passes iff every
    environment, including ones created later, leaves the group a presence that
    obeys every member's rules. *)
Theorem group_check_exact members :
  (∀ m, m ∈ members → CheckPresence (Required m) (Forbidden m) = Ok tt) →
  (∀ a b, a ∈ members → b ∈ members → CheckGroupPresence a b = Ok tt) ↔
  ∀ e, group_satisfiable members e.
Proof.
  intros Hok. assert (∀ m, m ∈ members → shaped (Required m) ∧ shaped (Forbidden m)) as Hsh.
  { intros m Hm. apply Hok, CheckPresence_ok in Hm. tauto. }
  assert (∀ a b, a ∈ members → b ∈ members → CheckGroupPresence a b = Ok tt ↔
    (overlap (Required a) (Forbidden b)).1 = false ∧ (overlap (Required b) (Forbidden a)).1 = false) as Hpair.
  { intros a b _ _. unfold CheckGroupPresence.
    destruct (overlap (Required a) (Forbidden b)) as [[] ?], (overlap (Required b) (Forbidden a)) as [[] ?];
      simpl; naive_solver. }
  split.
  - intros H e. exists (existsb (λ m, Covers (Required m) e) members). intros m Hm. split.
    + intros Hc. apply existsb_true. eauto.
    + intros Hf. apply existsb_false. intros m' Hm'. apply not_true_iff_false. intros Hr.
      destruct (proj1 (Hpair m' m Hm' Hm) (H m' m Hm' Hm)) as [Hno _].
      assert ((overlap (Required m') (Forbidden m)).1 = true); [|congruence].
      apply overlap_exact; [apply Hsh, Hm'|apply Hsh, Hm|eauto].
  - intros H a b Ha Hb. apply (Hpair a b Ha Hb).
    assert (∀ x y, x ∈ members → y ∈ members → (overlap (Required x) (Forbidden y)).1 = false) as Hno;
      [|split; by apply Hno].
    intros x y Hx Hy. apply not_true_iff_false. rewrite overlap_exact by (by apply Hsh).
    intros (e & Hr & Hf). destruct (H e) as [s Hs].
    pose proof (proj1 (Hs x Hx) Hr). pose proof (proj2 (Hs y Hy) Hf). congruence.
Qed.

(** A key required in [prod] next to one forbidden in [dev]. *)
Lemma group_check_exact_witness :
  let in_prod := mkPresenceRules (mkPresence PresenceExplicit ["prod"]) (mkPresence PresenceNone []) in
  let not_dev := mkPresenceRules (mkPresence PresenceNone []) (mkPresence PresenceExplicit ["dev"]) in
  (∀ a b, a ∈ [in_prod; not_dev] → b ∈ [in_prod; not_dev] → CheckGroupPresence a b = Ok tt) ↔
  ∀ e, group_satisfiable [in_prod; not_dev] e.
Proof.
  intros in_prod not_dev. apply (group_check_exact [in_prod; not_dev]).
  intros m Hm. rewrite !elem_of_cons, elem_of_nil in Hm. destruct Hm as [->|[->|[]]]; reflexivity.
Defined.
