(* ===== verification/Definitions.v ===== *)
(** * Definitions bundles: matching and diffing

    [internal/definitions]: the bundle vocabulary ([bundle.go], [state.go]), the
    identity matcher ([match.go]), the diff of a bundle against the current
    state ([resolve.go]) and the drift classification ([drift.go]). The package
    is pure: a bundle and a snapshot of the project in, a resolution out.

    A key's declaration is the schema package's; what the engine uses of it is
    stated by the class [SchemaLang]. *)

From stdpp Require Import prelude gmap strings list.
From S2P Require Import Prelude Presence.

(** What definitions use of [internal/schema]: the declarations; whether a
    change of one must be evaluated against existing values; the compilation of
    a declaration under a classification, by the normalized declaration the
    artifact carries ([None] is a refusal); the stored text of an artifact and
    its reading. *)
Class SchemaLang := {
  Declaration : Type;
  Declaration_eq_dec :: EqDecision Declaration;
  ValueDependentChange : Declaration → Declaration → bool;
  CompileClassified : string → Declaration → option Declaration;
  CompiledCanonical : Declaration → option string;
  ParseDeclaration : string → option Declaration;
}.

Definition Secret : string := "secret".
Definition Config : string := "config".

(** [entity], and with the same two fields [Environment] and [KeyGroup]. *)
Record entity := mkEntity { ent_id : string; ent_name : string }.
#[export] Instance entity_eq_dec : EqDecision entity.
Proof. solve_decision. Defined.

Definition Environment : Type := entity.
Definition KeyGroup : Type := entity.

(** The refusals of the package; [ErrInvalid] and [ErrLimitExceeded] details. *)
Inductive BundleRefusal :=
| StaleBinding (kind name id : string)
| BindsTwice (kind prev name id : string)
| SameFinalName (kind prev name : string)
| DanglingGroup (key group : string)
| DanglingEnvironment (key what env : string)
| AdditiveModification (key : string)
| ForeignBase (base current : Z)
| BadFormatVersion (v : Z)
| TooManyEntries (n : nat)
| TooManyBytes (n : nat)
| IDsWithoutBase
| BadClassification (key classification : string)
| BadDeclaration (key : string)
| PresenceCarries (key what mode : string)
| PresenceNamesNone (key what : string)
| PresenceNamesEmpty (key what : string)
| PresenceNamesTwice (key what env : string)
| PresenceUnknownMode (key what mode : string).

(** ** Matching *)

Record kindMatch := mkKindMatch {
  boundDBID : list string;
  creates : list nat;
  deletes : list string;
}.

(** [m.bound(i)] *)
Definition bound (m : kindMatch) (i : nat) : bool :=
  bool_decide (default "" (boundDBID m !! i) ≠ "").

(** The last of several entries under one key wins, as assignment in a loop. *)
Definition index_by {A} (key val : A → string) (l : list A) : gmap string string :=
  foldl (λ m x, <[key x := val x]> m) ∅ l.

(** Steps 1 and 2: id-bearing entries bind. [all] is the whole bundle, [l] what
    is left of it from index [i] on. *)
Fixpoint bindIDs (kind : string) (all : list entity) (dbIDs : gset string) (i : nat) (l : list entity)
    (boundBy : gmap string nat) : result BundleRefusal (list string * gmap string nat) :=
  match l with
  | [] => Ok ([], boundBy)
  | e :: l =>
      if bool_decide (ent_id e = "") then
        let! (ids, boundBy) := bindIDs kind all dbIDs (S i) l boundBy in Ok ("" :: ids, boundBy)
      else if bool_decide (ent_id e ∉ dbIDs) then Err (StaleBinding kind (ent_name e) (ent_id e))
      else match boundBy !! ent_id e with
           | Some prev =>
               Err (BindsTwice kind (default "" (ent_name <$> all !! prev)) (ent_name e) (ent_id e))
           | None =>
               let! (ids, boundBy) := bindIDs kind all dbIDs (S i) l (<[ent_id e := i]> boundBy) in
               Ok (ent_id e :: ids, boundBy)
           end
  end.

(** Steps 3 and 4: the other entries match by name against unbound identities,
    the rest are creates. [ids] is [boundDBID] from index [i] on. *)
Fixpoint bindNames (dbByName : gmap string string) (i : nat) (l : list entity) (ids : list string)
    (boundBy : gmap string nat) : list string * list nat * gmap string nat :=
  match l, ids with
  | e :: l, id :: ids =>
      if bool_decide (ent_id e ≠ "") then
        let '(out, cs, boundBy) := bindNames dbByName (S i) l ids boundBy in (id :: out, cs, boundBy)
      else
        match dbByName !! ent_name e with
        | Some dbID =>
            match boundBy !! dbID with
            | None =>
                let '(out, cs, boundBy) := bindNames dbByName (S i) l ids (<[dbID := i]> boundBy) in
                (dbID :: out, cs, boundBy)
            | Some _ =>
                let '(out, cs, boundBy) := bindNames dbByName (S i) l ids boundBy in
                (id :: out, i :: cs, boundBy)
            end
        | None =>
            let '(out, cs, boundBy) := bindNames dbByName (S i) l ids boundBy in
            (id :: out, i :: cs, boundBy)
        end
  | _, _ => ([], [], boundBy)
  end.

(** Step 5: no two entries resolve to one final name. *)
Fixpoint checkFinalNames (kind : string) (all : list entity) (i : nat) (l : list entity)
    (finalNames : gmap string nat) : result BundleRefusal unit :=
  match l with
  | [] => Ok tt
  | e :: l =>
      match finalNames !! ent_name e with
      | Some prev => Err (SameFinalName kind (default "" (ent_name <$> all !! prev)) (ent_name e))
      | None => checkFinalNames kind all (S i) l (<[ent_name e := i]> finalNames)
      end
  end.

Definition matchEntities (kind : string) (bundle current : list entity) (additive : bool) :
    result BundleRefusal kindMatch :=
  let dbByName := index_by ent_name ent_id current in
  let dbIDs : gset string := list_to_set (ent_id <$> current) in
  let! (ids, boundBy) := bindIDs kind bundle dbIDs 0 bundle ∅ in
  let '(ids, cs, boundBy) := bindNames dbByName 0 bundle ids boundBy in
  let! _ := checkFinalNames kind bundle 0 bundle ∅ in
  let deletes :=
    if negb additive
    then filter (λ id, boundBy !! id = None) (ent_id <$> current) else [] in
  Ok (mkKindMatch ids cs deletes).

Section engine.
Context `{SchemaLang}.

(** ** Bundles and the current state *)

Record Key := mkKey {
  k_id : string; k_name : string; k_folder : string; k_class : string; k_desc : string;
  k_deprecated : bool; k_note : string; k_group : string; k_decl : Declaration;
  k_required : Presence; k_forbidden : Presence;
}.

Record Bundle := mkBundle {
  FormatVersion_of : Z; BaseRevision : option Z;
  b_envs : list Environment; b_groups : list KeyGroup; b_keys : list Key;
}.

(** A live catalogue key; group and presence by id. *)
Record CurrentKey := mkCurrentKey {
  c_id : string; c_name : string; c_folder : string; c_class : string; c_desc : string;
  c_deprecated : bool; c_note : string; c_groupID : string; c_decl : Declaration;
  c_required : Presence; c_forbidden : Presence;
}.

Record CurrentState := mkCurrentState {
  SchemaRevision : Z; s_envs : list Environment; s_groups : list KeyGroup; s_keys : list CurrentKey;
}.

Definition Additive (b : Bundle) : bool := bool_decide (BaseRevision b = None).

Definition envEntities (envs : list Environment) : list entity :=
  (λ e, mkEntity (ent_id e) (ent_name e)) <$> envs.
Definition groupEntities (gs : list KeyGroup) : list entity :=
  (λ g, mkEntity (ent_id g) (ent_name g)) <$> gs.
Definition bundleKeyEntities (keys : list Key) : list entity :=
  (λ k, mkEntity (k_id k) (k_name k)) <$> keys.
Definition currentKeyEntities (keys : list CurrentKey) : list entity :=
  (λ k, mkEntity (c_id k) (c_name k)) <$> keys.

(** ** Resolution *)

Record Rename := mkRename { rn_id : string; rn_from : string; rn_to : string }.

Definition Ref : Type := entity.

Record KeyUpdate := mkKeyUpdate {
  u_id : string; u_prevName : string; u_desired : Key;
  Renamed : bool; MetaChanged : bool; DeclChanged : bool; Reclassified : bool;
  GroupChanged : bool; PresenceChanged : bool;
  PrevClassification : string; PrevDeclaration : Declaration;
}.

Record Resolution := mkResolution {
  r_additive : bool;
  EnvCreates : list string; EnvRenames : list Rename; EnvDeletes : list Ref;
  GroupCreates : list string; GroupRenames : list Rename; GroupDeletes : list Ref;
  KeyCreates : list Key; KeyUpdates : list KeyUpdate; KeyDeletes : list Ref;
  RevealKeys : list string;
}.

(** [nameFor]: the first item with the id, or the empty string. *)
Definition nameFor (items : list entity) (id : string) : string :=
  match list_find (λ e, ent_id e = id) items with Some (_, e) => ent_name e | None => "" end.

Definition refsFor (items : list entity) (ids : list string) : list Ref :=
  (λ id, mkEntity id (nameFor items id)) <$> ids.

Definition presenceChanged (before desired : Presence) (envIdentity : gmap string string) : bool :=
  if bool_decide (Mode before ≠ Mode desired) then true
  else if bool_decide (Mode desired ≠ PresenceExplicit) then false
  else
    let beforeSet : gset string := list_to_set (Environments before) in
    if negb (Nat.eqb (length (Environments before)) (length (Environments desired))) then true
    else existsb (λ name, bool_decide (default "" (envIdentity !! name) ∉ beforeSet)) (Environments desired).

Definition diffKey (before : CurrentKey) (desired : Key) (envIdentity groupIdentity : gmap string string) :
    KeyUpdate :=
  let desiredGroup :=
    if bool_decide (k_group desired ≠ "") then default "" (groupIdentity !! k_group desired) else "" in
  {| u_id := c_id before; u_prevName := c_name before; u_desired := desired;
     Renamed := bool_decide (c_name before ≠ k_name desired);
     MetaChanged :=
       bool_decide (c_folder before ≠ k_folder desired) || bool_decide (c_desc before ≠ k_desc desired)
       || bool_decide (c_deprecated before ≠ k_deprecated desired)
       || bool_decide (c_note before ≠ k_note desired);
     DeclChanged := ValueDependentChange (c_decl before) (k_decl desired);
     Reclassified := bool_decide (c_class before ≠ k_class desired);
     GroupChanged := bool_decide (desiredGroup ≠ c_groupID before);
     PresenceChanged :=
       presenceChanged (c_required before) (k_required desired) envIdentity
       || presenceChanged (c_forbidden before) (k_forbidden desired) envIdentity;
     PrevClassification := c_class before; PrevDeclaration := c_decl before |}.

Definition changed (u : KeyUpdate) : bool :=
  Renamed u || MetaChanged u || DeclChanged u || Reclassified u || GroupChanged u || PresenceChanged u.

Definition NeedsReveal (u : KeyUpdate) : bool :=
  let wasSecret := bool_decide (PrevClassification u = Secret) in
  (wasSecret && DeclChanged u) || (wasSecret && bool_decide (k_class (u_desired u) = Config)).

(** The first dangling environment name of a rule. *)
Definition danglingEnv (key what : string) (p : Presence) (envNames : gset string) :
    result BundleRefusal unit :=
  match list_find (λ name, name ∉ envNames) (Environments p) with
  | Some (_, name) => Err (DanglingEnvironment key what name)
  | None => Ok tt
  end.

Definition validateKeyReferences (k : Key) (envNames groupNames : gset string) : result BundleRefusal unit :=
  let! _ := if bool_decide (k_group k ≠ "") && bool_decide (k_group k ∉ groupNames)
            then Err (DanglingGroup (k_name k) (k_group k)) else Ok tt in
  let! _ := danglingEnv (k_name k) "required_in" (k_required k) envNames in
  danglingEnv (k_name k) "forbidden_in" (k_forbidden k) envNames.

(** The identity a name of the bundle stands for: what it bound to, or a mark
    no stored id carries. *)
Fixpoint identities (l : list entity) (ids : list string) (m : gmap string string) : gmap string string :=
  match l, ids with
  | e :: l, id :: ids =>
      identities l ids
        (<[ent_name e := if bool_decide (id ≠ "") then id else "new:" +:+ ent_name e]> m)
  | _, _ => m
  end.

(** One topology kind's renames and creates, in bundle order. *)
Fixpoint topology (current : list entity) (l : list entity) (ids : list string) :
    list string * list Rename :=
  match l, ids with
  | e :: l, id :: ids =>
      let '(cs, rs) := topology current l ids in
      if bool_decide (id ≠ "") then
        let from := nameFor current id in
        if bool_decide (from ≠ ent_name e) then (cs, mkRename id from (ent_name e) :: rs) else (cs, rs)
      else (ent_name e :: cs, rs)
  | _, _ => ([], [])
  end.

(** The key loop. [curKeyByID] is total on bound ids. *)
Fixpoint resolveKeys (additive strict : bool) (cur : list CurrentKey) (envNames groupNames : gset string)
    (envIdentity groupIdentity : gmap string string) (l : list Key) (ids : list string) :
    result BundleRefusal (list Key * list KeyUpdate * list string) :=
  match l, ids with
  | k :: l, id :: ids =>
      let! _ := validateKeyReferences k envNames groupNames in
      let rest := resolveKeys additive strict cur envNames groupNames envIdentity groupIdentity l ids in
      if bool_decide (id = "") then
        let! (cs, us, rev) := rest in Ok (k :: cs, us, rev)
      else
        match list_find (λ c, c_id c = id) cur with
        | None => rest
        | Some (_, before) =>
            let upd := diffKey before k envIdentity groupIdentity in
            if negb (changed upd) then rest
            else if additive && strict then Err (AdditiveModification (k_name k))
            else
              let! (cs, us, rev) := rest in
              Ok (cs, upd :: us, if NeedsReveal upd then k_name k :: rev else rev)
        end
  | _, _ => Ok ([], [], [])
  end.

Definition resolve (b : Bundle) (cur : CurrentState) (strict : bool) : result BundleRefusal Resolution :=
  let additive := Additive b in
  let! em := matchEntities "environment" (envEntities (b_envs b)) (envEntities (s_envs cur)) additive in
  let! gm := matchEntities "key group" (groupEntities (b_groups b)) (groupEntities (s_groups cur)) additive in
  let! km := matchEntities "key" (bundleKeyEntities (b_keys b)) (currentKeyEntities (s_keys cur)) additive in
  let '(ec, er) := topology (s_envs cur) (b_envs b) (boundDBID em) in
  let '(gc, gr) := topology (s_groups cur) (b_groups b) (boundDBID gm) in
  let! (kc, ku, rev) :=
    resolveKeys additive strict (s_keys cur)
      (list_to_set (ent_name <$> b_envs b)) (list_to_set (ent_name <$> b_groups b))
      (identities (b_envs b) (boundDBID em) ∅) (identities (b_groups b) (boundDBID gm) ∅)
      (b_keys b) (boundDBID km) in
  Ok {| r_additive := additive;
        EnvCreates := ec; EnvRenames := er; EnvDeletes := refsFor (s_envs cur) (deletes em);
        GroupCreates := gc; GroupRenames := gr; GroupDeletes := refsFor (s_groups cur) (deletes gm);
        KeyCreates := kc; KeyUpdates := ku;
        KeyDeletes := refsFor (currentKeyEntities (s_keys cur)) (deletes km);
        RevealKeys := sort_by String.leb rev |}.

Definition Resolve (b : Bundle) (cur : CurrentState) : result BundleRefusal Resolution := resolve b cur true.

(** ** The rendered diff and drift *)

Record KindDiff := mkKindDiff {
  d_creates : list string; d_updates : list string; d_renames : list Rename; d_deletes : list string;
}.
Record DiffT := mkDiff {
  d_envs : KindDiff; d_groups : KindDiff; d_keys : KindDiff; RevealRequired : list string;
}.

Definition Diff (r : Resolution) : DiffT :=
  mkDiff
    (mkKindDiff (EnvCreates r) [] (EnvRenames r) (ent_name <$> EnvDeletes r))
    (mkKindDiff (GroupCreates r) [] (GroupRenames r) (ent_name <$> GroupDeletes r))
    (mkKindDiff (k_name <$> KeyCreates r) ((λ u, k_name (u_desired u)) <$> KeyUpdates r)
       ((λ u, mkRename (u_id u) (u_prevName u) (k_name (u_desired u)))
          <$> filter (λ u, Renamed u = true) (KeyUpdates r))
       (ent_name <$> KeyDeletes r))
    (RevealKeys r).

Definition Empty (r : Resolution) : bool :=
  Nat.eqb (length (EnvCreates r)) 0 && Nat.eqb (length (EnvRenames r)) 0 && Nat.eqb (length (EnvDeletes r)) 0
  && Nat.eqb (length (GroupCreates r)) 0 && Nat.eqb (length (GroupRenames r)) 0
  && Nat.eqb (length (GroupDeletes r)) 0
  && Nat.eqb (length (KeyCreates r)) 0 && Nat.eqb (length (KeyUpdates r)) 0
  && Nat.eqb (length (KeyDeletes r)) 0.

Definition DeletionsPresent (r : Resolution) : bool :=
  Nat.ltb 0 (length (EnvDeletes r)) || Nat.ltb 0 (length (GroupDeletes r))
  || Nat.ltb 0 (length (KeyDeletes r)).

Inductive DriftState := DriftEqual | DriftFileAhead | DriftDBAhead | DriftDiverged.

Definition Compare (b : Bundle) (cur : CurrentState) : result BundleRefusal (DriftState * DiffT) :=
  let! res := resolve b cur false in
  let diff := negb (Empty res) in
  match BaseRevision b with
  | None => Ok (if diff then DriftFileAhead else DriftEqual, Diff res)
  | Some base =>
      if (SchemaRevision cur <? base)%Z then Err (ForeignBase base (SchemaRevision cur))
      else if (base =? SchemaRevision cur)%Z then Ok (if diff then DriftFileAhead else DriftEqual, Diff res)
      else Ok (if diff then DriftDiverged else DriftDBAhead, Diff res)
  end.

Definition Classify (b : Bundle) (cur : CurrentState) : result BundleRefusal DriftState :=
  let! (state, _) := Compare b cur in Ok state.
End engine.
