(* ===== verification/Catalogue.v ===== *)
(** * The key catalogue's tables

    One project's rows of the tables a definitions apply writes, and the store
    statements it writes them with: [internal/store/repos_catalogue.go],
    [repos.go] (environments), [repos_revisions.go], [repos_values.go],
    [repos_scanning.go] and [ssh.go] over the queries of
    [store/queries/sqlite]. Primary keys are map keys; the UNIQUE, CHECK and
    FOREIGN KEY constraints of the migrations are the refusals of the
    statements: [constraint] turns a violation into [ErrConflict], [affected] an
    update or delete that met no row into [ErrNotFound].

    The access tables (grants, member access rules, the transaction's
    authorization) are another component's: the class [AccessAdmin] states what
    a definitions apply calls of it. *)

From stdpp Require Import prelude gmap strings pretty list.
From S2P Require Import Prelude StateErr Presence Definitions.

Inductive conflict :=
| UniqueName | PrimaryKey | ForeignKey (table : string) | CheckViolated
| PinnedByAdapter (key : string)
| GitManaged
| StillHoldsValues (key : string)
| PlanUsed | PlanExpired
| StalePin (moved : string)
| DeletionRefused (why : string).

Inductive DefError :=
| ErrNotFound
| ErrConflict (c : conflict)
| ErrSSHLiveCA
| ErrPKICertificateRetention
| ErrUnauthorized (op env : string)
| ErrBundle (r : BundleRefusal)
| ErrPresence (e : PresenceError)
| ErrInvalid (what : string)
| ErrLimitExceeded (what : string)
| ErrInternal (what : string).

(** The audit events of an apply, by type, object and what they name. *)
Record Event := mkEvent { ev_type : string; ev_object : string; ev_payload : list string }.

Record EnvRow := mkEnvRow { er_name : string; er_order : Z; er_protected : bool }.

Record KeyRow := mkKeyRow {
  kr_name : string; kr_folder : string; kr_class : string; kr_desc : string;
  kr_deprecated : bool; kr_note : string; kr_decl : string;
  kr_required : string; kr_forbidden : string; kr_group : string;
}.

(** What an apply uses of the access component: per-environment authorization,
    and the release of the grants and rule items that name an environment or a
    key. [refs_env] and [refs_key] are its rows' foreign keys. *)
Class AccessAdmin (A : Type) := {
  AuthorizeEnv : string → string → A → A * bool;
  releaseEnvironmentGrants : string → A → A * bool;
  releaseKeyRules : string → A → A * bool;
  refs_env : A → string → bool;
  refs_key : A → string → bool;
}.

Record Project (A : Type) := mkProject {
  envs : gmap string EnvRow;
  groups : gmap string string;                 (* id ↦ name *)
  keys : gmap string KeyRow;
  presence : gset KeyPresence;
  revision : Z;
  values : gset (string * string);             (* key, environment *)
  pending : gset (string * string);            (* key, environment *)
  dismissals : gset string;                    (* key *)
  snapshots : gset (string * string);          (* environment, snapshot *)
  snapshot_rows : gset (string * string);      (* entries, occurrences, key changes: environment, snapshot *)
  pins : gset (string * string);               (* environment, snapshot *)
  live_cas : gset string;                      (* environment *)
  ssh_rows : gset string;                      (* environment *)
  env_refs : gset string;                      (* other restricting references *)
  pki_certs : gset string;                     (* environment *)
  adapter_keys : gset string;                  (* key *)
  minted : nat;
  trail : list Event;
  access : A;
}.
Arguments mkProject {A}.
Arguments envs {A}. Arguments groups {A}. Arguments keys {A}. Arguments presence {A}.
Arguments revision {A}. Arguments values {A}. Arguments pending {A}. Arguments dismissals {A}.
Arguments snapshots {A}. Arguments snapshot_rows {A}. Arguments pins {A}. Arguments live_cas {A}.
Arguments ssh_rows {A}. Arguments env_refs {A}. Arguments pki_certs {A}. Arguments adapter_keys {A}. Arguments minted {A}.
Arguments trail {A}. Arguments access {A}.

Section statements.
Context {A : Type} `{AccessAdmin A}.

Local Abbreviation St := (Project A).
Local Abbreviation Op := (M St DefError).

Definition set_envs (s : St) x := mkProject x (groups s) (keys s) (presence s) (revision s) (values s)
  (pending s) (dismissals s) (snapshots s) (snapshot_rows s) (pins s) (live_cas s) (ssh_rows s)
  (env_refs s) (pki_certs s) (adapter_keys s) (minted s) (trail s) (access s).
Definition set_groups (s : St) x := mkProject (envs s) x (keys s) (presence s) (revision s) (values s)
  (pending s) (dismissals s) (snapshots s) (snapshot_rows s) (pins s) (live_cas s) (ssh_rows s)
  (env_refs s) (pki_certs s) (adapter_keys s) (minted s) (trail s) (access s).
Definition set_keys (s : St) x := mkProject (envs s) (groups s) x (presence s) (revision s) (values s)
  (pending s) (dismissals s) (snapshots s) (snapshot_rows s) (pins s) (live_cas s) (ssh_rows s)
  (env_refs s) (pki_certs s) (adapter_keys s) (minted s) (trail s) (access s).
Definition set_presence (s : St) x := mkProject (envs s) (groups s) (keys s) x (revision s) (values s)
  (pending s) (dismissals s) (snapshots s) (snapshot_rows s) (pins s) (live_cas s) (ssh_rows s)
  (env_refs s) (pki_certs s) (adapter_keys s) (minted s) (trail s) (access s).
Definition set_revision (s : St) x := mkProject (envs s) (groups s) (keys s) (presence s) x (values s)
  (pending s) (dismissals s) (snapshots s) (snapshot_rows s) (pins s) (live_cas s) (ssh_rows s)
  (env_refs s) (pki_certs s) (adapter_keys s) (minted s) (trail s) (access s).
Definition set_values (s : St) x := mkProject (envs s) (groups s) (keys s) (presence s) (revision s) x
  (pending s) (dismissals s) (snapshots s) (snapshot_rows s) (pins s) (live_cas s) (ssh_rows s)
  (env_refs s) (pki_certs s) (adapter_keys s) (minted s) (trail s) (access s).
Definition set_pending (s : St) x := mkProject (envs s) (groups s) (keys s) (presence s) (revision s)
  (values s) x (dismissals s) (snapshots s) (snapshot_rows s) (pins s) (live_cas s) (ssh_rows s)
  (env_refs s) (pki_certs s) (adapter_keys s) (minted s) (trail s) (access s).
Definition set_dismissals (s : St) x := mkProject (envs s) (groups s) (keys s) (presence s) (revision s)
  (values s) (pending s) x (snapshots s) (snapshot_rows s) (pins s) (live_cas s) (ssh_rows s)
  (env_refs s) (pki_certs s) (adapter_keys s) (minted s) (trail s) (access s).
Definition set_snapshots (s : St) x y := mkProject (envs s) (groups s) (keys s) (presence s) (revision s)
  (values s) (pending s) (dismissals s) x y (pins s) (live_cas s) (ssh_rows s)
  (env_refs s) (pki_certs s) (adapter_keys s) (minted s) (trail s) (access s).
Definition set_pins (s : St) x := mkProject (envs s) (groups s) (keys s) (presence s) (revision s)
  (values s) (pending s) (dismissals s) (snapshots s) (snapshot_rows s) x (live_cas s) (ssh_rows s)
  (env_refs s) (pki_certs s) (adapter_keys s) (minted s) (trail s) (access s).
Definition set_ssh_rows (s : St) x := mkProject (envs s) (groups s) (keys s) (presence s) (revision s)
  (values s) (pending s) (dismissals s) (snapshots s) (snapshot_rows s) (pins s) (live_cas s) x
  (env_refs s) (pki_certs s) (adapter_keys s) (minted s) (trail s) (access s).
Definition set_minted (s : St) x := mkProject (envs s) (groups s) (keys s) (presence s) (revision s)
  (values s) (pending s) (dismissals s) (snapshots s) (snapshot_rows s) (pins s) (live_cas s) (ssh_rows s)
  (env_refs s) (pki_certs s) (adapter_keys s) x (trail s) (access s).
Definition set_trail (s : St) x := mkProject (envs s) (groups s) (keys s) (presence s) (revision s)
  (values s) (pending s) (dismissals s) (snapshots s) (snapshot_rows s) (pins s) (live_cas s) (ssh_rows s)
  (env_refs s) (pki_certs s) (adapter_keys s) (minted s) x (access s).
Definition set_access (s : St) (x : A) := mkProject (envs s) (groups s) (keys s) (presence s) (revision s)
  (values s) (pending s) (dismissals s) (snapshots s) (snapshot_rows s) (pins s) (live_cas s) (ssh_rows s)
  (env_refs s) (pki_certs s) (adapter_keys s) (minted s) (trail s) x.

(** A statement that runs only where a constraint admits it. *)
Definition stmt (check : St → option DefError) (f : St → St) : Op unit :=
  λ s, match check s with Some e => (s, Err e) | None => (f s, Ok tt) end.

(** Is the name taken by a row other than [id]? *)
Definition taken {R} (name_of : R → string) (t : gmap string R) (id name : string) : bool :=
  bool_decide (map_Exists (λ i r, i ≠ id ∧ name_of r = name) t).

(** INSERT and UPDATE of a named row: the primary key and UNIQUE (…, name). *)
Definition insert_check {R} (name_of : R → string) (t : gmap string R) (id name : string) : option DefError :=
  if bool_decide (is_Some (t !! id)) then Some (ErrConflict PrimaryKey)
  else if taken name_of t id name then Some (ErrConflict UniqueName) else None.
Definition rename_check {R} (name_of : R → string) (t : gmap string R) (id name : string) : option DefError :=
  if bool_decide (t !! id = None) then Some ErrNotFound
  else if taken name_of t id name then Some (ErrConflict UniqueName) else None.

(** ** Environments *)

Definition Environments_Create (id name : string) (order : Z) : Op unit :=
  stmt (λ s, insert_check er_name (envs s) id name)
    (λ s, set_envs s (<[id := mkEnvRow name order false]> (envs s))).

(** [COALESCE(MAX(display_order) + 1, 0)] *)
Definition Environments_NextOrder : Op Z :=
  gets (λ s, map_fold (λ _ r m, Z.max (er_order r + 1) m) 0%Z (envs s)).

Definition rename_env (name : string) (r : EnvRow) : EnvRow := mkEnvRow name (er_order r) (er_protected r).

Definition Environments_Rename (id name : string) : Op unit :=
  stmt (λ s, rename_check er_name (envs s) id name)
    (λ s, set_envs s (alter (rename_env name) id (envs s))).

(** The rows of the other tables that restrict an environment's deletion. *)
Definition env_referenced (s : St) (env : string) : option string :=
  if bool_decide (set_Exists (λ v : string * string, v.2 = env) (values s)) then Some "value_entries"
  else if bool_decide (set_Exists (λ v : string * string, v.2 = env) (pending s)) then Some "pending_changes"
  else if bool_decide (set_Exists (λ v : string * string, v.1 = env) (snapshots s)) then Some "snapshots"
  else if bool_decide (set_Exists (λ v : string * string, v.1 = env) (pins s)) then Some "revision_pins"
  else if bool_decide (set_Exists (λ r, pr_env r = env) (presence s)) then Some "key_presence_environments"
  else if bool_decide (env ∈ ssh_rows s) then Some "ssh_cas"
  else if bool_decide (env ∈ env_refs s) then Some "adapters"
  else if refs_env (access s) env then Some "grants"
  else None.

(** An environment that ever issued a certificate is retained. *)
Definition Environments_Delete (env : string) : Op unit :=
  stmt (λ s, if bool_decide (env ∈ pki_certs s) then Some ErrPKICertificateRetention
             else if bool_decide (envs s !! env = None) then Some ErrNotFound
             else (λ t, ErrConflict (ForeignKey t)) <$> env_referenced s env)
    (λ s, set_envs s (delete env (envs s))).

Definition Environments_Get (env : string) : Op EnvRow :=
  λ s, match envs s !! env with Some r => (s, Ok r) | None => (s, Err ErrNotFound) end.

(** ** Key groups *)

Definition Catalogue_CreateGroup (id name : string) : Op unit :=
  stmt (λ s, insert_check (λ n, n) (groups s) id name)
    (λ s, set_groups s (<[id := name]> (groups s))).

Definition Catalogue_RenameGroup (id name : string) : Op unit :=
  stmt (λ s, rename_check (λ n, n) (groups s) id name)
    (λ s, set_groups s (<[id := name]> (groups s))).

Definition set_group (g : string) (r : KeyRow) : KeyRow :=
  mkKeyRow (kr_name r) (kr_folder r) (kr_class r) (kr_desc r) (kr_deprecated r) (kr_note r) (kr_decl r)
    (kr_required r) (kr_forbidden r) g.

Definition Catalogue_ClearGroupMembers (g : string) : Op unit :=
  modify (λ s, set_keys s
    ((λ r, if bool_decide (kr_group r = g ∧ g ≠ "") then set_group "" r else r) <$> keys s)).

Definition Catalogue_DeleteGroup (g : string) : Op unit :=
  stmt (λ s, if bool_decide (groups s !! g = None) then Some ErrNotFound
             else if bool_decide (map_Exists (λ _ r, kr_group r = g ∧ g ≠ "") (keys s))
             then Some (ErrConflict (ForeignKey "keys")) else None)
    (λ s, set_groups s (delete g (groups s))).

(** ** Keys *)

Definition mode_ok (m : string) : bool := bool_decide (m ∈ [PresenceAll; PresenceNone; PresenceExplicit]).
Definition class_ok (c : string) : bool := bool_decide (c ∈ [Secret; Config]).
(** The foreign key of [group_id]; the empty string is stored as NULL. *)
Definition group_ok (s : St) (g : string) : bool :=
  bool_decide (g = "") || bool_decide (is_Some (groups s !! g)).

Definition Catalogue_Get (id : string) : Op KeyRow :=
  λ s, match keys s !! id with Some r => (s, Ok r) | None => (s, Err ErrNotFound) end.

Definition Catalogue_Create (id : string) (r : KeyRow) : Op unit :=
  stmt (λ s, if negb (class_ok (kr_class r) && mode_ok (kr_required r) && mode_ok (kr_forbidden r))
             then Some (ErrConflict CheckViolated)
             else if negb (group_ok s (kr_group r)) then Some (ErrConflict (ForeignKey "key_groups"))
             else insert_check kr_name (keys s) id (kr_name r))
    (λ s, set_keys s (<[id := r]> (keys s))).

(** An UPDATE of one key row by id. *)
Definition update_key (check : St → option DefError) (id : string) (f : KeyRow → KeyRow) : Op unit :=
  stmt (λ s, if bool_decide (keys s !! id = None) then Some ErrNotFound else check s)
    (λ s, set_keys s (alter f id (keys s))).

Definition Catalogue_Rename (id name : string) : Op unit :=
  update_key (λ s, if taken kr_name (keys s) id name then Some (ErrConflict UniqueName) else None) id
    (λ r, mkKeyRow name (kr_folder r) (kr_class r) (kr_desc r) (kr_deprecated r) (kr_note r) (kr_decl r)
            (kr_required r) (kr_forbidden r) (kr_group r)).

Definition Catalogue_UpdateMetadata (id folder desc : string) (deprecated : bool) (note : string) : Op unit :=
  update_key (λ _, None) id
    (λ r, mkKeyRow (kr_name r) folder (kr_class r) desc deprecated note (kr_decl r)
            (kr_required r) (kr_forbidden r) (kr_group r)).

Definition Catalogue_UpdateDeclaration (id decl required forbidden : string) : Op unit :=
  update_key (λ _, if mode_ok required && mode_ok forbidden then None else Some (ErrConflict CheckViolated)) id
    (λ r, mkKeyRow (kr_name r) (kr_folder r) (kr_class r) (kr_desc r) (kr_deprecated r) (kr_note r) decl
            required forbidden (kr_group r)).

Definition Catalogue_SetClassification (id class : string) : Op unit :=
  update_key (λ _, if class_ok class then None else Some (ErrConflict CheckViolated)) id
    (λ r, mkKeyRow (kr_name r) (kr_folder r) class (kr_desc r) (kr_deprecated r) (kr_note r) (kr_decl r)
            (kr_required r) (kr_forbidden r) (kr_group r)).

Definition Catalogue_SetGroup (id g : string) : Op unit :=
  update_key (λ s, if group_ok s g then None else Some (ErrConflict (ForeignKey "key_groups"))) id (set_group g).

Definition key_referenced (s : St) (key : string) : option string :=
  if bool_decide (set_Exists (λ v : string * string, v.1 = key) (values s)) then Some "value_entries"
  else if bool_decide (set_Exists (λ v : string * string, v.1 = key) (pending s)) then Some "pending_changes"
  else if bool_decide (set_Exists (λ r, pr_key r = key) (presence s)) then Some "key_presence_environments"
  else if bool_decide (key ∈ dismissals s) then Some "scanning_dismissals"
  else if refs_key (access s) key then Some "rule_items"
  else None.

Definition Catalogue_Delete (key : string) : Op unit :=
  stmt (λ s, if bool_decide (keys s !! key = None) then Some ErrNotFound
             else (λ t, ErrConflict (ForeignKey t)) <$> key_referenced s key)
    (λ s, set_keys s (delete key (keys s))).

Definition Catalogue_AdapterPins (key : string) : Op bool := gets (λ s, bool_decide (key ∈ adapter_keys s)).

(** ** Presence rows *)

Definition InsertKeyPresence (row : KeyPresence) : Op unit :=
  stmt (λ s, if bool_decide (row ∈ presence s) then Some (ErrConflict PrimaryKey)
             else if bool_decide (keys s !! pr_key row = None) then Some (ErrConflict (ForeignKey "keys"))
             else if bool_decide (envs s !! pr_env row = None)
             then Some (ErrConflict (ForeignKey "environments")) else None)
    (λ s, set_presence s ({[ row ]} ∪ presence s)).

(** [rows] are stored under [key], whatever key they carry. *)
Definition Catalogue_ReplacePresence (key : string) (rows : list KeyPresence) : Op unit :=
  do* _ := modify (λ s, set_presence s (filter (λ r, pr_key r ≠ key) (presence s))) in
  for_each rows (λ r, InsertKeyPresence (mkKeyPresence key (pr_env r) (pr_rule r))).

Definition Catalogue_DeletePresenceForEnvironment (env : string) : Op unit :=
  modify (λ s, set_presence s (filter (λ r, pr_env r ≠ env) (presence s))).

Definition Catalogue_BumpSchemaRevision : Op unit := modify (λ s, set_revision s (revision s + 1)%Z).

(** ** The tables around the catalogue *)

Definition Values_ClearKey (key : string) : Op unit :=
  modify (λ s, set_values s (filter (λ v : string * string, v.1 ≠ key) (values s))).
Definition Values_ClearEnvironment (env : string) : Op unit :=
  modify (λ s, set_values s (filter (λ v : string * string, v.2 ≠ env) (values s))).
Definition Pending_DiscardKey (key : string) : Op unit :=
  modify (λ s, set_pending s (filter (λ v : string * string, v.1 ≠ key) (pending s))).
Definition Pending_DiscardEnvironment (env : string) : Op unit :=
  modify (λ s, set_pending s (filter (λ v : string * string, v.2 ≠ env) (pending s))).
Definition ScanningDismissals_DeleteByKey (key : string) : Op unit :=
  modify (λ s, set_dismissals s (dismissals s ∖ {[ key ]})).

(** The payload rows first, then the snapshots, which pins still reference. The
    [self_config] tables reference snapshots too; they belong to the instance's
    own project, in which no environment is deleted. *)
Definition Snapshots_DeleteEnvironment (env : string) : Op unit :=
  stmt (λ s, if bool_decide (set_Exists (λ v : string * string, v.1 = env ∧ v ∈ snapshots s) (pins s))
             then Some (ErrConflict (ForeignKey "revision_pins")) else None)
    (λ s, set_snapshots s (filter (λ v : string * string, v.1 ≠ env) (snapshots s))
            (filter (λ v : string * string, v.1 ≠ env) (snapshot_rows s))).
Definition Pins_DeleteEnvironment (env : string) : Op unit :=
  modify (λ s, set_pins s (filter (λ v : string * string, v.1 ≠ env) (pins s))).

Definition SSH_PurgeEnvironment (env : string) : Op unit :=
  stmt (λ s, if bool_decide (env ∈ live_cas s) then Some ErrSSHLiveCA else None)
    (λ s, set_ssh_rows s (ssh_rows s ∖ {[ env ]})).

(** ** The access component, identifiers, the audit trail *)

Definition with_access (e : DefError) (f : A → A * bool) : Op unit :=
  λ s, let '(a, ok) := f (access s) in (set_access s a, if ok then Ok tt else Err e).

Definition Authorize (op env : string) : Op unit := with_access (ErrUnauthorized op env) (AuthorizeEnv op env).
Definition release_env (env : string) : Op unit :=
  with_access (ErrInternal "grants") (releaseEnvironmentGrants env).
Definition release_key (key : string) : Op unit := with_access (ErrInternal "rules") (releaseKeyRules key).

Definition insertDefinitionEvent (ty object : string) (payload : list string) : Op unit :=
  modify (λ s, set_trail s (trail s ++ [mkEvent ty object payload])).
End statements.
