(* ===== verification/DefinitionsApply.v ===== *)
(** * Applying a definitions bundle

    [internal/service/definitions_apply_exec.go] and [definitions.go]: the
    current state read from the tables, its export as a bundle, and the
    execution of a resolution in the order that keeps every intermediate state
    legal: deletes, parking of renamed identities under temporary names,
    creates, final names, key creates and updates. Publication after the
    execution is not modelled. *)

From stdpp Require Import prelude gmap strings pretty list.
From S2P Require Import Prelude StateErr FreeText Presence Definitions Catalogue.

Section apply.
Context `{SchemaLang} {A : Type} `{AccessAdmin A}.
(** [newID]: the prefix and the ids minted so far. *)
Context (newid : string → nat → option string).

Local Abbreviation St := (Project A).
Local Abbreviation Op := (M St DefError).

(** ** Reading the current state *)

Definition str_le (a b : string) : bool := String.leb a b.

(** ORDER BY display_order, name *)
Definition ListEnvironments (s : St) : list (string * EnvRow) :=
  sort_by (λ a b, (er_order a.2 <? er_order b.2)%Z
                  || ((er_order a.2 =? er_order b.2)%Z && str_le (er_name a.2) (er_name b.2)))
    (map_to_list (envs s)).
Definition ListGroups (s : St) : list (string * string) :=
  sort_by (λ a b, str_le a.2 b.2) (map_to_list (groups s)).
Definition ListKeys (s : St) : list (string * KeyRow) :=
  sort_by (λ a b, str_le (kr_name a.2) (kr_name b.2)) (map_to_list (keys s)).
(** ORDER BY key_id, rule, environment_id *)
Definition presence_le (a b : KeyPresence) : bool :=
  if bool_decide (pr_key a = pr_key b) then
    if bool_decide (pr_rule a = pr_rule b) then str_le (pr_env a) (pr_env b)
    else str_le (pr_rule a) (pr_rule b)
  else str_le (pr_key a) (pr_key b).
Definition ListPresence (s : St) : list KeyPresence := sort_by presence_le (elements (presence s)).

Definition currentKey (presenceByKey : gmap string (list KeyPresence)) (id : string) (row : KeyRow) :
    option CurrentKey :=
  decl ← ParseDeclaration (kr_decl row);
  let rules := presenceOf id (kr_required row) (kr_forbidden row) (mget presenceByKey id) in
  Some {| c_id := id; c_name := kr_name row; c_folder := kr_folder row; c_class := kr_class row;
          c_desc := kr_desc row; c_deprecated := kr_deprecated row; c_note := kr_note row;
          c_groupID := kr_group row; c_decl := decl;
          c_required := Required rules; c_forbidden := Forbidden rules |}.

Definition buildCurrentState : Op CurrentState :=
  λ s,
    let presenceByKey := indexPresenceByKey (ListPresence s) in
    match mapM (λ kr, currentKey presenceByKey kr.1 kr.2) (ListKeys s) with
    | None => (s, Err (ErrInternal "stored declaration unreadable"))
    | Some ks =>
        (s, Ok {| SchemaRevision := revision s;
                  s_envs := (λ e, mkEntity e.1 (er_name e.2)) <$> ListEnvironments s;
                  s_groups := (λ g, mkEntity g.1 g.2) <$> ListGroups s;
                  s_keys := ks |})
    end.

(** ** Export *)

Definition bundlePresence (p : Presence) (envNameByID : gmap string string) : Presence :=
  mkPresence (Mode p) ((λ id, default "" (envNameByID !! id)) <$> Environments p).

Definition bundleFromState (cur : CurrentState) (withIDs : bool) : Bundle :=
  let envNameByID := index_by ent_id ent_name (s_envs cur) in
  let groupNameByID := index_by ent_id ent_name (s_groups cur) in
  let idOf (id : string) := if withIDs then id else "" in
  {| FormatVersion_of := 1;
     BaseRevision := if withIDs then Some (SchemaRevision cur) else None;
     b_envs := (λ e, mkEntity (idOf (ent_id e)) (ent_name e)) <$> s_envs cur;
     b_groups := (λ g, mkEntity (idOf (ent_id g)) (ent_name g)) <$> s_groups cur;
     b_keys := (λ k,
       {| k_id := idOf (c_id k); k_name := c_name k; k_folder := c_folder k; k_class := c_class k;
          k_desc := c_desc k; k_deprecated := c_deprecated k; k_note := c_note k;
          k_group := default "" (groupNameByID !! c_groupID k); k_decl := c_decl k;
          k_required := bundlePresence (c_required k) envNameByID;
          k_forbidden := bundlePresence (c_forbidden k) envNameByID |}) <$> s_keys cur |}.

(** ** Executing a resolution *)

Definition event (ty object : string) (payload : list string) : Op unit :=
  insertDefinitionEvent ty object (SanitizeFreeText <$> payload).

Definition newID (prefix : string) : Op string :=
  λ s, match newid prefix (minted s) with
       | Some id => (set_minted s (S (minted s)), Ok id)
       | None => (s, Err (ErrInternal "generate id"))
       end.

Definition refuseAdapterPinnedKey (id name : string) : Op unit :=
  do* pinned := Catalogue_AdapterPins id in
  if pinned : bool then fail (ErrConflict (PinnedByAdapter name)) else ret tt.

Definition deleteKey (del : Ref) : Op unit :=
  do* key := Catalogue_Get (ent_id del) in
  do* _ := refuseAdapterPinnedKey (ent_id del) (kr_name key) in
  do* _ := Values_ClearKey (ent_id del) in
  do* _ := Catalogue_ReplacePresence (ent_id del) [] in
  do* _ := Pending_DiscardKey (ent_id del) in
  do* _ := ScanningDismissals_DeleteByKey (ent_id del) in
  do* _ := release_key (ent_id del) in
  do* _ := Catalogue_Delete (ent_id del) in
  event "settings.key_deleted" (ent_id del) [ent_name del].

Definition deleteGroup (del : Ref) : Op unit :=
  do* members := gets (λ s, size (filter (λ kr : string * KeyRow, kr_group kr.2 = ent_id del) (keys s))) in
  do* _ := Catalogue_ClearGroupMembers (ent_id del) in
  do* _ := Catalogue_DeleteGroup (ent_id del) in
  event "settings.key_group_deleted" (ent_id del) [ent_name del; pretty members].

(** The environment cascade of a definitions apply. *)
Definition deleteEnvironment (env : string) : Op unit :=
  do* _ := Authorize "environment.delete" env in
  do* _ := Pending_DiscardEnvironment env in
  do* _ := Snapshots_DeleteEnvironment env in
  do* _ := Pins_DeleteEnvironment env in
  do* _ := Catalogue_DeletePresenceForEnvironment env in
  do* _ := SSH_PurgeEnvironment env in
  do* _ := release_env env in
  Environments_Delete env.

Definition renameEnv (env name : string) : Op unit :=
  do* _ := Authorize "environment.rename" env in
  Environments_Rename env name.

Definition tempName (i : nat) : string := "TMP_RENAME_" +:+ pretty i.

(** [temp()]: the first unused temporary name from [counter] on, with the
    closure's [used] and [counter] after the call. The loop of the code has no
    bound; [S (size used)] candidates always hold a free one. *)
Definition temp (used : gset string) (counter : nat) : option (string * gset string * nat) :=
  i ← search (λ i, bool_decide (tempName i ∉ used)) (S (size used)) counter;
  Some (tempName i, {[ tempName i ]} ∪ used, S i).

Definition used_names (res : Resolution) (cur : CurrentState) : gset string :=
  list_to_set (ent_name <$> s_envs cur) ∪ list_to_set (ent_name <$> s_groups cur)
  ∪ list_to_set (c_name <$> s_keys cur)
  ∪ list_to_set (EnvCreates res) ∪ list_to_set (GroupCreates res) ∪ list_to_set (k_name <$> KeyCreates res)
  ∪ list_to_set (rn_to <$> EnvRenames res) ∪ list_to_set (rn_to <$> GroupRenames res)
  ∪ list_to_set ((λ u, k_name (u_desired u)) <$> KeyUpdates res).

(** Every id to a fresh temporary name. *)
Fixpoint park (rename : string → string → Op unit) (ids : list string) (used : gset string) (counter : nat) :
    Op (gset string * nat) :=
  match ids with
  | [] => ret (used, counter)
  | id :: ids =>
      match temp used counter with
      | None => fail (ErrInternal "temp")
      | Some (name, used, counter) =>
          do* _ := rename id name in park rename ids used counter
      end
  end.

Definition parkedKeys (res : Resolution) : list (string * string) :=
  (λ u, (u_id u, k_name (u_desired u))) <$> filter (λ u, Renamed u = true) (KeyUpdates res).

Definition parkRenames (res : Resolution) (cur : CurrentState) : Op (list (string * string)) :=
  let parked := parkedKeys res in
  do* uc := park renameEnv (rn_id <$> EnvRenames res) (used_names res cur) 0 in
  do* uc := park Catalogue_RenameGroup (rn_id <$> GroupRenames res) uc.1 uc.2 in
  do* _ := park Catalogue_Rename parked.*1 uc.1 uc.2 in
  ret parked.

(** [envIDByName] and [groupIDByName] after the deletes. *)
Definition liveIDs (current : list entity) (deleted : list Ref) : gmap string string :=
  foldl (λ m del, filter (λ kv : string * string, kv.2 ≠ ent_id del) m)
    (index_by ent_name ent_id current) deleted.

Fixpoint createEnvs (names : list string) (ids : gmap string string) : Op (gmap string string) :=
  match names with
  | [] => ret ids
  | name :: names =>
      do* id := newID "env" in
      do* order := Environments_NextOrder in
      do* _ := Environments_Create id name order in
      do* _ := event "settings.environment_created" id [name] in
      createEnvs names (<[name := id]> ids)
  end.

Fixpoint createGroups (names : list string) (ids : gmap string string) : Op (gmap string string) :=
  match names with
  | [] => ret ids
  | name :: names =>
      do* id := newID "kgr" in
      do* _ := Catalogue_CreateGroup id name in
      do* _ := event "settings.key_group_created" id [name] in
      createGroups names (<[name := id]> ids)
  end.

(** One topology kind's final names. *)
Fixpoint finishTopology (rename : string → string → Op unit) (ev : string) (rs : list Rename)
    (ids : gmap string string) : Op (gmap string string) :=
  match rs with
  | [] => ret ids
  | r :: rs =>
      do* _ := rename (rn_id r) (rn_to r) in
      do* _ := event ev (rn_id r) [rn_from r; rn_to r] in
      finishTopology rename ev rs (<[rn_to r := rn_id r]> ids)
  end.

Definition finishKey (res : Resolution) (kr : string * string) : Op unit :=
  do* _ := Catalogue_Rename kr.1 kr.2 in
  let from := match list_find (λ u, u_id u = kr.1) (KeyUpdates res) with
              | Some (_, u) => u_prevName u | None => "" end in
  event "settings.key_renamed" kr.1 [from; kr.2].

Definition finishRenames (res : Resolution) (parked : list (string * string))
    (envIDs groupIDs : gmap string string) : Op (gmap string string * gmap string string) :=
  do* envIDs := finishTopology renameEnv "settings.environment_renamed" (EnvRenames res) envIDs in
  do* groupIDs := finishTopology Catalogue_RenameGroup "settings.key_group_renamed" (GroupRenames res) groupIDs in
  do* _ := for_each parked (finishKey res) in
  ret (envIDs, groupIDs).

(** Presence by environment name to presence by id. *)
Definition resolvePresenceRule (p : Presence) (envIDByName : gmap string string) : option Presence :=
  mkPresence (Mode p) <$> mapM (λ name, envIDByName !! name) (Environments p).

Definition resolvePresence (k : Key) (envIDByName : gmap string string) : Op PresenceRules :=
  match resolvePresenceRule (k_required k) envIDByName with
  | None => fail (ErrInvalid "presence references unknown environment")
  | Some req =>
      match resolvePresenceRule (k_forbidden k) envIDByName with
      | None => fail (ErrInvalid "presence references unknown environment")
      | Some forb => ret (mkPresenceRules req forb)
      end
  end.

Definition checkPresenceRules (p : PresenceRules) : Op unit :=
  match CheckPresence (Required p) (Forbidden p) with
  | Ok _ => ret tt
  | Err e => fail (ErrPresence e)
  end.

Definition canonicalText (decl : Declaration) : Op string :=
  match CompiledCanonical decl with Some t => ret t | None => fail (ErrInvalid "declaration") end.

(** [groupIDByName[k.Group]], or no group. *)
Definition groupID (k : Key) (groupIDByName : gmap string string) : string :=
  if bool_decide (k_group k ≠ "") then default "" (groupIDByName !! k_group k) else "".

Definition createKey (k : Key) (compiled : Declaration) (envIDByName groupIDByName : gmap string string) :
    Op unit :=
  do* p := resolvePresence k envIDByName in
  do* _ := checkPresenceRules p in
  do* canonical := canonicalText compiled in
  do* id := newID "key" in
  do* _ := Catalogue_Create id
    {| kr_name := k_name k; kr_folder := k_folder k; kr_class := k_class k; kr_desc := k_desc k;
       kr_deprecated := k_deprecated k; kr_note := k_note k; kr_decl := canonical;
       kr_required := Mode (Required p); kr_forbidden := Mode (Forbidden p);
       kr_group := groupID k groupIDByName |} in
  do* _ := Catalogue_ReplacePresence id (presenceRowsFor id p) in
  event "settings.key_created" id [k_name k; k_class k; k_folder k].

Definition when (b : bool) (m : Op unit) : Op unit := if b then m else ret tt.

Definition bool_text (b : bool) : string := if b then "true" else "false".

Definition updateKey (upd : KeyUpdate) (compiled : Declaration) (envIDByName groupIDByName : gmap string string)
    (finalRevision : Z) : Op unit :=
  let k := u_desired upd in
  let id := u_id upd in
  do* before := Catalogue_Get id in
  do* p := resolvePresence k envIDByName in
  do* _ := checkPresenceRules p in
  do* _ := when (MetaChanged upd) (
    do* _ := Catalogue_UpdateMetadata id (k_folder k) (k_desc k) (k_deprecated k) (k_note k) in
    event "settings.key_metadata_changed" id [k_name k; k_folder k]) in
  do* _ := when (DeclChanged upd || PresenceChanged upd) (
    do* canonical := canonicalText compiled in
    do* _ := Catalogue_UpdateDeclaration id canonical (Mode (Required p)) (Mode (Forbidden p)) in
    do* _ := Catalogue_ReplacePresence id (presenceRowsFor id p) in
    event "settings.key_declaration_changed" id
      [k_name k; pretty finalRevision; bool_text (DeclChanged upd); bool_text (PresenceChanged upd)]) in
  do* _ := when (Reclassified upd) (
    do* key := Catalogue_Get id in
    do* _ := refuseAdapterPinnedKey id (kr_name key) in
    do* _ := when (bool_decide (PrevClassification upd = Secret) && bool_decide (k_class k = Config))
               (fail (ErrInvalid "definitions apply cannot declassify")) in
    do* _ := Catalogue_SetClassification id (k_class k) in
    do* _ := when (bool_decide (PrevClassification upd = Config) && bool_decide (k_class k = Secret))
               (ScanningDismissals_DeleteByKey id) in
    event "settings.key_reclassified" id [k_name k; PrevClassification upd; k_class k]) in
  when (GroupChanged upd) (
    do* _ := Catalogue_SetGroup id (groupID k groupIDByName) in
    event "settings.key_group_membership_changed" id [k_name k; kr_group before; groupID k groupIDByName]).

(** [compiledBundle.CompiledDeclaration(name)], from the parsed bundle's keys. *)
Definition CompiledDeclaration (declarations : gmap string Declaration) (name : string) : Op Declaration :=
  match declarations !! name with
  | Some d => ret d
  | None => fail (ErrInternal "compiled declaration missing")
  end.

Definition executeResolution (res : Resolution) (cur : CurrentState)
    (declarations : gmap string Declaration) (finalRevision : Z) : Op unit :=
  do* _ := for_each (KeyDeletes res) deleteKey in
  do* _ := for_each (GroupDeletes res) deleteGroup in
  do* _ := for_each (EnvDeletes res) (λ del,
    do* _ := deleteEnvironment (ent_id del) in
    event "settings.environment_deleted" (ent_id del) [ent_name del]) in
  do* parked := parkRenames res cur in
  do* envIDs := createEnvs (EnvCreates res) (liveIDs (s_envs cur) (EnvDeletes res)) in
  do* groupIDs := createGroups (GroupCreates res) (liveIDs (s_groups cur) (GroupDeletes res)) in
  do* ids := finishRenames res parked envIDs groupIDs in
  do* _ := for_each (KeyCreates res) (λ k,
    do* compiled := CompiledDeclaration declarations (k_name k) in
    createKey k compiled ids.1 ids.2) in
  for_each (KeyUpdates res) (λ upd,
    do* compiled := CompiledDeclaration declarations (k_name (u_desired upd)) in
    updateKey upd compiled ids.1 ids.2 finalRevision).
End apply.
