(* ===== verification/DefinitionsMatch.v ===== *)
(** * What the matcher guarantees

    [matchEntities] is shown to be a partial injection of bundle entries into
    current identities that respects ids first and names second, with the
    unmatched identities as its deletions; and to bind every entry by name where
    the current state already holds the bundle. *)

From stdpp Require Import prelude gmap strings list.
From S2P Require Import Prelude Definitions.

(** Current entities as the tables hold them: identities and names unique. *)
Definition wf_entities (current : list entity) : Prop :=
  NoDup (ent_id <$> current) ∧ NoDup (ent_name <$> current) ∧ ("" ∉ ent_id <$> current).

(** ** Loop indexes *)

Lemma index_by_lookup {A} (key val : A → string) (l : list A) k v :
  NoDup (key <$> l) →
  index_by key val l !! k = Some v ↔ ∃ x, x ∈ l ∧ key x = k ∧ val x = v.
Proof.
  unfold index_by. revert v. induction l as [|x l IH] using rev_ind; intros v Hnd.
  { cbn [foldl]. rewrite lookup_empty. setoid_rewrite elem_of_nil. naive_solver. }
  rewrite foldl_app. simpl. rewrite fmap_app, NoDup_app in Hnd. destruct Hnd as (Hl & Hd & _).
  setoid_rewrite elem_of_app. setoid_rewrite list_elem_of_singleton.
  destruct (decide (key x = k)) as [<-|Hne].
  - rewrite lookup_insert_eq. split; [naive_solver|].
    intros (y & [Hy| ->] & Hk & Hv); [|by subst]. exfalso. apply (Hd (key x)).
    + rewrite list_elem_of_fmap. eauto.
    + set_solver.
  - rewrite lookup_insert_ne by done. rewrite (IH v Hl). naive_solver.
Qed.

Lemma index_by_None {A} (key val : A → string) (l : list A) k :
  NoDup (key <$> l) → index_by key val l !! k = None ↔ ∀ x, x ∈ l → key x ≠ k.
Proof.
  intros Hnd. rewrite eq_None_not_Some. split.
  - intros Hn x Hx Hk. apply Hn. exists (val x). apply index_by_lookup; eauto.
  - intros Hall [v Hv]. apply index_by_lookup in Hv as (x & Hx & Hk & _); [|done]. by destruct (Hall x Hx).
Qed.

Lemma NoDup_fmap_elem {A B} (f : A → B) (l : list A) x y :
  NoDup (f <$> l) → x ∈ l → y ∈ l → f x = f y → x = y.
Proof.
  intros Hnd Hx Hy E. apply list_elem_of_lookup in Hx as [i Hi], Hy as [j Hj].
  assert (i = j) as <-; [|congruence].
  eapply (NoDup_lookup (f <$> l)); [done| |]; rewrite list_lookup_fmap; [by rewrite Hi|].
  rewrite Hj. simpl. by rewrite E.
Qed.

Lemma NoDup_fmap_on {A B} (f : A → B) (l : list A) :
  NoDup l → (∀ x y, x ∈ l → y ∈ l → f x = f y → x = y) → NoDup (f <$> l).
Proof.
  induction l as [|a l IH]; intros Hnd Hinj; [constructor|]. rewrite NoDup_cons in Hnd. destruct Hnd as [Ha Hnd].
  rewrite fmap_cons, NoDup_cons. split.
  - intros (y & E & Hy)%list_elem_of_fmap. apply Ha. rewrite (Hinj a y); [done|set_solver..|done].
  - apply IH; [done|]. intros. apply Hinj; [set_solver..|done].
Qed.

(** ** The loops *)

Lemma bindIDs_spec kind all dbIDs l : ∀ i bb ids bb',
  bindIDs kind all dbIDs i l bb = Ok (ids, bb') →
  ids = ent_id <$> l
  ∧ (∀ e, e ∈ l → ent_id e ≠ "" → ent_id e ∈ dbIDs ∧ bb !! ent_id e = None)
  ∧ (∀ j k e e', l !! j = Some e → l !! k = Some e' → ent_id e = ent_id e' → ent_id e ≠ "" → j = k)
  ∧ (∀ id, is_Some (bb' !! id) ↔ is_Some (bb !! id) ∨ (id ≠ "" ∧ id ∈ ent_id <$> l)).
Proof.
  induction l as [|e l IH]; intros i bb ids bb'; simpl.
  { intros [= <- <-]. split; [done|]. setoid_rewrite elem_of_nil. naive_solver. }
  case_bool_decide as He.
  - rewrite rbind_Ok. intros ([ids' bb''] & Hb & [= <- <-]).
    destruct (IH _ _ _ _ Hb) as (-> & H1 & H2 & H3). split; [by rewrite He|].
    split; [|split].
    + intros e'. rewrite elem_of_cons. intros [->|?]; [done|auto].
    + intros [|j] [|k] e1 e2; simpl; intros; simplify_eq; eauto; congruence.
    + intros id. rewrite H3, elem_of_cons. naive_solver.
  - case_bool_decide as Hdb; [done|].
    destruct (bb !! ent_id e) as [prev|] eqn:Ebb; [done|].
    rewrite rbind_Ok. intros ([ids' bb''] & Hb & [= <- <-]).
    destruct (IH _ _ _ _ Hb) as (-> & H1 & H2 & H3). split; [done|].
    assert (∀ e', e' ∈ l → ent_id e' ≠ "" → ent_id e' ≠ ent_id e) as Hne.
    { intros e' He' Hid E. destruct (H1 e' He' Hid) as [_ Hn]. rewrite E, lookup_insert_eq in Hn. done. }
    split; [|split].
    + intros e'. rewrite elem_of_cons. intros [->|He'] Hid; [done|].
      destruct (H1 e' He' Hid) as [? Hn]. split; [done|].
      rewrite lookup_insert_ne in Hn; [done|]. intros ?. by destruct (Hne e').
    + intros [|j] [|k] e1 e2; simpl; intros Hj Hk E Hid; simplify_eq; [done| | |].
      * destruct (Hne e2); [by eapply list_elem_of_lookup_2|congruence|done].
      * destruct (Hne e1); [by eapply list_elem_of_lookup_2|congruence|done].
      * f_equal. eauto.
    + intros id. rewrite H3, elem_of_cons. destruct (decide (ent_id e = id)) as [<-|Hid].
      * rewrite lookup_insert_eq. naive_solver.
      * rewrite lookup_insert_ne by done. naive_solver.
Qed.

(** The pointwise outcome of the name loop. *)
Definition name_bound (dbByName : gmap string string) (e : entity) (o : string) : Prop :=
  (ent_id e ≠ "" ∧ o = ent_id e) ∨ (ent_id e = "" ∧ (o = "" ∨ dbByName !! ent_name e = Some o)).

Record names_spec (dbByName : gmap string string) (l : list entity) (bb : gmap string nat)
    (out : list string) (bb' : gmap string nat) : Prop := {
  ns_out : Forall2 (name_bound dbByName) l out;
  ns_free : ∀ j e o, l !! j = Some e → out !! j = Some o → ent_id e = "" → o ≠ "" → bb !! o = None;
  ns_inj : ∀ j k e e' o, l !! j = Some e → l !! k = Some e' → ent_id e = "" → ent_id e' = "" →
    out !! j = Some o → out !! k = Some o → o ≠ "" → j = k;
  ns_dom : ∀ id, is_Some (bb' !! id) ↔
    is_Some (bb !! id) ∨ ∃ j e, l !! j = Some e ∧ out !! j = Some id ∧ ent_id e = "" ∧ id ≠ "";
  ns_create : ∀ j e d, l !! j = Some e → out !! j = Some "" → dbByName !! ent_name e = Some d →
    is_Some (bb' !! d);
}.

Lemma names_spec_id dbByName e l bb out bb' :
  ent_id e ≠ "" → names_spec dbByName l bb out bb' → names_spec dbByName (e :: l) bb (ent_id e :: out) bb'.
Proof.
  intros He [H1 H2 H3 H4 H5]. split.
  - constructor; [by left|done].
  - intros [|j] e' o; simpl; [naive_solver|]. apply H2.
  - intros [|j] [|k] e1 e2 o; simpl; [naive_solver..|]. intros. f_equal. eauto.
  - intros id. rewrite H4. split; (intros [?|Hex]; [by left|right]).
    + destruct Hex as (j & e' & ?). by exists (S j), e'.
    + destruct Hex as ([|j] & e' & Hj & ?); simpl in *; [naive_solver|]. by exists j, e'.
  - intros [|j] e' d; simpl; [intros; simplify_eq; done|]. apply H5.
Qed.

(** An entry without an id takes the identity [o], or none. *)
Lemma names_spec_name dbByName e l bb bb1 o out bb' :
  (∀ n, dbByName !! n ≠ Some "") → ent_id e = "" →
  (o ≠ "" → dbByName !! ent_name e = Some o ∧ bb !! o = None) →
  (o = "" → ∀ d, dbByName !! ent_name e = Some d → is_Some (bb !! d)) →
  (∀ id, is_Some (bb1 !! id) ↔ is_Some (bb !! id) ∨ (id = o ∧ o ≠ "")) →
  names_spec dbByName l bb1 out bb' → names_spec dbByName (e :: l) bb (o :: out) bb'.
Proof.
  intros Hdb He Hob Hoc Hbb1 [H1 H2 H3 H4 H5].
  assert (∀ x, bb1 !! x = None ↔ bb !! x = None ∧ (x = o → o = "")) as Hbb1n.
  { intros x. rewrite !eq_None_not_Some, Hbb1. destruct (decide (o = "")); naive_solver. }
  split.
  - constructor; [|done]. right. split; [done|]. destruct (decide (o = "")); [by left|right]. naive_solver.
  - intros [|j] e' o'; simpl; [intros; simplify_eq; by apply Hob|].
    intros Hj Ho' Hid Hne. specialize (H2 _ _ _ Hj Ho' Hid Hne). by apply Hbb1n in H2 as [? _].
  - intros [|j] [|k] e1 e2 o'; simpl; intros Hj Hk He1 He2 Ho1 Ho2 Hne; simplify_eq; [done| | |].
    + specialize (H2 _ _ _ Hk Ho2 He2 Hne). apply Hbb1n in H2 as [_ Hx]. naive_solver.
    + specialize (H2 _ _ _ Hj Ho1 He1 Hne). apply Hbb1n in H2 as [_ Hx]. naive_solver.
    + f_equal. eauto.
  - intros id. rewrite H4, Hbb1. split.
    + intros [[?|[-> ?]]|(j & e' & ?)]; [by left|right; by exists 0, e|right; by exists (S j), e'].
    + intros [?|([|j] & e' & ?)]; [by left; left| |]; simpl in *; [naive_solver|].
      right. by exists j, e'.
  - intros [|j] e' d; simpl; [|apply H5]. intros [= <-] [= ->] Hd. apply H4. left. apply Hbb1. left.
    by apply Hoc.
Qed.

Lemma bindNames_spec dbByName l : (∀ n, dbByName !! n ≠ Some "") → ∀ i bb out cs bb',
  bindNames dbByName i l (ent_id <$> l) bb = (out, cs, bb') → names_spec dbByName l bb out bb'.
Proof.
  intros Hdb. induction l as [|e l IH]; intros i bb out cs bb'; simpl.
  { intros [= <- <- <-]. split; try (intros; simplify_eq/=; done).
    intros id. split; [by left|]. intros [?|(j & e & Hj & _)]; [done|]. by rewrite lookup_nil in Hj. }
  case_bool_decide as He.
  { destruct (bindNames _ _ _ _ _) as [[out' cs'] bb''] eqn:Eb. intros [= <- <- <-].
    apply names_spec_id; eauto. }
  destruct (dbByName !! ent_name e) as [dbID|] eqn:Edb; [destruct (bb !! dbID) as [prev|] eqn:Ebb|].
  all: destruct (bindNames _ _ _ _ _) as [[out' cs'] bb''] eqn:Eb; try rewrite He; intros [= <- <- <-].
  - eapply names_spec_name; [done..|naive_solver| |naive_solver|by eapply IH].
    intros _ d Hd. rewrite Edb in Hd. simplify_eq. by rewrite Ebb.
  - assert (dbID ≠ "") by (intros ->; by destruct (Hdb (ent_name e))).
    eapply names_spec_name; [done..| |by eapply IH]. intros id.
    destruct (decide (dbID = id)) as [->|?]; [rewrite lookup_insert_eq; naive_solver|].
    rewrite lookup_insert_ne by done. naive_solver.
  - eapply names_spec_name; [done..|naive_solver|naive_solver|naive_solver|by eapply IH].
Qed.

Lemma checkFinalNames_ok kind all l : ∀ i fn,
  checkFinalNames kind all i l fn = Ok tt ↔
  NoDup (ent_name <$> l) ∧ ∀ e, e ∈ l → fn !! ent_name e = None.
Proof.
  induction l as [|e l IH]; intros i fn; simpl.
  { setoid_rewrite elem_of_nil. split; [|done]. intros _. split; [constructor|done]. }
  rewrite NoDup_cons. setoid_rewrite elem_of_cons.
  destruct (fn !! ent_name e) as [prev|] eqn:E.
  { split; [done|]. intros [_ Hn]. rewrite Hn in E; [done|by left]. }
  rewrite IH. split.
  - intros [Hnd Hfn]. split_and!; [|done|].
    + rewrite list_elem_of_fmap. intros (e' & Ee & He'). specialize (Hfn e' He').
      by rewrite <-Ee, lookup_insert_eq in Hfn.
    + intros e' [->|He']; [done|]. specialize (Hfn e' He').
      destruct (decide (ent_name e = ent_name e')) as [Ee|Ee]; [by rewrite Ee, lookup_insert_eq in Hfn|].
      by rewrite lookup_insert_ne in Hfn.
  - intros [[Hnin Hnd] Hfn]. split; [done|]. intros e' He'. rewrite lookup_insert_ne; [auto|].
    intros Ee. apply Hnin. rewrite list_elem_of_fmap. eauto.
Qed.

(** ** The matcher *)

Record matched (bundle current : list entity) (additive : bool) (m : kindMatch) : Prop := {
  m_len : length (boundDBID m) = length bundle;
  m_names : NoDup (ent_name <$> bundle);
  m_inj : ∀ i j id, boundDBID m !! i = Some id → boundDBID m !! j = Some id → id ≠ "" → i = j;
  m_id : ∀ i e id, bundle !! i = Some e → boundDBID m !! i = Some id → ent_id e ≠ "" → id = ent_id e;
  m_in : ∀ i id, boundDBID m !! i = Some id → id ≠ "" → id ∈ ent_id <$> current;
  m_byname : ∀ i e id, bundle !! i = Some e → boundDBID m !! i = Some id → ent_id e = "" → id ≠ "" →
    mkEntity id (ent_name e) ∈ current;
  m_create : ∀ i e c, bundle !! i = Some e → boundDBID m !! i = Some "" → c ∈ current →
    ent_name c = ent_name e → ent_id c ∈ boundDBID m;
  m_deletes : ∀ id, id ∈ deletes m ↔ additive = false ∧ id ∈ ent_id <$> current ∧ (id ∉ boundDBID m);
  m_deletes_nodup : NoDup (deletes m);
}.

Lemma byName_entity current n id :
  wf_entities current → index_by ent_name ent_id current !! n = Some id ↔ mkEntity id n ∈ current.
Proof.
  intros (_ & Hn & _). rewrite index_by_lookup by done. split.
  - intros ([i x] & Hx & <- & <-). done.
  - intros Hin. by exists (mkEntity id n).
Qed.

Lemma byName_nonempty current n : wf_entities current → index_by ent_name ent_id current !! n ≠ Some "".
Proof.
  intros Hwf Hn. apply byName_entity in Hn; [|done]. destruct Hwf as (_ & _ & Hne). apply Hne.
  rewrite list_elem_of_fmap. by exists (mkEntity "" n).
Qed.

(** The identities bound after both loops. *)
Lemma bound_dom kind bundle current ids bb out bb' :
  bindIDs kind bundle (list_to_set (ent_id <$> current)) 0 bundle ∅ = Ok (ids, bb) →
  names_spec (index_by ent_name ent_id current) bundle bb out bb' →
  ∀ id, id ≠ "" → is_Some (bb' !! id) ↔ id ∈ out.
Proof.
  intros Hb [Hout _ _ Hdom _] id Hid.
  apply bindIDs_spec in Hb as (_ & _ & _ & Hbb). rewrite Hdom, Hbb, lookup_empty. split.
  - intros [[[? ?]|[_ Hin]]|(j & e & _ & Hj & _)]; [done| |by eapply list_elem_of_lookup_2].
    apply list_elem_of_fmap in Hin as (e & -> & He). apply list_elem_of_lookup in He as [j Hj].
    destruct (Forall2_lookup_l _ _ _ _ _ Hout Hj) as (o & Ho & [[_ ->]|[? _]]); [|done].
    by eapply list_elem_of_lookup_2.
  - intros Hin. apply list_elem_of_lookup in Hin as [j Hj].
    destruct (Forall2_lookup_r _ _ _ _ _ Hout Hj) as (e & He & [[? ->]|[? _]]).
    + left. right. split; [done|]. apply list_elem_of_fmap. exists e.
      split; [done|]. by eapply list_elem_of_lookup_2.
    + right. by exists j, e.
Qed.

Lemma matchEntities_spec kind bundle current additive m :
  wf_entities current → matchEntities kind bundle current additive = Ok m →
  matched bundle current additive m.
Proof.
  intros Hwf. unfold matchEntities. rewrite rbind_Ok. intros ([ids bb] & Hb & Hm).
  pose proof (bindIDs_spec _ _ _ _ _ _ _ _ Hb) as (-> & Hdb & Hinj & Hbb).
  destruct (bindNames _ _ _ _ _) as [[out cs] bb'] eqn:En.
  apply bindNames_spec in En; [|intros; by apply byName_nonempty].
  pose proof (bound_dom _ _ _ _ _ _ _ Hb En) as Hbd. destruct En as [Hout Hfree Hninj Hdom Hcr].
  apply rbind_Ok in Hm as ([] & Hf & [= <-]). apply checkFinalNames_ok in Hf as [Hnames _].
  assert (∀ i e o, bundle !! i = Some e → out !! i = Some o →
    name_bound (index_by ent_name ent_id current) e o) as Hnb.
  { intros i e o He Ho. destruct (Forall2_lookup_l _ _ _ _ _ Hout He) as (o' & Ho' & ?). naive_solver. }
  assert (∀ i o, out !! i = Some o → ∃ e, bundle !! i = Some e) as Hent.
  { intros i o Ho. destruct (Forall2_lookup_r _ _ _ _ _ Hout Ho) as (e & ? & _). eauto. }
  split; simpl.
  - symmetry. by eapply Forall2_length.
  - done.
  - intros i j id Hi Hj Hid. destruct (Hent _ _ Hi) as [e He], (Hent _ _ Hj) as [e' He'].
    destruct (Hnb _ _ _ He Hi) as [[Hie ->]|[Hie _]], (Hnb _ _ _ He' Hj) as [[Hje E]|[Hje _]].
    + by eapply Hinj.
    + specialize (Hfree _ _ _ He' Hj Hje Hid). exfalso. apply eq_None_not_Some in Hfree. apply Hfree, Hbb.
      right. split; [done|]. apply list_elem_of_fmap. exists e. split; [done|by eapply list_elem_of_lookup_2].
    + specialize (Hfree _ _ _ He Hi Hie Hid). exfalso. apply eq_None_not_Some in Hfree. apply Hfree, Hbb.
      right. split; [done|]. rewrite E. apply list_elem_of_fmap. exists e'.
      split; [done|by eapply list_elem_of_lookup_2].
    + by eapply Hninj.
  - intros i e id He Hi Hie. destruct (Hnb _ _ _ He Hi) as [[_ ->]|[? _]]; done.
  - intros i id Hi Hid. destruct (Hent _ _ Hi) as [e He].
    destruct (Hnb _ _ _ He Hi) as [[Hie ->]|[_ [->|Hn]]]; [|done|].
    + destruct (Hdb e) as [Hin _]; [by eapply list_elem_of_lookup_2|done|].
      by apply elem_of_list_to_set in Hin.
    + apply byName_entity in Hn; [|done]. apply list_elem_of_fmap. by eexists (mkEntity _ _).
  - intros i e id He Hi Hie Hid. destruct (Hnb _ _ _ He Hi) as [[? _]|[_ [->|Hn]]]; [done|done|].
    by apply byName_entity in Hn.
  - intros i e c He Hi Hc Hn. apply Hbd.
    { intros E. destruct Hwf as (_ & _ & Hne). apply Hne, list_elem_of_fmap. by exists c. }
    eapply Hcr; [done|done|]. apply byName_entity; [done|]. rewrite <-Hn. by destruct c.
  - intros id. destruct additive; simpl; [rewrite elem_of_nil; naive_solver|].
    rewrite list_elem_of_filter. assert (id ∈ ent_id <$> current → id ≠ "") as Hne.
    { intros Hin ->. by destruct Hwf as (_ & _ & ?). }
    split.
    + intros [Hn Hin]. split_and!; [done..|]. intros Ho. apply Hbd in Ho; [|auto].
      rewrite Hn in Ho. by destruct Ho.
    + intros (_ & Hin & Hn). split; [|done]. apply eq_None_not_Some. rewrite Hbd; auto.
  - destruct additive; simpl; [constructor|]. apply NoDup_filter. by destruct Hwf.
Qed.

(** ** The pairs of entry and bound identity *)

Lemma zip_elem {A B} (l : list A) (k : list B) x y :
  (x, y) ∈ zip l k ↔ ∃ i, l !! i = Some x ∧ k !! i = Some y.
Proof.
  rewrite list_elem_of_lookup. split.
  - intros [i Hi]. apply lookup_zip_with_Some in Hi as (a & b & [= -> ->] & Ha & Hb). eauto.
  - intros (i & Hx & Hy). exists i. apply lookup_zip_with_Some. eauto.
Qed.

Lemma matched_pairs bundle current additive m :
  matched bundle current additive m →
  ∀ e, e ∈ bundle → ∃ id, (e, id) ∈ zip bundle (boundDBID m).
Proof.
  intros Hm e He. apply list_elem_of_lookup in He as [i Hi].
  destruct (lookup_lt_is_Some_2 (boundDBID m) i) as [id Hid].
  { rewrite (m_len _ _ _ _ Hm). by eapply lookup_lt_Some. }
  exists id. apply zip_elem. eauto.
Qed.

(** Two pairs with one name, or with one identity, are the same pair. *)
Lemma pair_same_name bundle current additive m e e' id id' :
  matched bundle current additive m →
  (e, id) ∈ zip bundle (boundDBID m) → (e', id') ∈ zip bundle (boundDBID m) →
  ent_name e = ent_name e' → e = e' ∧ id = id'.
Proof.
  intros Hm (i & Hi & Hi')%zip_elem (j & Hj & Hj')%zip_elem Hn.
  assert (i = j) as <-; [|naive_solver].
  eapply (NoDup_lookup (ent_name <$> bundle)); [apply Hm| |]; rewrite list_lookup_fmap; [by rewrite Hi|].
  rewrite Hj. simpl. by rewrite Hn.
Qed.

Lemma pair_same_id bundle current additive m e e' id :
  matched bundle current additive m →
  (e, id) ∈ zip bundle (boundDBID m) → (e', id) ∈ zip bundle (boundDBID m) → id ≠ "" → e = e'.
Proof.
  intros Hm (i & Hi & Hi')%zip_elem (j & Hj & Hj')%zip_elem Hid.
  assert (i = j) as <- by (by eapply (m_inj _ _ _ _ Hm)). naive_solver.
Qed.

Lemma pair_bound bundle current additive m id :
  matched bundle current additive m → id ∈ boundDBID m ↔ ∃ e, (e, id) ∈ zip bundle (boundDBID m).
Proof.
  intros Hm. split.
  - intros Hin. apply list_elem_of_lookup in Hin as [i Hi].
    destruct (lookup_lt_is_Some_2 bundle i) as [e He].
    { rewrite <-(m_len _ _ _ _ Hm). by eapply lookup_lt_Some. }
    exists e. apply zip_elem. eauto.
  - intros (e & (i & _ & Hi)%zip_elem). by eapply list_elem_of_lookup_2.
Qed.

Lemma zip_NoDup bundle current additive m :
  matched bundle current additive m → NoDup (zip bundle (boundDBID m)).
Proof.
  intros Hm. apply (NoDup_fmap_1 (ent_name ∘ fst)). rewrite list_fmap_compose, fst_zip; [apply Hm|].
  by rewrite (m_len _ _ _ _ Hm).
Qed.

(** ** Final names

    Where every identity ends: under the name of the entry that bound it, or,
    for an additive bundle, under its old name. *)
Definition final_names (bundle current : list entity) (additive : bool) (ids : list string) :
    gmap string string :=
  index_by snd (ent_name ∘ fst) (filter (λ p, p.2 ≠ "") (zip bundle ids))
  ∪ (if additive then index_by ent_id ent_name (filter (λ c, ent_id c ∉ ids) current) else ∅).

Lemma bound_ids_nodup bundle current additive m :
  matched bundle current additive m →
  NoDup (filter (λ p, p.2 ≠ "") (zip bundle (boundDBID m))).*2.
Proof.
  intros Hm. apply NoDup_fmap_on; [by eapply NoDup_filter, zip_NoDup|].
  intros [e id] [e' id'] Hp Hq; simpl; intros <-. rewrite list_elem_of_filter in Hp, Hq.
  destruct Hp as [Hid Hp], Hq as [_ Hq]. f_equal. by eapply pair_same_id.
Qed.

Lemma final_names_spec bundle current additive m id n :
  wf_entities current → matched bundle current additive m →
  final_names bundle current additive (boundDBID m) !! id = Some n ↔
  (∃ e, (e, id) ∈ zip bundle (boundDBID m) ∧ id ≠ "" ∧ ent_name e = n)
  ∨ (additive = true ∧ mkEntity id n ∈ current ∧ (id ∉ boundDBID m)).
Proof.
  intros Hwf Hm. unfold final_names.
  assert (∀ n, index_by snd (ent_name ∘ fst) (filter (λ p, p.2 ≠ "") (zip bundle (boundDBID m))) !! id = Some n
    ↔ ∃ e, (e, id) ∈ zip bundle (boundDBID m) ∧ id ≠ "" ∧ ent_name e = n) as Hl.
  { intros n'. rewrite index_by_lookup by (by eapply bound_ids_nodup).
    setoid_rewrite list_elem_of_filter. split.
    - intros ([e i] & [Hi Hp] & Hid & Hn). simpl in *. subst. eauto.
    - intros (e & Hp & Hid & Hn). by exists (e, id). }
  assert (NoDup (ent_id <$> filter (λ c, ent_id c ∉ boundDBID m) current)) as Hnd.
  { destruct Hwf as (Hi & _). eapply sublist_NoDup; [exact Hi|]. apply fmap_sublist, sublist_filter. }
  rewrite lookup_union_Some_raw, Hl. apply or_iff_compat_l. destruct additive; [|rewrite lookup_empty; naive_solver].
  rewrite index_by_lookup by done. setoid_rewrite list_elem_of_filter. split.
  - intros [Hn (c & [Hc Hin] & <- & <-)]. split; [done|]. split; [by destruct c|done].
  - intros (_ & Hin & Hb). split; [|by exists (mkEntity id n)].
    apply eq_None_not_Some. intros [n' (e & Hp & _)%Hl]. apply Hb, (pair_bound _ _ _ _ _ Hm). eauto.
Qed.

(** An additive bundle carries no ids, so it binds by name only. *)
Definition no_ids (bundle : list entity) : Prop := ∀ e, e ∈ bundle → ent_id e = "".

Lemma final_names_inj bundle current additive m id id' n :
  wf_entities current → matched bundle current additive m → (additive = true → no_ids bundle) →
  final_names bundle current additive (boundDBID m) !! id = Some n →
  final_names bundle current additive (boundDBID m) !! id' = Some n → id = id'.
Proof.
  intros Hwf Hm Hadd. rewrite !final_names_spec by done.
  assert (∀ e i c, (e, i) ∈ zip bundle (boundDBID m) → i ≠ "" → additive = true → c ∈ current →
    ent_name c = ent_name e → ent_id c ∈ boundDBID m) as Hmix.
  { intros e i c Hp Hi Ha Hc Hn. pose proof Hp as (j & Hj & Hj')%zip_elem.
    pose proof (m_byname _ _ _ _ Hm _ _ _ Hj Hj' (Hadd Ha e (list_elem_of_lookup_2 _ _ _ Hj)) Hi) as Hin.
    assert (c = mkEntity i (ent_name e)) as ->.
    { eapply (NoDup_fmap_elem ent_name); [apply Hwf|done|done|done]. }
    simpl. by eapply list_elem_of_lookup_2. }
  intros [(e & Hp & Hi & <-)|(Ha & Hc & Hb)] [(e' & Hp' & Hi' & E)|(Ha' & Hc' & Hb')].
  - by destruct (pair_same_name _ _ _ _ _ _ _ _ Hm Hp Hp' (eq_sym E)).
  - destruct Hb'. by apply (Hmix e id _ Hp Hi Ha' Hc').
  - destruct Hb. by apply (Hmix e' id' _ Hp' Hi' Ha Hc).
  - assert (mkEntity id n = mkEntity id' n) as [= ->]; [|done].
    eapply (NoDup_fmap_elem ent_name); [apply Hwf|done|done|done].
Qed.

(** ** Creates and renames *)

Lemma topology_zip current l : ∀ ids,
  topology current l ids =
    (omap (λ p, if bool_decide (p.2 ≠ "") then None else Some (ent_name p.1)) (zip l ids),
     omap (λ p, if bool_decide (p.2 ≠ "" ∧ nameFor current p.2 ≠ ent_name p.1)
                then Some (mkRename p.2 (nameFor current p.2) (ent_name p.1)) else None) (zip l ids)).
Proof.
  induction l as [|e l IH]; intros [|id ids]; simpl; [done..|]. rewrite IH.
  case_bool_decide as Hid; simpl; [|by rewrite bool_decide_eq_false_2 by tauto].
  case_bool_decide as Hn; [by rewrite bool_decide_eq_true_2|by rewrite bool_decide_eq_false_2 by tauto].
Qed.

Lemma topology_creates current l ids c :
  c ∈ (topology current l ids).1 ↔ ∃ e, (e, "") ∈ zip l ids ∧ ent_name e = c.
Proof.
  rewrite topology_zip. simpl. rewrite list_elem_of_omap. split.
  - intros ([e id] & Hp & E). simpl in E. case_bool_decide as Hid; simplify_eq. by exists e.
  - intros (e & Hp & <-). by exists (e, "").
Qed.

Lemma topology_renames current l ids r :
  r ∈ (topology current l ids).2 ↔
  ∃ e, (e, rn_id r) ∈ zip l ids ∧ rn_id r ≠ "" ∧ rn_from r = nameFor current (rn_id r)
       ∧ rn_from r ≠ rn_to r ∧ rn_to r = ent_name e.
Proof.
  rewrite topology_zip. simpl. rewrite list_elem_of_omap. split.
  - intros ([e id] & Hp & E). simpl in E. case_bool_decide as Hid; simplify_eq. exists e. naive_solver.
  - intros (e & Hp & Hid & Hf & Hn & Ht). exists (e, rn_id r). split; [done|]. simpl.
    rewrite bool_decide_eq_true_2 by (split; congruence). destruct r; simpl in *. congruence.
Qed.

Lemma omap_NoDup {A B} (f : A → option B) (l : list A) :
  NoDup l → (∀ x y b, x ∈ l → y ∈ l → f x = Some b → f y = Some b → x = y) → NoDup (omap f l).
Proof.
  induction l as [|a l IH]; intros Hnd Hinj; [constructor|]. rewrite NoDup_cons in Hnd. destruct Hnd as [Ha Hnd].
  assert (NoDup (omap f l)) as Hrec.
  { apply IH; [done|]. intros x y b Hx Hy. apply Hinj; set_solver. }
  simpl. destruct (f a) as [b|] eqn:E; [|done]. apply NoDup_cons. split; [|done].
  rewrite list_elem_of_omap. intros (y & Hy & Ey). apply Ha. rewrite (Hinj a y b); set_solver.
Qed.

Lemma topology_creates_nodup bundle current additive m cur :
  matched bundle current additive m → NoDup (topology cur bundle (boundDBID m)).1.
Proof.
  intros Hm. rewrite topology_zip. simpl. apply omap_NoDup; [by eapply zip_NoDup|].
  intros [e id] [e' id'] b Hp Hp' E E'; simpl in *. do 2 case_bool_decide; simplify_eq.
  by destruct (pair_same_name _ _ _ _ _ _ _ _ Hm Hp' Hp) as [-> _].
Qed.

Lemma topology_renames_nodup bundle current additive m cur :
  matched bundle current additive m → NoDup (rn_id <$> (topology cur bundle (boundDBID m)).2).
Proof.
  intros Hm. apply NoDup_fmap_on.
  - rewrite topology_zip. simpl. apply omap_NoDup; [by eapply zip_NoDup|].
    intros [e id] [e' id'] b Hp Hp' E E'; simpl in *. do 2 case_bool_decide; simplify_eq.
    by destruct (pair_same_name _ _ _ _ _ _ _ _ Hm Hp' Hp) as [-> _].
  - intros r r' (e & Hp & Hid & Hf & _ & Ht)%topology_renames (e' & Hp' & _ & Hf' & _ & Ht')%topology_renames E.
    rewrite <-E in Hp'. assert (e = e') as <- by (by eapply pair_same_id). destruct r, r'; simpl in *. congruence.
Qed.

(** A created name is no surviving identity's final name. *)
Lemma create_not_final bundle current additive m e id :
  wf_entities current → matched bundle current additive m → (additive = true → no_ids bundle) →
  (e, "") ∈ zip bundle (boundDBID m) →
  final_names bundle current additive (boundDBID m) !! id ≠ Some (ent_name e).
Proof.
  intros Hwf Hm Hadd Hp. rewrite final_names_spec by done.
  intros [(e' & Hp' & Hid & E)|(Ha & Hc & Hb)].
  - by destruct (pair_same_name _ _ _ _ _ _ _ _ Hm Hp' Hp E) as [_ ->].
  - apply Hb. pose proof Hp as (i & Hi & Hi')%zip_elem.
    by apply (m_create _ _ _ _ Hm i e (mkEntity id (ent_name e)) Hi Hi' Hc).
Qed.

(** The final names keep the identities that are not deleted. *)
Lemma final_names_dom bundle current additive m id :
  wf_entities current → matched bundle current additive m →
  is_Some (final_names bundle current additive (boundDBID m) !! id) ↔
  id ∈ ent_id <$> current ∧ (id ∉ deletes m).
Proof.
  intros Hwf Hm. rewrite (m_deletes _ _ _ _ Hm). split.
  - intros [n Hn]. apply final_names_spec in Hn as [(e & Hp & Hid & _)|(-> & Hc & Hb)]; [| |done..].
    + pose proof Hp as (i & _ & Hi)%zip_elem. split; [by eapply (m_in _ _ _ _ Hm)|].
      intros (_ & _ & Hb). apply Hb. by eapply list_elem_of_lookup_2.
    + split; [apply list_elem_of_fmap; by exists (mkEntity id n)|]. by intros [? _].
  - intros [Hin Hn]. assert (id ≠ "") as Hid by (intros ->; by destruct Hwf as (_ & _ & ?)).
    destruct (decide (id ∈ boundDBID m)) as [Hb|Hb].
    + apply (pair_bound _ _ _ _ _ Hm) in Hb as [e Hp]. exists (ent_name e).
      apply final_names_spec; [done..|]. left. eauto.
    + destruct additive; [|naive_solver].
      apply list_elem_of_fmap in Hin as ([i n] & -> & Hc). exists n.
      apply final_names_spec; [done..|]. by right.
Qed.

Lemma nameFor_elem current id n : wf_entities current → mkEntity id n ∈ current → nameFor current id = n.
Proof.
  intros Hwf Hin. unfold nameFor. destruct (list_find _ current) as [[i e]|] eqn:E.
  - apply list_find_Some in E as (Hi & He & _). apply list_elem_of_lookup_2 in Hi.
    assert (e = mkEntity id n) as ->; [|done].
    eapply (NoDup_fmap_elem ent_id); [apply Hwf|done|done|done].
  - apply list_find_None in E. rewrite Forall_forall in E. by destruct (E _ Hin).
Qed.

(** An identity keeps its name unless it is renamed. *)
Lemma final_names_kept bundle current additive m id n :
  wf_entities current → matched bundle current additive m →
  id ∉ rn_id <$> (topology current bundle (boundDBID m)).2 →
  final_names bundle current additive (boundDBID m) !! id = Some n → mkEntity id n ∈ current.
Proof.
  intros Hwf Hm Hr Hf. apply final_names_spec in Hf as [(e & Hp & Hid & <-)|(_ & Hc & _)]; [|done..].
  pose proof Hp as (i & _ & Hi)%zip_elem. pose proof (m_in _ _ _ _ Hm _ _ Hi Hid) as Hin.
  apply list_elem_of_fmap in Hin as ([id' n] & E & Hc). simpl in E. subst id'.
  destruct (decide (n = ent_name e)) as [->|Hn]; [done|]. exfalso. apply Hr, list_elem_of_fmap.
  exists (mkRename id n (ent_name e)). split; [done|]. apply topology_renames. exists e. simpl.
  rewrite (nameFor_elem _ _ _ Hwf Hc). done.
Qed.

Lemma final_names_renamed bundle current additive m r :
  wf_entities current → matched bundle current additive m →
  r ∈ (topology current bundle (boundDBID m)).2 →
  final_names bundle current additive (boundDBID m) !! rn_id r = Some (rn_to r).
Proof.
  intros Hwf Hm (e & Hp & Hid & _ & _ & Ht)%topology_renames.
  apply final_names_spec; [done..|]. left. eauto.
Qed.

(** ** Identities of names *)

Lemma identities_fold l : ∀ ids m,
  identities l ids m =
  foldl (λ m p, <[ent_name p.1 := if bool_decide (p.2 ≠ "") then p.2 else "new:" +:+ ent_name p.1]> m) m (zip l ids).
Proof. induction l as [|e l IH]; intros [|id ids] m; simpl; [done..|]. by rewrite IH. Qed.

Lemma identities_spec bundle current additive m n v :
  matched bundle current additive m →
  identities bundle (boundDBID m) ∅ !! n = Some v ↔
  ∃ e id, (e, id) ∈ zip bundle (boundDBID m) ∧ ent_name e = n
          ∧ v = (if bool_decide (id ≠ "") then id else "new:" +:+ n).
Proof.
  intros Hm. rewrite identities_fold.
  pose proof (index_by_lookup (λ p : entity * string, ent_name p.1)
    (λ p, if bool_decide (p.2 ≠ "") then p.2 else "new:" +:+ ent_name p.1)
    (zip bundle (boundDBID m)) n v) as Hi.
  unfold index_by in Hi. rewrite Hi.
  - split; [intros ([e id] & Hp & Hn & Hv); exists e, id|intros (e & id & Hp & Hn & Hv); exists (e, id)];
      simpl in *; subst; done.
  - apply NoDup_fmap_on; [by eapply zip_NoDup|]. intros [e id] [e' id'] Hp Hp'; simpl. intros E.
    by destruct (pair_same_name _ _ _ _ _ _ _ _ Hm Hp Hp' E) as [-> ->].
Qed.

(** ** A state that already holds the bundle *)

Lemma bindIDs_total kind all dbIDs l : ∀ i bb,
  (∀ e, e ∈ l → ent_id e ≠ "" → ent_id e ∈ dbIDs ∧ bb !! ent_id e = None) →
  (∀ j k e e', l !! j = Some e → l !! k = Some e' → ent_id e = ent_id e' → ent_id e ≠ "" → j = k) →
  ∃ r, bindIDs kind all dbIDs i l bb = Ok r.
Proof.
  induction l as [|e l IH]; intros i bb Hdb Hinj; simpl; [by eexists|].
  assert (∀ j k e e', l !! j = Some e → l !! k = Some e' → ent_id e = ent_id e' → ent_id e ≠ "" → j = k) as Hinj'.
  { intros j k e1 e2 Hj Hk E Hid. by apply (inj S), (Hinj (S j) (S k) e1 e2). }
  case_bool_decide as He.
  - destruct (IH (S i) bb) as [[ids bb'] ->]; [set_solver|done|]. by eexists.
  - destruct (Hdb e) as [Hin Hn]; [set_solver|done|]. rewrite bool_decide_eq_false_2 by (by intros ?).
    rewrite Hn. destruct (IH (S i) (<[ent_id e := i]> bb)) as [[ids bb'] ->]; [|done|by eexists].
    intros e' He' Hid. destruct (Hdb e') as [? ?]; [set_solver|done|]. split; [done|].
    rewrite lookup_insert_ne; [done|]. intros E. apply list_elem_of_lookup in He' as [j Hj].
    by pose proof (Hinj 0 (S j) e e' eq_refl Hj E He).
Qed.

(** What the tables hold of a bundle's entries: the name, under the entry's own
    id where it carries one. *)
Definition holds (bundle current : list entity) : Prop :=
  ∀ e, e ∈ bundle → ∃ c, c ∈ current ∧ ent_name c = ent_name e ∧ (ent_id e ≠ "" → ent_id c = ent_id e).

Lemma holds_ids bundle current :
  wf_entities current → NoDup (ent_name <$> bundle) → holds bundle current →
  ∀ j k e e', bundle !! j = Some e → bundle !! k = Some e' → ent_id e = ent_id e' → ent_id e ≠ "" → j = k.
Proof.
  intros Hwf Hnd Hh j k e e' Hj Hk E Hid.
  destruct (Hh e) as (c & Hc & Hn & Hi); [by eapply list_elem_of_lookup_2|].
  destruct (Hh e') as (c' & Hc' & Hn' & Hi'); [by eapply list_elem_of_lookup_2|].
  assert (c = c') as <-.
  { eapply (NoDup_fmap_elem ent_id); [apply Hwf|done|done|]. rewrite Hi, Hi' by congruence. done. }
  eapply (NoDup_lookup (ent_name <$> bundle)); [done| |]; rewrite list_lookup_fmap; [by rewrite Hj|].
  rewrite Hk. simpl. congruence.
Qed.

Lemma match_holds kind bundle current additive :
  wf_entities current → NoDup (ent_name <$> bundle) → holds bundle current →
  ∃ m, matchEntities kind bundle current additive = Ok m ∧ matched bundle current additive m
    ∧ ∀ e id, (e, id) ∈ zip bundle (boundDBID m) → mkEntity id (ent_name e) ∈ current.
Proof.
  intros Hwf Hnd Hh.
  assert (∃ m, matchEntities kind bundle current additive = Ok m) as [m Hm].
  { unfold matchEntities.
    destruct (bindIDs_total kind bundle (list_to_set (ent_id <$> current)) bundle 0 ∅) as [[ids bb] ->].
    - intros e He Hid. split; [|apply lookup_empty]. destruct (Hh e He) as (c & Hc & _ & <-); [|done].
      apply elem_of_list_to_set, list_elem_of_fmap. eauto.
    - by eapply holds_ids.
    - simpl. destruct (bindNames _ _ _ _ _) as [[out cs] bb'].
      rewrite (proj2 (checkFinalNames_ok kind bundle bundle 0 ∅)); [by eexists|].
      split; [done|]. intros. apply lookup_empty. }
  exists m. split; [done|]. pose proof (matchEntities_spec _ _ _ _ _ Hwf Hm) as Hmm. split; [done|].
  intros e id Hp. pose proof Hp as (i & Hi & Hi')%zip_elem.
  destruct (Hh e) as (c & Hc & Hn & Hid); [by eapply list_elem_of_lookup_2|].
  destruct (decide (ent_id e = "")) as [He|He].
  - destruct (decide (id = "")) as [->|Hne]; [|by eapply (m_byname _ _ _ _ Hmm)].
    exfalso. pose proof (m_create _ _ _ _ Hmm _ _ _ Hi Hi' Hc Hn) as Hb.
    assert (ent_id c ≠ "") as Hcid.
    { intros E. destruct Hwf as (_ & _ & Hw). apply Hw. rewrite <-E. apply list_elem_of_fmap. eauto. }
    apply (pair_bound _ _ _ _ _ Hmm) in Hb as [e' Hp'].
    assert (ent_name e' = ent_name e) as E.
    { pose proof Hp' as (j & Hj & Hj')%zip_elem.
      destruct (decide (ent_id e' = "")) as [He'|He'].
      - pose proof (m_byname _ _ _ _ Hmm _ _ _ Hj Hj' He' Hcid) as Hc'.
        assert (c = mkEntity (ent_id c) (ent_name e')) as Ec.
        { eapply (NoDup_fmap_elem ent_id); [apply Hwf|done|done|done]. }
        rewrite <-Hn. by rewrite Ec.
      - pose proof (m_id _ _ _ _ Hmm _ _ _ Hj Hj' He') as Ec.
        destruct (Hh e') as (c' & Hc' & Hn' & Hid'); [by eapply list_elem_of_lookup_2|].
        assert (c = c') as <-; [|congruence].
        eapply (NoDup_fmap_elem ent_id); [apply Hwf|done|done|]. rewrite Hid'; done. }
    by destruct (pair_same_name _ _ _ _ _ _ _ _ Hmm Hp' Hp E) as [_ ?].
  - assert (id = ent_id e) as -> by (by eapply (m_id _ _ _ _ Hmm)).
    rewrite <-Hid, <-Hn by done. by destruct c.
Qed.

Section keys.
Context `{SchemaLang}.

(** The update a bound key needs, if any. *)
Definition key_update (cur : list CurrentKey) (envIdentity groupIdentity : gmap string string)
    (p : Key * string) : option KeyUpdate :=
  if bool_decide (p.2 = "") then None else
  c ← list_find (λ c, c_id c = p.2) cur;
  let u := diffKey c.2 p.1 envIdentity groupIdentity in
  if changed u then Some u else None.

Lemma resolveKeys_spec additive strict cur en gn ei gi l : ∀ ids cs us rev,
  resolveKeys additive strict cur en gn ei gi l ids = Ok (cs, us, rev) →
  (∀ p, p ∈ zip l ids → validateKeyReferences p.1 en gn = Ok tt)
  ∧ cs = (filter (λ p, p.2 = "") (zip l ids)).*1
  ∧ us = omap (key_update cur ei gi) (zip l ids)
  ∧ (additive && strict = true → us = []).
Proof.
  induction l as [|k l IH]; intros [|id ids] cs us rev; simpl;
    try (intros [= <- <- <-]; split_and!; [by intros p ?%elem_of_nil|done..]).
  rewrite rbind_Ok. intros ([] & Hv & Hr).
  assert (∀ cs us rev, resolveKeys additive strict cur en gn ei gi l ids = Ok (cs, us, rev) →
    (∀ p, p ∈ (k, id) :: zip l ids → validateKeyReferences p.1 en gn = Ok tt)
    ∧ cs = (filter (λ p, p.2 = "") (zip l ids)).*1 ∧ us = omap (key_update cur ei gi) (zip l ids)
    ∧ (additive && strict = true → us = [])) as Hrec.
  { intros cs' us' rev' Hk. destruct (IH _ _ _ _ Hk) as (H1 & H2 & H3 & H4). split; [|done].
    intros p. rewrite elem_of_cons. intros [->|?]; auto. }
  unfold key_update at 1. simpl. destruct (decide (id = "")) as [->|Hid]; simpl in Hr.
  - apply rbind_Ok in Hr as ([[cs' us'] rev'] & Hk & [= <- <- <-]).
    destruct (Hrec _ _ _ Hk) as (? & -> & -> & ?). rewrite filter_cons_True by done. done.
  - rewrite bool_decide_eq_false_2 in Hr |- * by done. rewrite filter_cons_False by done.
    destruct (list_find _ cur) as [[j c]|]; simpl; [|by eapply Hrec].
    destruct (changed (diffKey c k ei gi)); simpl in *; [|by eapply Hrec].
    destruct (additive && strict) eqn:Ea; [done|].
    apply rbind_Ok in Hr as ([[cs' us'] rev'] & Hk & [= <- <- <-]).
    destruct (Hrec _ _ _ Hk) as (? & -> & -> & ?). done.
Qed.
End keys.
