(* ===== verification/DefinitionsState.v ===== *)
(** * The catalogue invariant and the state read from it

    The invariant a project's catalogue keeps (unique names, no dangling
    reference, stored declarations in canonical form, presence rules that pass
    their check), and what [buildCurrentState] reads from a catalogue that keeps
    it. *)

From stdpp Require Import prelude gmap strings list.
From S2P Require Import Prelude StateErr Presence Definitions DefinitionsMatch Catalogue DefinitionsApply.

(** What the schema package promises: compilation is idempotent; an artifact's
    stored text reads back as its declaration; between compiled declarations,
    the reveal gate sees every difference; classification decides whether a
    declaration compiles, never what it compiles to. *)
Class SchemaLaws `{SchemaLang} := {
  compile_idem c d n : CompileClassified c d = Some n → CompileClassified c n = Some n;
  compile_reads c n : CompileClassified c n = Some n →
    ∃ t, CompiledCanonical n = Some t ∧ ParseDeclaration t = Some n;
  change_exact c c' n n' : CompileClassified c n = Some n → CompileClassified c' n' = Some n' →
    ValueDependentChange n n' = false ↔ n = n';
  compile_class c c' n n' : CompileClassified c n = Some n → CompileClassified c' n = Some n' → n' = n;
}.

Definition names_inj (m : gmap string string) : Prop :=
  ∀ i j n, m !! i = Some n → m !! j = Some n → i = j.

(** ** Presence rows *)

(** The environments a list of rows gives one rule of one key. *)
Definition rule_envs (id rule : string) (rows : list KeyPresence) : list string :=
  pr_env <$> filter (λ r, pr_key r = id ∧ pr_rule r = rule) rows.

Definition explicit_envs (mode : string) (ids : list string) : list string :=
  if bool_decide (mode = PresenceExplicit) then ids else [].

Lemma rule_envs_snoc id rule rows r :
  rule_envs id rule (rows ++ [r]) =
  rule_envs id rule rows ++ (if bool_decide (pr_key r = id ∧ pr_rule r = rule) then [pr_env r] else []).
Proof.
  unfold rule_envs. rewrite filter_app, fmap_app. f_equal.
  case_bool_decide; [by rewrite filter_cons_True|by rewrite filter_cons_False].
Qed.

Lemma presenceOf_spec id rm fm rows :
  presenceOf id rm fm rows =
  mkPresenceRules (mkPresence rm (explicit_envs rm (rule_envs id PresenceRuleRequired rows)))
                  (mkPresence fm (explicit_envs fm (rule_envs id PresenceRuleForbidden rows))).
Proof.
  unfold presenceOf, explicit_envs.
  induction rows as [|r rows IH] using rev_ind; [simpl; by repeat case_bool_decide|].
  rewrite foldl_app. simpl. rewrite IH, !rule_envs_snoc. clear IH.
  destruct r as [k e ru]; simpl. unfold presence_row, with_env; simpl.
  repeat case_bool_decide; destruct_and?; simplify_eq/=; rewrite ?app_nil_r; try done; naive_solver.
Qed.

Lemma indexPresenceByKey_spec rows id :
  mget (indexPresenceByKey rows) id = filter (λ r, pr_key r = id) rows.
Proof.
  unfold indexPresenceByKey. induction rows as [|r rows IH] using rev_ind.
  { unfold mget. simpl. by rewrite lookup_empty. }
  rewrite foldl_app, filter_app. simpl. rewrite <-IH. set (m := foldl _ _ rows).
  unfold mget. destruct (decide (pr_key r = id)) as [<-|Hne].
  - rewrite lookup_insert_eq, filter_cons_True by done. done.
  - rewrite lookup_insert_ne, filter_cons_False by done. by rewrite app_nil_r.
Qed.

Lemma rule_envs_filter id rule rows : rule_envs id rule (filter (λ r, pr_key r = id) rows) = rule_envs id rule rows.
Proof. unfold rule_envs. rewrite list_filter_filter. f_equal. apply list_filter_iff. naive_solver. Qed.

Section state.
Context `{SchemaLang} {A : Type} `{AccessAdmin A}.
Implicit Types s : Project A.

Definition presence_envs s (id rule : string) : list string := rule_envs id rule (ListPresence s).

Lemma presence_envs_elem s id rule e :
  e ∈ presence_envs s id rule ↔ mkKeyPresence id e rule ∈ presence s.
Proof.
  unfold presence_envs, rule_envs, ListPresence. rewrite list_elem_of_fmap. setoid_rewrite list_elem_of_filter.
  setoid_rewrite elem_of_sort_by. setoid_rewrite elem_of_elements. split.
  - intros ([k e' ru] & -> & [[<- <-] Hin]). done.
  - intros Hin. by exists (mkKeyPresence id e rule).
Qed.

Lemma presence_envs_nodup s id rule : NoDup (presence_envs s id rule).
Proof.
  unfold presence_envs, rule_envs. apply NoDup_fmap_on.
  - apply NoDup_filter. unfold ListPresence. rewrite sort_by_Permutation. apply NoDup_elements.
  - intros [k e ru] [k' e' ru']. rewrite !list_elem_of_filter; simpl. naive_solver.
Qed.

(** A key's stored rules. *)
Definition key_rules s (id : string) (r : KeyRow) : PresenceRules :=
  mkPresenceRules
    (mkPresence (kr_required r) (explicit_envs (kr_required r) (presence_envs s id PresenceRuleRequired)))
    (mkPresence (kr_forbidden r) (explicit_envs (kr_forbidden r) (presence_envs s id PresenceRuleForbidden))).

(** ** The invariant *)

Record key_ok s (id : string) (r : KeyRow) : Prop := {
  ko_class : class_ok (kr_class r) = true;
  ko_group : kr_group r = "" ∨ is_Some (groups s !! kr_group r);
  ko_decl : ∃ n, ParseDeclaration (kr_decl r) = Some n ∧ CompiledCanonical n = Some (kr_decl r)
                 ∧ CompileClassified (kr_class r) n = Some n;
  ko_presence : CheckPresence (Required (key_rules s id r)) (Forbidden (key_rules s id r)) = Ok tt;
}.

(** An identifier is never empty, and never a mark of the diff. *)
Definition id_ok (id : string) : Prop := id ≠ "" ∧ ∀ n, id ≠ "new:" +:+ n.

Record catalogue_ok s : Prop := {
  ok_env_names : names_inj (er_name <$> envs s);
  ok_group_names : names_inj (groups s);
  ok_key_names : names_inj (kr_name <$> keys s);
  ok_env_ids : ∀ id, is_Some (envs s !! id) → id_ok id;
  ok_group_ids : ∀ id, is_Some (groups s !! id) → id_ok id;
  ok_key_ids : ∀ id, is_Some (keys s !! id) → id_ok id;
  ok_keys : ∀ id r, keys s !! id = Some r → key_ok s id r;
  ok_presence : ∀ row, row ∈ presence s → is_Some (keys s !! pr_key row) ∧ is_Some (envs s !! pr_env row);
}.

(** ** Reading *)

Lemma wf_entities_table (m : gmap string string) (l : list entity) :
  NoDup l → (∀ id n, mkEntity id n ∈ l ↔ m !! id = Some n) → names_inj m → (∀ id, is_Some (m !! id) → id ≠ "") →
  wf_entities l.
Proof.
  intros Hnd Hl Hinj Hne. split_and!.
  - apply NoDup_fmap_on; [done|]. intros [i n] [j n'] Hi Hj; simpl; intros <-.
    apply Hl in Hi, Hj. congruence.
  - apply NoDup_fmap_on; [done|]. intros [i n] [j n'] Hi Hj; simpl; intros <-.
    apply Hl in Hi, Hj. f_equal. by eapply Hinj.
  - intros ([i n] & E & Hi)%list_elem_of_fmap. simpl in E. subst i. apply Hl in Hi. by destruct (Hne "").
Qed.

Lemma list_entities {R} (le : string * R → string * R → bool) (name_of : R → string) (t : gmap string R) :
  let l := (λ e, mkEntity e.1 (name_of e.2)) <$> sort_by le (map_to_list t) in
  NoDup l ∧ ∀ id n, mkEntity id n ∈ l ↔ (name_of <$> t) !! id = Some n.
Proof.
  assert (∀ id r, (id, r) ∈ sort_by le (map_to_list t) ↔ t !! id = Some r) as Hin.
  { intros id r. rewrite elem_of_sort_by. apply elem_of_map_to_list. }
  split.
  - apply NoDup_fmap_on; [rewrite sort_by_Permutation; apply NoDup_map_to_list|].
    intros [i r] [j r'] Hi Hj; simpl. rewrite Hin in Hi, Hj. intros [= <- _]. congruence.
  - intros id n. rewrite list_elem_of_fmap, lookup_fmap, fmap_Some. split.
    + intros ([i r] & [= -> ->] & Hi). apply Hin in Hi. eauto.
    + intros (r & Hr & ->). exists (id, r). by rewrite Hin.
Qed.

Lemma fmap_id_map (t : gmap string string) : (λ n, n) <$> t = t.
Proof. apply map_fmap_id. Qed.

(** The current key a row reads as. *)
Definition read_key s (id : string) (r : KeyRow) (n : Declaration) : CurrentKey :=
  {| c_id := id; c_name := kr_name r; c_folder := kr_folder r; c_class := kr_class r; c_desc := kr_desc r;
     c_deprecated := kr_deprecated r; c_note := kr_note r; c_groupID := kr_group r; c_decl := n;
     c_required := Required (key_rules s id r); c_forbidden := Forbidden (key_rules s id r) |}.

Lemma currentKey_read s id r n :
  ParseDeclaration (kr_decl r) = Some n →
  currentKey (indexPresenceByKey (ListPresence s)) id r = Some (read_key s id r n).
Proof.
  intros Hn. unfold currentKey. rewrite Hn. simpl. f_equal.
  rewrite indexPresenceByKey_spec, presenceOf_spec, !rule_envs_filter. done.
Qed.

(** What the read gives, by elements. *)
Record reads s (cur : CurrentState) : Prop := {
  rd_revision : SchemaRevision cur = revision s;
  rd_env : ∀ id n, mkEntity id n ∈ s_envs cur ↔ (er_name <$> envs s) !! id = Some n;
  rd_group : ∀ id n, mkEntity id n ∈ s_groups cur ↔ groups s !! id = Some n;
  rd_key : ∀ c, c ∈ s_keys cur ↔
    ∃ r n, keys s !! c_id c = Some r ∧ ParseDeclaration (kr_decl r) = Some n ∧ c = read_key s (c_id c) r n;
  rd_wf_env : wf_entities (s_envs cur);
  rd_wf_group : wf_entities (s_groups cur);
  rd_wf_key : wf_entities (currentKeyEntities (s_keys cur));
}.

Lemma mapM_elem {X Y} (f : X → option Y) (l : list X) k y : mapM f l = Some k → y ∈ k ↔ ∃ x, x ∈ l ∧ f x = Some y.
Proof.
  intros Hk. apply mapM_Some in Hk. split.
  - intros (i & Hi)%list_elem_of_lookup. destruct (Forall2_lookup_r _ _ _ _ _ Hk Hi) as (x & Hx & ?).
    exists x. split; [by eapply list_elem_of_lookup_2|done].
  - intros (x & (i & Hi)%list_elem_of_lookup & Hf). destruct (Forall2_lookup_l _ _ _ _ _ Hk Hi) as (z & Hz & ?).
    simplify_eq. by eapply list_elem_of_lookup_2.
Qed.

Lemma buildCurrentState_reads s :
  catalogue_ok s → ∃ cur, buildCurrentState s = (s, Ok cur) ∧ reads s cur.
Proof.
  intros Hok. unfold buildCurrentState.
  assert (∀ id r, (id, r) ∈ ListKeys s ↔ keys s !! id = Some r) as Hin.
  { intros id r. unfold ListKeys. rewrite elem_of_sort_by. apply elem_of_map_to_list. }
  destruct (mapM _ (ListKeys s)) as [ks|] eqn:Ek; last first.
  { exfalso. apply mapM_None, Exists_exists in Ek as ([id r] & Hr & Hn). apply Hin in Hr. simpl in Hn.
    destruct (ko_decl _ _ _ (ok_keys _ Hok id r Hr)) as (n & Hp & _).
    by rewrite (currentKey_read _ _ _ _ Hp) in Hn. }
  eexists. split; [done|].
  destruct (list_entities (λ a b, (er_order a.2 <? er_order b.2)%Z
    || ((er_order a.2 =? er_order b.2)%Z && str_le (er_name a.2) (er_name b.2))) er_name (envs s)) as [He1 He2].
  destruct (list_entities (λ a b, str_le a.2 b.2) (λ n, n) (groups s)) as [Hg1 Hg2].
  setoid_rewrite fmap_id_map in Hg2.
  assert (∀ c, c ∈ ks ↔ ∃ r n, keys s !! c_id c = Some r ∧ ParseDeclaration (kr_decl r) = Some n
    ∧ c = read_key s (c_id c) r n) as Hks.
  { intros c. rewrite (mapM_elem _ _ _ _ Ek). split.
    - intros ([id r] & Hr & Hc). apply Hin in Hr. simpl in Hc.
      destruct (ko_decl _ _ _ (ok_keys _ Hok id r Hr)) as (n & Hp & _).
      rewrite (currentKey_read _ _ _ _ Hp) in Hc. simplify_eq. simpl. eauto.
    - intros (r & n & Hr & Hp & ->). exists (c_id c, r). rewrite Hin. split; [done|]. simpl.
      by rewrite (currentKey_read _ _ _ _ Hp). }
  split; simpl; [done|done|done|done| | |].
  - eapply wf_entities_table; [done|done|apply Hok|]. intros id [n Hn]. rewrite lookup_fmap in Hn.
    apply fmap_Some in Hn as (r & Hr & _). by apply (ok_env_ids _ Hok).
  - eapply wf_entities_table; [done|done|apply Hok|]. intros id Hn. by apply (ok_group_ids _ Hok).
  - eapply (wf_entities_table (kr_name <$> keys s)).
    + apply NoDup_fmap_on.
      * apply (NoDup_fmap_1 c_id). apply mapM_Some in Ek.
        assert (c_id <$> ks = (ListKeys s).*1) as ->.
        { clear -Ek. induction Ek as [|[id r] c l k Hc _ IH]; [done|]. rewrite !fmap_cons, IH. f_equal.
          unfold currentKey in Hc. simpl in Hc. by apply bind_Some in Hc as (n & _ & [= <-]). }
        unfold ListKeys. rewrite sort_by_Permutation. apply NoDup_fst_map_to_list.
      * intros c c' Hc Hc' [= E _]. apply Hks in Hc as (r & n & Hr & Hp & ->), Hc' as (r' & n' & Hr' & Hp' & ->).
        simpl in E. rewrite <-E in *. congruence.
    + intros id n. unfold currentKeyEntities. rewrite list_elem_of_fmap, lookup_fmap, fmap_Some. split.
      * intros (c & [= -> ->] & Hc). apply Hks in Hc as (r & n & Hr & _ & Ec). exists r. split; [done|].
        by rewrite Ec.
      * intros (r & Hr & ->). destruct (ko_decl _ _ _ (ok_keys _ Hok id r Hr)) as (n & Hp & _).
        exists (read_key s id r n). split; [done|]. apply Hks. simpl. eauto.
    + apply Hok.
    + intros id [n Hn]. rewrite lookup_fmap in Hn. apply fmap_Some in Hn as (r & Hr & _).
      by apply (ok_key_ids _ Hok).
Qed.
End state.

