(* ===== verification/DefinitionsRealize.v ===== *)
(** * A catalogue that realises a bundle

    The abstract content of a definitions bundle and of a catalogue: per key,
    every declared attribute, with group and presence by name. A catalogue
    realises a bundle when it holds every entry, under the entry's id where it
    has one; resolving the bundle against it then changes nothing. *)

From stdpp Require Import prelude gmap strings list.
From S2P Require Import Prelude Presence Definitions DefinitionsMatch Catalogue DefinitionsApply DefinitionsState.

Section realize.
Context `{SchemaLang, !SchemaLaws} {A : Type} `{AccessAdmin A}.
Implicit Types s : Project A.

Record KeySpec := mkKeySpec {
  sp_folder : string; sp_class : string; sp_desc : string; sp_deprecated : bool; sp_note : string;
  sp_group : option string; sp_decl : option Declaration;
  sp_required : string * gset string; sp_forbidden : string * gset string;
}.

Definition key_spec (k : Key) : KeySpec :=
  {| sp_folder := k_folder k; sp_class := k_class k; sp_desc := k_desc k; sp_deprecated := k_deprecated k;
     sp_note := k_note k; sp_group := if bool_decide (k_group k = "") then None else Some (k_group k);
     sp_decl := Some (k_decl k);
     sp_required := (Mode (k_required k), list_to_set (Environments (k_required k)));
     sp_forbidden := (Mode (k_forbidden k), list_to_set (Environments (k_forbidden k))) |}.

(** A stored rule by environment names. *)
Definition rule_names s (p : Presence) : string * gset string :=
  (Mode p, list_to_set (omap (λ e, er_name <$> envs s !! e) (Environments p))).

Definition row_spec s (id : string) (r : KeyRow) : KeySpec :=
  {| sp_folder := kr_folder r; sp_class := kr_class r; sp_desc := kr_desc r; sp_deprecated := kr_deprecated r;
     sp_note := kr_note r;
     sp_group := if bool_decide (kr_group r = "") then None else groups s !! kr_group r;
     sp_decl := ParseDeclaration (kr_decl r);
     sp_required := rule_names s (Required (key_rules s id r));
     sp_forbidden := rule_names s (Forbidden (key_rules s id r)) |}.

(** What [Parse] and [Canonicalize] leave of a bundle, and [Resolve]'s
    reference check. *)
Record canonical (b : Bundle) : Prop := {
  cb_env_names : NoDup (ent_name <$> b_envs b);
  cb_group_names : NoDup (ent_name <$> b_groups b);
  cb_key_names : NoDup (k_name <$> b_keys b);
  cb_refs : ∀ k, k ∈ b_keys b →
    validateKeyReferences k (list_to_set (ent_name <$> b_envs b)) (list_to_set (ent_name <$> b_groups b)) = Ok tt;
  cb_shaped : ∀ k, k ∈ b_keys b → shaped (k_required k) ∧ shaped (k_forbidden k);
  cb_class : ∀ k, k ∈ b_keys b → class_ok (k_class k) = true;
  cb_decl : ∀ k, k ∈ b_keys b → CompileClassified (k_class k) (k_decl k) = Some (k_decl k);
  cb_no_ids : Additive b = true →
    no_ids (b_envs b) ∧ no_ids (b_groups b) ∧ ∀ k, k ∈ b_keys b → k_id k = "";
}.

Record realizes (b : Bundle) s : Prop := {
  rz_envs : ∀ e, e ∈ b_envs b → ∃ id, (er_name <$> envs s) !! id = Some (ent_name e) ∧ (ent_id e ≠ "" → id = ent_id e);
  rz_groups : ∀ e, e ∈ b_groups b → ∃ id, groups s !! id = Some (ent_name e) ∧ (ent_id e ≠ "" → id = ent_id e);
  rz_keys : ∀ k, k ∈ b_keys b → ∃ id r, keys s !! id = Some r ∧ kr_name r = k_name k
    ∧ (k_id k ≠ "" → id = k_id k) ∧ row_spec s id r = key_spec k;
}.

(** Nothing but the bundle's entries. *)
Record exactly (b : Bundle) s : Prop := {
  ex_envs : ∀ id n, (er_name <$> envs s) !! id = Some n → n ∈ ent_name <$> b_envs b;
  ex_groups : ∀ id n, groups s !! id = Some n → n ∈ ent_name <$> b_groups b;
  ex_keys : ∀ id r, keys s !! id = Some r → kr_name r ∈ k_name <$> b_keys b;
}.

Lemma validate_refs k en gn :
  validateKeyReferences k en gn = Ok tt ↔
  (k_group k ≠ "" → k_group k ∈ gn) ∧ (∀ n, n ∈ Environments (k_required k) → n ∈ en)
  ∧ (∀ n, n ∈ Environments (k_forbidden k) → n ∈ en).
Proof.
  assert (∀ what p, danglingEnv (k_name k) what p en = Ok tt ↔ ∀ n, n ∈ Environments p → n ∈ en) as Hd.
  { intros what p. unfold danglingEnv. destruct (list_find _ _) as [[i n]|] eqn:E.
    - apply list_find_Some in E as (Hi & Hn & _). split; [done|]. intros Hall. destruct Hn.
      apply Hall. by eapply list_elem_of_lookup_2.
    - apply list_find_None in E. rewrite Forall_forall in E. split; [|done]. intros _ n Hn.
      apply dec_stable. intros ?. by apply (E n). }
  unfold validateKeyReferences. rewrite rbind_Ok. setoid_rewrite rbind_Ok. split.
  - intros ([] & Hg & [] & Hr & Hf). rewrite Hd in Hr; rewrite Hd in Hf. split_and!; [|done..]. intros Hne.
    apply dec_stable. intros Hn. by rewrite !bool_decide_eq_true_2 in Hg.
  - intros (Hg & Hr & Hf). exists tt. split; [|exists tt; by rewrite !Hd].
    case_bool_decide; simpl; [|done]. by rewrite bool_decide_eq_false_2 by (intros ?; auto).
Qed.

(** ** Presence in identity space *)

Lemma NoDup_same_length {X} (l k : list X) : NoDup l → NoDup k → (∀ x, x ∈ l ↔ x ∈ k) → length l = length k.
Proof. intros Hl Hk Hlk. by apply Permutation_length, NoDup_Permutation. Qed.

(** [name_of] is injective on [ids]; the names listed are those of [ids]. *)
Lemma presence_same_length (name_of : gmap string string) (ids names : list string) :
  names_inj name_of → NoDup ids → NoDup names → (∀ e, e ∈ ids → is_Some (name_of !! e)) →
  (∀ n, n ∈ names ↔ ∃ e, e ∈ ids ∧ name_of !! e = Some n) → length ids = length names.
Proof.
  intros Hinj Hids Hnames Hdom Hin. rewrite <-(length_fmap (λ e, default "" (name_of !! e)) ids).
  apply NoDup_same_length; [|done|].
  - apply NoDup_fmap_on; [done|]. intros x y Hx Hy. destruct (Hdom x Hx) as [n Hn], (Hdom y Hy) as [n' Hn'].
    rewrite Hn, Hn'. simpl. intros <-. by eapply Hinj.
  - intros n. rewrite list_elem_of_fmap, Hin. split.
    + intros (e & -> & He). destruct (Hdom e He) as [n' Hn]. exists e. by rewrite Hn.
    + intros (e & He & Hn). exists e. by rewrite Hn.
Qed.

Lemma rule_names_elem s p n :
  n ∈ (rule_names s p).2 ↔ ∃ e, e ∈ Environments p ∧ (er_name <$> envs s) !! e = Some n.
Proof.
  unfold rule_names. simpl. rewrite elem_of_list_to_set, list_elem_of_omap. setoid_rewrite lookup_fmap. done.
Qed.

(** The ids of the bundle's environments. *)
Definition env_ids_of s (identity : gmap string string) (names : list string) : Prop :=
  ∀ n, n ∈ names → ∃ id, identity !! n = Some id ∧ (er_name <$> envs s) !! id = Some n.

Lemma presence_unchanged s before desired identity :
  catalogue_ok s → shaped desired → NoDup (Environments before) →
  (∀ e, e ∈ Environments before → is_Some (envs s !! e)) →
  env_ids_of s identity (Environments desired) →
  rule_names s before = (Mode desired, list_to_set (Environments desired)) →
  presenceChanged before desired identity = false.
Proof.
  intros Hok Hsh Hnd Hdom Hid E. assert (Mode before = Mode desired) as Hm by (by injection E).
  assert (∀ n, n ∈ Environments desired ↔ ∃ e, e ∈ Environments before ∧ (er_name <$> envs s) !! e = Some n) as Hn.
  { intros n. rewrite <-rule_names_elem, E. simpl. by rewrite elem_of_list_to_set. }
  unfold presenceChanged. rewrite bool_decide_eq_false_2 by (by intros ?).
  case_bool_decide as Hx; [done|].
  destruct Hsh as [[[Hs|Hs] _]|(Hs & Hne & Hnd' & _)]; [by rewrite Hs in Hx..|].
  rewrite (presence_same_length (er_name <$> envs s) (Environments before) (Environments desired));
    [|by apply Hok|done|done| |done].
  - rewrite Nat.eqb_refl. simpl. apply existsb_false. intros n Hin. apply bool_decide_eq_false. intros Hout.
    apply Hout. apply elem_of_list_to_set. destruct (Hid n Hin) as (id & -> & Hnid). simpl.
    apply Hn in Hin as (e & He & Hne'). by rewrite (ok_env_names _ Hok _ _ _ Hnid Hne').
  - intros e He. rewrite lookup_fmap, fmap_is_Some. auto.
Qed.

(** ** Resolving a realised bundle *)

Lemma holds_table (m : gmap string string) (bundle current : list entity) :
  (∀ id n, mkEntity id n ∈ current ↔ m !! id = Some n) →
  (∀ e, e ∈ bundle → ∃ id, m !! id = Some (ent_name e) ∧ (ent_id e ≠ "" → id = ent_id e)) →
  holds bundle current.
Proof.
  intros Hc Hb e He. destruct (Hb e He) as (id & Hid & Hi). exists (mkEntity id (ent_name e)).
  split; [by apply Hc|]. done.
Qed.

(** One topology kind: no create, no rename, and deletions only of what the
    bundle does not name. *)
Lemma topology_idle current bundle additive m :
  wf_entities current → matched bundle current additive m →
  (∀ e id, (e, id) ∈ zip bundle (boundDBID m) → mkEntity id (ent_name e) ∈ current) →
  (additive = false → ∀ c, c ∈ current → ent_name c ∈ ent_name <$> bundle) →
  topology current bundle (boundDBID m) = ([], []) ∧ deletes m = [].
Proof.
  intros Hwf Hm Hz Hex.
  assert (∀ e id, (e, id) ∈ zip bundle (boundDBID m) → id ≠ "") as Hne.
  { intros e id Hp ->. destruct Hwf as (_ & _ & Hw). apply Hw, list_elem_of_fmap.
    exists (mkEntity "" (ent_name e)). auto. }
  split.
  - destruct (topology current bundle (boundDBID m)) as [cs rs] eqn:E.
    assert (cs = []) as ->.
    { destruct cs as [|c cs]; [done|]. assert (c ∈ (topology current bundle (boundDBID m)).1) as Hc
        by (rewrite E; set_solver).
      apply topology_creates in Hc as (e & Hp & _). by apply Hne in Hp. }
    destruct rs as [|r rs]; [done|]. assert (r ∈ (topology current bundle (boundDBID m)).2) as Hr
      by (rewrite E; set_solver).
    apply topology_renames in Hr as (e & Hp & _ & Hf & Hn & Ht). destruct Hn.
    rewrite Hf, Ht. apply nameFor_elem; auto.
  - destruct (deletes m) as [|id l] eqn:E; [done|]. assert (id ∈ deletes m) as Hd by (rewrite E; set_solver).
    apply (m_deletes _ _ _ _ Hm) in Hd as (-> & Hin & Hnb). exfalso. apply Hnb.
    apply list_elem_of_fmap in Hin as (c & -> & Hc).
    destruct (list_elem_of_fmap_1 _ _ _ (Hex eq_refl c Hc)) as (e & En & He).
    destruct (matched_pairs _ _ _ _ Hm e He) as [id Hp]. apply (pair_bound _ _ _ _ _ Hm). exists e.
    assert (c = mkEntity id (ent_name e)) as -> by (eapply (NoDup_fmap_elem ent_name); [apply Hwf|done|auto|done]).
    done.
Qed.

Lemma entities_id (l : list entity) : (λ e, mkEntity (ent_id e) (ent_name e)) <$> l = l.
Proof. induction l as [|[i n] l IH]; [done|]. by rewrite fmap_cons, IH. Qed.

(** The identity map of a bundle whose entries all bind. *)
Lemma identities_bound current bundle additive m n :
  wf_entities current → matched bundle current additive m →
  (∀ e id, (e, id) ∈ zip bundle (boundDBID m) → mkEntity id (ent_name e) ∈ current) →
  n ∈ ent_name <$> bundle →
  ∃ id, identities bundle (boundDBID m) ∅ !! n = Some id ∧ mkEntity id n ∈ current.
Proof.
  intros Hwf Hm Hz (e & -> & He)%list_elem_of_fmap. destruct (matched_pairs _ _ _ _ Hm e He) as [id Hp].
  exists id. split; [|auto]. apply (identities_spec _ _ _ _ _ _ Hm). exists e, id. split_and!; [done..|].
  rewrite bool_decide_eq_true_2; [done|]. intros ->. destruct Hwf as (_ & _ & Hw).
  apply Hw, list_elem_of_fmap. exists (mkEntity "" (ent_name e)). auto.
Qed.

Lemma key_rules_envs s id r : catalogue_ok s → keys s !! id = Some r →
  ∀ rule, rule = Required (key_rules s id r) ∨ rule = Forbidden (key_rules s id r) →
  NoDup (Environments rule) ∧ ∀ e, e ∈ Environments rule → is_Some (envs s !! e).
Proof.
  intros Hok Hr rule Hrule.
  assert (∀ ru m, NoDup (explicit_envs m (presence_envs s id ru))
    ∧ ∀ e, e ∈ explicit_envs m (presence_envs s id ru) → is_Some (envs s !! e)) as Hx.
  { intros ru m. unfold explicit_envs. case_bool_decide; [|split; [constructor|by intros e ?%elem_of_nil]].
    split; [apply presence_envs_nodup|]. intros e He%presence_envs_elem. by apply (ok_presence _ Hok) in He as [_ ?]. }
  destruct Hrule as [->| ->]; apply Hx.
Qed.

Lemma key_unchanged s b id r n k ei gi :
  catalogue_ok s → canonical b → k ∈ b_keys b → keys s !! id = Some r →
  ParseDeclaration (kr_decl r) = Some n → kr_name r = k_name k → row_spec s id r = key_spec k →
  (∀ x, x ∈ ent_name <$> b_envs b → ∃ i, ei !! x = Some i ∧ (er_name <$> envs s) !! i = Some x) →
  (∀ x, x ∈ ent_name <$> b_groups b → ∃ i, gi !! x = Some i ∧ groups s !! i = Some x) →
  changed (diffKey (read_key s id r n) k ei gi) = false.
Proof.
  intros Hok Hb Hk Hr Hn Hname E Hei Hgi. pose proof (f_equal sp_group E) as Eg. pose proof (f_equal sp_decl E) as Ed.
  pose proof (f_equal sp_required E) as Er. pose proof (f_equal sp_forbidden E) as Ef.
  pose proof (f_equal sp_folder E) as E1. pose proof (f_equal sp_class E) as E2.
  pose proof (f_equal sp_desc E) as E3. pose proof (f_equal sp_deprecated E) as E4.
  pose proof (f_equal sp_note E) as E5. simpl in *.
  destruct (proj1 (validate_refs _ _ _) (cb_refs _ Hb k Hk)) as (Hrg & Hrr & Hrf).
  setoid_rewrite elem_of_list_to_set in Hrg. setoid_rewrite elem_of_list_to_set in Hrr.
  setoid_rewrite elem_of_list_to_set in Hrf.
  destruct (cb_shaped _ Hb k Hk) as [Hs1 Hs2].
  destruct (key_rules_envs s id r Hok Hr _ (or_introl eq_refl)) as [Hd1 Hd2].
  destruct (key_rules_envs s id r Hok Hr _ (or_intror eq_refl)) as [Hd3 Hd4].
  unfold changed, diffKey. simpl. rewrite Hname, E1, E2, E3, E4, E5. rewrite !bool_decide_eq_false_2 by (by intros ?).
  simpl. rewrite Hn in Ed. injection Ed as ->.
  destruct (ko_decl _ _ _ (ok_keys _ Hok id r Hr)) as (n' & Hp' & _ & Hc'). rewrite Hn in Hp'. simplify_eq.
  rewrite (proj2 (change_exact _ _ _ _ Hc' (cb_decl _ Hb k Hk)) eq_refl). simpl.
  assert (presenceChanged (Required (key_rules s id r)) (k_required k) ei = false) as P1.
  { eapply (presence_unchanged s); [done|done|done|done|intros x Hx; by apply Hei, Hrr|done]. }
  assert (presenceChanged (Forbidden (key_rules s id r)) (k_forbidden k) ei = false) as P2.
  { eapply (presence_unchanged s); [done|done|done|done|intros x Hx; by apply Hei, Hrf|done]. }
  unfold key_rules in P1, P2. simpl in P1, P2. rewrite P1, P2.
  rewrite !orb_false_r. apply bool_decide_eq_false. intros Hne. apply Hne. clear Hne.
  destruct (decide (k_group k = "")) as [Hkg|Hkg].
  - rewrite bool_decide_eq_false_2 by (by intros ?). rewrite (bool_decide_eq_true_2 _ Hkg) in Eg.
    case_bool_decide as Hrg'; [done|]. destruct (ko_group _ _ _ (ok_keys _ Hok id r Hr)) as [?|[? ?]]; congruence.
  - rewrite bool_decide_eq_true_2 by done. rewrite (bool_decide_eq_false_2 _ Hkg) in Eg.
    case_bool_decide as Hrg'; [done|]. destruct (Hgi (k_group k)) as (i & -> & Hi); [auto|].
    simpl. by apply (ok_group_names _ Hok) with (k_group k).
Qed.

Lemma resolveKeys_idle additive strict cur en gn ei gi l : ∀ ids,
  (∀ p, p ∈ zip l ids → validateKeyReferences p.1 en gn = Ok tt ∧ p.2 ≠ "" ∧ key_update cur ei gi p = None) →
  resolveKeys additive strict cur en gn ei gi l ids = Ok ([], [], []).
Proof.
  induction l as [|k l IH]; intros [|id ids] Hall; [done..|]. simpl.
  destruct (Hall (k, id)) as (Hv & Hid & Hu); [set_solver|]. simpl in *. rewrite Hv. simpl.
  rewrite bool_decide_eq_false_2 by done. unfold key_update in Hu. simpl in Hu.
  rewrite bool_decide_eq_false_2 in Hu by done. rewrite IH by (intros; apply Hall; set_solver).
  destruct (list_find _ cur) as [[j c]|]; [|done]. simpl in Hu.
  destruct (changed (diffKey c k ei gi)); done.
Qed.

(** Resolving a bundle the catalogue realises changes nothing. *)
Lemma realizes_empty b s cur strict :
  catalogue_ok s → reads s cur → canonical b → realizes b s → (Additive b = false → exactly b s) →
  ∃ res, resolve b cur strict = Ok res ∧ Empty res = true.
Proof.
  intros Hok Hrd Hb Hz Hex. unfold resolve.
  unfold envEntities, groupEntities. rewrite !entities_id.
  destruct (match_holds "environment" (b_envs b) (s_envs cur) (Additive b)) as (em & -> & Hem & Hez);
    [apply Hrd|apply Hb|eapply holds_table; [apply Hrd|apply Hz]|].
  destruct (match_holds "key group" (b_groups b) (s_groups cur) (Additive b)) as (gm & -> & Hgm & Hgz);
    [apply Hrd|apply Hb|eapply holds_table; [apply Hrd|apply Hz]|].
  assert (NoDup (ent_name <$> bundleKeyEntities (b_keys b))) as Hkn.
  { unfold bundleKeyEntities. rewrite <-list_fmap_compose. apply Hb. }
  assert (∀ id n, mkEntity id n ∈ currentKeyEntities (s_keys cur) ↔ (kr_name <$> keys s) !! id = Some n) as Hck.
  { intros id n. unfold currentKeyEntities. rewrite list_elem_of_fmap, lookup_fmap, fmap_Some. split.
    - intros (c & [= -> ->] & Hc). apply (rd_key _ _ Hrd) in Hc as (r & n & Hr & _ & Ec). exists r.
      split; [done|]. by rewrite Ec.
    - intros (r & Hr & ->). destruct (ko_decl _ _ _ (ok_keys _ Hok id r Hr)) as (n & Hp & _).
      exists (read_key s id r n). split; [done|]. apply (rd_key _ _ Hrd). simpl. eauto. }
  destruct (match_holds "key" (bundleKeyEntities (b_keys b)) (currentKeyEntities (s_keys cur)) (Additive b))
    as (km & -> & Hkm & Hkz); [apply Hrd|done| |].
  { eapply holds_table; [exact Hck|]. intros e (k & -> & Hk)%list_elem_of_fmap.
    destruct (rz_keys _ _ Hz k Hk) as (id & r & Hr & Hn & Hid & _). exists id. simpl.
    split; [|done]. by rewrite lookup_fmap, Hr, <-Hn. }
  simpl.
  destruct (topology_idle (s_envs cur) (b_envs b) (Additive b) em) as [-> Hed];
    [apply Hrd|done|done|intros Ha [i n] Hc; apply (rd_env _ _ Hrd) in Hc; by eapply (ex_envs _ _ (Hex Ha))|].
  destruct (topology_idle (s_groups cur) (b_groups b) (Additive b) gm) as [-> Hgd];
    [apply Hrd|done|done|intros Ha [i n] Hc; apply (rd_group _ _ Hrd) in Hc; by eapply (ex_groups _ _ (Hex Ha))|].
  destruct (topology_idle (currentKeyEntities (s_keys cur)) (bundleKeyEntities (b_keys b)) (Additive b) km)
    as [_ Hkd]; [apply Hrd|done|done| |].
  { intros Ha [i n] Hc. apply Hck in Hc. rewrite lookup_fmap, fmap_Some in Hc. destruct Hc as (r & Hr & ->).
    unfold bundleKeyEntities. rewrite <-list_fmap_compose. by eapply (ex_keys _ _ (Hex Ha)). }
  rewrite resolveKeys_idle; [simpl; eexists; split; [done|]; by rewrite Hed, Hgd, Hkd|].
  intros [k id] Hp. simpl.
  assert (k ∈ b_keys b) as Hk by (apply zip_elem in Hp as (i & Hi & _); by eapply list_elem_of_lookup_2).
  assert (mkEntity id (k_name k) ∈ currentKeyEntities (s_keys cur)) as Hc.
  { apply (Hkz (mkEntity (k_id k) (k_name k)) id). apply zip_elem in Hp as (i & Hi & Hi'). apply zip_elem.
    exists i. split; [|done]. unfold bundleKeyEntities. by rewrite list_lookup_fmap, Hi. }
  split; [by apply Hb|]. apply Hck in Hc. rewrite lookup_fmap, fmap_Some in Hc. destruct Hc as (r & Hr & Hn).
  split; [by apply (ok_key_ids _ Hok)|].
  unfold key_update. simpl. rewrite bool_decide_eq_false_2 by (by apply (ok_key_ids _ Hok)).
  destruct (list_find _ (s_keys cur)) as [[j c]|] eqn:Ef; [|done]. simpl.
  apply list_find_Some in Ef as (Hj & Hcid & _). apply list_elem_of_lookup_2, (rd_key _ _ Hrd) in Hj as (r' & n & Hr' & Hp' & Ec).
  rewrite Hcid in Hr', Ec. rewrite Hr in Hr'. injection Hr' as <-. subst c.
  destruct (rz_keys _ _ Hz k Hk) as (id' & r' & Hr'' & Hn' & _ & Hspec).
  assert (id = id') as <-.
  { eapply (ok_key_names _ Hok); rewrite lookup_fmap; [by rewrite Hr|]. rewrite Hr''. simpl. congruence. }
  rewrite Hr in Hr''. injection Hr'' as <-. erewrite key_unchanged; [done|done|done|done|done|done|done|done| |].
  - intros x Hx. destruct (identities_bound _ _ _ _ x (rd_wf_env _ _ Hrd) Hem Hez Hx) as (i & ? & Hi).
    exists i. split; [done|]. by apply (rd_env _ _ Hrd).
  - intros x Hx. destruct (identities_bound _ _ _ _ x (rd_wf_group _ _ Hrd) Hgm Hgz Hx) as (i & ? & Hi).
    exists i. split; [done|]. by apply (rd_group _ _ Hrd).
Qed.
End realize.
