(* ===== verification/DefinitionsExec.v ===== *)
(** * Executing a resolution: the phases

    Each phase of [executeResolution] as a rule: what it leaves of the four
    definition tables, and which refusals it can meet. The refusals are those of
    the world outside the definitions ([external]) and two that the bundle itself
    is to blame for ([Blame]): a name never collides, a reference never dangles
    and no row is missing, in any intermediate state. *)

From stdpp Require Import prelude gmap strings pretty list.
From S2P Require Import Prelude StateErr Presence Definitions DefinitionsMatch Catalogue DefinitionsApply.
From S2P Require Import DefinitionsState.

(** Refusals that are about rows of other components, the caller's authority or
    the source of identifiers; nothing a bundle says is among them. *)
Definition external (e : DefError) : bool :=
  match e with
  | ErrConflict (PinnedByAdapter _) | ErrConflict GitManaged | ErrSSHLiveCA | ErrPKICertificateRetention
  | ErrUnauthorized _ _ => true
  | ErrConflict (ForeignKey t) =>
      bool_decide (t ∈ ["value_entries"; "revision_pins"; "adapters"; "grants"; "rule_items"])
  | ErrInternal w => bool_decide (w ∈ ["generate id"; "grants"; "rules"])
  | _ => false
  end.

(** What the bundle must have said for the two refusals that are its own: a key
    both required and forbidden somewhere, and a secret turned into config. *)
Class Blame := { conflict_blame : Prop; declassify_blame : Prop }.

Definition refusal `{Blame} (e : DefError) : Prop :=
  match e with
  | ErrPresence (RequiredAndForbidden _) => conflict_blame
  | ErrInvalid w => w = "definitions apply cannot declassify" ∧ declassify_blame
  | _ => external e = true
  end.

Section exec.
Context `{SchemaLang, !SchemaLaws} {A : Type} `{AccessAdmin A} `{Blame}.
Context (newid : string → nat → option string).
Implicit Types s : Project A.

(** Success, or one of the refusals. *)
Definition succeeds {X} (m : M (Project A) DefError X) s (Q : X → Project A → Prop) : Prop :=
  wp m s Q (λ e _, refusal e).

Lemma succeeds_bind {X Y} (m : M (Project A) DefError X) (f : X → M (Project A) DefError Y) s Q :
  succeeds m s (λ x s', succeeds (f x) s' Q) → succeeds (bind m f) s Q.
Proof. apply wp_bind. Qed.

Lemma succeeds_mono {X} (m : M (Project A) DefError X) s (Q Q' : X → Project A → Prop) :
  succeeds m s Q → (∀ x s', Q x s' → Q' x s') → succeeds m s Q'.
Proof. intros Hm HQ. by eapply wp_mono. Qed.

Lemma succeeds_stmt check f s Q :
  match check s with Some e => refusal e | None => Q tt (f s) end → succeeds (stmt check f) s Q.
Proof. unfold succeeds, wp, stmt. by destruct (check s). Qed.

Lemma succeeds_modify f s Q : Q tt (f s) → succeeds (modify f) s Q.
Proof. apply wp_modify. Qed.

Lemma succeeds_access e f s Q :
  refusal e → (∀ a, Q tt (set_access s a)) → succeeds (with_access e f) s Q.
Proof. intros He HQ. unfold succeeds, wp, with_access. destruct (f (access s)) as [a []]; auto. Qed.

(** ** The definition tables *)

Definition in_use s : gset string := dom (envs s) ∪ dom (groups s) ∪ dom (keys s).

(** Every identifier still to be minted is well formed and unused. *)
Definition fresh s : Prop :=
  ∀ p n id, minted s ≤ n → newid p n = Some id → id_ok id ∧ id ∉ in_use s.

Lemma fresh_mono s s' : in_use s' ⊆ in_use s → minted s ≤ minted s' → fresh s → fresh s'.
Proof. intros Hu Hm Hf p n id Hn Hid. destruct (Hf p n id); [lia|done|]. split; [done|set_solver]. Qed.

(** The tables and the ids are as they were. *)
Definition same s s' : Prop :=
  envs s' = envs s ∧ groups s' = groups s ∧ keys s' = keys s ∧ presence s' = presence s ∧ minted s' = minted s.

Lemma succeeds_event ty o p s Q : (∀ s', same s s' → Q tt s') → succeeds (event ty o p) s Q.
Proof. intros HQ. unfold event, insertDefinitionEvent. apply succeeds_modify. apply HQ. done. Qed.

(** ** Deletes *)

Definition ids_of (l : list Ref) : list string := ent_id <$> l.

(** What remains after the keys of [l] are deleted. *)
Record keys_deleted (l : list Ref) s s' : Prop := {
  kd_envs : envs s' = envs s;
  kd_groups : groups s' = groups s;
  kd_minted : minted s' = minted s;
  kd_keys : ∀ id, keys s' !! id = if bool_decide (id ∈ ids_of l) then None else keys s !! id;
  kd_presence : ∀ row, row ∈ presence s' ↔ row ∈ presence s ∧ (pr_key row ∉ ids_of l);
}.

Lemma not_referenced {X} `{Countable X} (P : X → Prop) `{∀ x, Decision (P x)} (Y : gset X) :
  bool_decide (set_Exists P (filter (λ x, ¬ P x) Y)) = false.
Proof.
  apply bool_decide_eq_false. intros (x & Hx & HP). apply elem_of_filter in Hx as [? _]. done.
Qed.

Lemma deleteKey_ok del s :
  is_Some (keys s !! ent_id del) → succeeds (deleteKey del) s (λ _ s', keys_deleted [del] s s').
Proof.
  intros [r Hr]. unfold deleteKey. apply succeeds_bind. unfold succeeds at 1, wp, Catalogue_Get. rewrite Hr.
  apply succeeds_bind. unfold refuseAdapterPinnedKey. apply succeeds_bind. apply wp_gets.
  case_bool_decide; [apply wp_fail; done|]. apply wp_ret.
  do 4 (apply succeeds_bind; apply succeeds_modify). apply succeeds_bind, succeeds_access; [done|]. intros a.
  apply succeeds_bind, succeeds_stmt. simpl. rewrite bool_decide_eq_false_2 by (by rewrite Hr).
  unfold key_referenced. simpl.
  rewrite (not_referenced (λ v : string * string, v.1 = ent_id del)),
    (not_referenced (λ v : string * string, v.1 = ent_id del)), (not_referenced (λ r, pr_key r = ent_id del)).
  rewrite bool_decide_eq_false_2 by set_solver.
  destruct (refs_key a (ent_id del)); simpl; [done|].
  apply succeeds_event. intros s' (He & Hg & Hk & Hp & Hm). simpl in *. split.
  - done.
  - done.
  - done.
  - intros id. rewrite Hk. unfold ids_of. simpl. case_bool_decide as Hid.
    + apply list_elem_of_singleton in Hid as ->. apply lookup_delete_eq.
    + rewrite lookup_delete_ne; [done|]. set_solver.
  - intros row. rewrite Hp, elem_of_filter. unfold ids_of. simpl. set_solver.
Qed.

Lemma deleteKeys_ok l : ∀ s, NoDup (ids_of l) → (∀ id, id ∈ ids_of l → is_Some (keys s !! id)) →
  succeeds (for_each l deleteKey) s (λ _ s', keys_deleted l s s').
Proof.
  induction l as [|d l IH]; intros s Hnd Hin; simpl.
  { apply wp_ret. split; try done; intros row; rewrite ?bool_decide_eq_false_2 by apply not_elem_of_nil; try done.
    split; [|naive_solver]. intros ?. split; [done|apply not_elem_of_nil]. }
  unfold ids_of in Hnd. rewrite fmap_cons, NoDup_cons in Hnd. destruct Hnd as [Hd Hnd].
  apply succeeds_bind. eapply succeeds_mono; [apply deleteKey_ok, Hin; by left|]. intros ? s1 D1; simpl in D1.
  eapply succeeds_mono; [apply IH; [done|]|].
  { intros id Hid. rewrite (kd_keys _ _ _ D1). unfold ids_of. simpl.
    rewrite bool_decide_eq_false_2; [apply Hin; by right|]. intros ->%list_elem_of_singleton. done. }
  intros ? s2 D2; simpl in D2. split.
  - by rewrite (kd_envs _ _ _ D2), (kd_envs _ _ _ D1).
  - by rewrite (kd_groups _ _ _ D2), (kd_groups _ _ _ D1).
  - by rewrite (kd_minted _ _ _ D2), (kd_minted _ _ _ D1).
  - intros id. rewrite (kd_keys _ _ _ D2), (kd_keys _ _ _ D1). unfold ids_of. rewrite fmap_cons.
    repeat case_bool_decide; set_solver.
  - intros row. rewrite (kd_presence _ _ _ D2), (kd_presence _ _ _ D1). unfold ids_of. rewrite fmap_cons.
    set_solver.
Qed.

(** The members of deleted groups leave them. *)
Definition released (gs : list string) (r : KeyRow) : KeyRow :=
  if bool_decide (kr_group r ∈ gs ∧ kr_group r ≠ "") then set_group "" r else r.

Lemma released_nil r : released [] r = r.
Proof. unfold released. rewrite bool_decide_eq_false_2; [done|]. intros [?%elem_of_nil _]. done. Qed.

Lemma released_cons g gs r : released gs (released [g] r) = released (g :: gs) r.
Proof.
  unfold released at 2. case_bool_decide as E1; unfold released; simpl.
  - rewrite (bool_decide_eq_false_2 ("" ∈ gs ∧ _)) by naive_solver.
    rewrite bool_decide_eq_true_2; [done|]. rewrite elem_of_cons. set_solver.
  - rewrite list_elem_of_singleton in E1. erewrite bool_decide_ext; [done|]. rewrite elem_of_cons. naive_solver.
Qed.

Record groups_deleted (l : list Ref) s s' : Prop := {
  gd_envs : envs s' = envs s;
  gd_presence : presence s' = presence s;
  gd_minted : minted s' = minted s;
  gd_groups : ∀ id, groups s' !! id = if bool_decide (id ∈ ids_of l) then None else groups s !! id;
  gd_keys : ∀ id, keys s' !! id = released (ids_of l) <$> keys s !! id;
}.

Lemma deleteGroup_ok del s :
  is_Some (groups s !! ent_id del) → succeeds (deleteGroup del) s (λ _ s', groups_deleted [del] s s').
Proof.
  intros [n Hn]. unfold deleteGroup. apply succeeds_bind, wp_gets, succeeds_bind, succeeds_modify.
  apply succeeds_bind, succeeds_stmt. simpl. rewrite bool_decide_eq_false_2 by (by rewrite Hn).
  rewrite bool_decide_eq_false_2.
  - apply succeeds_event. intros s' (He & Hg & Hk & Hp & Hm). simpl in *. split; try done.
    + intros id. rewrite Hg. unfold ids_of. simpl. case_bool_decide as Hid.
      * apply list_elem_of_singleton in Hid as ->. apply lookup_delete_eq.
      * rewrite lookup_delete_ne; [done|]. set_solver.
    + intros id. rewrite Hk, lookup_fmap. unfold ids_of, released. simpl.
      destruct (keys s !! id) as [r|]; [|done]. simpl. f_equal.
      erewrite bool_decide_ext; [done|]. rewrite list_elem_of_singleton. split; (intros [E ?]; split; congruence).
  - intros (id & r & Hr & Hg & Hne). simpl in Hr. rewrite lookup_fmap, fmap_Some in Hr.
    destruct Hr as (r' & Hr' & ->). case_bool_decide; [done|]. naive_solver.
Qed.

Lemma deleteGroups_ok l : ∀ s, NoDup (ids_of l) → (∀ id, id ∈ ids_of l → is_Some (groups s !! id)) →
  succeeds (for_each l deleteGroup) s (λ _ s', groups_deleted l s s').
Proof.
  induction l as [|d l IH]; intros s Hnd Hin; simpl.
  { apply wp_ret. split; try done; intros id. destruct (keys s !! id); simpl; [by rewrite released_nil|done]. }
  unfold ids_of in Hnd. rewrite fmap_cons, NoDup_cons in Hnd. destruct Hnd as [Hd Hnd].
  apply succeeds_bind. eapply succeeds_mono; [apply deleteGroup_ok, Hin; by left|]. intros ? s1 D1; simpl in D1.
  eapply succeeds_mono; [apply IH; [done|]|].
  { intros id Hid. rewrite (gd_groups _ _ _ D1). unfold ids_of. simpl.
    rewrite bool_decide_eq_false_2; [apply Hin; by right|]. intros E%list_elem_of_singleton. by rewrite E in Hid. }
  intros ? s2 D2; simpl in D2. split.
  - by rewrite (gd_envs _ _ _ D2), (gd_envs _ _ _ D1).
  - by rewrite (gd_presence _ _ _ D2), (gd_presence _ _ _ D1).
  - by rewrite (gd_minted _ _ _ D2), (gd_minted _ _ _ D1).
  - intros id. rewrite (gd_groups _ _ _ D2), (gd_groups _ _ _ D1). unfold ids_of. rewrite fmap_cons.
    repeat case_bool_decide; set_solver.
  - intros id. rewrite (gd_keys _ _ _ D2), (gd_keys _ _ _ D1). destruct (keys s !! id); simpl; [|done].
    unfold ids_of. simpl. by rewrite released_cons.
Qed.

Record envs_deleted (l : list Ref) s s' : Prop := {
  ed_groups : groups s' = groups s;
  ed_keys : keys s' = keys s;
  ed_minted : minted s' = minted s;
  ed_envs : ∀ id, envs s' !! id = if bool_decide (id ∈ ids_of l) then None else envs s !! id;
  ed_presence : ∀ row, row ∈ presence s' ↔ row ∈ presence s ∧ (pr_env row ∉ ids_of l);
}.

Definition deleteEnv (del : Ref) : M (Project A) DefError unit :=
  bind (deleteEnvironment (ent_id del)) (λ _, event "settings.environment_deleted" (ent_id del) [ent_name del]).

Lemma deleteEnv_ok del s :
  is_Some (envs s !! ent_id del) → succeeds (deleteEnv del) s (λ _ s', envs_deleted [del] s s').
Proof.
  intros [r Hr]. unfold deleteEnv, deleteEnvironment. apply succeeds_bind.
  apply succeeds_bind, succeeds_access; [done|]. intros a.
  apply succeeds_bind, succeeds_modify, succeeds_bind, succeeds_stmt. simpl.
  case_bool_decide; [done|]. do 2 apply succeeds_bind, succeeds_modify.
  apply succeeds_bind, succeeds_stmt. simpl. case_bool_decide; [done|].
  apply succeeds_bind, succeeds_access; [done|]. intros a'.
  apply succeeds_stmt. simpl. case_bool_decide; [done|]. rewrite bool_decide_eq_false_2 by (by rewrite Hr).
  unfold env_referenced. simpl. case_bool_decide; [done|].
  rewrite (not_referenced (λ v : string * string, v.2 = ent_id del)),
    (not_referenced (λ v : string * string, v.1 = ent_id del)), (not_referenced (λ v : string * string, v.1 = ent_id del)),
    (not_referenced (λ r, pr_env r = ent_id del)).
  rewrite bool_decide_eq_false_2 by set_solver. case_bool_decide; [done|].
  destruct (refs_env a' (ent_id del)); simpl; [done|].
  apply succeeds_event. intros s' (He & Hg & Hk & Hp & Hm). simpl in *. split; try done.
  - intros id. rewrite He. unfold ids_of. simpl. case_bool_decide as Hid.
    + apply list_elem_of_singleton in Hid as ->. apply lookup_delete_eq.
    + rewrite lookup_delete_ne; [done|]. set_solver.
  - intros row. rewrite Hp, elem_of_filter. unfold ids_of. simpl. set_solver.
Qed.

Lemma deleteEnvs_ok l : ∀ s, NoDup (ids_of l) → (∀ id, id ∈ ids_of l → is_Some (envs s !! id)) →
  succeeds (for_each l deleteEnv) s (λ _ s', envs_deleted l s s').
Proof.
  induction l as [|d l IH]; intros s Hnd Hin; simpl.
  { apply wp_ret. split; try done; intros row; rewrite ?bool_decide_eq_false_2 by apply not_elem_of_nil; try done.
    split; [|naive_solver]. intros ?. split; [done|apply not_elem_of_nil]. }
  unfold ids_of in Hnd. rewrite fmap_cons, NoDup_cons in Hnd. destruct Hnd as [Hd Hnd].
  apply succeeds_bind. eapply succeeds_mono; [apply deleteEnv_ok, Hin; by left|]. intros ? s1 D1; simpl in D1.
  eapply succeeds_mono; [apply IH; [done|]|].
  { intros id Hid. rewrite (ed_envs _ _ _ D1). unfold ids_of. simpl.
    rewrite bool_decide_eq_false_2; [apply Hin; by right|]. intros E%list_elem_of_singleton. by rewrite E in Hid. }
  intros ? s2 D2; simpl in D2. split.
  - by rewrite (ed_groups _ _ _ D2), (ed_groups _ _ _ D1).
  - by rewrite (ed_keys _ _ _ D2), (ed_keys _ _ _ D1).
  - by rewrite (ed_minted _ _ _ D2), (ed_minted _ _ _ D1).
  - intros id. rewrite (ed_envs _ _ _ D2), (ed_envs _ _ _ D1). unfold ids_of. rewrite fmap_cons.
    repeat case_bool_decide; set_solver.
  - intros row. rewrite (ed_presence _ _ _ D2), (ed_presence _ _ _ D1). unfold ids_of. rewrite fmap_cons.
    set_solver.
Qed.

(** ** Names in flight

    One kind's names while it is being renamed: [F] is where every identity
    ends, [P] the identities still parked, under names outside [U]. *)
Record in_flight (F : gmap string string) (P U : gset string) (N : gmap string string) : Prop := {
  fl_placed : ∀ id, id ∉ P → N !! id = F !! id;
  fl_parked : ∀ id, id ∈ P → ∃ t, N !! id = Some t ∧ (t ∉ U);
  fl_dom : ∀ id, id ∈ P → is_Some (F !! id);
  fl_inj : names_inj F;
  fl_used : ∀ id n, F !! id = Some n → n ∈ U;
}.

Lemma in_flight_landed F U N : in_flight F ∅ U N → N = F.
Proof. intros Hfl. apply map_eq. intros id. apply (fl_placed _ _ _ _ Hfl). set_solver. Qed.

(** A final name is free, whatever is parked. *)
Lemma in_flight_free F P U N id n :
  in_flight F P U N → F !! id = Some n → ∀ i, i ≠ id → N !! i ≠ Some n.
Proof.
  intros Hfl Hn i Hi Hin. destruct (decide (i ∈ P)) as [HP|HP].
  - destruct (fl_parked _ _ _ _ Hfl i HP) as (t & Ht & HU). simplify_eq. by apply HU, (fl_used _ _ _ _ Hfl id).
  - rewrite (fl_placed _ _ _ _ Hfl i HP) in Hin. apply Hi. by eapply (fl_inj _ _ _ _ Hfl).
Qed.

Lemma in_flight_land F P U N id n :
  in_flight F P U N → F !! id = Some n → in_flight F (P ∖ {[ id ]}) U (<[id := n]> N).
Proof.
  intros Hfl Hn. split; [| | |apply Hfl|apply Hfl].
  - intros i Hi. destruct (decide (i = id)) as [->|Hne]; [by rewrite lookup_insert_eq|].
    rewrite lookup_insert_ne by done. apply (fl_placed _ _ _ _ Hfl). set_solver.
  - intros i Hi. rewrite lookup_insert_ne by set_solver. apply (fl_parked _ _ _ _ Hfl). set_solver.
  - intros i Hi. apply (fl_dom _ _ _ _ Hfl). set_solver.
Qed.

Lemma in_flight_create F P U N id n :
  in_flight F P U N → N !! id = None → n ∈ U → (∀ i, F !! i ≠ Some n) →
  (∀ i, N !! i ≠ Some n) ∧ in_flight (<[id := n]> F) P U (<[id := n]> N).
Proof.
  intros Hfl Hid Hn HF.
  assert (id ∉ P) as HidP.
  { intros HP. destruct (fl_parked _ _ _ _ Hfl id HP) as (t & Ht & _). congruence. }
  split.
  - intros i Hi. destruct (decide (i ∈ P)) as [HP|HP].
    + destruct (fl_parked _ _ _ _ Hfl i HP) as (t & Ht & HU). congruence.
    + rewrite (fl_placed _ _ _ _ Hfl i HP) in Hi. by destruct (HF i).
  - split.
    + intros i Hi. destruct (decide (i = id)) as [->|Hne]; [by rewrite !lookup_insert_eq|].
      rewrite !lookup_insert_ne by done. by apply (fl_placed _ _ _ _ Hfl).
    + intros i Hi. rewrite lookup_insert_ne by congruence. by apply (fl_parked _ _ _ _ Hfl).
    + intros i Hi. rewrite lookup_insert_ne by congruence. by apply (fl_dom _ _ _ _ Hfl).
    + intros i j x Hi Hj. destruct (decide (i = id)) as [->|Hi'], (decide (j = id)) as [->|Hj']; [done|..].
      * rewrite lookup_insert_eq in Hi. rewrite lookup_insert_ne in Hj by done. simplify_eq. by destruct (HF j).
      * rewrite lookup_insert_eq in Hj. rewrite lookup_insert_ne in Hi by done. simplify_eq. by destruct (HF i).
      * rewrite lookup_insert_ne in Hi by done. rewrite lookup_insert_ne in Hj by done.
        by eapply (fl_inj _ _ _ _ Hfl).
    + intros i x Hi. destruct (decide (i = id)) as [->|Hi']; [rewrite lookup_insert_eq in Hi; by simplify_eq|].
      rewrite lookup_insert_ne in Hi by done. by eapply (fl_used _ _ _ _ Hfl).
Qed.

Lemma in_flight_None F P U N id : in_flight F P U N → N !! id = None → F !! id = None.
Proof.
  intros Hfl Hid. destruct (decide (id ∈ P)) as [HP|HP].
  - destruct (fl_parked _ _ _ _ Hfl id HP) as (? & ? & _). congruence.
  - by rewrite <-(fl_placed _ _ _ _ Hfl id HP).
Qed.

(** Names still to be created are in use as names and held by nothing. *)
Definition unclaimed (F : gmap string string) (U : gset string) (names : list string) : Prop :=
  ∀ n, n ∈ names → n ∈ U ∧ ∀ i, F !! i ≠ Some n.

Lemma unclaimed_step F U n names id :
  unclaimed F U (n :: names) → n ∉ names → unclaimed (<[id := n]> F) U names.
Proof.
  intros Hn Hnn x Hx. destruct (Hn x) as [HxU HxF]; [by right|]. split; [done|]. intros i Hi.
  destruct (decide (i = id)) as [->|Hne]; [rewrite lookup_insert_eq in Hi; by simplify_eq|].
  rewrite lookup_insert_ne in Hi by done. by destruct (HxF i).
Qed.

(** The name index the code keeps: right for every identity that has landed. *)
Definition index_ok (F : gmap string string) (P : gset string) (ids : gmap string string) : Prop :=
  ∀ id n, F !! id = Some n → id ∉ P → ids !! n = Some id.

Lemma taken_false {R} (name_of : R → string) (t : gmap string R) id n :
  taken name_of t id n = false ↔ ∀ i, i ≠ id → (name_of <$> t) !! i ≠ Some n.
Proof.
  unfold taken. rewrite bool_decide_eq_false. split.
  - intros Hn i Hi Hin. apply Hn. rewrite lookup_fmap, fmap_Some in Hin. destruct Hin as (r & Hr & ->).
    by exists i, r.
  - intros Hn (i & r & Hr & Hi & Hname). apply (Hn i Hi). rewrite lookup_fmap, Hr. simpl. by f_equal.
Qed.

Lemma temp_Some used c : ∃ t used' c', temp used c = Some (t, used', c') ∧ (t ∉ used) ∧ used' = {[ t ]} ∪ used.
Proof.
  unfold temp. destruct (search_total (λ i, bool_decide (tempName i ∉ used)) (elements used)
    (λ i x, x = tempName i) c) as [i Hi].
  - intros j Hj. apply bool_decide_eq_false in Hj. apply dec_stable in Hj. exists (tempName j). by rewrite elem_of_elements.
  - intros j k x -> E. unfold tempName in E. apply (inj (String.append _)) in E. by apply (inj pretty) in E.
  - change (length (elements used)) with (size used) in Hi. rewrite Hi. simpl.
    eexists _, _, _. split; [done|]. split; [|done]. apply search_Some in Hi as [Hi _].
    by apply bool_decide_eq_true in Hi.
Qed.

Section kind.
(** One kind: how it is renamed, its names, and what a rename leaves alone. *)
Context (rename : string → string → M (Project A) DefError unit).
Context (names : Project A → gmap string string).
Context (frame : Project A → Project A → Prop).
Context (frame_trans : ∀ s1 s2 s3, frame s1 s2 → frame s2 s3 → frame s1 s3).
Context (frame_same : ∀ s s', same s s' → names s' = names s ∧ frame s s').
Context (rename_ok : ∀ s id n, is_Some (names s !! id) → (∀ i, i ≠ id → names s !! i ≠ Some n) →
  succeeds (rename id n) s (λ _ s', names s' = <[id := n]> (names s) ∧ frame s s')).

Lemma park_ok ids : ∀ used c s, NoDup ids → (∀ id, id ∈ ids → is_Some (names s !! id)) →
  (∀ id n, names s !! id = Some n → n ∈ used) →
  succeeds (park rename ids used c) s (λ uc s',
    (∀ id, id ∉ ids → names s' !! id = names s !! id)
    ∧ (∀ id, id ∈ ids → ∃ t, names s' !! id = Some t ∧ (t ∉ used))
    ∧ used ⊆ uc.1 ∧ frame s s').
Proof.
  induction ids as [|id ids IH]; intros used c s Hnd Hin Hused; simpl.
  { apply wp_ret. split_and!; [done|by intros ? ?%elem_of_nil|done|]. by apply frame_same. }
  apply NoDup_cons in Hnd as [Hid Hnd]. destruct (temp_Some used c) as (t & used' & c' & -> & Ht & ->).
  apply succeeds_bind. eapply succeeds_mono; [apply rename_ok|].
  { apply Hin. by left. }
  { intros i _ Hi. by apply Ht, (Hused i). }
  intros ? s1 [Hn1 Hf1]. eapply succeeds_mono; [apply IH; [done| |]|].
  { intros i Hi. rewrite Hn1, lookup_insert_ne by (by intros ->). apply Hin. by right. }
  { intros i n. rewrite Hn1. destruct (decide (i = id)) as [->|Hi].
    - rewrite lookup_insert_eq. set_solver.
    - rewrite lookup_insert_ne by done. intros ?%Hused. set_solver. }
  intros uc s2 (Q1 & Q2 & Q3 & Q4). split_and!.
  - intros i Hi. rewrite Q1, Hn1, lookup_insert_ne; set_solver.
  - intros i [->|Hi]%elem_of_cons.
    + exists t. rewrite Q1, Hn1, lookup_insert_eq by done. done.
    + destruct (Q2 i Hi) as (t' & Ht' & Hu'). exists t'. split; [done|set_solver].
  - set_solver.
  - by eapply frame_trans.
Qed.

Lemma finishTopology_ok ev F U rs : ∀ ids s,
  in_flight F (list_to_set (rn_id <$> rs)) U (names s) → NoDup (rn_id <$> rs) →
  (∀ r, r ∈ rs → F !! rn_id r = Some (rn_to r)) → index_ok F (list_to_set (rn_id <$> rs)) ids →
  succeeds (finishTopology rename ev rs ids) s (λ ids' s', names s' = F ∧ index_ok F ∅ ids' ∧ frame s s').
Proof.
  induction rs as [|r rs IH]; intros ids s Hfl Hnd HF Hidx; simpl.
  { apply wp_ret. split_and!; [by eapply in_flight_landed|done|]. by apply frame_same. }
  rewrite fmap_cons, NoDup_cons in Hnd. destruct Hnd as [Hr Hnd].
  rewrite fmap_cons in Hfl, Hidx. simpl in Hfl, Hidx.
  pose proof (HF r (list_elem_of_here _ _)) as HFr.
  apply succeeds_bind. eapply succeeds_mono; [apply rename_ok|].
  { destruct (fl_parked _ _ _ _ Hfl (rn_id r)) as (t & Ht & _); [set_solver|]. by eexists. }
  { by apply (in_flight_free _ _ _ _ _ _ Hfl). }
  intros ? s1 [Hn1 Hf1]. apply succeeds_bind, succeeds_event. intros s2 Hs2.
  destruct (frame_same _ _ Hs2) as [Hn2 Hf2].
  assert ((({[ rn_id r ]} ∪ list_to_set (rn_id <$> rs)) ∖ {[ rn_id r ]} : gset string)
    = list_to_set (rn_id <$> rs)) as Hset by set_solver.
  eapply succeeds_mono; [apply IH|].
  - rewrite Hn2, Hn1, <-Hset. by apply in_flight_land.
  - done.
  - intros r' Hr'. apply HF. by right.
  - intros id n Hn Hid. destruct (decide (n = rn_to r)) as [->|Hne].
    + rewrite lookup_insert_eq. f_equal. by eapply (fl_inj _ _ _ _ Hfl).
    + rewrite lookup_insert_ne by done. apply Hidx; [done|]. intros Hin. apply Hne.
      apply elem_of_union in Hin as [->%elem_of_singleton|?]; [congruence|done].
  - intros ids' s3 (Q1 & Q2 & Q3). split_and!; [done|done|]. eauto.
Qed.
End kind.

(** ** The three kinds *)

Definition env_names s : gmap string string := er_name <$> envs s.
Definition key_names s : gmap string string := kr_name <$> keys s.

(** An environment row without its name: its place and its protection. *)
Definition env_mark (r : EnvRow) : Z * bool := (er_order r, er_protected r).
Definition env_marks s : gmap string (Z * bool) := env_mark <$> envs s.

Lemma env_marks_dom s s' : env_marks s' = env_marks s → dom (envs s') = dom (envs s).
Proof. unfold env_marks. intros E. by rewrite <-(dom_fmap_L env_mark (envs s')), E, dom_fmap_L. Qed.

Definition env_frame s s' : Prop :=
  groups s' = groups s ∧ keys s' = keys s ∧ presence s' = presence s
  ∧ env_marks s' = env_marks s ∧ minted s' = minted s.

Lemma renameEnv_ok s id n :
  is_Some (env_names s !! id) → (∀ i, i ≠ id → env_names s !! i ≠ Some n) →
  succeeds (renameEnv id n) s (λ _ s', env_names s' = <[id := n]> (env_names s) ∧ env_frame s s').
Proof.
  intros [n0 Hid] Hn. unfold renameEnv. apply succeeds_bind, succeeds_access; [done|]. intros a.
  unfold env_names in *. rewrite lookup_fmap, fmap_Some in Hid. destruct Hid as (r & Hr & ->).
  apply succeeds_stmt. simpl. unfold rename_check. rewrite bool_decide_eq_false_2 by (by rewrite Hr).
  rewrite (proj2 (taken_false er_name (envs s) id n) Hn). simpl. split.
  - apply map_eq. intros i. rewrite lookup_fmap. destruct (decide (i = id)) as [->|Hi].
    + by rewrite lookup_alter_eq, Hr, lookup_insert_eq.
    + by rewrite lookup_alter_ne, lookup_insert_ne, lookup_fmap by done.
  - split_and!; try done. apply map_eq. intros i. unfold env_marks. simpl. rewrite !lookup_fmap.
    destruct (decide (i = id)) as [->|Hi]; [by rewrite lookup_alter_eq, Hr|by rewrite lookup_alter_ne].
Qed.

Definition group_frame s s' : Prop :=
  envs s' = envs s ∧ keys s' = keys s ∧ presence s' = presence s
  ∧ dom (groups s') = dom (groups s) ∧ minted s' = minted s.

Lemma renameGroup_ok s id n :
  is_Some (groups s !! id) → (∀ i, i ≠ id → groups s !! i ≠ Some n) →
  succeeds (Catalogue_RenameGroup id n) s (λ _ s', groups s' = <[id := n]> (groups s) ∧ group_frame s s').
Proof.
  intros [n0 Hid] Hn. apply succeeds_stmt. unfold rename_check. rewrite bool_decide_eq_false_2 by (by rewrite Hid).
  rewrite (proj2 (taken_false (λ n, n) (groups s) id n)) by (by rewrite fmap_id_map). simpl.
  split; [done|]. split_and!; try done. simpl. rewrite dom_insert_L.
  apply elem_of_dom_2 in Hid. set_solver.
Qed.

(** A key row without its name. *)
Definition anon (r : KeyRow) : KeyRow :=
  mkKeyRow "" (kr_folder r) (kr_class r) (kr_desc r) (kr_deprecated r) (kr_note r) (kr_decl r)
    (kr_required r) (kr_forbidden r) (kr_group r).

Definition key_frame s s' : Prop :=
  envs s' = envs s ∧ groups s' = groups s ∧ presence s' = presence s
  ∧ anon <$> keys s' = anon <$> keys s ∧ minted s' = minted s.

Lemma renameKey_ok s id n :
  is_Some (key_names s !! id) → (∀ i, i ≠ id → key_names s !! i ≠ Some n) →
  succeeds (Catalogue_Rename id n) s (λ _ s', key_names s' = <[id := n]> (key_names s) ∧ key_frame s s').
Proof.
  intros [n0 Hid] Hn. unfold key_names in *. rewrite lookup_fmap, fmap_Some in Hid. destruct Hid as (r & Hr & ->).
  apply succeeds_stmt. simpl. rewrite bool_decide_eq_false_2 by (by rewrite Hr).
  rewrite (proj2 (taken_false kr_name (keys s) id n) Hn). simpl. split.
  - apply map_eq. intros i. rewrite lookup_fmap. destruct (decide (i = id)) as [->|Hi].
    + by rewrite lookup_alter_eq, Hr, lookup_insert_eq.
    + by rewrite lookup_alter_ne, lookup_insert_ne, lookup_fmap by done.
  - split_and!; try done. simpl. apply map_eq. intros i. rewrite !lookup_fmap.
    destruct (decide (i = id)) as [->|Hi]; [by rewrite lookup_alter_eq, Hr|by rewrite lookup_alter_ne].
Qed.

Lemma env_frame_trans s1 s2 s3 : env_frame s1 s2 → env_frame s2 s3 → env_frame s1 s3.
Proof. unfold env_frame. intuition congruence. Qed.
Lemma group_frame_trans s1 s2 s3 : group_frame s1 s2 → group_frame s2 s3 → group_frame s1 s3.
Proof. unfold group_frame. intuition congruence. Qed.
Lemma key_frame_trans s1 s2 s3 : key_frame s1 s2 → key_frame s2 s3 → key_frame s1 s3.
Proof. unfold key_frame. intuition congruence. Qed.
Lemma env_frame_same s s' : same s s' → env_names s' = env_names s ∧ env_frame s s'.
Proof. intros (He & Hg & Hk & Hp & Hm). unfold env_names, env_frame, env_marks. rewrite He. done. Qed.
Lemma group_frame_same s s' : same s s' → groups s' = groups s ∧ group_frame s s'.
Proof. intros (He & Hg & Hk & Hp & Hm). unfold group_frame. rewrite Hg. done. Qed.
Lemma key_frame_same s s' : same s s' → key_names s' = key_names s ∧ key_frame s s'.
Proof. intros (He & Hg & Hk & Hp & Hm). unfold key_names, key_frame. rewrite Hk. done. Qed.

Lemma anon_dom s s' : anon <$> keys s' = anon <$> keys s → dom (keys s') = dom (keys s).
Proof. intros E. by rewrite <-(dom_fmap_L anon (keys s')), E, dom_fmap_L. Qed.

(** ** Creates *)

Context (newid_inj : ∀ p p' n n' id, newid p n = Some id → newid p' n' = Some id → n = n').

Lemma newID_ok p s Q :
  fresh s → (∀ id, id_ok id → id ∉ in_use s →
    (∀ s', minted s' = S (minted s) → in_use s' ⊆ {[ id ]} ∪ in_use s → fresh s') →
    Q id (set_minted s (S (minted s)))) →
  succeeds (newID newid p) s Q.
Proof.
  intros Hf HQ. unfold succeeds, wp, newID. destruct (newid p (minted s)) as [id|] eqn:E; [|done].
  destruct (Hf p (minted s) id) as [Hok Hu]; [done|done|]. apply HQ; [done|done|].
  intros s' Hm Hu' p' n id' Hn Hid'. destruct (Hf p' n id') as [? Hu2]; [lia|done|]. split; [done|].
  assert (id' ≠ id); [|set_solver]. intros ->. pose proof (newid_inj _ _ _ _ _ E Hid'). lia.
Qed.

(** What creating [names] leaves of a kind's table. *)
Record created (F F' : gmap string string) (P U : gset string) (names : list string)
    (N' ids' : gmap string string) : Prop := {
  cr_flight : in_flight F' P U N';
  cr_old : F ⊆ F';
  cr_new : ∀ n, n ∈ names → ∃ id, F' !! id = Some n;
  cr_only : ∀ id n, F' !! id = Some n → F !! id = Some n ∨ (n ∈ names ∧ id_ok id);
  cr_index : index_ok F' P ids';
}.

Lemma created_cons F id n names P U N' ids' F' :
  F !! id = None → id_ok id → (∀ i, F !! i ≠ Some n) →
  created (<[id := n]> F) F' P U names N' ids' → created F F' P U (n :: names) N' ids'.
Proof.
  intros Hid Hok HF [C1 C2 C3 C4 C5]. split; [done| | | |done].
  - etrans; [|exact C2]. by apply insert_subseteq.
  - intros n' [->|Hn']%elem_of_cons; [|by apply C3]. exists id. eapply lookup_weaken; [|exact C2].
    by rewrite lookup_insert_eq.
  - intros i n' [Hi|[Hn' ?]]%C4.
    + destruct (decide (i = id)) as [->|Hne].
      * rewrite lookup_insert_eq in Hi. simplify_eq. right. split; [by left|done].
      * rewrite lookup_insert_ne in Hi by done. by left.
    + right. split; [by right|done].
Qed.

Lemma index_ok_create F P ids id n :
  index_ok F P ids → (∀ i, F !! i ≠ Some n) → index_ok (<[id := n]> F) P (<[n := id]> ids).
Proof.
  intros Hidx HF i x Hi HP. destruct (decide (i = id)) as [->|Hne].
  - rewrite lookup_insert_eq in Hi. simplify_eq. by rewrite lookup_insert_eq.
  - rewrite lookup_insert_ne in Hi by done. rewrite lookup_insert_ne; [by apply Hidx|].
    intros ->. by destruct (HF i).
Qed.

Lemma created_nil F P U N ids : in_flight F P U N → index_ok F P ids → created F F P U [] N ids.
Proof.
  intros. split; [done|done|by intros ? ?%elem_of_nil|by left|done].
Qed.

Definition env_create_frame s s' : Prop :=
  groups s' = groups s ∧ keys s' = keys s ∧ presence s' = presence s ∧ (fresh s → fresh s') ∧ envs s ⊆ envs s'.

Lemma createEnvs_ok names P U : ∀ ids s F,
  in_flight F P U (env_names s) → index_ok F P ids → NoDup names →
  unclaimed F U names → fresh s →
  succeeds (createEnvs newid names ids) s (λ ids' s',
    ∃ F', created F F' P U names (env_names s') ids' ∧ env_create_frame s s').
Proof.
  induction names as [|n names IH]; intros ids s F Hfl Hidx Hnd Hn Hf; simpl.
  { apply wp_ret. exists F. split; [by apply created_nil|done]. }
  apply NoDup_cons in Hnd as [Hnn Hnd]. destruct (Hn n) as [HnU HnF]; [by left|].
  apply succeeds_bind, newID_ok; [done|]. intros id Hok Hu Hfresh. unfold in_use in Hu.
  assert (envs s !! id = None) as Hid by (apply not_elem_of_dom; set_solver).
  assert (env_names s !! id = None) as Hid' by (unfold env_names; by rewrite lookup_fmap, Hid).
  apply succeeds_bind, wp_gets, succeeds_bind, succeeds_stmt. simpl. unfold insert_check.
  rewrite bool_decide_eq_false_2 by (rewrite Hid; by intros [? ?]).
  destruct (in_flight_create _ _ _ _ _ _ Hfl Hid' HnU HnF) as [Hfree Hfl'].
  rewrite (proj2 (taken_false er_name (envs s) id n)) by (intros; apply Hfree). simpl.
  apply succeeds_bind, succeeds_event. intros s2 (E1 & E2 & E3 & E4 & E5). simpl in *.
  assert (fresh s2) as Hf2.
  { apply Hfresh; [done|]. unfold in_use. rewrite E1, E2, E3, dom_insert_L. set_solver. }
  eapply succeeds_mono; [apply (IH _ _ (<[id := n]> F))|].
  - unfold env_names. rewrite E1, fmap_insert. exact Hfl'.
  - by apply index_ok_create.
  - done.
  - by apply (unclaimed_step F U n names).
  - done.
  - intros ids' s3 (F' & HC & R1 & R2 & R3 & R4 & R5). exists F'.
    split; [eapply created_cons; [by eapply in_flight_None|done..]|].
    split_and!; [congruence|congruence|congruence|auto|]. rewrite E1 in R5. etrans; [|exact R5]. by apply insert_subseteq.
Qed.

Definition group_create_frame s s' : Prop :=
  envs s' = envs s ∧ keys s' = keys s ∧ presence s' = presence s ∧ (fresh s → fresh s').

Lemma createGroups_ok names P U : ∀ ids s F,
  in_flight F P U (groups s) → index_ok F P ids → NoDup names →
  unclaimed F U names → fresh s →
  succeeds (createGroups newid names ids) s (λ ids' s',
    ∃ F', created F F' P U names (groups s') ids' ∧ group_create_frame s s').
Proof.
  induction names as [|n names IH]; intros ids s F Hfl Hidx Hnd Hn Hf; simpl.
  { apply wp_ret. exists F. split; [by apply created_nil|done]. }
  apply NoDup_cons in Hnd as [Hnn Hnd]. destruct (Hn n) as [HnU HnF]; [by left|].
  apply succeeds_bind, newID_ok; [done|]. intros id Hok Hu Hfresh. unfold in_use in Hu.
  assert (groups s !! id = None) as Hid by (apply not_elem_of_dom; set_solver).
  apply succeeds_bind, succeeds_stmt. simpl. unfold insert_check.
  rewrite bool_decide_eq_false_2 by (rewrite Hid; by intros [? ?]).
  destruct (in_flight_create _ _ _ _ _ _ Hfl Hid HnU HnF) as [Hfree Hfl'].
  rewrite (proj2 (taken_false (λ n, n) (groups s) id n)) by (intros; rewrite fmap_id_map; apply Hfree). simpl.
  apply succeeds_bind, succeeds_event. intros s2 (E1 & E2 & E3 & E4 & E5). simpl in *.
  assert (fresh s2) as Hf2.
  { apply Hfresh; [done|]. unfold in_use. rewrite E1, E2, E3, dom_insert_L. set_solver. }
  eapply succeeds_mono; [apply (IH _ _ (<[id := n]> F))|].
  - rewrite E2. exact Hfl'.
  - by apply index_ok_create.
  - done.
  - by apply (unclaimed_step F U n names).
  - done.
  - intros ids' s3 (F' & HC & R1 & R2 & R3 & R4). exists F'.
    split; [eapply created_cons; [by eapply in_flight_None|done..]|].
    split_and!; [congruence|congruence|congruence|auto].
Qed.
End exec.
