(* ===== verification/DefinitionsKeys.v ===== *)
(** * Executing a resolution: key creates and updates

    With the final topology in place, the last two phases of
    [executeResolution] write the key rows. A created or updated row is shown to
    carry exactly the attributes of its bundle entry, whichever of its parts the
    update had to touch. *)

From stdpp Require Import prelude gmap strings pretty list.
From S2P Require Import Prelude StateErr Presence Definitions DefinitionsMatch Catalogue DefinitionsApply.
From S2P Require Import DefinitionsState DefinitionsRealize DefinitionsExec.

Section key_rows.
Context `{SchemaLang, !SchemaLaws} {A : Type} `{AccessAdmin A} `{Blame}.
Context (newid : string → nat → option string).
Context (newid_inj : ∀ p p' n n' id, newid p n = Some id → newid p' n' = Some id → n = n').
Implicit Types s : Project A.

(** ** A key's presence rows *)

(** The rows of [id] are those of the rules [p]. *)
Definition stores s (id : string) (p : PresenceRules) : Prop :=
  (Mode (Required p) = PresenceExplicit → ∀ e,
     mkKeyPresence id e PresenceRuleRequired ∈ presence s ↔ e ∈ Environments (Required p))
  ∧ (Mode (Forbidden p) = PresenceExplicit → ∀ e,
     mkKeyPresence id e PresenceRuleForbidden ∈ presence s ↔ e ∈ Environments (Forbidden p)).

(** Two rules that bind the same environments. *)
Definition same_rule (p q : Presence) : Prop :=
  Mode p = Mode q ∧ NoDup (Environments p) ∧ NoDup (Environments q)
  ∧ ∀ e, e ∈ Environments p ↔ e ∈ Environments q.

Lemma same_rule_shaped p q : same_rule p q → shaped p → shaped q.
Proof.
  intros (Hm & _ & Hn & He). unfold shaped. rewrite Hm. intros [[? E]|(? & Hne & _ & Hz)].
  - left. split; [done|]. rewrite E in He. destruct (Environments q) as [|x l]; [done|].
    exfalso. apply (not_elem_of_nil x), He. by left.
  - right. split_and!; [done| |done|by rewrite <-He].
    intros E. rewrite E in He. destruct (Environments p) as [|x l]; [done|].
    exfalso. apply (not_elem_of_nil x), He. by left.
Qed.

Lemma same_rule_covers p q e : same_rule p q → Covers p e = true ↔ Covers q e = true.
Proof. intros (Hm & _ & _ & He). by rewrite !Covers_true, Hm, He. Qed.

Lemma CheckPresence_same r f r' f' :
  same_rule r r' → same_rule f f' → CheckPresence r f = Ok tt → CheckPresence r' f' = Ok tt.
Proof.
  intros Hr Hf. rewrite !CheckPresence_ok. intros (S1 & S2 & Hn).
  split; [by eapply same_rule_shaped|]. split; [by eapply same_rule_shaped|].
  intros e [C1 C2]. apply (Hn e). by rewrite (same_rule_covers _ _ _ Hr), (same_rule_covers _ _ _ Hf).
Qed.

Lemma shaped_nodup p : shaped p → NoDup (Environments p).
Proof. intros [[_ ->]|(_ & _ & ? & _)]; [constructor|done]. Qed.

Lemma explicit_envs_same s id rule p :
  shaped p → (Mode p = PresenceExplicit → ∀ e, mkKeyPresence id e rule ∈ presence s ↔ e ∈ Environments p) →
  same_rule p (mkPresence (Mode p) (explicit_envs (Mode p) (presence_envs s id rule))).
Proof.
  intros Hsh Hrows. split_and!; simpl; [done|by apply shaped_nodup| |].
  - unfold explicit_envs. case_bool_decide; [apply presence_envs_nodup|constructor].
  - intros e. unfold explicit_envs. case_bool_decide as Hm.
    + by rewrite presence_envs_elem, Hrows.
    + destruct Hsh as [[_ ->]|[? _]]; done.
Qed.

(** A stored row whose modes are the rules' modes reads back as the rules. *)
Lemma stores_rules s id r p :
  shaped (Required p) → shaped (Forbidden p) → stores s id p →
  kr_required r = Mode (Required p) → kr_forbidden r = Mode (Forbidden p) →
  same_rule (Required p) (Required (key_rules s id r)) ∧ same_rule (Forbidden p) (Forbidden (key_rules s id r)).
Proof.
  intros S1 S2 [R1 R2] E1 E2. unfold key_rules. simpl. rewrite E1, E2.
  split; by apply explicit_envs_same.
Qed.

Lemma rule_names_same s p q : same_rule p q → rule_names s p = rule_names s q.
Proof.
  intros (Hm & _ & _ & He). unfold rule_names. rewrite Hm. f_equal. apply set_eq. intros n.
  rewrite !elem_of_list_to_set, !list_elem_of_omap. by setoid_rewrite He.
Qed.

(** ** Writing presence rows *)

Lemma insertPresences_ok key rows : ∀ s,
  NoDup ((λ r, (pr_env r, pr_rule r)) <$> rows) → is_Some (keys s !! key) →
  (∀ r, r ∈ rows → is_Some (envs s !! pr_env r)) →
  (∀ r, r ∈ rows → mkKeyPresence key (pr_env r) (pr_rule r) ∉ presence s) →
  succeeds (for_each rows (λ r, InsertKeyPresence (mkKeyPresence key (pr_env r) (pr_rule r)))) s (λ _ s',
    envs s' = envs s ∧ groups s' = groups s ∧ keys s' = keys s ∧ minted s' = minted s
    ∧ ∀ row, row ∈ presence s' ↔
        row ∈ presence s ∨ (pr_key row = key ∧ ∃ r, r ∈ rows ∧ pr_env r = pr_env row ∧ pr_rule r = pr_rule row)).
Proof.
  induction rows as [|r rows IH]; intros s Hnd Hk He Hp; simpl.
  { apply wp_ret. split_and!; [done..|]. setoid_rewrite elem_of_nil. naive_solver. }
  rewrite fmap_cons, NoDup_cons in Hnd. destruct Hnd as [Hr Hnd].
  apply succeeds_bind, succeeds_stmt. simpl. rewrite bool_decide_eq_false_2 by (apply Hp; by left).
  rewrite bool_decide_eq_false_2 by (destruct Hk as [? ->]; done).
  rewrite bool_decide_eq_false_2 by (destruct (He r) as [? ->]; [by left|done]).
  eapply succeeds_mono; [apply IH; [done|done|intros r' Hr'; apply He; by right|]|].
  - intros r' Hr'. simpl. rewrite elem_of_union, elem_of_singleton. intros [[= E1 E2]|Hin].
    + apply Hr. rewrite list_elem_of_fmap. exists r'. by rewrite E1, E2.
    + apply (Hp r'); [by right|done].
  - intros ? s' (E1 & E2 & E3 & E4 & E5). split_and!; try done. intros row. rewrite E5. simpl.
    rewrite elem_of_union, elem_of_singleton. split.
    + intros [[->|?]|(E & r' & Hr' & ?)]; [right; simpl; split; [done|]; exists r; set_solver|by left|].
      right. split; [done|]. exists r'. split; [by right|done].
    + intros [?|(E & r' & [->|Hr']%elem_of_cons & Ee & Er)]; [by left; right| |].
      * left. left. destruct row; simpl in *. congruence.
      * right. split; [done|]. eauto.
Qed.

(** No presence row dangles. *)
Definition closed s : Prop :=
  ∀ row, row ∈ presence s → is_Some (keys s !! pr_key row) ∧ is_Some (envs s !! pr_env row).

(** [id] alone is written. *)
Record touched (id : string) s s' : Prop := {
  to_envs : envs s' = envs s;
  to_groups : groups s' = groups s;
  to_fresh : fresh newid s → fresh newid s';
  to_closed : closed s → closed s';
  to_keys : ∀ i, i ≠ id → keys s' !! i = keys s !! i;
  to_presence : ∀ row, pr_key row ≠ id → row ∈ presence s' ↔ row ∈ presence s;
}.

Lemma touched_trans id s1 s2 s3 : touched id s1 s2 → touched id s2 s3 → touched id s1 s3.
Proof.
  intros T1 T2. split.
  - by rewrite (to_envs _ _ _ T2), (to_envs _ _ _ T1).
  - by rewrite (to_groups _ _ _ T2), (to_groups _ _ _ T1).
  - intros Hf. by apply (to_fresh _ _ _ T2), (to_fresh _ _ _ T1).
  - intros Hf. by apply (to_closed _ _ _ T2), (to_closed _ _ _ T1).
  - intros i Hi. by rewrite (to_keys _ _ _ T2), (to_keys _ _ _ T1).
  - intros row Hr. by rewrite (to_presence _ _ _ T2), (to_presence _ _ _ T1).
Qed.

Lemma same_touched id s s' : same s s' → touched id s s'.
Proof.
  intros (E1 & E2 & E3 & E4 & E5). split; [done|done| | |intros; by rewrite E3|intros; by rewrite E4].
  - apply fresh_mono; [unfold in_use; by rewrite E1, E2, E3|by rewrite E5].
  - unfold closed. by rewrite E1, E3, E4.
Qed.

Lemma explicit_rows_elem p rule e ru :
  (∃ r, r ∈ explicit_rows p rule ∧ pr_env r = e ∧ pr_rule r = ru) ↔
  ru = rule ∧ Mode p = PresenceExplicit ∧ e ∈ Environments p.
Proof.
  unfold explicit_rows. case_bool_decide as Hm.
  - setoid_rewrite list_elem_of_fmap. split.
    + intros (r & (e' & -> & He) & <- & <-). done.
    + intros (-> & _ & He). exists (mkKeyPresence "" e rule). eauto.
  - setoid_rewrite elem_of_nil. naive_solver.
Qed.

Lemma presenceRows_nodup p :
  shaped (Required p) → shaped (Forbidden p) →
  NoDup ((λ r, (pr_env r, pr_rule r)) <$> presenceRows p).
Proof.
  intros S1 S2. unfold presenceRows. rewrite fmap_app.
  assert (∀ q rule, shaped q → NoDup ((λ r, (pr_env r, pr_rule r)) <$> explicit_rows q rule)) as Hq.
  { intros q rule Hs. unfold explicit_rows. case_bool_decide; [|constructor]. rewrite <-list_fmap_compose.
    apply NoDup_fmap_on; [by apply shaped_nodup|]. intros x y _ _; simpl. by intros [= ->]. }
  apply NoDup_app. split_and!; [by apply Hq| |by apply Hq].
  assert (∀ q rule x, x ∈ (λ r, (pr_env r, pr_rule r)) <$> explicit_rows q rule → x.2 = rule) as Hx.
  { intros q rule x (r & -> & Hr)%list_elem_of_fmap. simpl.
    by destruct (proj1 (explicit_rows_elem q rule (pr_env r) (pr_rule r))) as (-> & _); [eauto|]. }
  intros x Hx1 Hx2. apply Hx in Hx1, Hx2. rewrite Hx1 in Hx2. done.
Qed.

(** The whole replacement: the rows of [id] become those of [p]. *)
Lemma replacePresence_ok id p s :
  shaped (Required p) → shaped (Forbidden p) → is_Some (keys s !! id) →
  (∀ e, e ∈ Environments (Required p) ∨ e ∈ Environments (Forbidden p) → is_Some (envs s !! e)) →
  succeeds (Catalogue_ReplacePresence id (presenceRowsFor id p)) s (λ _ s',
    touched id s s' ∧ keys s' = keys s ∧ stores s' id p).
Proof.
  intros S1 S2 Hk He. unfold Catalogue_ReplacePresence. apply succeeds_bind, succeeds_modify.
  assert (∀ r, r ∈ presenceRowsFor id p →
    ∃ r', r' ∈ presenceRows p ∧ pr_env r' = pr_env r ∧ pr_rule r' = pr_rule r) as Hrow.
  { intros r (r' & -> & Hr')%list_elem_of_fmap. by exists r'. }
  assert (∀ e ru, (∃ r, r ∈ presenceRowsFor id p ∧ pr_env r = e ∧ pr_rule r = ru) ↔
    (ru = PresenceRuleRequired ∧ Mode (Required p) = PresenceExplicit ∧ e ∈ Environments (Required p))
    ∨ (ru = PresenceRuleForbidden ∧ Mode (Forbidden p) = PresenceExplicit ∧ e ∈ Environments (Forbidden p))) as Hel.
  { intros e ru. rewrite <-!explicit_rows_elem. unfold presenceRowsFor, presenceRows.
    setoid_rewrite list_elem_of_fmap. setoid_rewrite elem_of_app. split.
    - intros (r & (r' & -> & [Hr'|Hr']) & <- & <-); [left|right]; by exists r'.
    - intros [(r & Hr & <- & <-)|(r & Hr & <- & <-)];
        exists (mkKeyPresence id (pr_env r) (pr_rule r)); split; eauto. }
  eapply succeeds_mono; [apply insertPresences_ok|].
  - unfold presenceRowsFor. rewrite <-list_fmap_compose. by apply presenceRows_nodup.
  - done.
  - intros r Hr. simpl. apply He.
    destruct (proj1 (Hel (pr_env r) (pr_rule r))) as [(_ & _ & ?)|(_ & _ & ?)]; eauto.
  - intros r _. simpl. rewrite elem_of_filter. by intros [? _].
  - intros ? s' (E1 & E2 & E3 & E4 & E5). simpl in *. split_and!; [|done|].
    + split; [done|done| | |intros; by rewrite E3|intros row Hr; rewrite E5, elem_of_filter; naive_solver].
      * apply fresh_mono; [unfold in_use; simpl; by rewrite E1, E2, E3|simpl; by rewrite E4].
      * intros Hcl row. rewrite E5, E3, E1, elem_of_filter. intros [[_ Hin]|[-> Hrow']]; [by apply Hcl|].
        split; [done|]. apply Hel in Hrow' as [(_ & _ & ?)|(_ & _ & ?)]; auto.
    + split; intros Hmode e; rewrite E5, elem_of_filter; simpl; rewrite Hel; naive_solver.
Qed.

(** ** Rules by id *)

(** The index gives every listed name the live environment of that name. *)
Definition indexes s (ids : gmap string string) (names : list string) : Prop :=
  ∀ n, n ∈ names → ∃ e, ids !! n = Some e ∧ env_names s !! e = Some n ∧ e ≠ "".

Lemma resolveRule_ok s ids p :
  shaped p → indexes s ids (Environments p) →
  ∃ q, resolvePresenceRule p ids = Some q ∧ Mode q = Mode p ∧ shaped q
    ∧ (∀ e, e ∈ Environments q → is_Some (envs s !! e))
    ∧ rule_names s q = (Mode p, list_to_set (Environments p)).
Proof.
  intros Hsh Hidx. unfold resolvePresenceRule.
  destruct (mapM (λ name, ids !! name) (Environments p)) as [es|] eqn:E; last first.
  { exfalso. apply mapM_None, Exists_exists in E as (n & Hn & Hno).
    destruct (Hidx n Hn) as (e & He & _). congruence. }
  assert (∀ e, e ∈ es ↔ ∃ n, n ∈ Environments p ∧ ids !! n = Some e) as Hes by (intros; by apply mapM_elem).
  assert (∀ e, e ∈ es → ∃ n, n ∈ Environments p ∧ env_names s !! e = Some n ∧ e ≠ "") as Hes'.
  { intros e He. apply Hes in He as (n & Hn & Hid). destruct (Hidx n Hn) as (e' & ? & ? & ?).
    simplify_eq. eauto. }
  simpl. eexists. split; [done|]. simpl. split; [done|]. split_and!.
  - destruct Hsh as [[Hm Hnil]|(Hm & Hne & Hnd & _)].
    + left. simpl. split; [exact Hm|]. rewrite Hnil in E. by injection E as <-.
    + right. simpl. apply mapM_Some in E. split_and!; [exact Hm| | |].
      * intros ->. by apply Forall2_nil_inv_r in E.
      * apply NoDup_alt. intros i j e Hi Hj.
        destruct (Forall2_lookup_r _ _ _ _ _ E Hi) as (n & Hn & En), (Forall2_lookup_r _ _ _ _ _ E Hj) as (n' & Hn' & En').
        destruct (Hidx n) as (? & ? & Hx & _); [by eapply list_elem_of_lookup_2|].
        destruct (Hidx n') as (? & ? & Hx' & _); [by eapply list_elem_of_lookup_2|].
        assert (n = n') as <- by congruence. by eapply NoDup_lookup.
      * intros Hin. by destruct (Hes' "" Hin) as (? & _ & _ & ?).
  - intros e He. destruct (Hes' e He) as (n & _ & Hn & _). unfold env_names in Hn.
    rewrite lookup_fmap, fmap_Some in Hn. destruct Hn as (r & -> & _). by eexists.
  - unfold rule_names. simpl. f_equal. apply set_eq. intros n.
    rewrite !elem_of_list_to_set, list_elem_of_omap. split.
    + intros (e & He & Hn). destruct (Hes' e He) as (n' & Hn' & En & _). unfold env_names in En.
      rewrite lookup_fmap in En. congruence.
    + intros Hn. destruct (Hidx n Hn) as (e & He & En & _). exists e. split; [by apply Hes; eauto|].
      unfold env_names in En. by rewrite lookup_fmap in En.
Qed.

(** What [resolvePresence] gives for a key. *)
Record resolved s (k : Key) (p : PresenceRules) : Prop := {
  rs_shaped : shaped (Required p) ∧ shaped (Forbidden p);
  rs_modes : Mode (Required p) = Mode (k_required k) ∧ Mode (Forbidden p) = Mode (k_forbidden k);
  rs_envs : ∀ e, e ∈ Environments (Required p) ∨ e ∈ Environments (Forbidden p) → is_Some (envs s !! e);
  rs_required : rule_names s (Required p) = (Mode (k_required k), list_to_set (Environments (k_required k)));
  rs_forbidden : rule_names s (Forbidden p) = (Mode (k_forbidden k), list_to_set (Environments (k_forbidden k)));
}.

Lemma resolvePresence_ok s ids k (Q : PresenceRules → Project A → Prop) :
  shaped (k_required k) → shaped (k_forbidden k) →
  indexes s ids (Environments (k_required k)) → indexes s ids (Environments (k_forbidden k)) →
  (∀ p, resolved s k p → Q p s) → succeeds (resolvePresence k ids) s Q.
Proof.
  intros S1 S2 I1 I2 HQ. unfold resolvePresence.
  destruct (resolveRule_ok s ids _ S1 I1) as (q1 & -> & M1 & Sh1 & E1 & N1).
  destruct (resolveRule_ok s ids _ S2 I2) as (q2 & -> & M2 & Sh2 & E2 & N2).
  apply wp_ret, HQ. split; simpl; [done|done| |done|done]. intros e [?|?]; auto.
Qed.

Lemma checkPresenceRules_ok s p (Q : unit → Project A → Prop) :
  shaped (Required p) → shaped (Forbidden p) →
  CheckPresence (Required p) (Forbidden p) = Ok tt ∨ conflict_blame →
  (CheckPresence (Required p) (Forbidden p) = Ok tt → Q tt s) → succeeds (checkPresenceRules p) s Q.
Proof.
  intros S1 S2 [Hc|Hc] HQ; unfold checkPresenceRules; [rewrite Hc; by apply wp_ret, HQ|]. destruct (CheckPresence _ _) as [[]|e] eqn:E; [by apply wp_ret, HQ|].
  apply wp_fail. unfold CheckPresence in E. rewrite !(proj2 (checkPresenceShape_ok _ _)) in E by done.
  simpl in E. destruct (overlap _ _) as [[] why]; [by injection E as <-|done].
Qed.

(** Rules that agree by name agree by id. *)
Lemma resolved_check s k p :
  resolved s k p → CheckPresence (k_required k) (k_forbidden k) = Ok tt →
  CheckPresence (Required p) (Forbidden p) = Ok tt.
Proof.
  intros [[S1 S2] [M1 M2] Hd R1 R2]. rewrite !CheckPresence_ok. intros (_ & _ & Hn). split_and!; [done|done|].
  assert (∀ q (p' : Presence) e n, rule_names s q = (Mode p', list_to_set (Environments p')) → Mode q = Mode p' →
    er_name <$> envs s !! e = Some n → Covers q e = true → Covers p' n = true) as Hcov.
  { intros q p' e n Hq Hm He. rewrite !Covers_true, Hm. intros [?|[? Hin]]; [by left|right]. split; [done|].
    apply (elem_of_list_to_set (C:=gset string)). change (list_to_set _) with (Mode p', list_to_set (C:=gset string) (Environments p')).2.
    rewrite <-Hq, rule_names_elem. exists e. by rewrite lookup_fmap. }
  intros e [C1 C2]. destruct (envs s !! e) as [r|] eqn:He.
  - apply (Hn (er_name r)). split; [eapply (Hcov (Required p) _ e)|eapply (Hcov (Forbidden p) _ e)]; try done; by rewrite He.
  - assert (∀ q, Covers q e = true → (e ∈ Environments q → is_Some (envs s !! e)) → Mode q = PresenceAll) as Hall.
    { intros q Hc%Covers_true Hx. destruct Hc as [?|[_ ?]]; [done|]. rewrite He in Hx. by destruct Hx. }
    apply (Hn ""). rewrite !Covers_true, <-M1, <-M2. rewrite !Hall; auto.
Qed.

Lemma canonicalText_ok s c n (Q : string → Project A → Prop) :
  CompileClassified c n = Some n →
  (∀ t, CompiledCanonical n = Some t → ParseDeclaration t = Some n → Q t s) → succeeds (canonicalText n) s Q.
Proof.
  intros Hc HQ. unfold canonicalText. destruct (compile_reads _ _ Hc) as (t & Ht & Hp). rewrite Ht. by apply wp_ret, HQ.
Qed.

(** ** A row that carries its entry *)

Definition good s (id : string) (k : Key) : Prop :=
  ∃ r, keys s !! id = Some r ∧ kr_name r = k_name k ∧ key_ok s id r ∧ row_spec s id r = key_spec k.

(** The rules of [id] read alike in two states with the same rows. *)
Lemma rule_kept s s' id rule m :
  (m = PresenceExplicit → ∀ e, mkKeyPresence id e rule ∈ presence s' ↔ mkKeyPresence id e rule ∈ presence s) →
  same_rule (mkPresence m (explicit_envs m (presence_envs s id rule)))
            (mkPresence m (explicit_envs m (presence_envs s' id rule))).
Proof.
  intros Hp. unfold same_rule, explicit_envs. simpl. case_bool_decide; [|split_and!; [done|constructor|constructor|done]].
  split_and!; [done|apply presence_envs_nodup..|]. intros e. by rewrite !presence_envs_elem, Hp.
Qed.

Lemma key_rules_local s s' id r :
  (∀ e ru, mkKeyPresence id e ru ∈ presence s' ↔ mkKeyPresence id e ru ∈ presence s) →
  same_rule (Required (key_rules s id r)) (Required (key_rules s' id r))
  ∧ same_rule (Forbidden (key_rules s id r)) (Forbidden (key_rules s' id r)).
Proof. intros Hp. split; by apply rule_kept. Qed.

Lemma rule_names_local s s' p : env_names s' = env_names s → rule_names s' p = rule_names s p.
Proof.
  intros E. unfold rule_names. f_equal. apply set_eq. intros n. rewrite !elem_of_list_to_set, !list_elem_of_omap.
  assert (∀ e, er_name <$> envs s' !! e = er_name <$> envs s !! e) as He.
  { intros e. rewrite <-!lookup_fmap. unfold env_names in E. by rewrite E. }
  by setoid_rewrite He.
Qed.

Lemma row_spec_local s s' id r :
  env_names s' = env_names s → groups s' = groups s →
  (∀ e ru, mkKeyPresence id e ru ∈ presence s' ↔ mkKeyPresence id e ru ∈ presence s) →
  row_spec s' id r = row_spec s id r.
Proof.
  intros He Hg Hp. unfold row_spec. rewrite Hg. destruct (key_rules_local s s' id r Hp) as [R1 R2].
  by rewrite !(rule_names_local s s') by done; rewrite <-(rule_names_same s _ _ R1), <-(rule_names_same s _ _ R2).
Qed.

Lemma key_ok_local s s' id r :
  (∀ g, is_Some (groups s !! g) → is_Some (groups s' !! g)) →
  (∀ e ru, mkKeyPresence id e ru ∈ presence s' ↔ mkKeyPresence id e ru ∈ presence s) →
  key_ok s id r → key_ok s' id r.
Proof.
  intros Hg Hp [K1 K2 K3 K4]. destruct (key_rules_local s s' id r Hp) as [R1 R2].
  split; [done| |done|by eapply CheckPresence_same]. destruct K2; auto.
Qed.

Lemma good_local s s' i k :
  envs s' = envs s → groups s' = groups s → keys s' !! i = keys s !! i →
  (∀ e ru, mkKeyPresence i e ru ∈ presence s' ↔ mkKeyPresence i e ru ∈ presence s) →
  good s i k → good s' i k.
Proof.
  intros He Hg Hk Hp (r & Hr & Hn & Hok & Hs). exists r. split_and!; [by rewrite Hk|done| |].
  - eapply key_ok_local; [|done|done]. by rewrite Hg.
  - rewrite <-Hs. apply row_spec_local; [unfold env_names; by rewrite He|done|done].
Qed.

(** A row is good once its parts are. *)
Lemma good_intro s id k r p :
  keys s !! id = Some r → kr_name r = k_name k → resolved s k p → stores s id p →
  kr_required r = Mode (k_required k) → kr_forbidden r = Mode (k_forbidden k) →
  CheckPresence (Required p) (Forbidden p) = Ok tt →
  (kr_folder r, kr_class r, kr_desc r, kr_deprecated r, kr_note r)
    = (k_folder k, k_class k, k_desc k, k_deprecated k, k_note k) →
  class_ok (k_class k) = true → CompileClassified (k_class k) (k_decl k) = Some (k_decl k) →
  ParseDeclaration (kr_decl r) = Some (k_decl k) → CompiledCanonical (k_decl k) = Some (kr_decl r) →
  (k_group k = "" → kr_group r = "") → (k_group k ≠ "" → kr_group r ≠ "" ∧ groups s !! kr_group r = Some (k_group k)) →
  good s id k.
Proof.
  intros Hr Hn Hp Hst M1 M2 Hc E Hcl Hcomp Hd Ht Hg1 Hg2. injection E as E1 E2 E3 E4 E5. exists r.
  destruct (rs_shaped _ _ _ Hp) as [S1 S2], (rs_modes _ _ _ Hp) as [N1 N2].
  destruct (stores_rules s id r p S1 S2 Hst) as [R1 R2]; [congruence|congruence|].
  split_and!; [done|done| |].
  - split; [by rewrite E2| | |by eapply CheckPresence_same].
    + destruct (decide (k_group k = "")) as [?|?]; [left; auto|]. right. destruct Hg2 as [_ ->]; [done|by eexists].
    + exists (k_decl k). by rewrite E2.
  - unfold row_spec, key_spec. rewrite E1, E2, E3, E4, E5, Hd.
    rewrite <-(rule_names_same s _ _ R1), <-(rule_names_same s _ _ R2), (rs_required _ _ _ Hp), (rs_forbidden _ _ _ Hp).
    f_equal. destruct (decide (k_group k = "")) as [Hg|Hg].
    + by rewrite (Hg1 Hg), Hg.
    + destruct (Hg2 Hg) as [Hne ->]. by rewrite !bool_decide_eq_false_2.
Qed.

(** ** Creates *)

(** A bundle key as [canonical] gives it, with its references indexed. *)
Record placed s (eids gids : gmap string string) (k : Key) : Prop := {
  pl_shaped : shaped (k_required k) ∧ shaped (k_forbidden k);
  pl_class : class_ok (k_class k) = true;
  pl_decl : CompileClassified (k_class k) (k_decl k) = Some (k_decl k);
  pl_required : indexes s eids (Environments (k_required k));
  pl_forbidden : indexes s eids (Environments (k_forbidden k));
  pl_check : CheckPresence (k_required k) (k_forbidden k) = Ok tt ∨ conflict_blame;
  pl_group : k_group k ≠ "" → ∃ g, gids !! k_group k = Some g ∧ groups s !! g = Some (k_group k) ∧ g ≠ "";
}.

Lemma placed_group s eids gids k :
  placed s eids gids k →
  (k_group k = "" → groupID k gids = "")
  ∧ (k_group k ≠ "" → groupID k gids ≠ "" ∧ groups s !! groupID k gids = Some (k_group k)).
Proof.
  intros Hpl. unfold groupID. split; intros Hg.
  - by rewrite bool_decide_eq_false_2 by (by intros ?).
  - rewrite bool_decide_eq_true_2 by done. destruct (pl_group _ _ _ _ Hpl Hg) as (g & -> & Hgs & Hne). done.
Qed.

Lemma placed_check s s' eids gids k p :
  placed s eids gids k → resolved s' k p → CheckPresence (Required p) (Forbidden p) = Ok tt ∨ conflict_blame.
Proof. intros Hpl Hp. destruct (pl_check _ _ _ _ Hpl); [left; by eapply resolved_check|by right]. Qed.

Lemma placed_modes s eids gids k :
  placed s eids gids k → mode_ok (Mode (k_required k)) = true ∧ mode_ok (Mode (k_forbidden k)) = true.
Proof.
  intros Hpl. destruct (pl_shaped _ _ _ _ Hpl) as [S1 S2].
  assert (∀ p, shaped p → mode_ok (Mode p) = true) as Hm; [|split; by apply Hm].
  intros p [[[-> | ->] _]|[-> _]]; done.
Qed.

Lemma group_ok_placed s eids gids k : placed s eids gids k → group_ok s (groupID k gids) = true.
Proof.
  intros Hpl. destruct (placed_group _ _ _ _ Hpl) as [G1 G2]. unfold group_ok.
  destruct (decide (k_group k = "")) as [Hg|Hg]; [by rewrite (G1 Hg)|].
  destruct (G2 Hg) as [_ ->]. apply orb_true_r.
Qed.

(** One key row more, and it is the entry's. *)
Definition key_added s s' (k : Key) : Prop :=
  ∃ id, id_ok id ∧ keys s !! id = None ∧ touched id s s' ∧ good s' id k.

Lemma createKey_ok k eids gids s :
  placed s eids gids k → (∀ i r, keys s !! i = Some r → kr_name r ≠ k_name k) → fresh newid s →
  succeeds (createKey newid k (k_decl k) eids gids) s (λ _ s', key_added s s' k).
Proof.
  intros Hpl Hname Hf. unfold createKey. destruct (pl_shaped _ _ _ _ Hpl) as [S1 S2].
  apply succeeds_bind, resolvePresence_ok; [done|done|apply Hpl|apply Hpl|]. intros p Hp.
  destruct (rs_shaped _ _ _ Hp) as [P1 P2], (rs_modes _ _ _ Hp) as [N1 N2].
  apply succeeds_bind, checkPresenceRules_ok; [done|done|by eapply placed_check|]. intros Hchk.
  apply succeeds_bind. eapply canonicalText_ok; [apply Hpl|]. intros t Ht Hpt.
  apply succeeds_bind, newID_ok; [done|done|]. intros id Hid Hu Hfresh.
  assert (keys s !! id = None) as Hno by (apply not_elem_of_dom; unfold in_use in Hu; set_solver).
  apply succeeds_bind, succeeds_stmt. simpl. rewrite N1, N2, (pl_class _ _ _ _ Hpl).
  destruct (placed_modes _ _ _ _ Hpl) as [-> ->]. simpl.
  change (group_ok (set_minted s (S (minted s))) (groupID k gids)) with (group_ok s (groupID k gids)).
  rewrite (group_ok_placed _ _ _ _ Hpl). simpl. unfold insert_check.
  rewrite bool_decide_eq_false_2 by (rewrite Hno; by intros [? ?]).
  rewrite (proj2 (taken_false kr_name (keys s) id (k_name k))).
  2:{ intros i _ Hi. rewrite lookup_fmap, fmap_Some in Hi. destruct Hi as (r & Hr & E). by apply (Hname i r Hr). }
  apply succeeds_bind. eapply succeeds_mono; [apply replacePresence_ok; [done|done| |]|].
  { simpl. rewrite lookup_insert_eq. by eexists. }
  { intros e He. simpl. by apply (rs_envs _ _ _ Hp). }
  intros ? s2 (T2 & K2 & St2). apply succeeds_event. intros s3 Hsame. exists id.
  pose proof Hsame as (E1 & E2 & E3 & E4 & E5).
  pose proof (to_envs _ _ _ T2) as TE. pose proof (to_groups _ _ _ T2) as TG. simpl in TE, TG, K2.
  split; [done|]. split; [done|]. split.
  - split.
    + by rewrite E1, TE.
    + by rewrite E2, TG.
    + intros _. apply (to_fresh _ _ _ (same_touched id _ _ Hsame)), (to_fresh _ _ _ T2), Hfresh; [done|].
      unfold in_use. simpl. rewrite dom_insert_L. set_solver.
    + intros Hcl. apply (to_closed _ _ _ (same_touched id _ _ Hsame)), (to_closed _ _ _ T2).
      intros row Hrow. simpl in *. destruct (Hcl row Hrow) as [? ?]. split; [|done].
      destruct (decide (pr_key row = id)) as [E|E]; [rewrite E, lookup_insert_eq; by eexists|].
      by rewrite lookup_insert_ne by done.
    + intros i Hi. by rewrite E3, K2, lookup_insert_ne by done.
    + intros row Hr. by rewrite E4, (to_presence _ _ _ T2).
  - destruct (placed_group _ _ _ _ Hpl) as [G1 G2].
    assert (env_names s3 = env_names s) as En by (unfold env_names; by rewrite E1, TE).
    eapply (good_intro s3 id k _ p); [by rewrite E3, K2, lookup_insert_eq|..]; simpl; try done; try apply Hpl.
    + split; [done|done| | |].
      * intros e He. rewrite E1, TE. by apply (rs_envs _ _ _ Hp).
      * rewrite (rule_names_local s s3) by done. apply Hp.
      * rewrite (rule_names_local s s3) by done. apply Hp.
    + split; intros Hmode e; rewrite E4; by apply St2.
    + intros Hg. simpl. rewrite E2, TG. by apply G2.
Qed.

(** Every key of [l] has a row of its own, and nothing else changed. *)
Record keys_added (l : list Key) s s' : Prop := {
  ka_envs : envs s' = envs s;
  ka_groups : groups s' = groups s;
  ka_fresh : fresh newid s';
  ka_closed : closed s → closed s';
  ka_old : ∀ i r, keys s !! i = Some r → keys s' !! i = Some r;
  ka_presence : ∀ i, is_Some (keys s !! i) →
    ∀ e ru, mkKeyPresence i e ru ∈ presence s' ↔ mkKeyPresence i e ru ∈ presence s;
  ka_new : ∀ k, k ∈ l → ∃ i, keys s !! i = None ∧ good s' i k;
  ka_only : ∀ i, keys s !! i = None → is_Some (keys s' !! i) → id_ok i ∧ ∃ k, k ∈ l ∧ good s' i k;
  ka_names : names_inj (key_names s) → names_inj (key_names s');
}.

Lemma placed_local s s' eids gids k :
  envs s' = envs s → groups s' = groups s → placed s eids gids k → placed s' eids gids k.
Proof.
  intros He Hg [P1 P2 P3 P4 P5 P6 P7]. split; [done|done|done| | |done|by rewrite Hg].
  - unfold indexes, env_names. by rewrite He.
  - unfold indexes, env_names. by rewrite He.
Qed.

Lemma createKeys_ok decls eids gids l : ∀ s,
  (∀ k, k ∈ l → placed s eids gids k ∧ decls !! k_name k = Some (k_decl k)) → NoDup (k_name <$> l) →
  (∀ k i r, k ∈ l → keys s !! i = Some r → kr_name r ≠ k_name k) → fresh newid s →
  succeeds (for_each l (λ k, bind (CompiledDeclaration decls (k_name k))
      (λ compiled, createKey newid k compiled eids gids))) s (λ _ s', keys_added l s s').
Proof.
  induction l as [|k l IH]; intros s Hpl Hnd Hname Hf; simpl.
  { apply wp_ret. split; try done; [by intros k ?%elem_of_nil|]. intros i -> [? ?]. done. }
  rewrite fmap_cons, NoDup_cons in Hnd. destruct Hnd as [Hk Hnd].
  destruct (Hpl k) as [Hplk Hd]; [by left|]. apply succeeds_bind, succeeds_bind.
  unfold CompiledDeclaration. rewrite Hd. apply wp_ret.
  eapply succeeds_mono; [apply createKey_ok; [done|intros i r; apply Hname; by left|done]|].
  intros ? s1 (id & Hid & Hno & T1 & G1).
  pose proof (to_envs _ _ _ T1) as E1. pose proof (to_groups _ _ _ T1) as E2.
  eapply succeeds_mono; [apply IH; [|done| |by apply (to_fresh _ _ _ T1)]|].
  { intros k' Hk'. destruct (Hpl k') as [? ?]; [by right|]. split; [by eapply placed_local|done]. }
  { intros k' i r Hk' Hr. destruct (decide (i = id)) as [->|Hi].
    - destruct G1 as (r' & Hr' & Hn' & _). rewrite Hr in Hr'. injection Hr' as <-. rewrite Hn'. intros E.
      apply Hk. rewrite E. apply list_elem_of_fmap. eauto.
    - rewrite (to_keys _ _ _ T1) in Hr by done. eapply Hname; [by right|done]. }
  intros ? s2 K2. assert (∀ i, is_Some (keys s !! i) → i ≠ id) as Hne by (intros i [? ?] ->; congruence).
  assert (good s2 id k) as G2.
  { pose proof G1 as (r & Hr & _). eapply good_local; [apply K2|apply K2| |by apply (ka_presence _ _ _ K2)|done].
    rewrite Hr. by apply (ka_old _ _ _ K2). }
  split.
  - by rewrite (ka_envs _ _ _ K2).
  - by rewrite (ka_groups _ _ _ K2).
  - apply K2.
  - intros Hcl. by apply (ka_closed _ _ _ K2), (to_closed _ _ _ T1).
  - intros i r Hr. apply (ka_old _ _ _ K2). rewrite (to_keys _ _ _ T1); [done|]. apply Hne. by eexists.
  - intros i Hi e ru. rewrite (ka_presence _ _ _ K2).
    + apply (to_presence _ _ _ T1). simpl. by apply Hne.
    + rewrite (to_keys _ _ _ T1); [done|]. by apply Hne.
  - intros k' [->|Hk']%elem_of_cons; [by exists id|].
    destruct (ka_new _ _ _ K2 k' Hk') as (i & Hi & G). exists i. split; [|done].
    destruct (decide (i = id)) as [->|Hie]; [done|]. by rewrite (to_keys _ _ _ T1) in Hi.
  - intros i Hi Hs2. destruct (decide (i = id)) as [->|Hie]; [split; [done|]; exists k; split; [by left|done]|].
    destruct (ka_only _ _ _ K2 i) as [? (k' & Hk' & G)]; [by rewrite (to_keys _ _ _ T1)|done|].
    split; [done|]. exists k'. split; [by right|done].
  - intros Hinj. apply (ka_names _ _ _ K2). pose proof G1 as (r & Hr & Hn & _).
    assert (∀ i n, key_names s1 !! i = Some n → (i = id ∧ n = k_name k) ∨ (i ≠ id ∧ key_names s !! i = Some n)) as Hx.
    { intros i n. unfold key_names. rewrite !lookup_fmap. destruct (decide (i = id)) as [->|Hi].
      - rewrite Hr. intros [= <-]. auto.
      - rewrite (to_keys _ _ _ T1) by done. auto. }
    assert (∀ i, key_names s !! i ≠ Some (k_name k)) as Hfree.
    { intros i Hi. unfold key_names in Hi. rewrite lookup_fmap, fmap_Some in Hi. destruct Hi as (r' & Hr' & E).
      eapply (Hname k i r'); [by left|done|done]. }
    intros i j n [[-> ->]|[Hi Hn1]]%Hx [[-> E]|[Hj Hn2]]%Hx; try done; [by destruct (Hfree j)| |by eapply Hinj].
    rewrite E in Hn1. by destruct (Hfree i).
Qed.
(** ** Updates *)

Lemma update_key_ok check id f s r (Q : unit → Project A → Prop) :
  keys s !! id = Some r → check s = None →
  (∀ s', touched id s s' → keys s' !! id = Some (f r) → presence s' = presence s → Q tt s') →
  succeeds (update_key check id f) s Q.
Proof.
  intros Hr Hc HQ. unfold update_key. apply succeeds_stmt. simpl.
  rewrite bool_decide_eq_false_2 by (by rewrite Hr). rewrite Hc. apply HQ.
  - split; simpl; [done|done| | |intros i Hi; by apply lookup_alter_ne|done].
    + apply fresh_mono; [|done]. unfold in_use. simpl. by rewrite dom_alter_L.
    + intros Hcl row Hrow. simpl in *. rewrite lookup_alter_is_Some. by apply Hcl.
  - simpl. by rewrite lookup_alter_eq, Hr.
  - done.
Qed.

Lemma when_ok b m s (Q : unit → Project A → Prop) :
  (b = false → Q tt s) → (b = true → succeeds m s Q) → succeeds (when b m) s Q.
Proof. intros Hf Ht. unfold when. destruct b; [auto|]. apply wp_ret. auto. Qed.

Lemma get_ok id s r (Q : KeyRow → Project A → Prop) :
  keys s !! id = Some r → Q r s → succeeds (Catalogue_Get id) s Q.
Proof. intros Hr HQ. unfold succeeds, wp, Catalogue_Get. by rewrite Hr. Qed.

Lemma refusePinned_ok id name s (Q : unit → Project A → Prop) :
  Q tt s → succeeds (refuseAdapterPinnedKey id name) s Q.
Proof.
  intros HQ. unfold refuseAdapterPinnedKey. apply succeeds_bind, wp_gets.
  destruct (bool_decide _); [by apply wp_fail|by apply wp_ret].
Qed.

(** The rows of one rule are those of the entry. *)
Definition rule_stored s (id rule : string) (p : Presence) : Prop :=
  Mode p = PresenceExplicit → ∀ e,
    mkKeyPresence id e rule ∈ presence s ↔ ∃ n, n ∈ Environments p ∧ env_names s !! e = Some n.

(** What a part of the row that the diff saw unchanged already holds. *)
Record settled s (id : string) (r : KeyRow) (u : KeyUpdate) : Prop := {
  se_row : keys s !! id = Some r;
  se_name : kr_name r = k_name (u_desired u);
  se_meta : MetaChanged u = false →
    (kr_folder r, kr_desc r, kr_deprecated r, kr_note r)
      = (k_folder (u_desired u), k_desc (u_desired u), k_deprecated (u_desired u), k_note (u_desired u));
  se_class : Reclassified u = false → kr_class r = k_class (u_desired u);
  se_group : GroupChanged u = false →
    (k_group (u_desired u) = "" → kr_group r = "")
    ∧ (k_group (u_desired u) ≠ "" → kr_group r ≠ "" ∧ groups s !! kr_group r = Some (k_group (u_desired u)));
  se_decl : DeclChanged u = false →
    ParseDeclaration (kr_decl r) = Some (k_decl (u_desired u))
    ∧ CompiledCanonical (k_decl (u_desired u)) = Some (kr_decl r);
  se_presence : PresenceChanged u = false →
    kr_required r = Mode (k_required (u_desired u)) ∧ kr_forbidden r = Mode (k_forbidden (u_desired u))
    ∧ rule_stored s id PresenceRuleRequired (k_required (u_desired u))
    ∧ rule_stored s id PresenceRuleForbidden (k_forbidden (u_desired u));
}.

Lemma rule_elem s p (q : Presence) :
  names_inj (env_names s) → (∀ e, e ∈ Environments q → is_Some (envs s !! e)) →
  rule_names s q = (Mode p, list_to_set (Environments p)) →
  ∀ e, e ∈ Environments q ↔ ∃ n, n ∈ Environments p ∧ env_names s !! e = Some n.
Proof.
  intros Hinj Hdom E e. assert (∀ n, n ∈ Environments p ↔ n ∈ (rule_names s q).2) as Hn.
  { intros n. rewrite E. simpl. by rewrite elem_of_list_to_set. }
  setoid_rewrite Hn. setoid_rewrite rule_names_elem. split.
  - intros He. destruct (Hdom e He) as [r Hr]. exists (er_name r). unfold env_names. rewrite lookup_fmap, Hr.
    split; [|done]. exists e. by rewrite lookup_fmap, Hr.
  - intros (n & (e' & He' & Hn') & Hne). by rewrite (Hinj e e' n).
Qed.

Lemma resolved_stores s id k p :
  names_inj (env_names s) → resolved s k p →
  rule_stored s id PresenceRuleRequired (k_required k) → rule_stored s id PresenceRuleForbidden (k_forbidden k) →
  stores s id p.
Proof.
  intros Hinj Hp R1 R2. destruct (rs_modes _ _ _ Hp) as [M1 M2]. split; intros Hmode e.
  - rewrite (R1 ltac:(congruence) e), (rule_elem s (k_required k) (Required p)); [done|done| |apply Hp].
    intros ? ?. apply (rs_envs _ _ _ Hp). auto.
  - rewrite (R2 ltac:(congruence) e), (rule_elem s (k_forbidden k) (Forbidden p)); [done|done| |apply Hp].
    intros ? ?. apply (rs_envs _ _ _ Hp). auto.
Qed.

Lemma resolved_touched id s s' k p : touched id s s' → resolved s k p → resolved s' k p.
Proof.
  intros T [P1 P2 P3 P4 P5].
  assert (env_names s' = env_names s) as En by (unfold env_names; by rewrite (to_envs _ _ _ T)).
  split; [done|done|by rewrite (to_envs _ _ _ T)|by rewrite (rule_names_local s s')..].
Qed.

(** The row after each part of an update. *)
Definition meta_row (k : Key) (r : KeyRow) : KeyRow :=
  mkKeyRow (kr_name r) (k_folder k) (kr_class r) (k_desc k) (k_deprecated k) (k_note k) (kr_decl r)
    (kr_required r) (kr_forbidden r) (kr_group r).
Definition decl_row (t : string) (k : Key) (r : KeyRow) : KeyRow :=
  mkKeyRow (kr_name r) (kr_folder r) (kr_class r) (kr_desc r) (kr_deprecated r) (kr_note r) t
    (Mode (k_required k)) (Mode (k_forbidden k)) (kr_group r).
Definition class_row (k : Key) (r : KeyRow) : KeyRow :=
  mkKeyRow (kr_name r) (kr_folder r) (k_class k) (kr_desc r) (kr_deprecated r) (kr_note r) (kr_decl r)
    (kr_required r) (kr_forbidden r) (kr_group r).

(** A part that writes the row of [id] and nothing else of the four tables. *)
Definition row_written (id : string) (b : bool) (f : KeyRow → KeyRow) (r : KeyRow) s s' : Prop :=
  touched id s s' ∧ keys s' !! id = Some (if b then f r else r) ∧ presence s' = presence s.

Lemma touched_refl id s : touched id s s.
Proof. by split. Qed.

Lemma row_written_intro id b f r s (m : M (Project A) DefError unit) :
  keys s !! id = Some r →
  (b = true → succeeds m s (λ _ s', row_written id true f r s s')) →
  succeeds (when b m) s (λ _ s', row_written id b f r s s').
Proof.
  intros Hr Hm. apply when_ok; intros ->; [|by apply Hm].
  split_and!; [apply touched_refl|done|done].
Qed.

Lemma update_event_ok check id f s r b ty o pl :
  keys s !! id = Some r → (b = true → check s = None) →
  succeeds (when b (bind (update_key check id f) (λ _, event ty o pl))) s (λ _ s', row_written id b f r s s').
Proof.
  intros Hr Hc. apply row_written_intro; [done|]. intros Hb.
  apply succeeds_bind. eapply update_key_ok; [done|auto|]. intros s1 T1 K1 P1.
  apply succeeds_event. intros s2 Hs. pose proof Hs as (_ & _ & E3 & E4 & _).
  split_and!; [by eapply touched_trans, same_touched|by rewrite E3|by rewrite E4].
Qed.

Lemma declaration_ok id k p s r b ty o pl :
  keys s !! id = Some r → resolved s k p → class_ok (k_class k) = true →
  CompileClassified (k_class k) (k_decl k) = Some (k_decl k) →
  succeeds (when b (
    bind (canonicalText (k_decl k)) (λ canonical,
    bind (Catalogue_UpdateDeclaration id canonical (Mode (Required p)) (Mode (Forbidden p))) (λ _,
    bind (Catalogue_ReplacePresence id (presenceRowsFor id p)) (λ _, event ty o pl))))) s
    (λ _ s', touched id s s' ∧
       if b then stores s' id p ∧ ∃ t, CompiledCanonical (k_decl k) = Some t
                 ∧ ParseDeclaration t = Some (k_decl k) ∧ keys s' !! id = Some (decl_row t k r)
       else s' = s).
Proof.
  intros Hr Hp Hcl Hc. apply when_ok; intros ->; [split; [apply touched_refl|done]|].
  destruct (rs_shaped _ _ _ Hp) as [S1 S2], (rs_modes _ _ _ Hp) as [M1 M2].
  apply succeeds_bind. eapply canonicalText_ok; [done|]. intros t Ht Hpt.
  apply succeeds_bind. unfold Catalogue_UpdateDeclaration. eapply update_key_ok; [done| |].
  { assert (∀ q, shaped q → mode_ok (Mode q) = true) as Hm.
    { intros q [[[-> | ->] _]|[-> _]]; done. }
    by rewrite !Hm. }
  intros s1 T1 K1 P1. apply succeeds_bind. eapply succeeds_mono; [apply replacePresence_ok; [done|done| |]|].
  { rewrite K1. by eexists. }
  { intros e He. rewrite (to_envs _ _ _ T1). by apply (rs_envs _ _ _ Hp). }
  intros ? s2 (T2 & K2 & St2). apply succeeds_event. intros s3 Hs. pose proof Hs as (_ & _ & E3 & E4 & _).
  split; [by eapply touched_trans, touched_trans, same_touched|].
  split; [split; intros Hmode e; rewrite E4; by apply St2|]. exists t. split_and!; [done..|].
  rewrite E3, K2, K1. unfold decl_row. by rewrite M1, M2.
Qed.

Lemma reclassify_ok id k prev s r b ty o pl :
  keys s !! id = Some r → class_ok (k_class k) = true →
  (prev = Secret → k_class k = Config → declassify_blame) →
  succeeds (when b (
    bind (Catalogue_Get id) (λ key,
    bind (refuseAdapterPinnedKey id (kr_name key)) (λ _,
    bind (when (bool_decide (prev = Secret) && bool_decide (k_class k = Config))
            (fail (ErrInvalid "definitions apply cannot declassify"))) (λ _,
    bind (Catalogue_SetClassification id (k_class k)) (λ _,
    bind (when (bool_decide (prev = Config) && bool_decide (k_class k = Secret))
            (ScanningDismissals_DeleteByKey id)) (λ _, event ty o pl))))))) s
    (λ _ s', row_written id b (class_row k) r s s').
Proof.
  intros Hr Hcl Hbl. apply row_written_intro; [done|]. intros _.
  apply succeeds_bind. eapply get_ok; [done|]. apply succeeds_bind, refusePinned_ok.
  apply succeeds_bind, when_ok; intros Hd.
  2:{ apply andb_true_iff in Hd as [?%bool_decide_eq_true ?%bool_decide_eq_true]. apply wp_fail. split; auto. }
  apply succeeds_bind. eapply update_key_ok; [done|by rewrite Hcl|]. intros s1 T1 K1 P1.
  assert (∀ s2, same s1 s2 → succeeds (event ty o pl) s2 (λ _ s', row_written id true (class_row k) r s s')) as Hend.
  { intros s2 Hs2. apply succeeds_event. intros s3 Hs3.
    pose proof Hs2 as (_ & _ & E3 & E4 & _). pose proof Hs3 as (_ & _ & E3' & E4' & _). split_and!.
    - eapply touched_trans; [done|]. eapply touched_trans; by apply same_touched.
    - by rewrite E3', E3.
    - by rewrite E4', E4. }
  apply succeeds_bind, when_ok; intros Hx; [by apply Hend|]. apply succeeds_modify. by apply Hend.
Qed.

(** The row and the presence rows after the first two parts. *)
Lemma declared_row s s1 s2 id r r2 u p :
  settled s id r u → names_inj (env_names s) → resolved s (u_desired u) p → touched id s s1 →
  keys s1 !! id = Some (if MetaChanged u then meta_row (u_desired u) r else r) → presence s1 = presence s →
  (if DeclChanged u || PresenceChanged u
   then stores s2 id p ∧ ∃ t, CompiledCanonical (k_decl (u_desired u)) = Some t
          ∧ ParseDeclaration t = Some (k_decl (u_desired u))
          ∧ keys s2 !! id = Some (decl_row t (u_desired u) (if MetaChanged u then meta_row (u_desired u) r else r))
   else s2 = s1) →
  keys s2 !! id = Some r2 →
  let k := u_desired u in
  stores s2 id p ∧ kr_required r2 = Mode (k_required k) ∧ kr_forbidden r2 = Mode (k_forbidden k)
  ∧ ParseDeclaration (kr_decl r2) = Some (k_decl k) ∧ CompiledCanonical (k_decl k) = Some (kr_decl r2)
  ∧ kr_name r2 = k_name k ∧ kr_class r2 = kr_class r ∧ kr_group r2 = kr_group r
  ∧ (kr_folder r2, kr_desc r2, kr_deprecated r2, kr_note r2) = (k_folder k, k_desc k, k_deprecated k, k_note k).
Proof.
  intros Hse Hinj Hp T1 K1 Pr1 D2 K2 k.
  assert (let r1 := if MetaChanged u then meta_row (u_desired u) r else r in
    kr_name r1 = k_name k ∧ kr_class r1 = kr_class r ∧ kr_group r1 = kr_group r ∧ kr_decl r1 = kr_decl r
    ∧ kr_required r1 = kr_required r ∧ kr_forbidden r1 = kr_forbidden r
    ∧ (kr_folder r1, kr_desc r1, kr_deprecated r1, kr_note r1) = (k_folder k, k_desc k, k_deprecated k, k_note k)) as R1.
  { pose proof (se_name _ _ _ _ Hse) as Hn. pose proof (se_meta _ _ _ _ Hse) as Hm.
    destruct (MetaChanged u); simpl; split_and!; try done. by apply Hm. }
  simpl in R1. destruct R1 as (N1 & C1 & G1 & D1 & Q1 & F1 & M1).
  destruct (DeclChanged u || PresenceChanged u) eqn:E.
  - destruct D2 as (Hst & t & Ht & Hpt & K). rewrite K in K2. injection K2 as <-. simpl. split_and!; done.
  - subst s2. rewrite K1 in K2. injection K2 as <-. apply orb_false_iff in E as [E1 E2].
    destruct (se_decl _ _ _ _ Hse E1) as [? ?], (se_presence _ _ _ _ Hse E2) as (? & ? & R1 & R2).
    rewrite D1, Q1, F1. split_and!; try done.
    assert (stores s id p) as [A1 A2] by (by eapply resolved_stores). by split; rewrite Pr1.
Qed.

Lemma updateKey_ok u eids gids rev s r :
  settled s (u_id u) r u → placed s eids gids (u_desired u) → names_inj (env_names s) →
  (PrevClassification u = Secret → k_class (u_desired u) = Config → declassify_blame) →
  succeeds (updateKey u (k_decl (u_desired u)) eids gids rev) s (λ _ s',
    touched (u_id u) s s' ∧ good s' (u_id u) (u_desired u)).
Proof.
  intros Hse Hpl Hinj Hbl. unfold updateKey. set (k := u_desired u). set (id := u_id u).
  destruct (pl_shaped _ _ _ _ Hpl) as [S1 S2].
  apply succeeds_bind. eapply get_ok; [apply Hse|].
  apply succeeds_bind, resolvePresence_ok; [done|done|apply Hpl|apply Hpl|]. intros p Hp.
  destruct (rs_shaped _ _ _ Hp) as [P1 P2].
  apply succeeds_bind, checkPresenceRules_ok; [done|done|by eapply placed_check|]. intros Hchk.
  apply succeeds_bind. eapply succeeds_mono; [eapply update_event_ok; [apply Hse|done]|].
  intros ? s1 (T1 & K1 & Pr1). simpl in K1.
  apply succeeds_bind. eapply succeeds_mono; [eapply declaration_ok; [exact K1|by eapply resolved_touched|apply Hpl..]|].
  intros ? s2 (T2 & D2).
  assert (∃ r2, keys s2 !! id = Some r2) as [r2 K2].
  { destruct (_ || _); [by destruct D2 as (_ & t & _ & _ & ->); eexists|subst s2; eauto]. }
  apply succeeds_bind. eapply succeeds_mono; [eapply reclassify_ok; [exact K2|apply Hpl|exact Hbl]|].
  intros ? s3 (T3 & K3 & Pr3).
  eapply succeeds_mono; [eapply update_event_ok; [exact K3|]|].
  { intros _. assert (group_ok s3 (groupID k gids) = true) as ->; [|done].
    pose proof (group_ok_placed _ _ _ _ Hpl) as Hg. unfold group_ok in *.
    by rewrite (to_groups _ _ _ T3), (to_groups _ _ _ T2), (to_groups _ _ _ T1). }
  intros ? s4 (T4 & K4 & Pr4).
  assert (touched id s s4) as T by (eapply touched_trans; [exact T1|]; eapply touched_trans; [exact T2|];
    eapply touched_trans; [exact T3|exact T4]).
  split; [done|].
  destruct (declared_row _ _ _ _ _ _ _ _ Hse Hinj Hp T1 K1 Pr1 D2 K2) as (D1 & D3 & D4 & D5 & D6 & D7 & D8 & D9 & D10).
  pose proof (placed_group _ _ _ _ Hpl) as Hpg. pose proof (se_group _ _ _ _ Hse) as Hsg.
  pose proof (se_class _ _ _ _ Hse) as Hsc. fold k in Hpg, Hsg, Hsc. injection D10 as M1 M2 M3 M4.
  assert (stores s4 id p) as St by (split; intros Hmode e; rewrite Pr4, Pr3; by apply D1).
  rewrite <-(to_groups _ _ _ T) in Hpg, Hsg.
  destruct (Reclassified u), (GroupChanged u); eapply (good_intro s4 id k _ p); try exact K4; simpl; try done;
    try apply Hpl; try apply Hpg; try (by eapply resolved_touched); try (by rewrite D9; apply Hsg).
  all: by rewrite M1, M2, M3, M4, ?D8, ?Hsc.
Qed.

Lemma settled_local s s' i r u :
  envs s' = envs s → groups s' = groups s → keys s' !! i = keys s !! i →
  (∀ e ru, mkKeyPresence i e ru ∈ presence s' ↔ mkKeyPresence i e ru ∈ presence s) →
  settled s i r u → settled s' i r u.
Proof.
  intros He Hg Hk Hp [R N M C G D P]. split; [by rewrite Hk|done|done|done| |done|].
  - intros Hgc. rewrite Hg. auto.
  - intros Hpc. destruct (P Hpc) as (? & ? & R1 & R2).
    assert (∀ rule p, rule_stored s i rule p → rule_stored s' i rule p) as Hr; [|split_and!; auto].
    intros rule p Hst Hm e. rewrite Hp. unfold env_names. rewrite He. by apply Hst.
Qed.

(** A key the diff leaves alone is already as the entry has it. *)
Lemma unchanged_good u eids gids s r :
  settled s (u_id u) r u → placed s eids gids (u_desired u) → names_inj (env_names s) → changed u = false →
  CheckPresence (Required (key_rules s (u_id u) r)) (Forbidden (key_rules s (u_id u) r)) = Ok tt →
  good s (u_id u) (u_desired u).
Proof.
  intros Hse Hpl Hinj Hch Hok. unfold changed in Hch. rewrite !orb_false_iff in Hch.
  destruct Hch as [[[[[_ Hm] Hd] Hc] Hg] Hp].
  destruct (pl_shaped _ _ _ _ Hpl) as [S1 S2].
  destruct (resolveRule_ok s eids _ S1 (pl_required _ _ _ _ Hpl)) as (q1 & _ & M1 & Sh1 & E1 & N1).
  destruct (resolveRule_ok s eids _ S2 (pl_forbidden _ _ _ _ Hpl)) as (q2 & _ & M2 & Sh2 & E2 & N2).
  assert (resolved s (u_desired u) (mkPresenceRules q1 q2)) as Hres.
  { split; simpl; [done|done| |done|done]. intros e [?|?]; auto. }
  destruct (se_presence _ _ _ _ Hse Hp) as (Q1 & Q2 & R1 & R2), (se_decl _ _ _ _ Hse Hd) as [D1 D2].
  destruct (se_group _ _ _ _ Hse Hg) as [G1 G2].
  pose proof (se_meta _ _ _ _ Hse Hm) as Em. injection Em as F1 F2 F3 F4.
  assert (stores s (u_id u) (mkPresenceRules q1 q2)) as Hst by (by eapply resolved_stores).
  eapply (good_intro s _ _ r (mkPresenceRules q1 q2)); try done; try apply Hse; try apply Hpl.
  - destruct (stores_rules s (u_id u) r (mkPresenceRules q1 q2)) as [A1 A2]; simpl; [done|done|done|congruence|congruence|].
    eapply CheckPresence_same; [..|exact Hok]; simpl in *.
    + destruct A1 as (? & ? & ? & ?). by split_and!.
    + destruct A2 as (? & ? & ? & ?). by split_and!.
  - by rewrite F1, F2, F3, F4, (se_class _ _ _ _ Hse Hc).
Qed.

(** The rows of [us] carry their entries, and the others are untouched. *)
Record keys_updated (us : list KeyUpdate) s s' : Prop := {
  ku_envs : envs s' = envs s;
  ku_groups : groups s' = groups s;
  ku_fresh : fresh newid s → fresh newid s';
  ku_closed : closed s → closed s';
  ku_dom : ∀ i, is_Some (keys s' !! i) → is_Some (keys s !! i);
  ku_other : ∀ i, i ∉ u_id <$> us → keys s' !! i = keys s !! i
    ∧ ∀ e ru, mkKeyPresence i e ru ∈ presence s' ↔ mkKeyPresence i e ru ∈ presence s;
  ku_good : ∀ u, u ∈ us → good s' (u_id u) (u_desired u);
}.

Lemma updateKeys_ok decls eids gids rev us : ∀ s,
  NoDup (u_id <$> us) → names_inj (env_names s) →
  (∀ u, u ∈ us → (∃ r, settled s (u_id u) r u) ∧ placed s eids gids (u_desired u)
     ∧ decls !! k_name (u_desired u) = Some (k_decl (u_desired u))
     ∧ (PrevClassification u = Secret → k_class (u_desired u) = Config → declassify_blame)) →
  succeeds (for_each us (λ u, bind (CompiledDeclaration decls (k_name (u_desired u)))
      (λ compiled, updateKey u compiled eids gids rev))) s (λ _ s', keys_updated us s s').
Proof.
  induction us as [|u us IH]; intros s Hnd Hinj Hus; simpl.
  { apply wp_ret. split; try done. by intros u ?%elem_of_nil. }
  rewrite fmap_cons, NoDup_cons in Hnd. destruct Hnd as [Hu Hnd].
  destruct (Hus u) as ([r Hse] & Hpl & Hd & Hbl); [by left|]. apply succeeds_bind, succeeds_bind.
  unfold CompiledDeclaration. rewrite Hd. apply wp_ret.
  eapply succeeds_mono; [by eapply updateKey_ok|]. intros ? s1 (T1 & G1).
  assert (env_names s1 = env_names s) as En by (unfold env_names; by rewrite (to_envs _ _ _ T1)).
  assert (∀ u', u' ∈ us → u_id u' ≠ u_id u) as Hne.
  { intros u' Hu' E. apply Hu. rewrite <-E. apply list_elem_of_fmap. eauto. }
  eapply succeeds_mono; [apply IH; [done|by rewrite En|]|].
  { intros u' Hu'. destruct (Hus u') as ([r' Hse'] & Hpl' & Hd' & Hbl'); [by right|]. split_and!; [|by eapply placed_local, Hpl'; apply T1|done|done].
    exists r'. eapply settled_local; [apply T1|apply T1| | |done].
    - apply (to_keys _ _ _ T1). by apply Hne.
    - intros e ru. apply (to_presence _ _ _ T1). by apply Hne. }
  intros ? s2 [K1 K2 K0 K3 K4 K5 K6]. split.
  - by rewrite K1, (to_envs _ _ _ T1).
  - by rewrite K2, (to_groups _ _ _ T1).
  - intros Hf. by apply K0, (to_fresh _ _ _ T1).
  - intros Hcl. by apply K3, (to_closed _ _ _ T1).
  - intros i Hi%K4. destruct (decide (i = u_id u)) as [->|Hi']; [rewrite (se_row _ _ _ _ Hse); by eexists|].
    by rewrite (to_keys _ _ _ T1) in Hi.
  - intros i. rewrite fmap_cons, not_elem_of_cons. intros [Hi Hi']. destruct (K5 i Hi') as [E1 E2]. split.
    + by rewrite E1, (to_keys _ _ _ T1).
    + intros e ru. rewrite E2. by apply (to_presence _ _ _ T1).
  - intros u' [->|Hu']%elem_of_cons; [|by apply K6]. destruct (K5 (u_id u) Hu) as [E1 E2].
    by eapply good_local.
Qed.
End key_rows.
