(* ===== verification/DefinitionsTopology.v ===== *)
(** * Executing a resolution: the topology

    The resolution of a bundle read off the three matches, and the first phases
    of [executeResolution] on it: deletes, parking, creates, final names. The
    result is stated against the state the resolution was computed from: where
    every surviving identity is named, which rows are left, and that the name
    indexes the key phases use are right. *)

From stdpp Require Import prelude gmap strings pretty list.
From S2P Require Import Prelude StateErr Presence Definitions DefinitionsMatch Catalogue DefinitionsApply.
From S2P Require Import DefinitionsState DefinitionsRealize DefinitionsExec DefinitionsKeys.

Section plan.
Context `{SchemaLang}.

(** A resolution and the matches it was computed from. *)
Record planned (b : Bundle) (cur : CurrentState) (res : Resolution) (em gm km : kindMatch) : Prop := {
  pn_env : matched (b_envs b) (s_envs cur) (Additive b) em;
  pn_group : matched (b_groups b) (s_groups cur) (Additive b) gm;
  pn_key : matched (bundleKeyEntities (b_keys b)) (currentKeyEntities (s_keys cur)) (Additive b) km;
  pn_ec : EnvCreates res = (topology (s_envs cur) (b_envs b) (boundDBID em)).1;
  pn_er : EnvRenames res = (topology (s_envs cur) (b_envs b) (boundDBID em)).2;
  pn_ed : EnvDeletes res = refsFor (s_envs cur) (deletes em);
  pn_gc : GroupCreates res = (topology (s_groups cur) (b_groups b) (boundDBID gm)).1;
  pn_gr : GroupRenames res = (topology (s_groups cur) (b_groups b) (boundDBID gm)).2;
  pn_gd : GroupDeletes res = refsFor (s_groups cur) (deletes gm);
  pn_kc : KeyCreates res = (filter (λ p, p.2 = "") (zip (b_keys b) (boundDBID km))).*1;
  pn_ku : KeyUpdates res = omap (key_update (s_keys cur) (identities (b_envs b) (boundDBID em) ∅)
            (identities (b_groups b) (boundDBID gm) ∅)) (zip (b_keys b) (boundDBID km));
  pn_kd : KeyDeletes res = refsFor (currentKeyEntities (s_keys cur)) (deletes km);
  pn_refs : ∀ k, k ∈ b_keys b →
    validateKeyReferences k (list_to_set (ent_name <$> b_envs b)) (list_to_set (ent_name <$> b_groups b)) = Ok tt;
  pn_additive : Additive b = true → KeyUpdates res = [];
}.

Lemma resolve_planned b cur res :
  wf_entities (s_envs cur) → wf_entities (s_groups cur) → wf_entities (currentKeyEntities (s_keys cur)) →
  Resolve b cur = Ok res → ∃ em gm km, planned b cur res em gm km.
Proof.
  intros We Wg Wk. unfold Resolve, resolve. unfold envEntities, groupEntities. rewrite !entities_id.
  rewrite rbind_Ok. intros (em & Hem & Hr). rewrite rbind_Ok in Hr. destruct Hr as (gm & Hgm & Hr).
  rewrite rbind_Ok in Hr. destruct Hr as (km & Hkm & Hr).
  apply matchEntities_spec in Hem; [|done]. apply matchEntities_spec in Hgm; [|done].
  apply matchEntities_spec in Hkm; [|done].
  destruct (topology (s_envs cur) _ _) as [ec er] eqn:Ee, (topology (s_groups cur) _ _) as [gc gr] eqn:Eg.
  apply rbind_Ok in Hr as ([[kc ku] rev] & Hk & [= <-]).
  apply resolveKeys_spec in Hk as (Hv & -> & -> & Ha).
  exists em, gm, km. split; simpl; rewrite ?Ee, ?Eg; try done.
  - intros k Hin. apply list_elem_of_lookup in Hin as [i Hi].
    destruct (lookup_lt_is_Some_2 (boundDBID km) i) as [id Hid].
    { rewrite (m_len _ _ _ _ Hkm). unfold bundleKeyEntities. rewrite length_fmap. by eapply lookup_lt_Some. }
    apply (Hv (k, id)). apply zip_elem. eauto.
  - intros Hadd. apply Ha. by rewrite Hadd.
Qed.

Lemma ids_of_refsFor items ids : ids_of (refsFor items ids) = ids.
Proof. unfold ids_of, refsFor. rewrite <-list_fmap_compose. apply list_fmap_id. Qed.

(** [KeyUpdates] by element: the entry, the identity it bound, its row. *)
Lemma updates_elem b cur res em gm km u :
  planned b cur res em gm km → u ∈ KeyUpdates res ↔
  ∃ k id c i, (k, id) ∈ zip (b_keys b) (boundDBID km) ∧ id ≠ ""
    ∧ list_find (λ c, c_id c = id) (s_keys cur) = Some (i, c)
    ∧ u = diffKey c k (identities (b_envs b) (boundDBID em) ∅) (identities (b_groups b) (boundDBID gm) ∅)
    ∧ changed u = true.
Proof.
  intros Hp. rewrite (pn_ku _ _ _ _ _ _ Hp), list_elem_of_omap. split.
  - intros ([k id] & Hin & Hu). unfold key_update in Hu. simpl in Hu. case_bool_decide as Hid; [done|].
    destruct (list_find _ _) as [[i c]|] eqn:Ef; [|done]. simpl in Hu.
    destruct (changed _) eqn:Ec; [|done]. injection Hu as <-. exists k, id, c, i. done.
  - intros (k & id & c & i & Hin & Hid & Hf & -> & Hc). exists (k, id). split; [done|].
    unfold key_update. simpl. rewrite bool_decide_eq_false_2 by done. rewrite Hf. simpl. by rewrite Hc.
Qed.

Lemma key_zip l (ids : list string) (k : Key) id :
  (k, id) ∈ zip l ids → (mkEntity (k_id k) (k_name k), id) ∈ zip (bundleKeyEntities l) ids.
Proof.
  intros (i & Hi & Hi')%zip_elem. apply zip_elem. exists i. split; [|done].
  unfold bundleKeyEntities. by rewrite list_lookup_fmap, Hi.
Qed.

Lemma key_zip_inv l (ids : list string) e id :
  (e, id) ∈ zip (bundleKeyEntities l) ids →
  ∃ k, (k, id) ∈ zip l ids ∧ e = mkEntity (k_id k) (k_name k).
Proof.
  intros (i & Hi & Hi')%zip_elem. unfold bundleKeyEntities in Hi. rewrite list_lookup_fmap, fmap_Some in Hi.
  destruct Hi as (k & Hk & ->). exists k. split; [apply zip_elem; eauto|done].
Qed.

Lemma updates_ids b cur res em gm km :
  planned b cur res em gm km → NoDup (u_id <$> KeyUpdates res).
Proof.
  intros Hp. apply NoDup_fmap_on.
  - rewrite (pn_ku _ _ _ _ _ _ Hp). apply omap_NoDup.
    + apply (NoDup_fmap_1 (k_name ∘ fst)). rewrite list_fmap_compose, fst_zip.
      * pose proof (m_names _ _ _ _ (pn_key _ _ _ _ _ _ Hp)) as Hn. unfold bundleKeyEntities in Hn.
        by rewrite <-list_fmap_compose in Hn.
      * rewrite (m_len _ _ _ _ (pn_key _ _ _ _ _ _ Hp)). unfold bundleKeyEntities. by rewrite length_fmap.
    + intros [k id] [k' id'] u Hin Hin' Hu Hu'. unfold key_update in *. simpl in *.
      do 2 (case_bool_decide; [done|]).
      destruct (list_find (λ c, c_id c = id) _) as [[i c]|] eqn:Ef; [|done].
      destruct (list_find (λ c, c_id c = id') _) as [[i' c']|] eqn:Ef'; [|done]. simpl in *.
      apply list_find_Some in Ef as (_ & Ec & _). apply list_find_Some in Ef' as (_ & Ec' & _).
      destruct (changed (diffKey c _ _ _)), (changed (diffKey c' _ _ _)); try done.
      injection Hu as <-. injection Hu' as E _ E' _. congruence.
  - intros u u' (k & id & c & i & Hin & Hid & Hf & -> & _)%(updates_elem _ _ _ _ _ _ _ Hp)
      (k' & id' & c' & i' & Hin' & Hid' & Hf' & -> & _)%(updates_elem _ _ _ _ _ _ _ Hp). simpl.
    pose proof (proj1 (list_find_Some _ _ _ _) Hf) as (_ & Ec & _).
    pose proof (proj1 (list_find_Some _ _ _ _) Hf') as (_ & Ec' & _).
    rewrite Ec, Ec'. intros <-. rewrite Hf in Hf'. injection Hf' as <- <-.
    apply zip_elem in Hin as (j & Hj & Hj'), Hin' as (j' & Hk & Hk').
    rewrite (m_inj _ _ _ _ (pn_key _ _ _ _ _ _ Hp) _ _ _ Hj' Hk' Hid) in Hj. congruence.
Qed.
End plan.

(** ** One kind, from the deletes to the creates *)

Section kind_start.
Context (bundle current : list entity) (additive : bool) (m : kindMatch).
Context (Hwf : wf_entities current) (Hm : matched bundle current additive m).
Context (Hadd : additive = true → no_ids bundle).

Abbreviation F := (final_names bundle current additive (boundDBID m)).

(** The names the deletes leave, and then parking the identities [ids]. *)
Lemma flight_start (ids : list string) (U : gset string) (N N' : gmap string string) :
  (∀ id n, N !! id = Some n ↔ mkEntity id n ∈ current ∧ (id ∉ deletes m)) →
  (∀ id n, id ∉ ids → F !! id = Some n → mkEntity id n ∈ current) →
  (∀ id, id ∈ ids → is_Some (F !! id)) → (∀ id n, F !! id = Some n → n ∈ U) →
  (∀ id, id ∉ ids → N' !! id = N !! id) → (∀ id, id ∈ ids → ∃ t, N' !! id = Some t ∧ (t ∉ U)) →
  in_flight F (list_to_set ids) U N'.
Proof.
  intros HN Hkept Hdom HU Hout Hin. split.
  - intros id Hid. rewrite elem_of_list_to_set in Hid. rewrite Hout by done. apply option_eq. intros n.
    rewrite HN. split.
    + intros [Hc Hd]. assert (is_Some (F !! id)) as [n' Hn'].
      { apply final_names_dom; [done..|]. split; [|done]. apply list_elem_of_fmap. by exists (mkEntity id n). }
      pose proof (Hkept id n' Hid Hn') as Hc'.
      assert (mkEntity id n = mkEntity id n') as [= <-]; [|done].
      eapply (NoDup_fmap_elem ent_id); [apply Hwf|done|done|done].
    + intros Hn. split; [by apply Hkept|]. eapply final_names_dom; [done..|]. by eexists.
  - intros id Hid. rewrite elem_of_list_to_set in Hid. auto.
  - intros id Hid. rewrite elem_of_list_to_set in Hid. auto.
  - intros i j n Hi Hj. by eapply final_names_inj.
  - done.
Qed.

Lemma filter_ids_lookup (l : list Ref) : ∀ (M : gmap string string) n id,
  foldl (λ m del, filter (λ kv : string * string, kv.2 ≠ ent_id del) m) M l !! n = Some id
    ↔ M !! n = Some id ∧ (id ∉ ids_of l).
Proof.
  induction l as [|d l IH]; intros M n id; simpl; [set_solver|]. rewrite IH, map_lookup_filter_Some. simpl.
  rewrite not_elem_of_cons. naive_solver.
Qed.

(** The index kept after the deletes. *)
Lemma liveIDs_ok ids :
  (∀ id n, id ∉ ids → F !! id = Some n → mkEntity id n ∈ current) →
  index_ok F (list_to_set ids) (liveIDs current (refsFor current (deletes m))).
Proof.
  intros Hkept id n Hn Hid. rewrite elem_of_list_to_set in Hid. unfold liveIDs.
  rewrite filter_ids_lookup, ids_of_refsFor. split; [by apply byName_entity; auto|].
  eapply final_names_dom; [done..|]. by eexists.
Qed.

Lemma creates_unclaimed U :
  (∀ n, n ∈ (topology current bundle (boundDBID m)).1 → n ∈ U) →
  unclaimed F U (topology current bundle (boundDBID m)).1.
Proof.
  intros HU n Hn. split; [auto|]. intros i. apply topology_creates in Hn as (e & Hp & <-). by eapply create_not_final.
Qed.

(** A final name is an entry's or a name of the current state. *)
Lemma final_used id n :
  F !! id = Some n →
  n ∈ rn_to <$> (topology current bundle (boundDBID m)).2 ∨ n ∈ ent_name <$> current.
Proof.
  intros Hn. destruct (decide (id ∈ rn_id <$> (topology current bundle (boundDBID m)).2)) as [Hr|Hr].
  - apply list_elem_of_fmap in Hr as (r & -> & Hr). left. pose proof (final_names_renamed _ _ _ _ _ Hwf Hm Hr) as Hf.
    rewrite Hf in Hn. injection Hn as <-. apply list_elem_of_fmap. eauto.
  - right. apply list_elem_of_fmap. exists (mkEntity id n). split; [done|]. by eapply final_names_kept.
Qed.
End kind_start.

(** ** The phases *)

Section phases.
Context `{SchemaLang, !SchemaLaws} {A : Type} `{AccessAdmin A} `{Blame}.
Context (newid : string → nat → option string).
Context (newid_inj : ∀ p p' n n' id, newid p n = Some id → newid p' n' = Some id → n = n').
Context (b : Bundle) (cur : CurrentState) (res : Resolution) (em gm km : kindMatch) (s0 : Project A).
Context (Hok : catalogue_ok s0) (Hrd : reads s0 cur) (Hb : canonical b) (Hpn : planned b cur res em gm km).
Implicit Types s : Project A.

Local Abbreviation FE := (final_names (b_envs b) (s_envs cur) (Additive b) (boundDBID em)).
Local Abbreviation FG := (final_names (b_groups b) (s_groups cur) (Additive b) (boundDBID gm)).
Local Abbreviation FK := (final_names (bundleKeyEntities (b_keys b)) (currentKeyEntities (s_keys cur)) (Additive b) (boundDBID km)).
Local Abbreviation U := (used_names res cur).

Lemma key_no_ids : Additive b = true → no_ids (bundleKeyEntities (b_keys b)).
Proof.
  intros Ha e (k & -> & Hk)%list_elem_of_fmap. simpl. by apply (cb_no_ids _ Hb).
Qed.

Lemma current_key_elem id n :
  mkEntity id n ∈ currentKeyEntities (s_keys cur) ↔ (kr_name <$> keys s0) !! id = Some n.
Proof.
  unfold currentKeyEntities. rewrite list_elem_of_fmap, lookup_fmap, fmap_Some. split.
  - intros (c & [= -> ->] & Hc). apply (rd_key _ _ Hrd) in Hc as (r & n & Hr & _ & Ec). exists r.
    split; [done|]. by rewrite Ec.
  - intros (r & Hr & ->). destruct (ko_decl _ _ _ (ok_keys _ Hok id r Hr)) as (n & Hp & _).
    exists (read_key s0 id r n). split; [done|]. apply (rd_key _ _ Hrd). simpl. eauto.
Qed.

(** A bound key's row, as the diff reads it. *)
Lemma bound_key k id :
  (k, id) ∈ zip (b_keys b) (boundDBID km) → id ≠ "" →
  ∃ i r n, keys s0 !! id = Some r ∧ ParseDeclaration (kr_decl r) = Some n
    ∧ list_find (λ c, c_id c = id) (s_keys cur) = Some (i, read_key s0 id r n).
Proof.
  intros Hz Hid. pose proof (pn_key _ _ _ _ _ _ Hpn) as Hm.
  assert (id ∈ ent_id <$> currentKeyEntities (s_keys cur)) as Hin.
  { apply zip_elem in Hz as (i & _ & Hi). by eapply (m_in _ _ _ _ Hm). }
  apply list_elem_of_fmap in Hin as ([id' n] & -> & Hin). simpl in *.
  destruct (list_find (λ c, c_id c = id') (s_keys cur)) as [[i c]|] eqn:Ef.
  - pose proof (proj1 (list_find_Some _ _ _ _) Ef) as (Hi & Hc & _).
    apply list_elem_of_lookup_2, (rd_key _ _ Hrd) in Hi as (r & d & Hr & Hp & Ec). rewrite Hc in *.
    exists i, r, d. split_and!; [done|done|]. by rewrite <-Ec.
  - apply list_find_None in Ef. rewrite Forall_forall in Ef.
    unfold currentKeyEntities in Hin. apply list_elem_of_fmap in Hin as (c & [= -> ->] & Hc). by destruct (Ef c Hc).
Qed.

(** The renamed keys are the parked ones. *)
Lemma parked_elem id n :
  (id, n) ∈ parkedKeys res → FK !! id = Some n.
Proof.
  unfold parkedKeys. rewrite list_elem_of_fmap. intros (u & [= -> ->] & Hu).
  apply list_elem_of_filter in Hu as [_ Hu].
  apply (updates_elem _ _ _ _ _ _ _ Hpn) in Hu as (k & id & c & i & Hz & Hid & Hf & -> & _). simpl.
  apply list_find_Some in Hf as (_ & -> & _). apply final_names_spec; [apply Hrd|apply Hpn|]. left.
  exists (mkEntity (k_id k) (k_name k)). split; [by apply key_zip|done].
Qed.

Lemma parked_kept id n :
  id ∉ (parkedKeys res).*1 → FK !! id = Some n → mkEntity id n ∈ currentKeyEntities (s_keys cur).
Proof.
  intros Hid Hn. apply final_names_spec in Hn as [(e & Hz & Hne & <-)|(_ & Hc & _)]; [|done|apply Hrd|apply Hpn].
  apply key_zip_inv in Hz as (k & Hz & ->). simpl.
  destruct (bound_key k id Hz Hne) as (i & r & d & Hr & Hp & Hf).
  destruct (decide (kr_name r = k_name k)) as [E|E].
  { apply current_key_elem. by rewrite lookup_fmap, Hr, <-E. }
  exfalso. apply Hid. apply list_elem_of_fmap. exists (id, k_name k). split; [done|].
  unfold parkedKeys. apply list_elem_of_fmap.
  exists (diffKey (read_key s0 id r d) k (identities (b_envs b) (boundDBID em) ∅) (identities (b_groups b) (boundDBID gm) ∅)).
  split; [done|]. apply list_elem_of_filter. simpl. split; [by apply bool_decide_eq_true|].
  apply (updates_elem _ _ _ _ _ _ _ Hpn). exists k, id, (read_key s0 id r d), i. split_and!; [done..|].
  unfold changed. simpl. by rewrite bool_decide_eq_true_2.
Qed.

Lemma parked_nodup : NoDup (parkedKeys res).*1.
Proof.
  unfold parkedKeys. rewrite <-list_fmap_compose.
  eapply sublist_NoDup; [by eapply (updates_ids _ _ _ _ _ _ Hpn)|]. apply (fmap_sublist u_id), sublist_filter.
Qed.

(** Final names are among the names temporaries avoid. *)
Lemma env_used id n : FE !! id = Some n → n ∈ U.
Proof.
  intros Hn. apply final_used in Hn; [|apply Hrd|apply Hpn]. unfold used_names. rewrite (pn_er _ _ _ _ _ _ Hpn).
  rewrite !elem_of_union, !elem_of_list_to_set. tauto.
Qed.
Lemma group_used id n : FG !! id = Some n → n ∈ U.
Proof.
  intros Hn. apply final_used in Hn; [|apply Hrd|apply Hpn]. unfold used_names. rewrite (pn_gr _ _ _ _ _ _ Hpn).
  rewrite !elem_of_union, !elem_of_list_to_set. tauto.
Qed.
Lemma key_used id n : FK !! id = Some n → n ∈ U.
Proof.
  intros Hn. unfold used_names. rewrite !elem_of_union, !elem_of_list_to_set.
  destruct (decide (id ∈ (parkedKeys res).*1)) as [Hp|Hp].
  - apply list_elem_of_fmap in Hp as ([id' n'] & -> & Hp). pose proof (parked_elem _ _ Hp) as Hf. simpl in Hn.
    rewrite Hf in Hn. injection Hn as ->. right. unfold parkedKeys in Hp.
    apply list_elem_of_fmap in Hp as (u & [= -> ->] & Hu). apply list_elem_of_filter in Hu as [_ Hu].
    apply list_elem_of_fmap. eauto.
  - pose proof (parked_kept id n Hp Hn) as Hc. unfold currentKeyEntities in Hc.
    apply list_elem_of_fmap in Hc as (c & [= -> ->] & Hc).
    do 6 left. right. apply list_elem_of_fmap. eauto.
Qed.

(** *** Deletes *)

Record deleted s : Prop := {
  de_env : ∀ id n, env_names s !! id = Some n ↔ mkEntity id n ∈ s_envs cur ∧ (id ∉ deletes em);
  de_group : ∀ id n, groups s !! id = Some n ↔ mkEntity id n ∈ s_groups cur ∧ (id ∉ deletes gm);
  de_keys : ∀ id, keys s !! id = if bool_decide (id ∈ deletes km) then None else released (deletes gm) <$> keys s0 !! id;
  de_presence : ∀ row, row ∈ presence s ↔ row ∈ presence s0 ∧ (pr_key row ∉ deletes km) ∧ (pr_env row ∉ deletes em);
  de_minted : minted s = minted s0;
  de_in_use : in_use s ⊆ in_use s0;
  de_rows : ∀ id, id ∉ deletes em → envs s !! id = envs s0 !! id;
}.

Lemma deleted_in {X} (current : list entity) bundle m (t : gmap string X) :
  matched bundle current (Additive b) m → (∀ id n, mkEntity id n ∈ current → is_Some (t !! id)) →
  ∀ id, id ∈ deletes m → is_Some (t !! id).
Proof.
  intros Hm Ht id Hid. apply (m_deletes _ _ _ _ Hm) in Hid as (_ & Hin & _).
  apply list_elem_of_fmap in Hin as ([i n] & -> & Hc). by eapply Ht.
Qed.

Lemma current_env id n : mkEntity id n ∈ s_envs cur → is_Some (envs s0 !! id).
Proof. intros Hc. apply (rd_env _ _ Hrd) in Hc. rewrite lookup_fmap, fmap_Some in Hc. naive_solver. Qed.
Lemma current_group id n : mkEntity id n ∈ s_groups cur → is_Some (groups s0 !! id).
Proof. intros Hc. apply (rd_group _ _ Hrd) in Hc. by eexists. Qed.
Lemma current_key id n : mkEntity id n ∈ currentKeyEntities (s_keys cur) → is_Some (keys s0 !! id).
Proof. intros Hc%current_key_elem. rewrite lookup_fmap, fmap_Some in Hc. naive_solver. Qed.

Lemma dom_without {X Y} (t : gmap string X) (t' : gmap string Y) :
  (∀ id, is_Some (t' !! id) → is_Some (t !! id)) → dom t' ⊆ dom t.
Proof. intros Ht id. rewrite !elem_of_dom. auto. Qed.

Lemma deletes_ok (Q : Project A → Prop) (k : M (Project A) DefError unit) :
  (∀ s, deleted s → succeeds k s (λ _, Q)) →
  succeeds (bind (for_each (KeyDeletes res) deleteKey) (λ _,
            bind (for_each (GroupDeletes res) deleteGroup) (λ _,
            bind (for_each (EnvDeletes res) deleteEnv) (λ _, k)))) s0 (λ _, Q).
Proof.
  intros Hk. rewrite (pn_kd _ _ _ _ _ _ Hpn), (pn_gd _ _ _ _ _ _ Hpn), (pn_ed _ _ _ _ _ _ Hpn).
  apply succeeds_bind. eapply succeeds_mono; [apply (deleteKeys_ok newid); rewrite ids_of_refsFor|].
  { apply (pn_key _ _ _ _ _ _ Hpn). }
  { eapply deleted_in; [apply Hpn|]. intros. by eapply current_key. }
  intros ? s1 [D1 D2 D3 D4 D5]. rewrite ids_of_refsFor in *.
  apply succeeds_bind. eapply succeeds_mono; [apply (deleteGroups_ok newid); rewrite ids_of_refsFor|].
  { apply (pn_group _ _ _ _ _ _ Hpn). }
  { rewrite D2. eapply deleted_in; [apply Hpn|]. intros. by eapply current_group. }
  intros ? s2 [G1 G2 G3 G4 G5]. rewrite ids_of_refsFor in *.
  apply succeeds_bind. eapply succeeds_mono; [apply (deleteEnvs_ok newid); rewrite ids_of_refsFor|].
  { apply (pn_env _ _ _ _ _ _ Hpn). }
  { rewrite G1, D1. eapply deleted_in; [apply Hpn|]. intros. by eapply current_env. }
  intros ? s3 [E1 E2 E3 E4 E5]. rewrite ids_of_refsFor in *. apply Hk. split.
  - intros id n. unfold env_names. rewrite lookup_fmap, E4, G1, D1, (rd_env _ _ Hrd), lookup_fmap.
    case_bool_decide; [naive_solver|]. tauto.
  - intros id n. rewrite E1, G4, D2, (rd_group _ _ Hrd). case_bool_decide; [naive_solver|]. tauto.
  - intros id. rewrite E2, G5, D4. by case_bool_decide.
  - intros row. rewrite E5, G2, D5. tauto.
  - by rewrite E3, G3, D3.
  - unfold in_use. assert (dom (envs s3) ⊆ dom (envs s0)) as X1.
    { apply dom_without. intros id. rewrite E4, G1, D1. case_bool_decide; [by intros [? ?]|done]. }
    assert (dom (groups s3) ⊆ dom (groups s0)) as X2.
    { apply dom_without. intros id. rewrite E1, G4, D2. case_bool_decide; [by intros [? ?]|done]. }
    assert (dom (keys s3) ⊆ dom (keys s0)) as X3.
    { apply dom_without. intros id. rewrite E2, G5, D4.
      case_bool_decide; simpl; [by intros [? ?]|by rewrite fmap_is_Some]. }
    set_solver.
  - intros id Hid. by rewrite E4, G1, D1, bool_decide_eq_false_2.
Qed.

(** *** Parking *)

Local Abbreviation PE := (list_to_set (rn_id <$> EnvRenames res) : gset string).
Local Abbreviation PG := (list_to_set (rn_id <$> GroupRenames res) : gset string).
Local Abbreviation PK := (list_to_set (parkedKeys res).*1 : gset string).

(** The tables but for the names. *)
Definition same_rows s s' : Prop :=
  env_marks s' = env_marks s ∧ dom (groups s') = dom (groups s) ∧ presence s' = presence s
  ∧ anon <$> keys s' = anon <$> keys s ∧ minted s' = minted s.

Record parked s s' : Prop := {
  pk_env : in_flight FE PE U (env_names s');
  pk_group : in_flight FG PG U (groups s');
  pk_key : in_flight FK PK U (key_names s');
  pk_rows : same_rows s s';
}.

Lemma renames_dom bundle current m id :
  wf_entities current → matched bundle current (Additive b) m →
  id ∈ rn_id <$> (topology current bundle (boundDBID m)).2 →
  is_Some (final_names bundle current (Additive b) (boundDBID m) !! id).
Proof.
  intros Hwf Hm (r & -> & Hr)%list_elem_of_fmap. rewrite (final_names_renamed _ _ _ _ _ Hwf Hm Hr). by eexists.
Qed.

Lemma deleted_key s id n :
  deleted s → key_names s !! id = Some n ↔ mkEntity id n ∈ currentKeyEntities (s_keys cur) ∧ (id ∉ deletes km).
Proof.
  intros D. rewrite current_key_elem. unfold key_names. rewrite !lookup_fmap, (de_keys _ D). unfold released.
  case_bool_decide; simpl; [naive_solver|]. destruct (keys s0 !! id) as [r|]; simpl; [|naive_solver].
  case_bool_decide; simpl; naive_solver.
Qed.

(** Parking needs its identities to be there: they have a final name. *)
Lemma park_dom bundle current m (N : gmap string string) id :
  wf_entities current → matched bundle current (Additive b) m →
  (∀ id n, N !! id = Some n ↔ mkEntity id n ∈ current ∧ (id ∉ deletes m)) →
  is_Some (final_names bundle current (Additive b) (boundDBID m) !! id) → is_Some (N !! id).
Proof.
  intros Hwf Hm HN Hf. apply final_names_dom in Hf as [Hin Hd]; [|done..].
  apply list_elem_of_fmap in Hin as ([i n] & -> & Hc). exists n. by apply HN.
Qed.

Lemma park_ok_env s :
  deleted s → succeeds (park renameEnv (rn_id <$> EnvRenames res) U 0) s (λ uc s',
    U ⊆ uc.1 ∧ in_flight FE PE U (env_names s') ∧ env_frame s s').
Proof.
  intros D. eapply succeeds_mono; [eapply (park_ok newid renameEnv env_names env_frame env_frame_trans env_frame_same)|].
  - intros. by apply renameEnv_ok.
  - rewrite (pn_er _ _ _ _ _ _ Hpn). eapply topology_renames_nodup. apply Hpn.
  - intros id Hid. rewrite (pn_er _ _ _ _ _ _ Hpn) in Hid. eapply park_dom; [apply Hrd|apply Hpn|apply D|].
    eapply renames_dom; [apply Hrd|apply Hpn|done].
  - intros id n Hn. apply (de_env _ D) in Hn as [Hc _]. unfold used_names.
    rewrite !elem_of_union, !elem_of_list_to_set. do 8 left. apply list_elem_of_fmap. by exists (mkEntity id n).
  - intros uc s' (Hout & Hin & Hu & Hf). split_and!; [done| |done].
    eapply flight_start; [apply Hrd|apply Hpn|apply Hb|apply D| | |apply env_used|done|done].
    + intros id n Hid. eapply final_names_kept; [apply Hrd|apply Hpn|by rewrite <-(pn_er _ _ _ _ _ _ Hpn)].
    + intros id Hid. eapply renames_dom; [apply Hrd|apply Hpn|by rewrite <-(pn_er _ _ _ _ _ _ Hpn)].
Qed.

Lemma park_ok_group s V c :
  (∀ id n, groups s !! id = Some n ↔ mkEntity id n ∈ s_groups cur ∧ (id ∉ deletes gm)) → U ⊆ V →
  succeeds (park Catalogue_RenameGroup (rn_id <$> GroupRenames res) V c) s (λ uc s',
    V ⊆ uc.1 ∧ in_flight FG PG U (groups s') ∧ group_frame s s').
Proof.
  intros HN HV. eapply succeeds_mono;
    [eapply (park_ok newid Catalogue_RenameGroup groups group_frame group_frame_trans group_frame_same)|].
  - intros. by apply renameGroup_ok.
  - rewrite (pn_gr _ _ _ _ _ _ Hpn). eapply topology_renames_nodup. apply Hpn.
  - intros id Hid. rewrite (pn_gr _ _ _ _ _ _ Hpn) in Hid. eapply park_dom; [apply (rd_wf_group _ _ Hrd)|apply (pn_group _ _ _ _ _ _ Hpn)|done|].
    eapply renames_dom; [apply Hrd|apply Hpn|done].
  - intros id n Hn. apply HN in Hn as [Hc _]. apply HV. unfold used_names.
    rewrite !elem_of_union, !elem_of_list_to_set. do 7 left. right. apply list_elem_of_fmap. by exists (mkEntity id n).
  - intros uc s' (Hout & Hin & Hu & Hf). split_and!; [done| |done].
    eapply flight_start; [apply Hrd|apply Hpn|apply Hb|exact HN| | |apply group_used|done|].
    + intros id n Hid. eapply final_names_kept; [apply Hrd|apply Hpn|by rewrite <-(pn_gr _ _ _ _ _ _ Hpn)].
    + intros id Hid. eapply renames_dom; [apply Hrd|apply Hpn|by rewrite <-(pn_gr _ _ _ _ _ _ Hpn)].
    + intros id Hid. destruct (Hin id Hid) as (t & ? & ?). exists t. split; [done|]. set_solver.
Qed.

Lemma park_ok_key s V c :
  (∀ id n, key_names s !! id = Some n ↔ mkEntity id n ∈ currentKeyEntities (s_keys cur) ∧ (id ∉ deletes km)) → U ⊆ V →
  succeeds (park Catalogue_Rename (parkedKeys res).*1 V c) s (λ uc s',
    in_flight FK PK U (key_names s') ∧ key_frame s s').
Proof.
  intros HN HV. assert (∀ id, id ∈ (parkedKeys res).*1 → is_Some (FK !! id)) as Hdom.
  { intros id Hid. apply list_elem_of_fmap in Hid as ([i n] & -> & Hin). apply parked_elem in Hin. by eexists. }
  eapply succeeds_mono;
    [eapply (park_ok newid Catalogue_Rename key_names key_frame key_frame_trans key_frame_same)|].
  - intros. by apply renameKey_ok.
  - apply parked_nodup.
  - intros id Hid. eapply park_dom; [apply (rd_wf_key _ _ Hrd)|apply (pn_key _ _ _ _ _ _ Hpn)|done|auto].
  - intros id n Hn. apply HN in Hn as [Hc _]. apply HV. unfold used_names.
    rewrite !elem_of_union, !elem_of_list_to_set. do 6 left. right.
    unfold currentKeyEntities in Hc. apply list_elem_of_fmap in Hc as (c' & [= -> ->] & Hc).
    apply list_elem_of_fmap. eauto.
  - intros uc s' (Hout & Hin & Hu & Hf). split; [|done].
    eapply flight_start; [apply Hrd|apply Hpn|apply key_no_ids|exact HN|apply parked_kept|done|apply key_used|done|].
    intros id Hid. destruct (Hin id Hid) as (t & ? & ?). exists t. split; [done|]. set_solver.
Qed.

Lemma parkRenames_ok s :
  deleted s → succeeds (parkRenames res cur) s (λ out s', out = parkedKeys res ∧ parked s s').
Proof.
  intros D. unfold parkRenames. apply succeeds_bind. eapply succeeds_mono; [by apply park_ok_env|].
  intros [V c] s1 (HV & F1 & (E1 & E2 & E3 & E4 & E5)). apply succeeds_bind.
  eapply succeeds_mono; [apply park_ok_group; [rewrite E1; apply D|done]|].
  intros [V' c'] s2 (HV' & F2 & (G1 & G2 & G3 & G4 & G5)). apply succeeds_bind. simpl in *.
  eapply succeeds_mono; [apply park_ok_key; [|set_solver]|].
  { intros id n. unfold key_names. rewrite G2, E2. by apply deleted_key. }
  intros ? s3 (F3 & (K1 & K2 & K3 & K4 & K5)). apply wp_ret. split; [done|]. split.
  - unfold env_names in *. by rewrite K1, G1.
  - by rewrite K2.
  - done.
  - split_and!; [unfold env_marks in *; by rewrite K1, G1|by rewrite K2, G4, E1|congruence|by rewrite K4, G2, E2|congruence].
Qed.

(** An additive bundle binds by name only. *)
Lemma additive_no_renames bundle current additive m :
  wf_entities current → matched bundle current additive m → no_ids bundle →
  (topology current bundle (boundDBID m)).2 = [].
Proof.
  intros Hwf Hm Hno. destruct (topology current bundle (boundDBID m)).2 as [|r l] eqn:E; [done|]. exfalso.
  assert (r ∈ (topology current bundle (boundDBID m)).2) as Hr by (rewrite E; by left).
  apply topology_renames in Hr as (e & Hp & Hid & Hf & Hne & Ht). apply Hne. rewrite Hf, Ht.
  apply nameFor_elem; [done|]. apply zip_elem in Hp as (i & Hi & Hi').
  eapply (m_byname _ _ _ _ Hm); [done|done|by apply Hno, (list_elem_of_lookup_2 _ _ _ Hi)|done].
Qed.

(** *** Creates and final names *)

Lemma finishKeys_ok F V l : ∀ s,
  in_flight F (list_to_set l.*1) V (key_names s) → NoDup l.*1 → (∀ id n, (id, n) ∈ l → F !! id = Some n) →
  succeeds (for_each l (finishKey res)) s (λ _ s', key_names s' = F ∧ key_frame s s').
Proof.
  induction l as [|[id n] l IH]; intros s Hfl Hnd Hl; simpl.
  { apply wp_ret. split; [by eapply in_flight_landed|]. by apply key_frame_same. }
  simpl in *. rewrite NoDup_cons in Hnd. destruct Hnd as [Hid Hnd].
  assert (F !! id = Some n) as Hn by (apply Hl; by left).
  apply succeeds_bind. unfold finishKey. apply succeeds_bind. simpl.
  eapply succeeds_mono; [apply renameKey_ok|].
  - destruct (fl_parked _ _ _ _ Hfl id) as (t & -> & _); [set_solver|by eexists].
  - by eapply in_flight_free.
  - intros ? s1 (N1 & F1). apply succeeds_event. intros s2 Hs2. pose proof (key_frame_same _ _ Hs2) as [N2 F2].
    eapply succeeds_mono; [apply IH; [|done|intros; apply Hl; by right]|].
    + rewrite N2, N1. apply (in_flight_land newid _ _ _ _ _ _ Hfl) in Hn.
      replace (list_to_set l.*1 : gset string) with (({[id]} ∪ list_to_set l.*1 : gset string) ∖ {[id]}); [done|set_solver].
    + intros ? s3 (N3 & F3). split; [done|]. eapply key_frame_trans; [exact F1|]. by eapply key_frame_trans.
Qed.

(** One kind's table once it is complete. *)
Record complete (bundle current : list entity) (m : kindMatch) (N ids : gmap string string) : Prop := {
  cm_inj : names_inj N;
  cm_old : final_names bundle current (Additive b) (boundDBID m) ⊆ N;
  cm_new : ∀ n, n ∈ (topology current bundle (boundDBID m)).1 → ∃ id, N !! id = Some n;
  cm_only : ∀ id n, N !! id = Some n →
    final_names bundle current (Additive b) (boundDBID m) !! id = Some n
    ∨ (n ∈ (topology current bundle (boundDBID m)).1 ∧ id_ok id);
  cm_index : index_ok N ∅ ids;
}.

Lemma created_complete bundle current m F' P V N ids ids' :
  created (final_names bundle current (Additive b) (boundDBID m)) F' P V
    (topology current bundle (boundDBID m)).1 N ids → index_ok F' ∅ ids' →
  complete bundle current m F' ids'.
Proof. intros [C1 C2 C3 C4 C5] Hi. split; [apply C1|done..]. Qed.

(** The state the key phases start from. *)
Record arranged (eids gids : gmap string string) s : Prop := {
  ar_env : complete (b_envs b) (s_envs cur) em (env_names s) eids;
  ar_group : complete (b_groups b) (s_groups cur) gm (groups s) gids;
  ar_key : key_names s = FK;
  ar_rows : ∀ id r, keys s !! id = Some r → ∃ r0, keys s0 !! id = Some r0 ∧ anon r = anon (released (deletes gm) r0);
  ar_presence : ∀ row, row ∈ presence s ↔
    row ∈ presence s0 ∧ (pr_key row ∉ deletes km) ∧ (pr_env row ∉ deletes em);
  ar_fresh : fresh newid s;
  ar_marks : ∀ id r, envs s0 !! id = Some r → id ∉ deletes em →
    ∃ r', envs s !! id = Some r' ∧ env_mark r' = env_mark r;
}.

Lemma in_use_rows s s' : same_rows s s' → in_use s' = in_use s.
Proof. intros (E1 & E2 & _ & E4 & _). unfold in_use. by rewrite (env_marks_dom _ _ E1), E2, (anon_dom _ _ E4). Qed.

Lemma rows_deleted s s' :
  deleted s → anon <$> keys s' = anon <$> keys s →
  ∀ id r, keys s' !! id = Some r → ∃ r0, keys s0 !! id = Some r0 ∧ anon r = anon (released (deletes gm) r0).
Proof.
  intros D E id r Hr. assert ((anon <$> keys s') !! id = Some (anon r)) as Ha by (by rewrite lookup_fmap, Hr).
  rewrite E, lookup_fmap, (de_keys _ D) in Ha. case_bool_decide; [done|].
  destruct (keys s0 !! id) as [r0|]; [|done]. apply (inj Some) in Ha. eauto.
Qed.

(** The index and the names agree on the renamed identities. *)
Lemma renamed_final bundle current m F' :
  wf_entities current → matched bundle current (Additive b) m →
  final_names bundle current (Additive b) (boundDBID m) ⊆ F' →
  ∀ r, r ∈ (topology current bundle (boundDBID m)).2 → F' !! rn_id r = Some (rn_to r).
Proof. intros Hwf Hm Hsub r Hr. eapply lookup_weaken; [|done]. by apply final_names_renamed. Qed.

Lemma creates_finish_ok s1 s (Q : Project A → Prop) (k : gmap string string * gmap string string → M (Project A) DefError unit) :
  fresh newid s0 → deleted s1 → parked s1 s →
  (∀ eids gids s', arranged eids gids s' → succeeds (k (eids, gids)) s' (λ _, Q)) →
  succeeds (bind (createEnvs newid (EnvCreates res) (liveIDs (s_envs cur) (EnvDeletes res))) (λ envIDs,
            bind (createGroups newid (GroupCreates res) (liveIDs (s_groups cur) (GroupDeletes res))) (λ groupIDs,
            bind (finishRenames res (parkedKeys res) envIDs groupIDs) k))) s (λ _, Q).
Proof.
  intros Hf D [P1 P2 P3 P4] Hk. pose proof P4 as (R1 & R2 & R3 & R4 & R5).
  assert (fresh newid s) as Hf1.
  { apply (fresh_mono newid s0 s); [rewrite (in_use_rows _ _ P4); apply D|by rewrite R5, (de_minted _ D)|done]. }
  rewrite (pn_ec _ _ _ _ _ _ Hpn), (pn_gc _ _ _ _ _ _ Hpn), (pn_ed _ _ _ _ _ _ Hpn), (pn_gd _ _ _ _ _ _ Hpn).
  apply succeeds_bind. eapply succeeds_mono; [eapply createEnvs_ok; [done|exact P1| | | |done]|].
  { eapply liveIDs_ok; [apply Hrd|apply Hpn|apply Hb|]. intros id n Hid.
    eapply final_names_kept; [apply Hrd|apply Hpn|by rewrite <-(pn_er _ _ _ _ _ _ Hpn)]. }
  { eapply topology_creates_nodup. apply Hpn. }
  { apply creates_unclaimed; [apply Hrd|apply Hpn|apply Hb|]. intros n Hn. unfold used_names.
    rewrite (pn_ec _ _ _ _ _ _ Hpn), !elem_of_union, !elem_of_list_to_set. tauto. }
  intros eids s2 (FE' & C2 & (E1 & E2 & E3 & E4 & E5)). apply succeeds_bind.
  eapply succeeds_mono; [eapply createGroups_ok; [done|rewrite E1; exact P2| | | |by apply E4]|].
  { eapply liveIDs_ok; [apply Hrd|apply Hpn|apply Hb|]. intros id n Hid.
    eapply final_names_kept; [apply Hrd|apply Hpn|by rewrite <-(pn_gr _ _ _ _ _ _ Hpn)]. }
  { eapply topology_creates_nodup. apply Hpn. }
  { apply creates_unclaimed; [apply Hrd|apply Hpn|apply Hb|]. intros n Hn. unfold used_names.
    rewrite (pn_gc _ _ _ _ _ _ Hpn), !elem_of_union, !elem_of_list_to_set. tauto. }
  intros gids s3 (FG' & C3 & (G1 & G2 & G3 & G4)). apply succeeds_bind. unfold finishRenames.
  assert (in_flight FE' PE U (env_names s3)) as FL by (unfold env_names; rewrite G1; apply C2).
  apply succeeds_bind. eapply succeeds_mono;
    [eapply (finishTopology_ok newid renameEnv env_names env_frame env_frame_trans env_frame_same); [|exact FL| | |apply C2]|].
  { intros. by apply renameEnv_ok. }
  { rewrite (pn_er _ _ _ _ _ _ Hpn). eapply topology_renames_nodup. apply Hpn. }
  { rewrite (pn_er _ _ _ _ _ _ Hpn). eapply renamed_final; [apply Hrd|apply Hpn|apply C2]. }
  intros eids' s4 (N4 & I4 & (H41 & H42 & H43 & H44 & H45)).
  apply succeeds_bind. eapply succeeds_mono;
    [eapply (finishTopology_ok newid Catalogue_RenameGroup groups group_frame group_frame_trans group_frame_same);
      [|rewrite H41; apply C3| | |apply C3]|].
  { intros. by apply renameGroup_ok. }
  { rewrite (pn_gr _ _ _ _ _ _ Hpn). eapply topology_renames_nodup. apply Hpn. }
  { rewrite (pn_gr _ _ _ _ _ _ Hpn). eapply renamed_final; [apply Hrd|apply Hpn|apply C3]. }
  intros gids' s5 (N5 & I5 & (H51 & H52 & H53 & H54 & H55)).
  apply succeeds_bind. eapply succeeds_mono; [eapply finishKeys_ok; [|apply parked_nodup|apply parked_elem]|].
  { unfold key_names. rewrite H52, H42, G2, E2. exact P3. }
  intros ? s6 (N6 & (H61 & H62 & H63 & H64 & H65)). apply wp_ret, Hk. split.
  - unfold env_names in *. rewrite H61, H51, N4. by eapply created_complete.
  - rewrite H62, N5. by eapply created_complete.
  - done.
  - eapply rows_deleted; [exact D|]. by rewrite H64, H52, H42, G2, E2.
  - intros row. rewrite H63, H53, H43, G3, E3, R3. apply D.
  - assert (in_use s6 = in_use s3) as X.
    { unfold in_use. by rewrite (anon_dom _ _ H64), H61, H62, H51, H52, H54, H41, H42, (env_marks_dom _ _ H44). }
    apply (fresh_mono newid s3 s6); [by rewrite X|by rewrite H65, H55, H45|]. by apply G4, E4.
  - intros id r Hr Hid. rewrite <-(de_rows _ D id Hid) in Hr.
    assert (env_marks s !! id = Some (env_mark r)) as M by (rewrite R1; unfold env_marks; by rewrite lookup_fmap, Hr).
    unfold env_marks in M. rewrite lookup_fmap, fmap_Some in M. destruct M as (r1 & Hr1 & ->).
    assert (env_marks s6 !! id = Some (env_mark r1)) as M.
    { unfold env_marks. rewrite H61, H51. fold (env_marks s4). rewrite H44. unfold env_marks. rewrite G1, lookup_fmap.
      by rewrite (lookup_weaken _ _ _ _ Hr1 E5). }
    unfold env_marks in M. rewrite lookup_fmap, fmap_Some in M. destruct M as (r' & Hr' & E). by exists r'.
Qed.
End phases.
