(* ===== verification/DefinitionsConverge.v ===== *)
(** * A definitions apply converges

    The key phases over the arranged topology, and with them the whole of
    [executeResolution]: unless something outside the definitions refuses, or
    the bundle contradicts itself or declassifies a secret, the
    catalogue ends well formed, holds every entry of the bundle and, for a
    bundle with a base, nothing else; resolving the bundle again is empty. *)

From stdpp Require Import prelude gmap strings pretty list.
From S2P Require Import Prelude StateErr Presence Definitions DefinitionsMatch Catalogue DefinitionsApply.
From S2P Require Import DefinitionsState DefinitionsRealize DefinitionsExec DefinitionsKeys DefinitionsTopology.

(** ** A rule the diff sees unchanged *)

Lemma presence_same before desired (identity : gmap string string) :
  presenceChanged before desired identity = false → shaped desired → NoDup (Environments before) →
  (∀ n, n ∈ Environments desired → is_Some (identity !! n)) →
  (∀ n n' e, identity !! n = Some e → identity !! n' = Some e → n = n') →
  Mode before = Mode desired ∧ (Mode desired = PresenceExplicit →
    ∀ e, e ∈ Environments before ↔ ∃ n, n ∈ Environments desired ∧ identity !! n = Some e).
Proof.
  intros Hpc Hsh Hnd Hdom Hinj. unfold presenceChanged in Hpc. case_bool_decide as Hm; [done|].
  split; [done|]. intros He. case_bool_decide as Hx; [done|].
  destruct (Nat.eqb _ _) eqn:El; simpl in Hpc; [|done]. apply Nat.eqb_eq in El.
  assert (∀ n, n ∈ Environments desired → default "" (identity !! n) ∈ Environments before) as Hin.
  { intros n Hn. rewrite existsb_false in Hpc. specialize (Hpc n Hn). apply bool_decide_eq_false in Hpc.
    apply dec_stable in Hpc. by rewrite elem_of_list_to_set in Hpc. }
  assert (NoDup (Environments desired)) as Hnd' by (by apply shaped_nodup).
  set (ids := (λ n, default "" (identity !! n)) <$> Environments desired).
  assert (ids ≡ₚ Environments before) as Hperm.
  { apply submseteq_length_Permutation; [|unfold ids; by rewrite length_fmap, El].
    apply NoDup_submseteq.
    - unfold ids. apply NoDup_fmap_on; [done|]. intros x y Hx1 Hy1.
      destruct (Hdom x Hx1) as [e He1], (Hdom y Hy1) as [e' He2]. rewrite He1, He2. simpl. intros <-. by eapply Hinj.
    - intros e (n & -> & Hn)%list_elem_of_fmap. auto. }
  intros e. rewrite <-Hperm. unfold ids. rewrite list_elem_of_fmap. split.
  - intros (n & -> & Hn). exists n. split; [done|]. by destruct (Hdom n Hn) as [? ->].
  - intros (n & Hn & E). exists n. by rewrite E.
Qed.

(** ** Identities of names *)

Section identity.
Context `{SchemaLang} (b : Bundle) (bundle current : list entity) (m : kindMatch).
Context (Hwf : wf_entities current) (Hm : matched bundle current (Additive b) m).
Context (Hids : ∀ id, id ∈ ent_id <$> current → id_ok id).

Lemma identity_dom n : n ∈ ent_name <$> bundle → is_Some (identities bundle (boundDBID m) ∅ !! n).
Proof.
  intros (e & -> & He)%list_elem_of_fmap. destruct (matched_pairs _ _ _ _ Hm e He) as [id Hp].
  eexists. apply (identities_spec _ _ _ _ _ _ Hm). exists e, id. done.
Qed.

(** An identity that is no mark is where the name ends. *)
Lemma identity_final n v :
  identities bundle (boundDBID m) ∅ !! n = Some v → id_ok v →
  final_names bundle current (Additive b) (boundDBID m) !! v = Some n.
Proof.
  intros (e & id & Hp & <- & ->)%(identities_spec _ _ _ _ _ _ Hm) [_ Hid].
  case_bool_decide as Hne; [|by destruct (Hid (ent_name e))].
  apply final_names_spec; [done..|]. left. eauto.
Qed.

Lemma identity_nonempty n v : identities bundle (boundDBID m) ∅ !! n = Some v → v ≠ "".
Proof.
  intros (e & id & Hp & <- & ->)%(identities_spec _ _ _ _ _ _ Hm). by case_bool_decide.
Qed.

Lemma identity_inj n n' v :
  identities bundle (boundDBID m) ∅ !! n = Some v → identities bundle (boundDBID m) ∅ !! n' = Some v → n = n'.
Proof.
  intros (e & id & Hp & <- & E)%(identities_spec _ _ _ _ _ _ Hm) (e' & id' & Hp' & <- & E')%(identities_spec _ _ _ _ _ _ Hm).
  assert (∀ e i, (e, i) ∈ zip bundle (boundDBID m) → i ≠ "" → id_ok i) as Hb.
  { intros e1 i (j & _ & Hj)%zip_elem Hi. eapply Hids, (m_in _ _ _ _ Hm); eauto. }
  destruct (decide (id = "")) as [Hi|Hi], (decide (id' = "")) as [Hi'|Hi'];
    rewrite ?(bool_decide_eq_false_2 (id ≠ "")), ?(bool_decide_eq_true_2 (id ≠ "")) in E by tauto;
    rewrite ?(bool_decide_eq_false_2 (id' ≠ "")), ?(bool_decide_eq_true_2 (id' ≠ "")) in E' by tauto; subst v.
  - by apply (inj (String.append "new:")) in E'.
  - destruct (Hb e' id' Hp') as [_ Hx]; [done|]. by destruct (Hx (ent_name e)).
  - destruct (Hb e id Hp) as [_ Hx]; [done|]. by destruct (Hx (ent_name e')).
  - subst id'. by rewrite (pair_same_id _ _ _ _ _ _ _ Hm Hp Hp').
Qed.

(** The name index of a complete kind. *)
Lemma complete_index N ids n :
  complete b bundle current m N ids → n ∈ ent_name <$> bundle →
  ∃ id, ids !! n = Some id ∧ N !! id = Some n ∧ id ≠ "".
Proof.
  intros Hc (e & -> & He)%list_elem_of_fmap. destruct (matched_pairs _ _ _ _ Hm e He) as [id Hp].
  assert (∃ id, N !! id = Some (ent_name e)) as [i Hi].
  { destruct (decide (id = "")) as [->|Hid].
    - apply (cm_new _ _ _ _ _ _ Hc), topology_creates. eauto.
    - exists id. eapply lookup_weaken, (cm_old _ _ _ _ _ _ Hc). apply final_names_spec; [done..|]. left. eauto. }
  exists i. split_and!; [by apply (cm_index _ _ _ _ _ _ Hc); [|set_solver]|done|].
  destruct (cm_only _ _ _ _ _ _ Hc i _ Hi) as [Hf|[_ [? _]]]; [|done].
  intros ->. assert (is_Some (final_names bundle current (Additive b) (boundDBID m) !! "")) as Hs by (by eexists).
  apply final_names_dom in Hs as [Hin _]; [|done..]. by destruct Hwf as (_ & _ & ?).
Qed.

Lemma complete_ids N ids id :
  complete b bundle current m N ids → is_Some (N !! id) → id_ok id.
Proof.
  intros Hc [n Hn]. destruct (cm_only _ _ _ _ _ _ Hc _ _ Hn) as [Hf|[_ ?]]; [|done].
  apply Hids. eapply final_names_dom; [done..|]. by eexists.
Qed.

Lemma complete_only N ids id n :
  complete b bundle current m N ids → N !! id = Some n →
  n ∈ ent_name <$> bundle ∨ (Additive b = true ∧ mkEntity id n ∈ current).
Proof.
  intros Hc Hn. destruct (cm_only _ _ _ _ _ _ Hc _ _ Hn) as [Hf|[Hf _]].
  - apply final_names_spec in Hf as [(e & Hp & _ & <-)|(? & ? & _)]; [left|by right|done..].
    apply list_elem_of_fmap. exists e. split; [done|]. apply zip_elem in Hp as (i & Hi & _). by eapply list_elem_of_lookup_2.
  - apply topology_creates in Hf as (e & Hp & <-). left. apply list_elem_of_fmap. exists e. split; [done|].
    apply zip_elem in Hp as (i & Hi & _). by eapply list_elem_of_lookup_2.
Qed.

Lemma complete_exact N ids id n :
  Additive b = false → complete b bundle current m N ids → N !! id = Some n → n ∈ ent_name <$> bundle.
Proof. intros Ha Hc Hn. destruct (complete_only N ids id n Hc Hn) as [?|[? _]]; [done|congruence]. Qed.

(** Every entry is there, under its own id where it carries one. *)
Lemma complete_holds N ids e :
  complete b bundle current m N ids → e ∈ bundle →
  ∃ id, N !! id = Some (ent_name e) ∧ (ent_id e ≠ "" → id = ent_id e).
Proof.
  intros Hc He. destruct (matched_pairs _ _ _ _ Hm e He) as [id Hp].
  pose proof Hp as (i & Hi & Hi')%zip_elem. destruct (decide (id = "")) as [->|Hid].
  - destruct (cm_new _ _ _ _ _ _ Hc (ent_name e)) as [j Hj]; [apply topology_creates; eauto|].
    exists j. split; [done|]. intros Hne. by rewrite <-(m_id _ _ _ _ Hm _ _ _ Hi Hi' Hne) in Hne.
  - exists id. split; [|by apply (m_id _ _ _ _ Hm _ _ _ Hi Hi')].
    eapply lookup_weaken, (cm_old _ _ _ _ _ _ Hc). apply final_names_spec; [done..|]. left. eauto.
Qed.

(** An additive bundle keeps every identity under its name. *)
Lemma complete_keeps N ids id n :
  Additive b = true → no_ids bundle → complete b bundle current m N ids →
  mkEntity id n ∈ current → N !! id = Some n.
Proof.
  intros Ha Hno Hc Hin. eapply lookup_weaken, (cm_old _ _ _ _ _ _ Hc).
  assert (id ≠ "") as Hne.
  { intros ->. destruct Hwf as (_ & _ & Hw). apply Hw, list_elem_of_fmap. by exists (mkEntity "" n). }
  apply final_names_spec; [done..|]. destruct (decide (id ∈ boundDBID m)) as [Hb|Hb]; [left|by right].
  apply (pair_bound _ _ _ _ _ Hm) in Hb as [e Hp]. exists e. split_and!; [done..|].
  pose proof Hp as (i & Hi & Hi')%zip_elem.
  pose proof (m_byname _ _ _ _ Hm _ _ _ Hi Hi' (Hno e (list_elem_of_lookup_2 _ _ _ Hi)) Hne) as Hin'.
  assert (mkEntity id n = mkEntity id (ent_name e)) as [= <-]; [|done].
  eapply (NoDup_fmap_elem ent_id); [apply Hwf|done|done|done].
Qed.
End identity.

(** ** The key phases *)

Section keys_phase.
Context `{SchemaLang, !SchemaLaws} {A : Type} `{AccessAdmin A} `{Blame}.
Context (newid : string → nat → option string).
Context (newid_inj : ∀ p p' n n' id, newid p n = Some id → newid p' n' = Some id → n = n').
Context (b : Bundle) (cur : CurrentState) (res : Resolution) (em gm km : kindMatch) (s0 : Project A).
Context (Hok : catalogue_ok s0) (Hrd : reads s0 cur) (Hb : canonical b) (Hpn : planned b cur res em gm km).
Context (Hconflict : ∀ k, k ∈ b_keys b → CheckPresence (k_required k) (k_forbidden k) = Ok tt ∨ conflict_blame).
Context (Hdeclassify : ∀ u, u ∈ KeyUpdates res →
  PrevClassification u = Secret → k_class (u_desired u) = Config → declassify_blame).
Context (eids gids : gmap string string) (s : Project A).
Context (Har : arranged newid b cur em gm km s0 eids gids s).

Local Abbreviation FE := (final_names (b_envs b) (s_envs cur) (Additive b) (boundDBID em)).
Local Abbreviation FG := (final_names (b_groups b) (s_groups cur) (Additive b) (boundDBID gm)).
Local Abbreviation FK := (final_names (bundleKeyEntities (b_keys b)) (currentKeyEntities (s_keys cur)) (Additive b) (boundDBID km)).
Local Abbreviation ei := (identities (b_envs b) (boundDBID em) ∅).
Local Abbreviation gi := (identities (b_groups b) (boundDBID gm) ∅).

Lemma env_ids_ok id : id ∈ ent_id <$> s_envs cur → id_ok id.
Proof.
  intros ([i n] & -> & Hc)%list_elem_of_fmap. apply (ok_env_ids _ Hok). by eapply current_env.
Qed.
Lemma group_ids_ok id : id ∈ ent_id <$> s_groups cur → id_ok id.
Proof.
  intros ([i n] & -> & Hc)%list_elem_of_fmap. apply (ok_group_ids _ Hok). by eapply current_group.
Qed.

Lemma bundle_placed k : k ∈ b_keys b → placed s eids gids k.
Proof.
  intros Hk. destruct (proj1 (validate_refs _ _ _) (pn_refs _ _ _ _ _ _ Hpn k Hk)) as (Hrg & Hrr & Hrf).
  setoid_rewrite elem_of_list_to_set in Hrg. setoid_rewrite elem_of_list_to_set in Hrr.
  setoid_rewrite elem_of_list_to_set in Hrf.
  split; [by apply Hb|by apply Hb|by apply Hb| | |by apply Hconflict|].
  - intros n Hn. eapply complete_index; [apply Hrd|apply Hpn|apply env_ids_ok|apply Har|auto].
  - intros n Hn. eapply complete_index; [apply Hrd|apply Hpn|apply env_ids_ok|apply Har|auto].
  - intros Hg. eapply complete_index; [apply (rd_wf_group _ _ Hrd)|apply Hpn|apply group_ids_ok|apply Har|auto].
Qed.

(** The row of a bound key, before its update. *)
Lemma bound_row k id r0 :
  (k, id) ∈ zip (b_keys b) (boundDBID km) → id ≠ "" → keys s0 !! id = Some r0 →
  ∃ r, keys s !! id = Some r ∧ kr_name r = k_name k ∧ anon r = anon (released (deletes gm) r0).
Proof.
  intros Hz Hid Hr0. assert (FK !! id = Some (k_name k)) as HF.
  { apply final_names_spec; [apply Hrd|apply Hpn|]. left. exists (mkEntity (k_id k) (k_name k)).
    split; [by apply key_zip|done]. }
  rewrite <-(ar_key _ _ _ _ _ _ _ _ _ _ Har) in HF. unfold key_names in HF. rewrite lookup_fmap, fmap_Some in HF.
  destruct HF as (r & Hr & Hn). exists r. split_and!; [done|done|].
  destruct (ar_rows _ _ _ _ _ _ _ _ _ _ Har id r Hr) as (r1 & Hr1 & E). congruence.
Qed.

(** A group the diff sees unchanged. *)
Lemma group_settled k r0 :
  k ∈ b_keys b → kr_group r0 = "" ∨ is_Some (groups s0 !! kr_group r0) →
  (if bool_decide (k_group k ≠ "") then default "" (gi !! k_group k) else "") = kr_group r0 →
  (k_group k = "" → kr_group (released (deletes gm) r0) = "")
  ∧ (k_group k ≠ "" → kr_group (released (deletes gm) r0) ≠ ""
       ∧ groups s !! kr_group (released (deletes gm) r0) = Some (k_group k)).
Proof.
  intros Hk Hko E. split; intros Hg.
  - rewrite bool_decide_eq_false_2 in E by tauto. unfold released. case_bool_decide; [done|congruence].
  - rewrite bool_decide_eq_true_2 in E by done.
    destruct (proj1 (validate_refs _ _ _) (pn_refs _ _ _ _ _ _ Hpn k Hk)) as (Hrg & _ & _).
    rewrite elem_of_list_to_set in Hrg.
    destruct (identity_dom _ _ _ _ (pn_group _ _ _ _ _ _ Hpn) (k_group k) (Hrg Hg)) as [v Hv].
    rewrite Hv in E. simpl in E. subst v.
    pose proof (identity_nonempty _ _ _ _ (pn_group _ _ _ _ _ _ Hpn) _ _ Hv) as Hne.
    destruct Hko as [?|Hin]; [done|]. assert (id_ok (kr_group r0)) as Hid by (by apply (ok_group_ids _ Hok)).
    pose proof (identity_final _ _ _ _ (rd_wf_group _ _ Hrd) (pn_group _ _ _ _ _ _ Hpn) _ _ Hv Hid) as Hf.
    assert (kr_group r0 ∉ deletes gm) as Hd.
    { eapply (final_names_dom (b_groups b) (s_groups cur)); [apply Hrd|apply Hpn|by eexists]. }
    unfold released. rewrite bool_decide_eq_false_2 by tauto. split; [done|].
    eapply lookup_weaken; [exact Hf|]. apply (ar_group _ _ _ _ _ _ _ _ _ _ Har).
Qed.

(** A presence rule the diff sees unchanged: its rows are all kept, and they are
    the entry's. *)
Lemma presence_settled id r0 rule (before desired : Presence) :
  keys s0 !! id = Some r0 → id ∉ deletes km → shaped desired →
  (∀ n, n ∈ Environments desired → n ∈ ent_name <$> b_envs b) →
  before = mkPresence (Mode before) (explicit_envs (Mode before) (presence_envs s0 id rule)) →
  presenceChanged before desired ei = false →
  Mode before = Mode desired ∧ rule_stored s id rule desired
  ∧ (Mode desired = PresenceExplicit → ∀ e,
       mkKeyPresence id e rule ∈ presence s ↔ mkKeyPresence id e rule ∈ presence s0).
Proof.
  intros Hr0 Hid Hsh Hrefs Eb Hpc. pose proof (pn_env _ _ _ _ _ _ Hpn) as Hm.
  assert (NoDup (Environments before)) as Hnd.
  { rewrite Eb. simpl. unfold explicit_envs. case_bool_decide; [apply presence_envs_nodup|constructor]. }
  destruct (presence_same before desired ei Hpc Hsh Hnd) as [HM Henvs].
  { intros n Hn. by apply (identity_dom _ _ _ _ Hm), Hrefs. }
  { intros n n' e. apply (identity_inj _ _ _ _ Hm env_ids_ok). }
  assert (Mode desired = PresenceExplicit → ∀ e,
    mkKeyPresence id e rule ∈ presence s0 ↔ e ∈ Environments before) as Hrows.
  { intros Hx e. rewrite <-presence_envs_elem, Eb. simpl. unfold explicit_envs.
    rewrite bool_decide_eq_true_2; [done|congruence]. }
  (* an identity among the stored rows is a live environment *)
  assert (Mode desired = PresenceExplicit → ∀ n v, n ∈ Environments desired → ei !! n = Some v →
    (v ∉ deletes em) ∧ env_names s !! v = Some n) as Hlive.
  { intros Hx n v Hn Hv. assert (mkKeyPresence id v rule ∈ presence s0) as Hin by (apply Hrows, Henvs; eauto).
    assert (id_ok v) as Hok' by (apply (ok_env_ids _ Hok); by apply (ok_presence _ Hok) in Hin as [_ ?]).
    pose proof (identity_final _ _ _ _ (rd_wf_env _ _ Hrd) Hm _ _ Hv Hok') as Hf. split.
    - eapply (final_names_dom (b_envs b) (s_envs cur)); [apply Hrd|apply Hpn|by eexists].
    - eapply lookup_weaken; [exact Hf|]. apply (ar_env _ _ _ _ _ _ _ _ _ _ Har). }
  assert (Mode desired = PresenceExplicit → ∀ e,
    mkKeyPresence id e rule ∈ presence s ↔ mkKeyPresence id e rule ∈ presence s0) as Hkeep.
  { intros Hx e. rewrite (ar_presence _ _ _ _ _ _ _ _ _ _ Har). simpl. split; [tauto|]. intros Hin.
    split_and!; [done|done|]. apply Hrows, Henvs in Hin as (n & Hn & Hv); [|done..]. by eapply Hlive. }
  split_and!; [done| |done]. intros Hx e. rewrite Hkeep, Hrows, Henvs by done. split.
  - intros (n & Hn & Hv). exists n. split; [done|]. by eapply Hlive.
  - intros (n & Hn & Hne). exists n. split; [done|].
    destruct (identity_dom _ _ _ _ Hm n (Hrefs n Hn)) as [v Hv].
    destruct (Hlive Hx n v Hn Hv) as [_ Hnv].
    by rewrite (cm_inj _ _ _ _ _ _ (ar_env _ _ _ _ _ _ _ _ _ _ Har) e v n Hne Hnv).
Qed.

Lemma anon_fields r r' : anon r = anon r' →
  kr_folder r = kr_folder r' ∧ kr_class r = kr_class r' ∧ kr_desc r = kr_desc r' ∧ kr_deprecated r = kr_deprecated r'
  ∧ kr_note r = kr_note r' ∧ kr_decl r = kr_decl r' ∧ kr_required r = kr_required r'
  ∧ kr_forbidden r = kr_forbidden r' ∧ kr_group r = kr_group r'.
Proof. unfold anon. intros [=]. done. Qed.

Lemma released_fields gs r :
  kr_folder (released gs r) = kr_folder r ∧ kr_class (released gs r) = kr_class r
  ∧ kr_desc (released gs r) = kr_desc r ∧ kr_deprecated (released gs r) = kr_deprecated r
  ∧ kr_note (released gs r) = kr_note r ∧ kr_decl (released gs r) = kr_decl r
  ∧ kr_required (released gs r) = kr_required r ∧ kr_forbidden (released gs r) = kr_forbidden r.
Proof. unfold released. by case_bool_decide. Qed.

(** A bound key, before its update: what the diff sees unchanged is settled. *)
Lemma bound_settled k id r0 n :
  (k, id) ∈ zip (b_keys b) (boundDBID km) → id ≠ "" → keys s0 !! id = Some r0 →
  ParseDeclaration (kr_decl r0) = Some n →
  let u := diffKey (read_key s0 id r0 n) k ei gi in
  ∃ r, settled s id r u ∧ (PresenceChanged u = false →
    CheckPresence (Required (key_rules s id r)) (Forbidden (key_rules s id r)) = Ok tt).
Proof.
  intros Hz Hid Hr0 Hn u. assert (k ∈ b_keys b) as Hk.
  { apply zip_elem in Hz as (i & Hi & _). by eapply list_elem_of_lookup_2. }
  destruct (bound_row k id r0 Hz Hid Hr0) as (r & Hr & Hname & E). exists r.
  destruct (anon_fields _ _ E) as (F1 & F2 & F3 & F4 & F5 & F6 & F7 & F8 & F9).
  destruct (released_fields (deletes gm) r0) as (L1 & L2 & L3 & L4 & L5 & L6 & L7 & L8).
  pose proof (ok_keys _ Hok id r0 Hr0) as Hko.
  assert (id ∉ deletes km) as Hdel.
  { eapply (final_names_dom (bundleKeyEntities (b_keys b)) (currentKeyEntities (s_keys cur))); [apply Hrd|apply Hpn|].
    exists (k_name k). apply final_names_spec; [apply Hrd|apply Hpn|]. left. exists (mkEntity (k_id k) (k_name k)).
    split; [by apply key_zip|done]. }
  destruct (proj1 (validate_refs _ _ _) (pn_refs _ _ _ _ _ _ Hpn k Hk)) as (_ & Hrr & Hrf).
  setoid_rewrite elem_of_list_to_set in Hrr. setoid_rewrite elem_of_list_to_set in Hrf.
  destruct (cb_shaped _ Hb k Hk) as [S1 S2].
  assert (PresenceChanged u = false →
    (Mode (Required (key_rules s0 id r0)) = Mode (k_required k) ∧ rule_stored s id PresenceRuleRequired (k_required k)
     ∧ (Mode (k_required k) = PresenceExplicit → ∀ e, mkKeyPresence id e PresenceRuleRequired ∈ presence s
          ↔ mkKeyPresence id e PresenceRuleRequired ∈ presence s0))
    ∧ (Mode (Forbidden (key_rules s0 id r0)) = Mode (k_forbidden k) ∧ rule_stored s id PresenceRuleForbidden (k_forbidden k)
     ∧ (Mode (k_forbidden k) = PresenceExplicit → ∀ e, mkKeyPresence id e PresenceRuleForbidden ∈ presence s
          ↔ mkKeyPresence id e PresenceRuleForbidden ∈ presence s0))) as Hpres.
  { unfold u. simpl. intros [P1 P2]%orb_false_iff.
    split.
    - by apply (presence_settled id r0 PresenceRuleRequired (Required (key_rules s0 id r0)) (k_required k)).
    - by apply (presence_settled id r0 PresenceRuleForbidden (Forbidden (key_rules s0 id r0)) (k_forbidden k)). }
  split; [split|].
  - done.
  - done.
  - unfold u. simpl. rewrite !orb_false_iff, !bool_decide_eq_false. intros [[[M1 M2] M3] M4].
    rewrite F1, F3, F4, F5, L1, L3, L4, L5. apply dec_stable in M1, M2, M3, M4. congruence.
  - unfold u. simpl. rewrite bool_decide_eq_false. intros M%dec_stable. congruence.
  - unfold u. simpl. rewrite bool_decide_eq_false. intros M%dec_stable. rewrite F9.
    by apply group_settled; [|apply Hko|].
  - unfold u. simpl. intros Hd. destruct (ko_decl _ _ _ Hko) as (n' & Hp' & Hc' & Hcc').
    rewrite Hn in Hp'. injection Hp' as <-.
    apply (change_exact _ _ _ _ Hcc' (cb_decl _ Hb k Hk)) in Hd. subst n. by rewrite F6, L6.
  - intros Hp. destruct (Hpres Hp) as ((M1 & R1 & _) & (M2 & R2 & _)). simpl in M1, M2. unfold u. simpl.
    split_and!; [congruence|congruence|done|done].
  - intros Hp. destruct (Hpres Hp) as ((M1 & _ & R1) & (M2 & _ & R2)). simpl in M1, M2.
    eapply CheckPresence_same; [..|apply (ko_presence _ _ _ Hko)].
    + unfold key_rules. simpl. rewrite F7, L7. apply rule_kept. by rewrite M1.
    + unfold key_rules. simpl. rewrite F8, L8. apply rule_kept. by rewrite M2.
Qed.

(** ** Creates, then updates *)

Lemma created_elem k : k ∈ KeyCreates res ↔ (k, "") ∈ zip (b_keys b) (boundDBID km).
Proof.
  rewrite (pn_kc _ _ _ _ _ _ Hpn), list_elem_of_fmap. setoid_rewrite list_elem_of_filter. split.
  - intros ([k' id] & -> & [Hid Hz]). simpl in *. by subst id.
  - intros Hz. by exists (k, "").
Qed.

Lemma zip_bundle k id : (k, id) ∈ zip (b_keys b) (boundDBID km) → k ∈ b_keys b.
Proof. intros (i & Hi & _)%zip_elem. by eapply list_elem_of_lookup_2. Qed.

Lemma creates_names : NoDup (k_name <$> KeyCreates res).
Proof.
  rewrite (pn_kc _ _ _ _ _ _ Hpn). apply NoDup_fmap_on.
  - apply NoDup_fmap_on.
    + apply NoDup_filter. apply (NoDup_fmap_1 (k_name ∘ fst)). rewrite list_fmap_compose, fst_zip; [apply Hb|].
      rewrite (m_len _ _ _ _ (pn_key _ _ _ _ _ _ Hpn)). unfold bundleKeyEntities. by rewrite length_fmap.
    + intros [k id] [k' id'] [Hi _]%list_elem_of_filter [Hi' _]%list_elem_of_filter. simpl in *. congruence.
  - intros k k' Hk Hk'. rewrite <-(pn_kc _ _ _ _ _ _ Hpn) in Hk, Hk'. apply created_elem, zip_bundle in Hk, Hk'.
    apply (NoDup_fmap_elem k_name (b_keys b)); [apply Hb|done|done].
Qed.

Lemma create_free k i r : k ∈ KeyCreates res → keys s !! i = Some r → kr_name r ≠ k_name k.
Proof.
  intros Hk Hr E. apply created_elem, key_zip in Hk.
  eapply (create_not_final (bundleKeyEntities (b_keys b)) (currentKeyEntities (s_keys cur)) (Additive b) km _ i);
    [apply Hrd|apply Hpn|by eapply key_no_ids|exact Hk|]. simpl.
  rewrite <-(ar_key _ _ _ _ _ _ _ _ _ _ Har). unfold key_names. by rewrite lookup_fmap, Hr, <-E.
Qed.

(** The key rows after both phases. *)
Record keys_landed (s2 : Project A) : Prop := {
  kl_envs : envs s2 = envs s;
  kl_groups : groups s2 = groups s;
  kl_closed : closed s2;
  kl_fresh : fresh newid s2;
  kl_names : names_inj (key_names s2);
  kl_ids : ∀ i, is_Some (keys s2 !! i) → id_ok i;
  kl_bound : ∀ k id, (k, id) ∈ zip (b_keys b) (boundDBID km) → id ≠ "" → good s2 id k;
  kl_created : ∀ k, (k, "") ∈ zip (b_keys b) (boundDBID km) → ∃ i, good s2 i k;
  kl_only : ∀ i, is_Some (keys s2 !! i) →
    (∃ k id, (k, id) ∈ zip (b_keys b) (boundDBID km) ∧ good s2 i k)
    ∨ (Additive b = true ∧ (i ∉ boundDBID km) ∧ is_Some (keys s !! i));
  kl_rest : Additive b = true → ∀ i, is_Some (keys s !! i) → keys s2 !! i = keys s !! i
    ∧ ∀ e ru, mkKeyPresence i e ru ∈ presence s2 ↔ mkKeyPresence i e ru ∈ presence s;
}.

Lemma arranged_closed : closed s.
Proof.
  intros row Hrow. apply (ar_presence _ _ _ _ _ _ _ _ _ _ Har) in Hrow as (Hin & Hk & He).
  destruct (ok_presence _ Hok row Hin) as [[r Hr] [e Hee]]. split.
  - assert (is_Some (key_names s !! pr_key row)) as Hs.
    { rewrite (ar_key _ _ _ _ _ _ _ _ _ _ Har). apply final_names_dom; [apply Hrd|apply Hpn|]. split; [|done].
      apply list_elem_of_fmap. exists (mkEntity (pr_key row) (kr_name r)). split; [done|].
      eapply current_key_elem; [done|done|]. by rewrite lookup_fmap, Hr. }
    unfold key_names in Hs. by rewrite lookup_fmap, fmap_is_Some in Hs.
  - assert (is_Some (FE !! pr_env row)) as [n Hn].
    { apply final_names_dom; [apply Hrd|apply Hpn|]. split; [|done]. apply list_elem_of_fmap.
      exists (mkEntity (pr_env row) (er_name e)). split; [done|]. apply (rd_env _ _ Hrd). by rewrite lookup_fmap, Hee. }
    assert (env_names s !! pr_env row = Some n) as Hs
      by (eapply lookup_weaken; [exact Hn|apply (ar_env _ _ _ _ _ _ _ _ _ _ Har)]).
    unfold env_names in Hs. rewrite lookup_fmap, fmap_Some in Hs. destruct Hs as (? & ? & _). by eexists.
Qed.

(** The old rows are those of bound keys, or of an additive bundle's others. *)
Lemma old_row i : is_Some (keys s !! i) →
  (∃ k, (k, i) ∈ zip (b_keys b) (boundDBID km) ∧ i ≠ "") ∨ (Additive b = true ∧ (i ∉ boundDBID km)).
Proof.
  intros [r Hr]. assert (FK !! i = Some (kr_name r)) as Hf.
  { rewrite <-(ar_key _ _ _ _ _ _ _ _ _ _ Har). unfold key_names. by rewrite lookup_fmap, Hr. }
  apply final_names_spec in Hf as [(e & Hz & Hne & _)|(? & _ & ?)]; [|by right|apply Hrd|apply Hpn].
  apply key_zip_inv in Hz as (k & Hz & _). left. eauto.
Qed.

Section added.
Context (s1 : Project A) (K1 : keys_added newid (KeyCreates res) s s1).

Lemma added_old i : is_Some (keys s !! i) → keys s1 !! i = keys s !! i.
Proof. intros [r Hr]. rewrite Hr. by apply (ka_old _ _ _ _ K1). Qed.

Lemma added_settled k id r0 n :
  (k, id) ∈ zip (b_keys b) (boundDBID km) → id ≠ "" → keys s0 !! id = Some r0 →
  ParseDeclaration (kr_decl r0) = Some n →
  let u := diffKey (read_key s0 id r0 n) k ei gi in
  ∃ r, settled s1 id r u ∧ (PresenceChanged u = false →
    CheckPresence (Required (key_rules s1 id r)) (Forbidden (key_rules s1 id r)) = Ok tt).
Proof.
  intros Hz Hid Hr0 Hn u. destruct (bound_settled k id r0 n Hz Hid Hr0 Hn) as (r & Hs & Hc). exists r.
  assert (is_Some (keys s !! id)) as Hi by (rewrite (se_row _ _ _ _ Hs); by eexists). split.
  - eapply settled_local; [apply K1|apply K1|by apply added_old|by apply (ka_presence _ _ _ _ K1)|done].
  - intros Hp. destruct (key_rules_local s s1 id r) as [R1 R2]; [by apply (ka_presence _ _ _ _ K1)|].
    eapply CheckPresence_same; [exact R1|exact R2|auto].
Qed.

(** Every update is of a bound key whose row is settled where it is unchanged. *)
Lemma update_bound u : u ∈ KeyUpdates res →
  (u_desired u, u_id u) ∈ zip (b_keys b) (boundDBID km) ∧ u_id u ≠ "" ∧ is_Some (keys s !! u_id u)
  ∧ changed u = true ∧ ∃ r, settled s1 (u_id u) r u.
Proof.
  intros Hu. apply (updates_elem _ _ _ _ _ _ _ Hpn) in Hu as (k & id & c & i & Hz & Hid & Hf & -> & Hc).
  destruct (bound_key _ _ _ _ _ _ _ Hrd Hpn k id Hz Hid) as (j & r0 & n & Hr0 & Hn & Hf').
  rewrite Hf in Hf'. injection Hf' as -> ->. simpl. split_and!; [done|done| |done|].
  - destruct (bound_row k id r0 Hz Hid Hr0) as (r & -> & _). by eexists.
  - destruct (added_settled k id r0 n Hz Hid Hr0 Hn) as (r & Hs & _). by exists r.
Qed.

Lemma added_good i k s2 : keys_updated newid (KeyUpdates res) s1 s2 → i ∉ u_id <$> KeyUpdates res →
  good s1 i k → good s2 i k.
Proof.
  intros K2 Hi. destruct (ku_other _ _ _ _ K2 i Hi) as [E1 E2]. eapply good_local; [apply K2|apply K2|done|done].
Qed.

Lemma new_good i k s2 : keys_updated newid (KeyUpdates res) s1 s2 → keys s !! i = None → good s1 i k → good s2 i k.
Proof.
  intros K2 Hi. apply added_good; [done|]. intros (u & -> & Hu)%list_elem_of_fmap.
  destruct (update_bound u Hu) as (_ & _ & [? ?] & _). congruence.
Qed.

Lemma bound_good k id s2 : keys_updated newid (KeyUpdates res) s1 s2 →
  (k, id) ∈ zip (b_keys b) (boundDBID km) → id ≠ "" → good s2 id k.
Proof.
  intros K2 Hz Hid. destruct (bound_key _ _ _ _ _ _ _ Hrd Hpn k id Hz Hid) as (j & r0 & n & Hr0 & Hn & Hf).
  set (u := diffKey (read_key s0 id r0 n) k ei gi).
  destruct (changed u) eqn:Hc.
  - apply (ku_good _ _ _ _ K2 u). apply (updates_elem _ _ _ _ _ _ _ Hpn). exists k, id, (read_key s0 id r0 n), j. done.
  - destruct (added_settled k id r0 n Hz Hid Hr0 Hn) as (r & Hs & Hp). apply added_good; [done| |].
    + intros (u' & E & Hu')%list_elem_of_fmap. pose proof Hu' as Hu''.
      apply (updates_elem _ _ _ _ _ _ _ Hpn) in Hu'' as (k' & id' & c & i & Hz' & Hid' & Hf' & -> & Hc').
      simpl in E. pose proof (proj1 (list_find_Some _ _ _ _) Hf') as (_ & Ec & _). rewrite Ec in E. subst id'.
      rewrite Hf in Hf'. injection Hf' as <- <-. apply zip_elem in Hz as (x & Hx & Hx'), Hz' as (y & Hy & Hy').
      rewrite (m_inj _ _ _ _ (pn_key _ _ _ _ _ _ Hpn) _ _ _ Hx' Hy' Hid) in Hx. unfold u in Hc. congruence.
    + eapply (unchanged_good u eids gids s1 r); [exact Hs| | |exact Hc|].
      * apply (placed_local s s1); [apply K1|apply K1|]. by eapply bundle_placed, zip_bundle.
      * unfold env_names. rewrite (ka_envs _ _ _ _ K1).
        apply (cm_inj _ _ _ _ _ _ (ar_env _ _ _ _ _ _ _ _ _ _ Har)).
      * apply Hp. unfold changed in Hc. rewrite !orb_false_iff in Hc. apply Hc.
Qed.

Lemma landed_ok s2 : keys_updated newid (KeyUpdates res) s1 s2 → keys_landed s2.
Proof.
  intros K2. assert (∀ i, is_Some (keys s2 !! i) → is_Some (keys s !! i) ∨ (keys s !! i = None ∧ is_Some (keys s1 !! i))) as Hcase.
  { intros i Hi%(ku_dom _ _ _ _ K2). destruct (keys s !! i); eauto. }
  split.
  - by rewrite (ku_envs _ _ _ _ K2), (ka_envs _ _ _ _ K1).
  - by rewrite (ku_groups _ _ _ _ K2), (ka_groups _ _ _ _ K1).
  - apply (ku_closed _ _ _ _ K2), (ka_closed _ _ _ _ K1), arranged_closed.
  - apply (ku_fresh _ _ _ _ K2), (ka_fresh _ _ _ _ K1).
  - assert (key_names s2 = key_names s1) as ->.
    { apply map_eq. intros i. unfold key_names. rewrite !lookup_fmap.
      destruct (decide (i ∈ u_id <$> KeyUpdates res)) as [Hi|Hi]; [|by rewrite (proj1 (ku_other _ _ _ _ K2 i Hi))].
      apply list_elem_of_fmap in Hi as (u & -> & Hu). destruct (update_bound u Hu) as (_ & _ & _ & _ & r & Hs).
      destruct (ku_good _ _ _ _ K2 u Hu) as (r2 & Hr2 & Hn2 & _).
      rewrite Hr2, (se_row _ _ _ _ Hs). simpl. by rewrite Hn2, (se_name _ _ _ _ Hs). }
    apply (ka_names _ _ _ _ K1). rewrite (ar_key _ _ _ _ _ _ _ _ _ _ Har). intros i j n.
    apply final_names_inj; [apply Hrd|apply Hpn|by eapply key_no_ids].
  - intros i [[r Hr]|[Hno Hi]]%Hcase; [|by apply (ka_only _ _ _ _ K1)].
    destruct (ar_rows _ _ _ _ _ _ _ _ _ _ Har i r Hr) as (r0 & Hr0 & _). apply (ok_key_ids _ Hok). by eexists.
  - intros k id. by apply bound_good.
  - intros k Hk%created_elem. destruct (ka_new _ _ _ _ K1 k Hk) as (i & Hi & G). exists i. by eapply new_good.
  - intros i [Hi|[Hno Hi]]%Hcase.
    + destruct (old_row i Hi) as [(k & Hz & Hne)|[? ?]]; [left|by right]. exists k, i. split; [done|]. by eapply bound_good.
    + destruct (ka_only _ _ _ _ K1 i Hno Hi) as (_ & k & Hk & G). left. exists k, "".
      split; [by apply created_elem|by eapply new_good].
  - intros Ha i Hi. destruct (ku_other _ _ _ _ K2 i) as [E1 E2].
    { rewrite (pn_additive _ _ _ _ _ _ Hpn Ha). apply not_elem_of_nil. }
    split; [by rewrite E1, added_old|]. intros e ru. rewrite E2. by apply (ka_presence _ _ _ _ K1).
Qed.
End added.

Lemma keysPhase_ok decls rev :
  (∀ k, k ∈ b_keys b → decls !! k_name k = Some (k_decl k)) →
  succeeds (bind (for_each (KeyCreates res) (λ k, bind (CompiledDeclaration decls (k_name k))
              (λ compiled, createKey newid k compiled eids gids))) (λ _,
            for_each (KeyUpdates res) (λ u, bind (CompiledDeclaration decls (k_name (u_desired u)))
              (λ compiled, updateKey u compiled eids gids rev)))) s (λ _ s2, keys_landed s2).
Proof.
  intros Hdecl. pose proof (cm_inj _ _ _ _ _ _ (ar_env _ _ _ _ _ _ _ _ _ _ Har)) as Hinj.
  apply succeeds_bind. eapply succeeds_mono; [apply createKeys_ok; [done| |apply creates_names|apply create_free|apply Har]|].
  { intros k Hk%created_elem%zip_bundle. split; [by apply bundle_placed|auto]. }
  intros ? s1 K1. eapply succeeds_mono; [apply (updateKeys_ok newid newid_inj)|].
  - by eapply updates_ids.
  - unfold env_names. by rewrite (ka_envs _ _ _ _ K1).
  - intros u Hu. destruct (update_bound s1 K1 u Hu) as (Hz & _ & _ & _ & Hs). apply zip_bundle in Hz.
    split_and!; [done| |auto|by apply Hdeclassify]. apply (placed_local s s1); [apply K1|apply K1|]. by apply bundle_placed.
  - intros ? s2 K2. exact (landed_ok s1 K1 s2 K2).
Qed.

(** ** The outcome *)

(** Every environment and key keeps its whole row, every group its name, and
    every key its presence rows. *)
Record extends (s1 s2 : Project A) : Prop := {
  xt_envs : envs s1 ⊆ envs s2;
  xt_groups : groups s1 ⊆ groups s2;
  xt_keys : keys s1 ⊆ keys s2;
  xt_presence : ∀ row, is_Some (keys s1 !! pr_key row) → row ∈ presence s2 ↔ row ∈ presence s1;
}.

Record converged (s2 : Project A) : Prop := {
  cv_ok : catalogue_ok s2;
  cv_fresh : fresh newid s2;
  cv_realizes : realizes b s2;
  cv_exactly : Additive b = false → exactly b s2;
  cv_extends : Additive b = true → extends s0 s2;
  cv_marks : ∀ id r, envs s0 !! id = Some r → id ∉ ids_of (EnvDeletes res) →
    ∃ r', envs s2 !! id = Some r' ∧ env_mark r' = env_mark r;
  cv_group_stays : ∀ id, is_Some (groups s0 !! id) → id ∉ ids_of (GroupDeletes res) → is_Some (groups s2 !! id);
  cv_key_stays : ∀ id r, keys s0 !! id = Some r → id ∉ ids_of (KeyDeletes res) →
    ∃ r', keys s2 !! id = Some r' ∧ (kr_class r' = kr_class r ∨ ∃ u, u ∈ KeyUpdates res
      ∧ PrevClassification u = kr_class r ∧ k_class (u_desired u) = kr_class r');
  cv_envs : ∀ id n, env_names s2 !! id = Some n →
    n ∈ ent_name <$> b_envs b ∨ (Additive b = true ∧ env_names s0 !! id = Some n);
  cv_groups : ∀ id n, groups s2 !! id = Some n →
    n ∈ ent_name <$> b_groups b ∨ (Additive b = true ∧ groups s0 !! id = Some n);
  cv_keys : ∀ id r, keys s2 !! id = Some r →
    kr_name r ∈ k_name <$> b_keys b ∨ (Additive b = true ∧ keys s0 !! id = Some r);
}.

Lemma additive_no_deletes bundle current m :
  matched bundle current (Additive b) m → Additive b = true → deletes m = [].
Proof.
  intros Hm Ha. destruct (deletes m) as [|id l] eqn:E; [done|]. assert (id ∈ deletes m) as Hin by (rewrite E; by left).
  apply (m_deletes _ _ _ _ Hm) in Hin as [? _]. congruence.
Qed.

Lemma additive_keys : Additive b = true → keys s = keys s0.
Proof.
  intros Ha. assert (∀ i r, keys s !! i = Some r → keys s0 !! i = Some r) as Hfwd.
  { intros i r Hr. destruct (ar_rows _ _ _ _ _ _ _ _ _ _ Har i r Hr) as (r0 & Hr0 & E).
    rewrite (additive_no_deletes _ _ _ (pn_group _ _ _ _ _ _ Hpn) Ha), released_nil in E.
    assert (FK !! i = Some (kr_name r)) as Hf.
    { rewrite <-(ar_key _ _ _ _ _ _ _ _ _ _ Har). unfold key_names. by rewrite lookup_fmap, Hr. }
    eapply parked_kept in Hf; [|done|done|done|].
    2:{ unfold parkedKeys. rewrite (pn_additive _ _ _ _ _ _ Hpn Ha). apply not_elem_of_nil. }
    eapply current_key_elem in Hf; [|done|done]. rewrite lookup_fmap, Hr0 in Hf. simpl in Hf.
    assert (kr_name r0 = kr_name r) as En by congruence. rewrite Hr0. f_equal.
    destruct r, r0. unfold anon in E. simpl in *. congruence. }
  apply map_eq. intros i. destruct (keys s !! i) as [r|] eqn:Er; [symmetry; auto|].
  destruct (keys s0 !! i) as [r0|] eqn:Er0; [|done]. exfalso.
  assert (is_Some (key_names s !! i)) as Hs.
  { rewrite (ar_key _ _ _ _ _ _ _ _ _ _ Har). apply final_names_dom; [apply Hrd|apply Hpn|].
    rewrite (additive_no_deletes _ _ _ (pn_key _ _ _ _ _ _ Hpn) Ha). split; [|apply not_elem_of_nil].
    apply list_elem_of_fmap. exists (mkEntity i (kr_name r0)). split; [done|].
    eapply current_key_elem; [done|done|]. by rewrite lookup_fmap, Er0. }
  unfold key_names in Hs. rewrite lookup_fmap, Er in Hs. by destruct Hs.
Qed.

Lemma additive_presence row : Additive b = true → row ∈ presence s ↔ row ∈ presence s0.
Proof.
  intros Ha. rewrite (ar_presence _ _ _ _ _ _ _ _ _ _ Har).
  rewrite (additive_no_deletes _ _ _ (pn_key _ _ _ _ _ _ Hpn) Ha), (additive_no_deletes _ _ _ (pn_env _ _ _ _ _ _ Hpn) Ha).
  set_solver.
Qed.

Lemma landed_extends s2 : keys_landed s2 → Additive b = true → extends s0 s2.
Proof.
  intros L Ha. pose proof (cb_no_ids _ Hb Ha) as (Hne & Hng & _). split.
  - apply map_subseteq_spec. intros i r Hr. rewrite (kl_envs _ L).
    assert (env_names s !! i = Some (er_name r)) as Hn.
    { eapply complete_keeps; [apply (rd_wf_env _ _ Hrd)|apply Hpn|done|done|apply (ar_env _ _ _ _ _ _ _ _ _ _ Har)|].
      apply (rd_env _ _ Hrd). by rewrite lookup_fmap, Hr. }
    destruct (ar_marks _ _ _ _ _ _ _ _ _ _ Har i r Hr) as (r' & Hr' & E).
    { rewrite (additive_no_deletes _ _ _ (pn_env _ _ _ _ _ _ Hpn) Ha). apply not_elem_of_nil. }
    unfold env_names in Hn. rewrite lookup_fmap, Hr' in Hn. rewrite Hr'. f_equal.
    destruct r, r'. unfold env_mark in E. simpl in *. congruence.
  - apply map_subseteq_spec. intros i n Hn. rewrite (kl_groups _ L).
    eapply complete_keeps; [apply (rd_wf_group _ _ Hrd)|apply Hpn|done|done|apply (ar_group _ _ _ _ _ _ _ _ _ _ Har)|].
    by apply (rd_group _ _ Hrd).
  - apply map_subseteq_spec. intros i r Hr. rewrite <-additive_keys in Hr by done.
    rewrite (proj1 (kl_rest _ L Ha i ltac:(by eexists))). done.
  - intros [i e ru] Hi. simpl in Hi. rewrite <-additive_keys in Hi by done.
    by rewrite (proj2 (kl_rest _ L Ha i Hi)), additive_presence.
Qed.

Lemma landed_key_ok s2 i r : keys_landed s2 → keys s2 !! i = Some r → key_ok s2 i r.
Proof.
  intros L Hr. destruct (kl_only _ L i) as [(k & id & Hz & (r' & Hr' & _ & Hko & _))|(Ha & _ & Hi)];
    [by eexists|congruence|].
  pose proof (landed_extends s2 L Ha) as [X1 X2 X3 X4]. rewrite additive_keys in Hi by done. destruct Hi as [r0 Hr0].
  assert (r = r0) as -> by (pose proof (lookup_weaken _ _ _ _ Hr0 X3); congruence).
  eapply (key_ok_local s0); [| |by apply (ok_keys _ Hok)].
  - intros g [n Hg]. exists n. by eapply lookup_weaken.
  - intros e ru. apply X4. simpl. by eexists.
Qed.

(** A group and a key that are not deleted stay; a key's class changes only by
    an update of the plan. *)
Lemma landed_group_stays s2 id :
  keys_landed s2 → is_Some (groups s0 !! id) → id ∉ ids_of (GroupDeletes res) → is_Some (groups s2 !! id).
Proof.
  intros L [n Hn] Hid. rewrite (pn_gd _ _ _ _ _ _ Hpn), ids_of_refsFor in Hid. rewrite (kl_groups _ L).
  assert (is_Some (FG !! id)) as [n' Hn'].
  { apply final_names_dom; [apply Hrd|apply Hpn|]. split; [|done]. apply list_elem_of_fmap.
    exists (mkEntity id n). split; [done|]. by apply (rd_group _ _ Hrd). }
  exists n'. eapply lookup_weaken; [exact Hn'|apply (ar_group _ _ _ _ _ _ _ _ _ _ Har)].
Qed.

Lemma landed_key_stays s2 id r :
  keys_landed s2 → keys s0 !! id = Some r → id ∉ ids_of (KeyDeletes res) →
  ∃ r', keys s2 !! id = Some r' ∧ (kr_class r' = kr_class r ∨ ∃ u, u ∈ KeyUpdates res
    ∧ PrevClassification u = kr_class r ∧ k_class (u_desired u) = kr_class r').
Proof.
  intros L Hr Hid. rewrite (pn_kd _ _ _ _ _ _ Hpn), ids_of_refsFor in Hid.
  assert (is_Some (keys s !! id)) as Hs.
  { assert (is_Some (key_names s !! id)) as Hk; [|unfold key_names in Hk; by rewrite lookup_fmap, fmap_is_Some in Hk].
    rewrite (ar_key _ _ _ _ _ _ _ _ _ _ Har). apply final_names_dom; [apply Hrd|apply Hpn|]. split; [|done].
    apply list_elem_of_fmap. exists (mkEntity id (kr_name r)). split; [done|].
    eapply current_key_elem; [done|done|]. by rewrite lookup_fmap, Hr. }
  destruct (old_row id Hs) as [(k & Hz & Hne)|[Ha _]].
  - destruct (kl_bound _ L k id Hz Hne) as (r' & Hr' & _ & _ & Hspec). exists r'. split; [done|].
    assert (kr_class r' = k_class k) as Hc by (unfold row_spec, key_spec in Hspec; congruence).
    destruct (decide (k_class k = kr_class r)) as [E|E]; [left; congruence|right].
    destruct (bound_key _ _ _ _ _ _ _ Hrd Hpn k id Hz Hne) as (i & r0 & d & Hr0 & _ & Hf).
    assert (r0 = r) as -> by congruence.
    exists (diffKey (read_key s0 id r d) k ei gi). split_and!; [|done|done].
    apply (updates_elem _ _ _ _ _ _ _ Hpn). exists k, id, (read_key s0 id r d), i. split_and!; [done..|].
    unfold changed. simpl. rewrite (bool_decide_eq_true_2 (kr_class r ≠ k_class k)) by congruence.
    by rewrite !orb_true_r.
  - exists r. split; [|by left]. rewrite (proj1 (kl_rest _ L Ha id Hs)). by rewrite additive_keys.
Qed.

Lemma landed_converged s2 : keys_landed s2 → converged s2.
Proof.
  intros L. pose proof (ar_env _ _ _ _ _ _ _ _ _ _ Har) as Ce. pose proof (ar_group _ _ _ _ _ _ _ _ _ _ Har) as Cg.
  assert (er_name <$> envs s2 = env_names s) as Ee by (unfold env_names; by rewrite (kl_envs _ L)).
  assert (∀ id, is_Some (envs s2 !! id) → is_Some (env_names s !! id)) as Hes.
  { intros id Hid. by rewrite <-Ee, lookup_fmap, fmap_is_Some. }
  split.
  - split.
    + rewrite Ee. apply Ce.
    + rewrite (kl_groups _ L). apply Cg.
    + apply L.
    + intros id Hid%Hes. eapply complete_ids; [apply (rd_wf_env _ _ Hrd)|apply Hpn|apply env_ids_ok|exact Ce|done].
    + intros id Hid. rewrite (kl_groups _ L) in Hid.
      eapply complete_ids; [apply (rd_wf_group _ _ Hrd)|apply Hpn|apply group_ids_ok|exact Cg|done].
    + apply L.
    + intros id r. by apply landed_key_ok.
    + apply L.
  - apply L.
  - split.
    + intros e He. rewrite Ee. eapply complete_holds; [apply (rd_wf_env _ _ Hrd)|apply Hpn|exact Ce|done].
    + intros e He. rewrite (kl_groups _ L). eapply complete_holds; [apply (rd_wf_group _ _ Hrd)|apply Hpn|exact Cg|done].
    + intros k Hk. apply list_elem_of_lookup in Hk as [x Hx].
      destruct (lookup_lt_is_Some_2 (boundDBID km) x) as [id Hi].
      { rewrite (m_len _ _ _ _ (pn_key _ _ _ _ _ _ Hpn)). unfold bundleKeyEntities. rewrite length_fmap. by eapply lookup_lt_Some. }
      assert (bundleKeyEntities (b_keys b) !! x = Some (mkEntity (k_id k) (k_name k))) as Hx'.
      { unfold bundleKeyEntities. by rewrite list_lookup_fmap, Hx. }
      pose proof (m_id _ _ _ _ (pn_key _ _ _ _ _ _ Hpn) _ _ _ Hx' Hi) as Hmid. simpl in Hmid.
      assert ((k, id) ∈ zip (b_keys b) (boundDBID km)) as Hz by (apply zip_elem; eauto).
      destruct (decide (id = "")) as [->|Hid].
      * destruct (kl_created _ L k Hz) as (i & r & Hr & Hn & _ & Hs). exists i, r. split_and!; [done|done| |done].
        intros Hne. by rewrite <-(Hmid Hne) in Hne.
      * destruct (kl_bound _ L k id Hz Hid) as (r & Hr & Hn & _ & Hs). exists id, r. done.
  - intros Ha. split.
    + intros id n. rewrite Ee. intros Hn. eapply complete_exact; [apply (rd_wf_env _ _ Hrd)|apply Hpn|done|exact Ce|done].
    + intros id n. rewrite (kl_groups _ L). intros Hn.
      eapply complete_exact; [apply (rd_wf_group _ _ Hrd)|apply Hpn|done|exact Cg|done].
    + intros id r Hr. destruct (kl_only _ L id) as [(k & i & Hz & (r' & Hr' & Hn & _))|(Ha' & _)];
        [by eexists| |congruence]. rewrite Hr in Hr'. injection Hr' as <-. rewrite Hn.
      apply list_elem_of_fmap. exists k. split; [done|]. by eapply zip_bundle.
  - intros Ha. by apply landed_extends.
  - intros id r Hr Hid. rewrite (pn_ed _ _ _ _ _ _ Hpn), ids_of_refsFor in Hid. rewrite (kl_envs _ L).
    by apply (ar_marks _ _ _ _ _ _ _ _ _ _ Har).
  - intros id. by apply landed_group_stays.
  - intros id r. by apply landed_key_stays.
  - intros id n. unfold env_names at 1. rewrite Ee. intros Hn.
    eapply complete_only in Hn; [|apply (rd_wf_env _ _ Hrd)|apply Hpn|exact Ce].
    by rewrite (rd_env _ _ Hrd) in Hn.
  - intros id n. rewrite (kl_groups _ L). intros Hn.
    eapply complete_only in Hn; [|apply (rd_wf_group _ _ Hrd)|apply Hpn|exact Cg].
    by rewrite (rd_group _ _ Hrd) in Hn.
  - intros id r Hr. destruct (kl_only _ L id) as [(k & i & Hz & (r' & Hr' & Hn & _))|(Ha & _ & [r0 Hr0])]; [by eexists| |].
    + left. rewrite Hr in Hr'. injection Hr' as <-. rewrite Hn.
      apply list_elem_of_fmap. exists k. split; [done|]. by eapply zip_bundle.
    + right. split; [done|]. rewrite additive_keys in Hr0 by done. rewrite Hr0. f_equal.
      pose proof (lookup_weaken _ _ _ _ Hr0 (xt_keys _ _ (landed_extends s2 L Ha))). congruence.
Qed.
End keys_phase.

(** ** The whole execution *)

Section execution.
Context `{SchemaLang, !SchemaLaws} {A : Type} `{AccessAdmin A}.
Context (newid : string → nat → option string).
Context (newid_inj : ∀ p p' n n' id, newid p n = Some id → newid p' n' = Some id → n = n').

(** What the bundle is to blame for, at the project it was resolved against:
    one of its keys both requires and forbids some environment, or one of its
    entries makes a key that is stored as a secret a config key. *)
#[local] Instance bundle_blame (b : Bundle) (res : Resolution) (s0 : Project A) : Blame := {|
  conflict_blame := ∃ k n, k ∈ b_keys b ∧ Covers (k_required k) n = true ∧ Covers (k_forbidden k) n = true;
  declassify_blame := ∃ u r, u ∈ KeyUpdates res ∧ u_desired u ∈ b_keys b ∧ keys s0 !! u_id u = Some r
    ∧ kr_class r = Secret ∧ k_class (u_desired u) = Config |}.

Lemma canonical_conflict b res (s0 : Project A) k :
  canonical b → k ∈ b_keys b →
  CheckPresence (k_required k) (k_forbidden k) = Ok tt ∨ @conflict_blame (bundle_blame b res s0).
Proof.
  intros Hb Hk. destruct (cb_shaped _ Hb k Hk) as [S1 S2].
  pose proof (overlap_exact _ _ S1 S2) as Ho. unfold CheckPresence.
  rewrite !(proj2 (checkPresenceShape_ok _ _)) by done. simpl.
  destruct (overlap _ _) as [[] why]; [right|by left]. destruct (proj1 Ho eq_refl) as (n & ? & ?). by exists k, n.
Qed.

Lemma planned_declassify b cur res em gm km (s0 : Project A) u :
  reads s0 cur → planned b cur res em gm km → u ∈ KeyUpdates res →
  PrevClassification u = Secret → k_class (u_desired u) = Config → @declassify_blame (bundle_blame b res s0).
Proof.
  intros Hrd Hpn Hu HS HC. pose proof Hu as Hu'.
  apply (updates_elem _ _ _ _ _ _ _ Hpn) in Hu' as (k & id & c & i & Hz & Hid & Hf & E & _).
  destruct (bound_key _ _ _ _ _ _ _ Hrd Hpn k id Hz Hid) as (j & r & n & Hr & _ & Hf').
  rewrite Hf in Hf'. injection Hf' as -> ->. exists u, r. subst u. simpl in *.
  split_and!; [done|by eapply zip_bundle|done|done|done].
Qed.

(** Only [external] refusals are not the bundle's. *)
Definition refused_for (b : Bundle) (res : Resolution) (s0 : Project A) (e : DefError) : Prop :=
  external e = true
  ∨ ((∃ why, e = ErrPresence (RequiredAndForbidden why))
     ∧ ∃ k n, k ∈ b_keys b ∧ Covers (k_required k) n = true ∧ Covers (k_forbidden k) n = true)
  ∨ (e = ErrInvalid "definitions apply cannot declassify"
     ∧ ∃ u r, u ∈ KeyUpdates res ∧ u_desired u ∈ b_keys b ∧ keys s0 !! u_id u = Some r
         ∧ kr_class r = Secret ∧ k_class (u_desired u) = Config).

Lemma refusal_for b res (s0 : Project A) e : @refusal (bundle_blame b res s0) e → refused_for b res s0 e.
Proof.
  unfold refused_for. destruct e as [| | | | | |[]| | |]; simpl; try (by left).
  - intros ?. right. left. eauto.
  - intros [-> ?]. right. right. done.
Qed.

Lemma execute_converges b cur res em gm km (s0 : Project A) decls rev :
  catalogue_ok s0 → reads s0 cur → canonical b → planned b cur res em gm km → fresh newid s0 →
  (∀ k, k ∈ b_keys b → decls !! k_name k = Some (k_decl k)) →
  wp (executeResolution newid res cur decls rev) s0 (λ _ s2, converged newid b res s0 s2)
    (λ e _, refused_for b res s0 e).
Proof.
  intros Hok Hrd Hb Hpn Hf Hdecl. pose (bundle_blame b res s0) as Hbl.
  cut (succeeds (executeResolution newid res cur decls rev) s0 (λ _ s2, converged newid b res s0 s2)).
  { intros Hs. eapply wp_mono; [exact Hs|done|intros e ?; apply refusal_for]. }
  assert (∀ k, k ∈ b_keys b → CheckPresence (k_required k) (k_forbidden k) = Ok tt ∨ @conflict_blame (bundle_blame b res s0))
    as Hconf by (intros; by apply canonical_conflict).
  assert (∀ u, u ∈ KeyUpdates res → PrevClassification u = Secret → k_class (u_desired u) = Config →
    @declassify_blame (bundle_blame b res s0)) as Hdcl by (intros; by eapply planned_declassify).
  unfold executeResolution. fold deleteEnv.
  eapply (deletes_ok newid newid_inj b cur res em gm km s0); [eassumption..|]. intros s1 D1.
  apply succeeds_bind. eapply succeeds_mono; [eapply (parkRenames_ok newid newid_inj); eassumption|].
  intros ? s2 [-> P2]. eapply (creates_finish_ok newid newid_inj b cur res em gm km s0); [eassumption..|].
  intros eids gids s3 A3. simpl.
  eapply succeeds_mono; [eapply (keysPhase_ok newid newid_inj); eassumption|].
  intros ? s4 L4. eapply landed_converged; eassumption.
Qed.
End execution.
