(* ===== verification/DefinitionsParse.v ===== *)
(** * The canonical form of a bundle

    [internal/definitions/parse.go] after the JSON decoder: the closed checks of
    a decoded bundle and its normalization (entries sorted by name, declarations
    compiled, presence lists sorted). A bundle that passes both, and then
    [Resolve], is [canonical]. The length of the canonical encoding
    ([encode.go]) is an argument. *)

From stdpp Require Import prelude gmap strings sorting list.
From S2P Require Import Prelude Presence Definitions DefinitionsMatch Catalogue DefinitionsApply DefinitionsState.
From S2P Require Import DefinitionsRealize DefinitionsTopology.

Definition FormatVersion : Z := 1.
Definition MaxBundleBytes : N := 1048576.
Definition MaxBundleEntries : N := 10000.

(** The loop over a sorted explicit list; [prev] is [envs[i-1]]. *)
Fixpoint checkSortedNames (what key : string) (prev : option string) (envs : list string) :
    result BundleRefusal unit :=
  match envs with
  | [] => Ok tt
  | name :: envs =>
      if bool_decide (name = "") then Err (PresenceNamesEmpty key what)
      else if bool_decide (prev = Some name) then Err (PresenceNamesTwice key what name)
      else checkSortedNames what key (Some name) envs
  end.

Definition normalizePresence (what key : string) (p : Presence) : result BundleRefusal Presence :=
  let envs := sort_by String.leb (Environments p) in
  if bool_decide (Mode p = PresenceNone) || bool_decide (Mode p = PresenceAll) then
    if Nat.ltb 0 (length envs) then Err (PresenceCarries key what (Mode p)) else Ok (mkPresence (Mode p) [])
  else if bool_decide (Mode p = PresenceExplicit) then
    if Nat.eqb (length envs) 0 then Err (PresenceNamesNone key what)
    else let! _ := checkSortedNames what key None envs in Ok (mkPresence (Mode p) envs)
  else Err (PresenceUnknownMode key what (Mode p)).

(** ** Presence *)

Lemma leb_trans (x y z : string) : String.leb x y = true → String.leb y z = true → String.leb x z = true.
Proof.
  unfold String.leb. revert y z. induction x as [|a x IH]; intros [|b y] [|c z]; simpl; try done.
  unfold Ascii.compare. specialize (IH y z).
  destruct (N.compare_spec (Ascii.N_of_ascii a) (Ascii.N_of_ascii b)),
    (N.compare_spec (Ascii.N_of_ascii b) (Ascii.N_of_ascii c)),
    (N.compare_spec (Ascii.N_of_ascii a) (Ascii.N_of_ascii c)); try done; try lia.
Qed.

Lemma sorted_strings l : StronglySorted (λ a b, String.leb a b = true) (sort_by String.leb l).
Proof. apply sort_by_sorted; [apply leb_trans|apply String.leb_total]. Qed.

Lemma checkSortedNames_ok what key l : ∀ prev,
  StronglySorted (λ a b, String.leb a b = true) l →
  (∀ x y, prev = Some x → y ∈ l → String.leb x y = true) →
  checkSortedNames what key prev l = Ok tt ↔ ("" ∉ l) ∧ NoDup l ∧ (∀ x, prev = Some x → x ∉ l).
Proof.
  induction l as [|n l IH]; intros prev Hs Hp; simpl.
  { split; [|done]. intros _. split_and!; [apply not_elem_of_nil|constructor|]. intros. apply not_elem_of_nil. }
  apply StronglySorted_inv in Hs as [Hs Hn]. rewrite Forall_forall in Hn.
  case_bool_decide as En; [set_solver|]. case_bool_decide as Ep; [set_solver|].
  rewrite IH; [|done|by intros x y [= <-] Hy; auto]. rewrite NoDup_cons. split.
  - intros (H1 & H2 & H3). split_and!; [set_solver|by apply H3|done|]. intros x -> Hx.
    apply elem_of_cons in Hx as [->|Hx]; [done|]. apply Ep. f_equal.
    apply String.leb_antisym; [apply Hp; [done|by left]|auto].
  - intros (H1 & [H2 H3] & H4). split_and!; [set_solver|done|]. by intros x [= <-].
Qed.

Lemma normalize_ok what key p q :
  normalizePresence what key p = Ok q ↔ shaped p ∧ q = mkPresence (Mode p) (sort_by String.leb (Environments p)).
Proof.
  unfold normalizePresence. pose proof (sort_by_Permutation String.leb (Environments p)) as Hperm.
  assert (length (sort_by String.leb (Environments p)) = length (Environments p)) as El by (by rewrite Hperm).
  unfold shaped. split.
  - case_bool_decide as M1; [|case_bool_decide as M2]; simpl.
    1-2: destruct (Nat.ltb_spec 0 (length (sort_by String.leb (Environments p)))); [done|]; intros [= <-];
      rewrite El in *; destruct (Environments p) eqn:Ee; [|simpl in *; lia]; split; [left; split; [tauto|done]|done].
    case_bool_decide as M3; [|done]. rewrite El. destruct (Nat.eqb_spec (length (Environments p)) 0); [done|].
    rewrite rbind_Ok. intros ([] & Hc & [= <-]). split; [|done]. right.
    apply checkSortedNames_ok in Hc as (H1 & H2 & _); [|apply sorted_strings|done]. rewrite Hperm in H1, H2.
    split_and!; [done| |done|done]. intros E. by rewrite E in *.
  - intros [[[Hm E]|(Hm & Hne & Hnd & Hz)] ->].
    + rewrite E. simpl.
      destruct Hm as [-> | ->]; done.
    + rewrite Hm. simpl. rewrite El. destruct (Nat.eqb_spec (length (Environments p)) 0) as [E|_].
      { by apply nil_length_inv in E. }
      rewrite (proj2 (checkSortedNames_ok _ _ _ None (sorted_strings _) ltac:(done))); [done|].
      rewrite Hperm. split_and!; [done|done|done].
Qed.

Section parse.
Context `{SchemaLang}.
(** [len(encoded)] of the canonical bundle. *)
Context (encodedLen : Bundle → N).

Definition hasIDs (b : Bundle) : bool :=
  existsb (λ e, bool_decide (ent_id e ≠ "")) (b_envs b)
  || existsb (λ g, bool_decide (ent_id g ≠ "")) (b_groups b)
  || existsb (λ k, bool_decide (k_id k ≠ "")) (b_keys b).

Definition validateBundle (b : Bundle) : result BundleRefusal unit :=
  let entries := length (b_keys b) + length (b_envs b) + length (b_groups b) in
  if bool_decide (FormatVersion_of b ≠ FormatVersion) then Err (BadFormatVersion (FormatVersion_of b))
  else if (MaxBundleEntries <? N.of_nat entries)%N then Err (TooManyEntries entries)
  else if Additive b && hasIDs b then Err IDsWithoutBase
  else Ok tt.

(** One key of [out.Keys]. *)
Definition compileKey (k : Key) : result BundleRefusal Key :=
  if negb (class_ok (k_class k)) then Err (BadClassification (k_name k) (k_class k))
  else match CompileClassified (k_class k) (k_decl k) with
       | None => Err (BadDeclaration (k_name k))
       | Some compiled =>
           let! req := normalizePresence "required_in" (k_name k) (k_required k) in
           let! forb := normalizePresence "forbidden_in" (k_name k) (k_forbidden k) in
           Ok (mkKey (k_id k) (k_name k) (k_folder k) (k_class k) (k_desc k) (k_deprecated k) (k_note k)
                 (k_group k) compiled req forb)
       end.

(** The key loop: the keys and [declarations[k.Name] = compiled]. *)
Fixpoint compileKeys (l : list Key) (declarations : gmap string Declaration) :
    result BundleRefusal (list Key * gmap string Declaration) :=
  match l with
  | [] => Ok ([], declarations)
  | k :: l =>
      let! k := compileKey k in
      let! (ks, declarations) := compileKeys l (<[k_name k := k_decl k]> declarations) in
      Ok (k :: ks, declarations)
  end.

Definition by_name (a b : entity) : bool := String.leb (ent_name a) (ent_name b).

Definition compileCanonical (b : Bundle) : result BundleRefusal (Bundle * gmap string Declaration) :=
  let! (ks, declarations) :=
    compileKeys (sort_by (λ a b, String.leb (k_name a) (k_name b)) (b_keys b)) ∅ in
  let out := {| FormatVersion_of := FormatVersion; BaseRevision := BaseRevision b;
                b_envs := sort_by by_name (b_envs b); b_groups := sort_by by_name (b_groups b); b_keys := ks |} in
  if (MaxBundleBytes <? encodedLen out)%N then Err (TooManyBytes (N.to_nat (encodedLen out)))
  else Ok (out, declarations).

(** [Canonicalize], keeping the compiled declarations as [ParseCompiled] does. *)
Definition Canonicalize (b : Bundle) : result BundleRefusal (Bundle * gmap string Declaration) :=
  let! _ := validateBundle b in
  compileCanonical b.

(** ** What the canonical form promises *)

Lemma compileKey_ok k k' :
  compileKey k = Ok k' ↔ class_ok (k_class k) = true ∧ shaped (k_required k) ∧ shaped (k_forbidden k)
    ∧ ∃ n, CompileClassified (k_class k) (k_decl k) = Some n
      ∧ k' = mkKey (k_id k) (k_name k) (k_folder k) (k_class k) (k_desc k) (k_deprecated k) (k_note k) (k_group k) n
               (mkPresence (Mode (k_required k)) (sort_by String.leb (Environments (k_required k))))
               (mkPresence (Mode (k_forbidden k)) (sort_by String.leb (Environments (k_forbidden k)))).
Proof.
  unfold compileKey. destruct (class_ok (k_class k)); simpl; [|naive_solver].
  destruct (CompileClassified _ _) as [n|]; [|naive_solver]. rewrite rbind_Ok. setoid_rewrite rbind_Ok.
  setoid_rewrite normalize_ok. naive_solver.
Qed.

Lemma shaped_sorted p : shaped p → shaped (mkPresence (Mode p) (sort_by String.leb (Environments p))).
Proof.
  unfold shaped. simpl. pose proof (sort_by_Permutation String.leb (Environments p)) as Hp.
  intros [[? E]|(? & Hne & ? & ?)]; [left; split; [done|]; by rewrite E|right].
  split_and!; [done| |by rewrite Hp|by rewrite Hp]. intros E. rewrite E in Hp. by apply Permutation_nil_l in Hp.
Qed.

Lemma compileKeys_spec l : ∀ d ks d',
  compileKeys l d = Ok (ks, d') →
  Forall2 (λ k k', compileKey k = Ok k') l ks
  ∧ (NoDup (k_name <$> ks) → ∀ k, k ∈ ks → d' !! k_name k = Some (k_decl k))
  ∧ ∀ n, n ∉ k_name <$> ks → d' !! n = d !! n.
Proof.
  induction l as [|k l IH]; intros d ks d'; simpl.
  { intros [= <- <-]. split_and!; [constructor|by intros _ k ?%elem_of_nil|done]. }
  rewrite rbind_Ok. intros (k1 & Hk & Hr). apply rbind_Ok in Hr as ([ks1 d1] & Hr & [= <- <-]).
  destruct (IH _ _ _ Hr) as (F & D & O). split_and!; [by constructor| |].
  - rewrite fmap_cons, NoDup_cons. intros [Hn Hnd] k2 [->|Hk2]%elem_of_cons; [|by apply D].
    rewrite O by done. apply lookup_insert_eq.
  - intros n. rewrite fmap_cons, not_elem_of_cons. intros [Hne Hn]. rewrite O by done. by apply lookup_insert_ne.
Qed.

Record canonicalized (b0 b : Bundle) : Prop := {
  cz_base : BaseRevision b = BaseRevision b0;
  cz_envs : b_envs b ≡ₚ b_envs b0;
  cz_groups : b_groups b ≡ₚ b_groups b0;
  cz_keys : ∃ l, l ≡ₚ b_keys b0 ∧ Forall2 (λ k k', compileKey k = Ok k') l (b_keys b);
  cz_no_ids : Additive b0 = true → hasIDs b0 = false;
}.

Lemma Canonicalize_spec b0 b d :
  Canonicalize b0 = Ok (b, d) →
  canonicalized b0 b ∧ (NoDup (k_name <$> b_keys b) → ∀ k, k ∈ b_keys b → d !! k_name k = Some (k_decl k)).
Proof.
  unfold Canonicalize. rewrite rbind_Ok. intros ([] & Hv & Hc). unfold compileCanonical in Hc.
  apply rbind_Ok in Hc as ([ks d'] & Hk & Hc). simpl in Hc. destruct (_ <? _)%N; [done|]. injection Hc as <- <-.
  destruct (compileKeys_spec _ _ _ _ Hk) as (F & D & _). split; [|done]. split; simpl.
  - done.
  - apply sort_by_Permutation.
  - apply sort_by_Permutation.
  - eexists. split; [|exact F]. apply sort_by_Permutation.
  - unfold validateBundle in Hv. intros Ha. rewrite Ha in Hv. destruct (hasIDs b0); [|done]. simpl in Hv.
    by repeat case_match.
Qed.

Lemma canonicalized_key b0 b k :
  canonicalized b0 b → k ∈ b_keys b → ∃ k0, k0 ∈ b_keys b0 ∧ compileKey k0 = Ok k.
Proof.
  intros Hc Hk. destruct (cz_keys _ _ Hc) as (l & Hl & F). apply list_elem_of_lookup in Hk as [i Hi].
  destruct (Forall2_lookup_r _ _ _ _ _ F Hi) as (k0 & Hk0 & E). exists k0. rewrite <-Hl.
  split; [by eapply list_elem_of_lookup_2|done].
Qed.

Lemma canonicalized_no_ids b0 b :
  canonicalized b0 b → Additive b = true →
  no_ids (b_envs b) ∧ no_ids (b_groups b) ∧ ∀ k, k ∈ b_keys b → k_id k = "".
Proof.
  intros Hc Ha. assert (Additive b0 = true) as Ha0.
  { unfold Additive in *. by rewrite <-(cz_base _ _ Hc). }
  pose proof (cz_no_ids _ _ Hc Ha0) as Hn. unfold hasIDs in Hn. rewrite !orb_false_iff, !existsb_false in Hn.
  destruct Hn as [[He Hg] Hk].
  assert (∀ s : string, bool_decide (s ≠ "") = false → s = "") as Hd.
  { intros s Hs%bool_decide_eq_false. by apply dec_stable. }
  split_and!.
  - intros e. rewrite (cz_envs _ _ Hc). auto.
  - intros e. rewrite (cz_groups _ _ Hc). auto.
  - intros k Hin. destruct (canonicalized_key _ _ _ Hc Hin) as (k0 & Hk0 & (_ & _ & _ & n & _ & ->)%compileKey_ok).
    simpl. auto.
Qed.
End parse.

Section resolved.
Context `{SchemaLang, !SchemaLaws}.

Lemma canonicalized_keys b0 b k :
  canonicalized b0 b → k ∈ b_keys b →
  (shaped (k_required k) ∧ shaped (k_forbidden k)) ∧ class_ok (k_class k) = true
  ∧ CompileClassified (k_class k) (k_decl k) = Some (k_decl k).
Proof.
  intros Hc Hk. destruct (canonicalized_key _ _ _ Hc Hk) as (k0 & _ & (Hcl & S1 & S2 & n & Hn & ->)%compileKey_ok).
  simpl. split_and!; [by apply shaped_sorted|by apply shaped_sorted|done|by eapply compile_idem].
Qed.

(** A bundle that was canonicalized and then resolved. *)
Lemma resolved_canonical b0 b cur res em gm km :
  canonicalized b0 b → planned b cur res em gm km → canonical b.
Proof.
  intros Hc Hp. pose proof (λ k, canonicalized_keys b0 b k Hc) as Hkeys. split.
  - apply (pn_env _ _ _ _ _ _ Hp).
  - apply (pn_group _ _ _ _ _ _ Hp).
  - pose proof (m_names _ _ _ _ (pn_key _ _ _ _ _ _ Hp)) as Hn. unfold bundleKeyEntities in Hn.
    by rewrite <-list_fmap_compose in Hn.
  - apply Hp.
  - intros k Hk. apply (Hkeys k Hk).
  - intros k Hk. apply (Hkeys k Hk).
  - intros k Hk. apply (Hkeys k Hk).
  - by apply (canonicalized_no_ids b0).
Qed.
End resolved.
