(* ===== verification/DefinitionsExport.v ===== *)
(** * An export is in sync

    [Definitions.Export] renders the current state as a bundle and puts it into
    canonical form. The canonical bundle is realised by the very state it was
    exported from, with and without ids. *)

From stdpp Require Import prelude gmap strings list.
From S2P Require Import Prelude StateErr Presence Definitions DefinitionsMatch Catalogue DefinitionsApply DefinitionsState.
From S2P Require Import DefinitionsRealize DefinitionsExec DefinitionsParse.

(** Environments and key groups have names: [checkName] and [CheckGroupName]
    refuse empty ones wherever a row is written. *)
Record named {A} (s : Project A) : Prop := {
  nm_envs : ∀ id n, env_names s !! id = Some n → n ≠ "";
  nm_groups : ∀ id n, groups s !! id = Some n → n ≠ "";
}.

Section export.
Context `{SchemaLang, !SchemaLaws} {A : Type} `{AccessAdmin A}.
Context (s : Project A) (cur : CurrentState) (withIDs : bool).
Context (Hok : catalogue_ok s) (Hrd : reads s cur) (Hnm : named s).

Local Abbreviation b0 := (bundleFromState cur withIDs).
Local Abbreviation idOf id := (if withIDs then id else "").

Lemma env_index id : index_by ent_id ent_name (s_envs cur) !! id = env_names s !! id.
Proof.
  apply option_eq. intros n. rewrite index_by_lookup by apply (rd_wf_env _ _ Hrd). unfold env_names.
  rewrite <-(rd_env _ _ Hrd). split.
  - intros ([i x] & Hx & <- & <-). done.
  - intros Hin. by exists (mkEntity id n).
Qed.

Lemma group_index id : index_by ent_id ent_name (s_groups cur) !! id = groups s !! id.
Proof.
  apply option_eq. intros n. rewrite index_by_lookup by apply (rd_wf_group _ _ Hrd).
  rewrite <-(rd_group _ _ Hrd). split.
  - intros ([i x] & Hx & <- & <-). done.
  - intros Hin. by exists (mkEntity id n).
Qed.

(** The bundle key of a row. *)
Definition exported_key (id : string) (r : KeyRow) (n : Declaration) : Key :=
  {| k_id := idOf id; k_name := kr_name r; k_folder := kr_folder r; k_class := kr_class r; k_desc := kr_desc r;
     k_deprecated := kr_deprecated r; k_note := kr_note r; k_group := default "" (groups s !! kr_group r); k_decl := n;
     k_required := bundlePresence (Required (key_rules s id r)) (index_by ent_id ent_name (s_envs cur));
     k_forbidden := bundlePresence (Forbidden (key_rules s id r)) (index_by ent_id ent_name (s_envs cur)) |}.

Lemma exported_keys k :
  k ∈ b_keys b0 ↔ ∃ id r n, keys s !! id = Some r ∧ ParseDeclaration (kr_decl r) = Some n ∧ k = exported_key id r n.
Proof.
  unfold bundleFromState. simpl. rewrite list_elem_of_fmap. setoid_rewrite (rd_key _ _ Hrd). split.
  - intros (c & -> & r & n & Hr & Hn & Ec). exists (c_id c), r, n. split_and!; [done..|].
    rewrite Ec at 1. rewrite Ec. unfold exported_key. simpl. by rewrite group_index.
  - intros (id & r & n & Hr & Hn & ->). exists (read_key s id r n). split; [|simpl; eauto].
    unfold exported_key. simpl. by rewrite group_index.
Qed.

(** ** Rules by name *)

Local Abbreviation names := (index_by ent_id ent_name (s_envs cur)).

Lemma rule_live p e : (∀ e, e ∈ Environments p → is_Some (envs s !! e)) → e ∈ Environments p →
  ∃ n, env_names s !! e = Some n ∧ default "" (names !! e) = n ∧ n ≠ "".
Proof.
  intros Hl He. destruct (Hl e He) as [r Hr]. exists (er_name r).
  assert (env_names s !! e = Some (er_name r)) as Hn by (unfold env_names; by rewrite lookup_fmap, Hr).
  split_and!; [done|by rewrite env_index, Hn|by eapply (nm_envs _ Hnm)].
Qed.

Lemma exported_rule p :
  (∀ e, e ∈ Environments p → is_Some (envs s !! e)) → shaped p →
  shaped (bundlePresence p names)
  ∧ rule_names s p = (Mode p, list_to_set (Environments (bundlePresence p names))).
Proof.
  intros Hl Hsh. split.
  - destruct Hsh as [[Hm E]|(Hm & Hne & Hnd & _)]; [left|right]; unfold bundlePresence; simpl.
    + by rewrite E.
    + split_and!; [done| | |].
      * intros E. apply Hne. by apply fmap_nil_inv in E.
      * apply NoDup_fmap_on; [done|]. intros x y Hx Hy.
        destruct (rule_live p x Hl Hx) as (n & Hn & -> & _), (rule_live p y Hl Hy) as (n' & Hn' & -> & _).
        intros <-. by eapply (ok_env_names _ Hok).
      * intros (e & E & He)%list_elem_of_fmap. destruct (rule_live p e Hl He) as (n & _ & E' & ?). congruence.
  - unfold rule_names. f_equal. apply set_eq. intros n. rewrite !elem_of_list_to_set, list_elem_of_omap.
    unfold bundlePresence. simpl. rewrite list_elem_of_fmap. split.
    + intros (e & He & Hn). destruct (rule_live p e Hl He) as (n' & Hn' & E & _). exists e. split; [|done].
      unfold env_names in Hn'. rewrite lookup_fmap in Hn'. congruence.
    + intros (e & -> & He). destruct (rule_live p e Hl He) as (n' & Hn' & E & _). exists e. split; [done|].
      rewrite E. unfold env_names in Hn'. by rewrite lookup_fmap in Hn'.
Qed.

Lemma row_rules id r : keys s !! id = Some r →
  let p := key_rules s id r in
  (shaped (Required p) ∧ ∀ e, e ∈ Environments (Required p) → is_Some (envs s !! e))
  ∧ (shaped (Forbidden p) ∧ ∀ e, e ∈ Environments (Forbidden p) → is_Some (envs s !! e)).
Proof.
  intros Hr p. pose proof (ko_presence _ _ _ (ok_keys _ Hok id r Hr)) as Hc. apply CheckPresence_ok in Hc as (S1 & S2 & _).
  split; (split; [done|]); eapply key_rules_envs; eauto.
Qed.

(** An exported key compiles to itself, and reads as its row. *)
Lemma exported_compiles id r n :
  keys s !! id = Some r → ParseDeclaration (kr_decl r) = Some n →
  ∃ k, compileKey (exported_key id r n) = Ok k ∧ k_name k = kr_name r ∧ k_id k = idOf id
    ∧ key_spec k = row_spec s id r
    ∧ (k_group k ≠ "" → ∃ g, groups s !! g = Some (k_group k))
    ∧ ∀ x, x ∈ Environments (k_required k) ∨ x ∈ Environments (k_forbidden k) → ∃ e, env_names s !! e = Some x.
Proof.
  intros Hr Hn. pose proof (ok_keys _ Hok id r Hr) as Hko. destruct (row_rules id r Hr) as [[S1 L1] [S2 L2]].
  destruct (exported_rule _ L1 S1) as [S1' R1], (exported_rule _ L2 S2) as [S2' R2].
  destruct (ko_decl _ _ _ Hko) as (n' & Hp' & _ & Hc). rewrite Hn in Hp'. injection Hp' as <-.
  eexists. split; [apply compileKey_ok; simpl; split_and!; [apply Hko|done|done|]; eauto|]. simpl.
  assert (∀ l : list string, list_to_set (sort_by String.leb l) =@{gset string} list_to_set l) as Hset.
  { intros l. apply set_eq. intros x. by rewrite !elem_of_list_to_set, elem_of_sort_by. }
  split_and!; [done|done| | |].
  - unfold key_spec, row_spec. simpl. rewrite !Hset, Hn. simpl in R1, R2. rewrite R1, R2. f_equal.
    destruct (ko_group _ _ _ Hko) as [->|[g Hg]].
    + simpl. destruct (groups s !! "") eqn:Eg; [|done]. by destruct (ok_group_ids _ Hok "") as [? _]; [eexists|].
    + rewrite Hg. simpl. rewrite bool_decide_eq_false_2 by (by eapply (nm_groups _ Hnm)).
      rewrite bool_decide_eq_false_2; [done|]. intros E. rewrite E in Hg.
      by destruct (ok_group_ids _ Hok "") as [? _]; [eexists|].
  - destruct (groups s !! kr_group r) as [g|] eqn:Eg; simpl; [eauto|done].
  - intros x. rewrite !elem_of_sort_by. intros [Hx|Hx]; apply list_elem_of_fmap in Hx as (e & -> & He);
      [destruct (rule_live _ e L1 He) as (x & Hx & -> & _)|destruct (rule_live _ e L2 He) as (x & Hx & -> & _)]; eauto.
Qed.

(** ** The canonical export *)

Lemma exported_env e : e ∈ b_envs b0 ↔ ∃ id, env_names s !! id = Some (ent_name e) ∧ ent_id e = idOf id.
Proof.
  unfold bundleFromState. simpl. rewrite list_elem_of_fmap. unfold env_names. setoid_rewrite <-(rd_env _ _ Hrd). split.
  - intros ([i n] & -> & Hin). by exists i.
  - intros (id & Hin & E). exists (mkEntity id (ent_name e)). split; [|done]. destruct e; simpl in *. by rewrite E.
Qed.

Lemma exported_group e : e ∈ b_groups b0 ↔ ∃ id, groups s !! id = Some (ent_name e) ∧ ent_id e = idOf id.
Proof.
  unfold bundleFromState. simpl. rewrite list_elem_of_fmap. setoid_rewrite <-(rd_group _ _ Hrd). split.
  - intros ([i n] & -> & Hin). by exists i.
  - intros (id & Hin & E). exists (mkEntity id (ent_name e)). split; [|done]. destruct e; simpl in *. by rewrite E.
Qed.

Lemma exported_names :
  NoDup (ent_name <$> b_envs b0) ∧ NoDup (ent_name <$> b_groups b0) ∧ NoDup (k_name <$> b_keys b0).
Proof.
  unfold bundleFromState. simpl. rewrite <-!list_fmap_compose. simpl. split_and!.
  - apply (rd_wf_env _ _ Hrd).
  - apply (rd_wf_group _ _ Hrd).
  - destruct (rd_wf_key _ _ Hrd) as (_ & Hn & _). unfold currentKeyEntities in Hn. by rewrite <-list_fmap_compose in Hn.
Qed.

(** Export refuses only a bundle over a limit. *)
Lemma compileKeys_total l : ∀ d, (∀ k, k ∈ l → ∃ k', compileKey k = Ok k') → ∃ r, compileKeys l d = Ok r.
Proof.
  induction l as [|k l IH]; intros d Hl; simpl; [by eexists|].
  destruct (Hl k) as [k' ->]; [by left|]. simpl.
  destruct (IH (<[k_name k' := k_decl k']> d)) as [[ks d'] ->]; [|by eexists]. intros k2 Hk2. apply Hl. by right.
Qed.

Lemma export_refusals encodedLen e : Canonicalize encodedLen b0 = Err e →
  (∃ n, e = TooManyEntries n) ∨ ∃ n, e = TooManyBytes n.
Proof.
  unfold Canonicalize. destruct (validateBundle b0) as [[]|e'] eqn:Ev; simpl.
  - unfold compileCanonical.
    destruct (compileKeys_total (sort_by (λ a b, String.leb (k_name a) (k_name b)) (b_keys b0)) ∅) as [[ks d] ->].
    + intros k. rewrite elem_of_sort_by. intros (id & r & n & Hr & Hn & ->)%exported_keys.
      destruct (exported_compiles id r n Hr Hn) as (k & ? & _). eauto.
    + cbn [rbind]. destruct (_ <? _)%N; intros [= <-]; eauto.
  - intros [= <-]. unfold validateBundle in Ev. simpl in Ev. destruct (_ <? _)%N; [injection Ev as <-; eauto|].
    destruct (Additive b0 && hasIDs b0) eqn:E; [|done]. exfalso. apply andb_true_iff in E as [Ha Hh].
    assert (withIDs = false) as Hw.
    { unfold Additive, bundleFromState in Ha. simpl in Ha. by destruct withIDs. }
    unfold hasIDs in Hh. rewrite !orb_true_iff, !existsb_true in Hh.
    destruct Hh as [[(x & Hx & Hd)|(x & Hx & Hd)]|(x & Hx & Hd)].
    + apply exported_env in Hx as (id & _ & E). rewrite E, Hw in Hd. done.
    + apply exported_group in Hx as (id & _ & E). rewrite E, Hw in Hd. done.
    + apply exported_keys in Hx as (id & r & n & _ & _ & ->). unfold exported_key in Hd. simpl in Hd. by rewrite Hw in Hd.
Qed.

Section canonical_export.
Context (b : Bundle) (Hcz : canonicalized b0 b).

Lemma canonical_keys k : k ∈ b_keys b → ∃ id r, keys s !! id = Some r ∧ kr_name r = k_name k ∧ k_id k = idOf id
  ∧ row_spec s id r = key_spec k ∧ (k_group k ≠ "" → ∃ g, groups s !! g = Some (k_group k))
  ∧ ∀ x, x ∈ Environments (k_required k) ∨ x ∈ Environments (k_forbidden k) → ∃ e, env_names s !! e = Some x.
Proof.
  intros Hk. destruct (canonicalized_key _ _ _ Hcz Hk) as (k0 & (id & r & n & Hr & Hn & ->)%exported_keys & Hc).
  destruct (exported_compiles id r n Hr Hn) as (k1 & Hc1 & E1 & E2 & E3 & E4 & E5). rewrite Hc in Hc1.
  injection Hc1 as <-. exists id, r. done.
Qed.

Lemma export_names : k_name <$> b_keys b ≡ₚ k_name <$> b_keys b0.
Proof.
  destruct (cz_keys _ _ Hcz) as (l & Hl & F). rewrite <-Hl.
  assert (k_name <$> b_keys b = k_name <$> l) as ->; [|done]. clear Hl.
  induction F as [|k k' l l' Hk _ IH]; [done|]. rewrite !fmap_cons, IH. f_equal.
  by apply compileKey_ok in Hk as (_ & _ & _ & n & _ & ->).
Qed.

Lemma export_canonical : canonical b.
Proof.
  destruct exported_names as (N1 & N2 & N3). pose proof (λ k, canonicalized_keys b0 b k Hcz) as Hkeys. split.
  - by rewrite (cz_envs _ _ Hcz).
  - by rewrite (cz_groups _ _ Hcz).
  - by rewrite export_names.
  - intros k Hk. destruct (canonical_keys k Hk) as (id & r & _ & _ & _ & _ & Hg & He).
    assert (∀ x, (∃ e, env_names s !! e = Some x) → x ∈ (list_to_set (ent_name <$> b_envs b) : gset string)) as Hen.
    { intros x [e Hx]. rewrite elem_of_list_to_set, (cz_envs _ _ Hcz). apply list_elem_of_fmap.
      exists (mkEntity (idOf e) x). split; [done|]. apply exported_env. by exists e. }
    apply validate_refs. split_and!; [|intros x Hx; apply Hen; auto..].
    intros Hne. destruct (Hg Hne) as [g Hgg]. rewrite elem_of_list_to_set, (cz_groups _ _ Hcz).
    apply list_elem_of_fmap. exists (mkEntity (idOf g) (k_group k)). split; [done|]. apply exported_group. by exists g.
  - intros k Hk. apply (Hkeys k Hk).
  - intros k Hk. apply (Hkeys k Hk).
  - intros k Hk. apply (Hkeys k Hk).
  - by apply (canonicalized_no_ids b0).
Qed.

Lemma export_realizes : realizes b s.
Proof.
  assert (∀ id, idOf id ≠ "" → id = idOf id) as Hid by (by destruct withIDs). split.
  - intros e. rewrite (cz_envs _ _ Hcz). intros (id & Hn & E)%exported_env. exists id. rewrite E. auto.
  - intros e. rewrite (cz_groups _ _ Hcz). intros (id & Hn & E)%exported_group. exists id. rewrite E. auto.
  - intros k Hk. destruct (canonical_keys k Hk) as (id & r & Hr & Hn & E & Hs & _). exists id, r. rewrite E. auto.
Qed.

Lemma export_exactly : exactly b s.
Proof.
  split.
  - intros id n Hn. rewrite (cz_envs _ _ Hcz). apply list_elem_of_fmap. exists (mkEntity (idOf id) n).
    split; [done|]. apply exported_env. by exists id.
  - intros id n Hn. rewrite (cz_groups _ _ Hcz). apply list_elem_of_fmap. exists (mkEntity (idOf id) n).
    split; [done|]. apply exported_group. by exists id.
  - intros id r Hr. rewrite export_names. destruct (ko_decl _ _ _ (ok_keys _ Hok id r Hr)) as (n & Hn & _).
    apply list_elem_of_fmap. exists (exported_key id r n). split; [done|]. apply exported_keys. by exists id, r, n.
Qed.

(** Checking the export against the state it came from: no drift. *)
Lemma export_equal : Classify b cur = Ok DriftEqual.
Proof.
  destruct (realizes_empty b s cur false Hok Hrd export_canonical export_realizes (λ _, export_exactly)) as (res & E & Hemp).
  unfold Classify, Compare. rewrite E. cbn [rbind]. rewrite Hemp. simpl.
  rewrite (cz_base _ _ Hcz). unfold bundleFromState. simpl. destruct withIDs; [|done].
  by rewrite Z.ltb_irrefl, Z.eqb_refl.
Qed.
End canonical_export.
End export.
