(* ===== verification/EnvironmentDelete.v ===== *)
(** * Deleting an environment

    [Environments.Delete] of [internal/service/hierarchy.go] and the presence
    cascade of [keys.go]: the environment's id leaves every explicit presence
    set, a set it empties collapses to [none], and everything that hangs off the
    environment goes before its row. The catalogue keeps its invariant. *)

From stdpp Require Import prelude gmap strings pretty list.
From S2P Require Import Prelude StateErr FreeText Presence Definitions DefinitionsMatch Catalogue DefinitionsApply.
From S2P Require Import DefinitionsState DefinitionsRealize DefinitionsExec DefinitionsKeys.

Section delete.
Context `{SchemaLang} {A : Type} `{AccessAdmin A}.

Local Abbreviation St := (Project A).
Local Abbreviation Op := (M St DefError).

(** [remaining[row.KeyID+":"+row.Rule]++] over the rows of other environments;
    the pair stands for the concatenation. *)
Definition remaining (rows : list KeyPresence) (env : string) : gmap (string * string) nat :=
  foldl (λ m r, if bool_decide (pr_env r = env) then m
                else <[(pr_key r, pr_rule r) := S (default 0 (m !! (pr_key r, pr_rule r)))]> m) ∅ rows.

(** One key of the cascade's loop. *)
Definition collapseKey (touched : gset string) (left : gmap (string * string) nat) (kr : string * KeyRow) : Op unit :=
  if bool_decide (kr.1 ∉ touched) then ret tt
  else
    let req := emptiedMode (kr_required kr.2) (default 0 (left !! (kr.1, PresenceRuleRequired))) in
    let forb := emptiedMode (kr_forbidden kr.2) (default 0 (left !! (kr.1, PresenceRuleForbidden))) in
    if bool_decide (req = kr_required kr.2) && bool_decide (forb = kr_forbidden kr.2) then ret tt
    else Catalogue_UpdateDeclaration kr.1 (kr_decl kr.2) req forb.

Definition cascadeEnvironmentPresence (env : string) : Op unit :=
  do* rows := gets ListPresence in
  let touched : gset string := list_to_set (pr_key <$> filter (λ r, pr_env r = env) rows) in
  if bool_decide (touched = ∅) then ret tt
  else
    do* _ := Catalogue_DeletePresenceForEnvironment env in
    do* ks := gets ListKeys in
    for_each ks (collapseKey touched (remaining rows env)).

(** [source] is the project's [definitions_source]. *)
Definition requireDBManagedDefinitions (source : string) : Op unit :=
  if bool_decide (source = "git") then fail (ErrConflict GitManaged) else ret tt.

(** [admitted]: the project's revision-rate budget takes the charge. *)
Definition bumpSchemaRevision (admitted : bool) : Op unit :=
  if admitted then Catalogue_BumpSchemaRevision else fail (ErrLimitExceeded "schema revisions").

(** The transaction of [Environments.Delete]; the project lock only serialises it
    against others. *)
Definition Environments_Delete_tx (source : string) (admitted : bool) (env : string) : Op unit :=
  do* _ := Authorize "environment.delete" env in
  do* _ := requireDBManagedDefinitions source in
  do* before := Environments_Get env in
  do* _ := cascadeEnvironmentPresence env in
  do* _ := Values_ClearEnvironment env in
  do* _ := Pending_DiscardEnvironment env in
  do* _ := Pins_DeleteEnvironment env in
  do* _ := Snapshots_DeleteEnvironment env in
  do* _ := SSH_PurgeEnvironment env in
  do* _ := release_env env in
  do* _ := Environments_Delete env in
  do* _ := bumpSchemaRevision admitted in
  event "settings.environment_deleted" env [er_name before].
End delete.

(** ** What remains of a rule *)

Lemma remaining_lookup rows env k ru :
  default 0 (remaining rows env !! (k, ru)) =
  length (filter (λ r, (pr_key r = k ∧ pr_rule r = ru) ∧ pr_env r ≠ env) rows).
Proof.
  unfold remaining. induction rows as [|r rows IH] using rev_ind; [done|].
  rewrite foldl_app, filter_app, length_app, <-IH. simpl. clear IH. set (m := foldl _ _ rows).
  case_bool_decide as He.
  - rewrite filter_cons_False by tauto. simpl. lia.
  - destruct (decide (pr_key r = k ∧ pr_rule r = ru)) as [[<- <-]|Hn].
    + rewrite lookup_insert_eq, filter_cons_True by done. simpl. lia.
    + rewrite lookup_insert_ne, filter_cons_False by naive_solver. simpl. lia.
Qed.

Section delete_facts.
Context `{SchemaLang, !SchemaLaws} {A : Type} `{AccessAdmin A}.
Implicit Types s : Project A.

(** A rule once the environment's rows are gone. *)
Definition left_of s (env id rule m : string) : string :=
  emptiedMode m (default 0 (remaining (ListPresence s) env !! (id, rule))).

Definition collapsed s (env id : string) (r : KeyRow) : KeyRow :=
  mkKeyRow (kr_name r) (kr_folder r) (kr_class r) (kr_desc r) (kr_deprecated r) (kr_note r) (kr_decl r)
    (left_of s env id PresenceRuleRequired (kr_required r))
    (left_of s env id PresenceRuleForbidden (kr_forbidden r)) (kr_group r).

Lemma remaining_zero s env id ru :
  default 0 (remaining (ListPresence s) env !! (id, ru)) = 0 ↔
  ∀ e, mkKeyPresence id e ru ∈ presence s → e = env.
Proof.
  rewrite remaining_lookup, length_zero_iff_nil. split.
  - intros E e He. apply dec_stable. intros Hne.
    apply (not_elem_of_nil (mkKeyPresence id e ru)). rewrite <-E. apply list_elem_of_filter.
    split; [done|]. unfold ListPresence. by rewrite elem_of_sort_by, elem_of_elements.
  - intros Hall. destruct (filter _ _) as [|[k e r] l] eqn:E; [done|]. exfalso.
    assert (mkKeyPresence k e r ∈ filter (λ r, (pr_key r = id ∧ pr_rule r = ru) ∧ pr_env r ≠ env) (ListPresence s)) as Hin
      by (rewrite E; by left).
    apply list_elem_of_filter in Hin as [[[<- <-] Hne] Hin]. unfold ListPresence in Hin.
    rewrite elem_of_sort_by, elem_of_elements in Hin. by apply Hne, Hall.
Qed.

(** The rows [s'] has left of [s]. *)
Definition without_env (env : string) s s' : Prop :=
  ∀ row, row ∈ presence s' ↔ row ∈ presence s ∧ pr_env row ≠ env.

Lemma left_rule s s' env id ru m :
  without_env env s s' → shaped (mkPresence m (explicit_envs m (presence_envs s id ru))) →
  let p := mkPresence m (explicit_envs m (presence_envs s id ru)) in
  let q := mkPresence (left_of s env id ru m) (explicit_envs (left_of s env id ru m) (presence_envs s' id ru)) in
  shaped q ∧ ∀ e, Covers q e = true → Covers p e = true.
Proof.
  intros Hw Hsh p q. unfold q, left_of, emptiedMode. case_bool_decide as Hm; simpl.
  - destruct (Nat.eqb_spec (default 0 (remaining (ListPresence s) env !! (id, ru))) 0) as [E|E].
    + split; [left; unfold explicit_envs; simpl; split; [by left|done]|]. intros e He. apply Covers_true in He. simpl in He.
      naive_solver.
    + subst m. unfold explicit_envs in *. simpl in *. destruct Hsh as [[[?|?] _]|(_ & _ & _ & Hz)]; [done|done|].
      simpl in Hz. split.
      * right. simpl. split_and!; [done| |apply presence_envs_nodup|].
        -- intros En. apply E, remaining_zero. intros e He. apply dec_stable. intros Hne.
           apply (not_elem_of_nil e). rewrite <-En, presence_envs_elem. by apply Hw.
        -- rewrite presence_envs_elem in Hz |- *. intros Hin. by apply Hz, Hw.
      * intros e. unfold p. rewrite !Covers_true. simpl. rewrite !presence_envs_elem. intros [?|[? Hin]]; [done|].
        right. split; [done|]. by apply Hw.
  - unfold explicit_envs in *. rewrite (bool_decide_eq_false_2 _ Hm) in *. split; [done|].
    intros e. unfold p, explicit_envs. by rewrite (bool_decide_eq_false_2 _ Hm).
Qed.

(** ** The cascade *)

(** What may refuse the delete of an environment that is there. *)
Definition refused (e : DefError) : bool :=
  match e with
  | ErrUnauthorized _ _ | ErrConflict GitManaged | ErrSSHLiveCA | ErrPKICertificateRetention
  | ErrLimitExceeded _ => true
  | ErrConflict (ForeignKey t) => bool_decide (t ∈ ["adapters"; "grants"])
  | ErrInternal w => bool_decide (w = "grants")
  | _ => false
  end.

(** [m] ends in [Q], or is refused for one of these reasons. *)
Local Abbreviation completes m s Q := (wp m s Q (λ e _, refused e = true)).

Lemma completes_stmt check f s Q :
  match check s with Some e => refused e = true | None => Q tt (f s) end → completes (stmt check f) s Q.
Proof. unfold wp, stmt. by destruct (check s). Qed.

Lemma completes_access e f s Q :
  refused e = true → (∀ a, Q tt (set_access s a)) → completes (with_access e f) s Q.
Proof. intros He HQ. unfold wp, with_access. destruct (f (access s)) as [a []]; auto. Qed.

(** What hangs off environments and the supply of identifiers, which the cascade
    leaves alone. *)
Definition cells s := (values s, pending s, pins s, snapshots s, minted s).

Definition cascade_frame s s' : Prop :=
  envs s' = envs s ∧ groups s' = groups s ∧ presence s' = presence s ∧ revision s' = revision s ∧ cells s' = cells s.

Lemma rule_mode_ok s env id ru m :
  shaped (mkPresence m (explicit_envs m (presence_envs s id ru))) → mode_ok (left_of s env id ru m) = true.
Proof.
  intros Hsh. unfold left_of, emptiedMode. destruct (_ && _); [done|].
  destruct Hsh as [[[E|E] _]|[E _]]; simpl in E; subst m; done.
Qed.

Lemma collapseKey_ok s0 env T id r s :
  keys s !! id = Some r → key_ok s0 id r →
  completes (collapseKey T (remaining (ListPresence s0) env) (id, r)) s (λ _ s',
    cascade_frame s s' ∧ keys s' = if bool_decide (id ∈ T) then <[id := collapsed s0 env id r]> (keys s) else keys s).
Proof.
  intros Hr Hko. unfold collapseKey. simpl.
  destruct (decide (id ∈ T)) as [HT|HT].
  2:{ rewrite bool_decide_eq_true_2, bool_decide_eq_false_2 by done. by apply wp_ret. }
  rewrite bool_decide_eq_false_2 by tauto. rewrite (bool_decide_eq_true_2 (id ∈ T)) by done.
  pose proof (ko_presence _ _ _ Hko) as Hc. apply CheckPresence_ok in Hc as (S1 & S2 & _).
  destruct (_ && _) eqn:E.
  - apply andb_true_iff in E as [E1%bool_decide_eq_true E2%bool_decide_eq_true]. apply wp_ret. split; [done|].
    symmetry. apply insert_id. rewrite Hr. f_equal. unfold collapsed, left_of. rewrite E1, E2. by destruct r.
  - unfold Catalogue_UpdateDeclaration, update_key. apply completes_stmt. cbn. rewrite bool_decide_eq_false_2 by (by rewrite Hr).
    pose proof (rule_mode_ok s0 env id _ _ S1) as M1. pose proof (rule_mode_ok s0 env id _ _ S2) as M2.
    unfold left_of in M1, M2. rewrite M1, M2. simpl. split; [done|].
    apply map_eq. intros i. destruct (decide (i = id)) as [->|Hi].
    + by rewrite lookup_alter_eq, lookup_insert_eq, Hr.
    + by rewrite lookup_alter_ne, lookup_insert_ne.
Qed.

Lemma collapseKeys_ok s0 env T l : ∀ s,
  NoDup l.*1 → (∀ id r, (id, r) ∈ l → keys s !! id = Some r ∧ key_ok s0 id r) →
  completes (for_each l (collapseKey T (remaining (ListPresence s0) env))) s (λ _ s',
    cascade_frame s s' ∧ ∀ id, keys s' !! id =
      if bool_decide (id ∈ l.*1 ∧ id ∈ T) then collapsed s0 env id <$> keys s !! id else keys s !! id).
Proof.
  induction l as [|[id r] l IH]; intros s Hnd Hl; cbn [for_each fmap list_fmap fst].
  { apply wp_ret. split; [done|]. intros id. rewrite bool_decide_eq_false_2; [done|]. intros [?%elem_of_nil _]. done. }
  simpl in Hnd. rewrite NoDup_cons in Hnd. destruct Hnd as [Hid Hnd].
  destruct (Hl id r) as [Hr Hko]; [by left|]. apply wp_bind. eapply wp_mono; [by apply collapseKey_ok| |done].
  intros ? s1 [(E1 & E2 & E3 & E4 & E5) K1]. simpl in K1.
  assert (∀ i, i ≠ id → keys s1 !! i = keys s !! i) as Hne.
  { intros i Hi. rewrite K1. case_bool_decide; [by rewrite lookup_insert_ne|done]. }
  eapply wp_mono; [apply IH; [done|]| |done].
  { intros i ri Hi. destruct (Hl i ri) as [? ?]; [by right|]. split; [|done]. rewrite Hne; [done|].
    intros ->. apply Hid. apply list_elem_of_fmap. by exists (id, ri). }
  intros ? s2 [(F1 & F2 & F3 & F4 & F5) K2]. split; [unfold cascade_frame; intuition congruence|].
  intros i. rewrite K2. destruct (decide (i = id)) as [->|Hi].
  - rewrite bool_decide_eq_false_2 by tauto. rewrite K1. case_bool_decide as HT.
    + rewrite lookup_insert_eq, bool_decide_eq_true_2 by (split; [by left|done]). by rewrite Hr.
    + rewrite bool_decide_eq_false_2; [done|tauto].
  - rewrite Hne by done. rewrite (bool_decide_ext (i ∈ id :: l.*1 ∧ i ∈ T) (i ∈ l.*1 ∧ i ∈ T)); [done|].
    rewrite elem_of_cons. naive_solver.
Qed.

(** A key no row of which names the environment keeps its modes. *)
Lemma collapsed_untouched s env id r :
  key_ok s id r → (∀ ru, mkKeyPresence id env ru ∉ presence s) → collapsed s env id r = r.
Proof.
  intros Hko Hno. pose proof (ko_presence _ _ _ Hko) as Hc. apply CheckPresence_ok in Hc as (S1 & S2 & _).
  assert (∀ ru m, shaped (mkPresence m (explicit_envs m (presence_envs s id ru))) → left_of s env id ru m = m) as Hm.
  { intros ru m Hsh. unfold left_of, emptiedMode. case_bool_decide as Hx; [|done]. simpl. subst m.
    destruct (Nat.eqb_spec (default 0 (remaining (ListPresence s) env !! (id, ru))) 0) as [E|E]; [|done]. exfalso.
    destruct Hsh as [[[?|?] _]|(_ & Hne & _)]; [done|done|]. simpl in Hne. unfold explicit_envs in Hne. simpl in Hne.
    destruct (presence_envs s id ru) as [|e l] eqn:El; [done|].
    assert (mkKeyPresence id e ru ∈ presence s) as Hin by (apply presence_envs_elem; rewrite El; by left).
    pose proof (proj1 (remaining_zero s env id ru) E e Hin) as ->. by apply (Hno ru). }
  unfold collapsed. rewrite (Hm _ _ S1), (Hm _ _ S2). by destruct r.
Qed.

Record cascaded (env : string) s s' : Prop := {
  cs_envs : envs s' = envs s;
  cs_groups : groups s' = groups s;
  cs_revision : revision s' = revision s;
  cs_cells : cells s' = cells s;
  cs_presence : without_env env s s';
  cs_keys : ∀ id, keys s' !! id = collapsed s env id <$> keys s !! id;
}.

Lemma cascade_ok s env :
  catalogue_ok s → completes (cascadeEnvironmentPresence env) s (λ _ s', cascaded env s s').
Proof.
  intros Hok. unfold cascadeEnvironmentPresence. apply wp_bind, wp_gets.
  set (T := list_to_set (pr_key <$> filter (λ r, pr_env r = env) (ListPresence s)) : gset string).
  assert (∀ id, id ∉ T → ∀ ru, mkKeyPresence id env ru ∉ presence s) as HT.
  { intros id Hid ru Hin. apply Hid. unfold T. apply elem_of_list_to_set, list_elem_of_fmap.
    exists (mkKeyPresence id env ru). split; [done|]. apply list_elem_of_filter. split; [done|].
    unfold ListPresence. by rewrite elem_of_sort_by, elem_of_elements. }
  assert (∀ id, id ∉ T → collapsed s env id <$> keys s !! id = keys s !! id) as Hsame.
  { intros id Hid. destruct (keys s !! id) as [r|] eqn:Hr; [|done]. simpl. f_equal.
    apply collapsed_untouched; [by apply Hok|by apply HT]. }
  case_bool_decide as He.
  - apply wp_ret. split; try done.
    + intros row. split; [|tauto]. intros Hin. split; [done|]. intros E.
      apply (HT (pr_key row) ltac:(rewrite He; set_solver) (pr_rule row)). destruct row; simpl in *. by subst.
    + intros id. rewrite Hsame; [done|rewrite He; set_solver].
  - apply wp_bind, wp_modify, wp_bind, wp_gets.
    assert (∀ id r, (id, r) ∈ ListKeys (set_presence s (filter (λ r, pr_env r ≠ env) (presence s))) ↔ keys s !! id = Some r) as Hin.
    { intros id r. unfold ListKeys. rewrite elem_of_sort_by. apply elem_of_map_to_list. }
    eapply wp_mono; [apply collapseKeys_ok| |done].
    + unfold ListKeys. rewrite sort_by_Permutation. apply NoDup_fst_map_to_list.
    + intros id r Hr%Hin. split; [done|by apply Hok].
    + intros ? s' [(E1 & E2 & E3 & E4 & E5) K]. split; [done|done|done|done| |].
      * intros row. rewrite E3. simpl. rewrite elem_of_filter. tauto.
      * intros id. rewrite K. simpl. case_bool_decide as Hx; [done|].
        destruct (keys s !! id) as [r|] eqn:Hr; [|done]. symmetry. rewrite <-Hr. apply Hsame. intros HidT. apply Hx.
        split; [|done]. apply list_elem_of_fmap. exists (id, r). split; [done|]. by apply Hin.
Qed.

(** ** The delete *)

(** The environment is gone, and nothing else but its traces in presence rules. *)
Record env_removed (env : string) s s' : Prop := {
  er_envs : envs s' = delete env (envs s);
  er_groups : groups s' = groups s;
  er_revision : revision s' = (revision s + 1)%Z;
  er_presence : without_env env s s';
  er_keys : ∀ id, keys s' !! id = collapsed s env id <$> keys s !! id;
  er_values : values s' = filter (λ v, v.2 ≠ env) (values s);
  er_pending : pending s' = filter (λ v, v.2 ≠ env) (pending s);
  er_pins : pins s' = filter (λ v, v.1 ≠ env) (pins s);
  er_snapshots : snapshots s' = filter (λ v, v.1 ≠ env) (snapshots s);
  er_minted : minted s' = minted s;
}.

(** Grants and rules are no part of the catalogue's invariant. *)
Lemma access_ok s a : catalogue_ok s → catalogue_ok (set_access s a).
Proof.
  intros [O1 O2 O3 O4 O5 O6 O7 O8]. split; try assumption.
  intros id r Hr. destruct (O7 id r Hr). by split.
Qed.

Lemma env_get_ok s env r Q : envs s !! env = Some r → Q r s → completes (Environments_Get env) s Q.
Proof. intros Hr HQ. unfold wp, Environments_Get. by rewrite Hr. Qed.

(** No row of the environment is left. *)
Definition cleared (env : string) s : Prop :=
  (∀ v, v ∈ values s → v.2 ≠ env) ∧ (∀ v, v ∈ pending s → v.2 ≠ env) ∧ (∀ v, v ∈ snapshots s → v.1 ≠ env)
  ∧ (∀ v, v ∈ pins s → v.1 ≠ env) ∧ (∀ row, row ∈ presence s → pr_env row ≠ env) ∧ (env ∉ ssh_rows s).

Lemma none_refers {T} (P : T → Prop) `{∀ x, Decision (P x)} `{Countable T} (X : gset T) :
  (∀ x, x ∈ X → ¬ P x) → bool_decide (set_Exists P X) = false.
Proof. intros Hno. apply bool_decide_eq_false. intros (x & Hx & HP). by eapply Hno. Qed.

Lemma row_deleted s env Q :
  is_Some (envs s !! env) → cleared env s → Q tt (set_envs s (delete env (envs s))) →
  completes (Environments_Delete env) s Q.
Proof.
  intros [r Hr] (C1 & C2 & C3 & C4 & C5 & C6) HQ. apply completes_stmt.
  case_bool_decide; [done|]. rewrite bool_decide_eq_false_2 by (by rewrite Hr). unfold env_referenced.
  rewrite !none_refers by done. rewrite bool_decide_eq_false_2 by done.
  case_bool_decide; [done|]. by destruct (refs_env (access s) env).
Qed.

(** The statements between the cascade and the row's delete. *)
Definition cut (env : string) s (a : A) : Project A :=
  set_access (set_ssh_rows (set_snapshots (set_pins (set_pending (set_values s
    (filter (λ v, v.2 ≠ env) (values s))) (filter (λ v, v.2 ≠ env) (pending s)))
    (filter (λ v, v.1 ≠ env) (pins s))) (filter (λ v, v.1 ≠ env) (snapshots s))
    (filter (λ v, v.1 ≠ env) (snapshot_rows s))) (ssh_rows s ∖ {[ env ]})) a.

Lemma cut_cleared env s a : (∀ row, row ∈ presence s → pr_env row ≠ env) → cleared env (cut env s a).
Proof.
  intros Hp. unfold cleared, cut. simpl.
  split_and!; [by intros v [? _]%elem_of_filter..|done|]. rewrite elem_of_difference, elem_of_singleton. tauto.
Qed.

Lemma cut_ok env s {X} (k : M (Project A) DefError X) Q :
  (∀ a, completes k (cut env s a) Q) →
  completes (do* _ := Values_ClearEnvironment env in do* _ := Pending_DiscardEnvironment env in
             do* _ := Pins_DeleteEnvironment env in do* _ := Snapshots_DeleteEnvironment env in
             do* _ := SSH_PurgeEnvironment env in do* _ := release_env env in k) s Q.
Proof.
  intros Hk. do 3 apply wp_bind, wp_modify. apply wp_bind, completes_stmt. rewrite none_refers.
  2:{ intros v [? _]%elem_of_filter [E _]. done. }
  apply wp_bind, completes_stmt. case_bool_decide; [done|]. apply wp_bind, completes_access; [done|]. apply Hk.
Qed.

Lemma recorded_ok admitted ty object payload s Q :
  (∀ tr, Q tt (set_trail (set_revision s (revision s + 1)) tr)) →
  completes (do* _ := bumpSchemaRevision admitted in event ty object payload) s Q.
Proof.
  intros HQ. apply wp_bind. unfold bumpSchemaRevision. destruct admitted; [|by apply wp_fail].
  apply wp_modify. apply wp_modify. apply HQ.
Qed.

Lemma removed_of a a' tr env s s1 :
  cascaded env (set_access s a) s1 →
  let s2 := set_envs (cut env s1 a') (delete env (envs (cut env s1 a'))) in
  env_removed env s (set_trail (set_revision s2 (revision s2 + 1)) tr).
Proof.
  intros [C1 C2 C3 Cc C4 C5]. injection Cc as V1 V2 V3 V4 V5.
  split; simpl; [by rewrite C1|done|by rewrite C3|exact C4|done|by rewrite V1|by rewrite V2|by rewrite V3|by rewrite V4|done].
Qed.

Lemma delete_ok s source admitted env :
  catalogue_ok s → is_Some (envs s !! env) →
  completes (Environments_Delete_tx source admitted env) s (λ _ s', env_removed env s s').
Proof.
  intros Hok [r Hr]. unfold Environments_Delete_tx.
  apply wp_bind, completes_access; [done|]. intros a. apply wp_bind. unfold requireDBManagedDefinitions.
  case_bool_decide; [by apply wp_fail|]. apply wp_ret, wp_bind, (env_get_ok _ _ r); [done|].
  apply wp_bind. eapply wp_mono; [apply cascade_ok; by apply access_ok| |done].
  intros ? s1 Hc. apply cut_ok. intros a'.
  apply wp_bind, row_deleted; [exists r; unfold cut; simpl; by rewrite (cs_envs _ _ _ Hc)| |].
  { apply cut_cleared. by intros row [_ ?]%(cs_presence _ _ _ Hc). }
  apply recorded_ok. intros tr. exact (removed_of a a' tr env s s1 Hc).
Qed.

(** The invariant after the delete. *)
Lemma removed_ok env s s' : catalogue_ok s → env_removed env s s' → catalogue_ok s'.
Proof.
  intros Hok [E1 E2 E3 E4 E5].
  assert (kr_name <$> keys s' = kr_name <$> keys s) as En.
  { apply map_eq. intros id. rewrite !lookup_fmap, E5. by destruct (keys s !! id). }
  assert (∀ id n, (er_name <$> envs s') !! id = Some n → id ≠ env ∧ (er_name <$> envs s) !! id = Some n) as He.
  { intros id n. rewrite E1, fmap_delete, lookup_delete_Some. naive_solver. }
  split.
  - intros i j n [_ Hi]%He [_ Hj]%He. by eapply (ok_env_names _ Hok).
  - rewrite E2. apply Hok.
  - rewrite En. apply Hok.
  - intros id [r Hr]. rewrite E1, lookup_delete_Some in Hr. apply (ok_env_ids _ Hok). naive_solver.
  - rewrite E2. apply Hok.
  - intros id [r Hr]. rewrite E5, fmap_Some in Hr. destruct Hr as (r0 & Hr0 & _). apply (ok_key_ids _ Hok). by eexists.
  - intros id r Hr. rewrite E5, fmap_Some in Hr. destruct Hr as (r0 & Hr0 & ->).
    pose proof (ok_keys _ Hok id r0 Hr0) as [K1 K2 K3 K4]. split; [done|by rewrite E2|done|].
    apply CheckPresence_ok in K4 as (S1 & S2 & Hno). apply CheckPresence_ok.
    destruct (left_rule s s' env id _ _ E4 S1) as [Q1 V1], (left_rule s s' env id _ _ E4 S2) as [Q2 V2].
    split; [exact Q1|]. split; [exact Q2|]. intros e [Ca Cb]. apply (Hno e). split; [by apply V1|by apply V2].
  - intros row [Hin Hne]%E4. destruct (ok_presence _ Hok row Hin) as [[k Hk] Hev]. split.
    + rewrite E5, Hk. by eexists.
    + by rewrite E1, lookup_delete_ne.
Qed.
End delete_facts.
