(* ===== verification/DefinitionsProps.v ===== *)
(** * Definitions bundles: the properties

    An apply converges, an additive apply only adds, an export is in sync, what
    deleting an environment leaves, and what an apply cannot delete. *)

From stdpp Require Import prelude gmap strings pretty list.
From S2P Require Import Prelude StateErr Presence Definitions DefinitionsMatch Catalogue DefinitionsApply.
From S2P Require Import DefinitionsState DefinitionsRealize DefinitionsExec DefinitionsKeys DefinitionsTopology.
From S2P Require Import DefinitionsConverge DefinitionsParse DefinitionsExport EnvironmentDelete.

Section props.
Context `{SchemaLang, !SchemaLaws} {A : Type} `{AccessAdmin A}.
Context (newid : string → nat → option string).
Implicit Types s : Project A.

(** No identifier is minted twice. *)
Definition mints_once : Prop := ∀ p p' n n' id, newid p n = Some id → newid p' n' = Some id → n = n'.

Lemma current_reads s cur : catalogue_ok s → buildCurrentState s = (s, Ok cur) → reads s cur.
Proof. intros Hok Hb. destruct (buildCurrentState_reads s Hok) as (cur' & Hb' & Hr). rewrite Hb in Hb'. by injection Hb' as <-. Qed.

(** The execution of a resolved canonical bundle, and its plan. *)
Lemma apply_outcome s b0 b decls encodedLen cur res rev :
  mints_once → catalogue_ok s → fresh newid s → Canonicalize encodedLen b0 = Ok (b, decls) →
  buildCurrentState s = (s, Ok cur) → Resolve b cur = Ok res →
  (canonical b ∧ ∃ em gm km, planned b cur res em gm km)
  ∧ wp (executeResolution newid res cur decls rev) s (λ _ s', converged newid b res s s')
      (λ e _, refused_for b res s e).
Proof.
  intros Hm Hok Hf Hc Hb Hres. pose proof (current_reads s cur Hok Hb) as Hrd.
  destruct (Canonicalize_spec _ _ _ _ Hc) as [Hcz Hd].
  destruct (resolve_planned b cur res) as (em & gm & km & Hp); [apply Hrd|apply Hrd|apply Hrd|done|].
  pose proof (resolved_canonical _ _ _ _ _ _ _ Hcz Hp) as Hcan. split; [eauto|].
  eapply execute_converges; [done|done|done|done|done|done|]. apply Hd, Hcan.
Qed.

(** C4 Applying a definitions bundle converges. From a catalogue that keeps its
    invariant, whatever the bundle renames (swaps and cycles included), creates,
    updates and deletes, the executor never runs into a taken name, a dangling
    reference or a missing row of its own. It is refused only from outside the
    definitions (the caller's authority, git management, rows of adapters, pins,
    values, certificates or grants that still reference what is deleted, the
    source of ids), because a key of the bundle both requires and forbids an
    environment, or because an entry of the bundle turns a stored secret into
    config. Otherwise the invariant holds again, every entry of the bundle is in
    the catalogue with exactly its declared attributes, a bundle with a base
    leaves nothing else, an environment that is not deleted keeps its order and
    protection, and resolving the same bundle once more gives the empty plan. *)
Theorem apply_converges s b0 b decls encodedLen cur res :
  mints_once → catalogue_ok s → fresh newid s → Canonicalize encodedLen b0 = Ok (b, decls) →
  buildCurrentState s = (s, Ok cur) → Resolve b cur = Ok res →
  match executeResolution newid res cur decls (SchemaRevision cur + 1) s with
  | (s', Ok _) =>
      (catalogue_ok s' ∧ fresh newid s') ∧ realizes b s' ∧ (Additive b = false → exactly b s')
      ∧ (∀ id r, envs s !! id = Some r → id ∉ ids_of (EnvDeletes res) →
           ∃ r', envs s' !! id = Some r' ∧ er_order r' = er_order r ∧ er_protected r' = er_protected r)
      ∧ ∃ cur' res', buildCurrentState s' = (s', Ok cur') ∧ Resolve b cur' = Ok res' ∧ Empty res' = true
  | (_, Err e) => refused_for b res s e
  end.
Proof.
  intros Hm Hok Hf Hc Hb Hres.
  destruct (apply_outcome s b0 b decls encodedLen cur res (SchemaRevision cur + 1) Hm Hok Hf Hc Hb Hres) as [[Hcan _] Hs].
  unfold wp in Hs. destruct (executeResolution _ _ _ _ _ _) as [s' [[]|e]]; [|done].
  destruct Hs as [O1 O2 O3 O4 O5 O6]. split_and!; [done..| |].
  { intros id r Hr Hid. destruct (O6 id r Hr Hid) as (r' & ? & [= ? ?]). by exists r'. }
  destruct (buildCurrentState_reads s' O1) as (cur' & Hb' & Hr').
  destruct (realizes_empty b s' cur' true O1 Hr' Hcan O3 O4) as (res' & E & Hemp). by exists cur', res'.
Qed.

(** C16 An additive bundle only adds. Its resolution renames, updates and deletes
    nothing, and executing it keeps every environment with its whole row (name,
    order, protection), every key group with its name, and every key with its
    whole row and its presence rules. *)
Theorem additive_only_adds s b0 b decls encodedLen cur res rev s' :
  mints_once → catalogue_ok s → fresh newid s → Canonicalize encodedLen b0 = Ok (b, decls) →
  Additive b = true → buildCurrentState s = (s, Ok cur) → Resolve b cur = Ok res →
  executeResolution newid res cur decls rev s = (s', Ok tt) →
  (EnvRenames res = [] ∧ GroupRenames res = [] ∧ KeyUpdates res = [] ∧ DeletionsPresent res = false) ∧ extends s s'.
Proof.
  intros Hm Hok Hf Hc Ha Hb Hres He.
  destruct (apply_outcome s b0 b decls encodedLen cur res rev Hm Hok Hf Hc Hb Hres) as [[Hcan (em & gm & km & Hp)] Hs].
  unfold wp in Hs. rewrite He in Hs. pose proof (current_reads s cur Hok Hb) as Hrd.
  destruct (cb_no_ids _ Hcan Ha) as (Ne & Ng & _).
  split; [|by apply (cv_extends _ _ _ _ _ Hs)]. split_and!.
  - rewrite (pn_er _ _ _ _ _ _ Hp). eapply additive_no_renames; [apply (rd_wf_env _ _ Hrd)|apply Hp|done].
  - rewrite (pn_gr _ _ _ _ _ _ Hp). eapply additive_no_renames; [apply (rd_wf_group _ _ Hrd)|apply Hp|done].
  - by apply (pn_additive _ _ _ _ _ _ Hp).
  - unfold DeletionsPresent. rewrite (pn_ed _ _ _ _ _ _ Hp), (pn_gd _ _ _ _ _ _ Hp), (pn_kd _ _ _ _ _ _ Hp).
    rewrite (additive_no_deletes _ _ _ _ (pn_env _ _ _ _ _ _ Hp) Ha), (additive_no_deletes _ _ _ _ (pn_group _ _ _ _ _ _ Hp) Ha),
      (additive_no_deletes _ _ _ _ (pn_key _ _ _ _ _ _ Hp) Ha). done.
Qed.

(** C13 An export is in sync. Exporting a catalogue that keeps its invariant is
    refused only over a size limit, and the canonical bundle it gives, with ids
    or portable, is classified as equal when checked against the same state. *)
Theorem export_in_sync s encodedLen cur withIDs :
  catalogue_ok s → named s → buildCurrentState s = (s, Ok cur) →
  match Canonicalize encodedLen (bundleFromState cur withIDs) with
  | Ok (b, _) => Classify b cur = Ok DriftEqual
  | Err e => (∃ n, e = TooManyEntries n) ∨ ∃ n, e = TooManyBytes n
  end.
Proof.
  intros Hok Hn Hb. pose proof (current_reads s cur Hok Hb) as Hrd.
  destruct (Canonicalize _ _) as [[b d]|e] eqn:E.
  - apply Canonicalize_spec in E as [Hcz _]. by eapply export_equal.
  - by eapply export_refusals.
Qed.

(** C18 Deleting an environment. On a project that keeps its invariant, the
    service's delete of an environment that is there is refused only for the
    caller's authority, definitions managed from git, a live SSH authority, issued
    certificates, an adapter or grant that still references it, or the rate of schema revisions;
    revision pins never stand in its way. Otherwise the invariant holds again,
    exactly that environment is gone with what hung off it, its id left every
    presence rule, and a rule it emptied is [none]. *)
Theorem environment_delete_cascades s source admitted env :
  catalogue_ok s → is_Some (envs s !! env) →
  match Environments_Delete_tx source admitted env s with
  | (s', Ok _) => catalogue_ok s' ∧ env_removed env s s'
  | (_, Err e) => refused e = true
  end.
Proof.
  intros Hok He. pose proof (delete_ok s source admitted env Hok He) as Hd. unfold wp in Hd.
  destruct (Environments_Delete_tx _ _ _ _) as [s' [[]|e]]; [|done]. split; [by eapply removed_ok|done].
Qed.

(** C38 A definitions apply cannot delete an environment that a revision pin
    still references: the cascade deletes the snapshots before the pins, and
    the foreign key of [revision_pins] refuses. *)
Theorem pinned_environment_kept s env snap :
  (env, snap) ∈ pins s → (env, snap) ∈ snapshots s → (AuthorizeEnv "environment.delete" env (access s)).2 = true →
  (deleteEnvironment env s).2 = Err (ErrConflict (ForeignKey "revision_pins")).
Proof.
  intros Hp Hs Ha. unfold deleteEnvironment, Authorize, with_access, bind at 1.
  destruct (AuthorizeEnv _ _ _) as [a ok]. simpl in Ha. subst ok.
  unfold Pending_DiscardEnvironment, bind at 1. simpl. unfold Snapshots_DeleteEnvironment, bind at 1, stmt. simpl.
  rewrite bool_decide_eq_true_2; [done|]. by exists (env, snap).
Qed.
End props.

(** ** A sample project

    Declarations as plain texts, an access component that allows everything,
    numbered ids. The first bundle fills a blank project; the second swaps the
    two environments' names, renames a key into a new name while a new key takes
    its old one, drops the group, creates an environment and deletes a key. *)

Definition plain_schema : SchemaLang := {|
  Declaration := string; Declaration_eq_dec := _; ValueDependentChange a b := bool_decide (a ≠ b);
  CompileClassified _ d := if bool_decide (d = "") then None else Some d;
  CompiledCanonical d := Some d; ParseDeclaration t := Some t |}.

Definition plain_laws : @SchemaLaws plain_schema.
Proof.
  split; simpl.
  - intros c d n. case_bool_decide as E; [done|]. intros [= <-]. by rewrite bool_decide_eq_false_2.
  - intros c n _. eauto.
  - intros c c' n n' _ _. rewrite bool_decide_eq_false. split; [apply dec_stable|tauto].
  - intros c c' n n' _. case_bool_decide; congruence.
Defined.

Definition open_access : AccessAdmin () := {|
  AuthorizeEnv _ _ a := (a, true); releaseEnvironmentGrants _ a := (a, true); releaseKeyRules _ a := (a, true);
  refs_env _ _ := false; refs_key _ _ := false |}.

#[local] Existing Instances plain_schema plain_laws open_access.

Definition numbered (p : string) (n : nat) : option string := Some ("k" +:+ pretty n).

Lemma numbered_once : mints_once numbered.
Proof. intros p p' n n' id. unfold numbered. intros [= <-] [= E]. by apply (inj pretty). Qed.

Definition blank : Project () := mkProject ∅ ∅ ∅ ∅ 0 ∅ ∅ ∅ ∅ ∅ ∅ ∅ ∅ ∅ ∅ ∅ 0 [] tt.

Lemma blank_ok : catalogue_ok blank ∧ fresh numbered blank.
Proof.
  split.
  - split; simpl; try (intros *; rewrite ?fmap_empty, ?lookup_empty; by (intros ? || intros [? ?])); done.
  - intros p n id _ [= <-]. split; [by split|]. unfold in_use. simpl. set_solver.
Qed.

Definition sample_key (id name class group : string) (required : list string) : @Key plain_schema :=
  @mkKey plain_schema id name "/" class "" false "" group "string"
    (mkPresence (if required is [] then PresenceNone else PresenceExplicit) required) (mkPresence PresenceNone []).

Definition first_bundle : Bundle :=
  mkBundle 1 None [mkEntity "" "dev"; mkEntity "" "prod"] [mkEntity "" "db"]
    [sample_key "" "URL" Config "db" ["prod"]; sample_key "" "TOKEN" Secret "" []].

Definition second_bundle : Bundle :=
  mkBundle 1 (Some 0%Z) [mkEntity "k0" "prod"; mkEntity "k1" "dev"; mkEntity "" "test"] []
    [sample_key "k4" "HOST" Config "" ["dev"; "test"]; sample_key "" "URL" Secret "" []].

Definition small (b : Bundle) : N := 0.

(** The steps of an apply, each where the one before succeeded. *)
Definition current (s : Project ()) : CurrentState :=
  match (buildCurrentState s).2 with Ok c => c | Err _ => mkCurrentState 0 [] [] [] end.
Definition canonical_of (b : Bundle) : Bundle * gmap string Declaration :=
  match Canonicalize small b with Ok bd => bd | Err _ => (b, ∅) end.
Definition plan (b : Bundle) (s : Project ()) : Resolution :=
  match Resolve (canonical_of b).1 (current s) with
  | Ok r => r | Err _ => mkResolution false [] [] [] [] [] [] [] [] [] [] end.
Definition run (b : Bundle) (s : Project ()) : Project () * result DefError unit :=
  executeResolution numbered (plan b s) (current s) (canonical_of b).2 (SchemaRevision (current s) + 1) s.

Definition sample : Project () := (run first_bundle blank).1.

Lemma sample_ok : catalogue_ok sample ∧ fresh numbered sample.
Proof.
  destruct (apply_outcome numbered blank first_bundle (canonical_of first_bundle).1 (canonical_of first_bundle).2 small
    (current blank) (plan first_bundle blank) (SchemaRevision (current blank) + 1)) as [_ Hs].
  - apply numbered_once.
  - apply blank_ok.
  - apply blank_ok.
  - vm_compute. reflexivity.
  - vm_compute. reflexivity.
  - vm_compute. reflexivity.
  - unfold sample, run. unfold wp in Hs.
    destruct (executeResolution _ _ _ _ _ _) as [s' [[]|e]] eqn:E.
    + split; [apply (cv_ok _ _ _ _ _ Hs)|apply (cv_fresh _ _ _ _ _ Hs)].
    + exfalso. assert ((run first_bundle blank).2 = Ok tt) as Hr by (vm_compute; reflexivity).
      unfold run in Hr. rewrite E in Hr. discriminate.
Qed.

(** What the witnesses evaluate, kept folded in the statements. *)
Opaque executeResolution buildCurrentState Resolve Canonicalize.

Lemma sample_current : buildCurrentState sample = (sample, Ok (current sample)).
Proof. vm_compute. reflexivity. Qed.

Lemma apply_converges_witness :
  EnvRenames (plan second_bundle sample) = [mkRename "k1" "prod" "dev"; mkRename "k0" "dev" "prod"]
  ∧ (run second_bundle sample).2 = Ok tt
  ∧ match run second_bundle sample with
    | (s', Ok _) =>
        (catalogue_ok s' ∧ fresh numbered s') ∧ realizes (canonical_of second_bundle).1 s'
        ∧ (Additive (canonical_of second_bundle).1 = false → exactly (canonical_of second_bundle).1 s')
        ∧ (∀ id r, envs sample !! id = Some r → id ∉ ids_of (EnvDeletes (plan second_bundle sample)) →
             ∃ r', envs s' !! id = Some r' ∧ er_order r' = er_order r ∧ er_protected r' = er_protected r)
        ∧ ∃ cur' res', buildCurrentState s' = (s', Ok cur') ∧ Resolve (canonical_of second_bundle).1 cur' = Ok res'
            ∧ Empty res' = true
    | (_, Err e) => refused_for (canonical_of second_bundle).1 (plan second_bundle sample) sample e
    end.
Proof.
  split; [vm_compute; reflexivity|]. split; [vm_compute; reflexivity|].
  assert (Canonicalize small second_bundle = Ok ((canonical_of second_bundle).1, (canonical_of second_bundle).2))
    as Hc by (vm_compute; reflexivity).
  assert (Resolve (canonical_of second_bundle).1 (current sample) = Ok (plan second_bundle sample))
    as Hr by (vm_compute; reflexivity).
  pose proof (apply_converges numbered sample second_bundle (canonical_of second_bundle).1
    (canonical_of second_bundle).2 small (current sample) (plan second_bundle sample) numbered_once (proj1 sample_ok)
    (proj2 sample_ok) Hc sample_current Hr) as Hw. unfold run. exact Hw.
Defined.

(** An additive bundle over the sample: an environment and a key more. *)
Definition third_bundle : Bundle :=
  mkBundle 1 None [mkEntity "" "dev"; mkEntity "" "qa"] []
    [sample_key "" "TOKEN" Secret "" []; sample_key "" "FLAG" Config "" ["qa"]].

Lemma additive_only_adds_witness :
  EnvCreates (plan third_bundle sample) = ["qa"] ∧ extends sample (run third_bundle sample).1.
Proof.
  split; [vm_compute; reflexivity|].
  assert (Canonicalize small third_bundle = Ok ((canonical_of third_bundle).1, (canonical_of third_bundle).2))
    as Hc by (vm_compute; reflexivity).
  assert (Resolve (canonical_of third_bundle).1 (current sample) = Ok (plan third_bundle sample))
    as Hr by (vm_compute; reflexivity).
  assert (executeResolution numbered (plan third_bundle sample) (current sample) (canonical_of third_bundle).2
            (SchemaRevision (current sample) + 1) sample = ((run third_bundle sample).1, Ok tt)) as He
    by (vm_compute; reflexivity).
  pose proof (additive_only_adds numbered sample third_bundle _ _ small _ _ _ _ numbered_once (proj1 sample_ok)
    (proj2 sample_ok) Hc eq_refl sample_current Hr He) as [_ Hw]. exact Hw.
Defined.

Lemma sample_named : named sample.
Proof.
  assert (map_Forall (λ _ n, n ≠ "") (env_names sample)) as He by (apply (bool_decide_unpack _); vm_compute; exact I).
  assert (map_Forall (λ _ n, n ≠ "") (groups sample)) as Hg by (apply (bool_decide_unpack _); vm_compute; exact I).
  split; [exact He|exact Hg].
Qed.

Lemma export_in_sync_witness :
  length (b_keys (bundleFromState (current sample) true)) = 2
  ∧ match Canonicalize small (bundleFromState (current sample) true) with
    | Ok (b, _) => Classify b (current sample) = Ok DriftEqual
    | Err e => (∃ n, e = TooManyEntries n) ∨ ∃ n, e = TooManyBytes n
    end.
Proof.
  split; [vm_compute; reflexivity|].
  pose proof (export_in_sync sample small (current sample) true (proj1 sample_ok) sample_named sample_current) as Hw.
  exact Hw.
Defined.

(** The environment the sample's [URL] is required in, and in no other. *)
Lemma environment_delete_cascades_witness :
  (Environments_Delete_tx "database" true "k1" sample).2 = Ok tt
  ∧ (kr_required <$> keys (Environments_Delete_tx "database" true "k1" sample).1 !! "k4") = Some PresenceNone
  ∧ match Environments_Delete_tx "database" true "k1" sample with
    | (s', Ok _) => catalogue_ok s' ∧ env_removed "k1" sample s'
    | (_, Err e) => refused e = true
    end.
Proof.
  split; [vm_compute; reflexivity|]. split; [vm_compute; reflexivity|].
  assert (is_Some (envs sample !! "k1")) as He by (apply (bool_decide_unpack _); vm_compute; exact I).
  pose proof (environment_delete_cascades sample "database" true "k1" (proj1 sample_ok) He) as Hw. exact Hw.
Defined.

(** An empty environment whose one revision is pinned. *)
Definition pinned : Project () :=
  mkProject {[ "e1" := mkEnvRow "dev" 0 false ]} ∅ ∅ ∅ 1 ∅ ∅ ∅ {[ ("e1", "s1") ]} ∅ {[ ("e1", "s1") ]} ∅ ∅ ∅ ∅ ∅ 0 [] tt.

Lemma pinned_environment_kept_witness :
  (deleteEnvironment "e1" pinned).2 = Err (ErrConflict (ForeignKey "revision_pins")).
Proof.
  apply (pinned_environment_kept pinned "e1" "s1"); [apply (bool_decide_unpack _); vm_compute; exact I..|reflexivity].
Defined.
