(* ===== verification/EntityNames.v ===== *)
(** * Names, paths and limits of a project's definitions

    The grammars of [internal/service/hierarchy.go] and [internal/schema] for
    environment, group and key names, folder paths and descriptions, and the
    limits of [catalogue_limits.go], [project_capacity.go] and
    [internal/config/catalogue.go]. Strings are Go strings: sequences of
    bytes. *)

From Stdlib Require Import Ascii.
From stdpp Require Import prelude strings list.
From S2P Require Import Prelude FreeText Bytes Parameters Dotenv.

Inductive name_err :=
| NameEmpty | NameTooLong | NameNotUTF8 | NameWhitespace | NameControl | NameNUL
| NameGrammar | SegmentReserved | PathTooLong | PathTooDeep | LooksSecret.

Definition maxNameBytes : nat := 128.
Definition maxFolderPathLen : nat := 256.
Definition maxFolderPathSegs : nat := 32.
Definition MaxDescriptionBytes : nat := 4096.

Definition checkName (name : string) : result name_err unit :=
  let s := lit name in
  if bool_decide (name = "") then Err NameEmpty
  else if bool_decide (maxNameBytes < length s) then Err NameTooLong
  else if negb (ValidString s) then Err NameNotUTF8
  else if bool_decide (TrimSpace s ≠ s) then Err NameWhitespace
  else if has_control s then Err NameControl
  else Ok tt.

Definition CheckGroupName (name : string) : result name_err unit :=
  let s := lit name in
  if bool_decide (name = "") then Err NameEmpty
  else if bool_decide (MaxKeyNameBytes < length s) then Err NameTooLong
  else if bool_decide (TrimSpace s ≠ s) then Err NameWhitespace
  else if negb (ValidString s) then Err NameNotUTF8
  else if bool_decide (nul ∈ s) then Err NameNUL
  else Ok tt.

(** [CheckKeyName] of a Go string. *)
Definition checkKeyName (name : string) : result name_err unit :=
  match CheckKeyName (lit name) with
  | Ok u => Ok u
  | Err KeyEmpty => Err NameEmpty
  | Err KeyTooLong => Err NameTooLong
  | Err (KeyGrammar _) => Err NameGrammar
  end.

Definition CheckDescription (text : string) : result name_err unit :=
  let s := lit text in
  if bool_decide (MaxDescriptionBytes < length s) then Err NameTooLong
  else if negb (ValidString s) then Err NameNotUTF8
  else if bool_decide (nul ∈ s) then Err NameNUL
  else Ok tt.

(** The loop over the segments. *)
Fixpoint checkSegments (segments : list bytes) : result name_err unit :=
  match segments with
  | [] => Ok tt
  | segment :: segments =>
      if bool_decide (segment = lit ".") || bool_decide (segment = lit "..") then Err SegmentReserved
      else let! _ := checkName (String.string_of_list_ascii segment) in checkSegments segments
  end.

Definition checkFolderPath (path : string) : result name_err unit :=
  if bool_decide (maxFolderPathLen < length (lit path)) then Err PathTooLong
  else
    let segments := Split "/"%char (lit path) in
    if bool_decide (maxFolderPathSegs < length segments) then Err PathTooDeep
    else checkSegments segments.

Definition checkKeyFolderPath (path : string) : result name_err unit :=
  if bool_decide (path = "") then Ok tt else checkFolderPath path.

(** ** Provenance labels *)

Definition MaxProvenanceBytes : nat := 256.

Definition word_byte (c : ascii) : bool := base62 c || bool_decide (c = "_"%char) || bool_decide (c = "-"%char).

(** [bearerShapedRe]: 32 of these bytes in a row; [n] counts the current run. *)
Fixpoint bearerShaped (n : nat) (s : bytes) : bool :=
  bool_decide (32 ≤ n) || match s with [] => false | c :: s => bearerShaped (if word_byte c then S n else 0) s end.

(** The runes below U+0020 and U+007F are single bytes. *)
Definition sanitizeProvenance (s : string) : result name_err string :=
  let b := lit s in
  if bool_decide (s = "") then Ok ""
  else if bool_decide (MaxProvenanceBytes < length b) then Err NameTooLong
  else if existsb control b then Err NameControl
  else if bool_decide (RedactTokens b ≠ b) || bearerShaped 0 b then Err LooksSecret
  else Ok s.

(** ** Limits *)

Definition MaxEnvironmentsPerProject : Z := 50.
Definition MaxResolvedCells : Z := 100000.
Definition MaxKeyGroupsPerProject : Z := 100.
Definition DefaultKeysPerProject : Z := 1000.
Definition DefaultMaxKeysPerProject : Z := 10000.
Definition MaxKeysPerProjectCeiling : Z := 10000.

Inductive limit_err := BadKeyLimit | BadPolicy | BadSaved | OverKeys (limit : Z) | OverCells.

Definition EffectiveDefaultKeysPerProject (limit : Z) : Z := if (limit =? 0)%Z then DefaultKeysPerProject else limit.
Definition EffectiveMaxKeysPerProject (limit : Z) : Z := if (limit =? 0)%Z then DefaultMaxKeysPerProject else limit.

(** [resolveProjectCapacity], as far as its effective limit. *)
Definition projectKeyLimit (saved : option Z) (instanceDefault instanceMaximum : Z) : result limit_err Z :=
  let defaultLimit := EffectiveDefaultKeysPerProject instanceDefault in
  let maximum := EffectiveMaxKeysPerProject instanceMaximum in
  if ((defaultLimit <? 1) || (maximum <? defaultLimit) || (MaxKeysPerProjectCeiling <? maximum))%Z then Err BadPolicy
  else
    let! limit :=
      match saved with
      | None => Ok defaultLimit
      | Some n => if ((n <? 1) || (MaxKeysPerProjectCeiling <? n))%Z then Err BadSaved else Ok n
      end in
    Ok (if (maximum <? limit)%Z then maximum else limit).

Definition checkProjectKeyGrowth (current next configuredLimit : Z) : result limit_err unit :=
  let limit := EffectiveDefaultKeysPerProject configuredLimit in
  if ((limit <? 1) || (MaxKeysPerProjectCeiling <? limit))%Z then Err BadKeyLimit
  else if ((limit <? next) && (current <? next))%Z then Err (OverKeys limit)
  else Ok tt.

(** Go's [/] on non-negative operands. *)
Definition checkResolvedCells (keys environments : Z) : result limit_err unit :=
  if ((0 <? environments) && (MaxResolvedCells / environments <? keys))%Z then Err OverCells else Ok tt.

(** ** What the checks give *)

(** A name of an environment: 1 to 128 bytes of UTF-8 without control characters
    or surrounding space. *)
Definition env_name (n : string) : Prop :=
  n ≠ "" ∧ length (lit n) ≤ 128 ∧ ValidString (lit n) = true ∧ TrimSpace (lit n) = lit n ∧ has_control (lit n) = false.

(** A name of a key group: the same, but for [NUL] as its only excluded character. *)
Definition group_name (n : string) : Prop :=
  n ≠ "" ∧ length (lit n) ≤ 128 ∧ ValidString (lit n) = true ∧ TrimSpace (lit n) = lit n ∧ (nul ∉ lit n).

(** A name of a key: 1 to 128 capital letters, digits and underscores, a digit
    not first. *)
Definition key_name (n : string) : Prop :=
  let letter c := (65 ≤ N_of_ascii c ≤ 90)%N ∨ c = "_"%char in
  length (lit n) ≤ 128 ∧ ∃ c t, lit n = c :: t ∧ letter c ∧ Forall (λ c, letter c ∨ (48 ≤ N_of_ascii c ≤ 57)%N) t.

Lemma checkName_ok name u : checkName name = Ok u → env_name name.
Proof.
  unfold checkName. case_bool_decide; [done|]. case_bool_decide as Hl; [done|]. destruct (ValidString _) eqn:Hv; [|done].
  simpl. case_bool_decide as Ht; [done|]. destruct (has_control _) eqn:Hc; [done|]. intros _.
  apply Nat.nlt_ge in Hl. done.
Qed.

Lemma CheckGroupName_ok name u : CheckGroupName name = Ok u → group_name name.
Proof.
  unfold CheckGroupName. case_bool_decide; [done|]. case_bool_decide as Hl; [done|]. case_bool_decide as Ht; [done|].
  destruct (ValidString _) eqn:Hv; [|done]. simpl. case_bool_decide as Hz; [done|]. intros _.
  apply Nat.nlt_ge in Hl. done.
Qed.

Lemma checkKeyName_ok name u : checkKeyName name = Ok u → key_name name.
Proof.
  unfold checkKeyName, CheckKeyName. case_bool_decide; [done|]. case_bool_decide as Hl; [done|].
  destruct (keyNameRe _) eqn:Hk; [|done]. intros _. apply Nat.nlt_ge in Hl. split; [done|].
  assert (∀ c, key_head c = true → (65 ≤ N_of_ascii c ≤ 90)%N ∨ c = "_"%char) as Hh.
  { intros c. unfold key_head, in_range. rewrite orb_true_iff, andb_true_iff, !N.leb_le, bool_decide_eq_true. tauto. }
  unfold keyNameRe in Hk. destruct (lit name) as [|c t]; [done|]. apply andb_true_iff in Hk as [Hc Ht].
  exists c, t. split; [done|]. split; [by apply Hh|]. rewrite forallb_forall in Ht. apply Forall_forall. intros x Hx.
  apply list_elem_of_In, Ht in Hx. unfold key_char in Hx. apply orb_true_iff in Hx as [Hx|Hx]; [left; by apply Hh|right].
  unfold in_range in Hx. by rewrite andb_true_iff, !N.leb_le in Hx.
Qed.

(** A limit in force is at least one key and at most the ceiling. *)
Lemma projectKeyLimit_range o d m l : projectKeyLimit o d m = Ok l → (1 ≤ l ≤ MaxKeysPerProjectCeiling)%Z.
Proof.
  unfold projectKeyLimit. destruct (_ || _) eqn:E; [done|]. rewrite !orb_false_iff, !Z.ltb_ge in E.
  destruct o as [n|]; simpl.
  - destruct (_ || _) eqn:E'; [done|]. rewrite orb_false_iff, !Z.ltb_ge in E'. simpl. destruct (_ <? n)%Z eqn:F; intros [= <-]; lia.
  - destruct (_ <? _)%Z; intros [= <-]; lia.
Qed.

(** The number of keys grows only up to the limit. *)
Lemma keyGrowth_ok c n l u :
  checkProjectKeyGrowth c n l = Ok u → (1 ≤ l → n ≤ c ∨ n ≤ l)%Z.
Proof.
  unfold checkProjectKeyGrowth, EffectiveDefaultKeysPerProject. intros Hg Hl. destruct (Z.eqb_spec l 0); [lia|].
  destruct (_ || _); [done|]. destruct (_ && _) eqn:E; [done|]. apply andb_false_iff in E. rewrite !Z.ltb_ge in E. lia.
Qed.

(** The division never rounds a product over the budget down to it. *)
Lemma resolvedCells_ok k e u :
  checkResolvedCells k e = Ok u ↔ ¬ (0 < e ∧ MaxResolvedCells < k * e)%Z.
Proof.
  unfold checkResolvedCells. destruct u. destruct (0 <? e)%Z eqn:E; simpl; [|apply Z.ltb_ge in E; split; [lia|done]].
  apply Z.ltb_lt in E. destruct (_ <? _)%Z eqn:F.
  - apply Z.ltb_lt in F. split; [done|]. intros []. split; [done|]. apply Z.nle_gt. intros Hle.
    pose proof (Z.div_le_lower_bound MaxResolvedCells e k E). lia.
  - apply Z.ltb_ge in F. split; [|done]. intros _ [_ Hlt].
    pose proof (Z.mul_div_le MaxResolvedCells e E). nia.
Qed.

Lemma cells_le k e : checkResolvedCells k e = Ok tt → (0 ≤ e)%Z → (k * e ≤ MaxResolvedCells)%Z.
Proof.
  intros Hc He. apply resolvedCells_ok in Hc. destruct (Z.eq_dec e 0%Z) as [->|]; [unfold MaxResolvedCells; lia|].
  apply Z.nlt_ge. intros Hlt. apply Hc. lia.
Qed.
