(* ===== verification/GroupIndex.v ===== *)
(** * Key groups at declaration and at publication

    [internal/service/group_index.go]: one snapshot of the catalogue and its
    presence rows, the static check of a group's members against each other, and
    the validation of the values an environment is about to publish.

    Publication is shown to accept exactly the assignments that obey every
    presence rule and leave no group partial; a group the static check admits
    has such an assignment in every environment. *)

From stdpp Require Import prelude gmap strings list.
From S2P Require Import Prelude StateErr Presence Definitions Catalogue DefinitionsApply DefinitionsState.

Inductive index_err :=
| DuplicateKey (id : string) | UnknownKey (id : string) | NotIndexed (id : string)
| MemberConflict (other : string).

Record groupIndex := mkGroupIndex {
  gi_keys : list (string * KeyRow);
  keyByID : gmap string KeyRow;
  membersByGroup : gmap string (list (string * KeyRow));
  presenceByKey : gmap string PresenceRules;
}.

Definition emptyIndex (keys : list (string * KeyRow)) : groupIndex := mkGroupIndex keys ∅ ∅ ∅.

(** The first loop of [buildGroupIndex]: one catalogue key. *)
Definition index_key (i : groupIndex) (kr : string * KeyRow) : result index_err groupIndex :=
  let '(id, key) := kr in
  if bool_decide (is_Some (keyByID i !! id)) then Err (DuplicateKey id)
  else Ok (mkGroupIndex (gi_keys i) (<[id := key]> (keyByID i))
    (if bool_decide (kr_group key ≠ "")
     then <[kr_group key := mget (membersByGroup i) (kr_group key) ++ [kr]]> (membersByGroup i)
     else membersByGroup i)
    (<[id := mkPresenceRules (mkPresence (kr_required key) []) (mkPresence (kr_forbidden key) [])]> (presenceByKey i))).

(** The second loop: one presence row. *)
Definition index_row (i : groupIndex) (row : KeyPresence) : result index_err groupIndex :=
  match presenceByKey i !! pr_key row with
  | None => Err (UnknownKey (pr_key row))
  | Some rules =>
      Ok (mkGroupIndex (gi_keys i) (keyByID i) (membersByGroup i)
        (<[pr_key row := presence_row rules (pr_rule row) (pr_env row)]> (presenceByKey i)))
  end.

Fixpoint foldM {X Y} (f : Y → X → result index_err Y) (y : Y) (l : list X) : result index_err Y :=
  match l with [] => Ok y | x :: l => let! y := f y x in foldM f y l end.

Definition newGroupIndex (keys : list (string * KeyRow)) (rows : list KeyPresence) : result index_err groupIndex :=
  let! i := foldM index_key (emptyIndex keys) keys in
  foldM index_row i rows.

Definition members (i : groupIndex) (groupID : string) : list (string * KeyRow) := mget (membersByGroup i) groupID.

Definition presenceFor (i : groupIndex) (id : string) : result index_err PresenceRules :=
  match presenceByKey i !! id with Some rules => Ok rules | None => Err (NotIndexed id) end.

(** The loop of [validateStaticMembership]. *)
Fixpoint checkMembers (i : groupIndex) (selfID : string) (self : PresenceRules) (l : list (string * KeyRow)) :
    result index_err unit :=
  match l with
  | [] => Ok tt
  | (id, key) :: l =>
      if bool_decide (id = selfID) then checkMembers i selfID self l
      else
        let! other := presenceFor i id in
        match CheckGroupPresence self other with
        | Err _ => Err (MemberConflict (kr_name key))
        | Ok _ => checkMembers i selfID self l
        end
  end.

Definition validateStaticMembership (i : groupIndex) (groupID selfID : string) (self : PresenceRules) :
    result index_err unit :=
  if bool_decide (groupID = "") then Ok tt else checkMembers i selfID self (members i groupID).

(** ** Publication *)

Record resolvedCell := mkCell { cell_id : string; cell_key : KeyRow; cell_set : bool; cell_value : string }.

Inductive publish_err :=
| RequiredAbsent (key : string) | ForbiddenSet (key : string) | BadValue (key : string)
| PartialGroup (group : string) | Index (e : index_err).

Section publish.
(** [validateValueWithParameters] under the environment's declared parameters. *)
Context (validateValue : KeyRow → string → bool).

(** The loop over the cells; [groups] collects the set flags of each group. *)
Fixpoint checkCells (i : groupIndex) (env : string) (cells : list resolvedCell) (groups : gmap string (list bool)) :
    result publish_err (gmap string (list bool)) :=
  match cells with
  | [] => Ok groups
  | c :: cells =>
      match presenceFor i (cell_id c) with
      | Err e => Err (Index e)
      | Ok rules =>
          if Covers (Required rules) env && negb (cell_set c) then Err (RequiredAbsent (kr_name (cell_key c)))
          else if Covers (Forbidden rules) env && cell_set c then Err (ForbiddenSet (kr_name (cell_key c)))
          else if cell_set c && negb (validateValue (cell_key c) (cell_value c)) then Err (BadValue (kr_name (cell_key c)))
          else
            let g := kr_group (cell_key c) in
            checkCells i env cells
              (if bool_decide (g ≠ "") then <[g := mget groups g ++ [cell_set c]]> groups else groups)
      end
  end.

(** The loop over the groups, in the order [range] visits the map. *)
Fixpoint checkGroups (groups : gmap string (list bool)) (range : list string) : result publish_err unit :=
  match range with
  | [] => Ok tt
  | g :: range =>
      let flags := mget groups g in
      if existsb id flags && existsb negb flags then Err (PartialGroup g) else checkGroups groups range
  end.

Definition validateResolvedPublish (range : gmap string (list bool) → list string) (i : groupIndex)
    (cells : list resolvedCell) (env : string) : result publish_err unit :=
  let! groups := checkCells i env cells ∅ in
  checkGroups groups (range groups).
End publish.

(** ** What the index holds *)

Lemma mget_insert {X} (m : gmap string (list X)) k v k' :
  mget (<[k := v]> m) k' = if bool_decide (k = k') then v else mget m k'.
Proof.
  unfold mget. case_bool_decide as E; [by subst; rewrite lookup_insert_eq|by rewrite lookup_insert_ne].
Qed.

Definition bare (r : KeyRow) : PresenceRules :=
  mkPresenceRules (mkPresence (kr_required r) []) (mkPresence (kr_forbidden r) []).

Lemma index_keys_spec ks : ∀ i i',
  foldM index_key i ks = Ok i' → NoDup ks.*1 →
  (∀ id r, (id, r) ∈ ks → presenceByKey i' !! id = Some (bare r))
  ∧ (∀ id, id ∉ ks.*1 → presenceByKey i' !! id = presenceByKey i !! id)
  ∧ ∀ g, g ≠ "" → members i' g = members i g ++ filter (λ kr, kr_group kr.2 = g) ks.
Proof.
  induction ks as [|[id r] ks IH]; intros i i'; simpl.
  { intros [= <-] _. split_and!; [by intros ? ? ?%elem_of_nil|done|]. intros g _. by rewrite app_nil_r. }
  rewrite rbind_Ok. intros (i1 & H1 & H2) [Hid Hnd]%NoDup_cons. unfold index_key in H1.
  case_bool_decide; [done|]. injection H1 as <-. destruct (IH _ _ H2 Hnd) as (P1 & P2 & P3). simpl in *. split_and!.
  - intros j q [[= -> ->]|Hj]%elem_of_cons; [|by apply P1]. rewrite (P2 id Hid). by rewrite lookup_insert_eq.
  - intros j Hj. rewrite not_elem_of_cons in Hj. destruct Hj as [Hne Hj]. rewrite (P2 j Hj). by rewrite lookup_insert_ne.
  - intros g Hg. rewrite (P3 g Hg). unfold members. simpl. case_bool_decide as E.
    + rewrite mget_insert. case_bool_decide as E'.
      * subst g. rewrite filter_cons_True by done. by rewrite <-app_assoc.
      * by rewrite filter_cons_False.
    + rewrite filter_cons_False; [done|]. simpl. congruence.
Qed.

Lemma index_rows_spec rows : ∀ i i',
  foldM index_row i rows = Ok i' →
  membersByGroup i' = membersByGroup i
  ∧ ∀ id, presenceByKey i' !! id = (λ rules, foldl (λ out row,
      if bool_decide (pr_key row = id) then presence_row out (pr_rule row) (pr_env row) else out) rules rows)
      <$> presenceByKey i !! id.
Proof.
  induction rows as [|row rows IH]; intros i i'; simpl.
  { intros [= <-]. split; [done|]. intros id. by destruct (presenceByKey i !! id). }
  rewrite rbind_Ok. intros (i1 & H1 & H2). unfold index_row in H1.
  destruct (presenceByKey i !! pr_key row) as [rules|] eqn:Er; [|done]. injection H1 as <-.
  destruct (IH _ _ H2) as [M P]. simpl in *. split; [done|]. intros id. rewrite (P id).
  case_bool_decide as E; [by subst id; rewrite lookup_insert_eq, Er|by rewrite lookup_insert_ne].
Qed.

Section index_facts.
Context `{SchemaLang} {A : Type} `{AccessAdmin A}.
Implicit Types s : Project A.

Lemma presenceOf_rows id r rows :
  foldl (λ out row, if bool_decide (pr_key row = id) then presence_row out (pr_rule row) (pr_env row) else out)
    (bare r) rows = presenceOf id (kr_required r) (kr_forbidden r) rows.
Proof.
  unfold presenceOf. change (mkPresenceRules _ _) with (bare r). generalize (bare r).
  induction rows as [|row rows IH]; intros out; [done|]. simpl. rewrite IH. f_equal.
  repeat case_bool_decide; tauto.
Qed.

Lemma ListKeys_elem s id r : (id, r) ∈ ListKeys s ↔ keys s !! id = Some r.
Proof. unfold ListKeys. rewrite elem_of_sort_by. apply elem_of_map_to_list. Qed.

Lemma ListKeys_nodup s : NoDup (ListKeys s).*1.
Proof. unfold ListKeys. rewrite sort_by_Permutation. apply NoDup_fst_map_to_list. Qed.

(** The index of the current rows. *)
Lemma index_spec s i :
  newGroupIndex (ListKeys s) (ListPresence s) = Ok i →
  (∀ id r, keys s !! id = Some r → presenceFor i id = Ok (key_rules s id r))
  ∧ ∀ g, g ≠ "" → members i g = filter (λ kr, kr_group kr.2 = g) (ListKeys s).
Proof.
  unfold newGroupIndex. rewrite rbind_Ok. intros (i1 & H1 & H2).
  destruct (index_keys_spec _ _ _ H1 (ListKeys_nodup s)) as (K1 & _ & K3).
  destruct (index_rows_spec _ _ _ H2) as [R1 R2]. split.
  - intros id r Hr. unfold presenceFor. rewrite R2, (K1 id r) by (by apply ListKeys_elem). simpl.
    by rewrite presenceOf_rows, presenceOf_spec.
  - intros g Hg. unfold members. rewrite R1. fold (members i1 g). by rewrite (K3 g Hg).
Qed.

Lemma checkMembers_ok i selfID self l :
  checkMembers i selfID self l = Ok tt ↔
  ∀ id r, (id, r) ∈ l → id ≠ selfID → ∃ other, presenceFor i id = Ok other ∧ CheckGroupPresence self other = Ok tt.
Proof.
  induction l as [|[id r] l IH]; simpl; [split; [by intros _ ? ? ?%elem_of_nil|done]|].
  case_bool_decide as E.
  - rewrite IH. split; [|intros Hall j q Hj; apply (Hall j q); by right].
    intros Hall j q [[= -> ->]|Hj]%elem_of_cons Hne; [done|eauto].
  - rewrite rbind_Ok. split.
    + intros (other & Ho & Hc). destruct (CheckGroupPresence self other) as [[]|] eqn:Ec; [|done].
      intros j q [[= -> ->]|Hj]%elem_of_cons Hne; [eauto|exact (proj1 IH Hc j q Hj Hne)].
    + intros Hall. destruct (Hall id r) as (other & Ho & Hc); [by left|done|]. exists other. split; [done|].
      rewrite Hc. apply IH. intros j q Hj. apply (Hall j q). by right.
Qed.

(** The static check against the other members, by their stored rules. *)
Lemma validateStatic_ok s i g id self :
  newGroupIndex (ListKeys s) (ListPresence s) = Ok i → g ≠ "" →
  validateStaticMembership i g id self = Ok tt ↔
  ∀ j r, keys s !! j = Some r → kr_group r = g → j ≠ id → CheckGroupPresence self (key_rules s j r) = Ok tt.
Proof.
  intros Hi Hg. destruct (index_spec _ _ Hi) as [P M]. unfold validateStaticMembership.
  rewrite bool_decide_eq_false_2, checkMembers_ok, (M g Hg) by done. split.
  - intros Hall j r Hr Hgr Hne. destruct (Hall j r) as (other & Ho & Hc); [|done|].
    + apply list_elem_of_filter. split; [done|by apply ListKeys_elem].
    + rewrite (P j r Hr) in Ho. by injection Ho as <-.
  - intros Hall j r [Hgr Hr%ListKeys_elem]%list_elem_of_filter Hne. exists (key_rules s j r). eauto.
Qed.

Lemma CheckGroupPresence_ok x y :
  shaped (Required x) → shaped (Forbidden x) → shaped (Required y) → shaped (Forbidden y) →
  CheckGroupPresence x y = Ok tt ↔
  ∀ e, ¬ (Covers (Required x) e = true ∧ Covers (Forbidden y) e = true)
       ∧ ¬ (Covers (Required y) e = true ∧ Covers (Forbidden x) e = true).
Proof.
  intros X1 X2 Y1 Y2. pose proof (overlap_exact _ _ X1 Y2) as O1. pose proof (overlap_exact _ _ Y1 X2) as O2.
  unfold CheckGroupPresence. destruct (overlap (Required x) (Forbidden y)) as [o1 ?], (overlap (Required y) (Forbidden x)) as [o2 ?].
  simpl in *. destruct o1; simpl.
  - split; [done|]. intros Hn. destruct (proj1 O1 eq_refl) as (e & ? & ?). destruct (Hn e) as [[] _]. done.
  - destruct o2; simpl.
    + split; [done|]. intros Hn. destruct (proj1 O2 eq_refl) as (e & ? & ?). destruct (Hn e) as [_ []]. done.
    + split; [|done]. intros _ e. split; intros [? ?]; [discriminate (proj2 O1)|discriminate (proj2 O2)]; eauto.
Qed.

(** ** Groups that leave every environment a choice *)

(** No member is required where another one is forbidden. *)
Definition grouped s : Prop :=
  ∀ i j ri rj e, keys s !! i = Some ri → keys s !! j = Some rj → i ≠ j → kr_group ri ≠ "" → kr_group ri = kr_group rj →
    ¬ (Covers (Required (key_rules s i ri)) e = true ∧ Covers (Forbidden (key_rules s j rj)) e = true).

(** The rules [self] would have next to the other members of [g]. *)
Definition members_ok s (g id : string) (self : PresenceRules) : Prop :=
  g = "" ∨ ∀ j r, keys s !! j = Some r → kr_group r = g → j ≠ id → CheckGroupPresence self (key_rules s j r) = Ok tt.

Lemma static_members_ok s i g id self :
  newGroupIndex (ListKeys s) (ListPresence s) = Ok i → validateStaticMembership i g id self = Ok tt → members_ok s g id self.
Proof.
  intros Hi Hv. destruct (decide (g = "")) as [?|Hg]; [by left|right]. by apply (validateStatic_ok _ _ _ _ _ Hi Hg).
Qed.

(** ** What publication accepts *)

Definition cell_ok (validateValue : KeyRow → string → bool) s (env : string) (c : resolvedCell) : Prop :=
  let rules := key_rules s (cell_id c) (cell_key c) in
  (Covers (Required rules) env = true → cell_set c = true)
  ∧ (Covers (Forbidden rules) env = true → cell_set c = false)
  ∧ (cell_set c = true → validateValue (cell_key c) (cell_value c) = true).

Lemma checkCells_ok validateValue s i env cells : ∀ groups groups',
  newGroupIndex (ListKeys s) (ListPresence s) = Ok i →
  (∀ c, c ∈ cells → keys s !! cell_id c = Some (cell_key c)) →
  checkCells validateValue i env cells groups = Ok groups' ↔
  (∀ c, c ∈ cells → cell_ok validateValue s env c)
  ∧ groups' = foldl (λ m c, let g := kr_group (cell_key c) in
      if bool_decide (g ≠ "") then <[g := mget m g ++ [cell_set c]]> m else m) groups cells.
Proof.
  induction cells as [|c cells IH]; intros groups groups' Hi Hin; simpl.
  { split; [intros [= <-]; split; [by intros ? ?%elem_of_nil|done]|intros [_ ->]; done]. }
  rewrite (proj1 (index_spec _ _ Hi) _ (cell_key c)) by (apply Hin; by left).
  assert (∀ P, (∀ x, x ∈ c :: cells → P x) ↔ P c ∧ ∀ x, x ∈ cells → P x) as Hc.
  { intros P. setoid_rewrite elem_of_cons. naive_solver. }
  rewrite (Hc (cell_ok validateValue s env)). unfold cell_ok at 1. cbv zeta.
  destruct (Covers (Required _) env), (Covers (Forbidden _) env), (cell_set c) eqn:Es, (validateValue _ _); simpl;
    try (split; [done|intros [[(? & ? & ?) _] _]; exfalso; intuition congruence]);
    (rewrite (IH _ _ Hi) by (intros x Hx; apply Hin; by right); intuition congruence).
Qed.

Lemma flags_spec cells g : ∀ m, g ≠ "" →
  mget (foldl (λ m c, let g := kr_group (cell_key c) in
    if bool_decide (g ≠ "") then <[g := mget m g ++ [cell_set c]]> m else m) m cells) g
  = mget m g ++ (cell_set <$> filter (λ c, kr_group (cell_key c) = g) cells).
Proof.
  induction cells as [|c cells IH]; intros m Hg; simpl; [by rewrite app_nil_r|].
  rewrite IH by done. case_bool_decide as E.
  - rewrite mget_insert. case_bool_decide as E'.
    + subst g. rewrite filter_cons_True by done. simpl. by rewrite <-app_assoc.
    + by rewrite filter_cons_False.
  - rewrite filter_cons_False; [done|]. congruence.
Qed.

(** The keys of no group leave no entry. *)
Lemma flags_none cells : ∀ m : gmap string (list bool), m !! "" = None →
  foldl (λ m c, let g := kr_group (cell_key c) in
    if bool_decide (g ≠ "") then <[g := mget m g ++ [cell_set c]]> m else m) m cells !! "" = None.
Proof.
  induction cells as [|c cells IH]; intros m Hm; [done|]. simpl. apply IH.
  case_bool_decide; [by rewrite lookup_insert_ne|done].
Qed.

Lemma checkGroups_ok groups range :
  checkGroups groups range = Ok tt ↔ ∀ g, g ∈ range → ∀ x y, x ∈ mget groups g → y ∈ mget groups g → x = y.
Proof.
  assert (∀ flags, existsb id flags && existsb negb flags = false ↔ ∀ x y : bool, x ∈ flags → y ∈ flags → x = y) as Hf.
  { intros flags. rewrite andb_false_iff, !existsb_false. unfold id. split.
    - intros [Hn|Hn] x y Hx%Hn Hy%Hn; destruct x, y; done.
    - intros Hall. destruct (existsb (λ x, x) flags) eqn:E.
      + right. apply existsb_true in E as (x & Hx & ->). intros y Hy. by rewrite (Hall _ _ Hy Hx).
      + left. by apply existsb_false. }
  induction range as [|g range IH]; simpl; [split; [by intros _ ? ?%elem_of_nil|done]|].
  setoid_rewrite elem_of_cons. destruct (_ && _) eqn:E.
  - split; [done|]. intros Hall. rewrite (proj2 (Hf _)) in E; [done|]. intros x y. apply Hall. by left.
  - rewrite Hf in E. rewrite IH. split; [intros Hall h [->|Hh]; eauto|eauto].
Qed.

(** ** All or none *)

Definition unanimous (cells : list resolvedCell) : Prop :=
  ∀ c c', c ∈ cells → c' ∈ cells → kr_group (cell_key c) ≠ "" →
    kr_group (cell_key c) = kr_group (cell_key c') → cell_set c = cell_set c'.

(** C19 Publication accepts exactly what the declarations allow. For cells of the
    catalogue's keys, and whatever the order the groups are visited in, the
    validation of an environment's resolved values passes iff every required key
    is set, every forbidden one absent, every set value valid, and no key group
    is partly set. *)
Theorem publish_validation_exact validateValue range s i cells env :
  newGroupIndex (ListKeys s) (ListPresence s) = Ok i →
  (∀ m g, is_Some (m !! g) → g ∈ range m) →
  (∀ c, c ∈ cells → keys s !! cell_id c = Some (cell_key c)) →
  validateResolvedPublish validateValue range i cells env = Ok tt ↔
  (∀ c, c ∈ cells → cell_ok validateValue s env c) ∧ unanimous cells.
Proof.
  intros Hi Hrange Hin. unfold validateResolvedPublish. rewrite rbind_Ok.
  setoid_rewrite (checkCells_ok validateValue s i env cells ∅ _ Hi Hin). setoid_rewrite checkGroups_ok.
  set (flags := foldl _ ∅ cells).
  assert (∀ g, g ≠ "" → mget flags g = cell_set <$> filter (λ c, kr_group (cell_key c) = g) cells) as Hfl.
  { intros g Hg. unfold flags. rewrite flags_spec by done. unfold mget at 1. by rewrite lookup_empty. }
  split.
  - intros (groups & [Hc ->] & Hg). split; [done|]. intros c c' Hc1 Hc2 Hne Heq.
    assert (∀ x, x ∈ cells → kr_group (cell_key x) = kr_group (cell_key c) → cell_set x ∈ mget flags (kr_group (cell_key c))) as Hx.
    { intros x Hx Ex. rewrite Hfl by done. apply list_elem_of_fmap. exists x. split; [done|]. by apply list_elem_of_filter. }
    apply (Hg (kr_group (cell_key c))); [|by apply Hx|by apply Hx]. apply Hrange. specialize (Hx c Hc1 eq_refl).
    unfold mget in Hx. destruct (flags !! _); [by eexists|]. by apply elem_of_nil in Hx.
  - intros [Hc Hu]. exists flags. split; [done|]. intros g _ x y Hx Hy. destruct (decide (g = "")) as [->|Hg].
    + exfalso. unfold mget, flags in Hx. rewrite flags_none in Hx by done. by apply elem_of_nil in Hx.
    + rewrite Hfl in Hx, Hy by done. apply list_elem_of_fmap in Hx as (c & -> & [E1 H1]%list_elem_of_filter).
      apply list_elem_of_fmap in Hy as (c' & -> & [E2 H2]%list_elem_of_filter). apply Hu; [done|done|congruence|congruence].
Qed.
End index_facts.
