(* ===== verification/KeyServices.v ===== *)
(** * The services that edit a project's definitions

    [Keys] and [KeyGroups] of [internal/service/keys.go], [Environments] of
    [hierarchy.go] and the transaction of [Definitions.Apply]
    ([definitions_apply_exec.go]), each with its checks, its guards and every
    statement it runs on the tables of [Catalogue.v], in the order of the code.
    A value returned by a method is the id it wrote; views composed for the
    response are left out.

    The other components a method calls are the class [Surroundings]: the
    authorization of keys, the secret scanner, the reveal gate, the confirmation
    of moves, and publication, which writes snapshots only. *)

From stdpp Require Import prelude gmap strings pretty list.
From S2P Require Import Prelude StateErr FreeText Presence Definitions Catalogue DefinitionsApply DefinitionsParse.
From S2P Require Import EnvironmentDelete EntityNames GroupIndex.

(** [authz.KeyTarget]: which key an operation addresses. *)
Inductive KeyTarget :=
| KeyByID (id : string) | KeyToCreate (folder : string) | KeyMovedTo (id folder : string).

(** Each operation takes and returns the state of those components. *)
Class Surroundings `{SchemaLang} (A : Type) := {
  (** A proof at project depth, and the key its rule binds it to, if any. *)
  AuthorizeProject : string → A → A * bool;
  AuthorizeKey : string → KeyTarget → A → A * option (option string);
  (** [AuthorizeKey] at an environment. *)
  AuthorizeKeyIn : string → string → KeyTarget → A → A * bool;
  (** The scanner's verdict on the texts about to be stored, overrides included. *)
  declarationScan : list string → Declaration → A → A * bool;
  textScan : list string → A → A * bool;
  (** The [finding_overridden] events of what a scan admitted by acknowledgement. *)
  emitOverrides : list string → A → A * bool;
  (** The keyring's sealer of the project, whose data key it mints on first use. *)
  ForProject : A → A * bool;
  scanDeclassified : string → list string → A → A * bool;
  revealGate : string → string → A → A * bool;
  (** [moveWidening] and [confirmMoveWidening]. *)
  confirmMove : string → string → string → list string → A → A * bool;
  (** The re-scan of a plan made under another ruleset, the published revisions,
      a denied event that survives the rollback, [confirmMoves] and
      [MarkPlanApplied]. *)
  scanApplySkew : string → Bundle → A → A * bool;
  ProjectRevisions : A → A * option (gmap string Z);
  captureDenied : string → string → A → A * bool;
  confirmMoves : Resolution → list string → A → A * bool;
  MarkPlanApplied : string → A → A * bool;
  (** Publication of every environment, and of one; the values a clone copies. *)
  republish : string → list string → Project A → A * option (gset (string * string) * gset (string * string));
  cloneInto : string → string → Project A → A * option (gset string);
}.

(** What one request meets: the project's [definitions_source], whether the rate
    of schema revisions admits another, and the key capacity in force. *)
Record Request := mkRequest {
  rq_source : string; rq_admitted : bool;
  rq_override : option Z; rq_default : Z; rq_maximum : Z;
}.

(** [KeySpec] of the service. *)
Record NewKeySpec `{SchemaLang} := mkNewKeySpec {
  ns_name : string; ns_folder : string; ns_class : string; ns_desc : string; ns_deprecated : bool;
  ns_note : string; ns_decl : Declaration; ns_presence : PresenceRules; ns_group : string;
}.

Record KeyMetadataUpdate := mkKeyMetadataUpdate {
  mu_folder : option string; mu_desc : option string; mu_deprecated : option bool; mu_note : option string;
  mu_confirm : list string;
}.

Section services.
Context `{SchemaLang} {A : Type} `{AccessAdmin A, !Surroundings A}.
Context (newid : string → nat → option string).

Local Abbreviation St := (Project A).
Local Abbreviation Op := (M St DefError).

(** ** Calls of the surroundings *)

Definition surround {X} (e : DefError) (f : A → A * option X) : Op X :=
  λ s, let '(a, r) := f (access s) in (set_access s a, match r with Some x => Ok x | None => Err e end).

(** [authorize] and [authorizeKey]; the bound key of the proof. *)
Definition authorize (op : string) : Op unit := with_access (ErrUnauthorized op "") (AuthorizeProject op).
Definition authorizeKey (op : string) (key : KeyTarget) : Op (option string) :=
  surround (ErrUnauthorized op "") (AuthorizeKey op key).

Definition requireBoundKey (bk : option string) (keyID : string) : Op unit :=
  match bk with Some k => if bool_decide (k ≠ keyID) then fail ErrNotFound else ret tt | None => ret tt end.

(** [errors.Is(err, ErrConflict) || errors.Is(err, ErrInvalid)] *)
Definition revealing (e : DefError) : bool :=
  match e with
  | ErrConflict _ | ErrSSHLiveCA | ErrPresence _ | ErrInvalid _ | ErrBundle _ => true
  | _ => false
  end.

Definition concealBeyondRule {X} (bk : option string) (m : Op X) : Op X :=
  λ s, match m s with
       | (s', Err e) => (s', Err (if bool_decide (is_Some bk) && revealing e then ErrNotFound else e))
       | ok => ok
       end.

Definition pure_check {E} (what : string) (r : result E unit) : Op unit :=
  match r with Ok _ => ret tt | Err _ => fail (ErrInvalid what) end.
Definition limit_check (r : result limit_err unit) : Op unit :=
  match r with
  | Ok _ => ret tt
  | Err (OverKeys _ | OverCells) => fail (ErrLimitExceeded "definitions")
  | Err _ => fail (ErrInvalid "limits")
  end.
Definition keyLimit (rq : Request) : Op Z :=
  match projectKeyLimit (rq_override rq) (rq_default rq) (rq_maximum rq) with
  | Ok l => ret l | Err _ => fail (ErrInvalid "capacity")
  end.

Definition scan_text (texts : list string) : Op unit := with_access (ErrInvalid "scan") (textScan texts).

(** [sealerFor] and [sealerForKey]: authorized in a transaction of its own. *)
Definition sealerFor (op : string) : Op unit :=
  do* _ := authorize op in with_access (ErrInternal "keyring") ForProject.
Definition sealerForKey (op : string) (key : KeyTarget) : Op unit :=
  do* _ := authorizeKey op key in with_access (ErrInternal "keyring") ForProject.
Definition emit_overrides (texts : list string) : Op unit := with_access (ErrInternal "audit") (emitOverrides texts).

(** Every environment's proof before a shared definition changes. *)
Definition authorizeKeyFanOut (key : KeyTarget) (creating wholeEnvironment : bool) : Op unit :=
  do* es := gets ListEnvironments in
  for_each es (λ e,
    if wholeEnvironment then Authorize "key.schema-publish-values" e.1
    else
      let op := if creating then "key.schema-publish-empty" else "key.schema-publish-values" in
      with_access (ErrUnauthorized op e.1) (AuthorizeKeyIn op e.1 key)).

(** Publication writes the snapshots of the environments it is given. *)
Definition publish (trigger : string) (es : list string) : Op unit :=
  λ s, match republish trigger es s with
       | (a, Some (sn, rows)) => (set_snapshots (set_access s a) sn rows, Ok tt)
       | (a, None) => (set_access s a, Err (ErrInvalid "publish"))
       end.

Definition fanOut (bk : option string) (trigger : string) : Op unit :=
  concealBeyondRule bk (do* es := gets ListEnvironments in publish trigger es.*1).

(** ** Shared checks *)

Definition checkKeySpec (spec : NewKeySpec) : Op unit :=
  do* _ := pure_check "name" (checkKeyName (ns_name spec)) in
  do* _ := (if class_ok (ns_class spec) then ret tt else fail (ErrInvalid "classification")) in
  do* _ := pure_check "folder" (checkKeyFolderPath (ns_folder spec)) in
  do* _ := pure_check "description" (CheckDescription (ns_desc spec)) in
  pure_check "deprecation note" (CheckDescription (ns_note spec)).

Definition checkClassifiedDeclaration (class : string) (d : Declaration) (p : PresenceRules) : Op Declaration :=
  match CompileClassified class d with
  | None => fail (ErrInvalid "declaration")
  | Some compiled => do* _ := checkPresenceRules p in ret compiled
  end.

Definition index_check {X} (r : result index_err X) : Op X :=
  match r with
  | Ok x => ret x
  | Err (MemberConflict _) => fail (ErrInvalid "group presence")
  | Err _ => fail (ErrInternal "group index")
  end.

Definition loadGroupIndex : Op groupIndex :=
  do* ks := gets ListKeys in
  do* rows := gets ListPresence in
  index_check (newGroupIndex ks rows).

Definition GetGroup (id : string) : Op string :=
  λ s, match groups s !! id with Some n => (s, Ok n) | None => (s, Err ErrNotFound) end.

Definition checkGroupMembership (groupID selfID : string) (p : PresenceRules) : Op unit :=
  if bool_decide (groupID = "") then ret tt
  else
    do* _ := GetGroup groupID in
    do* index := loadGroupIndex in
    index_check (validateStaticMembership index groupID selfID p).

Definition same_presence (x y : Presence) : bool :=
  bool_decide (Mode x = Mode y)
  && bool_decide (sort_by String.leb (Environments x) = sort_by String.leb (Environments y)).
Definition presenceEqual (a b : PresenceRules) : bool :=
  same_presence (Required a) (Required b) && same_presence (Forbidden a) (Forbidden b).

(** A stored declaration that no longer parses is a loud error. *)
Definition storedDeclaration (row : KeyRow) : Op Declaration :=
  match ParseDeclaration (kr_decl row) with Some d => ret d | None => fail (ErrInternal "stored declaration") end.

(** [keyOf]: the view of a row, as far as it can fail. *)
Definition keyOf (decl : string) : Op unit :=
  match ParseDeclaration decl with Some _ => ret tt | None => fail (ErrInternal "stored declaration") end.

(** The environments that hold a value of the key. *)
Definition EnvironmentsWithValue (key : string) : Op (list string) :=
  gets (λ s, (elements (values s) ≫= λ v, if bool_decide (v.1 = key) then [v.2] else [])).

(** ** Keys *)

Definition Keys_Create (rq : Request) (spec : NewKeySpec) : Op string :=
  do* _ := checkKeySpec spec in
  do* compiled := checkClassifiedDeclaration (ns_class spec) (ns_decl spec) (ns_presence spec) in
  do* canonical := canonicalText compiled in
  do* id := newID newid "key" in
  let target := KeyToCreate (ns_folder spec) in
  let row := mkKeyRow (ns_name spec) (ns_folder spec) (ns_class spec) (ns_desc spec) (ns_deprecated spec)
    (ns_note spec) canonical (Mode (Required (ns_presence spec))) (Mode (Forbidden (ns_presence spec))) (ns_group spec) in
  let texts := [ns_name spec; ns_desc spec; ns_note spec; ns_folder spec] in
  (* the scan's pre-flight, then the sealer *)
  do* _ := authorizeKey "key.create" target in
  do* _ := with_access (ErrInvalid "scan") (declarationScan texts compiled) in
  do* _ := sealerForKey "key.create" target in
  do* bk := authorizeKey "key.create" target in
  do* _ := requireDBManagedDefinitions (rq_source rq) in
  do* n := gets (λ s, Z.of_nat (size (keys s))) in
  do* limit := keyLimit rq in
  do* _ := limit_check (checkProjectKeyGrowth n (n + 1) limit) in
  do* es := gets (λ s, Z.of_nat (size (envs s))) in
  do* _ := limit_check (checkResolvedCells (n + 1) es) in
  do* _ := authorizeKeyFanOut target true (bool_decide (ns_group spec ≠ "")) in
  do* _ := concealBeyondRule bk (checkGroupMembership (ns_group spec) id (ns_presence spec)) in
  do* _ := emit_overrides texts in
  do* _ := concealBeyondRule bk (Catalogue_Create id row) in
  do* _ := Catalogue_ReplacePresence id (presenceRows (ns_presence spec)) in
  do* _ := bumpSchemaRevision (rq_admitted rq) in
  do* _ := event "settings.key_created" id [ns_name spec; ns_class spec; ns_folder spec] in
  do* _ := fanOut bk "key-create" in
  ret id.

Definition Keys_Rename (rq : Request) (id name : string) : Op string :=
  do* _ := pure_check "name" (checkKeyName name) in
  do* _ := sealerForKey "key.rename" (KeyByID id) in
  do* bk := authorizeKey "key.rename" (KeyByID id) in
  do* _ := requireBoundKey bk id in
  do* _ := requireDBManagedDefinitions (rq_source rq) in
  do* before := Catalogue_Get id in
  do* _ := refuseAdapterPinnedKey id (kr_name before) in
  do* _ := scan_text [name] in
  do* _ := authorizeKeyFanOut (KeyByID id) false false in
  do* _ := concealBeyondRule bk (Catalogue_Rename id name) in
  do* _ := bumpSchemaRevision (rq_admitted rq) in
  do* _ := keyOf (kr_decl before) in
  do* _ := event "settings.key_renamed" id [kr_name before; name] in
  do* _ := fanOut bk "key-rename" in
  ret id.

Definition opt_check (what : string) (f : string → result name_err unit) (x : option string) : Op unit :=
  match x with Some t => pure_check what (f t) | None => ret tt end.

(** The merge of a PATCH: an absent member keeps the stored value. *)
Definition pick {X} (update : option X) (stored : X) : X := default stored update.

Definition Keys_UpdateMetadata (rq : Request) (id : string) (m : KeyMetadataUpdate) : Op string :=
  do* _ := opt_check "folder" checkKeyFolderPath (mu_folder m) in
  do* _ := opt_check "description" CheckDescription (mu_desc m) in
  do* _ := opt_check "deprecation note" CheckDescription (mu_note m) in
  do* bk := authorizeKey "key.update-metadata" (KeyByID id) in
  do* _ := requireBoundKey bk id in
  do* _ := match mu_folder m with
           | Some f => do* _ := authorizeKey "key.update-metadata" (KeyMovedTo id f) in ret tt
           | None => ret tt
           end in
  do* _ := requireDBManagedDefinitions (rq_source rq) in
  do* before := Catalogue_Get id in
  do* _ := scan_text (omap (λ x, x) [mu_folder m; mu_desc m; mu_note m]) in
  let folder := pick (mu_folder m) (kr_folder before) in
  let desc := pick (mu_desc m) (kr_desc before) in
  let deprecated := pick (mu_deprecated m) (kr_deprecated before) in
  let note := pick (mu_note m) (kr_note before) in
  if bool_decide (folder = kr_folder before) && bool_decide (desc = kr_desc before)
     && bool_decide (deprecated = kr_deprecated before) && bool_decide (note = kr_note before)
  then do* _ := keyOf (kr_decl before) in ret id
  else
    do* _ := (if bool_decide (folder ≠ kr_folder before)
              then with_access (ErrInvalid "widening") (confirmMove id (kr_folder before) folder (mu_confirm m))
              else ret tt) in
    do* _ := Catalogue_UpdateMetadata id folder desc deprecated note in
    do* _ := bumpSchemaRevision (rq_admitted rq) in
    do* _ := keyOf (kr_decl before) in
    do* _ := event "settings.key_metadata_changed" id [kr_name before; folder] in
    ret id.

Definition Keys_UpdateDeclaration (rq : Request) (id : string) (d : Declaration) (p : PresenceRules) : Op string :=
  do* _ := sealerForKey "key.update-declaration" (KeyByID id) in
  do* bk := authorizeKey "key.update-declaration" (KeyByID id) in
  do* _ := requireBoundKey bk id in
  do* _ := requireDBManagedDefinitions (rq_source rq) in
  do* before := Catalogue_Get id in
  do* beforeDecl := storedDeclaration before in
  let rulesChanged := ValueDependentChange beforeDecl d in
  do* _ := (if rulesChanged && bool_decide (kr_class before = Secret)
            then with_access (ErrUnauthorized "key.secret-rule-change" "") (revealGate "key.secret-rule-change" id)
            else ret tt) in
  do* compiled := checkClassifiedDeclaration (kr_class before) d p in
  do* canonical := canonicalText compiled in
  do* rows := gets ListPresence in
  let beforePresence := presenceOf id (kr_required before) (kr_forbidden before) rows in
  let changedPresence := negb (presenceEqual beforePresence p) in
  do* ks := gets ListKeys in
  do* index := index_check (newGroupIndex ks rows) in
  do* _ := index_check (validateStaticMembership index (kr_group before) id p) in
  if negb rulesChanged && negb changedPresence then do* _ := keyOf (kr_decl before) in ret id
  else
    do* _ := with_access (ErrInvalid "scan") (declarationScan [] compiled) in
    do* _ := authorizeKeyFanOut (KeyByID id) false false in
    do* _ := Catalogue_UpdateDeclaration id canonical (Mode (Required p)) (Mode (Forbidden p)) in
    do* _ := Catalogue_ReplacePresence id (presenceRows p) in
    do* _ := bumpSchemaRevision (rq_admitted rq) in
    do* _ := keyOf canonical in
    do* rev := gets revision in
    do* _ := event "settings.key_declaration_changed" id
      [kr_name before; pretty rev; bool_text rulesChanged; bool_text changedPresence] in
    do* _ := fanOut bk "key-declaration" in
    ret id.

Definition Keys_Reclassify (rq : Request) (id class : string) : Op string :=
  do* _ := (if class_ok class then ret tt else fail (ErrInvalid "classification")) in
  do* _ := sealerForKey "key.reclassify" (KeyByID id) in
  do* bk := authorizeKey "key.reclassify" (KeyByID id) in
  do* _ := requireBoundKey bk id in
  do* _ := requireDBManagedDefinitions (rq_source rq) in
  do* before := Catalogue_Get id in
  do* _ := refuseAdapterPinnedKey id (kr_name before) in
  if bool_decide (kr_class before = class) then fail (ErrInvalid "already classified")
  else
    do* d := storedDeclaration before in
    do* _ := match CompileClassified class d with Some _ => ret tt | None => fail (ErrInvalid "classification") end in
    do* _ := (if bool_decide (class = Config)
              then with_access (ErrUnauthorized "key.declassify" "") (revealGate "key.declassify" id) else ret tt) in
    do* _ := authorizeKeyFanOut (KeyByID id) false false in
    do* _ := Catalogue_SetClassification id class in
    do* _ := (if bool_decide (class = Config)
              then do* es := EnvironmentsWithValue id in
                   with_access (ErrUnauthorized "value.list" "") (scanDeclassified id es)
              else ScanningDismissals_DeleteByKey id) in
    do* _ := bumpSchemaRevision (rq_admitted rq) in
    do* _ := keyOf (kr_decl before) in
    do* _ := event "settings.key_reclassified" id [kr_name before; kr_class before; class] in
    do* _ := fanOut bk "key-reclassify" in
    ret id.

Definition Keys_SetGroup (rq : Request) (id groupID : string) : Op string :=
  do* _ := sealerForKey "key.set-group" (KeyByID id) in
  do* bk := authorizeKey "key.set-group" (KeyByID id) in
  do* _ := requireBoundKey bk id in
  do* _ := requireDBManagedDefinitions (rq_source rq) in
  do* before := Catalogue_Get id in
  if bool_decide (kr_group before = groupID) then do* _ := keyOf (kr_decl before) in ret id
  else
    do* _ := authorizeKeyFanOut (KeyByID id) false true in
    do* _ := (if bool_decide (groupID = "") then ret tt
              else
                do* _ := GetGroup groupID in
                do* index := loadGroupIndex in
                do* self := index_check (presenceFor index id) in
                index_check (validateStaticMembership index groupID id self)) in
    do* _ := Catalogue_SetGroup id groupID in
    do* _ := bumpSchemaRevision (rq_admitted rq) in
    do* _ := keyOf (kr_decl before) in
    do* _ := event "settings.key_group_membership_changed" id [kr_name before; kr_group before; groupID] in
    do* _ := fanOut bk "key-group-membership" in
    ret id.

Definition Keys_Delete (rq : Request) (id : string) : Op string :=
  do* _ := sealerForKey "key.delete" (KeyByID id) in
  do* bk := authorizeKey "key.delete" (KeyByID id) in
  do* _ := requireBoundKey bk id in
  do* _ := requireDBManagedDefinitions (rq_source rq) in
  do* before := Catalogue_Get id in
  do* es := EnvironmentsWithValue id in
  if bool_decide (es ≠ []) then fail (ErrConflict (StillHoldsValues (kr_name before)))
  else
    do* _ := authorizeKeyFanOut (KeyByID id) false false in
    do* _ := Catalogue_ReplacePresence id [] in
    do* _ := Pending_DiscardKey id in
    do* _ := ScanningDismissals_DeleteByKey id in
    do* _ := release_key id in
    do* _ := Catalogue_Delete id in
    do* _ := bumpSchemaRevision (rq_admitted rq) in
    do* _ := event "settings.key_deleted" id [kr_name before] in
    do* _ := fanOut bk "key-delete" in
    ret id.

(** ** Key groups *)

Definition KeyGroups_Create (rq : Request) (name : string) : Op string :=
  do* _ := pure_check "name" (CheckGroupName name) in
  do* id := newID newid "kgr" in
  do* _ := authorize "key-group.create" in
  do* _ := requireDBManagedDefinitions (rq_source rq) in
  do* n := gets (λ s, Z.of_nat (size (groups s))) in
  if (MaxKeyGroupsPerProject <=? n)%Z then fail (ErrLimitExceeded "key groups")
  else
    do* _ := scan_text [name] in
    do* _ := Catalogue_CreateGroup id name in
    do* _ := bumpSchemaRevision (rq_admitted rq) in
    do* _ := event "settings.key_group_created" id [name] in
    ret id.

Definition KeyGroups_Rename (rq : Request) (id name : string) : Op string :=
  do* _ := pure_check "name" (CheckGroupName name) in
  do* _ := authorize "key-group.rename" in
  do* _ := requireDBManagedDefinitions (rq_source rq) in
  do* before := GetGroup id in
  do* _ := scan_text [name] in
  do* _ := Catalogue_RenameGroup id name in
  do* _ := bumpSchemaRevision (rq_admitted rq) in
  do* _ := event "settings.key_group_renamed" id [before; name] in
  ret id.

Definition KeyGroups_Delete (rq : Request) (id : string) : Op string :=
  do* _ := sealerFor "key-group.delete" in
  do* _ := authorize "key-group.delete" in
  do* _ := requireDBManagedDefinitions (rq_source rq) in
  do* before := GetGroup id in
  do* released := gets (λ s, size (filter (λ kr : string * KeyRow, kr_group kr.2 = id) (keys s))) in
  do* _ := Catalogue_ClearGroupMembers id in
  do* _ := Catalogue_DeleteGroup id in
  do* _ := bumpSchemaRevision (rq_admitted rq) in
  do* _ := event "settings.key_group_deleted" id [before; pretty released] in
  do* _ := fanOut None "key-group-delete" in
  ret id.

(** ** Environments *)

(** The values a clone copies. *)
Definition clone_values (source id : string) : Op unit :=
  λ s, match cloneInto source id s with
       | (a, Some ks) =>
           let s := set_access s a in (set_values s (values s ∪ set_map (λ k, (k, id)) ks), Ok tt)
       | (a, None) => (set_access s a, Err (ErrInvalid "clone"))
       end.

(** [Create], and [Clone] from a source environment. *)
Definition Environments_create (rq : Request) (name source : string) : Op string :=
  do* _ := pure_check "name" (checkName name) in
  do* id := newID newid "env" in
  (* the scan's pre-flight, then the sealer *)
  do* _ := authorize "environment.create" in
  do* _ := scan_text [name] in
  do* _ := sealerFor "environment.create" in
  do* _ := authorize "environment.create" in
  do* _ := requireDBManagedDefinitions (rq_source rq) in
  do* n := gets (λ s, Z.of_nat (size (envs s))) in
  if (MaxEnvironmentsPerProject <=? n)%Z then fail (ErrLimitExceeded "environments")
  else
    do* ks := gets (λ s, Z.of_nat (size (keys s))) in
    do* _ := limit_check (checkResolvedCells ks (n + 1)) in
    do* _ := emit_overrides [name] in
    do* next := Environments_NextOrder in
    do* _ := Environments_Create id name next in
    do* _ := bumpSchemaRevision (rq_admitted rq) in
    do* _ := event "settings.environment_created" id [name] in
    do* _ := (if bool_decide (source = "") then ret tt else clone_values source id) in
    do* _ := publish "environment-create" [id] in
    ret id.

Definition Environments_Rename_tx (rq : Request) (env name : string) : Op string :=
  do* _ := pure_check "name" (checkName name) in
  do* _ := Authorize "environment.rename" env in
  do* _ := requireDBManagedDefinitions (rq_source rq) in
  do* before := Environments_Get env in
  do* _ := scan_text [name] in
  do* _ := Environments_Rename env name in
  do* _ := bumpSchemaRevision (rq_admitted rq) in
  do* _ := event "settings.environment_renamed" env [er_name before; name] in
  ret env.

Definition Environments_SetOrder (id : string) (order : Z) : Op unit :=
  stmt (λ s, if bool_decide (envs s !! id = None) then Some ErrNotFound else None)
    (λ s, set_envs s (alter (λ r, mkEnvRow (er_name r) order (er_protected r)) id (envs s))).

(** The loop over the ordered ids. *)
Fixpoint reorder (known : gset string) (seen : gset string) (i : nat) (ordered : list string) : Op unit :=
  match ordered with
  | [] => ret tt
  | id :: ordered =>
      if bool_decide (id ∉ known) || bool_decide (id ∈ seen) then fail (ErrInvalid "order")
      else
        do* _ := Environments_SetOrder id (Z.of_nat i) in
        reorder known ({[ id ]} ∪ seen) (S i) ordered
  end.

Definition Environments_Reorder (rq : Request) (ordered : list string) : Op unit :=
  do* _ := authorize "environment.reorder" in
  do* _ := requireDBManagedDefinitions (rq_source rq) in
  do* live := gets ListEnvironments in
  if bool_decide (length ordered ≠ length live) then fail (ErrInvalid "order")
  else
    do* _ := reorder (list_to_set live.*1) ∅ 0 ordered in
    insertDefinitionEvent "settings.environment_reordered" "" [pretty (length ordered); String.concat "," ordered].

(** ** Applying a plan *)

Definition final_names_of (current : list entity) (deleted : list Ref) (renamed : list (string * string))
    (created : list string) : gmap string string :=
  let m := index_by ent_id ent_name current in
  let m := foldl (λ m d, delete (ent_id d) m) m deleted in
  let m := foldl (λ m r, <[r.1 := r.2]> m) m renamed in
  foldl (λ m n, <["new:" +:+ n := n]> m) m created.

Definition all_named (check : string → result name_err unit) (m : gmap string string) : bool :=
  forallb (λ e, is_ok (check e.2)) (map_to_list m).

(** [validateFinalDefinitions]; the maps are ranged over in any order, which
    decides only which bad name is reported. *)
Definition validateFinalDefinitions (cur : CurrentState) (res : Resolution) (limit : Z) : Op unit :=
  let es := final_names_of (s_envs cur) (EnvDeletes res) ((λ r, (rn_id r, rn_to r)) <$> EnvRenames res) (EnvCreates res) in
  let gs := final_names_of (s_groups cur) (GroupDeletes res) ((λ r, (rn_id r, rn_to r)) <$> GroupRenames res) (GroupCreates res) in
  let ks := final_names_of (currentKeyEntities (s_keys cur)) (KeyDeletes res)
    ((λ u, (u_id u, k_name (u_desired u))) <$> KeyUpdates res) (k_name <$> KeyCreates res) in
  if (MaxEnvironmentsPerProject <? Z.of_nat (size es))%Z then fail (ErrLimitExceeded "environments")
  else if negb (all_named checkName es) then fail (ErrInvalid "environment name")
  else if (MaxKeyGroupsPerProject <? Z.of_nat (size gs))%Z then fail (ErrLimitExceeded "key groups")
  else if negb (all_named CheckGroupName gs) then fail (ErrInvalid "key group name")
  else
    do* _ := limit_check (checkProjectKeyGrowth (Z.of_nat (length (s_keys cur))) (Z.of_nat (size ks)) limit) in
    do* _ := limit_check (checkResolvedCells (Z.of_nat (size ks)) (Z.of_nat (size es))) in
    if negb (all_named checkKeyName ks) then fail (ErrInvalid "key name") else ret tt.

(** A stored plan, with the pins it was made under: a pin that does not decode is
    [None]. The protected environments are ids with their names. *)
Record Plan := mkPlan {
  pl_id : string; pl_applied : bool; pl_expired : bool; pl_bundle : Bundle;
  pl_digest : string; pl_baseRevision : Z;
  pl_envRevisions : option (gmap string Z); pl_protected : option (list (string * string));
}.

Record ApplyOptions := mkApplyOptions {
  AllowDelete : bool; ao_digest : string; Commit : string; ao_ref : string; ao_actor : string;
  ConfirmWidening : list string;
}.

(** *** The pins *)

(** [refuse] and [moved]: the event survives the rollback. *)
Definition refuse_plan (ty planID : string) (c : conflict) : Op unit :=
  do* _ := with_access (ErrInternal "event") (captureDenied ty planID) in fail (ErrConflict c).
Definition moved (plan : Plan) (what : string) : Op unit :=
  refuse_plan "definitions.apply_rejected_stale" (pl_id plan) (StalePin what).

(** An environment that was never published is at revision 0. *)
Definition envRevisions (cur : CurrentState) : Op (gmap string Z) :=
  do* published := surround (ErrInternal "revisions") ProjectRevisions in
  ret (foldl (λ m e, <[ent_id e := default 0%Z (published !! ent_id e)]> m) ∅ (s_envs cur)).

Definition sameRevisionKeys (a b : gmap string Z) : bool :=
  bool_decide (size a = size b) && forallb (λ kv, bool_decide (is_Some (b !! kv.1))) (map_to_list a).

Definition changedRevision (a b : gmap string Z) : option string :=
  find (λ id, negb (bool_decide (default 0%Z (a !! id) = default 0%Z (b !! id)))) (sort_by String.leb (map_to_list a).*1).

(** ORDER BY id *)
Definition ListProtection (s : St) : list (string * bool) :=
  (λ e, (e.1, er_protected e.2)) <$> sort_by (λ a b, String.leb a.1 b.1) (map_to_list (envs s)).

Definition protectedPins (prot : list (string * bool)) (names : gmap string string) : list (string * string) :=
  sort_by (λ a b, String.leb a.1 b.1)
    ((λ e, (e.1, default "" (names !! e.1))) <$> filter (λ e, e.2 = true) prot).
Definition protectedPinIDs (pins : list (string * string)) : list string := sort_by String.leb pins.*1.

Definition protectedSetGrew (pinned current : list string) : bool :=
  existsb (λ id, bool_decide (id ∉ pinned)) current.

Definition recheckPins (digestOf : Bundle → string) (opts : ApplyOptions) (plan : Plan) (bundle : Bundle)
    (cur : CurrentState) : Op unit :=
  if bool_decide (digestOf bundle ≠ pl_digest plan)
     || (bool_decide (ao_digest opts ≠ "") && bool_decide (ao_digest opts ≠ pl_digest plan))
  then moved plan "bundle digest"
  else
    do* curRevs := envRevisions cur in
    match pl_envRevisions plan with
    | None => fail (ErrInternal "unreadable pin")
    | Some storedRevs =>
        if negb (sameRevisionKeys curRevs storedRevs) then moved plan "environment topology"
        else if bool_decide (SchemaRevision cur ≠ pl_baseRevision plan) then moved plan "definitions revision"
        else match changedRevision curRevs storedRevs with
        | Some _ => moved plan "environment value revision"
        | None =>
            do* protection := gets ListProtection in
            match pl_protected plan with
            | None => fail (ErrInternal "unreadable pin")
            | Some storedProtected =>
                if protectedSetGrew (protectedPinIDs storedProtected)
                     (protectedPinIDs (protectedPins protection (index_by ent_id ent_name (s_envs cur))))
                then moved plan "the protected-environment set" else ret tt
            end
        end
    end.

(** *** The guards *)

Definition CountEnvironmentValues (env : string) : Op nat :=
  gets (λ s, size (filter (λ v : string * string, v.2 = env) (values s))).

Definition guardDeletions (plan : Plan) (res : Resolution) (opts : ApplyOptions) : Op unit :=
  let refuse why := refuse_plan "definitions.deletion_refused" (pl_id plan) (DeletionRefused why) in
  do* _ := for_each (EnvDeletes res) (λ del,
    do* count := CountEnvironmentValues (ent_id del) in
    if (0 <? count)%nat then refuse "live values" else ret tt) in
  if DeletionsPresent res && negb (AllowDelete opts) then refuse "allow-delete" else ret tt.

Definition enforceReveal (res : Resolution) : Op unit :=
  for_each (KeyUpdates res) (λ upd,
    if negb (NeedsReveal upd) then ret tt
    else
      do* _ := Catalogue_Get (u_id upd) in
      let wasSecret := bool_decide (PrevClassification upd = Secret) in
      do* _ := when (wasSecret && DeclChanged upd)
        (with_access (ErrUnauthorized "key.secret-rule-change" "") (revealGate "key.secret-rule-change" (u_id upd))) in
      when (wasSecret && bool_decide (k_class (u_desired upd) = Config))
        (fail (ErrInvalid "definitions apply cannot declassify"))).

Definition Definitions_Apply (encodedLen : Bundle → N) (digestOf : Bundle → string) (rq : Request) (plan : Plan)
    (opts : ApplyOptions) : Op unit :=
  do* _ := for_each [Commit opts; ao_ref opts; ao_actor opts] (λ l, match sanitizeProvenance l with Ok _ => ret tt | Err _ => fail (ErrInvalid "provenance") end) in
  do* _ := authorize "definitions.apply" in
  do* _ := with_access (ErrInvalid "scan") (scanApplySkew (pl_id plan) (pl_bundle plan)) in
  do* _ := sealerFor "definitions.apply" in
  do* _ := authorize "definitions.apply" in
  if pl_applied plan then fail (ErrConflict PlanUsed)
  else if pl_expired plan then fail (ErrConflict PlanExpired)
  else match Canonicalize encodedLen (pl_bundle plan) with
  | Err r => fail (ErrBundle r)
  | Ok (bundle, declarations) =>
      do* cur := buildCurrentState in
      do* _ := recheckPins digestOf opts plan bundle cur in
      if Additive bundle && AllowDelete opts then fail (ErrInvalid "allow-delete")
      else match Resolve bundle cur with
      | Err r => fail (ErrBundle r)
      | Ok res =>
          do* limit := keyLimit rq in
          do* _ := validateFinalDefinitions cur res limit in
          if Empty res then ret tt
          else
            do* _ := guardDeletions plan res opts in
            do* _ := enforceReveal res in
            do* _ := with_access (ErrInvalid "widening") (confirmMoves res (ConfirmWidening opts)) in
            do* _ := executeResolution newid res cur declarations (SchemaRevision cur + 1) in
            do* _ := bumpSchemaRevision (rq_admitted rq) in
            do* rev := gets revision in
            do* _ := with_access (ErrConflict PlanUsed) (MarkPlanApplied (pl_id plan)) in
            do* _ := event "definitions.applied" (pl_id plan) [pl_id plan; pretty rev; Commit opts; ao_ref opts; ao_actor opts] in
            do* _ := emit_overrides [pl_id plan] in
            fanOut None "definitions-apply"
      end
  end.
End services.
