(* ===== verification/KeyServicesFacts.v ===== *)
(** * What the definition services keep

    Every method of [KeyServices.v] keeps the invariant of the catalogue, the
    supply of identifiers, the names and the limits of a project. Most steps of a
    method leave the definition tables alone; [quiet] steps are skipped by
    automation, and the statements that write are treated by rule. *)

From stdpp Require Import prelude gmap strings pretty list.
From S2P Require Import Prelude StateErr Presence Definitions DefinitionsMatch Catalogue DefinitionsApply.
From S2P Require Import DefinitionsState DefinitionsRealize DefinitionsExec DefinitionsKeys DefinitionsTopology.
From S2P Require Import DefinitionsConverge DefinitionsParse DefinitionsExport EnvironmentDelete.
From S2P Require Import EntityNames GroupIndex KeyServices.

Create HintDb quiet.

(** Here a refusal may be for any reason. *)
#[export] Instance any_blame : Blame := {| conflict_blame := True; declassify_blame := True |}.

(** The number of keys a project may reach: no request is under a larger limit. *)
Class KeyCap := key_cap : Z.

Definition within (cap : Z) (rq : Request) : Prop :=
  ∀ l, projectKeyLimit (rq_override rq) (rq_default rq) (rq_maximum rq) = Ok l → (l ≤ cap)%Z.

(** [m] may fail, and ends in [Q] otherwise. *)
Abbreviation ends m s Q := (wp m s Q (λ _ _, True)).

Section quiet.
Context `{SchemaLang} {A : Type} `{AccessAdmin A}.
Implicit Types s : Project A.

Local Abbreviation Op := (M (Project A) DefError).

Lemma same_refl s : same s s.
Proof. done. Qed.
Lemma same_trans s1 s2 s3 : same s1 s2 → same s2 s3 → same s1 s3.
Proof. unfold same. intuition congruence. Qed.

(** The definition tables and the identifiers are left alone. *)
Definition quiet {X} (m : Op X) : Prop := ∀ s, ends m s (λ _ s', same s s').

Lemma quiet_ret {X} (x : X) : quiet (ret x).
Proof. by intros s. Qed.
Lemma quiet_fail {X} e : quiet (fail e : Op X).
Proof. by intros s. Qed.
Lemma quiet_gets {X} (f : Project A → X) : quiet (gets f).
Proof. by intros s. Qed.

Lemma quiet_bind {X Y} (m : Op X) (f : X → Op Y) : quiet m → (∀ x, quiet (f x)) → quiet (bind m f).
Proof.
  intros Hm Hf s. apply wp_bind. eapply wp_mono; [apply Hm| |done]. intros x s1 E1.
  eapply wp_mono; [apply Hf| |done]. intros y s2 E2. exact (same_trans _ _ _ E1 E2).
Qed.

Lemma quiet_modify f : (∀ s, same s (f s)) → quiet (modify f : Op unit).
Proof. intros Hf s. by apply wp_modify. Qed.
Lemma quiet_stmt check f : (∀ s, same s (f s)) → quiet (stmt check f : Op unit).
Proof. intros Hf s. unfold wp, stmt. destruct (check s); [done|apply Hf]. Qed.
Lemma quiet_access e f : quiet (with_access e f : Op unit).
Proof. intros s. unfold wp, with_access. by destruct (f (access s)) as [a []]. Qed.
Lemma quiet_for_each {X} (l : list X) (f : X → Op unit) : (∀ x, quiet (f x)) → quiet (for_each l f).
Proof. intros Hf. induction l as [|x l IH]; [apply quiet_ret|]. simpl. by apply quiet_bind. Qed.
Lemma quiet_if {X} (c : bool) (m k : Op X) : quiet m → quiet k → quiet (if c then m else k).
Proof. by destruct c. Qed.

(** A quiet step of a method. *)
Lemma skip {X Y} (m : Op X) (f : X → Op Y) s0 s Q :
  quiet m → same s0 s → (∀ x s', same s0 s' → ends (f x) s' Q) → ends (bind m f) s Q.
Proof.
  intros Hm Hs Hf. apply wp_bind. eapply wp_mono; [apply Hm| |done]. intros x s1 E. apply Hf. exact (same_trans _ _ _ Hs E).
Qed.

(** The rest of a method, once its writes are done. *)
Lemma rest {X} (m : Op X) s (Q : Project A → Prop) :
  quiet m → (∀ s', same s s' → Q s') → ends m s (λ _ s', Q s').
Proof. intros Hm HQ. eapply wp_mono; [apply Hm| |done]. auto. Qed.
End quiet.

#[export] Hint Resolve quiet_ret quiet_fail quiet_gets quiet_bind quiet_access quiet_for_each quiet_if : quiet.
#[export] Hint Extern 1 (quiet (modify _)) => apply quiet_modify; intros ?; done : quiet.
#[export] Hint Extern 1 (quiet (stmt _ _)) => apply quiet_stmt; intros ?; done : quiet.

Section quiet_calls.
Context `{SchemaLang} {A : Type} `{AccessAdmin A, !Surroundings A}.
Implicit Types s : Project A.
Local Abbreviation Op := (M (Project A) DefError).

Lemma quiet_surround {X} e (f : A → A * option X) : quiet (surround e f).
Proof. intros s. unfold wp, surround. by destruct (f (access s)) as [a []]. Qed.
Lemma quiet_conceal {X} bk (m : Op X) : quiet m → quiet (concealBeyondRule bk m).
Proof. intros Hm s. specialize (Hm s). unfold wp, concealBeyondRule in *. by destruct (m s) as [s' []]. Qed.
Lemma quiet_event ty o p : quiet (event ty o p : Op unit).
Proof. by intros s. Qed.
Lemma quiet_bump b : quiet (bumpSchemaRevision b : Op unit).
Proof. intros s. by destruct b. Qed.
Lemma quiet_publish t es : quiet (publish t es : Op unit).
Proof. intros s. unfold wp, publish. by destruct (republish t es s) as [a [[]|]]. Qed.
Lemma quiet_release key : quiet (release_key key : Op unit).
Proof. apply quiet_access. Qed.
Lemma quiet_managed src : quiet (requireDBManagedDefinitions src : Op unit).
Proof. apply quiet_if; auto with quiet. Qed.
Lemma quiet_pinned id name : quiet (refuseAdapterPinnedKey id name : Op unit).
Proof. apply quiet_bind; [apply quiet_gets|auto with quiet]. Qed.
Lemma quiet_bound bk id : quiet (requireBoundKey bk id : Op unit).
Proof. destruct bk; simpl; auto with quiet. Qed.
Lemma quiet_check {E} w (r : result E unit) : quiet (pure_check w r : Op unit).
Proof. destruct r; simpl; auto with quiet. Qed.
Lemma quiet_limit r : quiet (limit_check r : Op unit).
Proof. destruct r as [|[]]; simpl; auto with quiet. Qed.
Lemma quiet_index {X} (r : result index_err X) : quiet (index_check r : Op X).
Proof. destruct r as [|[]]; simpl; auto with quiet. Qed.
Lemma quiet_presence p : quiet (checkPresenceRules p : Op unit).
Proof. unfold checkPresenceRules. destruct (CheckPresence _ _); auto with quiet. Qed.
Lemma quiet_canonical d : quiet (canonicalText d : Op string).
Proof. unfold canonicalText. destruct (CompiledCanonical d); auto with quiet. Qed.
Lemma quiet_stored r : quiet (storedDeclaration r : Op Declaration).
Proof. unfold storedDeclaration. destruct (ParseDeclaration _); auto with quiet. Qed.
Lemma quiet_get id : quiet (Catalogue_Get id : Op KeyRow).
Proof. intros s. unfold wp, Catalogue_Get. by destruct (keys s !! id). Qed.
Lemma quiet_group id : quiet (GetGroup id : Op string).
Proof. intros s. unfold wp, GetGroup. by destruct (groups s !! id). Qed.
Lemma quiet_env id : quiet (Environments_Get id : Op EnvRow).
Proof. intros s. unfold wp, Environments_Get. by destruct (envs s !! id). Qed.
Lemma quiet_key_limit rq : quiet (keyLimit rq : Op Z).
Proof. unfold keyLimit. destruct (projectKeyLimit _ _ _); auto with quiet. Qed.
Lemma quiet_clone source id : quiet (clone_values source id : Op unit).
Proof. intros s. unfold wp, clone_values. by destruct (cloneInto source id s) as [a []]. Qed.
Lemma quiet_keyOf d : quiet (keyOf d : Op unit).
Proof. unfold keyOf. destruct (ParseDeclaration d); auto with quiet. Qed.
Lemma quiet_insert ty o p : quiet (insertDefinitionEvent ty o p : Op unit).
Proof. by apply quiet_modify. Qed.
Lemma quiet_discard id : quiet (Pending_DiscardKey id : Op unit).
Proof. by apply quiet_modify. Qed.
Lemma quiet_dismiss id : quiet (ScanningDismissals_DeleteByKey id : Op unit).
Proof. by apply quiet_modify. Qed.
Lemma quiet_opt w f x : quiet (opt_check w f x : Op unit).
Proof. destruct x; simpl; [apply quiet_check|auto with quiet]. Qed.
End quiet_calls.

#[export] Hint Resolve quiet_surround quiet_conceal quiet_event quiet_bump quiet_publish quiet_release quiet_managed
  quiet_pinned quiet_bound quiet_check quiet_limit quiet_index quiet_presence quiet_canonical quiet_stored quiet_get
  quiet_group quiet_env quiet_key_limit quiet_opt quiet_discard quiet_dismiss quiet_clone
  quiet_keyOf quiet_insert : quiet.
#[export] Hint Unfold authorize authorizeKey Authorize scan_text authorizeKeyFanOut fanOut loadGroupIndex
  EnvironmentsWithValue Pending_DiscardKey ScanningDismissals_DeleteByKey Environments_NextOrder
  checkGroupMembership : quiet.

(** One quiet step, with the state it starts from. *)
Ltac skip_step :=
  eapply skip; [eauto 12 with quiet|eassumption|]; cbv beta; intros ? ? ?.

(** ** The invariant *)

Section invariant.
Context `{SchemaLang, !SchemaLaws} {A : Type} `{AccessAdmin A} `{KeyCap}.
Context (newid : string → nat → option string).
Context (newid_inj : ∀ p p' n n' id, newid p n = Some id → newid p' n' = Some id → n = n').
Implicit Types s : Project A.

Record limits (cap : Z) s : Prop := {
  lm_envs : (Z.of_nat (size (envs s)) ≤ MaxEnvironmentsPerProject)%Z;
  lm_groups : (Z.of_nat (size (groups s)) ≤ MaxKeyGroupsPerProject)%Z;
  lm_keys : (Z.of_nat (size (keys s)) ≤ Z.min cap MaxKeysPerProjectCeiling)%Z;
  lm_cells : (Z.of_nat (size (keys s)) * Z.of_nat (size (envs s)) ≤ MaxResolvedCells)%Z;
}.

Record well_named s : Prop := {
  wn_envs : ∀ id n, env_names s !! id = Some n → env_name n;
  wn_groups : ∀ id n, groups s !! id = Some n → group_name n;
  wn_keys : ∀ id n, key_names s !! id = Some n → key_name n;
}.

Record Inv s : Prop := {
  iv_ok : catalogue_ok s;
  iv_fresh : fresh newid s;
  iv_named : well_named s;
  iv_limits : limits key_cap s;
}.

Lemma well_named_named s : well_named s → named s.
Proof. intros [N1 N2 _]. split; intros id n Hn; [by destruct (N1 id n Hn)|by destruct (N2 id n Hn)]. Qed.

Lemma catalogue_ok_same s s' : same s s' → catalogue_ok s → catalogue_ok s'.
Proof.
  intros (E1 & E2 & E3 & E4 & _) [O1 O2 O3 O4 O5 O6 O7 O8]. split; rewrite ?E1, ?E2, ?E3, ?E4; try assumption.
  intros id r Hr. eapply key_ok_local; [| |by apply O7]; [by rewrite E2|by rewrite E4].
Qed.

Lemma Inv_same s s' : same s s' → Inv s → Inv s'.
Proof.
  intros Hs [I1 I2 [N1 N2 N3] [L1 L2 L3 L4]]. pose proof Hs as (E1 & E2 & E3 & E4 & E5). split.
  - by eapply catalogue_ok_same.
  - apply (fresh_mono newid s); [unfold in_use; by rewrite E1, E2, E3|by rewrite E5|done].
  - split; unfold env_names, key_names in *; rewrite ?E1, ?E2, ?E3; assumption.
  - split; rewrite ?E1, ?E2, ?E3; assumption.
Qed.

(** ** One key is written *)

Lemma key_written s s' id r :
  catalogue_ok s → touched newid id s s' → keys s' !! id = Some r → id_ok id →
  (∀ i q, i ≠ id → keys s !! i = Some q → kr_name q ≠ kr_name r) → key_ok s' id r → catalogue_ok s'.
Proof.
  intros [O1 O2 O3 O4 O5 O6 O7 O8] [T1 T2 T3 T4 T5 T6] Hr Hid Hfree Hko. split; rewrite ?T1, ?T2; try assumption.
  - assert (∀ i n, i ≠ id → (kr_name <$> keys s') !! i = Some n → n ≠ kr_name r ∧ (kr_name <$> keys s) !! i = Some n) as Hi.
    { intros i n Hne. rewrite !lookup_fmap, (T5 i Hne), fmap_Some. intros (q & Hq & ->). split; [eauto|by exists q]. }
    assert (∀ n, (kr_name <$> keys s') !! id = Some n → n = kr_name r) as Hn.
    { intros n. rewrite lookup_fmap, Hr. simpl. congruence. }
    intros i j n Hin Hjn. destruct (decide (i = id)) as [->|Hi']; destruct (decide (j = id)) as [->|Hj']; [done| | |].
    + destruct (Hi j n Hj' Hjn) as [Hne _]. by apply Hn in Hin.
    + destruct (Hi i n Hi' Hin) as [Hne _]. by apply Hn in Hjn.
    + destruct (Hi i n Hi' Hin) as [_ ?], (Hi j n Hj' Hjn) as [_ ?]. by eapply O3.
  - intros i [q Hq]. destruct (decide (i = id)) as [->|Hne]; [done|]. apply O6. exists q. by rewrite <-(T5 i Hne).
  - intros i q Hq. destruct (decide (i = id)) as [->|Hne]; [by simplify_eq|]. rewrite (T5 i Hne) in Hq.
    eapply key_ok_local; [| |by apply O7]; [by rewrite T2|]. intros e ru. by apply T6.
  - intros row Hrow. destruct (T4 O8 row Hrow) as [? He]. split; [done|]. by rewrite <-T1.
Qed.

(** An UPDATE of a key's row. *)
Lemma touched_alter id f s : touched newid id s (set_keys s (alter f id (keys s))).
Proof.
  split; simpl; [done|done| | |intros i Hi; by rewrite lookup_alter_ne|done].
  - apply fresh_mono; [|done]. unfold in_use. simpl. by rewrite dom_alter_L.
  - intros Hcl row Hrow. destruct (Hcl row Hrow) as [Hk He]. simpl. split; [|done]. by rewrite lookup_alter_is_Some.
Qed.

Lemma size_alter {V} (f : V → V) (m : gmap string V) i : size (alter f i m) = size m.
Proof. rewrite <-!size_dom. by rewrite dom_alter_L. Qed.

(** The other parts of the invariant, for a key that stays or goes. *)
Lemma Inv_keys s s' :
  catalogue_ok s' → fresh newid s' → envs s' = envs s → groups s' = groups s → size (keys s') ≤ size (keys s) →
  (∀ id n, key_names s' !! id = Some n → key_name n) → Inv s → Inv s'.
Proof.
  intros Hok Hf E1 E2 Hk Hn [_ _ [N1 N2 _] [L1 L2 L3 L4]]. split; [done|done| |].
  - split; unfold env_names in *; rewrite ?E1, ?E2; assumption.
  - split; rewrite ?E1, ?E2; try assumption; [lia|]. etrans; [|exact L4]. apply Z.mul_le_mono_nonneg_r; lia.
Qed.

Lemma names_altered s id f r :
  (∀ i n, key_names s !! i = Some n → key_name n) → keys s !! id = Some r → key_name (kr_name (f r)) →
  ∀ i n, key_names (set_keys s (alter f id (keys s))) !! i = Some n → key_name n.
Proof.
  intros Hs Hr Hn i n. unfold key_names. simpl. rewrite lookup_fmap. destruct (decide (i = id)) as [->|Hi].
  - rewrite lookup_alter_eq, Hr. by intros [= <-].
  - rewrite lookup_alter_ne, <-lookup_fmap by done. apply Hs.
Qed.

Lemma row_updated s id f r :
  Inv s → keys s !! id = Some r → key_name (kr_name (f r)) →
  (∀ i q, i ≠ id → keys s !! i = Some q → kr_name q ≠ kr_name (f r)) → key_ok s id (f r) →
  Inv (set_keys s (alter f id (keys s))).
Proof.
  intros HI Hr Hn Hfree Hko. pose proof (touched_alter id f s) as Ht.
  eapply (Inv_keys s); [|by apply Ht, HI|done|done|by simpl; rewrite size_alter|eapply names_altered; [apply HI|done|done]|done].
  eapply key_written; [by apply HI|exact Ht|simpl; by rewrite lookup_alter_eq, Hr|..].
  - apply (ok_key_ids _ (iv_ok _ HI)). by eexists.
  - done.
  - by destruct Hko.
Qed.

(** A row whose name and rules stay. *)
Lemma row_kept s id f r :
  Inv s → keys s !! id = Some r → kr_name (f r) = kr_name r → key_ok s id (f r) → Inv (set_keys s (alter f id (keys s))).
Proof.
  intros HI Hr Hn Hko. eapply row_updated; [done|done| | |done]; rewrite Hn.
  { apply (wn_keys _ (iv_named _ HI) id). unfold key_names. by rewrite lookup_fmap, Hr. }
  intros i q Hi Hq E. apply Hi.
  apply (ok_key_names _ (iv_ok _ HI) i id (kr_name r)); rewrite lookup_fmap, ?Hq, ?Hr; simpl; congruence.
Qed.

(** ** A key's presence rows *)

Lemma insert_missing key rows : ∀ s r,
  r ∈ rows → envs s !! pr_env r = None →
  ends (for_each rows (λ r, InsertKeyPresence (mkKeyPresence key (pr_env r) (pr_rule r)))) s (λ _ _, False).
Proof.
  induction rows as [|q rows IH]; intros s r Hr Hn; [by apply elem_of_nil in Hr|]. simpl. apply wp_bind.
  unfold InsertKeyPresence at 1, stmt, wp at 1. simpl. repeat case_bool_decide; try done.
  apply elem_of_cons in Hr as [->|Hr]; [done|]. by apply (IH _ r).
Qed.

Lemma replacePresence_any id p s :
  shaped (Required p) → shaped (Forbidden p) → is_Some (keys s !! id) →
  ends (Catalogue_ReplacePresence id (presenceRows p)) s (λ _ s',
    touched newid id s s' ∧ keys s' = keys s ∧ stores s' id p).
Proof.
  intros S1 S2 Hk.
  destruct (decide (Forall (λ r, is_Some (envs s !! pr_env r)) (presenceRows p))) as [Hall|Hno].
  - replace (Catalogue_ReplacePresence id (presenceRows p)) with (Catalogue_ReplacePresence id (presenceRowsFor id p) : M (Project A) _ _).
    + eapply wp_mono; [apply (replacePresence_ok newid newid_inj id p s S1 S2 Hk)|done|done].
      rewrite Forall_forall in Hall. intros e He.
      assert (∃ r, r ∈ presenceRows p ∧ pr_env r = e) as (r & Hr & <-); [|by apply Hall].
      unfold presenceRows. setoid_rewrite elem_of_app.
      assert (∀ q rule, shaped q → e ∈ Environments q → ∃ r, r ∈ explicit_rows q rule ∧ pr_env r = e) as Hq.
      { intros q rule Hs Hin. destruct (proj2 (explicit_rows_elem q rule e rule)) as (r & ? & ? & _); [|eauto].
        split_and!; [done| |done]. destruct Hs as [[_ En]|[? _]]; [|done]. rewrite En in Hin. by apply elem_of_nil in Hin. }
      destruct He as [He|He]; [destruct (Hq _ PresenceRuleRequired S1 He) as (r & ? & ?)|
        destruct (Hq _ PresenceRuleForbidden S2 He) as (r & ? & ?)]; eauto.
    + unfold Catalogue_ReplacePresence, presenceRowsFor.
      pose proof (for_each_map (λ r, mkKeyPresence id (pr_env r) (pr_rule r)) (presenceRows p)
        (λ r, InsertKeyPresence (mkKeyPresence id (pr_env r) (pr_rule r)) : M (Project A) _ _)) as Em.
      change (map _ _) with ((λ r, mkKeyPresence id (pr_env r) (pr_rule r)) <$> presenceRows p) in Em. by rewrite <-Em.
  - apply not_Forall_Exists in Hno; [|apply _]. apply Exists_exists in Hno as (r & Hr & Hn). apply eq_None_not_Some in Hn.
    apply wp_bind, wp_modify. eapply wp_mono; [by apply (insert_missing id _ _ r)|done|done].
Qed.

(** A written key carries its rules. *)
Lemma written_ok s s' id r p n :
  touched newid id s s' → stores s' id p → kr_required r = Mode (Required p) → kr_forbidden r = Mode (Forbidden p) →
  CheckPresence (Required p) (Forbidden p) = Ok tt → class_ok (kr_class r) = true →
  (kr_group r = "" ∨ is_Some (groups s !! kr_group r)) →
  ParseDeclaration (kr_decl r) = Some n → CompiledCanonical n = Some (kr_decl r) → CompileClassified (kr_class r) n = Some n →
  key_ok s' id r.
Proof.
  intros Ht Hst E1 E2 Hc Hcl Hg D1 D2 D3. pose proof Hc as (S1 & S2 & _)%CheckPresence_ok.
  destruct (stores_rules s' id r p S1 S2 Hst E1 E2) as [R1 R2].
  split; [done|by rewrite (to_groups _ _ _ _ Ht)|eauto|by eapply CheckPresence_same].
Qed.
End invariant.

(** ** Groups stay satisfiable *)

Section grouped.
Context `{SchemaLang, !SchemaLaws} {A : Type} `{AccessAdmin A} `{KeyCap}.
Context (newid : string → nat → option string).
Implicit Types s : Project A.

Lemma key_rules_same s s' id r : presence s' = presence s → key_rules s' id r = key_rules s id r.
Proof. intros E. unfold key_rules, presence_envs, ListPresence. by rewrite E. Qed.

Lemma members_ok_same s s' g id p : same s s' → members_ok s g id p → members_ok s' g id p.
Proof.
  intros (_ & _ & E3 & E4 & _) [?|Hm]; [by left|right]. intros j r. rewrite E3, (key_rules_same s s') by done. apply Hm.
Qed.

(** The rules of [r'] in [s'] are no wider than those of [r] in [s]. *)
Definition narrower s s' (id : string) (r r' : KeyRow) : Prop :=
  ∀ e, (Covers (Required (key_rules s' id r')) e = true → Covers (Required (key_rules s id r)) e = true)
       ∧ (Covers (Forbidden (key_rules s' id r')) e = true → Covers (Forbidden (key_rules s id r)) e = true).

(** Rows that leave their group, stay in it, or go. *)
Lemma grouped_rows s s' :
  (∀ i r', keys s' !! i = Some r' → ∃ r, keys s !! i = Some r ∧ (kr_group r' = "" ∨ kr_group r' = kr_group r) ∧ narrower s s' i r r') →
  grouped s → grouped s'.
Proof.
  intros Hrows Hg i j ri rj e Hi Hj Hne Hgr Heq [Cr Cf].
  destruct (Hrows i ri Hi) as (qi & Hqi & Gi & Ni), (Hrows j rj Hj) as (qj & Hqj & Gj & Nj).
  destruct Gi as [?|Gi]; [done|]. destruct Gj as [Gj|Gj]; [congruence|].
  apply (Hg i j qi qj e); [done|done|done|congruence|congruence|]. split; [by apply Ni|by apply Nj].
Qed.

Lemma grouped_same s s' : keys s' = keys s → presence s' = presence s → grouped s → grouped s'.
Proof.
  intros E1 E2. apply grouped_rows. intros i r'. rewrite E1. intros Hr. exists r'. split; [done|]. split; [by right|].
  intros e. by rewrite (key_rules_same s s').
Qed.

(** An UPDATE that touches neither the group nor the rules. *)
Lemma grouped_alter s id f :
  (∀ r, kr_group (f r) = kr_group r ∧ kr_required (f r) = kr_required r ∧ kr_forbidden (f r) = kr_forbidden r) →
  grouped s → grouped (set_keys s (alter f id (keys s))).
Proof.
  intros Hf. apply grouped_rows. simpl. intros i r' Hr. destruct (decide (i = id)) as [->|Hi].
  - rewrite lookup_alter_eq, fmap_Some in Hr. destruct Hr as (r & Hr & ->). exists r. destruct (Hf r) as (E1 & E2 & E3).
    split; [done|]. split; [by right|]. intros e. unfold key_rules. by rewrite E2, E3.
  - rewrite lookup_alter_ne in Hr by done. exists r'. split; [done|]. split; [by right|done].
Qed.

(** A row that was checked against the other members. *)
Lemma grouped_write s s' id r p :
  catalogue_ok s → touched newid id s s' → keys s' !! id = Some r → shaped (Required p) → shaped (Forbidden p) →
  (∀ e, (Covers (Required (key_rules s' id r)) e = true → Covers (Required p) e = true)
        ∧ (Covers (Forbidden (key_rules s' id r)) e = true → Covers (Forbidden p) e = true)) →
  members_ok s (kr_group r) id p → grouped s → grouped s'.
Proof.
  intros Hok T Hr S1 S2 Hn Hm Hg.
  assert (∀ j q, j ≠ id → keys s' !! j = Some q → keys s !! j = Some q ∧ narrower s s' j q q) as Hother.
  { intros j q Hj Hq. rewrite (to_keys _ _ _ _ T j Hj) in Hq. split; [done|].
    destruct (key_rules_local s s' j q) as [R1 R2]; [intros e ru; by apply (to_presence _ _ _ _ T)|].
    intros e. by rewrite (same_rule_covers _ _ e R1), (same_rule_covers _ _ e R2). }
  assert (∀ j q e, j ≠ id → keys s' !! j = Some q → kr_group r ≠ "" → kr_group q = kr_group r →
    ¬ (Covers (Required (key_rules s' id r)) e = true ∧ Covers (Forbidden (key_rules s' j q)) e = true)
    ∧ ¬ (Covers (Required (key_rules s' j q)) e = true ∧ Covers (Forbidden (key_rules s' id r)) e = true)) as Hpair.
  { intros j q e Hj Hq Hne Heq. destruct (Hother j q Hj Hq) as [Hq' Hnar]. destruct Hm as [?|Hm]; [done|].
    specialize (Hm j q Hq' Heq Hj).
    pose proof (ko_presence _ _ _ (ok_keys _ Hok j q Hq')) as (Q1 & Q2 & _)%CheckPresence_ok.
    rewrite CheckGroupPresence_ok in Hm by done. destruct (Hm e) as [M1 M2].
    split; intros [C1 C2]; [apply M1|apply M2]; split; first [by apply Hn|by apply Hnar]. }
  intros i j ri rj e Hi Hj Hne Hgr Heq [Cr Cf]. destruct (decide (i = id)) as [->|Hi']; [|destruct (decide (j = id)) as [->|Hj']].
  - rewrite Hr in Hi. injection Hi as <-. by destruct (Hpair j rj e) as [[] _].
  - rewrite Hr in Hj. injection Hj as <-. destruct (Hpair i ri e) as [_ []]; [done|done|congruence|done|done].
  - destruct (Hother i ri Hi' Hi) as [Hi2 Ni], (Hother j rj Hj' Hj) as [Hj2 Nj].
    apply (Hg i j ri rj e); [done|done|done|done|done|]. split; [by apply Ni|by apply Nj].
Qed.

Lemma regrouped s s' : same s s' → grouped s → grouped s'.
Proof. intros (_ & _ & E3 & E4 & _). by apply grouped_same. Qed.

(** What a method promises: it fails, or keeps the invariant and satisfiable groups. *)
Lemma from_start {X} (m : M (Project A) DefError X) s :
  (∀ s0, Inv newid s0 → same s0 s → ends m s (λ _ s', Inv newid s' ∧ (grouped s0 → grouped s'))) →
  Inv newid s → ends m s (λ _ s', Inv newid s' ∧ (grouped s → grouped s')).
Proof. intros Hm HI. by apply Hm. Qed.
End grouped.

(** The start of a method: the state it began in, and the one reached. *)
Ltac start s HI :=
  intros s HI; apply from_start; [clear HI; let s0 := fresh "s0" in let Hs := fresh "Hs" in intros s0 HI Hs|exact HI].

Abbreviation keeps newid m :=
  (∀ s, Inv newid s → ends m s (λ _ s', Inv newid s' ∧ (grouped s → grouped s'))).

(** ** Rules for the steps of a method *)

(** What the UNIQUE constraint of a name admits. *)
Lemma insert_free {R} (name_of : R → string) t id n :
  insert_check name_of t id n = None → t !! id = None ∧ ∀ i, i ≠ id → (name_of <$> t) !! i ≠ Some n.
Proof.
  unfold insert_check. case_bool_decide as E; [done|]. destruct (taken _ _ _ _) eqn:Et; [done|]. intros _.
  split; [by apply eq_None_not_Some|by apply taken_false].
Qed.

Lemma rename_free {R} (name_of : R → string) t id n :
  rename_check name_of t id n = None → is_Some (t !! id) ∧ ∀ i, i ≠ id → (name_of <$> t) !! i ≠ Some n.
Proof.
  unfold rename_check. case_bool_decide as E; [done|]. destruct (taken _ _ _ _) eqn:Et; [done|]. intros _.
  split; [by apply not_eq_None_Some|by apply taken_false].
Qed.

Lemma names_inj_insert (m : gmap string string) id n :
  names_inj m → (∀ i, i ≠ id → m !! i ≠ Some n) → names_inj (<[id := n]> m).
Proof.
  intros Hm Hn i j x. rewrite !lookup_insert_Some. intros [[<- <-]|[Hi Hix]] [[<- Hx]|[Hj Hjx]]; try done.
  - by destruct (Hn j).
  - subst x. by destruct (Hn i).
  - by apply (Hm i j x).
Qed.

Section rules.
Context `{SchemaLang, !SchemaLaws} {A : Type} `{AccessAdmin A, !Surroundings A} `{KeyCap}.
Context (newid : string → nat → option string).
Context (newid_inj : ∀ p p' n n' id, newid p n = Some id → newid p' n' = Some id → n = n').
Implicit Types s : Project A.
Local Abbreviation Op := (M (Project A) DefError).

Lemma get_row {Y} id (f : KeyRow → Op Y) s0 s Q :
  same s0 s → (∀ r, keys s0 !! id = Some r → ends (f r) s Q) → ends (bind (Catalogue_Get id) f) s Q.
Proof.
  intros (_ & _ & E & _) Hf. apply wp_bind. unfold wp at 1, Catalogue_Get. rewrite E.
  destruct (keys s0 !! id) as [r|]; [by apply Hf|done].
Qed.

Lemma get_group {Y} id (f : string → Op Y) s0 s Q :
  same s0 s → (∀ n, groups s0 !! id = Some n → ends (f n) s Q) → ends (bind (GetGroup id) f) s Q.
Proof.
  intros (_ & E & _) Hf. apply wp_bind. unfold wp at 1, GetGroup. rewrite E.
  destruct (groups s0 !! id) as [r|]; [by apply Hf|done].
Qed.

Lemma check_rule {E Y} w (r : result E unit) (f : unit → Op Y) s Q :
  (r = Ok tt → ends (f tt) s Q) → ends (bind (pure_check w r) f) s Q.
Proof. intros Hf. apply wp_bind. destruct r as [[]|]; simpl; [by apply Hf|done]. Qed.

Lemma limit_rule {Y} r (f : unit → Op Y) s Q : (r = Ok tt → ends (f tt) s Q) → ends (bind (limit_check r) f) s Q.
Proof. intros Hf. apply wp_bind. destruct r as [[]|[]]; simpl; try done. by apply Hf. Qed.

(** The limit a request is under. *)
Lemma keyLimit_rule {Y} rq (f : Z → Op Y) s Q :
  within key_cap rq → (∀ l, (1 ≤ l ≤ Z.min key_cap MaxKeysPerProjectCeiling)%Z → ends (f l) s Q) → ends (bind (keyLimit rq) f) s Q.
Proof.
  intros Hw Hf. apply wp_bind. unfold keyLimit. destruct (projectKeyLimit _ _ _) as [l|] eqn:E; [|done].
  apply wp_ret, Hf. pose proof (projectKeyLimit_range _ _ _ _ E). specialize (Hw l E). lia.
Qed.

Lemma index_rule {X Y} r (f : X → Op Y) s Q :
  (∀ x, r = Ok x → ends (f x) s Q) → ends (bind (index_check r) f) s Q.
Proof. intros Hf. apply wp_bind. destruct r as [x|[]]; simpl; try done. by apply Hf. Qed.

Lemma classified_rule {Y} c d p (f : Declaration → Op Y) s Q :
  (∀ n, CompileClassified c n = Some n → CheckPresence (Required p) (Forbidden p) = Ok tt → ends (f n) s Q) →
  ends (bind (checkClassifiedDeclaration c d p) f) s Q.
Proof.
  intros Hf. apply wp_bind. unfold checkClassifiedDeclaration. destruct (CompileClassified c d) as [n|] eqn:E; [|done].
  apply wp_bind. unfold checkPresenceRules. destruct (CheckPresence _ _) as [[]|] eqn:Ep; [|done].
  apply Hf; [by eapply compile_idem|done].
Qed.

Lemma canonical_rule {Y} c n (f : string → Op Y) s Q :
  CompileClassified c n = Some n →
  (∀ t, CompiledCanonical n = Some t → ParseDeclaration t = Some n → ends (f t) s Q) →
  ends (bind (canonicalText n) f) s Q.
Proof.
  intros Hc Hf. apply wp_bind. unfold canonicalText. destruct (compile_reads _ _ Hc) as (t & Ht & Hp). rewrite Ht. by apply Hf.
Qed.

Lemma update_rule {Y} check id f (g : unit → Op Y) s0 s Q :
  same s0 s → (∀ r, keys s0 !! id = Some r → check s = None → ends (g tt) (set_keys s (alter f id (keys s))) Q) →
  ends (bind (update_key check id f) g) s Q.
Proof.
  intros (_ & _ & E & _) Hg. apply wp_bind. unfold update_key, stmt, wp at 1. rewrite E.
  destruct (keys s0 !! id) as [r|] eqn:Hr; [|by rewrite bool_decide_eq_true_2].
  rewrite bool_decide_eq_false_2 by done. destruct (check s) eqn:Hc; [done|]. rewrite <-E. by apply (Hg r).
Qed.

Lemma stmt_rule {Y} check f (g : unit → Op Y) s Q :
  (check s = None → ends (g tt) (f s) Q) → ends (bind (stmt check f) g) s Q.
Proof. intros Hg. apply wp_bind. unfold stmt, wp at 1. destruct (check s); [done|by apply Hg]. Qed.

(** A refusal kept from a caller whose rule binds one key is a refusal. *)
Lemma conceal_rule {X Y} bk (m : Op X) (f : X → Op Y) s Q : ends (bind m f) s Q → ends (bind (concealBeyondRule bk m) f) s Q.
Proof. unfold wp, bind, concealBeyondRule. by destruct (m s) as [s' [x|e]]. Qed.

Lemma read_rule {X Y} (h : Project A → X) (f : X → Op Y) s Q : ends (f (h s)) s Q → ends (bind (gets h) f) s Q.
Proof. done. Qed.

Lemma guard_rule {Y} (c : bool) e (f : unit → Op Y) s Q :
  (c = true → ends (f tt) s Q) → ends (bind (if c then ret tt else fail e) f) s Q.
Proof. intros Hf. destruct c; [by apply Hf|done]. Qed.

(** The end of a method that keeps the invariant, and what it knew of groups. *)
Lemma kept {X} (m : Op X) s (G : Prop) :
  quiet m → Inv newid s → (G → grouped s) → ends m s (λ _ s', Inv newid s' ∧ (G → grouped s')).
Proof.
  intros Hm HI HG. apply rest; [done|]. intros s' E. split; [by eapply Inv_same|]. intros g.
  destruct E as (_ & _ & E3 & E4 & _). apply (grouped_same s); auto.
Qed.

(** The static check of a group's members. *)
Lemma members_rule {Y} g id p (f : unit → Op Y) s0 s Q :
  same s0 s → (members_ok s0 g id p → ends (f tt) s Q) → ends (bind (checkGroupMembership g id p) f) s Q.
Proof.
  intros Hs Hf. apply wp_bind. unfold checkGroupMembership. case_bool_decide as Hg; [apply wp_ret, Hf; by left|].
  eapply get_group; [exact Hs|]. intros n _. unfold loadGroupIndex. apply wp_bind, read_rule, read_rule.
  destruct (newGroupIndex _ _) as [i|[]] eqn:Ei; [|done..]. apply wp_ret.
  destruct (validateStaticMembership _ _ _ _) as [[]|[]] eqn:Ev; [|done..]. apply wp_ret, Hf.
  eapply (members_ok_same s); [destruct Hs as (?&?&?&?&?); split_and!; congruence|]. by eapply static_members_ok.
Qed.

(** ** A new identifier *)

Definition minting (id : string) s : Prop :=
  id_ok id ∧ (id ∉ in_use s) ∧ ∀ s', minted s' = minted s → in_use s' ⊆ {[ id ]} ∪ in_use s → fresh newid s'.

Lemma minting_same id s s' : same s s' → minting id s → minting id s'.
Proof.
  intros (E1 & E2 & E3 & _ & E5) (M1 & M2 & M3). assert (in_use s' = in_use s) as E by (unfold in_use; by rewrite E1, E2, E3).
  split; [done|]. rewrite E. split; [done|]. intros t. rewrite E5. apply M3.
Qed.

Lemma newID_rule {Y} p (f : string → Op Y) s Q :
  Inv newid s → (∀ id s0 s1, Inv newid s0 → minting id s0 → (grouped s → grouped s0) → same s0 s1 → ends (f id) s1 Q) → ends (bind (newID newid p) f) s Q.
Proof.
  intros [I1 I2 I3 I4] Hf. apply wp_bind. eapply wp_mono; [apply (newID_ok newid newid_inj p s _ I2)| |done].
  2:{ intros id s' HQ. exact HQ. }
  intros id Hid Hu Hfresh. apply (Hf id (set_minted s (S (minted s)))).
  - split; [|apply Hfresh; [done|unfold in_use; simpl; set_solver]|by destruct I3|by destruct I4].
    destruct I1 as [O1 O2 O3 O4 O5 O6 O7 O8]. split; try assumption. intros i r Hr. by destruct (O7 i r Hr).
  - split; [done|]. split; [done|]. intros s' Hm Hu'. by apply Hfresh.
  - by apply grouped_same.
  - done.
Qed.
End rules.
