(* ===== verification/KeyServicesMethods.v ===== *)
(** * The key methods keep the invariant

    One lemma per method of [Keys]: from a project that keeps the invariant it
    fails, or ends in one that does. *)

From stdpp Require Import prelude gmap strings pretty list.
From S2P Require Import Prelude StateErr Presence Definitions DefinitionsMatch Catalogue DefinitionsApply.
From S2P Require Import DefinitionsState DefinitionsRealize DefinitionsExec DefinitionsKeys DefinitionsTopology.
From S2P Require Import DefinitionsConverge DefinitionsParse DefinitionsExport EnvironmentDelete.
From S2P Require Import EntityNames GroupIndex KeyServices KeyServicesFacts.

Section methods.
Context `{SchemaLang, !SchemaLaws} {A : Type} `{AccessAdmin A, !Surroundings A} `{KeyCap}.
Context (newid : string → nat → option string).
Context (newid_inj : ∀ p p' n n' id, newid p n = Some id → newid p' n' = Some id → n = n').
Implicit Types s : Project A.
Local Abbreviation Op := (M (Project A) DefError).

(** The stored row of a key of a project that keeps the invariant. *)
Lemma row_ok s0 s id r : Inv newid s0 → same s0 s → keys s0 !! id = Some r → keys s !! id = Some r ∧ key_ok s id r.
Proof.
  intros HI Hs Hr. assert (keys s !! id = Some r) as Hr' by (destruct Hs as (_ & _ & -> & _); done).
  split; [done|]. apply (ok_keys s); [|done]. eapply catalogue_ok_same; [exact Hs|apply HI].
Qed.

Lemma Keys_Rename_keeps rq id name : keeps newid (Keys_Rename rq id name).
Proof.
  start s HI. unfold Keys_Rename. apply check_rule. intros Hn%checkKeyName_ok. do 8 skip_step. apply conceal_rule. unfold Catalogue_Rename. eapply update_rule; [eassumption|]. intros r Hr Hc.
  apply kept; [eauto 12 with quiet| |intros Hg; by apply grouped_alter; [|eapply regrouped]].
  destruct (row_ok _ _ _ _ HI ltac:(eassumption) Hr) as [Hr' Hko].
  eapply row_updated; [by eapply Inv_same|done|done| |by destruct Hko].
  destruct (taken _ _ _ _) eqn:Et; [done|]. rewrite taken_false in Et.
  intros i q Hi Hq E. apply (Et i Hi). rewrite lookup_fmap, Hq. simpl in *. by rewrite E.
Qed.

Lemma Keys_UpdateMetadata_keeps rq id m : keeps newid (Keys_UpdateMetadata rq id m).
Proof.
  start s HI. unfold Keys_UpdateMetadata. do 5 skip_step.
  eapply skip; [destruct (mu_folder m); eauto 12 with quiet|eassumption|]; cbv beta; intros ? ? ?.
  do 3 skip_step. case_match; [apply kept; [eauto with quiet|by eapply Inv_same|by apply regrouped]|].
  skip_step. unfold Catalogue_UpdateMetadata. eapply update_rule; [eassumption|]. intros r Hr _.
  apply kept; [eauto 12 with quiet| |intros Hg; by apply grouped_alter; [|eapply regrouped]].
  destruct (row_ok _ _ _ _ HI ltac:(eassumption) Hr) as [Hr' [K1 K2 K3 K4]].
  eapply row_kept; [by eapply Inv_same|done|done|]. split; [exact K1|exact K2|exact K3|]. exact K4.
Qed.

Lemma Keys_Reclassify_keeps rq id class : keeps newid (Keys_Reclassify rq id class).
Proof.
  start s HI. unfold Keys_Reclassify. apply guard_rule. intros Hcl. do 4 skip_step.
  eapply get_row; [eassumption|]. intros r Hr. skip_step. case_bool_decide; [done|].
  destruct (row_ok _ _ _ _ HI ltac:(eassumption) Hr) as [_ [K1 K2 (n & D1 & D2 & D3) K4]].
  unfold storedDeclaration. rewrite D1. apply wp_bind, wp_ret. destruct (CompileClassified class n) as [n'|] eqn:Ec; [|done].
  pose proof (compile_class _ _ _ _ D3 Ec) as ->. apply wp_bind, wp_ret. do 2 skip_step.
  unfold Catalogue_SetClassification. eapply update_rule; [eassumption|]. intros r' Hr' _.
  rewrite Hr in Hr'. injection Hr' as <-. destruct (row_ok _ _ _ _ HI ltac:(eassumption) Hr) as [Hr' [_ K2' _ K4']].
  apply kept; [eauto 12 with quiet| |intros Hg; by apply grouped_alter; [|eapply regrouped]].
  eapply row_kept; [by eapply Inv_same|done|done|]. split; [done|done|by exists n|done].
Qed.

Lemma join_rule {Y} g id r (f : unit → Op Y) s0 s Q :
  same s0 s → keys s0 !! id = Some r → (members_ok s0 g id (key_rules s0 id r) → ends (f tt) s Q) →
  ends (bind (if bool_decide (g = "") then ret tt
              else do* _ := GetGroup g in do* index := loadGroupIndex in
                   do* self := index_check (presenceFor index id) in
                   index_check (validateStaticMembership index g id self)) f) s Q.
Proof.
  intros Hs Hr Hf. apply wp_bind. case_bool_decide as Hg; [apply wp_ret, Hf; by left|].
  eapply get_group; [exact Hs|]. intros n _. unfold loadGroupIndex. apply wp_bind, read_rule, read_rule.
  destruct (newGroupIndex _ _) as [i|[]] eqn:Ei; [|done..]. apply wp_ret. destruct Hs as (E1 & E2 & E3 & E4 & E5).
  rewrite (proj1 (index_spec _ _ Ei) id r) by (by rewrite E3). apply wp_bind, wp_ret.
  destruct (validateStaticMembership _ _ _ _) as [[]|[]] eqn:Ev; [|done..]. apply wp_ret, Hf.
  rewrite <-(key_rules_same s0 s) by done. eapply (members_ok_same s); [split_and!; congruence|]. by eapply static_members_ok.
Qed.

Lemma Keys_SetGroup_keeps rq id g : keeps newid (Keys_SetGroup rq id g).
Proof.
  start s HI. unfold Keys_SetGroup. do 4 skip_step. eapply get_row; [eassumption|]. intros r Hr.
  case_match; [apply kept; [eauto with quiet|by eapply Inv_same|by apply regrouped]|].
  skip_step. eapply join_rule; [eassumption|exact Hr|]. intros Hm.
  unfold Catalogue_SetGroup. eapply update_rule; [eassumption|]. intros r' Hr2 Hg.
  rewrite Hr in Hr2. injection Hr2 as <-. destruct (row_ok _ _ _ _ HI ltac:(eassumption) Hr) as [Hr' [K1 K2 K3 K4]].
  match goal with E : same s0 ?x, Hx : keys ?x !! id = Some r |- _ =>
    assert (Inv newid x) as HIx by (by eapply Inv_same); pose proof (members_ok_same _ _ _ _ _ E Hm) as Hm';
    pose proof (regrouped _ _ E) as Hgr; pose proof E as (_ & _ & _ & E4 & _); set (s2 := x) in * end.
  apply kept; [eauto 12 with quiet| |].
  - eapply row_kept; [exact HIx|done|done|]. split; [done| |done|done]. simpl.
    destruct (group_ok _ _) eqn:E; [|done]. unfold group_ok in E. apply orb_true_iff in E. rewrite !bool_decide_eq_true in E. done.
  - intros G0. rewrite <-(key_rules_same s0 s2) in Hm' by done. pose proof K4 as (S1 & S2 & _)%CheckPresence_ok.
    eapply (grouped_write newid s2 _ id (set_group g r) (key_rules s2 id r)); [apply HIx|apply touched_alter| |done|done| |exact Hm'|by apply Hgr].
    + simpl. by rewrite lookup_alter_eq, Hr'.
    + done.
Qed.

(** The names of the other keys differ. *)
Lemma other_names s id r i q : Inv newid s → keys s !! id = Some r → i ≠ id → keys s !! i = Some q → kr_name q ≠ kr_name r.
Proof.
  intros HI Hr Hi Hq E. apply Hi. apply (ok_key_names _ (iv_ok _ _ HI) i id (kr_name r)); rewrite lookup_fmap, ?Hq, ?Hr; simpl; congruence.
Qed.

(** A row written with rules that were checked. *)
Lemma stored_grouped s s' id r p :
  catalogue_ok s → touched newid id s s' → keys s' !! id = Some r → shaped (Required p) → shaped (Forbidden p) → stores s' id p →
  kr_required r = Mode (Required p) → kr_forbidden r = Mode (Forbidden p) → members_ok s (kr_group r) id p → grouped s → grouped s'.
Proof.
  intros Hok T Hr S1 S2 St E1 E2. destruct (stores_rules s' id r p S1 S2 St E1 E2) as [R1 R2].
  eapply (grouped_write newid s s' id r p); [done|done|done|done|done|]. intros e.
  by rewrite (same_rule_covers _ _ e R1), (same_rule_covers _ _ e R2).
Qed.

Lemma Keys_UpdateDeclaration_keeps rq id d p : keeps newid (Keys_UpdateDeclaration rq id d p).
Proof.
  start s HI. unfold Keys_UpdateDeclaration. do 4 skip_step. eapply get_row; [eassumption|]. intros r Hr.
  do 2 skip_step. apply classified_rule. intros n Hn Hp. eapply canonical_rule; [exact Hn|]. intros t Ht Hpt.
  apply read_rule, read_rule, index_rule. intros i Hi. apply index_rule. intros [] Hv.
  match goal with E : same s0 ?x |- _ => match type of Hi with context [ListKeys x] =>
    assert (members_ok s0 (kr_group r) id p) as Hm by
      (eapply (members_ok_same x); [destruct E as (?&?&?&?&?); split_and!; congruence|by eapply static_members_ok]) end end.
  case_match; [apply kept; [eauto with quiet|by eapply Inv_same|by apply regrouped]|].
  do 2 skip_step. unfold Catalogue_UpdateDeclaration. eapply update_rule; [eassumption|]. intros r' Hr' _.
  rewrite Hr in Hr'. injection Hr' as <-. destruct (row_ok _ _ _ _ HI ltac:(eassumption) Hr) as [Hr' [K1 K2 _ _]].
  match goal with E : same s0 ?x, Hx : keys ?x !! id = Some r |- _ => assert (Inv newid x) as HIx by (by eapply Inv_same);
    pose proof (members_ok_same _ _ _ _ _ E Hm) as Hm'; pose proof (regrouped _ _ E) as Hgr end.
  apply CheckPresence_ok in Hp as (S1 & S2 & Hd). apply wp_bind.
  eapply wp_mono; [eapply (replacePresence_any newid newid_inj id p); [done|done|simpl; rewrite lookup_alter_eq, Hr'; by eexists]| |done].
  intros ? s2 (T2 & E2 & St2).
  pose proof (touched_trans newid _ _ _ _ (touched_alter newid id _ _) T2) as T. simpl in E2.
  apply kept; [eauto 12 with quiet| |intros G0; eapply (stored_grouped _ s2 id); [apply HIx|exact T|by rewrite E2, lookup_alter_eq, Hr'|done|done|exact St2|done|done|exact Hm'|by apply Hgr]].
  eapply (Inv_keys newid _ s2); [|apply T, HIx|apply T|apply T|rewrite E2, size_alter; done| |exact HIx].
  2:{ unfold key_names. rewrite E2. eapply (names_altered _ id); [apply HIx|exact Hr'|].
      apply (wn_keys _ (iv_named _ _ HIx) id). unfold key_names. by rewrite lookup_fmap, Hr'. }
  eapply key_written; [apply HIx|exact T|by rewrite E2, lookup_alter_eq, Hr'| | |].
  - apply (ok_key_ids _ (iv_ok _ _ HIx)). by eexists.
  - simpl. intros j q Hj Hq. by eapply other_names.
  - eapply (written_ok newid); [exact T|exact St2|done|done|by apply CheckPresence_ok|done|done|exact Hpt|done|done].
Qed.

(** A key and its rules are gone. *)
Lemma key_dropped s s' id :
  Inv newid s → same (set_presence s (filter (λ r, pr_key r ≠ id) (presence s))) s' →
  Inv newid (set_keys s' (delete id (keys s'))).
Proof.
  intros HI (E1 & E2 & E3 & E4 & E5). simpl in *. pose proof (iv_ok _ _ HI) as [O1 O2 O3 O4 O5 O6 O7 O8].
  assert (∀ i r, delete id (keys s') !! i = Some r → i ≠ id ∧ keys s !! i = Some r) as Hk.
  { intros i r. rewrite E3, lookup_delete_Some. naive_solver. }
  eapply (Inv_keys newid s); simpl; [|apply (fresh_mono newid s); [|by rewrite <-E5|apply HI]|done|done| | |done].
  - split; simpl; rewrite ?E1, ?E2; try assumption.
    + intros i j n. rewrite !lookup_fmap, !fmap_Some. intros (q & [_ Hq]%Hk & ->) (q' & [_ Hq']%Hk & Hn).
      apply (O3 i j (kr_name q)); rewrite lookup_fmap, ?Hq, ?Hq'; simpl; congruence.
    + intros i [q [_ Hq]%Hk]. apply O6. by eexists.
    + intros i r [Hi Hr]%Hk. eapply key_ok_local; [| |by apply O7]; simpl; [by rewrite E2|]. intros e ru.
      rewrite E4, elem_of_filter. simpl. tauto.
    + intros row. rewrite E4, elem_of_filter. intros [Hne Hin]. destruct (O8 row Hin) as [Hx ?]. split; [|done].
      by rewrite E3, lookup_delete_ne.
  - unfold in_use. simpl. rewrite E1, E2, E3, dom_delete_L. set_solver.
  - rewrite E3. apply map_size_delete_le || (rewrite <-!size_dom, dom_delete_L; apply subseteq_size; set_solver).
  - intros i n. unfold key_names. simpl. rewrite lookup_fmap, fmap_Some. intros (q & [_ Hq]%Hk & ->).
    apply (wn_keys _ (iv_named _ _ HI) i). unfold key_names. by rewrite lookup_fmap, Hq.
Qed.

Lemma key_dropped_grouped s s' id :
  same (set_presence s (filter (λ r, pr_key r ≠ id) (presence s))) s' → grouped s → grouped (set_keys s' (delete id (keys s'))).
Proof.
  intros (_ & _ & E3 & E4 & _). simpl in *. apply grouped_rows. simpl. intros j r'. rewrite E3, lookup_delete_Some. intros [Hne Hr].
  exists r'. split; [done|]. split; [by right|]. destruct (key_rules_local s (set_keys s' (delete id (keys s'))) j r') as [R1 R2].
  - intros e ru. simpl. rewrite E4, elem_of_filter. simpl. naive_solver.
  - intros e. by rewrite (same_rule_covers _ _ e R1), (same_rule_covers _ _ e R2).
Qed.

Lemma Keys_Delete_keeps rq id : keeps newid (Keys_Delete rq id).
Proof.
  start s HI. unfold Keys_Delete. do 6 skip_step. case_match; [done|]. skip_step.
  match goal with |- wp _ ?x _ _ => assert (Inv newid x) as HIx by (by eapply Inv_same) end.
  apply wp_bind, wp_bind, wp_modify. simpl.
  match goal with |- wp _ ?x _ _ => set (s1 := x); pose proof (same_refl s1) as Hs1 end.
  apply wp_ret. do 3 (eapply skip; [eauto 12 with quiet|exact Hs1|]; clear Hs1; cbv beta; intros ? ? Hs1).
  apply stmt_rule. intros _. apply kept; [eauto 12 with quiet|eapply key_dropped; [exact HIx|exact Hs1]|].
  intros Hg. eapply key_dropped_grouped; [exact Hs1|]. by eapply regrouped.
Qed.

(** The checks of a new key's own attributes. *)
Lemma spec_rule {Y} spec (f : unit → Op Y) s Q :
  (key_name (ns_name spec) → ends (f tt) s Q) → ends (bind (checkKeySpec spec) f) s Q.
Proof.
  intros Hf. apply wp_bind. unfold checkKeySpec. apply check_rule. intros Hn%checkKeyName_ok. apply guard_rule. intros _.
  do 2 (apply check_rule; intros _). destruct (CheckDescription (ns_note spec)) as [[]|]; [by apply Hf|done].
Qed.

(** One key row more. *)
Lemma minting_unused id s : minting newid id s → envs s !! id = None ∧ groups s !! id = None ∧ keys s !! id = None.
Proof. intros (_ & Hu & _). rewrite <-!not_elem_of_dom. unfold in_use in Hu. set_solver. Qed.

Lemma touched_insert id r s : minting newid id s → touched newid id s (set_keys s (<[id := r]> (keys s))).
Proof.
  intros (_ & _ & Hf). split; simpl; [done|done| | |intros i Hi; by rewrite lookup_insert_ne|done].
  - intros _. apply Hf; [done|]. unfold in_use. simpl. rewrite dom_insert_L. set_solver.
  - intros Hcl row Hrow. destruct (Hcl row Hrow). split; [|done]. simpl. by apply lookup_insert_is_Some'; right.
Qed.

Lemma key_added_ok s s' id r :
  Inv newid s → minting newid id s → touched newid id s s' → keys s' = <[id := r]> (keys s) →
  (∀ i q, i ≠ id → keys s !! i = Some q → kr_name q ≠ kr_name r) → key_ok s' id r → key_name (kr_name r) →
  (Z.of_nat (size (keys s)) + 1 ≤ Z.min key_cap MaxKeysPerProjectCeiling)%Z →
  ((Z.of_nat (size (keys s)) + 1) * Z.of_nat (size (envs s)) ≤ MaxResolvedCells)%Z →
  Inv newid s'.
Proof.
  intros HI Hm T E Hfree Hko Hn L1 L2. pose proof (minting_unused _ _ Hm) as (_ & _ & Hno).
  assert (size (keys s') = S (size (keys s))) as Hsz by (rewrite E; by apply map_size_insert_None).
  destruct HI as [I1 I2 [N1 N2 N3] [M1 M2 M3 M4]]. split.
  - eapply key_written; [exact I1|exact T|by rewrite E, lookup_insert_eq|by apply Hm|done|done].
  - by apply T.
  - split; unfold env_names, key_names in *; rewrite ?(to_envs _ _ _ _ T), ?(to_groups _ _ _ _ T), ?E; [assumption..|].
    intros i n. rewrite fmap_insert, lookup_insert_Some. intros [[_ <-]|[_ Hi]]; [done|by eapply N3].
  - split; rewrite ?(to_envs _ _ _ _ T), ?(to_groups _ _ _ _ T), ?Hsz; try assumption; lia.
Qed.

Lemma Keys_Create_keeps rq spec : within key_cap rq → keeps newid (Keys_Create newid rq spec).
Proof.
  intros Hw. start s HI. unfold Keys_Create. apply spec_rule. intros Hname.
  apply classified_rule. intros n Hn Hp. eapply canonical_rule; [exact Hn|]. intros t Ht Hpt.
  apply newID_rule; [done|by eapply Inv_same|]. intros id t0 s1 HI0 Hm Hgt Hs1.
  assert (grouped s0 → grouped t0) as Hgr by (intros Hg; eapply Hgt, regrouped; eassumption). clear HI Hs Hgt.
  do 5 skip_step. apply read_rule.
  match goal with E : same t0 ?x |- context [size (keys ?x)] => pose proof E as (_ & _ & -> & _) end.
  apply keyLimit_rule; [exact Hw|]. intros l Hl. apply limit_rule. intros L1. apply read_rule.
  match goal with E : same t0 ?x |- context [size (envs ?x)] => pose proof E as (-> & _) end.
  apply limit_rule. intros L2. skip_step.
  apply conceal_rule. eapply members_rule; [eassumption|]. intros Hmem. skip_step. apply conceal_rule. unfold Catalogue_Create. apply stmt_rule. intros Hc.
  match goal with E : same t0 ?x |- context [set_keys ?x] =>
    assert (Inv newid x) as HIx by (by eapply Inv_same); assert (minting newid id x) as Hmx by (by eapply minting_same);
    assert (grouped t0 → grouped x) as Hgx by (by apply regrouped);
    pose proof (members_ok_same _ _ _ _ _ E Hmem) as Hmx';
    destruct E as (E1 & _ & E3 & _); set (s2 := x) in * end.
  destruct (negb (_ && _)) eqn:C1; [done|]. destruct (negb (group_ok _ _)) eqn:C2; [done|].
  apply negb_false_iff in C1, C2. apply andb_true_iff in C1 as [[C1 _]%andb_true_iff _].
  apply CheckPresence_ok in Hp as (S1 & S2 & Hd). apply wp_bind.
  eapply wp_mono; [eapply (replacePresence_any newid newid_inj id (ns_presence spec)); [done|done|simpl; rewrite lookup_insert_eq; by eexists]| |done].
  intros ? s3 (T3 & K3 & St3).
  pose proof (touched_trans newid _ _ _ _ (touched_insert _ _ _ Hmx) T3) as T. simpl in K3.
  apply kept; [eauto 12 with quiet| |intros G0; eapply (stored_grouped s2 s3 id); [apply HIx|exact T|by rewrite K3, lookup_insert_eq|done|done|exact St3|done|done|exact Hmx'|by apply Hgx, Hgr]].
  eapply (key_added_ok s2); [done|done|exact T|exact K3| | |exact Hname| |].
  - apply insert_free in Hc as [_ Hfree]. simpl in *. intros i q Hi Hq E. apply (Hfree i Hi). by rewrite lookup_fmap, Hq, <-E.
  - eapply (written_ok newid); [exact T|exact St3|done|done|by apply CheckPresence_ok|done| |exact Hpt|done|done].
    unfold group_ok in C2. apply orb_true_iff in C2. by rewrite !bool_decide_eq_true in C2.
  - rewrite E3. pose proof (lm_keys _ _ (iv_limits _ _ HI0)). destruct (keyGrowth_ok _ _ _ _ L1); lia.
  - rewrite E1, E3. apply cells_le; [done|lia].
Qed.
End methods.
