(* ===== verification/KeyServicesGroups.v ===== *)
(** * The group and environment methods keep the invariant *)

From stdpp Require Import prelude gmap strings pretty list.
From S2P Require Import Prelude StateErr Presence Definitions DefinitionsMatch Catalogue DefinitionsApply.
From S2P Require Import DefinitionsState DefinitionsRealize DefinitionsExec DefinitionsKeys DefinitionsTopology.
From S2P Require Import DefinitionsConverge DefinitionsParse DefinitionsExport EnvironmentDelete.
From S2P Require Import EntityNames GroupIndex KeyServices KeyServicesFacts KeyServicesMethods.

Section groups.
Context `{SchemaLang, !SchemaLaws} {A : Type} `{AccessAdmin A, !Surroundings A} `{KeyCap}.
Context (newid : string → nat → option string).
Context (newid_inj : ∀ p p' n n' id, newid p n = Some id → newid p' n' = Some id → n = n').
Implicit Types s : Project A.
Local Abbreviation Op := (M (Project A) DefError).

(** ** Another table of groups, of environments *)

Lemma groups_changed s t :
  Inv newid s → names_inj t → (∀ id, is_Some (t !! id) → id_ok id) →
  (∀ id, is_Some (groups s !! id) → is_Some (t !! id)) → fresh newid (set_groups s t) →
  (∀ id n, t !! id = Some n → group_name n) → (Z.of_nat (size t) ≤ MaxKeyGroupsPerProject)%Z → Inv newid (set_groups s t).
Proof.
  intros [[O1 O2 O3 O4 O5 O6 O7 O8] _ [N1 _ N3] [M1 M2 M3 M4]] Hi Hid Hin Hf Hn Hsz. split; [|done|by split|by split].
  split; try assumption. intros id r Hr. apply (key_ok_local s); [exact Hin|done|by apply O7].
Qed.

Lemma envs_changed s t :
  Inv newid s → names_inj (er_name <$> t) → (∀ id, is_Some (t !! id) → id_ok id) →
  (∀ id, is_Some (envs s !! id) → is_Some (t !! id)) → fresh newid (set_envs s t) →
  (∀ id n, (er_name <$> t) !! id = Some n → env_name n) → (Z.of_nat (size t) ≤ MaxEnvironmentsPerProject)%Z →
  (Z.of_nat (size (keys s)) * Z.of_nat (size t) ≤ MaxResolvedCells)%Z → Inv newid (set_envs s t).
Proof.
  intros [[O1 O2 O3 O4 O5 O6 O7 O8] _ [_ N2 N3] [M1 M2 M3 M4]] Hi Hid Hin Hf Hn Hs Hc. split; [|done|by split|by split].
  split; try assumption.
  - intros id r Hr. apply (key_ok_local s); [done|done|by apply O7].
  - intros row Hrow. destruct (O8 row Hrow). simpl. auto.
Qed.

Lemma named_insert (P : string → Prop) (m : gmap string string) id x :
  (∀ i n, m !! i = Some n → P n) → P x → ∀ i n, <[id := x]> m !! i = Some n → P n.
Proof. intros Hm Hx i n [[_ <-]|[_ Hn]]%lookup_insert_Some; [done|by eapply Hm]. Qed.

(** ** Key groups *)

Lemma KeyGroups_Create_keeps rq name : keeps newid (KeyGroups_Create newid rq name).
Proof.
  start s HI. unfold KeyGroups_Create. apply check_rule. intros Hn%CheckGroupName_ok.
  apply newID_rule; [done|by eapply Inv_same|]. intros id t0 s1 HI0 Hm Hgt Hs1.
  assert (grouped s0 → grouped t0) as Hgr by (intros Hg; eapply Hgt, regrouped; eassumption). clear HI Hs Hgt.
  do 2 skip_step. apply read_rule.
  match goal with E : same t0 ?x |- context [size (groups ?x)] => pose proof E as (_ & -> & _) end.
  destruct (_ <=? _)%Z eqn:El; [done|]. apply Z.leb_gt in El. skip_step. unfold Catalogue_CreateGroup. apply stmt_rule. intros Hc.
  match goal with E : same t0 ?x |- context [set_groups ?x] =>
    assert (Inv newid x) as HIx by (by eapply Inv_same); assert (minting newid id x) as Hmx by (by eapply minting_same);
    pose proof (regrouped _ _ E) as Hgx;
    destruct E as (_ & E2 & _); set (s2 := x) in * end.
  apply insert_free in Hc as [Hno Hfree]. rewrite fmap_id_map in Hfree.
  apply kept; [eauto 12 with quiet| |intros Hg; apply (grouped_same s2); auto]. apply groups_changed; [done| | | | | |].
  - apply names_inj_insert; [apply HIx|done].
  - intros i [<-|[_ Hi]]%lookup_insert_is_Some; [apply Hmx|by apply (ok_group_ids _ (iv_ok _ _ HIx))].
  - intros i Hi. apply lookup_insert_is_Some'. by right.
  - apply Hmx; [done|]. unfold in_use. simpl. rewrite dom_insert_L. set_solver.
  - apply named_insert; [apply HIx|done].
  - rewrite map_size_insert_None by done. rewrite E2. lia.
Qed.

Lemma KeyGroups_Rename_keeps rq id name : keeps newid (KeyGroups_Rename rq id name).
Proof.
  start s HI. unfold KeyGroups_Rename. apply check_rule. intros Hn%CheckGroupName_ok. do 4 skip_step.
  unfold Catalogue_RenameGroup. apply stmt_rule. intros Hc.
  match goal with E : same s0 ?x |- context [set_groups ?x] => assert (Inv newid x) as HIx by (by eapply Inv_same);
    pose proof (regrouped _ _ E) as Hgx; set (s2 := x) in * end.
  apply rename_free in Hc as [Hin Hfree]. rewrite fmap_id_map in Hfree.
  apply kept; [eauto 12 with quiet| |intros Hg; apply (grouped_same s2); auto]. apply groups_changed; [done| | | | | |].
  - apply names_inj_insert; [apply HIx|done].
  - intros i [<-|[_ Hi]]%lookup_insert_is_Some; by apply (ok_group_ids _ (iv_ok _ _ HIx)).
  - intros i Hi. apply lookup_insert_is_Some'. by right.
  - apply (fresh_mono newid s2); [|done|apply HIx]. unfold in_use. simpl. rewrite dom_insert_L.
    apply elem_of_dom in Hin. set_solver.
  - apply named_insert; [apply HIx|done].
  - rewrite map_size_insert_Some by done. apply HIx.
Qed.

(** A group is gone, and no key is its member. *)
Lemma group_dropped s g f :
  Inv newid s → (∀ r, f r = if bool_decide (kr_group r = g ∧ g ≠ "") then set_group "" r else r) →
  Inv newid (set_groups (set_keys s (f <$> keys s)) (delete g (groups s))).
Proof.
  intros [[O1 O2 O3 O4 O5 O6 O7 O8] I2 [N1 N2 N3] [M1 M2 M3 M4]] Hf.
  assert (kr_name <$> (f <$> keys s) = kr_name <$> keys s) as En.
  { rewrite <-map_fmap_compose. apply map_fmap_ext. intros i r _. simpl. rewrite Hf. by case_bool_decide. }
  assert (size (delete g (groups s)) ≤ size (groups s)) as Hsz.
  { rewrite <-!size_dom, dom_delete_L. apply subseteq_size. set_solver. }
  split.
  - split; simpl; try assumption.
    + intros i j n. rewrite !lookup_delete_Some. intros [_ ?] [_ ?]. by eapply O2.
    + by rewrite En.
    + intros i [n [_ Hn]%lookup_delete_Some]. apply O5. by eexists.
    + intros i. rewrite lookup_fmap, fmap_is_Some. apply O6.
    + intros i r. rewrite lookup_fmap, fmap_Some. intros (q & Hq & ->). destruct (O7 i q Hq) as [K1 K2 K3 K4].
      rewrite Hf. case_bool_decide as Hg; [by split; [|left|..]|]. split; [done| |done|done].
      destruct K2 as [?|K2]; [by left|]. destruct (decide (kr_group q = "")) as [?|Hne]; [by left|right].
      simpl. rewrite lookup_delete_ne; [done|]. intros ->. tauto.
    + intros row Hrow. destruct (O8 row Hrow). by rewrite lookup_fmap, fmap_is_Some.
  - apply (fresh_mono newid s); [|done|done]. unfold in_use. simpl. rewrite dom_delete_L, dom_fmap_L. set_solver.
  - split; simpl; [done| |unfold key_names; simpl; by rewrite En]. intros i n [_ Hn]%lookup_delete_Some. by eapply N2.
  - split; simpl; rewrite ?map_size_fmap; try assumption. lia.
Qed.

Lemma KeyGroups_Delete_keeps rq id : keeps newid (KeyGroups_Delete rq id).
Proof.
  start s HI. unfold KeyGroups_Delete. do 5 skip_step.
  match goal with |- wp _ ?x _ _ => assert (Inv newid x) as HIx by (by eapply Inv_same) end.
  apply wp_bind, wp_modify, stmt_rule. intros _. apply kept; [eauto 12 with quiet|by apply (group_dropped _ id _ HIx)|].
  intros Hg. match goal with E : same s0 ?x |- grouped (set_groups (set_keys ?x _) _) => apply (grouped_rows x); [|by apply (regrouped s0)] end.
  simpl. intros i r'. rewrite lookup_fmap, fmap_Some. intros (r & Hr & ->). exists r. split; [done|].
  case_bool_decide; (split; [by (left; done) || by right|done]).
Qed.

(** ** Environments *)

Lemma Environments_create_keeps rq name source : keeps newid (Environments_create newid rq name source).
Proof.
  start s HI. unfold Environments_create. apply check_rule. intros Hn%checkName_ok.
  apply newID_rule; [done|by eapply Inv_same|]. intros id t0 s1 HI0 Hm Hgt Hs1.
  assert (grouped s0 → grouped t0) as Hgr by (intros Hg; eapply Hgt, regrouped; eassumption). clear HI Hs Hgt.
  do 5 skip_step. apply read_rule.
  match goal with E : same t0 ?x |- context [size (envs ?x)] => pose proof E as (-> & _) end.
  destruct (_ <=? _)%Z eqn:El; [done|]. apply Z.leb_gt in El. apply read_rule.
  match goal with E : same t0 ?x |- context [size (keys ?x)] => pose proof E as (_ & _ & -> & _) end.
  apply limit_rule. intros L2. do 2 skip_step. unfold Environments_Create. apply stmt_rule. intros Hc.
  match goal with E : same t0 ?x |- context [set_envs ?x] =>
    assert (Inv newid x) as HIx by (by eapply Inv_same); assert (minting newid id x) as Hmx by (by eapply minting_same);
    pose proof (regrouped _ _ E) as Hgx;
    destruct E as (E1 & _ & E3 & _); set (s2 := x) in * end.
  apply insert_free in Hc as [Hno Hfree].
  apply kept; [eauto 12 with quiet| |intros Hg; apply (grouped_same s2); auto]. apply envs_changed; [done| | | | | | |].
  - rewrite fmap_insert. apply names_inj_insert; [apply HIx|done].
  - intros i [<-|[_ Hi]]%lookup_insert_is_Some; [apply Hmx|by apply (ok_env_ids _ (iv_ok _ _ HIx))].
  - intros i Hi. apply lookup_insert_is_Some'. by right.
  - apply Hmx; [done|]. unfold in_use. simpl. rewrite dom_insert_L. set_solver.
  - rewrite fmap_insert. apply named_insert; [apply HIx|done].
  - rewrite map_size_insert_None by done. rewrite E1. lia.
  - rewrite map_size_insert_None by done. rewrite E1, E3. apply cells_le in L2; lia.
Qed.

(** One environment row, under the same identifier. *)
Lemma env_altered s id f r :
  Inv newid s → envs s !! id = Some r → env_name (er_name (f r)) → (∀ i, i ≠ id → env_names s !! i ≠ Some (er_name (f r))) →
  Inv newid (set_envs s (alter f id (envs s))).
Proof.
  intros HI Hr Hn Hfree.
  assert (er_name <$> alter f id (envs s) = <[id := er_name (f r)]> (env_names s)) as En.
  { apply map_eq. intros i. unfold env_names. rewrite lookup_fmap. destruct (decide (i = id)) as [->|Hi].
    - by rewrite lookup_alter_eq, lookup_insert_eq, Hr.
    - by rewrite lookup_alter_ne, lookup_insert_ne, lookup_fmap. }
  apply envs_changed; rewrite ?En, ?size_alter; [done| | | | | |apply HI..].
  - apply names_inj_insert; [apply HI|done].
  - intros i. rewrite lookup_alter_is_Some. apply (ok_env_ids _ (iv_ok _ _ HI)).
  - intros i. by rewrite lookup_alter_is_Some.
  - apply (fresh_mono newid s); [|done|apply HI]. unfold in_use. simpl. by rewrite dom_alter_L.
  - apply named_insert; [apply HI|done].
Qed.

Lemma Environments_Rename_keeps rq env name : keeps newid (Environments_Rename_tx rq env name).
Proof.
  start s HI. unfold Environments_Rename_tx. apply check_rule. intros Hn%checkName_ok. do 4 skip_step.
  unfold Environments_Rename. apply stmt_rule. intros Hc. apply rename_free in Hc as [[r Hr] Hfree].
  apply kept; [eauto 12 with quiet|eapply env_altered; [by eapply Inv_same|exact Hr|done|done]|].
  intros Hg. match goal with E : same s0 ?x |- grouped (set_envs ?x _) => apply (grouped_same x); [done|done|by apply (regrouped s0)] end.
Qed.

Lemma reorder_keeps known l : ∀ seen i, keeps newid (reorder known seen i l : Op unit).
Proof.
  induction l as [|id l IH]; intros seen i s HI; simpl; [by apply wp_ret; split|]. case_match; [done|].
  unfold Environments_SetOrder. apply stmt_rule. intros Hc. destruct (envs s !! id) as [r|] eqn:Hr; [|done].
  eapply wp_mono; [apply IH; eapply env_altered; [done|exact Hr| |]; simpl| |done].
  - apply (wn_envs _ (iv_named _ _ HI) id). unfold env_names. by rewrite lookup_fmap, Hr.
  - intros j Hj E. apply Hj. apply (ok_env_names _ (iv_ok _ _ HI) j id (er_name r)); [done|]. by rewrite lookup_fmap, Hr.
  - intros ? s' [? Hg]. split; [done|]. intros Hg0. by apply Hg, (grouped_same s).
Qed.

Lemma Environments_Reorder_keeps rq ordered : keeps newid (Environments_Reorder rq ordered).
Proof.
  start s HI. unfold Environments_Reorder. do 3 skip_step. case_match; [done|]. apply wp_bind.
  match goal with E : same s0 ?x |- _ => pose proof (regrouped _ _ E) as Hgx end.
  eapply wp_mono; [apply reorder_keeps; by eapply Inv_same| |done]. intros ? s1 [HI' Hg']. apply kept; [eauto with quiet|done|auto].
Qed.

Lemma env_removed_keeps env s s' : Inv newid s → env_removed env s s' → Inv newid s'.
Proof.
  intros HI Hr. pose proof HI as [I1 I2 [N1 N2 N3] [M1 M2 M3 M4]].
  assert (size (keys s') = size (keys s)) as Ek.
  { rewrite <-!size_dom. f_equal. apply set_eq. intros id. by rewrite !elem_of_dom, (er_keys _ _ _ Hr), fmap_is_Some. }
  assert (size (envs s') ≤ size (envs s)) as Ee.
  { rewrite (er_envs _ _ _ Hr), <-!size_dom, dom_delete_L. apply subseteq_size. set_solver. }
  split; [by eapply removed_ok| | |].
  - apply (fresh_mono newid s); [|by rewrite (er_minted _ _ _ Hr)|done]. unfold in_use.
    assert (dom (keys s') = dom (keys s)) as ->.
    { apply set_eq. intros id. by rewrite !elem_of_dom, (er_keys _ _ _ Hr), fmap_is_Some. }
    rewrite (er_envs _ _ _ Hr), (er_groups _ _ _ Hr), dom_delete_L. set_solver.
  - split; unfold env_names, key_names in *; [|by rewrite (er_groups _ _ _ Hr)|]; intros id n.
    + rewrite (er_envs _ _ _ Hr), fmap_delete, lookup_delete_Some. intros [_ Hn]. by eapply N1.
    + rewrite lookup_fmap, (er_keys _ _ _ Hr), <-option_fmap_compose, fmap_Some. intros (q & Hq & ->).
      apply (N3 id). by rewrite lookup_fmap, Hq.
  - split; rewrite ?(er_groups _ _ _ Hr), ?Ek; [lia|done|done|nia].
Qed.

Lemma env_removed_grouped env s s' : catalogue_ok s → env_removed env s s' → grouped s → grouped s'.
Proof.
  intros Hok Hr. apply grouped_rows. intros i r'. rewrite (er_keys _ _ _ Hr), fmap_Some. intros (r & Hi & ->).
  exists r. split; [done|]. split; [by right|]. intros e.
  pose proof (ko_presence _ _ _ (ok_keys _ Hok i r Hi)) as (S1 & S2 & _)%CheckPresence_ok.
  destruct (left_rule s s' env i _ _ (er_presence _ _ _ Hr) S1) as [_ V1], (left_rule s s' env i _ _ (er_presence _ _ _ Hr) S2) as [_ V2].
  split; [apply V1|apply V2].
Qed.

Lemma Environments_Delete_keeps source admitted env : keeps newid (Environments_Delete_tx source admitted env).
Proof.
  intros s HI. destruct (envs s !! env) as [r|] eqn:He.
  - eapply wp_mono; [apply (delete_ok s); [apply HI|by eexists]| |done]. intros ? s' Hr.
    split; [exact (env_removed_keeps env s s' HI Hr)|]. exact (env_removed_grouped env s s' (iv_ok _ _ HI) Hr).
  - unfold Environments_Delete_tx. pose proof (same_refl s) as Hs. do 2 skip_step. apply wp_bind.
    match goal with E : same s ?x |- wp _ ?x _ _ => destruct E as (E1 & _) end.
    unfold wp at 1, Environments_Get. by rewrite E1, He.
Qed.
End groups.
