(* ===== verification/KeyServicesApply.v ===== *)
(** * Applying a plan keeps the invariant

    [validateFinalDefinitions] computes the names every kind will end under
    before anything is written. They are shown to be the names the executor
    leaves, so the limits and the names it admits hold of the project. *)

From stdpp Require Import prelude gmap strings pretty list.
From S2P Require Import Prelude StateErr Presence Definitions DefinitionsMatch Catalogue DefinitionsApply.
From S2P Require Import DefinitionsState DefinitionsRealize DefinitionsExec DefinitionsKeys DefinitionsTopology.
From S2P Require Import DefinitionsConverge DefinitionsParse DefinitionsExport EnvironmentDelete.
From S2P Require Import EntityNames GroupIndex KeyServices KeyServicesFacts.

(** ** The map of final names *)

Lemma renamed_out (l : list (string * string)) k : ∀ m : gmap string string,
  k ∉ l.*1 → foldl (λ m r, <[r.1 := r.2]> m) m l !! k = m !! k.
Proof.
  induction l as [|[i x] l IH]; intros m; [done|]. simpl. rewrite not_elem_of_cons. intros [Hi Hl].
  rewrite IH by done. by rewrite lookup_insert_ne.
Qed.

Lemma renamed_in (l : list (string * string)) k n : ∀ m : gmap string string,
  NoDup l.*1 → (k, n) ∈ l → foldl (λ m r, <[r.1 := r.2]> m) m l !! k = Some n.
Proof.
  induction l as [|[i x] l IH]; intros m; [by intros _ ?%elem_of_nil|]. simpl.
  rewrite NoDup_cons. intros [Hi Hnd] [[= -> ->]|Hin]%elem_of_cons; [|by apply IH].
  rewrite renamed_out by done. by rewrite lookup_insert_eq.
Qed.

Lemma deleted_out (l : list Ref) k : ∀ m : gmap string string,
  k ∉ ids_of l → foldl (λ m d, delete (ent_id d) m) m l !! k = m !! k.
Proof.
  induction l as [|d l IH]; intros m; [done|]. unfold ids_of in *. simpl. rewrite not_elem_of_cons. intros [Hi Hl].
  rewrite IH by done. by rewrite lookup_delete_ne.
Qed.

Lemma created_out (l : list string) k : ∀ m : gmap string string,
  (∀ n, k ≠ "new:" +:+ n) → foldl (λ m n, <["new:" +:+ n := n]> m) m l !! k = m !! k.
Proof.
  induction l as [|x l IH]; intros m Hk; [done|]. simpl. rewrite IH by done. rewrite lookup_insert_ne; [done|].
  intros E. by apply (Hk x).
Qed.

Lemma created_in (l : list string) n : ∀ m : gmap string string,
  n ∈ l ∨ m !! ("new:" +:+ n) = Some n →
  foldl (λ m n, <["new:" +:+ n := n]> m) m l !! ("new:" +:+ n) = Some n.
Proof.
  induction l as [|x l IH]; intros m; simpl; [by intros [?%elem_of_nil|?]|]. intros Hn. apply IH.
  destruct (decide (n = x)) as [->|Hne]; [right; by rewrite lookup_insert_eq|].
  rewrite elem_of_cons in Hn. destruct Hn as [[?|?]|Hm]; [done|by left|]. right. rewrite lookup_insert_ne; [done|].
  intros E. by apply (inj (String.append "new:")) in E.
Qed.

(** Different tables whose names are all among the values of one map. *)
Lemma names_size (N M : gmap string string) :
  names_inj N → (∀ id n, N !! id = Some n → ∃ k, M !! k = Some n) → size N ≤ size M.
Proof.
  intros Hinj Hin. rewrite <-!length_map_to_list, <-!(length_fmap snd).
  apply submseteq_length, NoDup_submseteq.
  - apply NoDup_fmap_on; [apply NoDup_map_to_list|]. intros [i n] [j n']. rewrite !elem_of_map_to_list. simpl.
    intros Hi Hj <-. f_equal. by eapply Hinj.
  - intros n ([i x] & -> & Hi%elem_of_map_to_list)%list_elem_of_fmap. destruct (Hin _ _ Hi) as [k Hk].
    apply list_elem_of_fmap. exists (k, x). split; [done|]. by apply elem_of_map_to_list.
Qed.

Lemma all_named_ok check M k n : all_named check M = true → M !! k = Some n → check n = Ok tt.
Proof.
  unfold all_named. rewrite forallb_forall. intros Hall Hk.
  specialize (Hall (k, n)). simpl in Hall. destruct (check n) as [[]|]; [done|]. discriminate Hall.
  by apply list_elem_of_In, elem_of_map_to_list.
Qed.

(** ** One kind *)

Section kind.
Context (bundle current : list entity) (additive : bool) (m : kindMatch).
Context (Hwf : wf_entities current) (Hm : matched bundle current additive m).
Context (Hids : ∀ id, id ∈ ent_id <$> current → id_ok id) (Hno : additive = true → no_ids bundle).
Context (deleted : list Ref) (renamed : list (string * string)) (created : list string).
Context (Hdel : ids_of deleted = deletes m).
Context (Hcr : ∀ e, (e, "") ∈ zip bundle (boundDBID m) → ent_name e ∈ created).
Context (Hrn : NoDup renamed.*1) (Hrb : ∀ id, id ∈ renamed.*1 → id ∈ boundDBID m).
Context (Hren : ∀ e id, (e, id) ∈ zip bundle (boundDBID m) → id ≠ "" →
  (id, ent_name e) ∈ renamed ∨ ((id ∉ renamed.*1) ∧ mkEntity id (ent_name e) ∈ current)).

Lemma final_untouched id n :
  mkEntity id n ∈ current → (id ∉ renamed.*1) → (id ∉ deletes m) →
  final_names_of current deleted renamed created !! id = Some n.
Proof.
  intros Hin Hr Hd. unfold final_names_of.
  rewrite created_out, renamed_out, deleted_out; [|by rewrite Hdel|done|].
  - apply index_by_lookup; [apply Hwf|]. by exists (mkEntity id n).
  - apply Hids, list_elem_of_fmap. by exists (mkEntity id n).
Qed.

Lemma final_has n :
  n ∈ ent_name <$> bundle ∨ (additive = true ∧ ∃ id, mkEntity id n ∈ current) →
  ∃ k, final_names_of current deleted renamed created !! k = Some n.
Proof.
  assert (∀ e, e ∈ bundle → ∃ k, final_names_of current deleted renamed created !! k = Some (ent_name e)) as Hb.
  { intros e He. destruct (matched_pairs _ _ _ _ Hm e He) as [id Hp]. pose proof Hp as (i & _ & Hi)%zip_elem.
    destruct (decide (id = "")) as [->|Hid].
    - exists ("new:" +:+ ent_name e). apply created_in. left. by apply Hcr.
    - exists id. pose proof (m_in _ _ _ _ Hm _ _ Hi Hid) as Hc.
      destruct (Hren _ _ Hp Hid) as [Hr|[Hr Hin]].
      + unfold final_names_of. rewrite created_out by (by apply Hids). by apply renamed_in.
      + apply final_untouched; [done|done|]. intros (_ & _ & Hnb)%(m_deletes _ _ _ _ Hm).
        apply Hnb. by eapply list_elem_of_lookup_2. }
  intros [(e & -> & He)%list_elem_of_fmap|[Ha [id Hin]]]; [by apply Hb|].
  destruct (decide (id ∈ boundDBID m)) as [Hbd|Hbd].
  - apply (pair_bound _ _ _ _ _ Hm) in Hbd as [e Hp].
    pose proof Hp as (i & Hi & Hi')%zip_elem. apply list_elem_of_lookup_2 in Hi as He.
    assert (id ≠ "") as Hne.
    { intros ->. destruct Hwf as (_ & _ & Hw). apply Hw, list_elem_of_fmap. by exists (mkEntity "" n). }
    pose proof (m_byname _ _ _ _ Hm _ _ _ Hi Hi' (Hno Ha e He) Hne) as Hin'.
    assert (mkEntity id n = mkEntity id (ent_name e)) as [= ->]; [|by apply Hb].
    eapply (NoDup_fmap_elem ent_id); [apply Hwf|done|done|done].
  - exists id. apply final_untouched; [done|by intros ?%Hrb|]. intros (? & _)%(m_deletes _ _ _ _ Hm). congruence.
Qed.
End kind.

(** Environments and groups: the creates and renames of [topology]. *)
Lemma topology_has bundle current additive m n :
  wf_entities current → matched bundle current additive m → (∀ id, id ∈ ent_id <$> current → id_ok id) →
  (additive = true → no_ids bundle) →
  n ∈ ent_name <$> bundle ∨ (additive = true ∧ ∃ id, mkEntity id n ∈ current) →
  ∃ k, final_names_of current (refsFor current (deletes m))
         ((λ r, (rn_id r, rn_to r)) <$> (topology current bundle (boundDBID m)).2)
         (topology current bundle (boundDBID m)).1 !! k = Some n.
Proof.
  intros Hwf Hm Hids Hno.
  assert (((λ r, (rn_id r, rn_to r)) <$> (topology current bundle (boundDBID m)).2).*1
    = rn_id <$> (topology current bundle (boundDBID m)).2) as E1 by (by rewrite <-list_fmap_compose).
  apply (final_has bundle current additive m); [done|done|done|done| | | | |]; rewrite ?E1.
  - apply ids_of_refsFor.
  - intros e Hp. apply topology_creates. eauto.
  - by eapply topology_renames_nodup.
  - intros id (r & -> & (e & Hp & _)%topology_renames)%list_elem_of_fmap. apply (pair_bound _ _ _ _ _ Hm). eauto.
  - intros e id Hp Hid. destruct (decide (nameFor current id = ent_name e)) as [En|En].
    + right. split.
      * intros (r & -> & (e' & Hp' & _ & Hf & Hne & Ht)%topology_renames)%list_elem_of_fmap.
        rewrite (pair_same_id _ _ _ _ _ _ _ Hm Hp Hp' Hid) in En. congruence.
      * pose proof Hp as (i & _ & Hi)%zip_elem. apply (m_in _ _ _ _ Hm) in Hi; [|done].
        apply list_elem_of_fmap in Hi as ([id' x] & -> & Hin). simpl in *. by rewrite <-En, (nameFor_elem _ _ _ Hwf Hin).
    + left. apply list_elem_of_fmap. exists (mkRename id (nameFor current id) (ent_name e)). split; [done|].
      apply topology_renames. exists e. done.
Qed.

Section applied.
Context `{SchemaLang, !SchemaLaws} {A : Type} `{AccessAdmin A, !Surroundings A} `{KeyCap}.
Context (newid : string → nat → option string).
Context (newid_inj : ∀ p p' n n' id, newid p n = Some id → newid p' n' = Some id → n = n').
Context (b : Bundle) (cur : CurrentState) (res : Resolution) (em gm km : kindMatch) (s : Project A).
Context (Hok : catalogue_ok s) (Hrd : reads s cur) (Hb : canonical b) (Hpn : planned b cur res em gm km).

Lemma env_final s' id n : converged newid b res s s' → env_names s' !! id = Some n →
  ∃ k, final_names_of (s_envs cur) (EnvDeletes res) ((λ r, (rn_id r, rn_to r)) <$> EnvRenames res) (EnvCreates res) !! k = Some n.
Proof.
  intros Hcv Hn. rewrite (pn_ed _ _ _ _ _ _ Hpn), (pn_er _ _ _ _ _ _ Hpn), (pn_ec _ _ _ _ _ _ Hpn).
  apply (topology_has _ _ (Additive b)); [apply Hrd|apply Hpn|by eapply env_ids_ok|intros Ha; by apply (cb_no_ids _ Hb)|].
  destruct (cv_envs _ _ _ _ _ Hcv _ _ Hn) as [?|[Ha Hs]]; [by left|right]. split; [done|]. exists id. by apply (rd_env _ _ Hrd).
Qed.

Lemma group_final s' id n : converged newid b res s s' → groups s' !! id = Some n →
  ∃ k, final_names_of (s_groups cur) (GroupDeletes res) ((λ r, (rn_id r, rn_to r)) <$> GroupRenames res) (GroupCreates res) !! k = Some n.
Proof.
  intros Hcv Hn. rewrite (pn_gd _ _ _ _ _ _ Hpn), (pn_gr _ _ _ _ _ _ Hpn), (pn_gc _ _ _ _ _ _ Hpn).
  apply (topology_has _ _ (Additive b)); [apply Hrd|apply Hpn|by eapply group_ids_ok|intros Ha; by apply (cb_no_ids _ Hb)|].
  destruct (cv_groups _ _ _ _ _ Hcv _ _ Hn) as [?|[Ha Hs]]; [by left|right]. split; [done|]. exists id. by apply (rd_group _ _ Hrd).
Qed.

Lemma key_final s' id r : converged newid b res s s' → keys s' !! id = Some r →
  ∃ k, final_names_of (currentKeyEntities (s_keys cur)) (KeyDeletes res)
         ((λ u, (u_id u, k_name (u_desired u))) <$> KeyUpdates res) (k_name <$> KeyCreates res) !! k = Some (kr_name r).
Proof.
  intros Hcv Hr. rewrite (pn_kd _ _ _ _ _ _ Hpn).
  assert (((λ u, (u_id u, k_name (u_desired u))) <$> KeyUpdates res).*1 = u_id <$> KeyUpdates res) as E1
    by (by rewrite <-list_fmap_compose).
  assert (∀ id n, mkEntity id n ∈ currentKeyEntities (s_keys cur) ↔ (kr_name <$> keys s) !! id = Some n) as Hcur
    by (by eapply current_key_elem).
  apply (final_has (bundleKeyEntities (b_keys b)) _ (Additive b) km); rewrite ?E1.
  - apply Hrd.
  - apply Hpn.
  - intros i ([j n] & -> & Hin)%list_elem_of_fmap. apply Hcur in Hin. rewrite lookup_fmap, fmap_Some in Hin.
    apply (ok_key_ids _ Hok). simpl. naive_solver.
  - intros Ha e (k & -> & Hk)%list_elem_of_fmap. simpl. by apply (cb_no_ids _ Hb).
  - apply ids_of_refsFor.
  - intros e (k & Hz & ->)%key_zip_inv. simpl. rewrite (pn_kc _ _ _ _ _ _ Hpn). apply list_elem_of_fmap. exists k.
    split; [done|]. apply list_elem_of_fmap. exists (k, ""). split; [done|]. by apply list_elem_of_filter.
  - by eapply updates_ids.
  - intros i (u & -> & (k & j & c & x & Hz & Hj & Hf & -> & _)%(updates_elem _ _ _ _ _ _ _ Hpn))%list_elem_of_fmap.
    apply list_find_Some in Hf as (_ & Ec & _). simpl in *. rewrite Ec.
    apply zip_elem in Hz as (y & _ & Hy). by eapply list_elem_of_lookup_2.
  - intros e i (k & Hz & ->)%key_zip_inv Hi. simpl.
    destruct (bound_key b cur res em gm km s Hrd Hpn k i Hz Hi) as (x & r0 & d & Hr0 & Hd & Hf).
    set (u := diffKey (read_key s i r0 d) k (identities (b_envs b) (boundDBID em) ∅) (identities (b_groups b) (boundDBID gm) ∅)).
    destruct (changed u) eqn:Ech.
    + left. apply list_elem_of_fmap. exists u. split; [done|]. apply (updates_elem _ _ _ _ _ _ _ Hpn).
      exists k, i, (read_key s i r0 d), x. done.
    + right. split.
      * intros (u' & E' & (k' & j & c & y & Hz' & Hj & Hf' & -> & Hc)%(updates_elem _ _ _ _ _ _ _ Hpn))%list_elem_of_fmap.
        pose proof (proj1 (list_find_Some _ _ _ _) Hf') as (_ & Ec & _). simpl in E'. rewrite Ec in E'. subst j.
        rewrite Hf in Hf'. injection Hf' as <- <-.
        apply zip_elem in Hz as (p & Hp & Hp'), Hz' as (q & Hq & Hq').
        rewrite (m_inj _ _ _ _ (pn_key _ _ _ _ _ _ Hpn) _ _ _ Hp' Hq' Hi) in Hp. unfold u in Ech. congruence.
      * apply Hcur. rewrite lookup_fmap, Hr0. simpl. f_equal. unfold u, changed in Ech. simpl in Ech.
        destruct (bool_decide (kr_name r0 ≠ k_name k)) eqn:En; [done|]. apply bool_decide_eq_false in En. by apply dec_stable in En.
  - destruct (cv_keys _ _ _ _ _ Hcv _ _ Hr) as [Hin|[Ha Hs]].
    + left. unfold bundleKeyEntities. by rewrite <-list_fmap_compose.
    + right. split; [done|]. exists id. apply Hcur. by rewrite lookup_fmap, Hs.
Qed.
End applied.

(** ** The apply *)

Section apply.
Context `{SchemaLang, !SchemaLaws} {A : Type} `{AccessAdmin A, !Surroundings A} `{KeyCap}.
Context (newid : string → nat → option string).
Context (newid_inj : ∀ p p' n n' id, newid p n = Some id → newid p' n' = Some id → n = n').
Implicit Types s : Project A.
Local Abbreviation Op := (M (Project A) DefError).

(** What the check before the first write admits. *)
Record admitted (cur : CurrentState) (limit : Z) (es gs ks : gmap string string) : Prop := {
  ad_envs : (Z.of_nat (size es) ≤ MaxEnvironmentsPerProject)%Z;
  ad_env_names : all_named checkName es = true;
  ad_groups : (Z.of_nat (size gs) ≤ MaxKeyGroupsPerProject)%Z;
  ad_group_names : all_named CheckGroupName gs = true;
  ad_keys : (1 ≤ limit)%Z → (Z.of_nat (size ks) ≤ Z.of_nat (length (s_keys cur)) ∨ Z.of_nat (size ks) ≤ limit)%Z;
  ad_cells : (Z.of_nat (size ks) * Z.of_nat (size es) ≤ MaxResolvedCells)%Z;
  ad_key_names : all_named checkKeyName ks = true;
}.

Lemma final_rule {Y} cur res limit (f : unit → Op Y) s Q :
  (admitted cur limit
     (final_names_of (s_envs cur) (EnvDeletes res) ((λ r, (rn_id r, rn_to r)) <$> EnvRenames res) (EnvCreates res))
     (final_names_of (s_groups cur) (GroupDeletes res) ((λ r, (rn_id r, rn_to r)) <$> GroupRenames res) (GroupCreates res))
     (final_names_of (currentKeyEntities (s_keys cur)) (KeyDeletes res)
        ((λ u, (u_id u, k_name (u_desired u))) <$> KeyUpdates res) (k_name <$> KeyCreates res)) →
   ends (f tt) s Q) → ends (bind (validateFinalDefinitions cur res limit) f) s Q.
Proof.
  unfold validateFinalDefinitions. set (es := final_names_of (s_envs cur) _ _ _). set (gs := final_names_of (s_groups cur) _ _ _).
  set (ks := final_names_of (currentKeyEntities (s_keys cur)) _ _ _). intros Hf. apply wp_bind.
  destruct (_ <? Z.of_nat (size es))%Z eqn:E1; [done|]. destruct (all_named checkName es) eqn:E2; [|done].
  destruct (_ <? Z.of_nat (size gs))%Z eqn:E3; [done|]. destruct (all_named CheckGroupName gs) eqn:E4; [|done]. cbn [negb].
  apply limit_rule. intros L1. apply limit_rule. intros L2. destruct (all_named checkKeyName ks) eqn:E5; [|done]. cbn [negb].
  apply wp_ret, Hf. apply Z.ltb_ge in E1, E3. split; [done|done|done|done| | |done].
  - by eapply keyGrowth_ok.
  - apply cells_le; [done|lia].
Qed.

Lemma passed_rule {Y} e g (f : unit → Op Y) s Q :
  (∀ a, g (access s) = (a, true) → ends (f tt) (set_access s a) Q) → ends (bind (with_access e g) f) s Q.
Proof. intros Hf. apply wp_bind. unfold wp at 1, with_access. destruct (g (access s)) as [a []]; [by apply Hf|done]. Qed.
Lemma access_rule {Y} e g (f : unit → Op Y) s Q :
  (∀ a, ends (f tt) (set_access s a) Q) → ends (bind (with_access e g) f) s Q.
Proof. intros Hf. apply passed_rule. auto. Qed.

Lemma reads_access s a cur : reads s cur → reads (set_access s a) cur.
Proof. intros [R1 R2 R3 R4 R5 R6 R7]. by split. Qed.

Lemma keys_read s cur : catalogue_ok s → reads s cur → length (s_keys cur) = size (keys s).
Proof.
  intros Hok Hrd. rewrite <-(size_dom (keys s)). unfold size, set_size. simpl.
  assert (NoDup (c_id <$> s_keys cur)) as Hnd.
  { destruct (rd_wf_key _ _ Hrd) as [Hn _]. unfold currentKeyEntities in Hn. by rewrite <-list_fmap_compose in Hn. }
  rewrite <-(length_fmap c_id). apply NoDup_same_length; [done|apply NoDup_elements|].
  intros id. rewrite elem_of_elements, elem_of_dom, list_elem_of_fmap. split.
  - intros (c & -> & (r & n & Hr & _)%(rd_key _ _ Hrd)). by eexists.
  - intros [r Hr]. destruct (ko_decl _ _ _ (ok_keys _ Hok id r Hr)) as (n & Hp & _).
    exists (read_key s id r n). split; [done|]. apply (rd_key _ _ Hrd). simpl. eauto.
Qed.

Lemma converged_keeps b cur res em gm km s s' limit :
  Inv newid s → reads s cur → canonical b → planned b cur res em gm km → converged newid b res s s' →
  (1 ≤ limit ≤ Z.min key_cap MaxKeysPerProjectCeiling)%Z →
  admitted cur limit
    (final_names_of (s_envs cur) (EnvDeletes res) ((λ r, (rn_id r, rn_to r)) <$> EnvRenames res) (EnvCreates res))
    (final_names_of (s_groups cur) (GroupDeletes res) ((λ r, (rn_id r, rn_to r)) <$> GroupRenames res) (GroupCreates res))
    (final_names_of (currentKeyEntities (s_keys cur)) (KeyDeletes res)
       ((λ u, (u_id u, k_name (u_desired u))) <$> KeyUpdates res) (k_name <$> KeyCreates res)) →
  Inv newid s'.
Proof.
  intros HI Hrd Hb Hpn Hcv Hl [A1 A2 A3 A4 A5 A6 A7]. pose proof (iv_ok _ _ HI) as Hok. pose proof (cv_ok _ _ _ _ _ Hcv) as Hok'.
  pose proof (λ id n, env_final newid b cur res em gm km s Hok Hrd Hb Hpn s' id n Hcv) as Fe.
  pose proof (λ id n, group_final newid b cur res em gm km s Hok Hrd Hb Hpn s' id n Hcv) as Fg.
  assert (∀ id n, (kr_name <$> keys s') !! id = Some n → ∃ k, final_names_of (currentKeyEntities (s_keys cur)) (KeyDeletes res)
    ((λ u, (u_id u, k_name (u_desired u))) <$> KeyUpdates res) (k_name <$> KeyCreates res) !! k = Some n) as Fk.
  { intros id n. rewrite lookup_fmap, fmap_Some. intros (r & Hr & ->). exact (key_final newid b cur res em gm km s Hok Hrd Hb Hpn s' id r Hcv Hr). }
  pose proof (names_size _ _ (ok_env_names _ Hok') Fe) as Ze. pose proof (names_size _ _ (ok_group_names _ Hok') Fg) as Zg.
  pose proof (names_size _ _ (ok_key_names _ Hok') Fk) as Zk. rewrite map_size_fmap in Ze. rewrite map_size_fmap in Zk.
  split; [done|apply Hcv| |].
  - split; intros id n Hn; [destruct (Fe id n Hn) as [k Hk]|destruct (Fg id n Hn) as [k Hk]|destruct (Fk id n Hn) as [k Hk]].
    + by eapply checkName_ok, all_named_ok.
    + by eapply CheckGroupName_ok, all_named_ok.
    + by eapply checkKeyName_ok, all_named_ok.
  - rewrite (keys_read s cur Hok Hrd) in A5. pose proof (lm_keys _ _ (iv_limits _ _ HI)). split; [lia| lia| |nia].
    destruct A5; lia.
Qed.

(** *** The pins and the guards *)

(** The caller passed the authorization of the plan's scan, of the sealer and of the
    transaction, which left the components around the service in [a]. *)
Definition admitted_apply (plan : Plan) s (a : A) : Prop :=
  ∃ a1 a2 a3 a4, AuthorizeProject "definitions.apply" (access s) = (a1, true)
    ∧ scanApplySkew (pl_id plan) (pl_bundle plan) a1 = (a2, true)
    ∧ AuthorizeProject "definitions.apply" a2 = (a3, true) ∧ ForProject a3 = (a4, true)
    ∧ AuthorizeProject "definitions.apply" a4 = (a, true).

(** Everything the plan was made under still holds of [s], the published revisions
    being those answered at [a]. *)
Record pins_hold (digestOf : Bundle → string) (opts : ApplyOptions) (plan : Plan) (b : Bundle) (a : A) s : Prop := {
  pin_digest : digestOf b = pl_digest plan;
  pin_asked : ao_digest opts = "" ∨ ao_digest opts = pl_digest plan;
  pin_revision : revision s = pl_baseRevision plan;
  pin_envs : ∃ a' published, ProjectRevisions a = (a', Some published)
    ∧ pl_envRevisions plan = Some (map_imap (λ id _, Some (default 0%Z (published !! id))) (envs s));
  pin_protected : ∃ ps, pl_protected plan = Some ps ∧
    ∀ id r, envs s !! id = Some r → er_protected r = true → id ∈ ps.*1;
}.

(** What the guards before the first write admit. *)
Record cleared (opts : ApplyOptions) (res : Resolution) s : Prop := {
  cl_values : ∀ d k, d ∈ EnvDeletes res → (k, ent_id d) ∉ values s;
  cl_allowed : DeletionsPresent res = true → AllowDelete opts = true;
  cl_secret : ∀ u, u ∈ KeyUpdates res → PrevClassification u = Secret → k_class (u_desired u) ≠ Config;
  cl_reveal : ∀ u, u ∈ KeyUpdates res → PrevClassification u = Secret → DeclChanged u = true →
    ∃ a a', revealGate "key.secret-rule-change" (u_id u) a = (a', true);
}.

Lemma refuse_plan_ends {Y} ty id c (f : unit → Op Y) s Q : ends (bind (refuse_plan ty id c) f) s Q.
Proof. apply wp_bind. unfold refuse_plan. apply access_rule. by intros a. Qed.

Lemma sameRevisionKeys_dom (a b : gmap string Z) : sameRevisionKeys a b = true → dom a = dom b.
Proof.
  unfold sameRevisionKeys. rewrite andb_true_iff, bool_decide_eq_true, forallb_forall. intros [Hs Hin].
  apply set_eq_subseteq. assert (dom a ⊆ dom b) as Hsub.
  { intros k (x & Hx)%elem_of_dom. apply elem_of_dom. specialize (Hin (k, x)). rewrite bool_decide_eq_true in Hin.
    by apply Hin, list_elem_of_In, elem_of_map_to_list. }
  split; [done|]. destruct (decide (dom b ⊆ dom a)) as [|Hn]; [done|exfalso].
  assert (size (dom a) < size (dom b)); [|rewrite !size_dom in *; lia]. apply subset_size. by split.
Qed.

Lemma changedRevision_none (a b : gmap string Z) : dom a = dom b → changedRevision a b = None → a = b.
Proof.
  intros Hd Hn. apply map_eq. intros k. pose proof (f_equal (λ X, k ∈ X) Hd) as Hk. cbv beta in Hk.
  destruct (a !! k) as [x|] eqn:Ea.
  - assert (k ∈ dom b) as (y & Hy)%elem_of_dom by (rewrite <-Hk; apply elem_of_dom; by exists x). rewrite Hy.
    assert (In k (sort_by String.leb (map_to_list a).*1)) as Hin.
    { apply list_elem_of_In, elem_of_sort_by, list_elem_of_fmap. exists (k, x). by rewrite elem_of_map_to_list. }
    pose proof (find_none _ _ Hn k Hin) as E. cbv beta in E. rewrite Ea, Hy in E. simpl in E.
    apply negb_false_iff, bool_decide_eq_true in E. by f_equal.
  - destruct (b !! k) as [y|] eqn:Eb; [|done]. exfalso. apply not_elem_of_dom in Ea. apply Ea. rewrite Hd.
    apply elem_of_dom. by exists y.
Qed.

(** [envRevisions] ranges over the environments read. *)
Lemma revisions_built (published : gmap string Z) l : ∀ m : gmap string Z, NoDup (ent_id <$> l) →
  ∀ k, foldl (λ m e, <[ent_id e := default 0%Z (published !! ent_id e)]> m) m l !! k
       = if decide (k ∈ ent_id <$> l) then Some (default 0%Z (published !! k)) else m !! k.
Proof.
  induction l as [|e l IH]; intros m Hnd k; [done|]. simpl in *. apply NoDup_cons in Hnd as [He Hnd].
  rewrite IH by done. destruct (decide (k ∈ ent_id <$> l)) as [Hin|Hout].
  - by rewrite decide_True by (by right).
  - destruct (decide (k = ent_id e)) as [->|Hne].
    + rewrite decide_True by (by left). by rewrite lookup_insert_eq.
    + rewrite decide_False by (by intros [?|?]%elem_of_cons). by rewrite lookup_insert_ne.
Qed.

Lemma revisions_read (published : gmap string Z) s cur : reads s cur →
  foldl (λ m e, <[ent_id e := default 0%Z (published !! ent_id e)]> m) ∅ (s_envs cur)
  = map_imap (λ id _, Some (default 0%Z (published !! id))) (envs s).
Proof.
  intros Hrd. apply map_eq. intros k. rewrite revisions_built by apply Hrd. rewrite map_lookup_imap, lookup_empty.
  destruct (decide _) as [([i n] & -> & Hin)%list_elem_of_fmap|Hout].
  - apply (rd_env _ _ Hrd) in Hin. simpl in *. rewrite lookup_fmap in Hin. by destruct (envs s !! i).
  - destruct (envs s !! k) as [r|] eqn:Ek; [|done]. destruct Hout. apply list_elem_of_fmap.
    exists (mkEntity k (er_name r)). split; [done|]. apply (rd_env _ _ Hrd). by rewrite lookup_fmap, Ek.
Qed.

Lemma protected_pinned s pinned names id r :
  protectedSetGrew (protectedPinIDs pinned) (protectedPinIDs (protectedPins (ListProtection s) names)) = false →
  envs s !! id = Some r → er_protected r = true → id ∈ pinned.*1.
Proof.
  intros Hg Hr Hp. unfold protectedSetGrew in Hg. rewrite existsb_false in Hg.
  assert (id ∈ protectedPinIDs pinned) as Hin; [|by apply elem_of_sort_by in Hin].
  apply dec_stable. intros Hout. specialize (Hg id). rewrite bool_decide_eq_false in Hg. apply Hg; [|done].
  apply elem_of_sort_by, list_elem_of_fmap. exists (id, default "" (names !! id)). split; [done|].
  apply elem_of_sort_by, list_elem_of_fmap. exists (id, true). split; [done|]. apply list_elem_of_filter. split; [done|].
  apply list_elem_of_fmap. exists (id, r). split; [by rewrite <-Hp|]. by apply elem_of_sort_by, elem_of_map_to_list.
Qed.

Lemma recheck_rule {Y} digestOf opts plan b cur (f : unit → Op Y) s Q :
  reads s cur → (∀ a, pins_hold digestOf opts plan b (access s) s → ends (f tt) (set_access s a) Q) →
  ends (bind (recheckPins digestOf opts plan b cur) f) s Q.
Proof.
  intros Hrd Hf. unfold recheckPins. destruct (_ || _) eqn:Hdg; [apply refuse_plan_ends|].
  apply orb_false_iff in Hdg as [D1 D2]. rewrite bool_decide_eq_false in D1. apply dec_stable in D1.
  unfold envRevisions. apply wp_bind, wp_bind, wp_bind. unfold wp at 1, surround.
  destruct (ProjectRevisions (access s)) as [a' [published|]] eqn:Epub; [|done]. apply wp_ret.
  rewrite (revisions_read published s cur Hrd). destruct (pl_envRevisions plan) as [stored|] eqn:Est; [|done].
  destruct (sameRevisionKeys _ stored) eqn:Hk; [|by apply access_rule].
  destruct (bool_decide (SchemaRevision cur ≠ pl_baseRevision plan)) eqn:Hr; [by apply access_rule|].
  destruct (changedRevision _ stored) eqn:Hch; [by apply access_rule|]. apply wp_bind, wp_gets.
  destruct (pl_protected plan) as [ps|] eqn:Eps; [|done]. destruct (protectedSetGrew _ _) eqn:Hg; [by apply access_rule|].
  apply wp_ret, Hf. rewrite bool_decide_eq_false in Hr. apply dec_stable in Hr. split.
  - done.
  - apply andb_false_iff in D2 as [D2|D2]; rewrite bool_decide_eq_false in D2; apply dec_stable in D2; auto.
  - by rewrite <-(rd_revision _ _ Hrd).
  - exists a', published. split; [done|]. rewrite Est. f_equal. symmetry.
    apply changedRevision_none; [by apply sameRevisionKeys_dom|done].
  - exists ps. split; [done|]. intros id r. by eapply (protected_pinned (set_access s a')).
Qed.

(** A loop of checks, each of which may only call a component around it. *)
Lemma checks_rule {X Y} (l : list X) (g : X → Op unit) (P : X → Prop) s0 (f : unit → Op Y) Q :
  (∀ x a, x ∈ l → ends (g x) (set_access s0 a) (λ _ s', P x ∧ ∃ a', s' = set_access s0 a')) →
  (∀ a, (∀ x, x ∈ l → P x) → ends (f tt) (set_access s0 a) Q) →
  ∀ a, ends (bind (for_each l g) f) (set_access s0 a) Q.
Proof.
  intros Hg Hf a. apply wp_bind. assert (∀ k a, (∀ x, x ∈ k → x ∈ l) →
    ends (for_each k g) (set_access s0 a) (λ _ s', (∀ x, x ∈ k → P x) ∧ ∃ a', s' = set_access s0 a')) as Hk.
  { intros k. induction k as [|x k IH]; intros a1 Hin; simpl.
    - apply wp_ret. split; [by intros x ?%elem_of_nil|eauto].
    - apply wp_bind. eapply wp_mono; [apply Hg, Hin; by left| |done]. intros [] s1 [HP [a2 ->]].
      eapply wp_mono; [apply IH; intros y Hy; apply Hin; by right| |done]. intros _ s2 [HPs Ha]. split; [|done].
      intros y [->|Hy]%elem_of_cons; auto. }
  eapply wp_mono; [by apply Hk| |done]. intros [] s2 [HP [a2 ->]]. by apply Hf.
Qed.

Lemma deletions_rule {Y} plan res opts (f : unit → Op Y) s Q :
  (∀ a, (∀ d k, d ∈ EnvDeletes res → (k, ent_id d) ∉ values s) → (DeletionsPresent res = true → AllowDelete opts = true) →
    ends (f tt) (set_access s a) Q) →
  ∀ a, ends (bind (guardDeletions plan res opts) f) (set_access s a) Q.
Proof.
  intros Hf a. apply wp_bind. unfold guardDeletions.
  apply (checks_rule (EnvDeletes res) _ (λ d, ∀ k, (k, ent_id d) ∉ values s)).
  - intros d a1 _. apply wp_bind, wp_gets. destruct (0 <? _)%nat eqn:En; [by apply access_rule|]. apply wp_ret. split; [|eauto].
    apply Nat.ltb_ge in En. assert (filter (λ v : string * string, v.2 = ent_id d) (values s) ≡ ∅) as E
      by (apply size_empty_inv; simpl in *; lia).
    intros k Hk. apply (not_elem_of_empty (C:=gset (string * string)) (k, ent_id d)). rewrite <-E. by apply elem_of_filter.
  - intros a1 Hv. destruct (DeletionsPresent res) eqn:Ed, (AllowDelete opts) eqn:Ea; simpl; try (by apply access_rule);
      apply wp_ret, Hf; auto.
Qed.

Lemma reveal_rule {Y} res (f : unit → Op Y) s Q :
  (∀ a, (∀ u, u ∈ KeyUpdates res → PrevClassification u = Secret → k_class (u_desired u) ≠ Config
      ∧ (DeclChanged u = true → ∃ a a', revealGate "key.secret-rule-change" (u_id u) a = (a', true))) →
    ends (f tt) (set_access s a) Q) →
  ∀ a, ends (bind (enforceReveal res) f) (set_access s a) Q.
Proof.
  intros Hf. unfold enforceReveal. apply (checks_rule _ _ (λ u, PrevClassification u = Secret → k_class (u_desired u) ≠ Config
      ∧ (DeclChanged u = true → ∃ a a', revealGate "key.secret-rule-change" (u_id u) a = (a', true)))); [|done].
  intros u a _. unfold NeedsReveal. destruct (decide (PrevClassification u = Secret)) as [Hs|Hs].
  2:{ rewrite !bool_decide_eq_false_2 by done. simpl. apply wp_ret. split; [done|eauto]. }
  rewrite (bool_decide_eq_true_2 _ Hs). simpl.
  destruct (decide (k_class (u_desired u) = Config)) as [Hc|Hc].
  - rewrite (bool_decide_eq_true_2 _ Hc), orb_true_r. simpl. apply wp_bind. unfold wp at 1, Catalogue_Get. destruct (keys _ !! _); [|done].
    destruct (DeclChanged u); simpl; [by apply access_rule|done].
  - rewrite (bool_decide_eq_false_2 _ Hc), orb_false_r. destruct (DeclChanged u) eqn:Hd; simpl.
    + apply wp_bind. unfold wp at 1, Catalogue_Get. destruct (keys _ !! _); [|done]. apply wp_bind. unfold wp at 1, with_access.
      destruct (revealGate _ _ _) as [a' []] eqn:Eg; [|done]. apply wp_ret. split; [|eauto]. intros _. split; [done|]. eauto.
    + apply wp_ret. split; [done|eauto].
Qed.

(** *** The transaction *)

Lemma access_ends e g s Q : (∀ a, g (access s) = (a, true) → Q tt (set_access s a)) → ends (with_access e g : Op unit) s Q.
Proof. intros HQ. unfold wp, with_access. destruct (g (access s)) as [a []]; [by apply HQ|done]. Qed.

Lemma converged_access b res s a s' : converged newid b res (set_access s a) s' → converged newid b res s s'.
Proof. intros [C1 C2 C3 C4 C5 C6 C7 C8 C9 C10 C11]. split; try done. intros Ha. by destruct (C5 Ha). Qed.

Definition finals (cur : CurrentState) (res : Resolution) (limit : Z) : Prop :=
  admitted cur limit
    (final_names_of (s_envs cur) (EnvDeletes res) ((λ r, (rn_id r, rn_to r)) <$> EnvRenames res) (EnvCreates res))
    (final_names_of (s_groups cur) (GroupDeletes res) ((λ r, (rn_id r, rn_to r)) <$> GroupRenames res) (GroupCreates res))
    (final_names_of (currentKeyEntities (s_keys cur)) (KeyDeletes res)
       ((λ u, (u_id u, k_name (u_desired u))) <$> KeyUpdates res) (k_name <$> KeyCreates res)).

(** What a committed apply was checked against, and what it did: nothing when the
    bundle already holds, or the writes of the executor. *)
Record applied (encodedLen : Bundle → N) (digestOf : Bundle → string) (rq : Request) (plan : Plan) (opts : ApplyOptions) s s'
    (b : Bundle) (cur : CurrentState) (res : Resolution) : Prop := {
  ap_live : pl_applied plan = false ∧ pl_expired plan = false;
  ap_bundle : ∃ decls, Canonicalize encodedLen (pl_bundle plan) = Ok (b, decls);
  ap_reads : reads s cur;
  ap_pins : ∃ a, admitted_apply plan s a ∧ pins_hold digestOf opts plan b a s;
  ap_additive : Additive b = true → AllowDelete opts = false;
  ap_limit : ∃ limit, projectKeyLimit (rq_override rq) (rq_default rq) (rq_maximum rq) = Ok limit ∧ finals cur res limit;
  ap_canonical : canonical b;
  ap_planned : ∃ em gm km, planned b cur res em gm km;
  ap_done : (Empty res = true ∧ same s s') ∨ (cleared opts res s ∧ ∃ s3, converged newid b res s s3 ∧ same s3 s');
}.

Lemma Definitions_Apply_applied encodedLen digestOf rq plan opts s :
  catalogue_ok s → fresh newid s →
  ends (Definitions_Apply newid encodedLen digestOf rq plan opts) s
    (λ _ s', ∃ b cur res, applied encodedLen digestOf rq plan opts s s' b cur res).
Proof.
  intros Hok Hf. unfold Definitions_Apply. apply wp_bind.
  assert (∀ l, ends (for_each l (λ t, match sanitizeProvenance t with Ok _ => ret tt | Err _ => fail (ErrInvalid "provenance") end)) s
    (λ _ s', s' = s)) as Hp.
  { intros l. induction l as [|x l IH]; simpl; [done|]. apply wp_bind. by destruct (sanitizeProvenance x). }
  eapply wp_mono; [apply Hp| |done]. intros [] ? ->. apply passed_rule. intros a1 G1. apply passed_rule. intros a2 G2.
  unfold sealerFor. apply wp_bind, passed_rule. intros a3 G3. apply access_ends. intros a4 G4. apply passed_rule. intros a5 G5.
  assert (admitted_apply plan s a5) as Hadm by (by exists a1, a2, a3, a4). clear G1 G2 G3 G4 G5.
  destruct (pl_applied plan) eqn:El; [done|]. destruct (pl_expired plan) eqn:Ee; [done|].
  destruct (Canonicalize _ _) as [[b decls]|] eqn:Hc; [|done].
  destruct (buildCurrentState_reads (set_access s a5) (catalogue_ok_same s (set_access s a5) (same_refl s) Hok)) as (cur & Hbc & Hrd).
  match goal with |- wp _ ?x _ _ => change x with (set_access s a5) end.
  apply wp_bind. unfold wp at 1. rewrite Hbc. apply recheck_rule; [done|]. intros a6 Hpins.
  destruct (Additive b && AllowDelete opts) eqn:Had; [done|]. destruct (Resolve b cur) as [res|] eqn:Hres; [|done].
  apply wp_bind. unfold keyLimit. destruct (projectKeyLimit _ _ _) as [limit|] eqn:Hl; [|done]. apply wp_ret.
  apply final_rule. intros Hfin. destruct (Canonicalize_spec _ _ _ _ Hc) as [Hcz Hd].
  destruct (resolve_planned b cur res) as (em & gm & km & Hpn); [apply Hrd|apply Hrd|apply Hrd|done|].
  pose proof (resolved_canonical _ _ _ _ _ _ _ Hcz Hpn) as Hcan. apply (reads_access _ (access s)) in Hrd.
  assert (∀ s', (Empty res = true ∧ same s s') ∨ (cleared opts res s ∧ ∃ s3, converged newid b res s s3 ∧ same s3 s') →
    applied encodedLen digestOf rq plan opts s s' b cur res) as Hall.
  { intros s' Hdone. split; [done|by exists decls| | | |by exists limit|done|by exists em, gm, km|done].
    - by destruct Hrd.
    - exists a5. split; [done|]. by destruct Hpins.
    - intros Ha. by rewrite Ha in Had. }
  destruct (Empty res); [apply wp_ret; exists b, cur, res; apply Hall; by left|].
  apply (deletions_rule plan res opts _ s). intros a7 Hv Hdel. apply (reveal_rule res _ s). intros a8 Hrev. apply access_rule. intros a9.
  apply wp_bind. eapply wp_mono; [eapply (execute_converges newid newid_inj b cur res em gm km)| |done].
  - exact (catalogue_ok_same s (set_access s a9) (same_refl s) Hok).
  - apply (reads_access _ a9 _ Hrd).
  - done.
  - done.
  - exact Hf.
  - apply Hd, Hcan.
  - intros ? s3 Hcv%(converged_access b res s a9). apply rest; [eauto 12 with quiet|]. intros s4 E4. exists b, cur, res. apply Hall. right.
    split; [|by exists s3]. split; [done|done|intros u Hu Hs; apply (Hrev u Hu Hs)|intros u Hu Hs; apply (Hrev u Hu Hs)].
Qed.

Lemma Definitions_Apply_keeps encodedLen digestOf rq plan opts s :
  within key_cap rq → Inv newid s → ends (Definitions_Apply newid encodedLen digestOf rq plan opts) s (λ _ s', Inv newid s').
Proof.
  intros Hw HI. eapply wp_mono; [apply Definitions_Apply_applied; apply HI| |done].
  intros _ s' (b & cur & res & Hap). destruct (ap_done _ _ _ _ _ _ _ _ _ _ Hap) as [[_ Hs]|[_ (s3 & Hcv & Hs)]]; [by eapply Inv_same|].
  apply (Inv_same newid s3 s' Hs). destruct (ap_limit _ _ _ _ _ _ _ _ _ _ Hap) as (limit & El & Hfin).
  destruct (ap_planned _ _ _ _ _ _ _ _ _ _ Hap) as (em & gm & km & Hpn).
  eapply (converged_keeps b cur res em gm km s s3 limit); [done|apply Hap|apply Hap|done|done| |done].
  pose proof (projectKeyLimit_range _ _ _ _ El). specialize (Hw _ El). lia.
Qed.

(** Deletions are asked for and empty, and a secret key stays secret. *)
Lemma applied_guarded encodedLen digestOf rq plan opts s s' b cur res :
  catalogue_ok s → applied encodedLen digestOf rq plan opts s s' b cur res →
  ∃ envs_gone groups_gone keys_gone : list string,
    (envs_gone ++ groups_gone ++ keys_gone ≠ [] → AllowDelete opts = true ∧ Additive b = false)
    ∧ (∀ id k, id ∈ envs_gone → (k, id) ∉ values s)
    ∧ (∀ id r, envs s !! id = Some r → id ∉ envs_gone → ∃ r', envs s' !! id = Some r' ∧ env_mark r' = env_mark r)
    ∧ (∀ id, is_Some (groups s !! id) → id ∉ groups_gone → is_Some (groups s' !! id))
    ∧ (∀ id r, keys s !! id = Some r → id ∉ keys_gone →
        ∃ r', keys s' !! id = Some r' ∧ (kr_class r = Secret → kr_class r' = Secret)).
Proof.
  intros Hok Hap.
  destruct (ap_done _ _ _ _ _ _ _ _ _ _ Hap) as [[_ (E1 & E2 & E3 & _)]|[[Cv Ca Cs _] (s3 & Hcv & (E1 & E2 & E3 & _))]].
  - exists [], [], []. rewrite E1, E2, E3. split_and!; [done|by intros id k ?%elem_of_nil| |done|]; intros id r Hr _; by exists r.
  - exists (ids_of (EnvDeletes res)), (ids_of (GroupDeletes res)), (ids_of (KeyDeletes res)). rewrite E1, E2, E3. split_and!.
    + intros Hne. assert (AllowDelete opts = true) as Hal.
      { apply Ca. unfold DeletionsPresent, ids_of in *. by destruct (EnvDeletes res), (GroupDeletes res), (KeyDeletes res). }
      split; [done|]. destruct (Additive b) eqn:Hadd; [|done]. by rewrite (ap_additive _ _ _ _ _ _ _ _ _ _ Hap Hadd) in Hal.
    + intros id k (d & -> & Hd)%list_elem_of_fmap. by apply Cv.
    + apply Hcv.
    + apply Hcv.
    + intros id r Hr Hid. destruct (cv_key_stays _ _ _ _ _ Hcv id r Hr Hid) as (r' & Hr' & Hcl). exists r'. split; [done|].
      intros Hsec. destruct Hcl as [Hcl|(u & Hu & Hpv & Hcl)]; [congruence|]. rewrite Hsec in Hpv.
      pose proof (Cs u Hu Hpv). pose proof (ko_class _ _ _ (ok_keys _ (cv_ok _ _ _ _ _ Hcv) id r' Hr')) as Hck.
      unfold class_ok in Hck. apply bool_decide_eq_true in Hck. rewrite !elem_of_cons in Hck.
      destruct Hck as [?|[?|?%elem_of_nil]]; [congruence|congruence|done].
Qed.
End apply.
