(* ===== verification/KeyServicesProps.v ===== *)
(** * The life of a project's definitions

    Every committed request of the services is a step; whatever the order they
    come in, the definitions stay sound. Requests that edit one definition at a
    time also keep every key group satisfiable; a plan's apply does not look. *)

From stdpp Require Import prelude gmap strings pretty list.
From S2P Require Import Prelude StateErr Presence Definitions DefinitionsMatch Catalogue DefinitionsApply.
From S2P Require Import DefinitionsState DefinitionsRealize DefinitionsExec DefinitionsKeys DefinitionsTopology.
From S2P Require Import DefinitionsConverge DefinitionsParse DefinitionsExport EnvironmentDelete DefinitionsProps.
From S2P Require Import EntityNames GroupIndex KeyServices KeyServicesFacts KeyServicesMethods.
From S2P Require Import KeyServicesGroups KeyServicesApply.

Section life.
Context `{SchemaLang, !SchemaLaws} {A : Type} `{AccessAdmin A, !Surroundings A}.
Context (newid : string → nat → option string) (encodedLen : Bundle → N) (digestOf : Bundle → string).
Context (admits : Request → Prop).
Implicit Types s : Project A.

(** One committed request that edits a definition. [edit_other] is any other
    transaction, and a request that was refused and rolled back: it leaves the
    definition tables as they were. Requests that add keys are those [admits]
    allows. *)
Inductive edit : Project A → Project A → Prop :=
| edit_key_create rq spec s s' id : admits rq → Keys_Create newid rq spec s = (s', Ok id) → edit s s'
| edit_key_rename rq id name s s' x : Keys_Rename rq id name s = (s', Ok x) → edit s s'
| edit_key_metadata rq id m s s' x : Keys_UpdateMetadata rq id m s = (s', Ok x) → edit s s'
| edit_key_declaration rq id d p s s' x : Keys_UpdateDeclaration rq id d p s = (s', Ok x) → edit s s'
| edit_key_class rq id class s s' x : Keys_Reclassify rq id class s = (s', Ok x) → edit s s'
| edit_key_group rq id g s s' x : Keys_SetGroup rq id g s = (s', Ok x) → edit s s'
| edit_key_delete rq id s s' x : Keys_Delete rq id s = (s', Ok x) → edit s s'
| edit_group_create rq name s s' id : KeyGroups_Create newid rq name s = (s', Ok id) → edit s s'
| edit_group_rename rq id name s s' x : KeyGroups_Rename rq id name s = (s', Ok x) → edit s s'
| edit_group_delete rq id s s' x : KeyGroups_Delete rq id s = (s', Ok x) → edit s s'
| edit_env_create rq name source s s' id : Environments_create newid rq name source s = (s', Ok id) → edit s s'
| edit_env_rename rq env name s s' x : Environments_Rename_tx rq env name s = (s', Ok x) → edit s s'
| edit_env_reorder rq ordered s s' : Environments_Reorder rq ordered s = (s', Ok tt) → edit s s'
| edit_env_delete source admitted env s s' : Environments_Delete_tx source admitted env s = (s', Ok tt) → edit s s'
| edit_other s s' : same s s' → edit s s'.

(** An edit, or the apply of a plan. *)
Inductive step : Project A → Project A → Prop :=
| step_edit s s' : edit s s' → step s s'
| step_apply rq plan opts s s' :
    admits rq → Definitions_Apply newid encodedLen digestOf rq plan opts s = (s', Ok tt) → step s s'.

(** A project with no definition yet. *)
Definition new_project s : Prop := envs s = ∅ ∧ groups s = ∅ ∧ keys s = ∅ ∧ presence s = ∅ ∧ fresh newid s.

Lemma new_ok `{KeyCap} s : (0 ≤ key_cap)%Z → new_project s → Inv newid s ∧ grouped s.
Proof.
  intros Hcap (E1 & E2 & E3 & E4 & Hf). split; [|intros i j ri rj e Hi; by rewrite E3, lookup_empty in Hi].
  split; [|done| |].
  - split; rewrite ?E1, ?E2, ?E3, ?E4; try (intros *; rewrite ?fmap_empty, ?lookup_empty; by (intros ? || intros [? ?])); done.
  - split; unfold env_names, key_names; rewrite ?E1, ?E2, ?E3, ?fmap_empty; intros id n; by rewrite lookup_empty.
  - split; rewrite ?E1, ?E2, ?E3, ?map_size_empty; unfold MaxKeysPerProjectCeiling; first [done|lia].
Qed.

(** A method's promise, for the request that was committed. *)
Lemma committed {X} (m : M (Project A) DefError X) s s' x Q : ends m s Q → m s = (s', Ok x) → Q x s'.
Proof. unfold wp. intros Hm E. by rewrite E in Hm. Qed.

Context (Honce : mints_once newid) `{KeyCap} (Hadmits : ∀ rq, admits rq → within key_cap rq).

Lemma edit_keeps s s' : edit s s' → Inv newid s → Inv newid s' ∧ (grouped s → grouped s').
Proof.
  intros [] HI; try (eapply (committed _ _ _ _ (λ _ t, Inv newid t ∧ (grouped _ → grouped t))); [|eassumption]).
  - apply Keys_Create_keeps; auto.
  - by apply Keys_Rename_keeps.
  - by apply Keys_UpdateMetadata_keeps.
  - by apply Keys_UpdateDeclaration_keeps.
  - by apply Keys_Reclassify_keeps.
  - by apply Keys_SetGroup_keeps.
  - by apply Keys_Delete_keeps.
  - by apply KeyGroups_Create_keeps.
  - by apply KeyGroups_Rename_keeps.
  - by apply KeyGroups_Delete_keeps.
  - by apply Environments_create_keeps.
  - by apply Environments_Rename_keeps.
  - by apply Environments_Reorder_keeps.
  - by apply Environments_Delete_keeps.
  - split; [by eapply Inv_same|by apply regrouped].
Qed.

Lemma step_keeps s s' : step s s' → Inv newid s → Inv newid s'.
Proof.
  intros [] HI; [by eapply edit_keeps|].
  eapply (committed _ _ _ _ (λ _ t, Inv newid t)); [|eassumption]. apply Definitions_Apply_keeps; auto.
Qed.

Lemma steps_keep s s' : rtc step s s' → Inv newid s → Inv newid s'.
Proof. induction 1; [done|]. intros HI. eauto using step_keeps. Qed.

Lemma edits_keep s s' : rtc edit s s' → Inv newid s → grouped s → Inv newid s' ∧ grouped s'.
Proof. induction 1 as [|s s1 s' E _ IH]; [done|]. intros HI Hg. destruct (edit_keeps _ _ E HI). apply IH; auto. Qed.

(** The rules of a group's members. *)
Definition member_rules s (g : string) : list PresenceRules :=
  (λ kr, key_rules s kr.1 kr.2) <$> filter (λ kr, kr_group kr.2 = g) (ListKeys s).
End life.

Section claims.
Context `{SchemaLang, !SchemaLaws} {A : Type} `{AccessAdmin A, !Surroundings A}.
Context (newid : string → nat → option string) (encodedLen : Bundle → N) (digestOf : Bundle → string).
Implicit Types s : Project A.

(** C5 A project's definitions stay sound. In every state a new project reaches
    through committed requests of the key, group and environment services and
    applied plans, in any order and with anything else in between, names are
    unique and of the grammar of their kind (a key's is capital letters, digits
    and underscores, 1 to 128 bytes), no group, key or environment a row names is
    missing, every stored declaration is the canonical text of one that compiles
    for its classification, no key is required and forbidden in one environment,
    and the project is within its limits of environments, groups and resolved
    cells and holds at most as many keys as the largest key limit that was in
    force ([cap]), and never more than the instance's ceiling. *)
Theorem definitions_reachable_sound cap s0 s :
  mints_once newid → new_project newid s0 → (0 ≤ cap)%Z → rtc (step newid encodedLen digestOf (within cap)) s0 s →
  catalogue_ok s ∧ well_named s ∧ limits cap s.
Proof.
  intros Hm Hn Hc Hs. pose (cap : KeyCap) as Hcap. destruct (new_ok newid s0 Hc Hn) as [HI _].
  pose proof (steps_keep newid encodedLen digestOf (within cap) Hm (λ _ Hr, Hr) s0 s Hs HI) as [I1 _ I3 I4]. done.
Qed.

(** C14 Editing never locks a key group. In every state a new project reaches
    through requests that edit its definitions one at a time, every environment,
    including ones created later, leaves every group a presence that obeys the
    rules of all its members. *)
Theorem edited_groups_satisfiable admits s0 s g env :
  mints_once newid → new_project newid s0 → rtc (edit newid admits) s0 s → g ≠ "" →
  group_satisfiable (member_rules s g) env.
Proof.
  intros Hm Hnew Hs Hne. pose (MaxKeysPerProjectCeiling : KeyCap) as Hcap.
  assert (∀ rq, admits rq → within key_cap rq) as Hw by (intros rq _ l Hl; by apply projectKeyLimit_range in Hl as [_ ?]).
  destruct (new_ok newid s0) as [HI Hg]; [done|done|].
  destruct (edits_keep newid admits Hm Hw s0 s Hs HI Hg) as [HI' Hg'].
  assert (∀ p, p ∈ member_rules s g ↔ ∃ i r, keys s !! i = Some r ∧ kr_group r = g ∧ p = key_rules s i r) as Hp.
  { intros p. unfold member_rules. rewrite list_elem_of_fmap. setoid_rewrite list_elem_of_filter. split.
    - intros ([i r] & -> & Hgr & Hr%ListKeys_elem). eauto.
    - intros (i & r & Hr & Hgr & ->). exists (i, r). by rewrite ListKeys_elem. }
  exists (existsb (λ m, Covers (Required m) env) (member_rules s g)). intros m Hin. split.
  - intros Hc. apply existsb_true. eauto.
  - intros Hf. apply existsb_false. intros m' Hin'. apply not_true_iff_false. intros Hr'.
    apply Hp in Hin as (i & r & Hi & Hgi & ->), Hin' as (j & q & Hj & Hgj & ->).
    destruct (decide (j = i)) as [->|Hji].
    + rewrite Hi in Hj. injection Hj as <-.
      pose proof (ko_presence _ _ _ (ok_keys _ (iv_ok _ _ HI') i r Hi)) as (_ & _ & Hno)%CheckPresence_ok. by apply (Hno env).
    + apply (Hg' j i q r env); [done|done|done|congruence|congruence|done].
Qed.

(** C37 An applied plan is current and guarded. When an apply commits, the plan was
    neither used nor expired and the caller was authorized; the digest of its
    bundle is the one recorded, and the one asked for, if any; the definitions are
    at the revision and the environments exactly those, at the value revisions, the
    plan recorded, and every protected environment was protected then. What it removes, it was allowed to remove by
    the caller, under a bundle that is not additive, and no removed environment
    held a value; every other environment keeps its order and protection, every
    other group and key is still there, and no secret key became a config key. *)
Theorem applied_plan_guarded rq plan opts s s' :
  mints_once newid → catalogue_ok s → fresh newid s →
  Definitions_Apply newid encodedLen digestOf rq plan opts s = (s', Ok tt) →
  pl_applied plan = false ∧ pl_expired plan = false
  ∧ ∃ a b decls, admitted_apply plan s a ∧ Canonicalize encodedLen (pl_bundle plan) = Ok (b, decls)
  ∧ pins_hold digestOf opts plan b a s
  ∧ ∃ envs_gone groups_gone keys_gone : list string,
    (envs_gone ++ groups_gone ++ keys_gone ≠ [] → AllowDelete opts = true ∧ Additive b = false)
    ∧ (∀ id k, id ∈ envs_gone → (k, id) ∉ values s)
    ∧ (∀ id r, envs s !! id = Some r → id ∉ envs_gone → ∃ r', envs s' !! id = Some r' ∧ env_mark r' = env_mark r)
    ∧ (∀ id, is_Some (groups s !! id) → id ∉ groups_gone → is_Some (groups s' !! id))
    ∧ (∀ id r, keys s !! id = Some r → id ∉ keys_gone →
        ∃ r', keys s' !! id = Some r' ∧ (kr_class r = Secret → kr_class r' = Secret)).
Proof.
  intros Hm Hok Hf He. destruct (committed _ _ _ _ _ (Definitions_Apply_applied newid Hm encodedLen digestOf rq plan opts s Hok Hf) He)
    as (b & cur & res & Hap).
  destruct (ap_live _ _ _ _ _ _ _ _ _ _ _ Hap) as [? ?], (ap_bundle _ _ _ _ _ _ _ _ _ _ _ Hap) as [decls Hc],
    (ap_pins _ _ _ _ _ _ _ _ _ _ _ Hap) as (a & Ha & Hpins). do 2 (split; [done|]).
  exists a, b, decls. do 3 (split; [done|]). by eapply applied_guarded.
Qed.
End claims.

(** ** A sample history *)

#[local] Existing Instances plain_schema plain_laws open_access.

(** Components around the services that allow everything. *)
Definition open_surroundings : Surroundings () := {|
  AuthorizeProject _ a := (a, true); AuthorizeKey _ _ a := (a, Some None); AuthorizeKeyIn _ _ _ a := (a, true);
  declarationScan _ _ a := (a, true); textScan _ a := (a, true); emitOverrides _ a := (a, true); ForProject a := (a, true);
  scanDeclassified _ _ a := (a, true); revealGate _ _ a := (a, true); confirmMove _ _ _ _ a := (a, true);
  scanApplySkew _ _ a := (a, true); ProjectRevisions a := (a, Some ∅);
  captureDenied _ _ a := (a, true); confirmMoves _ _ a := (a, true);
  MarkPlanApplied _ a := (a, true); republish _ _ s := (tt, Some (snapshots s, snapshot_rows s));
  cloneInto _ _ s := (tt, Some ∅) |}.

#[local] Existing Instance open_surroundings.

Definition rq : Request := mkRequest "database" true None 0 0.
Definition everywhere : PresenceRules := mkPresenceRules (mkPresence PresenceAll []) (mkPresence PresenceNone []).
Definition nowhere : PresenceRules := mkPresenceRules (mkPresence PresenceNone []) (mkPresence PresenceAll []).
Definition key_in (g name : string) (p : PresenceRules) : NewKeySpec := @mkNewKeySpec plain_schema name "" Secret "" false "" "string" p g.

(** An environment, a group, and a member required everywhere. *)
Definition st_env : Project () := (Environments_create numbered rq "prod" "" blank).1.
Definition st_group : Project () := (KeyGroups_Create numbered rq "db" st_env).1.
Definition st_key : Project () := (Keys_Create numbered rq (key_in "k1" "PASSWORD" everywhere) st_group).1.

(** The service refuses a member forbidden everywhere next to it. *)
Example conflicting_member_refused :
  (Keys_Create numbered rq (key_in "k1" "HOST" nowhere) st_key).2 = Err (ErrInvalid "group presence").
Proof. vm_compute. reflexivity. Qed.

Lemma blank_new : new_project numbered blank.
Proof. split_and!; try done. apply blank_ok. Qed.

(** The request is under the default limit of 1000 keys. *)
Lemma rq_within : within 1000 rq.
Proof. intros l. vm_compute. intros [= <-]. discriminate. Qed.

Lemma edited : rtc (edit numbered (within 1000)) blank st_key.
Proof.
  apply (rtc_l _ _ st_env); [apply (edit_env_create numbered _ rq "prod" "" _ _ "k0"); vm_compute; reflexivity|].
  apply (rtc_l _ _ st_group); [apply (edit_group_create numbered _ rq "db" _ _ "k1"); vm_compute; reflexivity|].
  apply rtc_once, (edit_key_create numbered _ rq (key_in "k1" "PASSWORD" everywhere) _ _ "k2"); [apply rq_within|].
  vm_compute. reflexivity.
Qed.

Lemma edited_groups_satisfiable_witness :
  length (member_rules st_key "k1") = 1 ∧ group_satisfiable (member_rules st_key "k1") "k0".
Proof.
  split; [vm_compute; reflexivity|].
  apply (edited_groups_satisfiable numbered _ blank st_key "k1" "k0" numbered_once blank_new edited). done.
Defined.

(** The required member, set in the environment. *)
Definition st_index : groupIndex :=
  match newGroupIndex (ListKeys st_key) (ListPresence st_key) with Ok i => i | Err _ => emptyIndex [] end.
Definition st_cells : list resolvedCell :=
  (λ kr, mkCell kr.1 kr.2 true "hunter2") <$> ListKeys st_key.
Definition visit (m : gmap string (list bool)) : list string := (map_to_list m).*1.

Lemma publish_validation_exact_witness :
  validateResolvedPublish (λ _ _, true) visit st_index st_cells "k0" = Ok tt
  ∧ (validateResolvedPublish (λ _ _, true) visit st_index st_cells "k0" = Ok tt ↔
     (∀ c, c ∈ st_cells → cell_ok (λ _ _, true) st_key "k0" c) ∧ unanimous st_cells).
Proof.
  split; [vm_compute; reflexivity|]. apply (publish_validation_exact (λ _ _, true) visit st_key st_index st_cells "k0").
  - vm_compute. reflexivity.
  - intros m g [x Hx]. apply list_elem_of_fmap. exists (g, x). split; [done|]. by apply elem_of_map_to_list.
  - intros c ([id r] & -> & Hr%ListKeys_elem)%list_elem_of_fmap. exact Hr.
Defined.

(** A plan that renames the environment and adds another, over the edited project. *)
Definition rename_plan : Plan :=
  mkPlan "p1" false false (mkBundle 1 (Some 3%Z) [mkEntity "k0" "live"; mkEntity "" "test"] [mkEntity "k1" "db"]
    [@mkKey plain_schema "k2" "PASSWORD" "" Secret "" false "" "db" "string" (mkPresence PresenceAll []) (mkPresence PresenceNone [])])
    "d" (revision st_key) (Some {[ "k0" := 0%Z ]}) (Some []).
Definition digest (b : Bundle) : string := "d".
Definition options (allow : bool) : ApplyOptions := mkApplyOptions allow "d" "" "" "" [].
Definition st_plan : Project () :=
  (Definitions_Apply numbered small digest rq rename_plan (options false) st_key).1.

Lemma definitions_reachable_sound_witness :
  env_names st_plan !! "k0" = Some "live" ∧ size (envs st_plan) = 2
  ∧ catalogue_ok st_plan ∧ well_named st_plan ∧ limits 1000 st_plan.
Proof.
  split; [vm_compute; reflexivity|]. split; [vm_compute; reflexivity|].
  apply (definitions_reachable_sound numbered small digest 1000 blank st_plan numbered_once blank_new); [lia|].
  transitivity st_key.
  - apply (rtc_subrel _ _ blank st_key (step_edit numbered small digest (within 1000))). exact edited.
  - apply rtc_once, (step_apply numbered small digest _ rq rename_plan (options false)); [apply rq_within|]. vm_compute. reflexivity.
Defined.

(** A plan that removes the empty environment and keeps the rest. *)
Definition prune_plan : Plan :=
  mkPlan "p3" false false (mkBundle 1 (Some 3%Z) [] [mkEntity "k1" "db"]
    [@mkKey plain_schema "k2" "PASSWORD" "" Secret "" false "" "db" "string" (mkPresence PresenceAll []) (mkPresence PresenceNone [])])
    "d" (revision st_key) (Some {[ "k0" := 0%Z ]}) (Some []).
Definition st_pruned : Project () := (Definitions_Apply numbered small digest rq prune_plan (options true) st_key).1.

(** Without leave to delete it is refused, and so is one made before a change. *)
Example prune_refused :
  (Definitions_Apply numbered small digest rq prune_plan (options false) st_key).2 = Err (ErrConflict (DeletionRefused "allow-delete"))
  ∧ (Definitions_Apply numbered small digest rq prune_plan (options true) st_plan).2 = Err (ErrConflict (StalePin "environment topology")).
Proof. split; vm_compute; reflexivity. Qed.

Lemma st_key_sound : catalogue_ok st_key ∧ fresh numbered st_key.
Proof.
  pose (1000%Z : KeyCap) as Hcap. destruct (new_ok numbered blank) as [HI Hg]; [done|apply blank_new|].
  destruct (edits_keep numbered (within 1000) numbered_once (λ _ Hr, Hr) blank st_key edited HI Hg) as [[I1 I2 _ _] _]. done.
Qed.

Lemma applied_plan_guarded_witness :
  (Definitions_Apply numbered small digest rq prune_plan (options true) st_key).2 = Ok tt
  ∧ size (envs st_key) = 1 ∧ envs st_pruned = ∅ ∧ size (keys st_pruned) = 1
  ∧ pl_applied prune_plan = false.
Proof.
  split; [vm_compute; reflexivity|]. split; [vm_compute; reflexivity|]. split; [vm_compute; reflexivity|].
  split; [vm_compute; reflexivity|]. destruct st_key_sound as [Hok Hf].
  apply (applied_plan_guarded numbered small digest rq prune_plan (options true) st_key st_pruned numbered_once Hok Hf).
  vm_compute. reflexivity.
Defined.

(** ** What an apply does not check *)

(** Two members of one group, required and forbidden in every environment, in a
    project that has no environment yet and so publishes nothing. *)
Definition locked_plan : Plan :=
  mkPlan "p2" false false (mkBundle 1 None [] [mkEntity "" "db"]
    [@mkKey plain_schema "" "HOST" "" Secret "" false "" "db" "string" (mkPresence PresenceNone []) (mkPresence PresenceAll []);
     @mkKey plain_schema "" "PASSWORD" "" Secret "" false "" "db" "string" (mkPresence PresenceAll []) (mkPresence PresenceNone [])])
    "d" (revision blank) (Some ∅) (Some []).
Definition locked : Project () := (Definitions_Apply numbered small digest rq locked_plan (options false) blank).1.

(** The apply writes a group the services refuse: no environment created later
    can satisfy it, and only its publication tells. *)
Theorem apply_admits_locked_group :
  (Definitions_Apply numbered small digest rq locked_plan (options false) blank).2 = Ok tt
  ∧ (∃ g, groups locked !! g = Some "db" ∧ length (member_rules locked g) = 2 ∧ ∀ env, ¬ group_satisfiable (member_rules locked g) env).
Proof.
  split; [vm_compute; reflexivity|]. exists "k0". split; [vm_compute; reflexivity|].
  assert (member_rules locked "k0" = [nowhere; everywhere]) as -> by (vm_compute; reflexivity).
  split; [done|]. intros env [set Hs]. pose proof (proj2 (Hs nowhere ltac:(by left)) eq_refl).
  pose proof (proj1 (Hs everywhere ltac:(by right; left)) eq_refl). congruence.
Qed.
